(* ===== verification/_CoqProject ===== *)
-Q . S2P
Prelude.v
Riscv.v
Mem.v
Cstring.v
Spinlock.v
Kalloc.v
Vm.v
PageTable.v
Mapping.v
UserMem.v
UserCopy.v
UserFree.v
VmProps.v
ProcMem.v
Sleeplock.v
Bio.v
BioSpec.v
BufCache.v
FsLayout.v
Log.v
LogSpec.v
LogCrash.v
LogOps.v
Fs.v
FsBlocks.v
FsFile.v
FsIo.v
FsInode.v
FsDir.v
FsStore.v
FsProps.v
Mkfs.v
MkfsFile.v
MkfsSpec.v
MkfsMain.v
MkfsBoot.v
Pipe.v
PipeSpec.v
File.v
FileWrite.v
Syscall.v
SysFile.v
FileTable.v
Exec.v
Ulib.v
Printf.v
Proc.v
Procdump.v
Ring.v
Console.v
ConsoleSpec.v
Virtio.v
VirtioSpec.v
Umalloc.v
UmallocSpec.v
ProcSpec.v
ProcInv.v
ProcSafe.v
SysProc.v
SleepSpec.v
KillZero.v
Trap.v
Grep.v
Sh.v
ShPrint.v
ShRun.v
