(* ===== verification/Prelude.v ===== *)
(** * Verification of xv6-riscv

    This library models xv6, a small Unix for RISC-V multiprocessors written
    in C, and proves that its parts do what their callers rely on.  The
    sources are kernel/ (the kernel), user/ (library and programs) and mkfs/
    (the host program that builds the first file-system image).

    ** The program and its parts

    Interrupts, faults and system calls enter the kernel through trap.c,
    which dispatches to the drivers (uart.c and console.c, virtio_disk.c,
    the PLIC in plic.c), to the scheduler in proc.c and, through syscall.c,
    to the system calls in sysproc.c, sysfile.c and exec.c.  Processes are
    in proc.c, their memory in vm.c over the page allocator kalloc.c.  Open
    files (file.c, pipe.c) sit on the file system fs.c, which reads and
    writes blocks through the write-ahead log log.c, which uses the buffer
    cache bio.c, which uses the disk driver.  Spin locks (spinlock.c) and
    sleep locks (sleeplock.c) protect the shared data.  User programs use
    ulib.c, umalloc.c and printf.c; the shell sh.c and grep.c are programs.

    ** How code is modelled

    C integers are elements of Z; every conversion, wrap-around and shift of
    the source is written out (u8 ... u64, s32).  Memory is a finite map
    from addresses to bytes (Mem.v) where the code uses addresses (kalloc.c,
    vm.c, string.c, umalloc.c); elsewhere a pointer into a fixed array is
    the index of the element (processes, buffers, inodes, files,
    descriptors).  A function is a state transformer of the monad M of this
    file: it returns (Ok), panics (Panic), gives up the CPU to sleep
    (Blocked), or does something C leaves undefined, such as indexing out of
    an array (Stuck).  A C loop is [loop] with fuel; running out of fuel is
    Stuck, so that a wp theorem shows that the fuel is enough.  [wp] is
    total correctness: the code returns and its result satisfies the
    postcondition; [wlp], partial correctness, is only used for invariants
    of reachable states.  A component's operation is lifted to a larger
    state by [zoom]; definitions such as bc_acquire and lg_release are the
    lock operations of Spinlock.v, lifted to the component that has the
    lock.  A function that sleeps and goes on later is split where it gives
    up the CPU, and step relations run the pieces of several processes, CPUs
    or devices interleaved.  Code that calls wakeup runs over [waking S], the
    state and the channels woken so far; a step relation makes exactly the
    sleepers on those channels runnable, and [alone] is the effect on the
    state where no sleeper matters.  Components talk through type classes that state
    operations and promises; clients are proved against the class,
    implementations discharge it: BufferCache and BufferCacheOk (bio.c for
    log.c), BlockStore and BlockStoreOk (a transaction of log.c for fs.c),
    Transactions (log.c for file.c), FileOps (file.c and fs.c for proc.c),
    UartRegs, VirtioRegs and PlicRegs (hardware; UartLaws and VirtioLaws say
    what the drivers rely on, for the UART that a byte written while the
    holding register is empty is sent), Linker (the addresses of kernel.ld).

    ** Files

    Shared: Prelude.v (this file: integers, the monad, wp, lists), Riscv.v
    (param.h, riscv.h, memlayout.h, fcntl.h, types.h), Mem.v (bytes and
    little-endian words), Ring.v (ring buffers).

    Locks: Spinlock.v is spinlock.c; module Contention interleaves the
    atomic accesses of any number of CPUs; module Lock is the one-bit lock
    that the other components use, which [spinlock_refines_lock] justifies.
    Sleeplock.v is sleeplock.c, module Sleepers its processes.

    Memory: Cstring.v is string.c.  Kalloc.v is kalloc.c, with the free list
    threaded through memory.  Vm.v is vm.c; PageTable.v gives the page table
    as a tree, Mapping.v as a finite map from pages to entries, UserMem.v,
    UserCopy.v and UserFree.v treat the uvm functions, copyin/copyout and
    freeing, VmProps.v collects the properties.  ProcMem.v is the address
    space of a process (proc_pagetable, proc_freepagetable, growproc,
    either_copyout).

    Disk: Virtio.v is virtio_disk.c with the constants of virtio.h;
    VirtioSpec.v adds the device and shows that transfers are atomic.  Bio.v
    is bio.c, BioSpec.v the abstract cache, BufCache.v the interface.  Log.v
    is log.c; LogSpec.v says which blocks it writes and in which order,
    LogCrash.v treats crashes, LogOps.v concurrent calls.

    File system: FsLayout.v is fs.h, Fs.v is fs.c.  FsBlocks.v (free map),
    FsFile.v (bmap), FsIo.v (readi, writei), FsInode.v (inodes on the disk,
    locking), FsDir.v (directories), FsStore.v (fs.c over a
    transaction of log.c over bio.c), FsProps.v (properties).  Mkfs.v is
    mkfs.c, MkfsFile.v and MkfsSpec.v follow the files of the image while
    iappend grows them, MkfsMain.v treats main, MkfsBoot.v runs fs.c on the
    image.  Pipe.v is pipe.c, PipeSpec.v the processes that share a pipe,
    File.v file.c, FileWrite.v the log space of
    filewrite, SysFile.v sysfile.c, FileTable.v the reference counts under
    all calls, Exec.v exec.c.

    Processes: Proc.v is proc.c; ProcSpec.v says what each critical section
    does to the table, ProcInv.v interleaves them, ProcSafe.v states what
    holds after boot, KillZero.v treats kill(0), Procdump.v is procdump.
    SysProc.v is sysproc.c with the clock of trap.c,
    SleepSpec.v shows that sleep returns.  Syscall.v is syscall.c, Trap.v
    trap.c and plic.c.  Console.v is uart.c and console.c, ConsoleSpec.v
    their queues.

    User: Ulib.v is ulib.c, Umalloc.v umalloc.c, UmallocSpec.v its heap,
    Printf.v both printf.c, Grep.v grep.c, Sh.v the parser of sh.c,
    ShPrint.v its grammar, ShRun.v runcmd.

    ** What is proved

    Crash safety: a crash at any block write of commit, and at any block
    write of the recoveries after it, leaves all of a transaction or nothing
    (LogCrash); concurrent calls never mix with a commit, never log and
    reserve more than LOGSIZE blocks, and panic in log_write only where the
    log mkfs makes is one block short (LogOps); a write to a file is atomic (FsProps), also
    when filewrite cuts it into pieces, each of which fits the MAXOPBLOCKS
    blocks of its reservation (FileWrite).  Files: what writei writes readi
    reads, what dirlink adds dirlookup finds, what iupdate writes ilock
    reads, and nothing else changes (FsProps); on the image mkfs builds the
    kernel finds every file and reads its bytes (MkfsBoot); the reference
    counts of open files are the numbers of descriptors (FileTable).  Cache
    and disk: one coherent buffer per block (BufCache); driver, interrupt
    handler and device carry out every transfer once, lose no wakeup and
    cannot get stuck (VirtioSpec).  Memory: kalloc never gives a page twice
    (Kalloc); mappages and uvmunmap insert and delete, uvmcopy copies,
    growproc resizes, and creation and destruction of an address space
    balance (VmProps, ProcMem); copyout and copyin agree and copyinstr finds
    the string (VmProps).  Concurrency: mutual exclusion of spin and sleep
    locks without lost wakeups (Spinlock, Sleeplock); pids, parents, zombies
    and wakeups of the process table in every interleaving (ProcSafe);
    sleep(n) returns after n ticks and not before (SleepSpec); a pipe is a
    queue for any number of writers and readers (PipeSpec); a trap returns
    to user mode with the registers it needs, for the reasons it should and
    no other (Trap).  Devices: uartputc and the line discipline as queues
    (ConsoleSpec).  User level:
    objects of malloc do not overlap and keep their bytes (UmallocSpec), the
    shell's parser inverts its printer and always ends (ShPrint), runcmd
    wires the processes of a command correctly (ShRun), grep's matcher is
    the declarative meaning of the pattern and grep prints the matching
    lines (Grep), atoi inverts %d (Printf).

    Four theorems show defects: kill(0) marks a free slot and the next child
    is born killed (KillZero), three admitted calls can make log_write panic
    (LogOps), sleep with a negative argument (SleepSpec), malloc of nearly
    2^32 bytes (UmallocSpec).

    ** Fuel and bounds

    Loops over arrays use the length of the array plus a constant; loops
    over bytes or pages use the count divided by the step, plus a constant;
    the recursions of the shell's parser use the length of the line; the
    ring of umalloc.c uses limit / 8 + 4 rounds.  Where a
    function has a wp theorem it shows that the fuel suffices.  Loops that
    wait for hardware or for another CPU (acquire, the UART's transmitter)
    have their fuel as an argument and theorems for every fuel that the wait
    takes.  NPROC, NCPU, NBUF, LOGSIZE, NINODE, NFILE and the sizes of the
    rings are those of param.h and of the drivers.

    ** Not modelled

    The assembly files entry.S, kernelvec.S, trampoline.S, swtch.S and
    initcode.S and the generated usys.S: register saves, mode switches and
    stubs below the level of C; what they promise is written into Trap.v
    (trapframe and control registers) and Proc.v (a function that calls
    swtch is split there).  start.c, main.c and the register accessors of
    riscv.h: machine set-up, single instructions; the initialisation of each
    component is modelled with it.  The linker script is the class Linker.
    Memory ordering is sequentially consistent: __sync_synchronize has no
    counterpart.  The locking of the kernel's printf and its messages before
    a panic or a kill: debugging output.  ramdisk.c is not part of the build.  The small user programs
    (cat, echo, init, kill, ln, ls, mkdir, rm, wc, zombie) are straight
    sequences of system calls, and usertests.c, grind.c, forktest.c and
    stressfs.c are tests; gradelib.py and the grading script are not part of
    the system.  defs.h and user.h are prototypes. *)

From Stdlib Require Export ZArith Lia.
From stdpp Require Export base gmap strings numbers list.

#[export] Set Default Goal Selector "!".

Declare Scope kernel_scope.
Delimit Scope kernel_scope with kernel.
#[global] Open Scope Z_scope.
#[global] Open Scope kernel_scope.

(** * Machine integers *)

(** C integers are elements of [Z]; every place where the source wraps is
    written out with one of these conversions. *)
Definition u8 (x : Z) : Z := x `mod` 2 ^ 8.
Definition u16 (x : Z) : Z := x `mod` 2 ^ 16.
Definition u32 (x : Z) : Z := x `mod` 2 ^ 32.
Definition u64 (x : Z) : Z := x `mod` 2 ^ 64.

(** The two's complement value of a [w]-bit pattern. *)
Definition sgn (w x : Z) : Z := (x + 2 ^ (w - 1)) `mod` 2 ^ w - 2 ^ (w - 1).
Definition s8 (x : Z) : Z := sgn 8 x.
Definition s16 (x : Z) : Z := sgn 16 x.
Definition s32 (x : Z) : Z := sgn 32 x.

(** [0 <= x < 2 ^ w], decidable. *)
Definition fits (w x : Z) : Prop := 0 ≤ x < 2 ^ w.
#[export] Instance fits_dec w x : Decision (fits w x).
Proof. unfold fits. apply _. Defined.

(** C's truth value of an integer, and the integer of a condition. *)
Definition truth (x : Z) : bool := negb (x =? 0).
Definition b2z (b : bool) : Z := if b then 1 else 0.

(** * The kernel monad *)

(** An operation on a component's state [S] returns a value and the new
    state, panics (the kernel prints and spins for ever: nothing after it
    runs), blocks in [sleep] on a channel with the state it leaves to the
    other threads, or is [Stuck]: it runs into undefined behaviour of C or out
    of the loop fuel of the model (the total-correctness statements exclude
    both). *)
Inductive outcome (S A : Type) : Type :=
| Ok (a : A) (s : S)
| Panic (msg : string)
| Blocked (chan : Z) (s : S)
| Stuck.
Arguments Ok {S A} a s.
Arguments Panic {S A} msg.
Arguments Blocked {S A} chan s.
Arguments Stuck {S A}.

Definition M (S A : Type) : Type := S → outcome S A.

Section monad.
Context {S : Type}.

Definition ret {A} (a : A) : M S A := λ s, Ok a s.
Definition bind {A B} (m : M S A) (k : A → M S B) : M S B := λ s,
  match m s with
  | Ok a s' => k a s'
  | Panic msg => Panic msg
  | Blocked c s' => Blocked c s'
  | Stuck => Stuck
  end.
Definition panic {A} (msg : string) : M S A := λ _, Panic msg.
Definition sleep_on {A} (chan : Z) : M S A := λ s, Blocked chan s.
(** Undefined behaviour of C, such as an array index out of range. *)
Definition stuck {A} : M S A := λ _, Stuck.
Definition gets {A} (f : S → A) : M S A := λ s, Ok (f s) s.
Definition modify (f : S → S) : M S unit := λ s, Ok tt (f s).

(** A C loop: [body a] is one iteration from the loop variables [a];
    [inl a'] goes round again, [inr b] leaves the loop with [b]. *)
Fixpoint loop {A B} (fuel : nat) (body : A → M S (A + B)) (a : A) : M S B :=
  match fuel with
  | O => λ _, Stuck
  | Datatypes.S fuel' =>
      bind (body a) (λ r, match r with
                          | inl a' => loop fuel' body a'
                          | inr b => ret b
                          end)
  end.
End monad.

Notation "'let!' x := m 'in' k" := (bind m (λ x, k))
  (at level 10, x binder, m at level 200, k at level 200,
   format "'[v' '[' 'let!'  x  :=  m  'in' ']' '/' k ']'") : kernel_scope.
Notation "'do!' m ';' k" := (bind m (λ _, k))
  (at level 10, m at level 200, k at level 200,
   format "'[v' '[' 'do!'  m ';' ']' '/' k ']'") : kernel_scope.

(** [when b m]: the statement [if(b) m;]. *)
Definition when {S} (b : bool) (m : M S unit) : M S unit :=
  if b then m else ret tt.

(** An operation on a component, run on the field of a larger state. *)
Definition zoom {T S A} (get : T → S) (set : S → T → T) (m : M S A) : M T A :=
  λ t, match m (get t) with
       | Ok a s => Ok a (set s t)
       | Panic msg => Panic msg
       | Blocked c s => Blocked c (set s t)
       | Stuck => Stuck
       end.

(** ** Total-correctness weakest preconditions *)

(** [wp m Q s]: from [s], [m] returns (no panic, no sleep, no exhausted
    fuel) and its value and final state satisfy [Q]. *)
Definition wp {S A} (m : M S A) (Q : A → S → Prop) (s : S) : Prop :=
  match m s with Ok a s' => Q a s' | _ => False end.

Section wp.
Context {S : Type}.
Implicit Types s : S.

Lemma wp_ret {A} (a : A) (Q : A → S → Prop) s : Q a s → wp (ret a) Q s.
Proof. done. Qed.
Lemma wp_bind {A B} (m : M S A) (k : A → M S B) Q s :
  wp m (λ a s', wp (k a) Q s') s → wp (bind m k) Q s.
Proof. unfold wp, bind. by destruct (m s). Qed.
Lemma wp_bind_inv {A B} (m : M S A) (k : A → M S B) Q s :
  wp (bind m k) Q s → wp m (λ a s', wp (k a) Q s') s.
Proof. unfold wp, bind. by destruct (m s). Qed.
Lemma wp_gets {A} (f : S → A) (Q : A → S → Prop) s : Q (f s) s → wp (gets f) Q s.
Proof. done. Qed.
Lemma wp_modify (f : S → S) (Q : unit → S → Prop) s : Q tt (f s) → wp (modify f) Q s.
Proof. done. Qed.
Lemma wp_when (b : bool) (m : M S unit) Q s :
  (b = true → wp m Q s) → (b = false → Q tt s) → wp (when b m) Q s.
Proof. destruct b; intros H1 H2; [by apply H1|by apply wp_ret, H2]. Qed.
Lemma wp_mono {A} (m : M S A) (Q Q' : A → S → Prop) s :
  wp m Q s → (∀ a s', Q a s' → Q' a s') → wp m Q' s.
Proof. unfold wp. destruct (m s); auto. Qed.
Lemma wp_and {A} (m : M S A) (Q Q' : A → S → Prop) s :
  wp m Q s → wp m Q' s → wp m (λ a s', Q a s' ∧ Q' a s') s.
Proof. unfold wp. destruct (m s); auto. Qed.
Lemma wp_ok {A} (m : M S A) Q s :
  wp m Q s ↔ ∃ a s', m s = Ok a s' ∧ Q a s'.
Proof.
  unfold wp. split.
  - destruct (m s); naive_solver.
  - intros (a & s' & -> & HQ). done.
Qed.
Lemma wp_run {A} (m : M S A) (Q : A → S → Prop) s a s' :
  m s = Ok a s' → Q a s' → wp m Q s.
Proof. intros. apply wp_ok. eauto. Qed.

Lemma bind_ok {A B} (m : M S A) (k : A → M S B) s a s' :
  m s = Ok a s' → bind m k s = k a s'.
Proof. unfold bind. by intros ->. Qed.

Lemma wp_elim {A} (m : M S A) (Q : A → S → Prop) s a s' :
  wp m Q s → m s = Ok a s' → Q a s'.
Proof. unfold wp. intros H Hm. by rewrite Hm in H. Qed.

(** The loop rule: an invariant and a measure bounded by the fuel. *)
Lemma wp_loop {A B} (body : A → M S (A + B)) (I : A → S → Prop)
    (mu : A → S → nat) (Q : B → S → Prop) fuel a s :
  (∀ a s, I a s →
    wp (body a) (λ r s', match r with
                         | inl a' => I a' s' ∧ (mu a' s' < mu a s)%nat
                         | inr b => Q b s'
                         end) s) →
  I a s → (mu a s < fuel)%nat → wp (loop fuel body a) Q s.
Proof.
  intros Hbody. revert a s.
  induction fuel as [|fuel IH]; intros a s HI Hmu; [lia|].
  simpl. apply wp_bind. eapply wp_mono; [by apply Hbody|].
  intros [a'|b] s'; [|done]. intros [HI' Hlt]. apply IH; [done|lia].
Qed.
End wp.

Lemma wp_zoom {T S A} (get : T → S) (set : S → T → T) (m : M S A) Q t :
  wp m (λ a s, Q a (set s t)) (get t) → wp (zoom get set m) Q t.
Proof. unfold wp, zoom. by destruct (m (get t)). Qed.

(** ** Wakeups *)

(** Code that calls [wakeup(chan)] runs over the state and the channels woken
    so far.  What a wakeup does to a sleeper is up to the world of processes
    the code is placed in. *)
Record waking (S : Type) := Waking { wk_st : S; wk_chans : list Z }.
Arguments Waking {S}.
Arguments wk_st {S}.
Arguments wk_chans {S}.
Definition wk_set_st {S} (s : S) (w : waking S) : waking S := Waking s (wk_chans w).
(** Code without wakeups, and [wakeup(chan)]. *)
Definition still {S A} (m : M S A) : M (waking S) A := zoom wk_st wk_set_st m.
Definition wakeup_on {S} (chan : Z) : M (waking S) unit :=
  modify (λ w, Waking (wk_st w) (wk_chans w ++ [chan])).
(** The same code where nobody sleeps: its effect on the state alone. *)
Definition alone {S A} (m : M (waking S) A) : M S A := λ s,
  match m (Waking s []) with
  | Ok a w => Ok a (wk_st w)
  | Panic msg => Panic msg
  | Blocked c w => Blocked c (wk_st w)
  | Stuck => Stuck
  end.
(** Code over a part of the state, with its wakeups. *)
Definition zoomw {T S A} (get : T → S) (set : S → T → T) (m : M (waking S) A) : M (waking T) A :=
  zoom (λ w, Waking (get (wk_st w)) (wk_chans w)) (λ v w, Waking (set (wk_st v) (wk_st w)) (wk_chans v)) m.
Lemma wp_alone {S A} (m : M (waking S) A) (Q : A → S → Prop) s :
  wp m (λ a w, Q a (wk_st w)) (Waking s []) → wp (alone m) Q s.
Proof. unfold wp, alone. by destruct (m (Waking s [])). Qed.
Lemma alone_ok {S A} (m : M (waking S) A) a s s' cs :
  m (Waking s []) = Ok a (Waking s' cs) → alone m s = Ok a s'.
Proof. unfold alone. by intros ->. Qed.

(** ** Partial correctness *)

(** [wlp m Q s]: if [m] returns from [s], its value and final state satisfy
    [Q]. For invariants of states that are reached, where what stops a thread
    does not matter. *)
Definition wlp {S A} (m : M S A) (Q : A → S → Prop) (s : S) : Prop :=
  match m s with Ok a s' => Q a s' | _ => True end.

Section wlp.
Context {S : Type}.
Implicit Types s : S.

Lemma wlp_ret {A} (a : A) (Q : A → S → Prop) s : Q a s → wlp (ret a) Q s.
Proof. done. Qed.
Lemma wlp_bind {A B} (m : M S A) (k : A → M S B) Q s :
  wlp m (λ a s', wlp (k a) Q s') s → wlp (bind m k) Q s.
Proof. unfold wlp, bind. by destruct (m s). Qed.
Lemma wlp_gets {A} (f : S → A) (Q : A → S → Prop) s : Q (f s) s → wlp (gets f) Q s.
Proof. done. Qed.
Lemma wlp_modify (f : S → S) (Q : unit → S → Prop) s : Q tt (f s) → wlp (modify f) Q s.
Proof. done. Qed.
Lemma wlp_panic {A} msg (Q : A → S → Prop) s : wlp (panic msg) Q s.
Proof. done. Qed.
Lemma wlp_stuck {A} (Q : A → S → Prop) s : wlp stuck Q s.
Proof. done. Qed.
Lemma wlp_when (b : bool) (m : M S unit) Q s :
  (b = true → wlp m Q s) → (b = false → Q tt s) → wlp (when b m) Q s.
Proof. destruct b; intros H1 H2; [by apply H1|by apply wlp_ret, H2]. Qed.
Lemma wlp_mono {A} (m : M S A) (Q Q' : A → S → Prop) s :
  wlp m Q s → (∀ a s', Q a s' → Q' a s') → wlp m Q' s.
Proof. unfold wlp. destruct (m s); auto. Qed.
Lemma wp_wlp {A} (m : M S A) Q s : wp m Q s → wlp m Q s.
Proof. unfold wp, wlp. by destruct (m s). Qed.
Lemma wlp_elim {A} (m : M S A) (Q : A → S → Prop) s a s' :
  wlp m Q s → m s = Ok a s' → Q a s'.
Proof. unfold wlp. intros H Hm. by rewrite Hm in H. Qed.
End wlp.
Lemma wlp_zoom {T S A} (get : T → S) (set : S → T → T) (m : M S A) Q t :
  wlp m (λ a s, Q a (set s t)) (get t) → wlp (zoom get set m) Q t.
Proof. unfold wlp, zoom. by destruct (m (get t)). Qed.
(** Only that the rest of the state is kept. *)
Lemma wlp_zoom_any {T S A} (get : T → S) (set : S → T → T) (m : M S A) Q t :
  (∀ a s, Q a (set s t)) → wlp (zoom get set m) Q t.
Proof. intros H. unfold wlp, zoom. destruct (m (get t)); auto. Qed.

Create HintDb kernel.
#[export] Hint Resolve wp_ret wp_gets wp_modify : kernel.

(** One step of symbolic execution under [wp]. *)
Ltac wp_step :=
  lazymatch goal with
  | |- wp (bind _ _) _ _ => apply wp_bind
  | |- wp (ret _) _ _ => apply wp_ret
  | |- wp (gets _) _ _ => apply wp_gets
  | |- wp (modify _) _ _ => apply wp_modify
  | |- wp (when _ _) _ _ => apply wp_when; intros ?
  end.
Ltac wp_steps := repeat (wp_step; cbn beta).

(** [lia] with the division equations of the context. *)
Ltac dlia := Z.to_euclidean_division_equations; lia.

(** * Booleans of the source as propositions *)

Lemma truth_true x : truth x = true ↔ x ≠ 0.
Proof. unfold truth. destruct (Z.eqb_spec x 0); naive_solver. Qed.
Lemma truth_false x : truth x = false ↔ x = 0.
Proof. unfold truth. destruct (Z.eqb_spec x 0); naive_solver. Qed.

(** Turns the boolean tests of the hypotheses into the facts they decide. *)
Ltac bool_facts :=
  repeat match goal with
  | H : (_ && _) = true |- _ => apply andb_true_iff in H as [? ?]
  | H : (_ && _) = false |- _ => apply andb_false_iff in H
  | H : (_ || _) = true |- _ => apply orb_true_iff in H
  | H : (_ || _) = false |- _ => apply orb_false_iff in H as [? ?]
  | H : negb _ = true |- _ => apply negb_true_iff in H
  | H : negb _ = false |- _ => apply negb_false_iff in H
  | H : truth _ = true |- _ => apply truth_true in H
  | H : truth _ = false |- _ => apply truth_false in H
  | H : (_ =? _)%Z = true |- _ => apply Z.eqb_eq in H
  | H : (_ =? _)%Z = false |- _ => apply Z.eqb_neq in H
  | H : (_ <? _)%Z = true |- _ => apply Z.ltb_lt in H
  | H : (_ <? _)%Z = false |- _ => apply Z.ltb_ge in H
  | H : (_ <=? _)%Z = true |- _ => apply Z.leb_le in H
  | H : (_ <=? _)%Z = false |- _ => apply Z.leb_gt in H
  end.

(** Case analysis on an integer comparison of the goal. *)
Ltac case_cmp :=
  match goal with
  | |- context [(?x =? ?y)%Z] => destruct (Z.eqb_spec x y)
  | |- context [(?x <? ?y)%Z] => destruct (Z.ltb_spec x y)
  | |- context [(?x <=? ?y)%Z] => destruct (Z.leb_spec x y)
  end.

(** * Integers *)

Lemma u8_fits x : fits 8 (u8 x).
Proof. unfold fits, u8. apply Z.mod_pos_bound. lia. Qed.
Lemma u16_fits x : fits 16 (u16 x).
Proof. unfold fits, u16. apply Z.mod_pos_bound. lia. Qed.
Lemma u32_fits x : fits 32 (u32 x).
Proof. unfold fits, u32. apply Z.mod_pos_bound. lia. Qed.
Lemma u64_fits x : fits 64 (u64 x).
Proof. unfold fits, u64. apply Z.mod_pos_bound. lia. Qed.
#[export] Hint Resolve u8_fits u16_fits u32_fits u64_fits : kernel.

Lemma u8_id x : fits 8 x → u8 x = x.
Proof. apply Z.mod_small. Qed.
Lemma u16_id x : fits 16 x → u16 x = x.
Proof. apply Z.mod_small. Qed.
Lemma u32_id x : fits 32 x → u32 x = x.
Proof. apply Z.mod_small. Qed.
Lemma u64_id x : fits 64 x → u64 x = x.
Proof. apply Z.mod_small. Qed.

Lemma sgn_id w x : 0 < w → - 2 ^ (w - 1) ≤ x < 2 ^ (w - 1) → sgn w x = x.
Proof.
  intros Hw Hx. unfold sgn. rewrite Z.mod_small; [lia|].
  replace (2 ^ w) with (2 * 2 ^ (w - 1)); [lia|].
  rewrite <- Z.pow_succ_r by lia. f_equal. lia.
Qed.
Lemma s32_id x : - 2 ^ 31 ≤ x < 2 ^ 31 → s32 x = x.
Proof. intros. apply sgn_id; lia. Qed.

(** Masking with [2 ^ n - 1] and with its complement. *)
Lemma land_low x n : 0 ≤ n → Z.land x (2 ^ n - 1) = x `mod` 2 ^ n.
Proof. intros. rewrite <- Z.land_ones by done. f_equal. rewrite Z.ones_equiv. lia. Qed.
Lemma land_high x n :
  0 ≤ n → Z.land x (Z.lnot (2 ^ n - 1)) = 2 ^ n * (x `div` 2 ^ n).
Proof.
  intros. replace (2 ^ n - 1) with (Z.ones n) by (rewrite Z.ones_equiv; lia).
  rewrite <- Z.ldiff_land.
  rewrite Z.ldiff_ones_r by done.
  rewrite Z.shiftl_mul_pow2, Z.shiftr_div_pow2 by done. lia.
Qed.

(** A set of flags below [2 ^ n] is added to a multiple of [2 ^ n] by [lor]. *)
Lemma lor_disjoint x f n :
  0 ≤ n → x `mod` 2 ^ n = 0 → 0 ≤ f < 2 ^ n → Z.lor x f = x + f.
Proof.
  intros Hn Hx Hf. rewrite <- Z.add_lor_land. 
  assert (Z.land x f = 0) as ->; [|lia].
  apply Z.bits_inj'. intros i Hi. rewrite Z.land_spec, Z.bits_0.
  destruct (decide (i < n)).
  - rewrite <- (Z.mod_pow2_bits_low x n i) by done. by rewrite Hx, Z.bits_0.
  - rewrite <- (Z.mod_small f (2 ^ n)) by done.
    rewrite Z.mod_pow2_bits_high by lia. apply andb_false_r.
Qed.

(** * Lists *)

Lemma alter_insert {A} (f : A → A) (l : list A) k x : alter f k (<[k := x]> l) = <[k := f x]> l.
Proof.
  apply list_eq. intros j. destruct (decide (k = j)) as [<-|].
  - rewrite list_lookup_alter_eq. destruct (decide (k < length l)%nat).
    + by rewrite !list_lookup_insert_eq.
    + by rewrite !list_insert_ge, lookup_ge_None_2 by lia.
  - by rewrite list_lookup_alter_ne, !list_lookup_insert_ne.
Qed.
Lemma alter_lookup {A} (f : A → A) (l : list A) k x : l !! k = Some x → alter f k l = <[k := f x]> l.
Proof. intros H. by rewrite <- (list_insert_id l k x H) at 1; rewrite alter_insert. Qed.

Lemma Forall_in {A} (P : A → Prop) (l : list A) x : Forall P l → x ∈ l → P x.
Proof. rewrite list.Forall_forall. auto. Qed.
Lemma filter_id {A} (P : A → Prop) `{∀ x, Decision (P x)} (l : list A) :
  (∀ x, x ∈ l → P x) → filter P l = l.
Proof.
  induction l as [|x l IH]; intros Hl; [done|].
  rewrite filter_cons_True by (apply Hl; by left). f_equal. apply IH. intros y Hy.
  apply Hl. by right.
Qed.
