(* ===== verification/Riscv.v ===== *)
(** Constants and macros of kernel/param.h, kernel/fcntl.h, kernel/riscv.h
    and kernel/memlayout.h: the Sv39 page-table geometry, the physical memory
    map, and the interrupt-enable bit of [sstatus]. *)

From S2P Require Import Prelude.

(** * kernel/param.h *)

Definition NPROC : Z := 64.
Definition NCPU : Z := 8.
Definition NOFILE : Z := 16.
Definition NFILE : Z := 100.
Definition NINODE : Z := 50.
Definition NDEV : Z := 10.
Definition ROOTDEV : Z := 1.
Definition MAXARG : Z := 32.
Definition MAXOPBLOCKS : Z := 10.
Definition LOGSIZE : Z := MAXOPBLOCKS * 3.
Definition NBUF : Z := MAXOPBLOCKS * 3.
Definition FSSIZE : Z := 1000.
Definition MAXPATH : Z := 128.

(** * kernel/fcntl.h *)

Definition O_RDONLY : Z := 0x000.
Definition O_WRONLY : Z := 0x001.
Definition O_RDWR : Z := 0x002.
Definition O_CREATE : Z := 0x200.
Definition O_TRUNC : Z := 0x400.

(** * kernel/riscv.h: pages and page-table entries *)

Definition PGSIZE : Z := 4096.
Definition PGSHIFT : Z := 12.

(** [sz + PGSIZE - 1] is computed in [uint64] and wraps. *)
Definition PGROUNDUP (sz : Z) : Z := Z.land (u64 (sz + PGSIZE - 1)) (Z.lnot (PGSIZE - 1)).
Definition PGROUNDDOWN (a : Z) : Z := Z.land a (Z.lnot (PGSIZE - 1)).

Definition PTE_V : Z := Z.shiftl 1 0.
Definition PTE_R : Z := Z.shiftl 1 1.
Definition PTE_W : Z := Z.shiftl 1 2.
Definition PTE_X : Z := Z.shiftl 1 3.
Definition PTE_U : Z := Z.shiftl 1 4.

Definition PA2PTE (pa : Z) : Z := Z.shiftl (Z.shiftr pa 12) 10.
(** The left shift can push bits out of the 64-bit word. *)
Definition PTE2PA (pte : Z) : Z := u64 (Z.shiftl (Z.shiftr pte 10) 12).
Definition PTE_FLAGS (pte : Z) : Z := Z.land pte 0x3FF.

Definition PXMASK : Z := 0x1FF.
Definition PXSHIFT (level : Z) : Z := PGSHIFT + 9 * level.
Definition PX (level va : Z) : Z := Z.land (Z.shiftr va (PXSHIFT level)) PXMASK.

Definition MAXVA : Z := Z.shiftl 1 (9 + 9 + 9 + 12 - 1).

Definition SATP_SV39 : Z := Z.shiftl 8 60.
Definition MAKE_SATP (pagetable : Z) : Z := Z.lor SATP_SV39 (Z.shiftr pagetable 12).

(** * kernel/riscv.h: the supervisor interrupt enable *)

Definition SSTATUS_SPP : Z := Z.shiftl 1 8.
Definition SSTATUS_SPIE : Z := Z.shiftl 1 5.
Definition SSTATUS_UPIE : Z := Z.shiftl 1 4.
Definition SSTATUS_SIE : Z := Z.shiftl 1 1.
Definition SSTATUS_UIE : Z := Z.shiftl 1 0.

(** [intr_on], [intr_off] write the new value of [sstatus]. *)
Definition intr_on (sstatus : Z) : Z := Z.lor sstatus SSTATUS_SIE.
Definition intr_off (sstatus : Z) : Z := Z.land sstatus (Z.lnot SSTATUS_SIE).
Definition intr_get (sstatus : Z) : bool := truth (Z.land sstatus SSTATUS_SIE).

(** * kernel/memlayout.h *)

Definition UART0 : Z := 0x10000000.
Definition UART0_IRQ : Z := 10.
Definition VIRTIO0 : Z := 0x10001000.
Definition VIRTIO0_IRQ : Z := 1.
Definition CLINT : Z := 0x2000000.
Definition CLINT_MTIMECMP (hartid : Z) : Z := CLINT + 0x4000 + 8 * hartid.
Definition CLINT_MTIME : Z := CLINT + 0xBFF8.
Definition PLIC : Z := 0x0c000000.
Definition PLIC_SENABLE (hart : Z) : Z := PLIC + 0x2080 + hart * 0x100.
Definition PLIC_SPRIORITY (hart : Z) : Z := PLIC + 0x201000 + hart * 0x2000.
Definition PLIC_SCLAIM (hart : Z) : Z := PLIC + 0x201004 + hart * 0x2000.
Definition KERNBASE : Z := 0x80000000.
Definition PHYSTOP : Z := KERNBASE + 128 * 1024 * 1024.
Definition TRAMPOLINE : Z := MAXVA - PGSIZE.
Definition KSTACK (p : Z) : Z := TRAMPOLINE - (p + 1) * 2 * PGSIZE.
Definition TRAPFRAME : Z := TRAMPOLINE - PGSIZE.

(** * Lemmas *)

(** Page-aligned addresses. *)
Definition aligned (a : Z) : Prop := a `mod` PGSIZE = 0.
#[export] Instance aligned_dec a : Decision (aligned a).
Proof. unfold aligned. apply _. Defined.

Lemma aligned_mul a : aligned a ↔ ∃ k, a = PGSIZE * k.
Proof.
  unfold aligned, PGSIZE. split.
  - intros H. exists (a `div` 4096). dlia.
  - intros [k ->]. dlia.
Qed.

Lemma PGROUNDDOWN_eq a : PGROUNDDOWN a = a - a `mod` PGSIZE.
Proof.
  unfold PGROUNDDOWN, PGSIZE. change (4096 - 1) with (2 ^ 12 - 1).
  rewrite land_high by lia. change (2 ^ 12) with 4096. dlia.
Qed.

Lemma PGROUNDDOWN_aligned a : aligned (PGROUNDDOWN a).
Proof. rewrite PGROUNDDOWN_eq. unfold aligned, PGSIZE. dlia. Qed.

Lemma PGROUNDDOWN_id a : aligned a → PGROUNDDOWN a = a.
Proof. rewrite PGROUNDDOWN_eq. unfold aligned. lia. Qed.

Lemma PGROUNDDOWN_bounds a : PGROUNDDOWN a ≤ a < PGROUNDDOWN a + PGSIZE.
Proof. rewrite PGROUNDDOWN_eq. unfold PGSIZE. dlia. Qed.

Lemma PGROUNDUP_eq sz :
  0 ≤ sz ≤ 2 ^ 64 - PGSIZE →
  PGROUNDUP sz = PGSIZE * ((sz + PGSIZE - 1) `div` PGSIZE).
Proof.
  intros H. unfold PGROUNDUP, PGSIZE in *. change (4096 - 1) with (2 ^ 12 - 1).
  rewrite land_high by lia. rewrite u64_id by (unfold fits; lia).
  change (2 ^ 12) with 4096. dlia.
Qed.

Lemma PGROUNDUP_spec sz :
  0 ≤ sz ≤ 2 ^ 64 - PGSIZE →
  aligned (PGROUNDUP sz) ∧ sz ≤ PGROUNDUP sz < sz + PGSIZE.
Proof.
  intros H. rewrite PGROUNDUP_eq by done. unfold aligned, PGSIZE in *. dlia.
Qed.

Lemma PGROUNDUP_id sz : 0 ≤ sz ≤ 2 ^ 64 - PGSIZE → aligned sz → PGROUNDUP sz = sz.
Proof. intros H. rewrite PGROUNDUP_eq by done. unfold aligned, PGSIZE in *. dlia. Qed.

Lemma PX_eq level va :
  0 ≤ level → PX level va = (va `div` 2 ^ (12 + 9 * level)) `mod` 512.
Proof.
  intros H. unfold PX, PXMASK, PXSHIFT, PGSHIFT.
  change 0x1FF with (2 ^ 9 - 1). rewrite land_low by lia.
  rewrite Z.shiftr_div_pow2 by lia. done.
Qed.
Lemma PX0_eq va : PX 0 va = (va `div` 4096) `mod` 512.
Proof. by rewrite PX_eq by lia. Qed.
Lemma PX1_eq va : PX 1 va = (va `div` 2097152) `mod` 512.
Proof. by rewrite PX_eq by lia. Qed.
Lemma PX2_eq va : PX 2 va = (va `div` 1073741824) `mod` 512.
Proof. by rewrite PX_eq by lia. Qed.

Lemma PX_bounds level va : 0 ≤ level → 0 ≤ PX level va < 512.
Proof. intros. rewrite PX_eq by done. dlia. Qed.

(** The three indices and the page offset determine the address. *)
Lemma PX_decompose va :
  0 ≤ va < MAXVA →
  va = PX 2 va * 2 ^ 30 + PX 1 va * 2 ^ 21 + PX 0 va * 2 ^ 12 + va `mod` PGSIZE.
Proof.
  unfold MAXVA. change (Z.shiftl 1 (9 + 9 + 9 + 12 - 1)) with (2 ^ 38).
  intros. rewrite PX0_eq, PX1_eq, PX2_eq. unfold PGSIZE. dlia.
Qed.

Lemma PA2PTE_eq pa : aligned pa → PA2PTE pa = 1024 * (pa `div` PGSIZE).
Proof.
  intros _. unfold PA2PTE, PGSIZE.
  rewrite Z.shiftl_mul_pow2, Z.shiftr_div_pow2 by lia. dlia.
Qed.

Lemma PTE2PA_eq pte : PTE2PA pte = u64 (4096 * (pte `div` 1024)).
Proof.
  unfold PTE2PA. rewrite Z.shiftl_mul_pow2, Z.shiftr_div_pow2 by lia.
  f_equal. change (2 ^ 10) with 1024. dlia.
Qed.

Lemma PTE_FLAGS_eq pte : PTE_FLAGS pte = pte `mod` 1024.
Proof. unfold PTE_FLAGS. change 0x3FF with (2 ^ 10 - 1). by rewrite land_low by lia. Qed.

(** A PTE is its frame plus its flags. *)
Lemma PA2PTE_lor pa f :
  aligned pa → 0 ≤ f < 1024 → Z.lor (PA2PTE pa) f = PA2PTE pa + f.
Proof.
  intros Ha Hf. apply (lor_disjoint _ _ 10); [lia| |done].
  rewrite PA2PTE_eq by done. change (2 ^ 10) with 1024. dlia.
Qed.

Lemma PTE_roundtrip pa f :
  aligned pa → fits 64 pa → 0 ≤ f < 1024 →
  PTE2PA (Z.lor (PA2PTE pa) f) = pa ∧ PTE_FLAGS (Z.lor (PA2PTE pa) f) = f.
Proof.
  intros Ha Hp Hf. rewrite PA2PTE_lor by done. rewrite PTE2PA_eq, PTE_FLAGS_eq.
  rewrite PA2PTE_eq by done. unfold aligned, fits, PGSIZE in *.
  split; [|dlia]. rewrite u64_id by (unfold fits; dlia). dlia.
Qed.

Lemma PTE2PA_aligned pte : aligned (PTE2PA pte).
Proof. rewrite PTE2PA_eq. unfold aligned, u64, PGSIZE. dlia. Qed.
Lemma PTE2PA_fits pte : fits 64 (PTE2PA pte).
Proof. apply u64_fits. Qed.

Lemma PTE_bit_eq k pte :
  0 ≤ k → truth (Z.land pte (Z.shiftl 1 k)) = Z.testbit pte k.
Proof.
  intros Hk. unfold truth. rewrite Z.shiftl_1_l.
  destruct (Z.testbit pte k) eqn:E.
  - apply negb_true_iff, Z.eqb_neq. intros H0.
    assert (Z.testbit (Z.land pte (2 ^ k)) k = true) as Hb.
    { rewrite Z.land_spec, E, Z.pow2_bits_true by done. done. }
    rewrite H0, Z.bits_0 in Hb. done.
  - apply negb_false_iff, Z.eqb_eq. apply Z.bits_inj'. intros i Hi.
    rewrite Z.land_spec, Z.bits_0, Z.pow2_bits_eqb by done.
    destruct (Z.eqb_spec k i) as [->|]; [by rewrite E|apply andb_false_r].
Qed.

Lemma intr_get_on x : intr_get (intr_on x) = true.
Proof.
  unfold intr_get, intr_on, SSTATUS_SIE. rewrite PTE_bit_eq by lia.
  rewrite Z.lor_spec. apply orb_true_r.
Qed.
Lemma intr_get_off x : intr_get (intr_off x) = false.
Proof.
  unfold intr_get, intr_off, SSTATUS_SIE. rewrite PTE_bit_eq by lia.
  rewrite Z.land_spec, Z.lnot_spec by lia. apply andb_false_r.
Qed.
