(* ===== verification/Mem.v ===== *)
(** Byte-addressed memory and little-endian words: the storage every
    pointer of the kernel refers to.  Physical memory is a finite map from
    addresses to bytes; a byte never written reads as zero. *)

From S2P Require Import Prelude.

Abbreviation mem := (gmap Z Z).

Definition load8 (m : mem) (a : Z) : Z := u8 (default 0 (m !! a)).
Definition store8 (m : mem) (a v : Z) : mem := <[a := u8 v]> m.

Fixpoint load_bytes (m : mem) (a : Z) (n : nat) : list Z :=
  match n with
  | O => []
  | S n' => load8 m a :: load_bytes m (a + 1) n'
  end.
Fixpoint store_bytes (m : mem) (a : Z) (l : list Z) : mem :=
  match l with
  | [] => m
  | b :: l' => store_bytes (store8 m a b) (a + 1) l'
  end.

(** Little-endian numbers. *)
Fixpoint le_combine (l : list Z) : Z :=
  match l with
  | [] => 0
  | b :: l' => b + 256 * le_combine l'
  end.
Fixpoint le_split (n : nat) (v : Z) : list Z :=
  match n with
  | O => []
  | S n' => u8 v :: le_split n' (v `div` 256)
  end.

Definition load64 (m : mem) (a : Z) : Z := le_combine (load_bytes m a 8).
Definition store64 (m : mem) (a v : Z) : mem := store_bytes m a (le_split 8 v).

(** The two memories hold the same bytes at the addresses of [P]. *)
Definition same_on (P : Z → Prop) (m m' : mem) : Prop :=
  ∀ x, P x → load8 m' x = load8 m x.
(** The [n] bytes from [a]. *)
Definition range (a n x : Z) : Prop := a ≤ x < a + n.

Abbreviation bytes l := (Forall (fits 8) l).

(** * Lemmas *)

Lemma load8_fits m a : fits 8 (load8 m a).
Proof. apply u8_fits. Qed.
#[export] Hint Resolve load8_fits : kernel.

Lemma load8_store8 m a v x :
  load8 (store8 m a v) x = if decide (a = x) then u8 v else load8 m x.
Proof.
  unfold load8, store8. rewrite lookup_insert.
  case_decide; [|done]. simpl. apply u8_id, u8_fits.
Qed.
Lemma load8_store8_eq m a v : load8 (store8 m a v) a = u8 v.
Proof. rewrite load8_store8. by case_decide. Qed.
Lemma load8_store8_ne m a v x : a ≠ x → load8 (store8 m a v) x = load8 m x.
Proof. intros. rewrite load8_store8. by case_decide. Qed.

Lemma length_load_bytes m a n : length (load_bytes m a n) = n.
Proof. revert a. induction n; intros; simpl; auto. Qed.
Lemma length_le_split n v : length (le_split n v) = n.
Proof. revert v. induction n; intros; simpl; auto. Qed.
Lemma load_bytes_bytes m a n : bytes (load_bytes m a n).
Proof.
  revert a. induction n; intros; simpl; constructor; auto with kernel.
Qed.
#[export] Hint Resolve load_bytes_bytes : kernel.
Lemma le_split_bytes n v : bytes (le_split n v).
Proof. revert v. induction n; intros; simpl; constructor; auto with kernel. Qed.
#[export] Hint Resolve le_split_bytes : kernel.

Lemma load_bytes_lookup m a n i :
  (i < n)%nat → load_bytes m a n !! i = Some (load8 m (a + Z.of_nat i)).
Proof.
  revert a i. induction n as [|n IH]; intros a i Hi; [lia|].
  destruct i as [|i]; simpl.
  - do 2 f_equal. lia.
  - rewrite IH by lia. do 2 f_equal. lia.
Qed.

Lemma load8_store_bytes_out m a l x :
  ¬ range a (Z.of_nat (length l)) x → load8 (store_bytes m a l) x = load8 m x.
Proof.
  unfold range. revert m a. induction l as [|b l IH]; intros m a Hx; [done|].
  simpl in *. rewrite IH by lia. apply load8_store8_ne. lia.
Qed.
Lemma load8_store_bytes_in m a l i b :
  l !! i = Some b → load8 (store_bytes m a l) (a + Z.of_nat i) = u8 b.
Proof.
  revert m a i. induction l as [|c l IH]; intros m a i Hi; [done|].
  destruct i as [|i]; simpl in *.
  - simplify_eq. rewrite load8_store_bytes_out by (unfold range; lia).
    rewrite Z.add_0_r. apply load8_store8_eq.
  - rewrite <- (IH (store8 m a c) (a + 1) i) by done. f_equal. lia.
Qed.

Lemma store_bytes_same m a l :
  same_on (λ x, ¬ range a (Z.of_nat (length l)) x) m (store_bytes m a l).
Proof. intros x Hx. by apply load8_store_bytes_out. Qed.

Lemma load_bytes_ext m m' a n :
  same_on (range a (Z.of_nat n)) m m' → load_bytes m' a n = load_bytes m a n.
Proof.
  revert a. induction n as [|n IH]; intros a H; [done|]. simpl.
  f_equal; [apply H; unfold range; lia|].
  apply IH. intros x Hx. apply H. unfold range in *. lia.
Qed.

Lemma load_store_bytes m a l :
  bytes l → load_bytes (store_bytes m a l) a (length l) = l.
Proof.
  intros Hl. apply list_eq. intros i.
  destruct (decide (i < length l)%nat) as [Hi|Hi].
  - rewrite load_bytes_lookup by done.
    destruct (lookup_lt_is_Some_2 l i Hi) as [b Hb]. rewrite Hb.
    rewrite (load8_store_bytes_in _ _ _ _ _ Hb). f_equal. apply u8_id.
    by eapply Forall_lookup_1.
  - rewrite !lookup_ge_None_2; [done|lia|rewrite length_load_bytes; lia].
Qed.

Lemma load_store_bytes_out m a l b n :
  b + Z.of_nat n ≤ a ∨ a + Z.of_nat (length l) ≤ b →
  load_bytes (store_bytes m a l) b n = load_bytes m b n.
Proof.
  intros H. apply load_bytes_ext. intros x Hx.
  apply load8_store_bytes_out. unfold range in *. lia.
Qed.

(** ** Little-endian words *)

Lemma le_combine_split n v : le_combine (le_split n v) = v `mod` 2 ^ (8 * Z.of_nat n).
Proof.
  revert v. induction n as [|n IH]; intros v; simpl.
  - by rewrite Z.mod_1_r.
  - rewrite IH. unfold u8.
    replace (8 * Z.of_nat (S n)) with (8 + 8 * Z.of_nat n) by lia.
    rewrite Z.pow_add_r by lia. rewrite Z.rem_mul_r by lia.
    change (2 ^ 8) with 256. lia.
Qed.

Lemma le_combine_bound l : bytes l → 0 ≤ le_combine l < 2 ^ (8 * Z.of_nat (length l)).
Proof.
  induction 1 as [|b l Hb _ IH]; simpl; [lia|].
  replace (8 * Z.of_nat (S (length l))) with (8 + 8 * Z.of_nat (length l)) by lia.
  rewrite Z.pow_add_r by lia. unfold fits in Hb. lia.
Qed.

Lemma le_split_combine l : bytes l → le_split (length l) (le_combine l) = l.
Proof.
  induction 1 as [|b l Hb _ IH]; simpl; [done|]. unfold fits in Hb. f_equal.
  - unfold u8. change (2 ^ 8) with 256 in *. dlia.
  - transitivity (le_split (length l) (le_combine l)); [|done].
    f_equal. change (2 ^ 8) with 256 in *. dlia.
Qed.

Lemma load64_fits m a : fits 64 (load64 m a).
Proof.
  unfold fits. pose proof (le_combine_bound _ (load_bytes_bytes m a 8)) as H.
  by rewrite length_load_bytes in H.
Qed.
#[export] Hint Resolve load64_fits : kernel.

Lemma load64_store64_eq m a v : fits 64 v → load64 (store64 m a v) a = v.
Proof.
  intros Hv. unfold load64, store64.
  rewrite <- (length_le_split 8 v) at 1.
  rewrite load_store_bytes by auto with kernel.
  rewrite le_combine_split. by apply Z.mod_small.
Qed.

Lemma load64_store64_ne m a v b :
  b + 8 ≤ a ∨ a + 8 ≤ b → load64 (store64 m a v) b = load64 m b.
Proof.
  intros H. unfold load64, store64. f_equal. apply load_store_bytes_out.
  rewrite length_le_split. lia.
Qed.

Lemma load64_ext m m' a : same_on (range a 8) m m' → load64 m' a = load64 m a.
Proof. intros H. unfold load64. f_equal. by apply load_bytes_ext. Qed.

Lemma store64_same m a v : same_on (λ x, ¬ range a 8 x) m (store64 m a v).
Proof.
  intros x Hx. apply load8_store_bytes_out. by rewrite length_le_split.
Qed.

(** ** [same_on] *)

#[export] Instance same_on_refl P : Reflexive (same_on P).
Proof. by intros m x Hx. Qed.
#[export] Instance same_on_sym P : Symmetric (same_on P).
Proof. intros m m' H x Hx. symmetry. by apply H. Qed.
#[export] Instance same_on_trans P : Transitive (same_on P).
Proof. intros m1 m2 m3 H1 H2 x Hx. rewrite (H2 x Hx). by apply H1. Qed.
Lemma same_on_weaken (P P' : Z → Prop) m m' :
  same_on P m m' → (∀ x, P' x → P x) → same_on P' m m'.
Proof. intros H HP x Hx. by apply H, HP. Qed.
