(* ===== verification/Cstring.v ===== *)
(** kernel/string.c on byte-addressed memory.  The loops are structural
    recursions on the count, in the order the source visits the bytes; the
    theorems say what every byte of memory holds afterwards. *)

From S2P Require Import Prelude Mem.

(** * Operations *)

(** [for(i = 0; i < n; i++) cdst[i] = c;] *)
Fixpoint memset_from (m : mem) (dst c : Z) (n : nat) : mem :=
  match n with
  | O => m
  | S n' => memset_from (store8 m dst c) (dst + 1) c n'
  end.
Definition memset (m : mem) (dst c n : Z) : mem := memset_from m dst c (Z.to_nat n).

(** Compares byte by byte; the first difference, or 0 after [n] bytes. *)
Fixpoint memcmp_from (m : mem) (s1 s2 : Z) (n : nat) : Z :=
  match n with
  | O => 0
  | S n' => if load8 m s1 =? load8 m s2 then memcmp_from m (s1 + 1) (s2 + 1) n'
            else load8 m s1 - load8 m s2
  end.
Definition memcmp (m : mem) (v1 v2 n : Z) : Z := memcmp_from m v1 v2 (Z.to_nat n).

(** [while(n-- > 0) *--d = *--s;] *)
Fixpoint copy_down (m : mem) (d s : Z) (n : nat) : mem :=
  match n with
  | O => m
  | S n' => copy_down (store8 m (d - 1) (load8 m (s - 1))) (d - 1) (s - 1) n'
  end.
(** [while(n-- > 0) *d++ = *s++;] *)
Fixpoint copy_up (m : mem) (d s : Z) (n : nat) : mem :=
  match n with
  | O => m
  | S n' => copy_up (store8 m d (load8 m s)) (d + 1) (s + 1) n'
  end.
Definition memmove (m : mem) (dst src n : Z) : mem :=
  if n =? 0 then m
  else if (src <? dst) && (dst <? src + n)
  then copy_down m (dst + n) (src + n) (Z.to_nat n)
  else copy_up m dst src (Z.to_nat n).
Definition memcpy (m : mem) (dst src n : Z) : mem := memmove m dst src n.

(** What can be read through a [char*]: the byte at each offset. *)
Abbreviation chars := (Z → Z).
Definition at_mem (m : mem) (a : Z) : chars := λ i, load8 m (a + i).
(** A local character array; reads past its end are undefined in C. *)
Definition at_list (l : list Z) : chars := λ i, default 0 (l !! Z.to_nat i).

(** [while(n > 0 && *p && *p == *q) n--, p++, q++;
     if(n == 0) return 0; return (uchar)*p - (uchar)*q;] *)
Fixpoint strncmp_from (p q : chars) (i : Z) (n : nat) : Z :=
  match n with
  | O => 0
  | S n' => if truth (p i) && (p i =? q i) then strncmp_from p q (i + 1) n'
            else u8 (p i) - u8 (q i)
  end.
Definition strncmp (p q : chars) (n : Z) : Z := strncmp_from p q 0 (Z.to_nat n).

(** Copies up to and including the NUL of [t], then fills with zeros. *)
Fixpoint strncpy_from (m : mem) (s t : Z) (n : nat) : mem :=
  match n with
  | O => m
  | S n' =>
      let c := load8 m t in
      let m' := store8 m s c in
      if c =? 0 then memset_from m' (s + 1) 0 n' else strncpy_from m' (s + 1) (t + 1) n'
  end.
Definition strncpy (m : mem) (s t n : Z) : mem := strncpy_from m s t (Z.to_nat n).

(** [n] counts the bytes left before the last one ([--n > 0]).  When the
    NUL of [t] was copied, [s] has moved past it and [*s = 0] stores a second
    NUL behind it. *)
Fixpoint safestrcpy_from (m : mem) (s t : Z) (n : nat) : mem :=
  match n with
  | O => store8 m s 0
  | S n' =>
      let c := load8 m t in
      let m' := store8 m s c in
      if c =? 0 then store8 m' (s + 1) 0 else safestrcpy_from m' (s + 1) (t + 1) n'
  end.
Definition safestrcpy (m : mem) (s t n : Z) : mem :=
  if n <=? 0 then m else safestrcpy_from m s t (Z.to_nat (n - 1)).

(** [for(n = 0; s[n]; n++);]: the loop ends at the first NUL; [None] when
    there is none in the first [fuel] bytes. *)
Fixpoint strlen_from (s : chars) (n : Z) (fuel : nat) : option Z :=
  match fuel with
  | O => None
  | S fuel' => if s n =? 0 then Some n else strlen_from s (n + 1) fuel'
  end.
Definition strlen (s : chars) (fuel : nat) : option Z := strlen_from s 0 fuel.

(** * memset *)

Lemma memset_from_out m dst c n x :
  ¬ range dst (Z.of_nat n) x → load8 (memset_from m dst c n) x = load8 m x.
Proof.
  unfold range. revert m dst. induction n as [|n IH]; intros m dst Hx; simpl; [done|].
  rewrite IH by lia. apply load8_store8_ne. lia.
Qed.
Lemma memset_from_in m dst c n x :
  range dst (Z.of_nat n) x → load8 (memset_from m dst c n) x = u8 c.
Proof.
  unfold range. revert m dst. induction n as [|n IH]; intros m dst Hx; simpl; [lia|].
  destruct (decide (x = dst)) as [->|].
  - rewrite memset_from_out by (unfold range; lia). apply load8_store8_eq.
  - apply IH. lia.
Qed.
Lemma memset_out m dst c n x : ¬ range dst n x → load8 (memset m dst c n) x = load8 m x.
Proof. intros Hx. apply memset_from_out. unfold range in *. lia. Qed.
Lemma memset_in m dst c n x : range dst n x → load8 (memset m dst c n) x = u8 c.
Proof. intros Hx. apply memset_from_in. unfold range in *. lia. Qed.

Lemma memset_same m dst c n : same_on (λ x, ¬ range dst n x) m (memset m dst c n).
Proof. intros x Hx. by apply memset_out. Qed.

Lemma memset_zero_load64 m dst n a :
  dst ≤ a → a + 8 ≤ dst + n → load64 (memset m dst 0 n) a = 0.
Proof.
  intros H1 H2. unfold load64.
  assert (load_bytes (memset m dst 0 n) a 8 = replicate 8 0) as ->; [|done].
  apply list_eq. intros i. destruct (decide (i < 8)%nat) as [Hi|Hi].
  - rewrite load_bytes_lookup, lookup_replicate_2 by done. f_equal.
    rewrite memset_in by (unfold range; lia). done.
  - rewrite !lookup_ge_None_2; [done|rewrite length_replicate; lia|].
    rewrite length_load_bytes. lia.
Qed.

(** * memmove *)

Lemma copy_up_spec m d s n x :
  d ≤ s ∨ s + Z.of_nat n ≤ d →
  load8 (copy_up m d s n) x =
    if decide (range d (Z.of_nat n) x) then load8 m (s + (x - d)) else load8 m x.
Proof.
  revert m d s. induction n as [|n IH]; intros m d s Hds; simpl.
  { case_decide as Hx; [unfold range in Hx; lia|done]. }
  rewrite IH by lia. rewrite !load8_store8. unfold range in *.
  repeat case_decide; try lia; try (f_equal; lia).
  - subst. rewrite u8_id by auto with kernel. f_equal. lia.
Qed.

Lemma copy_down_spec m d s n x :
  s ≤ d ∨ d + Z.of_nat n ≤ s →
  load8 (copy_down m (d + Z.of_nat n) (s + Z.of_nat n) n) x =
    if decide (range d (Z.of_nat n) x) then load8 m (s + (x - d)) else load8 m x.
Proof.
  revert m. induction n as [|n IH]; intros m Hds; cbn [copy_down].
  { case_decide as Hx; [unfold range in Hx; lia|done]. }
  replace (d + Z.of_nat (S n) - 1) with (d + Z.of_nat n) by lia.
  replace (s + Z.of_nat (S n) - 1) with (s + Z.of_nat n) by lia.
  rewrite IH by lia. rewrite !load8_store8. unfold range in *.
  repeat case_decide; try lia; try (f_equal; lia).
  - rewrite u8_id by auto with kernel. f_equal. lia.
Qed.

(** Every byte after [memmove]: the destination holds the bytes the source
    had before the call, whether or not the ranges overlap. *)
Lemma memmove_load8 m dst src n x :
  0 ≤ n →
  load8 (memmove m dst src n) x =
    if decide (range dst n x) then load8 m (src + (x - dst)) else load8 m x.
Proof.
  intros Hn. unfold memmove.
  destruct (Z.eqb_spec n 0) as [->|Hn0].
  { case_decide as Hx; [unfold range in Hx; lia|done]. }
  destruct (andb _ _) eqn:Hov.
  - bool_facts. rewrite <- (Z2Nat.id n) at 1 2 by done.
    rewrite copy_down_spec by lia. by rewrite Z2Nat.id by done.
  - rewrite copy_up_spec; [by rewrite Z2Nat.id by done|].
    rewrite Z2Nat.id by done. bool_facts. destruct Hov; bool_facts; lia.
Qed.

Lemma memmove_load_bytes m dst src n :
  0 ≤ n →
  load_bytes (memmove m dst src n) dst (Z.to_nat n) = load_bytes m src (Z.to_nat n).
Proof.
  intros Hn. apply list_eq. intros i. destruct (decide (i < Z.to_nat n)%nat) as [Hi|Hi].
  - rewrite !load_bytes_lookup by done. f_equal. rewrite memmove_load8 by done.
    case_decide as Hr; [f_equal; lia|]. unfold range in Hr. lia.
  - rewrite !lookup_ge_None_2; [done|rewrite length_load_bytes; lia..].
Qed.

Lemma memmove_same m dst src n :
  0 ≤ n → same_on (λ x, ¬ range dst n x) m (memmove m dst src n).
Proof. intros Hn x Hx. rewrite memmove_load8 by done. by case_decide. Qed.

(** * C strings *)

(** The abstract value of a C string read through [p] with at most [n]
    bytes: what precedes the first NUL. *)
Fixpoint cstr_from (p : chars) (i : Z) (n : nat) : list Z :=
  match n with
  | O => []
  | S n' => if p i =? 0 then [] else p i :: cstr_from p (i + 1) n'
  end.
Definition cstr (p : chars) (n : Z) : list Z := cstr_from p 0 (Z.to_nat n).

Lemma cstr_from_S p i n :
  cstr_from p i (S n) = if p i =? 0 then [] else p i :: cstr_from p (i + 1) n.
Proof. done. Qed.

Lemma length_cstr_from p i n : (length (cstr_from p i n) ≤ n)%nat.
Proof.
  revert i. induction n as [|n IH]; intros i; simpl; [lia|].
  case_cmp; simpl; [lia|]. specialize (IH (i + 1)). lia.
Qed.

Lemma cstr_from_ext p q i n :
  (∀ j, i ≤ j < i + Z.of_nat n → p j = q j) → cstr_from p i n = cstr_from q i n.
Proof.
  revert i. induction n as [|n IH]; intros i H; simpl; [done|].
  rewrite (H i) by lia. case_cmp; [done|]. f_equal. apply IH. intros. apply H. lia.
Qed.

Lemma cstr_from_shift p i n : cstr_from p i n = cstr_from (λ j, p (i + j)) 0 n.
Proof.
  assert (∀ k, cstr_from p (i + k) n = cstr_from (λ j, p (i + j)) k n) as H.
  { induction n as [|n IH]; intros k; simpl; [done|].
    case_cmp; [done|]. f_equal. rewrite <- IH. f_equal. lia. }
  rewrite <- H. f_equal. lia.
Qed.

(** [strncmp] is zero exactly on equal strings. *)
Lemma strncmp_from_zero p q i n :
  (∀ j, fits 8 (p j)) → (∀ j, fits 8 (q j)) →
  strncmp_from p q i n = 0 ↔ cstr_from p i n = cstr_from q i n.
Proof.
  intros Hp Hq. revert i. induction n as [|n IH]; intros i; simpl; [done|].
  rewrite !u8_id by done. unfold truth.
  destruct (Z.eqb_spec (p i) 0) as [Hp0|Hp0]; simpl.
  { destruct (Z.eqb_spec (q i) 0); [split; [done|lia]|].
    split; [intros; lia|discriminate]. }
  destruct (Z.eqb_spec (p i) (q i)) as [Heq|Hne].
  { rewrite IH. destruct (Z.eqb_spec (q i) 0); [lia|].
    rewrite Heq. split; [congruence|intros H; by simplify_eq]. }
  split; [lia|]. destruct (Z.eqb_spec (q i) 0); intros; simplify_eq; lia.
Qed.

(** ** safestrcpy *)

Lemma safestrcpy_from_out m s t n x :
  ¬ range s (Z.of_nat n + 1) x → load8 (safestrcpy_from m s t n) x = load8 m x.
Proof.
  unfold range. revert m s t. induction n as [|n IH]; intros m s t Hx; simpl.
  { apply load8_store8_ne. lia. }
  destruct (load8 m t =? 0).
  - rewrite !load8_store8_ne by lia. done.
  - rewrite IH by lia. apply load8_store8_ne. lia.
Qed.

Lemma safestrcpy_from_cstr m s t n :
  s + Z.of_nat n + 1 ≤ t ∨ t + Z.of_nat n ≤ s →
  cstr_from (at_mem (safestrcpy_from m s t n) s) 0 (S n) = cstr_from (at_mem m t) 0 n.
Proof.
  revert m s t. induction n as [|n IH]; intros m s t Hd.
  { simpl. unfold at_mem. rewrite Z.add_0_r, load8_store8_eq. done. }
  cbn [safestrcpy_from].
  destruct (load8 m t =? 0) eqn:Hc.
  - cbn [cstr_from]. unfold at_mem. rewrite !Z.add_0_r, Hc.
    rewrite load8_store8_ne by lia. rewrite load8_store8_eq.
    rewrite u8_id by auto with kernel. by rewrite Hc.
  - set (m' := store8 m s (load8 m t)).
    assert (at_mem (safestrcpy_from m' (s + 1) (t + 1) n) s 0 = load8 m t) as Hhd.
    { unfold at_mem. rewrite safestrcpy_from_out by (unfold range; lia).
      unfold m'. rewrite Z.add_0_r, load8_store8_eq. apply u8_id. auto with kernel. }
    rewrite (cstr_from_S _ 0 (S n)), (cstr_from_S _ 0 n), Hhd.
    assert (at_mem m t 0 = load8 m t) as Ht0 by (unfold at_mem; f_equal; lia).
    rewrite Ht0, Hc. f_equal.
    rewrite (cstr_from_shift _ (0 + 1) (S n)), (cstr_from_shift _ (0 + 1) n).
    transitivity (cstr_from (at_mem (safestrcpy_from m' (s + 1) (t + 1) n) (s + 1)) 0 (S n)).
    { apply cstr_from_ext. intros. unfold at_mem. f_equal. lia. }
    rewrite IH by lia. apply cstr_from_ext. intros j Hj. unfold at_mem, m'.
    rewrite load8_store8_ne by lia. f_equal. lia.
Qed.

(** C-string copy with truncation: on disjoint buffers the destination
    holds the source string cut to [n - 1] bytes, NUL-terminated, and no byte
    outside the [n] of the destination changes. *)
Lemma safestrcpy_spec m s t n :
  0 < n → s + n ≤ t ∨ t + n ≤ s →
  cstr (at_mem (safestrcpy m s t n) s) n = cstr (at_mem m t) (n - 1) ∧
  same_on (λ x, ¬ range s n x) m (safestrcpy m s t n).
Proof.
  intros Hn Hd. unfold safestrcpy. destruct (Z.leb_spec n 0); [lia|]. split.
  - unfold cstr. replace (Z.to_nat n) with (S (Z.to_nat (n - 1))) by lia.
    apply safestrcpy_from_cstr. lia.
  - intros x Hx. apply safestrcpy_from_out. unfold range in *. lia.
Qed.

(** ** strncpy *)

Lemma strncpy_from_out m s t n x :
  ¬ range s (Z.of_nat n) x → load8 (strncpy_from m s t n) x = load8 m x.
Proof.
  unfold range. revert m s t. induction n as [|n IH]; intros m s t Hx; simpl; [done|].
  destruct (load8 m t =? 0).
  - rewrite memset_from_out by (unfold range; lia). apply load8_store8_ne. lia.
  - rewrite IH by lia. apply load8_store8_ne. lia.
Qed.

(** The [n] bytes [strncpy] stores: the string of [t], padded with zeros. *)
Definition strncpy_bytes (t : chars) (n : Z) : list Z :=
  let c := cstr t n in c ++ replicate (Z.to_nat n - length c) 0.

Lemma strncpy_from_bytes m s t n :
  s + Z.of_nat n ≤ t ∨ t + Z.of_nat n ≤ s →
  load_bytes (strncpy_from m s t n) s n =
    cstr_from (at_mem m t) 0 n ++ replicate (n - length (cstr_from (at_mem m t) 0 n)) 0.
Proof.
  revert m s t. induction n as [|n IH]; intros m s t Hd; [done|].
  cbn [strncpy_from cstr_from load_bytes].
  assert (at_mem m t 0 = load8 m t) as -> by (unfold at_mem; f_equal; lia).
  set (m' := store8 m s (load8 m t)).
  assert (load8 m' s = load8 m t) as Hs.
  { unfold m'. rewrite load8_store8_eq. apply u8_id. auto with kernel. }
  destruct (Z.eqb_spec (load8 m t) 0) as [H0|H0].
  - rewrite memset_from_out by (unfold range; lia). rewrite Hs, H0. simpl. f_equal.
    apply list_eq. intros i. destruct (decide (i < n)%nat) as [Hi|Hi].
    + rewrite load_bytes_lookup, lookup_replicate_2 by done. f_equal.
      by rewrite memset_from_in by (unfold range; lia).
    + rewrite !lookup_ge_None_2; [done|rewrite length_replicate; lia|].
      rewrite length_load_bytes. lia.
  - rewrite strncpy_from_out by (unfold range; lia). rewrite Hs. simpl. f_equal.
    rewrite IH by lia.
    assert (cstr_from (at_mem m' (t + 1)) 0 n = cstr_from (at_mem m t) 1 n) as ->; [|done].
    rewrite (cstr_from_shift (at_mem m t)). apply cstr_from_ext. intros j Hj.
    unfold at_mem, m'. rewrite load8_store8_ne by lia. f_equal. lia.
Qed.

Lemma strncpy_spec m s t n :
  0 ≤ n → s + n ≤ t ∨ t + n ≤ s →
  load_bytes (strncpy m s t n) s (Z.to_nat n) = strncpy_bytes (at_mem m t) n ∧
  same_on (λ x, ¬ range s n x) m (strncpy m s t n).
Proof.
  intros Hn Hd. split.
  - apply strncpy_from_bytes. lia.
  - intros x Hx. apply strncpy_from_out. unfold range in *. lia.
Qed.

(** ** strlen *)

Lemma strlen_from_spec s n fuel k :
  strlen_from s n fuel = Some k ↔
    n ≤ k < n + Z.of_nat fuel ∧ s k = 0 ∧ ∀ i, n ≤ i < k → s i ≠ 0.
Proof.
  revert n. induction fuel as [|fuel IH]; intros n; simpl.
  { split; [done|lia]. }
  destruct (Z.eqb_spec (s n) 0) as [H0|H0].
  - split; [intros; simplify_eq; repeat split; auto; lia|].
    intros (Hk & Hz & Hi). f_equal. destruct (decide (n = k)); [done|].
    exfalso. apply (Hi n); [lia|done].
  - rewrite IH. split; intros (Hk & Hz & Hi); repeat split; auto; try lia.
    + intros i ?. destruct (decide (i = n)) as [->|]; [done|]. apply Hi. lia.
    + destruct (decide (n = k)) as [->|]; [done|lia].
    + intros i ?. apply Hi. lia.
Qed.

(** * Properties *)

(** C37: [memmove] copies [n] bytes correctly also when the two ranges overlap:
    the destination gets the bytes the source had before the call, and no
    other byte changes. *)
Theorem memmove_overlap m dst src n :
  0 ≤ n →
  load_bytes (memmove m dst src n) dst (Z.to_nat n) = load_bytes m src (Z.to_nat n) ∧
  ∀ x, ¬ range dst n x → load8 (memmove m dst src n) x = load8 m x.
Proof.
  intros Hn. split; [by apply memmove_load_bytes|]. intros x Hx. by apply memmove_same.
Qed.
Lemma memmove_overlap_witness :
  let m := store_bytes ∅ 100 [1; 2; 3; 4] in
  load_bytes (memmove m 101 100 4) 101 4 = [1; 2; 3; 4].
Proof.
  intros m. etransitivity.
  - refine (proj1 (memmove_overlap m 101 100 4 _)). lia.
  - reflexivity.
Defined.

(** [safestrcpy] always leaves a NUL-terminated string in the
    destination: the source string, cut to [n - 1] bytes if it is longer; it
    writes nowhere else.  [strncpy] fills exactly [n] bytes, padding with NULs
    and leaving no terminator when the string has [n] bytes or more.
    [strncmp] is zero exactly on strings equal in their first [n] bytes. *)
Theorem string_copies m s t n :
  0 < n → s + n ≤ t ∨ t + n ≤ s →
  cstr (at_mem (safestrcpy m s t n) s) n = cstr (at_mem m t) (n - 1) ∧
  same_on (λ x, ¬ range s n x) m (safestrcpy m s t n) ∧
  load_bytes (strncpy m s t n) s (Z.to_nat n) = strncpy_bytes (at_mem m t) n ∧
  same_on (λ x, ¬ range s n x) m (strncpy m s t n) ∧
  (strncmp (at_mem m s) (at_mem m t) n = 0 ↔ cstr (at_mem m s) n = cstr (at_mem m t) n).
Proof.
  intros Hn Hd. destruct (safestrcpy_spec m s t n Hn Hd) as [H1 H2].
  destruct (strncpy_spec m s t n) as [H3 H4]; [lia|done|].
  split_and!; [done..|]. apply strncmp_from_zero; intros j; apply load8_fits.
Qed.

