(* ===== verification/Spinlock.v ===== *)
(** kernel/spinlock.c: the spin lock with its interrupt discipline.

    The operations are written over the lock and the CPU that executes them,
    out of the pieces that are atomic on the hardware.  [Contention] runs the
    same pieces of any number of CPUs interleaved, one atomic access at a
    time, and shows mutual exclusion.  [Lock] is the interface the rest of the
    kernel is modelled against: one bit, held or not by the running thread. *)

From S2P Require Import Prelude Riscv.

(** * Data *)

(** [struct spinlock]; [lk_cpu] is the index of the holding CPU, [None] for
    the null pointer. *)
Record spinlock := Spinlock {
  lk_locked : Z;
  lk_name : string;
  lk_cpu : option nat;
}.
(** The fields of [struct cpu] that the locks use, and the [sstatus]
    register of that CPU. *)
Record cpu := Cpu {
  c_noff : Z;
  c_intena : Z;
  c_sstatus : Z;
}.

(** A lock and the CPU that works on it. *)
Record lkstate := LkState { lk : spinlock; me : cpu }.

Definition set_lk (l : spinlock) (s : lkstate) : lkstate := LkState l (me s).
Definition set_me (c : cpu) (s : lkstate) : lkstate := LkState (lk s) c.

(** * Operations *)

Definition initlock (name : string) : M lkstate unit :=
  modify (set_lk (Spinlock 0 name None)).

(** [lk->locked && lk->cpu == mycpu()], [id] the index of this CPU. *)
Definition holding (id : nat) (l : spinlock) : bool :=
  truth (lk_locked l) && bool_decide (lk_cpu l = Some id).

Definition push_off : M lkstate unit :=
  let! old := gets (λ s, b2z (intr_get (c_sstatus (me s)))) in
  do! modify (λ s, set_me (Cpu (c_noff (me s)) (c_intena (me s))
                               (intr_off (c_sstatus (me s)))) s);
  do! (let! noff := gets (λ s, c_noff (me s)) in
       when (noff =? 0)
         (modify (λ s, set_me (Cpu (c_noff (me s)) old (c_sstatus (me s))) s)));
  modify (λ s, set_me (Cpu (s32 (c_noff (me s) + 1)) (c_intena (me s))
                           (c_sstatus (me s))) s).

Definition pop_off : M lkstate unit :=
  let! c := gets me in
  if intr_get (c_sstatus c) then panic "pop_off - interruptible"
  else if c_noff c <? 1 then panic "pop_off"
  else
    do! modify (set_me (Cpu (s32 (c_noff c - 1)) (c_intena c) (c_sstatus c)));
    let! c := gets me in
    when ((c_noff c =? 0) && truth (c_intena c))
      (modify (set_me (Cpu (c_noff c) (c_intena c) (intr_on (c_sstatus c))))).

(** The part of [acquire] before the spin loop. *)
Definition acquire_begin (id : nat) : M lkstate unit :=
  do! push_off;
  let! h := gets (λ s, holding id (lk s)) in
  if h then panic "acquire" else ret tt.

(** [__sync_lock_test_and_set(&lk->locked, 1)]: one atomic swap. *)
Definition test_and_set : M lkstate Z :=
  let! old := gets (λ s, lk_locked (lk s)) in
  do! modify (λ s, set_lk (Spinlock 1 (lk_name (lk s)) (lk_cpu (lk s))) s);
  ret old.

(** [lk->cpu = mycpu()] *)
Definition record_cpu (c : option nat) : M lkstate unit :=
  modify (λ s, set_lk (Spinlock (lk_locked (lk s)) (lk_name (lk s)) c) s).

(** [while(__sync_lock_test_and_set(&lk->locked, 1) != 0);]  Run alone the
    loop either succeeds at once or spins for ever, so any fuel of at least 1
    decides it. *)
Definition spin (fuel : nat) : M lkstate unit :=
  loop fuel (λ _ : unit,
    let! old := test_and_set in
    if truth old then ret (inl tt) else ret (inr tt)) tt.

Definition acquire (fuel id : nat) : M lkstate unit :=
  do! acquire_begin id;
  do! spin fuel;
  record_cpu (Some id).

(** The part of [release] before the lock word is cleared. *)
Definition release_begin (id : nat) : M lkstate unit :=
  let! h := gets (λ s, holding id (lk s)) in
  if negb h then panic "release" else record_cpu None.

(** [__sync_lock_release(&lk->locked)] *)
Definition sync_lock_release : M lkstate unit :=
  modify (λ s, set_lk (Spinlock 0 (lk_name (lk s)) (lk_cpu (lk s))) s).

Definition release (id : nat) : M lkstate unit :=
  do! release_begin id;
  do! sync_lock_release;
  pop_off.

(** * The interrupt discipline *)

Definition sie (s : lkstate) : bool := intr_get (c_sstatus (me s)).

(** The depth is in the range of [int] and interrupts are off inside. *)
Definition cpu_ok (c : cpu) : Prop :=
  0 ≤ c_noff c < 2 ^ 31 ∧ (0 < c_noff c → intr_get (c_sstatus c) = false).

(** The CPU after one [push_off], and after one [pop_off]. *)
Definition pushed (c : cpu) : cpu :=
  Cpu (c_noff c + 1)
      (if c_noff c =? 0 then b2z (intr_get (c_sstatus c)) else c_intena c)
      (intr_off (c_sstatus c)).
Definition popped (c : cpu) : cpu :=
  Cpu (c_noff c - 1) (c_intena c)
      (if (c_noff c =? 1) && truth (c_intena c)
       then intr_on (c_sstatus c) else c_sstatus c).

Lemma push_off_spec s (Q : unit → lkstate → Prop) :
  cpu_ok (me s) → c_noff (me s) < 2 ^ 31 - 1 →
  Q tt (LkState (lk s) (pushed (me s))) → wp push_off Q s.
Proof.
  intros [H1 H2] Hlt HQ. destruct s as [l [noff intena ss]]. unfold pushed in HQ.
  simpl in *. unfold push_off, when. wp_steps. simpl.
  destruct (Z.eqb_spec noff 0); wp_steps; simpl; rewrite s32_id by lia; done.
Qed.

Lemma pop_off_spec s (Q : unit → lkstate → Prop) :
  cpu_ok (me s) → 0 < c_noff (me s) →
  Q tt (LkState (lk s) (popped (me s))) → wp pop_off Q s.
Proof.
  intros [H1 H2] Hlt HQ. destruct s as [l [noff intena ss]]. unfold popped in HQ.
  simpl in *. unfold pop_off. wp_steps. simpl. rewrite H2 by lia.
  destruct (Z.ltb_spec noff 1); [lia|]. wp_steps; simpl in *;
    rewrite s32_id in * by lia; revert HQ;
    (destruct (Z.eqb_spec noff 1); destruct (Z.eqb_spec (noff - 1) 0); try lia);
    simpl in *; try done; destruct (truth intena); simpl in *; done.
Qed.

(** A sequence of [push_off] (true) and [pop_off] (false) calls. *)
Fixpoint run_offs (l : list bool) : M lkstate unit :=
  match l with
  | [] => ret tt
  | b :: l' => do! (if b then push_off else pop_off); run_offs l'
  end.

(** Properly matched sequences. *)
Inductive matched : list bool → Prop :=
| matched_nil : matched []
| matched_pair l l' : matched l → matched l' → matched (true :: l ++ false :: l').

Lemma intr_off_id x : intr_get x = false → intr_off x = x.
Proof.
  unfold intr_get, intr_off, SSTATUS_SIE. rewrite PTE_bit_eq by lia. intros H.
  apply Z.bits_inj'. intros i Hi. rewrite Z.land_spec, Z.lnot_spec by done.
  rewrite Z.shiftl_1_l, Z.pow2_bits_eqb by lia.
  destruct (Z.eqb_spec 1 i) as [<-|]; [by rewrite H|apply andb_true_r].
Qed.
Lemma intr_on_off x : intr_get x = true → intr_on (intr_off x) = x.
Proof.
  unfold intr_get, intr_off, intr_on, SSTATUS_SIE. rewrite PTE_bit_eq by lia. intros H.
  apply Z.bits_inj'. intros i Hi. rewrite Z.lor_spec, Z.land_spec, Z.lnot_spec by done.
  rewrite Z.shiftl_1_l, Z.pow2_bits_eqb by lia.
  destruct (Z.eqb_spec 1 i) as [<-|]; [by rewrite H|].
  rewrite andb_true_r. apply orb_false_r.
Qed.

Lemma run_offs_app l l' s Q :
  wp (run_offs l) (λ _, wp (run_offs l') Q) s → wp (run_offs (l ++ l')) Q s.
Proof.
  revert s. induction l as [|b l IH]; intros s H; simpl in *; [done|].
  apply wp_bind. unfold wp, bind in H. unfold wp.
  destruct ((if b then push_off else pop_off) s); [|done..]. by apply IH.
Qed.

Lemma pushed_ok c : cpu_ok c → c_noff c < 2 ^ 31 - 1 → cpu_ok (pushed c).
Proof. intros [H1 H2] Hlt. split; simpl; [lia|]. intros. apply intr_get_off. Qed.

(** A [pop_off] undoes a [push_off]. *)
Lemma popped_pushed c :
  cpu_ok c →
  c_noff (popped (pushed c)) = c_noff c ∧ c_sstatus (popped (pushed c)) = c_sstatus c ∧
  (0 < c_noff c → popped (pushed c) = c).
Proof.
  destruct c as [noff intena ss]. intros [H1 H2]. unfold popped, pushed. simpl in *.
  destruct (Z.eqb_spec noff 0) as [->|].
  - simpl. split; [done|]. split; [|lia]. unfold b2z.
    destruct (intr_get ss) eqn:E; simpl; [by apply intr_on_off|by apply intr_off_id].
  - destruct (Z.eqb_spec (noff + 1) 1); [lia|]. simpl.
    rewrite intr_off_id by (apply H2; lia). split_and!; [lia|done|].
    intros. f_equal. lia.
Qed.

(** matched [push_off] and [pop_off] calls leave the depth and the
    interrupt state as they were; inside a critical section ([0 < noff]) they
    leave the whole CPU structure alone. *)
Theorem matched_restores l s :
  matched l → cpu_ok (me s) → c_noff (me s) + Z.of_nat (length l) < 2 ^ 31 →
  wp (run_offs l) (λ _ s', lk s' = lk s ∧ c_noff (me s') = c_noff (me s) ∧
                           c_sstatus (me s') = c_sstatus (me s) ∧
                           (0 < c_noff (me s) → me s' = me s)) s.
Proof.
  intros Hm. revert s. induction Hm as [|l l' _ IH1 _ IH2]; intros s Hok Hlen.
  { by apply wp_ret. }
  simpl in Hlen. rewrite length_app in Hlen. simpl in Hlen. simpl. apply wp_bind.
  assert (0 ≤ c_noff (me s)) as Hnn by (destruct Hok; lia).
  apply push_off_spec; [done|lia|]. apply run_offs_app.
  eapply wp_mono; [apply IH1; simpl; [apply pushed_ok; [done|lia]|lia]|].
  intros [] [l1 c1] (Hlk & _ & _ & Hme). simpl in *. rewrite Hlk, Hme by lia.
  apply wp_bind, pop_off_spec; simpl; [apply pushed_ok; [done|lia]|lia|].
  destruct (popped_pushed _ Hok) as (Hn & Hs & Hc).
  eapply wp_mono; [apply IH2; cbn [me lk]|].
  - destruct Hok as [? ?]. split; rewrite Hn, ?Hs; done.
  - lia.
  - intros [] s' (?&?&?&Hmes). cbn [me lk] in *. rewrite Hn, Hs in *.
    split_and!; [done..|]. intros. rewrite Hmes by done. by apply Hc.
Qed.


(** * Acquire and release by one CPU *)

Lemma spin_free fuel s (Q : unit → lkstate → Prop) :
  lk_locked (lk s) = 0 →
  Q tt (LkState (Spinlock 1 (lk_name (lk s)) (lk_cpu (lk s))) (me s)) →
  wp (spin (S fuel)) Q s.
Proof.
  intros Hfree HQ. unfold spin, test_and_set. cbn [loop]. wp_steps.
  rewrite Hfree. simpl. wp_steps. done.
Qed.

(** What [acquire] does when the lock is free. *)
Lemma acquire_free fuel id s (Q : unit → lkstate → Prop) :
  cpu_ok (me s) → c_noff (me s) < 2 ^ 31 - 1 → lk_locked (lk s) = 0 →
  Q tt (LkState (Spinlock 1 (lk_name (lk s)) (Some id)) (pushed (me s))) →
  wp (acquire (S fuel) id) Q s.
Proof.
  intros Hok Hlt Hfree HQ. unfold acquire, acquire_begin, record_cpu.
  apply wp_bind, wp_bind, push_off_spec; [done..|]. wp_steps. simpl.
  unfold holding. rewrite Hfree. simpl. wp_steps. by apply spin_free.
Qed.

(** What [release] does by the holder. *)
Lemma release_held id s (Q : unit → lkstate → Prop) :
  cpu_ok (me s) → 0 < c_noff (me s) → holding id (lk s) = true →
  Q tt (LkState (Spinlock 0 (lk_name (lk s)) None) (popped (me s))) →
  wp (release id) Q s.
Proof.
  intros Hok Hlt Hh HQ. unfold release, release_begin, sync_lock_release, record_cpu.
  wp_steps. rewrite Hh. simpl. wp_steps. by apply pop_off_spec.
Qed.

(** A second [acquire] by the CPU that holds the lock panics. *)
Lemma acquire_held_panics fuel id s :
  cpu_ok (me s) → c_noff (me s) < 2 ^ 31 - 1 → holding id (lk s) = true →
  acquire fuel id s = Panic "acquire".
Proof.
  intros Hok Hlt Hh.
  pose proof (push_off_spec s (λ _ s', lk s' = lk s) Hok Hlt eq_refl) as Hp.
  apply wp_ok in Hp as ([] & s' & Hs' & Hlk).
  unfold acquire, acquire_begin, bind. rewrite Hs'. simpl. by rewrite Hlk, Hh.
Qed.

Lemma release_not_held_panics id s :
  holding id (lk s) = false → release id s = Panic "release".
Proof. intros Hh. unfold release, release_begin, bind. simpl. by rewrite Hh. Qed.

(** Against a lock held by another CPU the loop of [acquire] spins: no
    amount of fuel makes it return. *)
Lemma spin_taken fuel s : lk_locked (lk s) ≠ 0 → spin fuel s = Stuck.
Proof.
  unfold spin. revert s. induction fuel as [|fuel IH]; intros s Hl; [done|]. simpl.
  unfold bind at 1 2. unfold test_and_set, bind, gets, modify. simpl.
  assert (truth (lk_locked (lk s)) = true) as -> by (by apply truth_true).
  simpl. by apply IH.
Qed.

Lemma acquire_spins fuel id s :
  cpu_ok (me s) → c_noff (me s) < 2 ^ 31 - 1 →
  lk_locked (lk s) ≠ 0 → lk_cpu (lk s) ≠ Some id →
  acquire fuel id s = Stuck.
Proof.
  intros Hok Hlt Hl Hc.
  pose proof (push_off_spec s (λ _ s', lk s' = lk s) Hok Hlt eq_refl) as Hp.
  apply wp_ok in Hp as ([] & s' & Hs' & Hlk).
  unfold acquire, acquire_begin, bind at 1 2. rewrite Hs'. unfold bind at 1. simpl.
  unfold holding. rewrite Hlk, bool_decide_false, andb_false_r by done. simpl.
  unfold bind. by rewrite spin_taken by congruence.
Qed.

(** * Contention *)

(** Any number of CPUs that call [acquire] and [release] on one lock, each
    load, store and swap of the lock words an atomic step of its own. *)
Module Contention.

(** Where a CPU is between two accesses to the lock. *)
Inductive pc :=
| Idle                     (* outside *)
| Pushed | Checking        (* in acquire: push_off done; lk->locked was set *)
| Spinning                 (* in the test-and-set loop *)
| Got                      (* swapped 0 for 1; lk->cpu not yet recorded *)
| Critical                 (* between acquire and release *)
| Owned                    (* in release: lk->locked was set *)
| Leaving                  (* lk->cpu was this CPU *)
| Clearing                 (* lk->cpu = 0 done *)
| Popping.                 (* lk->locked cleared *)

(** The next step of CPU [i]; [holding] is its two loads. *)
Definition piece (i : nat) (p : pc) : M lkstate pc :=
  match p with
  | Idle => do! push_off; ret Pushed
  | Pushed =>
      let! l := gets (λ s, lk_locked (lk s)) in
      ret (if truth l then Checking else Spinning)
  | Checking =>
      let! c := gets (λ s, lk_cpu (lk s)) in
      if bool_decide (c = Some i) then panic "acquire" else ret Spinning
  | Spinning =>
      let! old := test_and_set in
      ret (if truth old then Spinning else Got)
  | Got => do! record_cpu (Some i); ret Critical
  | Critical =>
      let! l := gets (λ s, lk_locked (lk s)) in
      if truth l then ret Owned else panic "release"
  | Owned =>
      let! c := gets (λ s, lk_cpu (lk s)) in
      if bool_decide (c = Some i) then ret Leaving else panic "release"
  | Leaving => do! record_cpu None; ret Clearing
  | Clearing => do! sync_lock_release; ret Popping
  | Popping => do! pop_off; ret Idle
  end.

Record sys := Sys { s_lk : spinlock; s_cpus : gmap nat (pc * cpu) }.

Inductive step : sys → sys → Prop :=
| step_cpu l cpus i p c p' l' c' :
    cpus !! i = Some (p, c) →
    piece i p (LkState l c) = Ok p' (LkState l' c') →
    step (Sys l cpus) (Sys l' (<[i := (p', c')]> cpus)).

Definition panics (st : sys) : Prop :=
  ∃ i p c msg, s_cpus st !! i = Some (p, c) ∧
               piece i p (LkState (s_lk st) c) = Panic msg.

(** At boot: the lock is free and every CPU is outside. *)
Definition initial (st : sys) : Prop :=
  lk_locked (s_lk st) = 0 ∧ lk_cpu (s_lk st) = None ∧
  ∀ i p c, s_cpus st !! i = Some (p, c) → p = Idle ∧ cpu_ok c ∧ c_noff c < 2 ^ 31 - 1.

(** Inside: from the successful swap to the store that frees the lock. *)
Definition inside (p : pc) : bool :=
  match p with Got | Critical | Owned | Leaving | Clearing => true | _ => false end.
(** The places where [lk->cpu] names the CPU. *)
Definition named (p : pc) : bool :=
  match p with Critical | Owned | Leaving => true | _ => false end.

Definition cpu_at (p : pc) (c : cpu) : Prop :=
  cpu_ok c ∧ match p with Idle => c_noff c < 2 ^ 31 - 1 | _ => 0 < c_noff c end.

Definition inv (st : sys) : Prop :=
  ∃ o : option nat,
    (∀ i p c, s_cpus st !! i = Some (p, c) →
       cpu_at p c ∧ (inside p = true ↔ o = Some i) ∧
       (named p = true ↔ lk_cpu (s_lk st) = Some i)) ∧
    (lk_locked (s_lk st) ≠ 0 ↔ o ≠ None).

Lemma initial_inv st : initial st → inv st.
Proof.
  intros (Hl & Hc & Hcpus). exists None. split.
  - intros i p c Hi. destruct (Hcpus i p c Hi) as (-> & Hok & Hn).
    rewrite Hc. by split_and!.
  - rewrite Hl. done.
Qed.

(** No CPU in an invariant state is about to panic, and its step is one of
    these. *)
Lemma piece_ok i p c l :
  cpu_at p c →
  (named p = true ↔ lk_cpu l = Some i) →
  (inside p = true → lk_locked l ≠ 0) →
  wp (piece i p) (λ p' s', cpu_at p' (me s') ∧
    match p with
    | Spinning => lk s' = Spinlock 1 (lk_name l) (lk_cpu l) ∧
                  p' = (if truth (lk_locked l) then Spinning else Got)
    | Got => lk s' = Spinlock (lk_locked l) (lk_name l) (Some i) ∧ p' = Critical
    | Leaving => lk s' = Spinlock (lk_locked l) (lk_name l) None ∧ p' = Clearing
    | Clearing => lk s' = Spinlock 0 (lk_name l) (lk_cpu l) ∧ p' = Popping
    | _ => lk s' = l ∧ inside p' = inside p ∧ named p' = named p
    end) (LkState l c).
Proof.
  intros [Hok Hn] Hname Hin. unfold piece. destruct p; simpl in *.
  - apply wp_bind, push_off_spec; simpl; [done..|]. apply wp_ret. split; [|done]. split.
    + by apply pushed_ok.
    + destruct Hok; simpl; lia.
  - wp_steps. destruct (truth _); done.
  - wp_steps. simpl. rewrite bool_decide_false by naive_solver. by apply wp_ret.
  - unfold test_and_set. wp_steps. simpl. destruct (truth _); done.
  - unfold record_cpu. wp_steps. done.
  - wp_steps. simpl. rewrite (proj2 (truth_true _)) by auto. by apply wp_ret.
  - wp_steps. simpl. rewrite bool_decide_true by naive_solver. by apply wp_ret.
  - unfold record_cpu. wp_steps. done.
  - unfold sync_lock_release. wp_steps. done.
  - apply wp_bind, pop_off_spec; simpl; [done..|]. apply wp_ret.
    destruct Hok as [Hr Hi]. split; [|done]. unfold cpu_at, cpu_ok. simpl.
    split_and!; [lia..| |lia].
    intros. destruct (Z.eqb_spec (c_noff c) 1); [lia|]. simpl. apply Hi. lia.
Qed.

Lemma named_inside p : named p = true → inside p = true.
Proof. by destruct p. Qed.

Lemma step_inv st st' : inv st → step st st' → inv st'.
Proof.
  intros (o & Hcpus & Hlock) Hstep.
  destruct Hstep as [l cpus i p c p' l' c' Hi Hp]. simpl in *.
  destruct (Hcpus i p c Hi) as (Hat & Hin & Hname).
  assert (inside p = true → lk_locked l ≠ 0) as Hin' by naive_solver.
  pose proof (piece_ok i p c l Hat Hname Hin') as Hwp.
  unfold wp in Hwp. rewrite Hp in Hwp. destruct Hwp as [Hat' Hcase]. simpl in *.
  exists (match p with
          | Spinning => if truth (lk_locked l) then o else Some i
          | Clearing => None
          | _ => o
          end).
  assert (inside p = true → ∀ j q d, cpus !! j = Some (q, d) → i ≠ j →
            inside q = false ∧ named q = false) as Hexcl.
  { intros Hpi j q d Hj Hij. pose proof (Hcpus j q d Hj) as (_ & Hqj & _).
    pose proof (named_inside q) as Hni. apply Hin in Hpi. destruct (inside q).
    - assert (o = Some j) by (by apply Hqj). congruence.
    - destruct (named q); [by discriminate Hni|done]. }
  simpl. split.
  - intros j q d. rewrite lookup_insert. case_decide as Hij; intros Hj.
    + subst j. injection Hj as <- <-. split; [done|].
      destruct p; first [destruct Hcase as (-> & ->)|destruct Hcase as (-> & -> & ->)];
        simpl in *; try tauto; try (split; [tauto|done]).
      * destruct (truth _); simpl; [tauto|]. split; [done|tauto].
      * split; [done|tauto].
    + pose proof (Hcpus j q d Hj) as (? & Hqin & Hqname). split; [done|].
      pose proof (λ H, Hexcl H j q d Hj Hij) as Hex.
      destruct p; first [destruct Hcase as (-> & ->)|destruct Hcase as (-> & _ & _)];
        simpl in *; try tauto.
      * split; [|done]. destruct (truth _) eqn:Ht; [done|]. bool_facts.
        rewrite Hqin. destruct o; [|naive_solver]. exfalso.
        assert (Some n ≠ None) as Hne by done. by apply Hlock in Hne.
      * split; [done|]. destruct Hex as [_ ->]; [done|]. split; congruence.
      * split; [done|]. destruct Hex as [_ ->]; [done|]. done.
      * split; [|done]. destruct Hex as [-> _]; [done|]. done.
  - destruct p; first [destruct Hcase as (-> & ->)|destruct Hcase as (-> & _ & _)];
      simpl in *; try tauto.
    destruct (truth _) eqn:Ht; bool_facts; (split; [intros _|lia]); [by apply Hlock|done].
Qed.

Lemma reachable_inv st st' : initial st → rtc step st st' → inv st'.
Proof.
  intros Hinit%initial_inv Hsteps. revert Hinit.
  induction Hsteps; eauto using step_inv.
Qed.

(** C39: whatever the interleaving of the atomic accesses of [acquire] and
    [release] on any number of CPUs, no panic of spinlock.c is reachable, at
    most one CPU is between its successful swap and the store that frees the
    lock, and that CPU runs with interrupts off. *)
Theorem spinlock_safe st st' :
  initial st → rtc step st st' →
  ¬ panics st' ∧
  (∀ i j p q c d, s_cpus st' !! i = Some (p, c) → s_cpus st' !! j = Some (q, d) →
     inside p = true → inside q = true → i = j) ∧
  (∀ i p c, s_cpus st' !! i = Some (p, c) → inside p = true →
     intr_get (c_sstatus c) = false).
Proof.
  intros Hinit Hsteps. destruct (reachable_inv st st' Hinit Hsteps) as (o & Hcpus & Hl).
  split_and!.
  - intros (i & p & c & msg & Hi & Hp). destruct (Hcpus i p c Hi) as (Hat & Hin & Hname).
    assert (inside p = true → lk_locked (s_lk st') ≠ 0) as Hin' by naive_solver.
    pose proof (piece_ok i p c _ Hat Hname Hin') as Hwp. unfold wp in Hwp.
    by rewrite Hp in Hwp.
  - intros i j p q c d Hi Hj Hp Hq.
    destruct (Hcpus i p c Hi) as (_ & Hpi & _), (Hcpus j q d Hj) as (_ & Hqj & _).
    naive_solver.
  - intros i p c Hi Hp. destruct (Hcpus i p c Hi) as ((Hok & Hn) & _).
    apply Hok. by destruct p.
Qed.

(** Two CPUs with interrupts on; CPU 0 takes the lock while CPU 1 spins. *)
Definition two_cpus : sys :=
  Sys (Spinlock 0 "kmem" None)
    (<[0%nat := (Idle, Cpu 0 0 2)]> (<[1%nat := (Idle, Cpu 0 0 2)]> ∅)).
Lemma two_cpus_initial : initial two_cpus.
Proof.
  split_and!; [done..|]. intros i p c. unfold two_cpus, s_cpus.
  rewrite !lookup_insert, lookup_empty.
  repeat case_decide; intros ?; simplify_eq; (split_and!; [done|split; simpl; lia|simpl; lia]).
Qed.
Lemma spinlock_safe_witness :
  ∃ st', rtc step two_cpus st' ∧
    fst <$> s_cpus st' !! 0%nat = Some Got ∧ fst <$> s_cpus st' !! 1%nat = Some Spinning ∧
    ¬ panics st'.
Proof.
  eexists. match goal with |- ?P ∧ _ => assert P as Hrun end.
  { eapply rtc_l; [by eapply (step_cpu _ _ 0%nat)|].
    eapply rtc_l; [by eapply (step_cpu _ _ 1%nat)|].
    eapply rtc_l; [by eapply (step_cpu _ _ 0%nat)|].
    eapply rtc_l; [by eapply (step_cpu _ _ 0%nat)|].
    eapply rtc_l; [by eapply (step_cpu _ _ 1%nat)|].
    eapply rtc_l; [by eapply (step_cpu _ _ 1%nat)|].
    apply rtc_refl. }
  split_and!; [exact Hrun|reflexivity|reflexivity|].
  exact (proj1 (spinlock_safe two_cpus _ two_cpus_initial Hrun)).
Defined.

(** The steps refine the C functions: what [acquire] and [release] do when
    no other CPU interferes is a run of the step relation. *)
Lemma acquire_steps fuel i l c l' c' :
  cpu_ok c → c_noff c < 2 ^ 31 - 1 → lk_locked l = 0 →
  acquire (S fuel) i (LkState l c) = Ok tt (LkState l' c') →
  rtc step (Sys l {[i := (Idle, c)]}) (Sys l' {[i := (Critical, c')]}).
Proof.
  intros Hok Hlt Hfree Hacq.
  pose proof (acquire_free fuel i (LkState l c)
    (λ _ s', s' = LkState (Spinlock 1 (lk_name l) (Some i)) (pushed c))
    Hok Hlt Hfree eq_refl) as Hwp.
  unfold wp in Hwp. rewrite Hacq in Hwp. simplify_eq.
  pose proof (push_off_spec (LkState l c) (λ _ s', s' = LkState l (pushed c))
    Hok Hlt eq_refl) as Hpush.
  apply wp_ok in Hpush as ([] & ? & Hpush & ->).
  assert (∀ l p l' p' d d', piece i p (LkState l d) = Ok p' (LkState l' d') →
    step (Sys l {[i := (p, d)]}) (Sys l' {[i := (p', d')]})) as Hs.
  { intros * Hp. rewrite <- (insert_singleton_eq i (p', d') (p, d)).
    eapply step_cpu; [apply lookup_singleton_eq|done]. }
  eapply rtc_l; [apply (Hs l Idle l Pushed c (pushed c))|].
  { unfold piece, bind. by rewrite Hpush. }
  eapply rtc_l; [apply (Hs l Pushed l Spinning)|].
  { unfold piece, bind. simpl. by rewrite Hfree. }
  eapply rtc_l; [apply (Hs l Spinning (Spinlock 1 (lk_name l) (lk_cpu l)) Got)|].
  { unfold piece, test_and_set, bind. simpl. by rewrite Hfree. }
  by apply rtc_once, Hs.
Qed.

End Contention.

(** * The lock as the rest of the kernel sees it *)

(** A thread either holds the lock or does not; taking it twice and
    releasing it without holding it panic. *)
Module Lock.

Definition lk_acquire : M bool unit :=
  let! held := gets (λ b : bool, b) in if held then panic "acquire" else modify (λ _, true).
Definition lk_release : M bool unit :=
  let! held := gets (λ b : bool, b) in if held then modify (λ _, false) else panic "release".

End Lock.

(** Taking and dropping a lock that is a field of a larger state. *)
Lemma wp_lock_acquire {T} (get : T → bool) set (Q : unit → T → Prop) t :
  get t = false → Q tt (set true t) → wp (zoom get set Lock.lk_acquire) Q t.
Proof. intros Hg HQ. apply wp_zoom. rewrite Hg. exact HQ. Qed.
Lemma wp_lock_release {T} (get : T → bool) set (Q : unit → T → Prop) t :
  get t = true → Q tt (set false t) → wp (zoom get set Lock.lk_release) Q t.
Proof. intros Hg HQ. apply wp_zoom. rewrite Hg. exact HQ. Qed.

(** The concrete lock of CPU [id] as the abstract bit; the lock is not held
    by another CPU. *)
Definition lock_rel (id : nat) (s : lkstate) (b : bool) : Prop :=
  cpu_ok (me s) ∧ c_noff (me s) < 2 ^ 31 - 1 ∧
  if b then holding id (lk s) = true ∧ 0 < c_noff (me s) else lk_locked (lk s) = 0.

Lemma lk_acquire_refines fuel id s b :
  lock_rel id s b → c_noff (me s) < 2 ^ 31 - 2 →
  match Lock.lk_acquire b with
  | Ok _ b' => wp (acquire (S fuel) id) (λ _ s', lock_rel id s' b') s
  | Panic msg => acquire (S fuel) id s = Panic msg
  | _ => False
  end.
Proof.
  intros (Hok & Hlt & Hb) Hlt'. destruct b; simpl in *.
  - apply acquire_held_panics; tauto.
  - apply acquire_free; [done..|]. unfold lock_rel, holding. simpl.
    rewrite bool_decide_true by done. destruct Hok as [? ?].
    split_and!; [apply pushed_ok; by try split|lia|done|lia].
Qed.
Lemma lk_release_refines id s b :
  lock_rel id s b →
  match Lock.lk_release b with
  | Ok _ b' => wp (release id) (λ _ s', lock_rel id s' b') s
  | Panic msg => release id s = Panic msg
  | _ => False
  end.
Proof.
  intros (Hok & Hlt & Hb). destruct b; simpl in *.
  - destruct Hb as [Hh Hpos]. apply release_held; [done..|]. unfold lock_rel. simpl.
    destruct Hok as [H1 H2]. split_and!; [|lia|done]. split; simpl; [lia|].
    intros. destruct (Z.eqb_spec (c_noff (me s)) 1); [lia|]. simpl. apply H2. lia.
  - apply release_not_held_panics. unfold holding. by rewrite Hb.
Qed.

(** run by a CPU that competes with no other, [acquire] and [release]
    implement the one-bit lock the rest of the development uses, the panics
    on a double acquire and on a release of a lock not held included. *)
Theorem spinlock_refines_lock fuel id s b :
  lock_rel id s b → c_noff (me s) < 2 ^ 31 - 2 →
  match Lock.lk_acquire b with
  | Ok _ b' => wp (acquire (S fuel) id) (λ _ s', lock_rel id s' b') s
  | Panic msg => acquire (S fuel) id s = Panic msg
  | _ => False
  end ∧
  match Lock.lk_release b with
  | Ok _ b' => wp (release id) (λ _ s', lock_rel id s' b') s
  | Panic msg => release id s = Panic msg
  | _ => False
  end.
Proof. intros H Hlt. split; [by apply lk_acquire_refines|by apply lk_release_refines]. Qed.
