(* ===== verification/Kalloc.v ===== *)
(** kernel/kalloc.c: the physical page allocator.  The free list is threaded
    through the free pages themselves, so the state is the lock, the list head
    and the memory. *)

From S2P Require Import Prelude Riscv Mem Cstring Spinlock.

(** * What the linker provides *)

(** Addresses that kernel/kernel.ld defines. *)
Class Linker := {
  kend : Z;        (* end: the first address after the kernel *)
  etext : Z;       (* the end of the kernel text *)
  trampoline : Z;  (* the page of trampoline.S *)
}.
(** The layout kernel.ld produces: text from KERNBASE, the trampoline is the
    last page of it, data up to [end]; the kernel fits into RAM. *)
Class LinkerOk (L : Linker) : Prop := {
  trampoline_aligned : aligned trampoline;
  etext_trampoline : etext = trampoline + PGSIZE;
  trampoline_text : KERNBASE ≤ trampoline;
  etext_end : etext ≤ kend;
  kend_phystop : kend ≤ PHYSTOP;
}.

(** A small machine: eight pages of RAM above the kernel. *)
Definition ex_linker : Linker := {|
  kend := PHYSTOP - 8 * PGSIZE;
  etext := KERNBASE + 8 * PGSIZE;
  trampoline := KERNBASE + 7 * PGSIZE;
|}.
Lemma ex_linker_ok : LinkerOk ex_linker.
Proof. by split. Qed.

(** * State *)

Record kmem := Kmem {
  k_lock : bool;       (* kmem.lock, held by this thread *)
  k_freelist : Z;      (* kmem.freelist, 0 for the null pointer *)
  k_mem : mem;         (* physical memory *)
}.

Definition set_lock (b : bool) (s : kmem) : kmem := Kmem b (k_freelist s) (k_mem s).
Definition set_freelist (r : Z) (s : kmem) : kmem := Kmem (k_lock s) r (k_mem s).
Definition set_mem (m : mem) (s : kmem) : kmem := Kmem (k_lock s) (k_freelist s) m.
Definition upd_mem (f : mem → mem) (s : kmem) : kmem := set_mem (f (k_mem s)) s.

Definition kmem_acquire : M kmem unit := zoom k_lock set_lock Lock.lk_acquire.
Definition kmem_release : M kmem unit := zoom k_lock set_lock Lock.lk_release.

(** * Operations *)

Section kalloc.
Context {L : Linker}.

Definition kfree (pa : Z) : M kmem unit :=
  if truth (pa `mod` PGSIZE) || (pa <? kend) || (PHYSTOP <=? pa) then panic "kfree"
  else
    (* Fill with junk to catch dangling refs. *)
    do! modify (upd_mem (λ m, memset m pa 1 PGSIZE));
    do! kmem_acquire;
    let! fl := gets k_freelist in
    do! modify (upd_mem (λ m, store64 m pa fl));
    do! modify (set_freelist pa);
    kmem_release.

Definition kalloc : M kmem Z :=
  do! kmem_acquire;
  let! r := gets k_freelist in
  do! when (truth r)
        (let! next := gets (λ s, load64 (k_mem s) r) in
         modify (set_freelist next));
  do! kmem_release;
  do! when (truth r) (modify (upd_mem (λ m, memset m r 5 PGSIZE)));
  ret r.

(** One turn of the loop per page: the fuel covers the range. *)
Definition freerange (pa_start pa_end : Z) : M kmem unit :=
  loop (Z.to_nat (pa_end `div` PGSIZE) + 1) (λ p,
    if p + PGSIZE <=? pa_end
    then do! kfree p; ret (inl (p + PGSIZE))
    else ret (inr tt)) (PGROUNDUP pa_start).

Definition kinit : M kmem unit :=
  do! modify (set_lock false);
  freerange kend PHYSTOP.
End kalloc.

(** * The free list *)

(** The page at [p], as a range of addresses. *)
Definition page (p x : Z) : Prop := range p PGSIZE x.

Section spec.
Context {L : Linker}.

(** A page [kfree] accepts. *)
Definition ram_page (p : Z) : Prop := aligned p ∧ kend ≤ p < PHYSTOP.

(** The pages on the list that starts at [a]. *)
Fixpoint chain (m : mem) (a : Z) (l : list Z) : Prop :=
  match l with
  | [] => a = 0
  | p :: l' => a = p ∧ chain m (load64 m p) l'
  end.

Definition free_list (s : kmem) (l : list Z) : Prop :=
  k_lock s = false ∧ chain (k_mem s) (k_freelist s) l ∧ NoDup l ∧ Forall ram_page l.

Context {Lok : LinkerOk L}.

Lemma ram_page_pos p : ram_page p → 0 < p.
Proof.
  intros [_ [H _]]. destruct Lok as [? ? ? ? ?]. unfold KERNBASE, PGSIZE in *. lia.
Qed.
Lemma ram_page_fits p : ram_page p → fits 64 p.
Proof.
  intros H. pose proof (ram_page_pos p H). destruct H as [_ [_ H]].
  unfold fits, PHYSTOP, KERNBASE in *. lia.
Qed.

(** Distinct aligned pages do not overlap. *)
Lemma page_disjoint p q x : aligned p → aligned q → p ≠ q → page p x → ¬ page q x.
Proof. unfold page, range, aligned, PGSIZE. intros. dlia. Qed.
Lemma page_word p q k :
  aligned p → aligned q → p ≠ q → 0 ≤ k → k + 8 ≤ PGSIZE →
  ∀ x, range (p + k) 8 x → ¬ page q x.
Proof.
  intros Hp Hq Hne Hk Hk' x Hx. apply (page_disjoint p q); [done..|].
  unfold page, range in *. lia.
Qed.

Lemma chain_frame m m' a l :
  Forall ram_page l → (∀ p, p ∈ l → same_on (page p) m m') →
  chain m a l → chain m' a l.
Proof.
  revert a. induction l as [|p l IH]; intros a Hl Hs; [done|].
  intros [-> Hc]. split; [done|]. inversion Hl; subst.
  rewrite (load64_ext m m').
  - apply IH; [done| |done]. intros q Hq. apply Hs. by right.
  - eapply same_on_weaken; [apply (Hs p); by left|].
    intros x. unfold page, range, PGSIZE. lia.
Qed.

(** Memory outside the free pages is the clients'. *)
Lemma free_list_frame s l m' :
  (∀ p, p ∈ l → same_on (page p) (k_mem s) m') →
  free_list s l → free_list (set_mem m' s) l.
Proof.
  intros Hs (Hlk & Hc & Hnd & Hl). split_and!; [done| |done|done].
  by eapply chain_frame.
Qed.

Lemma free_list_not_page s l p q :
  free_list s l → q ∈ l → p ∉ l → aligned p → ∀ x, page q x → ¬ page p x.
Proof.
  intros (_ & _ & _ & Hl) Hq Hp Ha x.
  apply page_disjoint; [by destruct (Forall_in _ _ _ Hl Hq)|done|by intros ->].
Qed.

Lemma kfree_spec s l pa :
  free_list s l → ram_page pa → pa ∉ l →
  wp (kfree pa) (λ _ s', free_list s' (pa :: l) ∧
    same_on (λ x, ¬ page pa x) (k_mem s) (k_mem s')) s.
Proof.
  intros Hfl Hpa Hnin. pose proof (ram_page_fits pa Hpa) as Hfit.
  destruct Hpa as [Ha Hr]. unfold kfree.
  assert (truth (pa `mod` PGSIZE) || (pa <? kend) || (PHYSTOP <=? pa) = false) as ->.
  { unfold truth. rewrite Ha. simpl. destruct (Z.ltb_spec pa kend); [lia|].
    destruct (Z.leb_spec PHYSTOP pa); [lia|done]. }
  destruct Hfl as (Hlk & Hc & Hnd & Hl). destruct s as [lk fl m]. simpl in *. subst lk.
  assert (same_on (λ x, ¬ page pa x) m
    (store64 (memset m pa 1 PGSIZE) pa fl)) as Hsame.
  { intros x Hx. rewrite (store64_same _ _ _ x).
    - by apply memset_out.
    - unfold page, range, PGSIZE in *. lia. }
  unfold kmem_acquire, kmem_release. wp_steps. apply wp_lock_acquire; [done|].
  wp_steps. apply wp_lock_release; [done|]. simpl.
  split; [|done]. split_and!; [done| |by constructor|by constructor].
  simpl. split; [done|]. rewrite load64_store64_eq.
  - eapply chain_frame; [done| |done]. intros q Hq x Hx. apply Hsame.
    assert (ram_page q) as [Hqa _] by (by eapply Forall_in).
    apply (page_disjoint q pa); [done|done|by intros ->|done].
  - destruct l as [|q l]; [by rewrite Hc|]. destruct Hc as [-> _].
    inversion Hl; subst. by apply ram_page_fits.
Qed.

Lemma kalloc_spec s l :
  free_list s l →
  wp kalloc (λ r s',
    match l with
    | [] => r = 0 ∧ s' = s
    | p :: l' => r = p ∧ free_list s' l' ∧
                 (∀ x, page p x → load8 (k_mem s') x = 5) ∧
                 same_on (λ x, ¬ page p x) (k_mem s) (k_mem s')
    end) s.
Proof.
  intros Hfl. pose proof Hfl as (Hlk & Hc & Hnd & Hl). destruct s as [lk fl m].
  simpl in *. subst lk. unfold kalloc, kmem_acquire, kmem_release, when.
  apply wp_bind, wp_lock_acquire; [done|]. apply wp_bind, wp_gets. cbn [k_freelist set_lock].
  destruct l as [|p l]; simpl in *.
  { subst fl. simpl. wp_steps. apply wp_lock_release; [done|]. by wp_steps. }
  destruct Hc as [-> Hc]. inversion Hl as [|? ? Hp Hl']; subst.
  rewrite (proj2 (truth_true p)) by (pose proof (ram_page_pos p Hp); lia).
  wp_steps. apply wp_lock_release; [done|]. wp_steps. simpl. split_and!; [done| | |].
  - apply (free_list_frame (Kmem false (load64 m p) m)).
    + intros q Hq x Hx. apply memset_out. inversion Hnd; subst.
      assert (ram_page q) as [Hqa _] by (by eapply Forall_in).
      destruct Hp. apply (page_disjoint q p); [done|done|by intros ->|done].
    + inversion Hnd; subst. split_and!; done.
  - intros x Hx. by rewrite memset_in.
  - apply memset_same.
Qed.

(** [freerange] pushes every whole page of the range, once. *)
Lemma freerange_spec s l start stop :
  free_list s l → 0 ≤ start → start ≤ 2 ^ 64 - PGSIZE →
  (∀ p, aligned p → start ≤ p → p + PGSIZE ≤ stop → ram_page p ∧ p ∉ l) →
  wp (freerange start stop) (λ _ s', ∃ l', free_list s' l' ∧
    ∀ p, p ∈ l' ↔ p ∈ l ∨ (aligned p ∧ start ≤ p ∧ p + PGSIZE ≤ stop)) s.
Proof.
  intros Hfl H0 H1 Hpages. destruct (PGROUNDUP_spec start) as [Ha Hb]; [done|].
  unfold freerange.
  apply (wp_loop _ (λ p s, aligned p ∧ start ≤ p ∧ ∃ l', free_list s l' ∧
      ∀ q, q ∈ l' ↔ q ∈ l ∨ (aligned q ∧ start ≤ q < p ∧ q + PGSIZE ≤ stop))
    (λ p _, Z.to_nat ((stop - p) `div` PGSIZE))).
  - intros p s1 (Hp & Hsp & l' & Hfl' & Hl'). destruct (Z.leb_spec (p + PGSIZE) stop).
    + apply wp_bind. eapply wp_mono; [apply (kfree_spec _ l'); [done|by apply Hpages|]|].
      * rewrite Hl'. intros [?|?]; [by eapply Hpages|lia].
      * intros _ s2 [Hfl2 _]. apply wp_ret.
        unfold aligned, PGSIZE in *. split; [|dlia]. split_and!; [dlia|lia|].
        exists (p :: l'). split; [done|]. intros q. rewrite elem_of_cons, Hl'.
        split.
        -- intros [->|[?|?]]; [right|by left|right]; lia.
        -- intros [?|?]; [auto|]. destruct (decide (q = p)); [by left|right; right].
           unfold aligned, PGSIZE in *. dlia.
    + apply wp_ret. exists l'. split; [done|]. intros q. rewrite Hl'.
      unfold aligned, PGSIZE in *. split; intros [?|?]; [by left|right; lia|by left|].
      right. unfold aligned, PGSIZE in *. dlia.
  - split_and!; [done|lia|]. exists l. split; [done|]. intros q. split; [by left|].
    intros [?|(Hq & ? & ?)]; [done|]. unfold aligned, PGSIZE in *. dlia.
  - unfold PGSIZE in *. dlia.
Qed.

Lemma kinit_spec s :
  k_freelist s = 0 →
  wp kinit (λ _ s', ∃ l, free_list s' l ∧ ∀ p, p ∈ l ↔ ram_page p) s.
Proof.
  intros H0. unfold kinit. wp_steps. destruct Lok as [? ? Ht ? ?].
  assert (0 ≤ kend ≤ 2 ^ 64 - PGSIZE).
  { unfold PHYSTOP, KERNBASE, PGSIZE in *. lia. }
  assert (∀ p, aligned p → p + PGSIZE ≤ PHYSTOP ↔ p < PHYSTOP) as Hstop.
  { unfold aligned, PHYSTOP, KERNBASE, PGSIZE. intros. dlia. }
  eapply wp_mono; [apply (freerange_spec _ [])|].
  - split_and!; [done|done|constructor|constructor].
  - lia.
  - lia.
  - intros p Hp ? ?%Hstop; [|done]. split; [by split|apply not_elem_of_nil].
  - intros _ s' (l & Hfl & Hl). exists l. split; [done|]. intros p. rewrite Hl.
    unfold ram_page. rewrite elem_of_nil. split.
    + intros [[]|(? & ? & ?%Hstop)]; auto.
    + intros (? & ? & ?). right. by rewrite Hstop.
Qed.
End spec.

(** * The allocator and its clients *)

(** A system that boots with [kinit] and then allocates pages, writes into
    the pages it was given, and frees pages it was given.  [a_owned] is the
    set of pages in use. *)
Module Clients.

Record sys := Sys { a_kmem : kmem; a_owned : gset Z }.

Inductive step {L : Linker} : sys → sys → Prop :=
| step_alloc s s' o r :
    kalloc s = Ok r s' → r ≠ 0 → step (Sys s o) (Sys s' ({[r]} ∪ o))
| step_alloc_fail s s' o :
    kalloc s = Ok 0 s' → step (Sys s o) (Sys s' o)
| step_free s s' o pa :
    pa ∈ o → kfree pa s = Ok tt s' → step (Sys s o) (Sys s' (o ∖ {[pa]}))
| step_write s o m' :
    same_on (λ x, ∀ p, p ∈ o → ¬ page p x) (k_mem s) m' →
    step (Sys s o) (Sys (set_mem m' s) o).

Definition booted {L : Linker} (st : sys) : Prop :=
  ∃ s0, k_freelist s0 = 0 ∧ kinit s0 = Ok tt (a_kmem st) ∧ a_owned st = ∅.

Section clients.
Context {L : Linker} {Lok : LinkerOk L}.

(** Free pages and pages in use partition the RAM above the kernel. *)
Definition inv (st : sys) : Prop :=
  ∃ l, free_list (a_kmem st) l ∧
       (∀ p, p ∈ l → p ∉ a_owned st) ∧
       (∀ p, ram_page p ↔ p ∈ l ∨ p ∈ a_owned st).

Lemma booted_inv st : booted st → inv st.
Proof.
  intros (s0 & H0 & Hk & Ho). 
  destruct (wp_elim _ _ _ _ _ (kinit_spec s0 H0) Hk) as (l & Hfl & Hl).
  exists l. rewrite Ho. split_and!; [done|set_solver|]. intros p. rewrite Hl. set_solver.
Qed.

Lemma client_step_inv st st' : inv st → step st st' → inv st'.
Proof.
  intros (l & Hfl & Hdis & Hall) Hstep.
  destruct Hstep as [s s' o r Hk Hr|s s' o Hk|s s' o pa Hpa Hk|s o m' Hm]; simpl in *.
  - pose proof (wp_elim _ _ _ _ _ (kalloc_spec s l Hfl) Hk) as Hwp.
    destruct l as [|p l]; [by destruct Hwp|]. destruct Hwp as (-> & Hfl' & _).
    assert (p ∉ l) by (destruct Hfl as (_ & _ & Hnd & _); by inversion Hnd).
    exists l. simpl. split_and!; [done|set_solver|]. intros q. rewrite Hall. set_solver.
  - pose proof (wp_elim _ _ _ _ _ (kalloc_spec s l Hfl) Hk) as Hwp.
    destruct l as [|p l]; [destruct Hwp as [_ ->]; by exists []|].
    destruct Hwp as (<- & _). destruct Hfl as (_ & _ & _ & Hl). inversion Hl as [|? ? H0].
    pose proof (ram_page_pos 0 H0). lia.
  - assert (pa ∉ l) by set_solver. assert (ram_page pa) by (apply Hall; by right).
    destruct (wp_elim _ _ _ _ _ (kfree_spec s l pa ltac:(done) ltac:(done) ltac:(done)) Hk)
      as [Hfl' _]. exists (pa :: l). simpl.
    split_and!; [done|set_solver|]. intros q. rewrite Hall, elem_of_cons.
    destruct (decide (q = pa)) as [->|]; set_solver.
  - exists l. split_and!; [|done|done]. simpl. apply free_list_frame; [|done].
    intros p Hp. eapply same_on_weaken; [done|]. intros x Hx q Hq. simpl.
    assert (ram_page p) as [Hpa _] by (apply Hall; by left).
    assert (ram_page q) as [Hqa _] by (apply Hall; by right).
    apply (page_disjoint p q); [done|done|set_solver|done].
Qed.

Lemma client_reachable_inv st st' : booted st → rtc step st st' → inv st'.
Proof.
  intros Hb%booted_inv Hsteps. revert Hb. induction Hsteps; eauto using client_step_inv.
Qed.

(** C38: after [kinit], and whatever sequence of [kalloc] and [kfree] calls
    and of writes to allocated pages follows, [kalloc] returns a page of RAM
    above the kernel that no caller has, and fails only when every such page
    is in use. *)
Theorem kalloc_fresh st st' :
  booted st → rtc step st st' →
  wp kalloc (λ r _, if decide (r = 0) then ∀ p, ram_page p → p ∈ a_owned st'
                    else ram_page r ∧ r ∉ a_owned st') (a_kmem st').
Proof.
  intros Hb Hs. destruct (client_reachable_inv st st' Hb Hs) as (l & Hfl & Hdis & Hall).
  eapply wp_mono; [by apply kalloc_spec|]. intros r s'. destruct l as [|p l].
  - intros [-> _]. case_decide; [|done]. intros p Hp%Hall. set_solver.
  - intros (-> & _). assert (ram_page p) as Hp by (apply Hall; left; by left).
    pose proof (ram_page_pos p Hp). case_decide; [lia|]. split; [done|].
    apply Hdis. by left.
Qed.
End clients.

Section kalloc_fresh_example.
#[local] Existing Instances ex_linker ex_linker_ok.
#[local] Opaque kinit kalloc kfree.
Lemma kalloc_fresh_witness :
  ∃ st st' p, booted st ∧ rtc step st st' ∧ a_owned st' = {[p]} ∧ ram_page p ∧
    wp kalloc (λ r _, if decide (r = 0) then ∀ p, ram_page p → p ∈ a_owned st'
                      else ram_page r ∧ r ∉ a_owned st') (a_kmem st').
Proof.
  pose proof (kinit_spec (Kmem false 0 ∅) eq_refl) as Hk.
  destruct (proj1 (wp_ok kinit _ _) Hk) as ([] & s1 & Hk1 & l & Hfl & Hl). clear Hk.
  pose proof (kalloc_spec s1 l Hfl) as Ha.
  destruct l as [|p l].
  { exfalso. assert (PHYSTOP - PGSIZE ∈ @nil Z) as Hnil; [|by apply elem_of_nil in Hnil].
    apply Hl. by split. }
  destruct (proj1 (wp_ok kalloc _ _) Ha) as (r & s2 & Ha2 & -> & Hfl2 & _).
  assert (ram_page p) as Hp by (apply Hl; by left).
  pose proof (ram_page_pos p Hp).
  exists (Sys s1 ∅), (Sys s2 ({[p]} ∪ ∅)), p.
  assert (booted (Sys s1 ∅)) as Hb.
  { exists (Kmem false 0 ∅). exact (conj eq_refl (conj Hk1 eq_refl)). }
  assert (rtc step (Sys s1 ∅) (Sys s2 ({[p]} ∪ ∅))) as Hr.
  { apply rtc_once, step_alloc; [exact Ha2|lia]. }
  refine (conj Hb (conj Hr (conj _ (conj Hp (kalloc_fresh _ _ Hb Hr))))).
  exact (union_empty_r_L {[p]}).
Defined.
End kalloc_fresh_example.

End Clients.

(** [kinit] puts every page of RAM above the kernel on the free list,
    each exactly once, and nothing else. *)
Theorem kinit_frees_all {L : Linker} {Lok : LinkerOk L} s :
  k_freelist s = 0 →
  wp kinit (λ _ s', ∃ l, free_list s' l ∧ NoDup l ∧ ∀ p, p ∈ l ↔ ram_page p) s.
Proof.
  intros H0. eapply wp_mono; [by apply kinit_spec|].
  intros [] s' (l & Hfl & Hl). exists l. split_and!; [done|by destruct Hfl as (_ & _ & ? & _)|done].
Qed.

(** [kfree] panics on an address that is not page-aligned, below the end
    of the kernel or not in RAM, and on every other address it returns. *)
Theorem kfree_checks {L : Linker} {Lok : LinkerOk L} s l pa :
  free_list s l → 0 ≤ pa →
  (¬ ram_page pa → kfree pa s = Panic "kfree") ∧
  (ram_page pa → pa ∉ l → wp (kfree pa) (λ _ s', free_list s' (pa :: l)) s).
Proof.
  intros Hfl Hpa. split.
  - intros Hn. unfold kfree.
    assert (truth (pa `mod` PGSIZE) || (pa <? kend) || (PHYSTOP <=? pa) = true) as ->; [|done].
    unfold ram_page, aligned in Hn. rewrite !orb_true_iff, truth_true.
    destruct (Z.ltb_spec pa kend); [tauto|]. destruct (Z.leb_spec PHYSTOP pa); [tauto|].
    left. left. intros Hz. apply Hn. lia.
  - intros Hram Hl. eapply wp_mono; [by apply kfree_spec|]. by intros [] s' [? _].
Qed.
