(* ===== verification/Vm.v ===== *)
(** kernel/vm.c and the stack mapping of kernel/proc.c: page tables in
    physical memory.  A [pagetable_t] is the physical address of a
    page-table page and a [pte_t *] the address of an entry in it; 0 is the
    null pointer.  Kernel buffers handed to the copy routines are values
    (lists of bytes). *)

From S2P Require Import Prelude Riscv Mem Cstring Kalloc.

(** Memory accesses of the kernel. *)
Definition ld64 (a : Z) : M kmem Z := gets (λ s, load64 (k_mem s) a).
Definition st64 (a v : Z) : M kmem unit := modify (upd_mem (λ m, store64 m a v)).
Definition m_memset (dst c n : Z) : M kmem unit :=
  modify (upd_mem (λ m, memset m dst c n)).
Definition m_memmove (dst src n : Z) : M kmem unit :=
  modify (upd_mem (λ m, memmove m dst src n)).

Section vm.
Context {L : Linker}.

(** * Walking and mapping *)

(** The loop of [walk] from [level] down, then the level-0 entry. *)
Fixpoint walk_levels (level : nat) (pagetable va : Z) (alloc : bool) : M kmem Z :=
  match level with
  | O => ret (pagetable + 8 * PX 0 va)
  | S level' =>
      let pte := pagetable + 8 * PX (Z.of_nat level) va in
      let! e := ld64 pte in
      if truth (Z.land e PTE_V) then walk_levels level' (PTE2PA e) va alloc
      else if negb alloc then ret 0
      else
        let! pagetable := kalloc in
        if pagetable =? 0 then ret 0
        else
          do! m_memset pagetable 0 PGSIZE;
          do! st64 pte (Z.lor (PA2PTE pagetable) PTE_V);
          walk_levels level' pagetable va alloc
  end.

Definition walk (pagetable va : Z) (alloc : bool) : M kmem Z :=
  if MAXVA <=? va then panic "walk"
  else walk_levels 2 pagetable va alloc.

Definition walkaddr (pagetable va : Z) : M kmem Z :=
  if MAXVA <=? va then ret 0
  else
    let! pte := walk pagetable va false in
    if pte =? 0 then ret 0
    else
      let! e := ld64 pte in
      if Z.land e PTE_V =? 0 then ret 0
      else if Z.land e PTE_U =? 0 then ret 0
      else ret (PTE2PA e).

(** The loop leaves at [a == last], or [walk] stops it at [MAXVA] when
    [va + size] wrapped around. *)
Definition mappages_fuel (a last : Z) : nat :=
  if a <=? last then Z.to_nat ((last - a) `div` PGSIZE) + 1
  else Z.to_nat ((MAXVA - a) `div` PGSIZE) + 1.

Definition mappages (pagetable va size pa perm : Z) : M kmem Z :=
  if size =? 0 then panic "mappages: size"
  else
    let a := PGROUNDDOWN va in
    let last := PGROUNDDOWN (u64 (va + size - 1)) in
    loop (mappages_fuel a last) (λ '(a, pa),
      let! pte := walk pagetable a true in
      if pte =? 0 then ret (inr (-1))
      else
        let! e := ld64 pte in
        if truth (Z.land e PTE_V) then panic "mappages: remap"
        else
          do! st64 pte (Z.lor (Z.lor (PA2PTE pa) perm) PTE_V);
          if a =? last then ret (inr 0)
          else ret (inl (a + PGSIZE, u64 (pa + PGSIZE)))) (a, pa).

Definition kvmmap (kpgtbl va pa sz perm : Z) : M kmem unit :=
  let! r := mappages kpgtbl va sz pa perm in
  if negb (r =? 0) then panic "kvmmap" else ret tt.

Definition uvmunmap (pagetable va npages : Z) (do_free : bool) : M kmem unit :=
  if negb (va `mod` PGSIZE =? 0) then panic "uvmunmap: not aligned"
  else
    loop (Z.to_nat npages + 1) (λ a,
      if a <? u64 (va + npages * PGSIZE) then
        let! pte := walk pagetable a false in
        if pte =? 0 then panic "uvmunmap: walk"
        else
          let! e := ld64 pte in
          if Z.land e PTE_V =? 0 then panic "uvmunmap: not mapped"
          else if PTE_FLAGS e =? PTE_V then panic "uvmunmap: not a leaf"
          else
            do! when do_free (kfree (PTE2PA e));
            do! st64 pte 0;
            ret (inl (a + PGSIZE))
      else ret (inr tt)) va.

(** * The kernel page table *)

(** The loop over [proc[NPROC]] of [proc_mapstacks] (proc.c). *)
Definition proc_mapstacks (kpgtbl : Z) : M kmem unit :=
  loop (Z.to_nat NPROC + 1) (λ p,
    if p <? NPROC then
      let! pa := kalloc in
      if pa =? 0 then panic "kalloc"
      else
        do! kvmmap kpgtbl (KSTACK p) pa PGSIZE (Z.lor PTE_R PTE_W);
        ret (inl (p + 1))
    else ret (inr tt)) 0.

Definition kvmmake : M kmem Z :=
  let! kpgtbl := kalloc in
  do! m_memset kpgtbl 0 PGSIZE;
  do! kvmmap kpgtbl UART0 UART0 PGSIZE (Z.lor PTE_R PTE_W);
  do! kvmmap kpgtbl VIRTIO0 VIRTIO0 PGSIZE (Z.lor PTE_R PTE_W);
  do! kvmmap kpgtbl PLIC PLIC 0x400000 (Z.lor PTE_R PTE_W);
  do! kvmmap kpgtbl KERNBASE KERNBASE (etext - KERNBASE) (Z.lor PTE_R PTE_X);
  do! kvmmap kpgtbl etext etext (PHYSTOP - etext) (Z.lor PTE_R PTE_W);
  do! kvmmap kpgtbl TRAMPOLINE trampoline PGSIZE (Z.lor PTE_R PTE_X);
  do! proc_mapstacks kpgtbl;
  ret kpgtbl.

(** * User address spaces *)

Definition uvmcreate : M kmem Z :=
  let! pagetable := kalloc in
  if pagetable =? 0 then ret 0
  else
    do! m_memset pagetable 0 PGSIZE;
    ret pagetable.

(** [src] is the array of [sz] bytes of initcode. *)
Definition uvminit (pagetable : Z) (src : list Z) (sz : Z) : M kmem unit :=
  if PGSIZE <=? sz then panic "inituvm: more than a page"
  else
    let! m := kalloc in
    do! m_memset m 0 PGSIZE;
    do! mappages pagetable 0 PGSIZE m (Z.lor (Z.lor (Z.lor PTE_W PTE_R) PTE_X) PTE_U);
    modify (upd_mem (λ mm, store_bytes mm m (take (Z.to_nat sz) src))).

Definition uvmdealloc (pagetable oldsz newsz : Z) : M kmem Z :=
  if oldsz <=? newsz then ret oldsz
  else
    do! when (PGROUNDUP newsz <? PGROUNDUP oldsz)
          (let npages := s32 ((PGROUNDUP oldsz - PGROUNDUP newsz) `div` PGSIZE) in
           uvmunmap pagetable (PGROUNDUP newsz) (u64 npages) true);
    ret newsz.

Definition uvmalloc (pagetable oldsz newsz : Z) : M kmem Z :=
  if newsz <? oldsz then ret oldsz
  else
    let oldsz := PGROUNDUP oldsz in
    loop (Z.to_nat ((newsz - oldsz) `div` PGSIZE) + 2) (λ a,
      if a <? newsz then
        let! m := kalloc in
        if m =? 0 then
          do! uvmdealloc pagetable a oldsz;
          ret (inr 0)
        else
          do! m_memset m 0 PGSIZE;
          let! r := mappages pagetable a PGSIZE m
                      (Z.lor (Z.lor (Z.lor PTE_W PTE_X) PTE_R) PTE_U) in
          if negb (r =? 0) then
            do! kfree m;
            do! uvmdealloc pagetable a oldsz;
            ret (inr 0)
          else ret (inl (u64 (a + PGSIZE)))
      else ret (inr newsz)) oldsz.

(** The recursion of [freewalk] goes one level down per call; [depth]
    bounds it (3 for a Sv39 tree). *)
Fixpoint freewalk (depth : nat) (pagetable : Z) : M kmem unit :=
  match depth with
  | O => λ _, Stuck
  | S depth' =>
      do! loop 513 (λ i,
            if i <? 512 then
              let! pte := ld64 (pagetable + 8 * i) in
              if truth (Z.land pte PTE_V) &&
                 (Z.land pte (Z.lor (Z.lor PTE_R PTE_W) PTE_X) =? 0)
              then
                do! freewalk depth' (PTE2PA pte);
                do! st64 (pagetable + 8 * i) 0;
                ret (inl (i + 1))
              else if truth (Z.land pte PTE_V) then panic "freewalk: leaf"
              else ret (inl (i + 1))
            else ret (inr tt)) 0;
      kfree pagetable
  end.

Definition uvmfree (pagetable sz : Z) : M kmem unit :=
  do! when (0 <? sz) (uvmunmap pagetable 0 (PGROUNDUP sz `div` PGSIZE) true);
  freewalk 3 pagetable.

Definition uvmcopy (old new sz : Z) : M kmem Z :=
  let err i := (do! uvmunmap new 0 (i `div` PGSIZE) true; ret (inr (-1))) in
  loop (Z.to_nat (sz `div` PGSIZE) + 2) (λ i,
    if i <? sz then
      let! pte := walk old i false in
      if pte =? 0 then panic "uvmcopy: pte should exist"
      else
        let! e := ld64 pte in
        if Z.land e PTE_V =? 0 then panic "uvmcopy: page not present"
        else
          let pa := PTE2PA e in
          let flags := PTE_FLAGS e in
          let! m := kalloc in
          if m =? 0 then err i
          else
            do! m_memmove m pa PGSIZE;
            let! r := mappages new i PGSIZE m flags in
            if negb (r =? 0) then
              do! kfree m;
              err i
            else ret (inl (i + PGSIZE))
    else ret (inr 0)) 0.

Definition uvmclear (pagetable va : Z) : M kmem unit :=
  let! pte := walk pagetable va false in
  if pte =? 0 then panic "uvmclear"
  else
    let! e := ld64 pte in
    st64 pte (Z.land e (Z.lnot PTE_U)).

(** * Copying between the kernel and user space *)

(** [n], the part of the transfer that lies in this page. *)
Definition chunk (va va0 len : Z) : Z :=
  let n := PGSIZE - (va - va0) in if len <? n then len else n.

(** Loop variables: [dstva], the bytes of [src] still to copy, [len]. *)
Definition copyout (pagetable dstva : Z) (src : list Z) (len : Z) : M kmem Z :=
  loop (Z.to_nat (len `div` PGSIZE) + 3) (λ '(dstva, src, len),
    if 0 <? len then
      let va0 := PGROUNDDOWN dstva in
      let! pa0 := walkaddr pagetable va0 in
      if pa0 =? 0 then ret (inr (-1))
      else
        let n := chunk dstva va0 len in
        do! modify (upd_mem (λ m,
              store_bytes m (pa0 + (dstva - va0)) (take (Z.to_nat n) src)));
        ret (inl (u64 (va0 + PGSIZE), drop (Z.to_nat n) src, len - n))
    else ret (inr 0)) (dstva, src, len).

(** Returns the status and the bytes stored to [dst]. *)
Definition copyin (pagetable srcva len : Z) : M kmem (Z * list Z) :=
  loop (Z.to_nat (len `div` PGSIZE) + 3) (λ '(dst, srcva, len),
    if 0 <? len then
      let va0 := PGROUNDDOWN srcva in
      let! pa0 := walkaddr pagetable va0 in
      if pa0 =? 0 then ret (inr (-1, dst))
      else
        let n := chunk srcva va0 len in
        let! bs := gets (λ s, load_bytes (k_mem s) (pa0 + (srcva - va0)) (Z.to_nat n)) in
        ret (inl (dst ++ bs, u64 (va0 + PGSIZE), len - n))
    else ret (inr (0, dst))) ([], srcva, len).

(** The inner loop of [copyinstr] over the [n] bytes left in the page at
    [p]: the bytes stored to [dst] and whether the NUL was found. *)
Fixpoint copystr (m : mem) (p : Z) (n : nat) : list Z * bool :=
  match n with
  | O => ([], false)
  | S n' =>
      if load8 m p =? 0 then ([0], true)
      else let '(dst, got_null) := copystr m (p + 1) n' in
           (load8 m p :: dst, got_null)
  end.

Definition copyinstr (pagetable srcva max : Z) : M kmem (Z * list Z) :=
  loop (Z.to_nat (max `div` PGSIZE) + 3) (λ '(dst, srcva, max, got_null),
    if negb got_null && (0 <? max) then
      let va0 := PGROUNDDOWN srcva in
      let! pa0 := walkaddr pagetable va0 in
      if pa0 =? 0 then ret (inr (-1, dst))
      else
        let n := chunk srcva va0 max in
        let! r := gets (λ s, copystr (k_mem s) (pa0 + (srcva - va0)) (Z.to_nat n)) in
        let '(bs, got) := r in
        (* [max] counts the bytes before the NUL only *)
        let max := max - (Z.of_nat (length bs) - b2z got) in
        ret (inl (dst ++ bs, u64 (va0 + PGSIZE), max, got))
    else ret (inr (if got_null then 0 else -1, dst))) ([], srcva, max, false).
End vm.
