(* ===== verification/PageTable.v ===== *)
(** The three-level page table as a tree: which page-table pages exist, what
    their entries hold, and what [walk] does to them.

    A tree is the finite map from positions to page-table pages.  The page at
    [(level, i)] serves the addresses [va] with [nidx level va = i]; the root
    is at [(2, 0)]. *)

From S2P Require Import Prelude Riscv Mem Cstring Kalloc Vm.

Abbreviation ptree := (gmap (Z * Z) Z).

Definition nidx (level va : Z) : Z := va `div` 2 ^ (21 + 9 * level).

(** The entry that points to the page-table page [p]. *)
Definition ptr_pte (p : Z) : Z := Z.lor (PA2PTE p) PTE_V.

(** The address of the leaf entry of [va], when its level-0 page exists. *)
Definition slot (t : ptree) (va : Z) : option Z :=
  (λ p, p + 8 * PX 0 va) <$> t !! (0, nidx 0 va).

(** The leaf entry of [va]; 0 (invalid) when there is none. *)
Definition pte_at (m : mem) (t : ptree) (va : Z) : Z :=
  match slot t va with Some a => load64 m a | None => 0 end.

(** The set of page-table pages. *)
Abbreviation ptpages t := (map_img (SA := gset Z) t).

(** The addresses of the position are below [MAXVA]. *)
Definition in_space (level i : Z) : Prop := 0 ≤ i ∧ i * 2 ^ (21 + 9 * level) < MAXVA.

(** * Arithmetic *)

Lemma MAXVA_eq : MAXVA = 2 ^ 38.
Proof. done. Qed.

Lemma nidx0_eq va : nidx 0 va = va `div` 2097152.
Proof. done. Qed.
Lemma nidx1_eq va : nidx 1 va = va `div` 1073741824.
Proof. done. Qed.
Lemma nidx2_eq va : 0 ≤ va < MAXVA → nidx 2 va = 0.
Proof.
  rewrite MAXVA_eq. intros. unfold nidx. change (2 ^ (21 + 9 * 2)) with (2 ^ 39).
  apply Z.div_small. lia.
Qed.
Lemma nidx_in_space level va : 0 ≤ level → 0 ≤ va < MAXVA → in_space level (nidx level va).
Proof.
  intros Hl Hva. unfold in_space, nidx. assert (0 < 2 ^ (21 + 9 * level)) by lia.
  split; [apply Z.div_pos; lia|].
  pose proof (Z.mul_div_le va (2 ^ (21 + 9 * level))). lia.
Qed.
Lemma nidx0_child va : nidx 0 va = nidx 1 va * 512 + PX 1 va.
Proof. rewrite nidx0_eq, nidx1_eq, PX1_eq. dlia. Qed.
Lemma nidx1_child va : 0 ≤ va < MAXVA → nidx 1 va = nidx 2 va * 512 + PX 2 va.
Proof.
  intros. rewrite nidx2_eq, nidx1_eq, PX2_eq by done. rewrite MAXVA_eq in *. dlia.
Qed.
Lemma nidx_child level va :
  0 < level ≤ 2 → 0 ≤ va < MAXVA →
  nidx (level - 1) va = nidx level va * 512 + PX level va.
Proof.
  intros Hl Hva. assert (level = 1 ∨ level = 2) as [->| ->] by lia.
  - apply nidx0_child.
  - by apply nidx1_child.
Qed.

(** Two addresses of different pages have different leaf positions. *)
Lemma leaf_position va va' :
  nidx 0 va = nidx 0 va' → PX 0 va = PX 0 va' → va `div` PGSIZE = va' `div` PGSIZE.
Proof. rewrite !nidx0_eq, !PX0_eq. unfold PGSIZE. dlia. Qed.
Lemma leaf_position_same va va' :
  va `div` PGSIZE = va' `div` PGSIZE → nidx 0 va = nidx 0 va' ∧ PX 0 va = PX 0 va'.
Proof. rewrite !nidx0_eq, !PX0_eq. unfold PGSIZE. intros. split; dlia. Qed.

(** Different entries do not overlap. *)
Lemma entry_disjoint p j p' j' :
  aligned p → aligned p' → 0 ≤ j < 512 → 0 ≤ j' < 512 → (p, j) ≠ (p', j') →
  p + 8 * j + 8 ≤ p' + 8 * j' ∨ p' + 8 * j' + 8 ≤ p + 8 * j.
Proof.
  intros Hp Hp' Hj Hj' Hne. unfold aligned, PGSIZE in *.
  destruct (decide (p = p')) as [->|Hpp].
  - assert (j ≠ j') by congruence. lia.
  - dlia.
Qed.

Lemma entry_in_page p j : 0 ≤ j < 512 → ∀ x, range (p + 8 * j) 8 x → page p x.
Proof. unfold page, range, PGSIZE. lia. Qed.

Section pagetable.
Context {L : Linker} {Lok : LinkerOk L}.

Lemma ptr_pte_spec p :
  ram_page p →
  fits 64 (ptr_pte p) ∧ PTE2PA (ptr_pte p) = p ∧
  truth (Z.land (ptr_pte p) PTE_V) = true ∧
  Z.land (ptr_pte p) (Z.lor (Z.lor PTE_R PTE_W) PTE_X) = 0.
Proof.
  intros Hp. pose proof (ram_page_fits p Hp) as Hf. destruct Hp as [Ha _].
  unfold ptr_pte. destruct (PTE_roundtrip p PTE_V) as [-> _]; [done..|].
  rewrite PA2PTE_lor by done. rewrite PA2PTE_eq by done. change PTE_V with (Z.shiftl 1 0).
  rewrite PTE_bit_eq by lia. change (Z.shiftl 1 0) with 1.
  split_and!; [|done| |].
  - unfold fits, PGSIZE, aligned in *. dlia.
  - rewrite Z.bit0_odd, Z.odd_add, Z.odd_mul. done.
  - assert (∀ k, 1 ≤ k < 10 → Z.testbit (1024 * (p `div` PGSIZE) + 1) k = false) as Hb.
    { intros k Hk. rewrite <- (Z.mod_pow2_bits_low _ 10 k) by lia.
      replace ((1024 * (p `div` PGSIZE) + 1) `mod` 2 ^ 10) with 1
        by (change (2 ^ 10) with 1024; dlia).
      change 1 with (2 ^ 0). apply Z.pow2_bits_false. lia. }
    apply Z.bits_inj'. intros k Hk. rewrite Z.land_spec, Z.bits_0.
    destruct (decide (1 ≤ k < 10)); [by rewrite Hb|].
    change (Z.lor (Z.lor PTE_R PTE_W) PTE_X) with 14.
    destruct (decide (k = 0)) as [->|]; [apply andb_false_r|].
    rewrite (Z.bits_above_log2 14 k); [apply andb_false_r|lia|].
    change (Z.log2 14) with 3. lia.
Qed.

(** * Well-formed trees *)

Record pt_ok (m : mem) (root : Z) (t : ptree) : Prop := {
  pt_root : t !! (2, 0) = Some root;
  pt_range : ∀ l i p, t !! (l, i) = Some p → in_space l i;
  pt_level : ∀ l i p, t !! (l, i) = Some p → 0 ≤ l ≤ 2;
  pt_ram : ∀ k p, t !! k = Some p → ram_page p;
  pt_inj : ∀ k k' p, t !! k = Some p → t !! k' = Some p → k = k';
  pt_parent : ∀ l i p, t !! (l, i) = Some p → l < 2 → is_Some (t !! (l + 1, i `div` 512));
  pt_content : ∀ l i p j, t !! (l, i) = Some p → 0 < l → 0 ≤ j < 512 →
    match t !! (l - 1, i * 512 + j) with
    | Some q => load64 m (p + 8 * j) = ptr_pte q
    | None => truth (Z.land (load64 m (p + 8 * j)) PTE_V) = false
    end;
}.

Lemma pt_frame m m' root t :
  pt_ok m root t → same_on (λ x, ∃ p, p ∈ ptpages t ∧ page p x) m m' →
  pt_ok m' root t ∧ ∀ va, pte_at m' t va = pte_at m t va.
Proof.
  intros Hok Hs.
  assert (∀ k p j, t !! k = Some p → 0 ≤ j < 512 →
            load64 m' (p + 8 * j) = load64 m (p + 8 * j)) as Hl.
  { intros k p j Hk Hj. apply load64_ext. eapply same_on_weaken; [done|].
    intros x Hx. exists p. split; [by eapply elem_of_map_img_2|].
    by eapply entry_in_page. }
  split.
  - destruct Hok. split; [done..|]. intros l i p j Hp Hlv Hj.
    rewrite (Hl _ _ _ Hp) by done. by apply pt_content0.
  - intros va. unfold pte_at, slot. destruct (t !! (0, nidx 0 va)) eqn:E; [|done].
    simpl. eapply Hl; [done|]. by apply PX_bounds.
Qed.

(** The three pages on the path to an existing leaf page exist. *)
Lemma pt_path m root t va p :
  pt_ok m root t → t !! (0, nidx 0 va) = Some p → is_Some (t !! (1, nidx 1 va)).
Proof.
  intros Hok Hp. pose proof (pt_parent _ _ _ Hok _ _ _ Hp ltac:(lia)) as H.
  replace (nidx 0 va `div` 512) with (nidx 1 va) in H; [done|].
  rewrite nidx0_child, PX1_eq. dlia.
Qed.

(** * Reading: walk without allocation *)

Lemma walk_levels_ro m root t s va (level : nat) p :
  pt_ok m root t → k_mem s = m → 0 ≤ va < MAXVA → (level ≤ 2)%nat →
  t !! (Z.of_nat level, nidx (Z.of_nat level) va) = Some p →
  walk_levels level p va false s = Ok (default 0 (slot t va)) s.
Proof.
  intros Hok <- Hva. revert p. induction level as [|level IH]; intros p Hl Hp.
  { change (Z.of_nat 0) with 0 in Hp. unfold slot. by rewrite Hp. }
  cbn [walk_levels]. unfold bind, ld64, gets. cbn [k_mem].
  set (lv := Z.of_nat (S level)) in *.
  pose proof (pt_content _ _ _ Hok lv _ p (PX lv va) Hp ltac:(lia)
                (PX_bounds lv va ltac:(lia))) as Hc.
  rewrite <- nidx_child in Hc by lia.
  replace (lv - 1) with (Z.of_nat level) in Hc by lia.
  destruct (t !! (Z.of_nat level, nidx (Z.of_nat level) va)) as [q|] eqn:Hq.
  - rewrite Hc. destruct (ptr_pte_spec q) as (_ & Hpa & -> & _);
      [by eapply pt_ram|]. rewrite Hpa. apply IH; [lia|done].
  - rewrite Hc. simpl. unfold slot.
    destruct (t !! (0, nidx 0 va)) as [q|] eqn:Hq0; [exfalso|done].
    destruct level as [|[|level]]; [| |lia].
    + change (Z.of_nat 0) with 0 in Hq. congruence.
    + change (Z.of_nat 1) with 1 in Hq.
      destruct (pt_path _ _ _ _ _ Hok Hq0) as [? ?]. congruence.
Qed.

Lemma walk_ro root t s va :
  pt_ok (k_mem s) root t → 0 ≤ va < MAXVA →
  walk root va false s = Ok (default 0 (slot t va)) s.
Proof.
  intros Hok Hva. unfold walk. destruct (Z.leb_spec MAXVA va); [lia|].
  eapply walk_levels_ro; [done|done|done|lia|].
  change (Z.of_nat 2) with 2. rewrite nidx2_eq by done. by eapply pt_root.
Qed.

(** * Growing: walk with allocation *)

(** A new page-table page [q] of zeros, linked from entry [j] of the page
    at [(l, i)]. *)
Lemma pt_add m m' root t l i p j q :
  pt_ok m root t → t !! (l, i) = Some p → 0 < l → 0 ≤ j < 512 →
  t !! (l - 1, i * 512 + j) = None → in_space (l - 1) (i * 512 + j) →
  ram_page q → q ∉ ptpages t →
  load64 m' (p + 8 * j) = ptr_pte q →
  (∀ k, 0 ≤ k < 512 → load64 m' (q + 8 * k) = 0) →
  same_on (λ x, ¬ range (p + 8 * j) 8 x ∧ ¬ page q x) m m' →
  pt_ok m' root (<[(l - 1, i * 512 + j) := q]> t) ∧
  ∀ va, pte_at m' (<[(l - 1, i * 512 + j) := q]> t) va = pte_at m t va.
Proof.
  intros Hok Hp Hl Hj Hnone Hspace Hq Hqn Hent Hzero Hs.
  assert (∀ k p', t !! k = Some p' → p' ≠ q) as Hnq.
  { intros k p' Hk ->. apply Hqn. by eapply elem_of_map_img_2. }
  assert (∀ k p' j', t !! k = Some p' → 0 ≤ j' < 512 → (k, j') ≠ ((l, i), j) →
            load64 m' (p' + 8 * j') = load64 m (p' + 8 * j')) as Hsame.
  { intros k p' j' Hk Hj' Hne. apply load64_ext. eapply same_on_weaken; [done|].
    destruct (pt_ram _ _ _ Hok _ _ Hk) as [Ha' _], (pt_ram _ _ _ Hok _ _ Hp) as [Ha _].
    assert ((p', j') ≠ (p, j)) as Hne'.
    { intros ?. simplify_eq. apply Hne. f_equal. by eapply pt_inj. }
    pose proof (entry_disjoint p' j' p j Ha' Ha Hj' Hj Hne') as Hd.
    intros x Hx. split; [unfold range in *; lia|].
    apply (page_disjoint p' q); [done|by destruct Hq|by eapply Hnq|].
    by eapply entry_in_page. }
  pose proof (pt_level _ _ _ Hok _ _ _ Hp) as Hlv.
  split.
  - destruct Hok as [Hroot Hrange Hlevel Hram Hinj Hparent Hcontent]. split.
    + rewrite lookup_insert_ne; [done|]. intros ?. simplify_eq. lia.
    + intros l' i' p'. rewrite lookup_insert.
      case_decide; [by intros; simplify_eq|]. apply Hrange.
    + intros l' i' p'. rewrite lookup_insert. case_decide; [simplify_eq; lia|]. apply Hlevel.
    + intros k p'. rewrite lookup_insert. case_decide; [by intros; simplify_eq|]. apply Hram.
    + intros k k' p'. rewrite !lookup_insert. repeat case_decide; intros; simplify_eq;
        [done|exfalso; by eapply Hnq..|by eapply Hinj].
    + intros l' i' p'. rewrite lookup_insert. case_decide as Hk.
      * intros _ Hl'. simplify_eq. rewrite lookup_insert_ne by (intros ?; simplify_eq; lia).
        replace (l - 1 + 1) with l by lia.
        replace ((i * 512 + j) `div` 512) with i by dlia. by eauto.
      * intros Hp' Hl'. rewrite lookup_insert. case_decide; [done|]. by eapply Hparent.
    + intros l' i' p' j'. rewrite !lookup_insert. case_decide as Hk.
      * intros ? Hl' Hj'. simplify_eq. rewrite Hzero by done.
        case_decide; [simplify_eq; lia|].
        destruct (t !! (l - 1 - 1, (i * 512 + j) * 512 + j')) as [p''|] eqn:Hp''; [|done].
        exfalso. pose proof (Hparent _ _ _ Hp'' ltac:(lia)) as [? Hpp].
        replace (l - 1 - 1 + 1) with (l - 1) in Hpp by lia.
        replace (((i * 512 + j) * 512 + j') `div` 512) with (i * 512 + j) in Hpp by dlia.
        congruence.
      * intros Hp' Hl' Hj'. pose proof (Hcontent _ _ _ _ Hp' Hl' Hj') as Hc.
        case_decide as Hk'.
        -- simplify_eq. assert (l' = l) as -> by lia.
           assert (i' = i ∧ j' = j) as [-> ->] by dlia. by simplify_eq.
        -- rewrite (Hsame _ _ _ Hp') by
             (done || (intros ?; simplify_eq; apply Hk'; f_equal; lia)). done.
  - intros va. unfold pte_at, slot. rewrite lookup_insert. case_decide as Hk.
    + assert (t !! (0, nidx 0 va) = None) as -> by congruence. simpl.
      apply Hzero. by apply PX_bounds.
    + destruct (t !! (0, nidx 0 va)) as [p'|] eqn:Hp'; [|done]. simpl.
      eapply Hsame; [done|by apply PX_bounds|]. by intros ?; simplify_eq.
Qed.

(** A tree beside the free list: page-table pages are not free. *)
Record pt_state (s : kmem) (root : Z) (t : ptree) (l : list Z) : Prop := {
  ps_ok : pt_ok (k_mem s) root t;
  ps_free : free_list s l;
  ps_disj : ∀ p, p ∈ ptpages t → p ∉ l;
}.

(** [s'] is [s] with [used] taken off the free list, all of it for new
    page-table pages of [t'], which map nothing. *)
Record pt_grow (s : kmem) (root : Z) (t : ptree) (l : list Z)
    (s' : kmem) (t' : ptree) (l' : list Z) : Prop := {
  pg_state : pt_state s' root t' l';
  pg_sub : t ⊆ t';
  pg_used : ∃ used, l = used ++ l' ∧ ptpages t' = ptpages t ∪ list_to_set used;
  pg_pte : ∀ va, pte_at (k_mem s') t' va = pte_at (k_mem s) t va;
  pg_mem : same_on (λ x, ∀ p, p ∈ ptpages t' → ¬ page p x) (k_mem s) (k_mem s');
}.

Lemma pt_grow_refl s root t l : pt_state s root t l → pt_grow s root t l s t l.
Proof. intros H. split; try done. exists []. split; [done|set_solver]. Qed.

Lemma pt_grow_trans s root t l s1 t1 l1 s2 t2 l2 :
  pt_grow s root t l s1 t1 l1 → pt_grow s1 root t1 l1 s2 t2 l2 →
  pt_grow s root t l s2 t2 l2.
Proof.
  intros [? Hsub1 (u1 & -> & Hu1) Hp1 Hm1] [? Hsub2 (u2 & -> & Hu2) Hp2 Hm2].
  split; [done|by etrans| |by intros; rewrite Hp2, Hp1|].
  - exists (u1 ++ u2). rewrite list_to_set_app_L. split; [by rewrite app_assoc|set_solver].
  - etrans; [|done]. eapply same_on_weaken; [done|]. set_solver.
Qed.

(** One allocation in the loop of [walk]. *)
Lemma pt_grow_node s root t lv i p j q l :
  pt_state s root t (q :: l) → t !! (lv, i) = Some p → 0 < lv → 0 ≤ j < 512 →
  t !! (lv - 1, i * 512 + j) = None → in_space (lv - 1) (i * 512 + j) →
  wp (let! pagetable := kalloc in
      do! m_memset pagetable 0 PGSIZE;
      do! st64 (p + 8 * j) (ptr_pte pagetable);
      ret pagetable)
    (λ r s', r = q ∧ pt_grow s root t (q :: l) s' (<[(lv - 1, i * 512 + j) := q]> t) l) s.
Proof.
  intros [Hok Hfree Hdis] Hp Hlv Hj Hnone Hspace. apply wp_bind.
  eapply wp_mono; [by apply kalloc_spec|]. simpl.
  intros r s1 (-> & Hfree1 & _ & Hsame1). unfold m_memset, st64. wp_steps.
  split; [done|]. simpl.
  assert (ram_page q) as Hq
    by (destruct Hfree as (_ & _ & _ & Hl); by inversion Hl).
  assert (q ∉ ptpages t) as Hqn by (intros H%Hdis; set_solver).
  assert (q ∉ l) as Hql by (destruct Hfree as (_ & _ & Hnd & _); by inversion Hnd).
  assert (p ∈ ptpages t) as Hpt by (by eapply elem_of_map_img_2).
  pose proof (pt_ram _ _ _ Hok _ _ Hp) as Hpr.
  assert (p ≠ q) as Hpq by (intros ->; done).
  assert (p ∉ l) as Hpl by (intros ?; apply (Hdis p Hpt); by right).
  set (m2 := memset (k_mem s1) q 0 PGSIZE). set (m3 := store64 m2 (p + 8 * j) (ptr_pte q)).
  assert (same_on (λ x, ¬ range (p + 8 * j) 8 x ∧ ¬ page q x) (k_mem s) m3) as Hs3.
  { intros x [Hx1 Hx2]. unfold m3, m2. rewrite (store64_same _ _ _ x) by done.
    rewrite memset_out by done. by apply Hsame1. }
  destruct (ptr_pte_spec q Hq) as (Hfit & _).
  destruct Hpr as [Hpa _], (id Hq) as [Hqa _].
  destruct (pt_add (k_mem s) m3 root t lv i p j q) as [Hok' Hpte']; try done.
  { by apply load64_store64_eq. }
  { intros k Hk. unfold m3. rewrite load64_store64_ne.
    - apply memset_zero_load64; unfold PGSIZE; lia.
    - apply entry_disjoint; [done..|]. congruence. }
  assert (ptpages (<[(lv - 1, i * 512 + j):=q]> t) = ptpages t ∪ {[q]}) as Himg.
  { rewrite map_img_insert_notin_L by done. set_solver. }
  split; simpl; [|by apply insert_subseteq| |done|].
  - split; simpl; [done| |].
    + apply (free_list_frame s1 l m3); [|done]. intros p' Hp' x Hx.
      assert (ram_page p') as [Hp'a _].
      { destruct Hfree1 as (_ & _ & _ & Hl). by eapply Forall_in. }
      unfold m3, m2. rewrite (store64_same _ _ _ x).
      * apply memset_out. apply (page_disjoint p' q); [done|done|by intros ->|done].
      * intros Hx'%entry_in_page; [|done].
        revert Hx'. apply (page_disjoint p' p); [done|done|by intros ->|done].
    + rewrite Himg. set_solver.
  - exists [q]. split; [done|]. rewrite Himg. simpl. set_solver.
  - eapply same_on_weaken; [done|]. intros x Hx. rewrite Himg in Hx. split.
    + intros Hx'%entry_in_page; [|done]. revert Hx'. apply Hx. set_solver.
    + apply Hx. set_solver.
Qed.

(** What [walk] returns when it may allocate: the slot of [va] in the
    grown tree, or 0 when memory ran out. *)
Definition walked (s : kmem) (root : Z) (t : ptree) (l : list Z) (va r : Z)
    (s' : kmem) : Prop :=
  ∃ t' l', pt_grow s root t l s' t' l' ∧
    ((r = 0 ∧ l' = [] ∧ slot t' va = None) ∨ (0 < r ∧ slot t' va = Some r)).

Lemma walk_levels_alloc s root t l va (level : nat) p :
  pt_state s root t l → 0 ≤ va < MAXVA → (level ≤ 2)%nat →
  t !! (Z.of_nat level, nidx (Z.of_nat level) va) = Some p →
  wp (walk_levels level p va true) (λ r s', walked s root t l va r s') s.
Proof.
  intros Hst Hva. revert s t l p Hst.
  induction level as [|level IH]; intros s t l p Hst Hl Hp.
  { change (Z.of_nat 0) with 0 in Hp. apply wp_ret. exists t, l.
    split; [by apply pt_grow_refl|]. right. unfold slot. rewrite Hp. split; [|done].
    pose proof (pt_ram _ _ _ (ps_ok _ _ _ _ Hst) _ _ Hp) as Hr%ram_page_pos.
    pose proof (PX_bounds 0 va). lia. }
  cbn [walk_levels]. unfold ld64. wp_steps.
  set (lv := Z.of_nat (S level)) in *. pose proof (ps_ok _ _ _ _ Hst) as Hok.
  pose proof (PX_bounds lv va ltac:(lia)) as HPX.
  pose proof (pt_content _ _ _ Hok lv _ p (PX lv va) Hp ltac:(lia) HPX) as Hc.
  rewrite <- nidx_child in Hc by lia.
  replace (lv - 1) with (Z.of_nat level) in Hc by lia.
  destruct (t !! (Z.of_nat level, nidx (Z.of_nat level) va)) as [q|] eqn:Hq.
  - rewrite Hc. destruct (ptr_pte_spec q) as (_ & Hpa & -> & _); [by eapply pt_ram|].
    rewrite Hpa. apply IH; [done|lia|done].
  - rewrite Hc. simpl. destruct l as [|q l].
    + apply wp_bind. eapply wp_mono; [by apply kalloc_spec, Hst|].
      intros r s' [-> ->]. simpl. apply wp_ret. exists t, [].
      split; [by apply pt_grow_refl|]. left. split_and!; [done..|]. unfold slot.
      destruct (t !! (0, nidx 0 va)) as [q|] eqn:Hq0; [exfalso|done].
      destruct level as [|[|level]]; [| |lia].
      * change (Z.of_nat 0) with 0 in Hq. congruence.
      * change (Z.of_nat 1) with 1 in Hq.
        destruct (pt_path _ _ _ _ _ Hok Hq0) as [? ?]. congruence.
    + assert (Z.of_nat level = lv - 1) as Hlv by lia.
      assert (nidx (Z.of_nat level) va = nidx lv va * 512 + PX lv va) as Hni
        by (rewrite Hlv; apply nidx_child; lia).
      pose proof (nidx_in_space (Z.of_nat level) va ltac:(lia) Hva) as Hsp.
      rewrite Hni, Hlv in Hq. rewrite Hni, Hlv in Hsp.
      pose proof (wp_bind_inv _ _ _ _ (pt_grow_node s root t lv _ p (PX lv va) q l
        Hst Hp ltac:(lia) HPX Hq Hsp)) as Hnode.
      pose proof (kalloc_spec s (q :: l) (ps_free _ _ _ _ Hst)) as Hka.
      apply wp_bind. eapply wp_mono; [by apply (wp_and _ _ _ _ Hnode Hka)|].
      simpl. intros r s1 [Hn (-> & _)].
      assert (0 < q) as Hqpos.
      { destruct (ps_free _ _ _ _ Hst) as (_ & _ & _ & Hf). inversion Hf; subst.
        by apply ram_page_pos. }
      destruct (Z.eqb_spec q 0); [lia|].
      apply wp_bind_inv in Hn. apply wp_bind. eapply wp_mono; [exact Hn|].
      clear Hn. intros [] s2 Hn. simpl in Hn.
      apply wp_bind_inv in Hn. apply wp_bind. eapply wp_mono; [exact Hn|].
      clear Hn. intros [] s3 [_ Hg]. simpl in Hg.
      eapply wp_mono.
      { apply (IH s3 (<[(lv - 1, nidx lv va * 512 + PX lv va):=q]> t) l q); [apply Hg|lia|].
        rewrite Hni, Hlv. apply lookup_insert_eq. }
      intros r s4 (t' & l' & Hg' & Hr). exists t', l'.
      split; [by eapply pt_grow_trans|done].
Qed.

Lemma walk_alloc s root t l va :
  pt_state s root t l → 0 ≤ va < MAXVA →
  wp (walk root va true) (λ r s', walked s root t l va r s') s.
Proof.
  intros Hst Hva. unfold walk. destruct (Z.leb_spec MAXVA va); [lia|].
  eapply walk_levels_alloc; [done|done|lia|].
  change (Z.of_nat 2) with 2. rewrite nidx2_eq by done. by eapply pt_root, ps_ok.
Qed.

(** * Writing a leaf *)

Lemma slot_pos m root t va a : pt_ok m root t → slot t va = Some a → 0 < a.
Proof.
  intros Hok. unfold slot. destruct (t !! (0, nidx 0 va)) as [p|] eqn:Hp; [|done].
  intros. simplify_eq/=. pose proof (ram_page_pos p (pt_ram _ _ _ Hok _ _ Hp)).
  pose proof (PX_bounds 0 va). lia.
Qed.

Lemma slot_page m root t va a :
  pt_ok m root t → slot t va = Some a →
  ∃ p, p ∈ ptpages t ∧ ∀ x, range a 8 x → page p x.
Proof.
  intros Hok. unfold slot. destruct (t !! (0, nidx 0 va)) as [p|] eqn:Hp; [|done].
  intros. simplify_eq/=. exists p. split; [by eapply elem_of_map_img_2|].
  apply entry_in_page. by apply PX_bounds.
Qed.

Lemma pt_set_leaf m root t va a v :
  pt_ok m root t → slot t va = Some a → fits 64 v →
  pt_ok (store64 m a v) root t ∧
  ∀ va', pte_at (store64 m a v) t va' =
    if decide (va `div` PGSIZE = va' `div` PGSIZE) then v else pte_at m t va'.
Proof.
  intros Hok Hslot Hv. unfold slot in Hslot.
  destruct (t !! (0, nidx 0 va)) as [p|] eqn:Hp; [|done]. simplify_eq/=.
  pose proof (PX_bounds 0 va ltac:(lia)) as HPX.
  assert (∀ k p' j, t !! k = Some p' → 0 ≤ j < 512 → (k, j) ≠ ((0, nidx 0 va), PX 0 va) →
    load64 (store64 m (p + 8 * PX 0 va) v) (p' + 8 * j) = load64 m (p' + 8 * j)) as Hne.
  { intros k p' j Hk Hj Hkj. apply load64_store64_ne.
    destruct (pt_ram _ _ _ Hok _ _ Hk) as [? _], (pt_ram _ _ _ Hok _ _ Hp) as [? _].
    apply entry_disjoint; [done..|]. intros ?. simplify_eq. apply Hkj. f_equal.
    by eapply pt_inj. }
  split.
  - destruct Hok as [? ? ? ? ? ? Hcontent]. split; [done..|]. intros l i p' j Hk Hl Hj.
    rewrite (Hne _ _ _ Hk); [by apply Hcontent|done|]. intros ?; simplify_eq; lia.
  - intros va'. unfold pte_at, slot. case_decide as Hva.
    + destruct (leaf_position_same _ _ Hva) as [<- <-]. rewrite Hp. simpl.
      by apply load64_store64_eq.
    + destruct (t !! (0, nidx 0 va')) as [p'|] eqn:Hp'; [|done]. simpl.
      eapply Hne; [done|by apply PX_bounds|]. intros ?. simplify_eq.
      apply Hva. by apply leaf_position.
Qed.
End pagetable.
