(* ===== verification/Mapping.v ===== *)
(** What a page table means: the finite map from page addresses to leaf
    entries.  [mappages] and [uvmunmap] are shown to implement insertion into
    and deletion from that map, with exact accounting of the pages they take
    from and return to the allocator. *)

From S2P Require Import Prelude Riscv Mem Cstring Kalloc Vm PageTable.

(** * The abstract page table *)

(** Addresses of pages in the part of the address space xv6 uses. *)
Definition vpage (va : Z) : Prop := aligned va ∧ 0 ≤ va < MAXVA.
#[export] Instance vpage_dec va : Decision (vpage va).
Proof. unfold vpage. apply _. Defined.

Definition valid (pte : Z) : bool := truth (Z.land pte PTE_V).

(** [um] is the map of the valid leaf entries. *)
Definition pt_abs (m : mem) (t : ptree) (um : gmap Z Z) : Prop :=
  ∀ va, um !! va =
    if decide (vpage va) then if valid (pte_at m t va) then Some (pte_at m t va) else None
    else None.

Definition leaf_pte (pa perm : Z) : Z := Z.lor (Z.lor (PA2PTE pa) perm) PTE_V.

(** [n] pages from [a] on, mapped to consecutive frames, and unmapped. *)
Fixpoint map_pages (um : gmap Z Z) (a : Z) (n : nat) (pa perm : Z) : gmap Z Z :=
  match n with
  | O => um
  | S k => <[a + PGSIZE * Z.of_nat k := leaf_pte (pa + PGSIZE * Z.of_nat k) perm]>
             (map_pages um a k pa perm)
  end.
Fixpoint unmap_pages (um : gmap Z Z) (a : Z) (n : nat) : gmap Z Z :=
  match n with
  | O => um
  | S k => delete (a + PGSIZE * Z.of_nat k) (unmap_pages um a k)
  end.
(** The frames of those pages, last page first. *)
Fixpoint frames (um : gmap Z Z) (a : Z) (n : nat) : list Z :=
  match n with
  | O => []
  | S k => PTE2PA (default 0 (um !! (a + PGSIZE * Z.of_nat k))) :: frames um a k
  end.

(** The address of the [k]th page after [a]. *)
Abbreviation nth_page a k := (a + PGSIZE * Z.of_nat k).

Lemma map_pages_lookup um a n pa perm va :
  map_pages um a n pa perm !! va =
    if decide (aligned (va - a) ∧ a ≤ va < nth_page a n)
    then Some (leaf_pte (pa + (va - a)) perm) else um !! va.
Proof.
  induction n as [|n IH]; cbn [map_pages].
  { case_decide; [|done]. lia. }
  rewrite lookup_insert. destruct (decide (nth_page a n = va)) as [<-|Hva].
  - rewrite Z.add_simpl_l. rewrite decide_True; [done|].
    unfold aligned, PGSIZE. split; [dlia|lia].
  - rewrite IH. unfold aligned, PGSIZE in *.
    repeat case_decide; try done; exfalso; dlia.
Qed.

Lemma unmap_pages_lookup um a n va :
  unmap_pages um a n !! va =
    if decide (aligned (va - a) ∧ a ≤ va < nth_page a n) then None else um !! va.
Proof.
  induction n as [|n IH]; cbn [unmap_pages].
  { case_decide; [|done]. lia. }
  rewrite lookup_delete. destruct (decide (nth_page a n = va)) as [<-|Hva].
  - rewrite decide_True; [done|]. unfold aligned, PGSIZE. split; [dlia|lia].
  - rewrite IH. unfold aligned, PGSIZE in *.
    repeat case_decide; try done; exfalso; dlia.
Qed.

Lemma length_frames um a n : length (frames um a n) = n.
Proof. induction n; simpl; auto. Qed.

Lemma frames_ext um um' a n :
  (∀ k, (k < n)%nat → um !! nth_page a k = um' !! nth_page a k) → frames um a n = frames um' a n.
Proof.
  induction n as [|n IH]; intros H; [done|]. cbn [frames]. rewrite H by lia. f_equal. auto.
Qed.
Lemma frames_app um a n k :
  frames um a (n + k) = frames um (nth_page a n) k ++ frames um a n.
Proof.
  induction k as [|k IH]; [by rewrite Nat.add_0_r|]. rewrite Nat.add_succ_r. cbn [frames app].
  rewrite IH. do 2 f_equal. f_equal. f_equal. lia.
Qed.
Lemma elem_of_frames um a n p :
  p ∈ frames um a n ↔
    ∃ k, (k < n)%nat ∧ p = PTE2PA (default 0 (um !! nth_page a k)).
Proof.
  induction n as [|n IH]; cbn [frames].
  { rewrite elem_of_nil. split; [done|]. intros (k & ? & _). lia. }
  rewrite elem_of_cons, IH. split.
  - intros [->|(k & Hk & ->)]; [exists n|exists k]; (split; [lia|done]).
  - intros (k & Hk & ->). destruct (decide (k = n)) as [->|]; [by left|right].
    exists k. split; [lia|done].
Qed.

Lemma vpage_add a k : vpage a → nth_page a k < MAXVA → vpage (nth_page a k).
Proof. unfold vpage, aligned, PGSIZE. intros. split; [dlia|lia]. Qed.

(** Mapping and unmapping the same pages is the identity on a map that did
    not have them. *)
Lemma unmap_map_pages um a n pa perm :
  (∀ k, (k < n)%nat → um !! nth_page a k = None) →
  unmap_pages (map_pages um a n pa perm) a n = um.
Proof.
  intros Hn. apply map_eq. intros va. rewrite unmap_pages_lookup, map_pages_lookup.
  case_decide as H; [|done]. destruct H as [Hal Hr]. symmetry.
  unfold aligned, PGSIZE in *.
  replace va with (nth_page a (Z.to_nat ((va - a) `div` 4096)))
    by (unfold PGSIZE; dlia).
  apply Hn. dlia.
Qed.

Section mapping.
Context {L : Linker} {Lok : LinkerOk L}.

Lemma leaf_pte_spec pa perm :
  aligned pa → fits 64 pa → 0 ≤ perm < 1024 →
  fits 64 (leaf_pte pa perm) ∧ valid (leaf_pte pa perm) = true ∧
  PTE2PA (leaf_pte pa perm) = pa ∧ PTE_FLAGS (leaf_pte pa perm) = Z.lor perm PTE_V.
Proof.
  intros Ha Hf Hp. unfold leaf_pte. rewrite <- Z.lor_assoc.
  assert (0 ≤ Z.lor perm PTE_V < 1024) as Hb.
  { split; [apply Z.lor_nonneg; split; [lia|done]|].
    change 1024 with (2 ^ 10). destruct (decide (Z.lor perm PTE_V = 0)) as [->|]; [lia|].
    apply Z.log2_lt_pow2.
    - assert (0 ≤ Z.lor perm PTE_V) by (apply Z.lor_nonneg; split; [lia|done]). lia.
    - rewrite Z.log2_lor by (done || lia). apply Z.max_lub_lt; [|done].
      destruct (decide (perm = 0)) as [->|]; [done|]. apply Z.log2_lt_pow2; lia. }
  destruct (PTE_roundtrip pa (Z.lor perm PTE_V)) as [-> ->]; [done..|].
  split_and!; [| |done|done].
  - rewrite PA2PTE_lor by done. rewrite PA2PTE_eq by done.
    unfold fits, aligned, PGSIZE in *. dlia.
  - unfold valid. change PTE_V with (Z.shiftl 1 0). rewrite PTE_bit_eq by lia.
    rewrite !Z.lor_spec. change (Z.testbit (1 ≪ 0) 0) with true.
    by rewrite !orb_true_r.
Qed.

(** The address space at [root]: [P] the set of its page-table pages,
    [l] the free list, [um] the map. *)
Definition tspace (s : kmem) (root : Z) (t : ptree) (P : gset Z) (l : list Z)
    (um : gmap Z Z) : Prop :=
  pt_state s root t l ∧ ptpages t = P ∧ pt_abs (k_mem s) t um.
Definition aspace (s : kmem) (root : Z) (P : gset Z) (l : list Z)
    (um : gmap Z Z) : Prop :=
  ∃ t, tspace s root t P l um.

(** A page of zeroes is the root of an empty table. *)
Lemma empty_space s p l :
  free_list s l → ram_page p → p ∉ l →
  (∀ j, 0 ≤ j < 512 → load64 (k_mem s) (p + 8 * j) = 0) →
  aspace s p {[p]} l ∅.
Proof.
  intros Hfl Hp Hpl Hz.
  assert (∀ k q, ({[(2, 0) := p]} : ptree) !! k = Some q → k = (2, 0) ∧ q = p) as Hk.
  { intros k q. rewrite lookup_singleton_Some. intros [<- <-]. done. }
  exists {[(2, 0) := p]}. split_and!.
  - split; [|done|].
    + split.
      * apply lookup_singleton_eq.
      * intros lv i q [? ?]%Hk. by simplify_eq.
      * intros lv i q [? ?]%Hk. simplify_eq. lia.
      * by intros k q [_ ->]%Hk.
      * intros k k' q [-> _]%Hk [-> _]%Hk. done.
      * intros lv i q [? ?]%Hk. simplify_eq. lia.
      * intros lv i q j [? ?]%Hk Hlv Hj. simplify_eq.
        rewrite lookup_singleton_ne by done. by rewrite Hz.
    + intros q. rewrite map_img_singleton_L. set_solver.
  - apply map_img_singleton_L.
  - intros va. rewrite lookup_empty. case_decide; [|done].
    assert (pte_at (k_mem s) {[(2, 0) := p]} va = 0) as ->; [|done].
    unfold pte_at, slot. by rewrite lookup_singleton_ne.
Qed.

(** [s'] took [used] off the free list, all of it for page-table pages;
    only page-table pages were written. *)
Definition grown (s : kmem) (P : gset Z) (l : list Z)
    (s' : kmem) (P' : gset Z) (l' : list Z) : Prop :=
  (∃ used, l = used ++ l' ∧ P' = P ∪ list_to_set used) ∧
  same_on (λ x, ∀ p, p ∈ P' → ¬ page p x) (k_mem s) (k_mem s').

Lemma grown_refl s P l : grown s P l s P l.
Proof. split; [|done]. exists []. split; [done|set_solver]. Qed.
Lemma grown_trans s P l s1 P1 l1 s2 P2 l2 :
  grown s P l s1 P1 l1 → grown s1 P1 l1 s2 P2 l2 → grown s P l s2 P2 l2.
Proof.
  intros [(u1 & -> & ->) H1] [(u2 & -> & ->) H2]. split.
  - exists (u1 ++ u2). rewrite list_to_set_app_L. split; [by rewrite app_assoc|set_solver].
  - etrans; [|done]. eapply same_on_weaken; [done|]. set_solver.
Qed.
Lemma grown_sub s P l s' P' l' : grown s P l s' P' l' → P ⊆ P'.
Proof. intros [(u & _ & ->) _]. set_solver. Qed.

Lemma aspace_free s root P l um : aspace s root P l um → free_list s l.
Proof. intros (t & Hst & _). by destruct Hst. Qed.
Lemma aspace_disj s root P l um p : aspace s root P l um → p ∈ P → p ∉ l.
Proof. intros (t & Hst & <- & _). by apply Hst. Qed.
Lemma aspace_ram s root P l um p : aspace s root P l um → p ∈ P → ram_page p.
Proof.
  intros (t & Hst & <- & _) [k Hk]%elem_of_map_img. by eapply pt_ram, Hk; apply Hst.
Qed.
Lemma aspace_vpage s root P l um va e :
  aspace s root P l um → um !! va = Some e → vpage va ∧ valid e = true.
Proof.
  intros (t & _ & _ & Habs) He. rewrite Habs in He. case_decide; [|done].
  destruct (valid _) eqn:?; [|done]. by simplify_eq.
Qed.

(** Memory outside the page table and the free pages may change. *)
Lemma aspace_frame s root P l um m' :
  aspace s root P l um →
  same_on (λ x, ∃ p, (p ∈ P ∨ p ∈ l) ∧ page p x) (k_mem s) m' →
  aspace (set_mem m' s) root P l um.
Proof.
  intros (t & [Hok Hfree Hdis] & HP & Habs) Hs.
  destruct (pt_frame (k_mem s) m' root t) as [Hok' Hpte]; [done| |].
  { eapply same_on_weaken; [done|]. intros x (p & Hp & Hx). exists p. set_solver. }
  exists t. split_and!; [|done|intros va; simpl; rewrite Hpte; apply Habs].
  split; [done| |done]. apply free_list_frame; [|done]. intros p Hp.
  eapply same_on_weaken; [done|]. set_solver.
Qed.

(** * walk on the abstract map *)

(** Storing an entry into the slot of [va]. *)
Definition set_pte (um : gmap Z Z) (va v : Z) : gmap Z Z :=
  if valid v then <[va := v]> um else delete va um.

Lemma aspace_store s root P l um t va a v :
  pt_state s root t l → ptpages t = P → pt_abs (k_mem s) t um → vpage va →
  slot t va = Some a → fits 64 v →
  wp (st64 a v) (λ _ s',
    aspace s' root P l (set_pte um va v) ∧
    same_on (λ x, ∀ p, p ∈ P → ¬ page p x) (k_mem s) (k_mem s')) s.
Proof.
  intros Hst HP Habs Hva Hs Hv. unfold st64, set_pte. wp_steps. simpl.
  destruct (pt_set_leaf (k_mem s) root t va a v) as [Hok' Hpte]; [apply Hst|done..|].
  destruct (slot_page _ _ _ _ _ (ps_ok _ _ _ _ Hst) Hs) as (p & Hp & Hin).
  split.
  - exists t. split_and!; [|done|].
    + split; simpl; [done| |apply Hst].
      apply free_list_frame; [|apply Hst]. intros q Hq x Hx. apply store64_same.
      intros Hx'%Hin. revert Hx'.
      destruct (ps_free _ _ _ _ Hst) as (_ & _ & _ & Hl).
      destruct (Forall_in _ _ _ Hl Hq) as [Hqa _].
      apply elem_of_map_img in Hp as Hp'. destruct Hp' as [k Hk].
      destruct (pt_ram _ _ _ (ps_ok _ _ _ _ Hst) _ _ Hk) as [Hpa _].
      apply (page_disjoint q p); [done|done| |done].
      intros ->. by apply (ps_disj _ _ _ _ Hst p).
    + intros va'. simpl. rewrite Hpte. pose proof (Habs va') as Hum.
      destruct (decide (va = va')) as [<-|Hne].
      * rewrite !decide_True by done. destruct (valid v);
          [apply lookup_insert_eq|apply lookup_delete_eq].
      * assert ((if valid v then <[va:=v]> um else delete va um) !! va' = um !! va') as ->.
        { destruct (valid v); [by rewrite lookup_insert_ne|by rewrite lookup_delete_ne]. }
        rewrite Hum. destruct (decide (vpage va')) as [Hva'|]; [|done].
        rewrite decide_False; [done|]. destruct Hva as [? ?], Hva' as [? ?].
        unfold aligned, PGSIZE in *. dlia.
  - intros x Hx. apply store64_same. intros Hx'%Hin. revert Hx'. apply Hx. by rewrite <- HP.
Qed.

(** [r] is the address of the entry of [va]. *)
Definition entry_at (s : kmem) (root : Z) (P : gset Z) (l : list Z)
    (um : gmap Z Z) (va r : Z) : Prop :=
  vpage va ∧ ∃ t, tspace s root t P l um ∧ slot t va = Some r.

(** It holds what the map says, and a store to it updates the map. *)
Lemma entry_lookup s root P l um va r :
  entry_at s root P l um va r →
  r ≠ 0 ∧ um !! va = (if valid (load64 (k_mem s) r)
                      then Some (load64 (k_mem s) r) else None).
Proof.
  intros (Hva & t & (Hst & HP & Habs) & Hs). split.
  - pose proof (slot_pos _ _ _ _ _ (ps_ok _ _ _ _ Hst) Hs). lia.
  - rewrite Habs, decide_True by done. unfold pte_at. by rewrite Hs.
Qed.
Lemma entry_store s root P l um va r v :
  entry_at s root P l um va r → fits 64 v →
  wp (st64 r v) (λ _ s', aspace s' root P l (set_pte um va v) ∧
    same_on (λ x, ∀ p, p ∈ P → ¬ page p x) (k_mem s) (k_mem s')) s.
Proof. intros (Hva & t & (Hst & HP & Habs) & Hs) Hv. by eapply aspace_store. Qed.

Lemma aspace_walk s root P l um va :
  aspace s root P l um → vpage va →
  wp (walk root va false) (λ r s', s' = s ∧
    ((r = 0 ∧ um !! va = None) ∨ entry_at s root P l um va r)) s.
Proof.
  intros (t & Hst & HP & Habs) Hva. destruct (id Hva) as [_ Hr].
  eapply wp_run; [apply walk_ro; [apply Hst|done]|]. split; [done|].
  destruct (slot t va) as [a|] eqn:Hs; simpl.
  - right. split; [done|]. by exists t.
  - left. split; [done|]. rewrite Habs, decide_True by done. unfold pte_at. by rewrite Hs.
Qed.

Lemma aspace_walk_alloc s root P l um va :
  aspace s root P l um → vpage va →
  wp (walk root va true) (λ r s', ∃ P' l',
    aspace s' root P' l' um ∧ grown s P l s' P' l' ∧
    ((r = 0 ∧ l' = [] ∧ um !! va = None) ∨ entry_at s' root P' l' um va r)) s.
Proof.
  intros (t & Hst & HP & Habs) Hva. destruct (id Hva) as [_ Hr].
  eapply wp_mono; [by apply walk_alloc|]. intros r s' (t' & l' & Hg & Hcase).
  assert (pt_abs (k_mem s') t' um) as Habs'.
  { intros va'. rewrite (pg_pte _ _ _ _ _ _ _ Hg). apply Habs. }
  pose proof (pg_state _ _ _ _ _ _ _ Hg) as Hst'.
  exists (ptpages t'), l'. split_and!; [by exists t'| |].
  - split; [|apply Hg]. rewrite <- HP. apply Hg.
  - destruct Hcase as [(-> & -> & Hs)|[_ Hs]]; [left|right; by split; [|exists t']].
    split_and!; [done..|]. rewrite Habs', decide_True by done. unfold pte_at. by rewrite Hs.
Qed.

(** * mappages *)

(** The pages that [size] bytes from [va] on touch. *)
Definition npages (va size : Z) : nat :=
  Z.to_nat ((PGROUNDDOWN (va + size - 1) - PGROUNDDOWN va) `div` PGSIZE + 1).

Lemma npages_last va size :
  0 ≤ va → 0 < size → va + size ≤ MAXVA →
  (0 < npages va size)%nat ∧ vpage (PGROUNDDOWN va) ∧
  PGROUNDDOWN (va + size - 1) = nth_page (PGROUNDDOWN va) (npages va size - 1) ∧
  nth_page (PGROUNDDOWN va) (npages va size) ≤ MAXVA.
Proof.
  intros H0 H1 H2. unfold npages, vpage, aligned, PGSIZE.
  change MAXVA with (4096 * 67108864) in *.
  assert (∀ x, PGROUNDDOWN x = 4096 * (x `div` 4096)) as Hd.
  { intros x. rewrite PGROUNDDOWN_eq. unfold PGSIZE. dlia. }
  rewrite !Hd.
  replace (4096 * ((va + size - 1) `div` 4096) - 4096 * (va `div` 4096))
    with (((va + size - 1) `div` 4096 - va `div` 4096) * 4096) by lia.
  rewrite Z.div_mul by done.
  assert (va `div` 4096 ≤ (va + size - 1) `div` 4096 < 67108864).
  { split; [apply Z.div_le_mono; lia|apply Z.div_lt_upper_bound; lia]. }
  assert (0 ≤ va `div` 4096) by (apply Z.div_pos; lia).
  rewrite (Z.mul_comm 4096 (va `div` 4096)), Z.mod_mul by done. split_and!; lia.
Qed.

Lemma mappages_spec s root P l um va size pa perm :
  let a := PGROUNDDOWN va in
  let n := npages va size in
  aspace s root P l um →
  0 ≤ va → 0 < size → va + size ≤ MAXVA →
  (∀ k, (k < n)%nat → um !! nth_page a k = None) →
  aligned pa → 0 ≤ pa → nth_page pa n ≤ 2 ^ 64 → 0 ≤ perm < 1024 →
  wp (mappages root va size pa perm) (λ r s', ∃ P' l' k,
    aspace s' root P' l' (map_pages um a k pa perm) ∧ grown s P l s' P' l' ∧
    ((r = 0 ∧ k = n) ∨ (r = -1 ∧ (k < n)%nat ∧ l' = []))) s.
Proof.
  intros a n Has H0 H1 H2 Hnone Hpa Hpa0 Hpan Hperm.
  destruct (npages_last va size H0 H1 H2) as (Hn & Hva & Hlast & Hmax).
  unfold mappages. destruct (Z.eqb_spec size 0); [lia|].
  assert (MAXVA < 2 ^ 64) by done.
  rewrite u64_id by (unfold fits; lia).
  rewrite Hlast. fold a n in Hn, Hva, Hmax |- *.
  eapply (wp_loop _
    (λ '(a', pa') s', ∃ P' l' k, (k < n)%nat ∧ a' = nth_page a k ∧ pa' = nth_page pa k ∧
       aspace s' root P' l' (map_pages um a k pa perm) ∧ grown s P l s' P' l')
    (λ '(a', _) _, Z.to_nat ((nth_page a (n - 1) - a') `div` PGSIZE))).
  - intros [a' pa'] s1 (P1 & l1 & k & Hk & -> & -> & Has1 & Hg1).
    apply wp_bind. eapply wp_mono.
    { apply aspace_walk_alloc; [done|]. apply vpage_add; [done|]. unfold PGSIZE in *. lia. }
    intros pte s2 (P2 & l2 & Has2 & Hg2 & Hcase).
    pose proof (grown_trans _ _ _ _ _ _ _ _ _ Hg1 Hg2) as Hg.
    destruct Hcase as [(-> & -> & _)|He']; [|destruct (entry_lookup _ _ _ _ _ _ _ He') as [Hpte He]].
    { apply wp_ret. exists P2, [], k. split_and!; [done|done|]. right. done. }
    rewrite (proj2 (Z.eqb_neq _ _) Hpte). unfold ld64. wp_steps.
    rewrite map_pages_lookup, decide_False, Hnone in He by (done || lia).
    fold (valid (load64 (k_mem s2) pte)). destruct (valid _) eqn:Hv in He; [done|]. rewrite Hv.
    apply wp_bind. fold (leaf_pte (nth_page pa k) perm).
    destruct (leaf_pte_spec (nth_page pa k) perm) as (Hf & Hval & _); [|..|done|].
    { unfold aligned, PGSIZE in *. dlia. }
    { unfold fits, PGSIZE in *. lia. }
    eapply wp_mono; [by eapply entry_store|]. intros _ s3 [Has3 Hm3].
    unfold set_pte in Has3. rewrite Hval in Has3.
    assert (grown s P l s3 P2 l2) as Hg3.
    { eapply grown_trans; [done|]. split; [|done]. exists []. set_solver. }
    case_cmp; wp_steps.
    + exists P2, l2, (S k). split_and!; [done|done|left]. unfold PGSIZE in *. lia.
    + assert (k ≠ (n - 1)%nat) by (intros ->; done). split.
      * exists P2, l2, (S k). split_and!; [lia|unfold PGSIZE; lia| |done|done].
        rewrite u64_id by (unfold fits, PGSIZE in *; lia). unfold PGSIZE. lia.
      * unfold PGSIZE. dlia.
  - exists P, l, 0%nat. split_and!; [lia|lia|lia|done|apply grown_refl].
  - unfold mappages_fuel. rewrite (proj2 (Z.leb_le _ _)) by (unfold PGSIZE; lia). lia.
Qed.

(** A page that is mapped already is never mapped over. *)
Lemma mappages_remap_spec s root P l um va size pa perm e :
  aspace s root P l um → 0 ≤ va → 0 < size → va + size ≤ MAXVA →
  um !! PGROUNDDOWN va = Some e →
  mappages root va size pa perm s = Panic "mappages: remap".
Proof.
  intros Has H0 H1 H2 He.
  destruct (npages_last va size H0 H1 H2) as (Hn & Hva & Hlast & Hmax).
  unfold mappages. destruct (Z.eqb_spec size 0); [lia|].
  destruct (mappages_fuel _ _) as [|fuel] eqn:Hfuel.
  { revert Hfuel. unfold mappages_fuel. case_match; lia. }
  pose proof (aspace_walk_alloc s root P l um _ Has Hva) as Hwp.
  apply wp_ok in Hwp as (pte & s2 & Hw & P2 & l2 & Has2 & Hg2 & Hcase).
  cbn [loop]. unfold bind at 1 2. rewrite Hw.
  destruct Hcase as [(_ & _ & ?)|[Hpte He']%entry_lookup]; [congruence|].
  rewrite (proj2 (Z.eqb_neq _ _) Hpte). unfold bind, ld64, gets.
  fold (valid (load64 (k_mem s2) pte)). rewrite He in He'. by destruct (valid _).
Qed.

(** * uvmunmap *)

Lemma tspace_kfree s root t P l um pa :
  tspace s root t P l um → ram_page pa → pa ∉ P → pa ∉ l →
  wp (kfree pa) (λ _ s', tspace s' root t P (pa :: l) um ∧
    same_on (λ x, ¬ page pa x) (k_mem s) (k_mem s')) s.
Proof.
  intros ([Hok Hfree Hdis] & HP & Habs) Hram HnP Hnl.
  eapply wp_mono; [by apply kfree_spec|]. intros _ s' [Hfree' Hs]. split; [|done].
  destruct (pt_frame (k_mem s) (k_mem s') root t) as [Hok' Hpte]; [done| |].
  { eapply same_on_weaken; [done|]. intros x (p & Hp & Hx). revert Hx.
    apply elem_of_map_img in Hp as Hp'. destruct Hp' as [k Hk].
    destruct (pt_ram _ _ _ Hok _ _ Hk) as [Hpa _]. destruct Hram as [Ha _].
    apply (page_disjoint p pa); [done..|]. intros ->. by rewrite HP in Hp. }
  split_and!; [|done|intros va; rewrite Hpte; apply Habs].
  split; [done|done|]. intros p Hp. rewrite not_elem_of_cons. split; [|by apply Hdis].
  intros ->. by rewrite HP in Hp.
Qed.
Lemma aspace_kfree s root P l um pa :
  aspace s root P l um → ram_page pa → pa ∉ P → pa ∉ l →
  wp (kfree pa) (λ _ s', aspace s' root P (pa :: l) um ∧
    same_on (λ x, ¬ page pa x) (k_mem s) (k_mem s')) s.
Proof.
  intros [t Ht] Hram HnP Hnl. eapply wp_mono; [by eapply tspace_kfree|].
  intros _ s' [? ?]. split; [by exists t|done].
Qed.
Lemma entry_kfree s root P l um va r pa :
  entry_at s root P l um va r → ram_page pa → pa ∉ P → pa ∉ l →
  wp (kfree pa) (λ _ s', entry_at s' root P (pa :: l) um va r ∧
    same_on (λ x, ¬ page pa x) (k_mem s) (k_mem s')) s.
Proof.
  intros (Hva & t & Ht & Hs) Hram HnP Hnl. eapply wp_mono; [by eapply tspace_kfree|].
  intros _ s' [? ?]. split; [split; [done|by exists t]|done].
Qed.

(** The pages of a region that [uvmunmap] may free: mapped by leaf entries
    to distinct RAM pages, none a page-table page or free. *)
Definition freeable (P : gset Z) (l : list Z) (um : gmap Z Z) (va : Z) (n : nat) : Prop :=
  NoDup (frames um va n) ∧
  ∀ p, p ∈ frames um va n → ram_page p ∧ (p ∉ P) ∧ (p ∉ l).

Lemma frames_prefix um a k n :
  (k ≤ n)%nat → ∃ fs, frames um a n = fs ++ frames um a k.
Proof.
  induction 1 as [|n _ [fs IH]]; [by exists []|]. cbn [frames]. rewrite IH.
  by eexists (_ :: fs).
Qed.

Lemma uvmunmap_spec s root P l um va n (do_free : bool) :
  aspace s root P l um → vpage va → nth_page va n ≤ MAXVA →
  (∀ k, (k < n)%nat → ∃ e, um !! nth_page va k = Some e ∧ PTE_FLAGS e ≠ PTE_V) →
  (do_free = true → freeable P l um va n) →
  wp (uvmunmap root va (Z.of_nat n) do_free) (λ _ s',
    aspace s' root P ((if do_free then frames um va n else []) ++ l)
      (unmap_pages um va n) ∧
    same_on (λ x, (∀ p, p ∈ P → ¬ page p x) ∧
                  (do_free = true → ∀ p, p ∈ frames um va n → ¬ (page p x)))
      (k_mem s) (k_mem s')) s.
Proof.
  intros Has Hva Hmax Hmapped Hfree. unfold uvmunmap.
  assert (MAXVA < 2 ^ 64) by done. destruct (id Hva) as [Hal Hr].
  rewrite (proj2 (Z.eqb_eq _ _)) by done. cbn [negb].
  rewrite u64_id by (unfold fits, PGSIZE in *; lia).
  eapply (wp_loop _ (λ a s', ∃ k, (k ≤ n)%nat ∧ a = nth_page va k ∧
       aspace s' root P ((if do_free then frames um va k else []) ++ l)
         (unmap_pages um va k) ∧
       same_on (λ x, (∀ p, p ∈ P → ¬ page p x) ∧
                     (do_free = true → ∀ p, p ∈ frames um va n → ¬ page p x))
         (k_mem s) (k_mem s'))
    (λ a _, Z.to_nat ((nth_page va n - a) `div` PGSIZE))).
  - intros a s1 (k & Hk & -> & Has1 & Hs1). case_cmp.
    2:{ apply wp_ret. assert (k = n) as -> by (unfold PGSIZE in *; lia). done. }
    assert (k < n)%nat by (unfold PGSIZE in *; lia).
    destruct (Hmapped k) as (e & He & Hleaf); [done|].
    apply wp_bind. eapply wp_mono.
    { apply aspace_walk; [done|]. apply vpage_add; [done|]. lia. }
    intros pte s2 [-> Hcase]. rewrite unmap_pages_lookup, decide_False, He in Hcase by lia.
    destruct Hcase as [[_ ?]|Hent]; [done|].
    destruct (entry_lookup _ _ _ _ _ _ _ Hent) as [Hpte He'].
    rewrite unmap_pages_lookup, decide_False, He in He' by lia.
    rewrite (proj2 (Z.eqb_neq _ _) Hpte). unfold ld64. wp_steps.
    unfold valid in He'. destruct (truth _) eqn:Hv in He'; [|done]. simplify_eq.
    bool_facts. rewrite (proj2 (Z.eqb_neq _ _) Hv).
    rewrite (proj2 (Z.eqb_neq _ _) Hleaf).
    apply wp_bind. eapply (wp_mono _ (λ _ s2,
      entry_at s2 root P ((if do_free then frames um va (S k) else []) ++ l)
        (unmap_pages um va k) (nth_page va k) pte ∧
       same_on (λ x, (do_free = true → ∀ p, p ∈ frames um va n → ¬ page p x))
         (k_mem s1) (k_mem s2))).
    { destruct do_free; cbn [when]; [|apply wp_ret; by split].
      destruct (Hfree eq_refl) as [Hnd Hfr].
      destruct (frames_prefix um va (S k) n) as [fs Hfs]; [lia|].
      cbn [frames] in Hfs |- *. rewrite He in Hfs |- *. cbn [default from_option id] in *.
      destruct (Hfr (PTE2PA (load64 (k_mem s1) pte))) as (Hram & HnP & Hnl).
      { rewrite Hfs. set_solver. }
      eapply wp_mono; [eapply entry_kfree; [done..|]|].
      - rewrite not_elem_of_app. split; [|done]. rewrite Hfs in Hnd.
        apply list.NoDup_app in Hnd as (_ & _ & Hnd). by inversion Hnd.
      - intros _ s2 [He2 Hs2]. split; [done|]. eapply same_on_weaken; [done|].
        intros x Hx. apply Hx; [done|]. rewrite Hfs. set_solver. }
    intros _ s2 [He2 Hs2]. apply wp_bind. eapply wp_mono; [by eapply entry_store|].
    intros _ s3 [Has3 Hs3]. apply wp_ret. split; [|unfold PGSIZE; dlia].
    exists (S k). split_and!; [lia|unfold PGSIZE; lia|done|].
    etrans; [done|]. etrans; (eapply same_on_weaken; [done|]); naive_solver.
  - exists 0%nat. split_and!; [lia|lia| |done]. by destruct do_free.
  - unfold PGSIZE. dlia.
Qed.
End mapping.
