(* ===== verification/UserMem.v ===== *)
(** User address spaces: growing, shrinking and copying them.  Every
    operation accounts for all physical pages: those it takes from the free
    list are page-table pages or frames of the address space afterwards, and
    on failure everything but page-table pages is back on the list. *)

From S2P Require Import Prelude Riscv Mem Cstring Kalloc Vm PageTable Mapping.

#[local] Opaque memset memmove.

(** Entries [es], last page first, for the pages from [a] on. *)
Fixpoint map_entries (um : gmap Z Z) (a : Z) (es : list Z) : gmap Z Z :=
  match es with
  | [] => um
  | e :: es' => <[nth_page a (length es') := e]> (map_entries um a es')
  end.

Lemma map_entries_out um a es va :
  va < a ∨ nth_page a (length es) ≤ va → map_entries um a es !! va = um !! va.
Proof.
  induction es as [|f es IH]; intros Hva; [done|]. cbn [map_entries length] in *.
  rewrite lookup_insert_ne by (unfold PGSIZE in *; lia). apply IH. unfold PGSIZE in *. lia.
Qed.

Lemma map_entries_in um a es k e :
  reverse es !! k = Some e → map_entries um a es !! nth_page a k = Some e.
Proof.
  induction es as [|g es IH]; [done|]. rewrite reverse_cons. cbn [map_entries].
  rewrite lookup_app_Some, length_reverse. intros [Hk|[Hk Hf]].
  - pose proof (lookup_lt_Some _ _ _ Hk) as Hlt. rewrite length_reverse in Hlt.
    rewrite lookup_insert_ne by (unfold PGSIZE in *; lia). by apply IH.
  - apply list_lookup_singleton_Some in Hf as [? ->].
    replace k with (length es) by lia. apply lookup_insert_eq.
Qed.
Lemma map_entries_lookup um a es k :
  (k < length es)%nat → ∃ e, e ∈ es ∧ map_entries um a es !! nth_page a k = Some e.
Proof.
  intros Hk. destruct (lookup_lt_is_Some_2 (reverse es) k) as [e He].
  { by rewrite length_reverse. }
  exists e. split; [|by apply map_entries_in].
  apply list_elem_of_lookup_2 in He. by rewrite elem_of_reverse in He.
Qed.

Lemma unmap_map_entries um a es :
  (∀ k, (k < length es)%nat → um !! nth_page a k = None) →
  unmap_pages (map_entries um a es) a (length es) = um.
Proof.
  intros Hn. apply map_eq. intros va. rewrite unmap_pages_lookup. case_decide as H.
  - destruct H as [Hal Hr]. symmetry. unfold aligned, PGSIZE in *.
    replace va with (nth_page a (Z.to_nat ((va - a) `div` 4096))) by (unfold PGSIZE; dlia).
    apply Hn. dlia.
  - clear Hn. induction es as [|f es IH]; [done|]. cbn [map_entries length] in *.
    rewrite lookup_insert_ne.
    + apply IH. unfold PGSIZE in *. intros [? ?]. apply H. split; [done|lia].
    + intros <-. apply H. unfold aligned, PGSIZE. split; [dlia|lia].
Qed.

Lemma frames_entries um a es :
  (∀ k e, reverse es !! k = Some e → um !! nth_page a k = Some e) →
  frames um a (length es) = PTE2PA <$> es.
Proof.
  induction es as [|e es IH]; intros Hum; [done|].
  cbn [length frames fmap list_fmap]. rewrite (Hum (length es) e).
  - cbn. f_equal. apply IH. intros k g Hk. apply Hum.
    rewrite reverse_cons. by apply lookup_app_l_Some.
  - rewrite reverse_cons, lookup_app_r; rewrite length_reverse; [|done].
    by rewrite Nat.sub_diag.
Qed.
Lemma frames_map_entries um a es :
  frames (map_entries um a es) a (length es) = PTE2PA <$> es.
Proof. apply frames_entries, map_entries_in. Qed.

Section usermem.
Context {L : Linker} {Lok : LinkerOk L}.

(** * Pages from the allocator beside an address space *)

Lemma aspace_other s s' root P l l' um :
  aspace s root P l um → free_list s' l' → (∀ p, p ∈ P → p ∉ l') →
  same_on (λ x, ∃ p, p ∈ P ∧ page p x) (k_mem s) (k_mem s') →
  aspace s' root P l' um.
Proof.
  intros (t & [Hok Hfree Hdis] & HP & Habs) Hfree' Hdis' Hs.
  destruct (pt_frame (k_mem s) (k_mem s') root t) as [Hok' Hpte]; [done| |].
  { by rewrite HP. }
  exists t. split_and!; [|done|intros va; rewrite Hpte; apply Habs].
  split; [done|done|]. by rewrite HP.
Qed.

Lemma aspace_kalloc s root P l um :
  aspace s root P l um →
  wp kalloc (λ r s', match l with
    | [] => r = 0 ∧ s' = s
    | p :: l' => r = p ∧ ram_page p ∧ (p ∉ P) ∧ (p ∉ l') ∧ aspace s' root P l' um ∧
                 same_on (λ x, ¬ page p x) (k_mem s) (k_mem s')
    end) s.
Proof.
  intros Has. pose proof (aspace_free _ _ _ _ _ Has) as Hfl.
  eapply wp_mono; [by apply kalloc_spec|]. intros r s'. destruct l as [|p l]; [done|].
  intros (-> & Hfl' & _ & Hs). destruct Hfl as (_ & _ & Hnd & Hram).
  apply list.NoDup_cons in Hnd as [Hp Hnd]. apply list.Forall_cons in Hram as [Hpr Hram].
  assert (p ∉ P) as HpP.
  { intros H. eapply (aspace_disj _ _ _ _ _ _ Has H). set_solver. }
  split_and!; [done..| |done]. eapply aspace_other; [done|done| |].
  - intros q Hq Hql. eapply (aspace_disj _ _ _ _ _ _ Has Hq). set_solver.
  - eapply same_on_weaken; [done|]. intros x (q & Hq & Hx). revert Hx.
    apply (page_disjoint q p); [|apply Hpr|by intros ->].
    by apply (aspace_ram _ _ _ _ _ _ Has Hq).
Qed.

(** A page of the caller's, filled by [f]: page table and free list stay. *)
Lemma aspace_write s root P l um (f : mem → mem) p :
  aspace s root P l um → aligned p → p ∉ P → p ∉ l →
  same_on (λ x, ¬ page p x) (k_mem s) (f (k_mem s)) →
  wp (modify (upd_mem f)) (λ _ s', aspace s' root P l um ∧ k_mem s' = f (k_mem s)) s.
Proof.
  intros Has Hp HnP Hnl Hs. apply wp_modify. split; [|done]. apply aspace_frame; [done|].
  eapply same_on_weaken; [done|]. intros x (q & Hq & Hx). revert Hx.
  apply (page_disjoint q p); [|done|intros ->; tauto].
  destruct Hq as [Hq|Hq]; [by apply (aspace_ram _ _ _ _ _ _ Has Hq)|].
  destruct (aspace_free _ _ _ _ _ Has) as (_ & _ & _ & Hl).
  by destruct (Forall_in _ _ _ Hl Hq).
Qed.

(** * uvmdealloc *)

Lemma uvmdealloc_spec s root P l um oldsz newsz :
  let a := PGROUNDUP newsz in
  let n := Z.to_nat ((PGROUNDUP oldsz - a) `div` PGSIZE) in
  aspace s root P l um → 0 ≤ newsz < oldsz → oldsz ≤ MAXVA →
  (∀ k, (k < n)%nat → ∃ e, um !! nth_page a k = Some e ∧ PTE_FLAGS e ≠ PTE_V) →
  freeable P l um a n →
  wp (uvmdealloc root oldsz newsz) (λ r s', r = newsz ∧
    aspace s' root P (frames um a n ++ l) (unmap_pages um a n) ∧
    same_on (λ x, (∀ p, p ∈ P → ¬ page p x) ∧ (∀ p, p ∈ frames um a n → ¬ page p x))
      (k_mem s) (k_mem s')) s.
Proof.
  intros a n Has H0 H1 Hm Hf. unfold uvmdealloc. fold a.
  destruct (Z.leb_spec oldsz newsz); [lia|].
  assert (MAXVA = 274877906944) as HM by done.
  assert (PGSIZE = 4096) as HP by done.
  destruct (PGROUNDUP_spec newsz) as [Ha1 Ha2]; [lia|]. fold a in Ha1, Ha2.
  destruct (PGROUNDUP_spec oldsz) as [Hb1 Hb2]; [lia|].
  unfold aligned in Ha1, Hb1. rewrite HP in *.
  apply wp_bind, wp_when; intros Hlt; bool_facts.
  - assert (PGROUNDUP oldsz ≤ MAXVA) by dlia.
    rewrite s32_id, u64_id by (unfold fits; dlia).
    replace ((PGROUNDUP oldsz - a) `div` 4096) with (Z.of_nat n) by (unfold n; dlia).
    eapply wp_mono; [apply uvmunmap_spec; [done| | |done|done]|].
    + unfold vpage, aligned. rewrite HP. lia.
    + unfold n. rewrite HP. dlia.
    + intros _ s' [Has' Hs]. apply wp_ret. split_and!; [done|done|].
      eapply same_on_weaken; [done|]. tauto.
  - assert (n = 0%nat) as Hn by (unfold n; dlia). rewrite Hn in *. by apply wp_ret.
Qed.

(** * uvmalloc *)

(** From free list [l] the pages [pts] went into the page table and [fs]
    are held as frames. *)
Definition taken (P : gset Z) (l : list Z) (P' : gset Z) (l' pts fs : list Z) : Prop :=
  l ≡ₚ pts ++ fs ++ l' ∧ P' = P ∪ list_to_set pts.

(** Memory that neither the page table nor the allocator had. *)
Definition others (P : gset Z) (l : list Z) (x : Z) : Prop :=
  (∀ p, p ∈ P → ¬ page p x) ∧ (∀ p, p ∈ l → ¬ page p x).

Lemma taken_facts s root P l um P' l' pts fs :
  aspace s root P l um → taken P l P' l' pts fs →
  NoDup fs ∧ Forall ram_page fs ∧ ∀ f, f ∈ fs → (f ∉ P') ∧ (f ∉ l').
Proof.
  intros Has [Hl ->]. pose proof (aspace_free _ _ _ _ _ Has) as (_ & _ & Hnd & Hram).
  rewrite Hl in Hnd, Hram. apply list.NoDup_app in Hnd as (_ & H1 & Hnd).
  apply list.NoDup_app in Hnd as (Hfs & H2 & _).
  rewrite !list.Forall_app in Hram. split_and!; [done|tauto|].
  intros f Hf. split; [|by apply H2]. rewrite elem_of_union, elem_of_list_to_set.
  intros [HP|Hp]; [|by apply (H1 f Hp), elem_of_app; left].
  apply (aspace_disj _ _ _ _ _ _ Has HP). rewrite Hl. set_solver.
Qed.
Lemma taken_others P l P' l' pts fs x :
  taken P l P' l' pts fs → others P l x →
  others P' l' x ∧ ∀ f, f ∈ fs → ¬ page f x.
Proof.
  intros [Hl ->] [H1 H2]. unfold others. setoid_rewrite Hl in H2. set_solver.
Qed.
(** A frame from the list, and then page-table pages. *)
Lemma taken_grown P l P1 pts fs m s1 l1 s2 P2 l2 :
  taken P l P1 (m :: l1) pts fs → grown s1 P1 l1 s2 P2 l2 →
  ∃ pts', taken P l P2 l2 pts' (m :: fs) ∧ (length pts ≤ length pts')%nat.
Proof.
  intros [Hl ->] [(used & -> & ->) _]. exists (pts ++ used). split; [|rewrite length_app; lia].
  split; [|rewrite list_to_set_app_L; set_solver]. rewrite Hl.
  solve_Permutation.
Qed.

Definition UPERM : Z := Z.lor (Z.lor (Z.lor PTE_W PTE_X) PTE_R) PTE_U.
Lemma UPERM_ok : 0 ≤ UPERM < 1024 ∧ Z.lor UPERM PTE_V ≠ PTE_V.
Proof. by vm_compute. Qed.
Definition zeroed (m : mem) (f : Z) : Prop := ∀ x, page f x → load8 m x = 0.

(** One turn of the loop of [uvmalloc] and of [uvmcopy]: a fresh page [m]
    is mapped at [a]. *)
Lemma mappages_page s root P l um a m perm :
  aspace s root P l um → vpage a → um !! a = None →
  aligned m → 0 ≤ m → m + PGSIZE ≤ 2 ^ 64 → 0 ≤ perm < 1024 →
  wp (mappages root a PGSIZE m perm) (λ r s', ∃ P' l',
    grown s P l s' P' l' ∧
    ((r = 0 ∧ aspace s' root P' l' (<[a := leaf_pte m perm]> um)) ∨
     (r = -1 ∧ l' = [] ∧ aspace s' root P' l' um))) s.
Proof.
  intros Has [Hal Hr] Hum Hma Hm0 Hm2 Hperm.
  assert (MAXVA = 274877906944) as HM by done. assert (PGSIZE = 4096) as HP by done.
  assert (PGROUNDDOWN a = a) as Hd by (by apply PGROUNDDOWN_id).
  assert (npages a PGSIZE = 1%nat) as Hn.
  { unfold npages. rewrite Hd. rewrite PGROUNDDOWN_eq. unfold aligned in Hal.
    rewrite HP in *. dlia. }
  eapply wp_mono.
  { apply mappages_spec; [done|lia|lia| | |done| | |done];
      rewrite ?Hd, ?Hn; unfold aligned in *; rewrite ?HP in *; [dlia| |lia|lia].
    intros k Hk. replace (a + 4096 * Z.of_nat k) with a by lia. done. }
  intros r s' (P' & l' & k & Has' & Hg & Hcase). rewrite Hd, Hn in *.
  exists P', l'. split; [done|]. destruct Hcase as [[-> ->]|(-> & Hk & ->)].
  - left. cbn [map_pages] in Has'. change (Z.of_nat 0) with 0 in Has'.
    by rewrite Z.mul_0_r, !Z.add_0_r in Has'.
  - right. by destruct k; [|lia].
Qed.
Lemma mappages_one s root P l um a m perm :
  aspace s root P l um → vpage a → um !! a = None → ram_page m → 0 ≤ perm < 1024 →
  wp (mappages root a PGSIZE m perm) (λ r s', ∃ P' l',
    grown s P l s' P' l' ∧
    ((r = 0 ∧ aspace s' root P' l' (<[a := leaf_pte m perm]> um)) ∨
     (r = -1 ∧ l' = [] ∧ aspace s' root P' l' um))) s.
Proof.
  intros Has Ha Hum Hm Hperm. pose proof (ram_page_fits m Hm). pose proof Hm as [? [_ ?]].
  apply mappages_page; unfold fits, PHYSTOP, KERNBASE, PGSIZE in *; [done..|lia|lia|done].
Qed.

(** What [uvmalloc] and [uvmcopy] have done after some turns: entries [es]
    mapped to frames of their own, the [k]th with the flags [flags k] and
    filled with [content k]; the pages [held] are allocated but not mapped. *)
Record progress (s0 : kmem) (root : Z) (P : gset Z) (l : list Z) (um : gmap Z Z)
    (base : Z) (flags : nat → Z) (content : nat → Z → Z)
    (s : kmem) (P' : gset Z) (l' pts held es : list Z) : Prop := {
  pr_space : aspace s root P' l' (map_entries um base es);
  pr_taken : taken P l P' l' pts (held ++ (PTE2PA <$> es));
  pr_leaf : ∀ k e, reverse es !! k = Some e → PTE_FLAGS e = flags k ∧ flags k ≠ PTE_V;
  pr_content : ∀ k e i, reverse es !! k = Some e → 0 ≤ i < PGSIZE →
    load8 (k_mem s) (PTE2PA e + i) = content k i;
  pr_mem : same_on (others P l) (k_mem s0) (k_mem s);
}.

Section progress.
Context (s0 : kmem) (root : Z) (P : gset Z) (l : list Z) (um : gmap Z Z).
Context (base : Z) (flags : nat → Z) (content : nat → Z → Z).
Context (Has0 : aspace s0 root P l um).
Abbreviation progress := (progress s0 root P l um base flags content).

(** Changes outside the frames and the others keep contents. *)
Lemma progress_keep s s' P' l' pts held es P'' l'' pts'' held'' :
  progress s P' l' pts held es →
  aspace s' root P'' l'' (map_entries um base es) →
  taken P l P'' l'' pts'' (held'' ++ (PTE2PA <$> es)) →
  same_on (λ x, others P l x ∨ ∃ f, f ∈ PTE2PA <$> es ∧ page f x) (k_mem s) (k_mem s') →
  progress s' P'' l'' pts'' held'' es.
Proof.
  intros [Has Htk Hleaf Hc Hmem] Has' Htk' Hs. split; [done..| |].
  - intros k e i Hk Hi. rewrite <- (Hc k e i Hk Hi). apply Hs. right.
    exists (PTE2PA e). apply list_elem_of_lookup_2 in Hk.
    rewrite elem_of_reverse in Hk. split; [by apply list_elem_of_fmap_2|].
    unfold page, range. lia.
  - etrans; [done|]. eapply same_on_weaken; [done|]. intros x ?. by left.
Qed.

(** The pages that may be written without harm: those held or free. *)
Lemma progress_safe s P' l' pts held es q x :
  progress s P' l' pts held es → q ∈ held ++ l' ++ elements P' →
  others P l x ∨ (∃ f, f ∈ PTE2PA <$> es ∧ page f x) → ¬ page q x.
Proof.
  intros [Has Htk _ _ _] Hq [Hx|(f & Hf & Hx)].
  - destruct (taken_others _ _ _ _ _ _ _ Htk Hx) as [[? ?] ?]. set_solver.
  - destruct (taken_facts _ _ _ _ _ _ _ _ _ Has0 Htk) as (Hnd & Hram & Hdis).
    apply list.NoDup_app in Hnd as (_ & Hnd & _).
    assert (f ≠ q) as Hne by (intros <-; set_solver).
    assert (ram_page q) as [Hqa _].
    { apply elem_of_app in Hq as [Hq|Hq]; [eapply Forall_in; [done|set_solver]|].
      apply elem_of_app in Hq as [Hq|Hq].
      - destruct (aspace_free _ _ _ _ _ Has) as (_ & _ & _ & Hl). by eapply Forall_in.
      - apply elem_of_elements in Hq. by apply (aspace_ram _ _ _ _ _ _ Has). }
    assert (ram_page f) as [Hfa _] by (eapply Forall_in; [done|set_solver]).
    by apply (page_disjoint f q).
Qed.

Lemma progress_kalloc s P' l' pts es :
  progress s P' l' pts [] es →
  wp kalloc (λ r s', match l' with
    | [] => r = 0 ∧ s' = s
    | m :: l1 => r = m ∧ ram_page m ∧ progress s' P' l1 pts [m] es
    end) s.
Proof.
  intros Hp. eapply wp_mono; [apply aspace_kalloc, Hp|]. intros r s'.
  destruct l' as [|m l1]; [done|]. intros (-> & Hm & HmP & Hml & Has & Hs).
  split_and!; [done..|]. eapply progress_keep; [done|done| |].
  - destruct (pr_taken _ _ _ _ _ _ _ _ _ _ _ _ _ _ Hp) as [Hl ->]. split; [|done].
    rewrite Hl. solve_Permutation.
  - eapply same_on_weaken; [done|]. intros x Hx.
    eapply progress_safe; [done|set_solver|done].
Qed.

Lemma progress_fill s P' l' pts m es (f : mem → mem) :
  progress s P' l' pts [m] es →
  same_on (λ x, ¬ page m x) (k_mem s) (f (k_mem s)) →
  wp (modify (upd_mem f)) (λ _ s', progress s' P' l' pts [m] es ∧ k_mem s' = f (k_mem s)) s.
Proof.
  intros Hp Hs.
  destruct (taken_facts _ _ _ _ _ _ _ _ _ Has0
    (pr_taken _ _ _ _ _ _ _ _ _ _ _ _ _ _ Hp)) as (_ & Hram & Hdis).
  apply list.Forall_cons in Hram as [[Ha _] _]. destruct (Hdis m) as [HmP Hml]; [set_solver|].
  eapply wp_mono; [eapply (aspace_write _ _ _ _ _ _ m); [apply Hp|done..]|]. intros _ s' [Has' Hm].
  split; [|done]. eapply progress_keep; [done|done|apply Hp|]. rewrite Hm.
  eapply same_on_weaken; [done|]. intros x Hx.
  eapply progress_safe; [done|set_solver|done].
Qed.

Lemma progress_kfree s P' l' pts m es :
  progress s P' l' pts [m] es →
  wp (kfree m) (λ _ s', progress s' P' (m :: l') pts [] es) s.
Proof.
  intros Hp.
  destruct (taken_facts _ _ _ _ _ _ _ _ _ Has0
    (pr_taken _ _ _ _ _ _ _ _ _ _ _ _ _ _ Hp)) as (_ & Hram & Hdis).
  apply list.Forall_cons in Hram as [Hm _]. destruct (Hdis m) as [HmP Hml]; [set_solver|].
  eapply wp_mono; [apply aspace_kfree; [apply Hp|done..]|]. intros _ s' [Has' Hs].
  eapply progress_keep; [done|done| |].
  - destruct (pr_taken _ _ _ _ _ _ _ _ _ _ _ _ _ _ Hp) as [Hl ->]. split; [|done].
    rewrite Hl. solve_Permutation.
  - eapply same_on_weaken; [done|]. intros x Hx.
    eapply progress_safe; [done|set_solver|done].
Qed.

Lemma progress_map s P' l' pts m es perm :
  let a := nth_page base (length es) in
  progress s P' l' pts [m] es →
  vpage base → a < MAXVA → um !! a = None → 0 ≤ perm < 1024 → 
  Z.lor perm PTE_V = flags (length es) → flags (length es) ≠ PTE_V →
  (∀ i, 0 ≤ i < PGSIZE → load8 (k_mem s) (m + i) = content (length es) i) →
  wp (mappages root a PGSIZE m perm) (λ r s', ∃ P2 l2 pts2,
    (r = 0 ∧ progress s' P2 l2 pts2 [] (leaf_pte m perm :: es)) ∨
    (r = -1 ∧ l2 = [] ∧ progress s' P2 l2 pts2 [m] es)) s.
Proof.
  intros a Hp Hb Ha Hum Hperm Hflags Hleaf Hc.
  pose proof (pr_taken _ _ _ _ _ _ _ _ _ _ _ _ _ _ Hp) as Htk.
  destruct (taken_facts _ _ _ _ _ _ _ _ _ Has0 Htk) as (_ & Hram & _).
  apply list.Forall_cons in Hram as [Hm _]. pose proof Hm as [Hma _].
  destruct (leaf_pte_spec m perm Hma (ram_page_fits m Hm) Hperm) as (_ & _ & Hpa & Hfl).
  eapply wp_mono; [apply mappages_one; [apply Hp|by apply vpage_add| |done|done]|].
  { by rewrite map_entries_out by (unfold a; lia). }
  intros r s' (P2 & l2 & Hg & Hcase). pose proof Hg as [(used & Hl' & HP2) Hs].
  assert (taken P l P2 l2 (pts ++ used) ([m] ++ (PTE2PA <$> es))) as Htk2.
  { destruct Htk as [Hl ->]. split; [|rewrite list_to_set_app_L; set_solver].
    rewrite Hl, Hl'. solve_Permutation. }
  assert (same_on (λ x, others P l x ∨ ∃ f, f ∈ PTE2PA <$> es ∧ page f x)
            (k_mem s) (k_mem s')) as Hkeep.
  { eapply same_on_weaken; [done|]. intros x Hx p Hp2.
    eapply progress_safe; [done| |done]. set_solver. }
  exists P2, l2, (pts ++ used). destruct Hcase as [[-> Has']|(-> & -> & Has')].
  2:{ right. split_and!; [done..|]. by eapply progress_keep. }
  left. split; [done|]. destruct Hp as [_ _ Hlf Hct Hmem]. split.
  - done.
  - cbn [fmap list_fmap app]. by rewrite Hpa.
  - intros k e. rewrite reverse_cons, lookup_app_Some, length_reverse.
    intros [Hk|[Hk Hf]]; [by apply Hlf|].
    apply list_lookup_singleton_Some in Hf as [? <-].
    replace k with (length es) by lia. by rewrite Hfl.
  - intros k e i. rewrite reverse_cons, lookup_app_Some, length_reverse.
    intros [Hk|[Hk Hf]] Hi.
    + rewrite <- (Hct k e i Hk Hi). apply Hkeep. right. exists (PTE2PA e).
      apply list_elem_of_lookup_2 in Hk. rewrite elem_of_reverse in Hk.
      split; [by apply list_elem_of_fmap_2|]. unfold page, range. lia.
    + apply list_lookup_singleton_Some in Hf as [? <-].
      replace k with (length es) by lia. rewrite Hpa, <- Hc by done. apply Hs.
      intros p Hp2. apply (page_disjoint m p); [done| | |unfold page, range; lia].
      * by apply (aspace_ram _ _ _ _ _ _ Has').
      * intros <-. by destruct (taken_facts _ _ _ _ _ _ _ _ _ Has0 Htk2)
          as (_ & _ & Hdis); destruct (Hdis m); [set_solver|].
  - etrans; [done|]. eapply same_on_weaken; [done|]. intros x ?. by left.
Qed.

Lemma progress_undo s P' l' pts es :
  progress s P' l' pts [] es →
  vpage base → nth_page base (length es) ≤ MAXVA →
  (∀ k, (k < length es)%nat → um !! nth_page base k = None) →
  wp (uvmunmap root base (Z.of_nat (length es)) true) (λ _ s',
    progress s' P' ((PTE2PA <$> es) ++ l') pts [] []) s.
Proof.
  intros Hp Hb Hmax Hum. pose proof Hp as [Has Htk Hleaf _ Hmem].
  destruct (taken_facts _ _ _ _ _ _ _ _ _ Has0 Htk) as (Hnd & Hram & Hdis).
  eapply wp_mono; [apply uvmunmap_spec; [done..| |]|].
  - intros k Hk. destruct (lookup_lt_is_Some_2 (reverse es) k) as [e He].
    { by rewrite length_reverse. }
    exists e. split; [by apply map_entries_in|]. by destruct (Hleaf k e He) as [-> ?].
  - intros _. unfold freeable. rewrite frames_map_entries. split; [done|].
    intros p Hpf. split; [by eapply Forall_in|by apply Hdis].
  - intros [] s'. rewrite frames_map_entries, unmap_map_entries by done.
    intros [Has' Hs]. split; [done|done| |done|]; [by intros k e ?|].
    etrans; [done|]. eapply same_on_weaken; [done|]. intros x Hx.
    destruct (taken_others _ _ _ _ _ _ _ Htk Hx) as [[? ?] ?]. done.
Qed.

Lemma progress_dealloc s P' l' pts es :
  progress s P' l' pts [] es →
  vpage base → nth_page base (length es) ≤ MAXVA →
  (∀ k, (k < length es)%nat → um !! nth_page base k = None) →
  wp (uvmdealloc root (nth_page base (length es)) base) (λ _ s',
    progress s' P' ((PTE2PA <$> es) ++ l') pts [] []) s.
Proof.
  intros Hp Hb Hmax Hum. unfold uvmdealloc.
  assert (MAXVA = 274877906944) as HM by done. assert (PGSIZE = 4096) as HP by done.
  destruct (Z.leb_spec (nth_page base (length es)) base).
  { destruct es; [by apply wp_ret|]. simpl in *. lia. }
  pose proof Hb as [Hba Hbr]. unfold aligned in Hba. rewrite HP in *.
  rewrite !PGROUNDUP_id by (unfold aligned; rewrite ?HP; dlia).
  rewrite (proj2 (Z.ltb_lt _ _)) by done. cbn [when].
  rewrite s32_id, u64_id by (unfold fits; dlia).
  replace ((base + 4096 * Z.of_nat (length es) - base) `div` 4096)
    with (Z.of_nat (length es)) by dlia.
  apply wp_bind. eapply wp_mono; [by apply progress_undo|]. intros [] s' Hp'. by apply wp_ret.
Qed.

Lemma progress_nil : progress s0 P l [] [] [].
Proof.
  split; [done| |by intros k e ?|by intros k e i ?|done].
  split; [done|set_solver].
Qed.
End progress.

Definition zeros (k : nat) (i : Z) : Z := 0.
Definition upages (oldsz newsz : Z) : nat :=
  Z.to_nat ((PGROUNDUP newsz - PGROUNDUP oldsz) `div` PGSIZE).

(** [uvmalloc] either maps zeroed pages of its own up to [newsz], or
    leaves the map as it was and keeps no frame. *)
Lemma uvmalloc_spec s root P l um oldsz newsz :
  let base := PGROUNDUP oldsz in
  let n := upages oldsz newsz in
  aspace s root P l um → 0 ≤ oldsz ≤ newsz → newsz ≤ MAXVA →
  (∀ k, (k < n)%nat → um !! nth_page base k = None) →
  wp (uvmalloc root oldsz newsz) (λ r s', ∃ P' l' pts es,
    progress s root P l um base (λ _, Z.lor UPERM PTE_V) zeros s' P' l' pts [] es ∧
    ((r = newsz ∧ length es = n) ∨
     (r = 0 ∧ es = [] ∧ (length l ≤ n + length pts)%nat))) s.
Proof.
  intros base n Has H0 H1 Hum. unfold uvmalloc.
  destruct (Z.ltb_spec newsz oldsz); [lia|]. fold base.
  assert (MAXVA = 274877906944) as HM by done.
  assert (PGSIZE = 4096) as HP by done.
  destruct (PGROUNDUP_spec oldsz) as [Ha1 Ha2]; [lia|]. fold base in Ha1, Ha2.
  destruct (PGROUNDUP_spec newsz) as [Hb1 Hb2]; [lia|].
  assert (nth_page base n = PGROUNDUP newsz) as Hn.
  { unfold n, upages, aligned in *. fold base. rewrite HP in *. dlia. }
  eapply (wp_loop _ (λ a s', ∃ P' l' pts es, a = nth_page base (length es) ∧
       (length es ≤ n)%nat ∧
       progress s root P l um base (λ _, Z.lor UPERM PTE_V) zeros s' P' l' pts [] es)
    (λ a _, Z.to_nat ((nth_page base n - a) `div` PGSIZE))).
  - intros a s1 (P1 & l1 & pts & es & -> & Hes & Hp). rewrite HP in *.
    destruct (Z.ltb_spec (base + 4096 * Z.of_nat (length es)) newsz) as [Hlt|Hge].
    2:{ apply wp_ret. exists P1, l1, pts, es. split; [done|left]. split; [done|]. lia. }
    assert (vpage base) as Hvb by (unfold vpage; split; [done|lia]).
    assert (base + 4096 * Z.of_nat (length es) < MAXVA) as Hmx by lia.
    assert (length es < n)%nat as Hlen by lia.
    assert (∀ k, (k < length es)%nat → um !! nth_page base k = None) as Hum'.
    { intros k Hk. apply Hum. lia. }
    apply wp_bind. eapply wp_mono; [by apply progress_kalloc|]. intros m s2.
    destruct l1 as [|m' l1].
    { intros [-> ->]. rewrite Z.eqb_refl. apply wp_bind.
      eapply wp_mono; [apply progress_dealloc; [exact Has|exact Hp|exact Hvb|rewrite HP; lia|exact Hum']|].
      intros ? s3 Hp3. apply wp_ret. eexists P1, _, pts, []. split; [apply Hp3|].
      right. split_and!; [done..|].
      destruct (pr_taken _ _ _ _ _ _ _ _ _ _ _ _ _ _ Hp) as [Hl _].
      rewrite Hl, !length_app, length_fmap. simpl. lia. }
    intros (-> & Hm & Hp2). pose proof (ram_page_pos m' Hm).
    destruct (Z.eqb_spec m' 0); [lia|].
    apply wp_bind. eapply wp_mono; [eapply progress_fill; [done..|]|].
    { apply memset_same. }
    intros [] s3 [Hp3 Hm3]. apply wp_bind. rewrite <- HP at 1.
    eapply wp_mono; [eapply progress_map;
      [exact Has|exact Hp3|exact Hvb|lia|by apply Hum|exact (proj1 UPERM_ok)|exact eq_refl
      |exact (proj2 UPERM_ok)|]|].
    { intros i Hi. rewrite Hm3. apply memset_in. unfold range. lia. }
    intros r s4 (P4 & l4 & pts4 & [[-> Hp4]|(-> & -> & Hp4)]); cbn [Z.eqb negb].
    + apply wp_ret. rewrite ?HP, u64_id by (unfold fits; lia). split; [|dlia].
      exists P4, l4, pts4, (leaf_pte m' UPERM :: es). cbn [length].
      split_and!; [lia|lia|done].
    + apply wp_bind. eapply wp_mono; [by apply progress_kfree|]. intros [] s5 Hp5.
      apply wp_bind. eapply wp_mono; [apply progress_dealloc; [exact Has|exact Hp5|exact Hvb|rewrite HP; lia|exact Hum']|].
      intros ? s6 Hp6. apply wp_ret. eexists P4, _, pts4, []. split; [apply Hp6|].
      right. split_and!; [done..|].
      destruct (pr_taken _ _ _ _ _ _ _ _ _ _ _ _ _ _ Hp5) as [Hl _].
      rewrite Hl, !length_app, length_fmap. simpl. lia.
  - exists P, l, [], []. split_and!; [simpl; lia|simpl; lia|by apply progress_nil].
  - rewrite HP. dlia.
Qed.

(** * uvmcopy *)

Lemma valid_flags e : valid e = true → Z.lor (PTE_FLAGS e) PTE_V = PTE_FLAGS e.
Proof.
  unfold valid. change PTE_V with (Z.shiftl 1 0). rewrite PTE_bit_eq by lia. intros He.
  apply Z.bits_inj'. intros i Hi. rewrite Z.lor_spec. change (1 ≪ 0) with 1.
  destruct (decide (i = 0)) as [->|].
  - unfold PTE_FLAGS. by rewrite Z.land_spec, He.
  - rewrite (Z.bits_above_log2 1), orb_false_r by (simpl; lia). done.
Qed.
Lemma PTE_FLAGS_bound e : 0 ≤ PTE_FLAGS e < 1024.
Proof.
  unfold PTE_FLAGS. change 0x3FF with (2 ^ 10 - 1). rewrite land_low by lia.
  by apply Z.mod_pos_bound.
Qed.

(** The parent's entry for its [k]th page. *)
Definition page_entry (um : gmap Z Z) (k : nat) : Z := default 0 (um !! nth_page 0 k).

Lemma others_page P l q x :
  aligned q → q ∉ P → q ∉ l → (∀ p, p ∈ P ∨ p ∈ l → aligned p) → page q x → others P l x.
Proof.
  intros Hq HP Hl Hal Hx. split; intros p Hp.
  - apply (page_disjoint q p); [done|by apply Hal; left|by intros ->|done].
  - apply (page_disjoint q p); [done|by apply Hal; right|by intros ->|done].
Qed.
Lemma aspace_aligned s root P l um p :
  aspace s root P l um → p ∈ P ∨ p ∈ l → aligned p.
Proof.
  intros Has [Hp|Hp]; [by apply (aspace_ram _ _ _ _ _ _ Has)|].
  destruct (aspace_free _ _ _ _ _ Has) as (_ & _ & _ & Hl).
  by destruct (Forall_in _ _ _ Hl Hp).
Qed.

(** The parent's table during the copy. *)
Lemma progress_old s old Po umo root P l um base flags content s1 P1 l1 pts held es :
  aspace s old Po l umo → aspace s root P l um → (∀ p, p ∈ Po → p ∉ P) →
  progress s root P l um base flags content s1 P1 l1 pts held es →
  aspace s1 old Po l1 umo.
Proof.
  intros Hold Hnew Hdis [Has [Hl _] _ _ Hmem]. eapply aspace_other; [done| | |].
  - by eapply aspace_free.
  - intros p Hp Hp1. apply (aspace_disj _ _ _ _ _ _ Hold Hp). rewrite Hl. set_solver.
  - eapply same_on_weaken; [done|]. intros x (p & Hp & Hx).
    apply (others_page _ _ p); [|by apply Hdis| |intros; by eapply (aspace_aligned s root)|done].
    + by apply (aspace_ram _ _ _ _ _ _ Hold).
    + by apply (aspace_disj _ _ _ _ _ _ Hold).
Qed.

Section copy.
Context (s : kmem) (old new : Z) (Po P : gset Z) (l : list Z) (umo um : gmap Z Z).
Context (n : nat).
Context (Hold : aspace s old Po l umo) (Hnew : aspace s new P l um).
Context (Hdis : ∀ p, p ∈ Po → p ∉ P) (Hmax : nth_page 0 n ≤ MAXVA).
Context (Hpages : ∀ k, (k < n)%nat → ∃ e, umo !! nth_page 0 k = Some e ∧
  PTE_FLAGS e ≠ PTE_V ∧ (PTE2PA e ∉ P) ∧ (PTE2PA e ∉ l)).
Context (Hum : ∀ k, (k < n)%nat → um !! nth_page 0 k = None).

(** The child gets the parent's flags and a copy of its bytes. *)
Abbreviation copied := (progress s new P l um 0 (λ k, PTE_FLAGS (page_entry umo k))
  (λ k i, load8 (k_mem s) (PTE2PA (page_entry umo k) + i))).

Lemma copied_page s1 P1 l1 pts held es k i :
  copied s1 P1 l1 pts held es → (k < n)%nat → 0 ≤ i < PGSIZE →
  load8 (k_mem s1) (PTE2PA (page_entry umo k) + i) =
  load8 (k_mem s) (PTE2PA (page_entry umo k) + i).
Proof.
  intros Hp Hk Hi. destruct (Hpages k Hk) as (e & He & _ & HeP & Hel).
  unfold page_entry. rewrite He. cbn. apply (pr_mem _ _ _ _ _ _ _ _ _ _ _ _ _ _ Hp).
  apply (others_page _ _ (PTE2PA e)); [apply PTE2PA_aligned|done|done| |].
  - intros. by eapply (aspace_aligned s new).
  - unfold page, range. lia.
Qed.

Lemma uvmcopy_undo s1 P1 l1 pts es :
  copied s1 P1 l1 pts [] es → (length es < n)%nat →
  (length l ≤ n + length pts)%nat →
  wp (uvmunmap new 0 (nth_page 0 (length es) `div` PGSIZE) true) (λ _ s',
    ∃ P' l' pts', copied s' P' l' pts' [] [] ∧ (length l ≤ n + length pts')%nat) s1.
Proof.
  intros Hp Hlen Hl. assert (PGSIZE = 4096) as HP by done.
  replace (nth_page 0 (length es) `div` PGSIZE) with (Z.of_nat (length es))
    by (rewrite HP; dlia).
  eapply wp_mono; [eapply progress_undo; try done|].
  - rewrite HP in *. lia.
  - intros k Hk. apply Hum. lia.
  - intros [] s2 Hp2. eexists _, _, _. split; [apply Hp2|done].
Qed.

Definition copy_inv (r : Z + Z) (s' : kmem) : Prop :=
  ∃ P' l' pts es, copied s' P' l' pts [] es ∧
  match r with
  | inl a => a = nth_page 0 (length es) ∧ (length es ≤ n)%nat
  | inr r => (r = 0 ∧ length es = n) ∨
             (r = -1 ∧ es = [] ∧ (length l ≤ n + length pts)%nat)
  end.

Definition copy_err (i : Z) : M kmem (Z + Z) :=
  do! uvmunmap new 0 (i `div` PGSIZE) true; ret (inr (-1)).
Lemma copy_err_spec s1 P1 l1 pts es :
  copied s1 P1 l1 pts [] es → (length es < n)%nat →
  (length l ≤ n + length pts)%nat →
  wp (copy_err (nth_page 0 (length es))) (λ r s', ∃ r', r = inr r' ∧ copy_inv r s') s1.
Proof.
  intros Hp Hlen Hl. apply wp_bind. eapply wp_mono; [by eapply uvmcopy_undo|].
  intros [] s2 (P2 & l2 & pts2 & Hp2 & Hl2). apply wp_ret. exists (-1). split; [done|].
  exists P2, l2, pts2, []. split; [done|by right].
Qed.

(** The part of a turn after the parent's entry was read. *)
Lemma uvmcopy_page s1 P1 l1 pts es e :
  let i := nth_page 0 (length es) in
  copied s1 P1 l1 pts [] es → (length es < n)%nat →
  umo !! i = Some e → valid e = true → PTE_FLAGS e ≠ PTE_V →
  wp (let! m := kalloc in
      if m =? 0 then copy_err i
      else
        do! m_memmove m (PTE2PA e) PGSIZE;
        let! r := mappages new i PGSIZE m (PTE_FLAGS e) in
        if negb (r =? 0) then do! kfree m; copy_err i
        else ret (inl (i + PGSIZE)))
    (λ r s', copy_inv r s' ∧ ∀ a, r = inl a → a = i + PGSIZE) s1.
Proof.
  intros i Hp Hlen He Hv Hleaf. assert (PGSIZE = 4096) as HP by done.
  assert (page_entry umo (length es) = e) as Hpe
    by (unfold page_entry; fold i; by rewrite He).
  assert (∀ s2 P2 l2 pts2, copied s2 P2 l2 pts2 [] es →
    (length l ≤ n + length pts2)%nat →
    wp (copy_err i) (λ r s', copy_inv r s' ∧ ∀ a, r = inl a → a = i + PGSIZE) s2) as Herr.
  { intros s2 P2 l2 pts2 Hp2 Hl2. eapply wp_mono; [by eapply copy_err_spec|].
    intros r s3 (r' & -> & Hc). by split. }
  apply wp_bind. eapply wp_mono; [by eapply progress_kalloc|]. intros m s2.
  destruct l1 as [|m' l1].
  { intros [-> ->]. eapply Herr; [done|].
    destruct (pr_taken _ _ _ _ _ _ _ _ _ _ _ _ _ _ Hp) as [Hl _].
    rewrite Hl, !length_app, length_fmap. simpl. lia. }
  intros (-> & Hm & Hp2). pose proof (ram_page_pos m' Hm).
  destruct (Z.eqb_spec m' 0); [lia|].
  apply wp_bind. eapply wp_mono; [eapply progress_fill; [done..|by apply memmove_same]|].
  intros [] s3 [Hp3 Hm3]. apply wp_bind.
  eapply wp_mono; [eapply progress_map;
    [exact Hnew|exact Hp3|done|rewrite HP in *; lia|by apply Hum|apply PTE_FLAGS_bound
    |cbn beta; rewrite Hpe; by apply valid_flags|cbn beta; by rewrite Hpe|]|].
  { intros k Hk. cbn beta. rewrite Hm3, memmove_load8 by done. rewrite decide_True by (unfold range; lia).
    rewrite <- (copied_page _ _ _ _ _ _ _ _ Hp2 Hlen Hk), Hpe. f_equal. lia. }
  intros r s4 (P4 & l4 & pts4 & [[-> Hp4]|(-> & -> & Hp4)]); cbn [Z.eqb negb].
  - apply wp_ret. split; [|by intros a [= <-]]. eexists P4, l4, pts4, _. split; [done|].
    cbn [length]. unfold i. rewrite HP. lia.
  - apply wp_bind. eapply wp_mono; [by eapply progress_kfree|]. intros [] s5 Hp5.
    eapply Herr; [done|]. destruct (pr_taken _ _ _ _ _ _ _ _ _ _ _ _ _ _ Hp5) as [Hl _].
    rewrite Hl, !length_app, length_fmap. simpl. lia.
Qed.

Lemma uvmcopy_loop sz :
  0 ≤ sz → n = Z.to_nat ((sz + PGSIZE - 1) `div` PGSIZE) →
  wp (uvmcopy old new sz) (λ r s', copy_inv (inr r) s') s.
Proof.
  intros Hsz Hn. unfold uvmcopy. assert (PGSIZE = 4096) as HP by done.
  eapply (wp_loop _ (λ a s', copy_inv (inl a) s')
    (λ a _, Z.to_nat ((nth_page 0 n - a) `div` PGSIZE))).
  2:{ exists P, l, [], []. split_and!; [by apply progress_nil|done|simpl; lia]. }
  2:{ rewrite HP in *. dlia. }
  intros a s1 (P1 & l1 & pts & es & Hp & -> & Hes).
  destruct (Z.ltb_spec (nth_page 0 (length es)) sz) as [Hlt|Hge].
  2:{ apply wp_ret. exists P1, l1, pts, es. split; [done|left].
      rewrite HP in *. split; [done|]. dlia. }
  assert (length es < n)%nat as Hlen by (rewrite HP in *; dlia).
  destruct (Hpages _ Hlen) as (e & He & Hleaf & HeP & Hel).
  pose proof (progress_old _ _ _ _ _ _ _ _ _ _ _ _ _ _ _ _ _ Hold Hnew Hdis Hp) as Ho1.
  apply wp_bind. eapply wp_mono; [apply aspace_walk; [done|apply vpage_add; [done|]]|].
  { rewrite HP in *. lia. }
  rewrite He. intros pte s2 [-> [[_ ?]|Hent]]; [done|].
  destruct (entry_lookup _ _ _ _ _ _ _ Hent) as [Hpte Hl]. rewrite He in Hl.
  rewrite (proj2 (Z.eqb_neq _ _) Hpte). unfold ld64. apply wp_bind, wp_gets.
  destruct (valid _) eqn:Hv in Hl; [|done]. simplify_eq.
  pose proof Hv as Hv'. unfold valid in Hv'. bool_facts.
  rewrite (proj2 (Z.eqb_neq _ _) Hv').
  eapply wp_mono; [by eapply uvmcopy_page|]. intros [a|r] s3 [Hc Ha]; [|done].
  split; [done|]. rewrite (Ha a eq_refl). rewrite HP in *. dlia.
Qed.
End copy.
End usermem.
