(* ===== verification/UserCopy.v ===== *)
(** Copying between the kernel and user memory: copyout, copyin and
    copyinstr against the byte-level view a page table gives of user
    memory. *)

From S2P Require Import Prelude Riscv Mem Cstring Kalloc Vm PageTable Mapping UserMem.

(** * User memory *)

(** The physical address of the user byte at [va], if the page is mapped and
    accessible to user code. *)
Definition utrans (um : gmap Z Z) (va : Z) : option Z :=
  match um !! PGROUNDDOWN va with
  | Some e => if truth (Z.land e PTE_U)
              then Some (PTE2PA e + (va - PGROUNDDOWN va)) else None
  | None => None
  end.
Definition uload (m : mem) (um : gmap Z Z) (va : Z) : option Z := load8 m <$> utrans um va.

(** The user bytes from [va] on are [bs]. *)
Definition uread (m : mem) (um : gmap Z Z) (va : Z) (bs : list Z) : Prop :=
  ∀ i b, bs !! i = Some b → uload m um (va + Z.of_nat i) = Some b.

(** [m'] is [m] with [bs] stored in user memory from [va] on. *)
Definition uwrote (m : mem) (um : gmap Z Z) (va : Z) (bs : list Z) (m' : mem) : Prop :=
  uread m' um va bs ∧
  same_on (λ x, ∀ i, (i < length bs)%nat → utrans um (va + Z.of_nat i) ≠ Some x) m m'.

(** User pages have frames of their own: distinct, and neither page-table
    pages nor free. *)
Record user_ok (P : gset Z) (l : list Z) (um : gmap Z Z) : Prop := {
  u_inj : ∀ a b x, utrans um a = Some x → utrans um b = Some x → a = b;
  u_sep : ∀ a x p, utrans um a = Some x → p ∈ P ∨ p ∈ l → ¬ page p x;
  u_pos : ∀ a x, utrans um a = Some x → 0 < x;
}.

Lemma utrans_page um va0 va i pa :
  aligned va0 → utrans um va0 = Some pa → va0 ≤ va → va + i < va0 + PGSIZE → 0 ≤ i →
  utrans um (va + i) = Some (pa + (va - va0) + i).
Proof.
  intros Ha Hu H0 H1 Hi. unfold utrans in *.
  rewrite (PGROUNDDOWN_id va0) in Hu by done.
  assert (PGROUNDDOWN (va + i) = va0) as ->.
  { rewrite PGROUNDDOWN_eq. unfold aligned, PGSIZE in *. dlia. }
  destruct (um !! va0) as [e|]; [|done]. destruct (truth _); [|done].
  simplify_eq. f_equal. lia.
Qed.
Lemma utrans_page_none um va :
  utrans um (PGROUNDDOWN va) = None → utrans um va = None.
Proof.
  unfold utrans. rewrite (PGROUNDDOWN_id (PGROUNDDOWN va)) by apply PGROUNDDOWN_aligned.
  destruct (um !! _); [|done]. by destruct (truth _).
Qed.

Lemma uload_wrote m m' P l um va bs va' :
  user_ok P l um → uwrote m um va bs m' →
  uload m' um va' =
    if decide (va ≤ va' < va + Z.of_nat (length bs))
    then bs !! Z.to_nat (va' - va) else uload m um va'.
Proof.
  intros Hok [Hr Hs]. case_decide as H.
  - destruct (lookup_lt_is_Some_2 bs (Z.to_nat (va' - va))) as [b Hb]; [lia|].
    rewrite Hb, <- (Hr _ _ Hb). f_equal. lia.
  - unfold uload. destruct (utrans um va') as [x|] eqn:Hx; [|done]. simpl. f_equal.
    apply Hs. intros i Hi Hu. pose proof (u_inj _ _ _ Hok _ _ _ Hx Hu). lia.
Qed.

Section usercopy.
Context {L : Linker} {Lok : LinkerOk L}.

(** * walkaddr *)

Lemma walkaddr_spec s root P l um va :
  aspace s root P l um → aligned va → 0 ≤ va →
  wp (walkaddr root va) (λ r s', s' = s ∧ r = default 0 (utrans um va)) s.
Proof.
  intros Has Hal Hva. unfold walkaddr, utrans. rewrite PGROUNDDOWN_id by done.
  rewrite Z.sub_diag. destruct (Z.leb_spec MAXVA va) as [Hge|Hlt].
  { apply wp_ret. split; [done|]. destruct (um !! va) as [e|] eqn:He; [|done].
    destruct (aspace_vpage _ _ _ _ _ _ _ Has He) as [[_ ?] _]. lia. }
  apply wp_bind. eapply wp_mono; [apply aspace_walk; [done|by split]|].
  intros pte s' [-> [[-> ->]|[Hpte ->]%entry_lookup]]; [by apply wp_ret|].
  rewrite (proj2 (Z.eqb_neq _ _) Hpte). unfold ld64. apply wp_bind, wp_gets.
  unfold valid, truth. destruct (Z.eqb_spec (Z.land (load64 (k_mem s) pte) PTE_V) 0); cbn [negb].
  { by apply wp_ret. }
  destruct (Z.eqb_spec (Z.land (load64 (k_mem s) pte) PTE_U) 0); cbn [negb]; apply wp_ret;
    (split; [done|]); [done|]. by rewrite Z.add_0_r.
Qed.

Lemma chunk_spec va len :
  0 < len → let n := chunk va (PGROUNDDOWN va) len in
  0 < n ≤ len ∧ va + n ≤ PGROUNDDOWN va + PGSIZE ∧
  (n = len ∨ va + n = PGROUNDDOWN va + PGSIZE).
Proof.
  intros Hl. unfold chunk. pose proof (PGROUNDDOWN_bounds va). case_cmp; simpl; lia.
Qed.

(** The pages still to visit. *)
Definition visits (va len : Z) : nat :=
  if len <=? 0 then 0 else Z.to_nat ((va `mod` PGSIZE + len - 1) `div` PGSIZE + 1).
Lemma visits_step va va' len n :
  n = chunk va (PGROUNDDOWN va) len → 0 < len →
  (len - n = 0 ∨ va' = PGROUNDDOWN va + PGSIZE) →
  (visits va' (len - n) < visits va len)%nat.
Proof.
  intros Hn Hl Hva'. pose proof (chunk_spec va len Hl) as Hc. cbv zeta in Hc.
  rewrite <- Hn in Hc. revert Hc Hva'. rewrite PGROUNDDOWN_eq. unfold visits, PGSIZE.
  intros Hc Hva'. destruct (Z.leb_spec (len - n) 0), (Z.leb_spec len 0); try lia.
  - dlia.
  - destruct Hva' as [?| ->]; [lia|]. dlia.
Qed.
Lemma visits_bound va len : 0 ≤ len → (visits va len < Z.to_nat (len `div` PGSIZE) + 3)%nat.
Proof. intros H. unfold visits, PGSIZE. case_cmp; dlia. Qed.

(** One page's worth of a copy: the bytes of the chunk are contiguous in
    the frame. *)
Lemma chunk_trans um va len pa :
  0 < len → utrans um (PGROUNDDOWN va) = Some pa →
  ∀ i, 0 ≤ i < chunk va (PGROUNDDOWN va) len →
    utrans um (va + i) = Some (pa + (va - PGROUNDDOWN va) + i).
Proof.
  intros Hl Hu i Hi. pose proof (chunk_spec va len Hl) as Hc. cbv zeta in Hc.
  pose proof (PGROUNDDOWN_bounds va).
  apply utrans_page; [apply PGROUNDDOWN_aligned|done|lia|lia|lia].
Qed.

Lemma uread_chunk m um va len pa n :
  0 < len → utrans um (PGROUNDDOWN va) = Some pa →
  n = chunk va (PGROUNDDOWN va) len →
  uread m um va (load_bytes m (pa + (va - PGROUNDDOWN va)) (Z.to_nat n)).
Proof.
  intros Hl Hu -> i b Hb. pose proof (lookup_lt_Some _ _ _ Hb) as Hlt.
  rewrite length_load_bytes in Hlt. rewrite load_bytes_lookup in Hb by done.
  unfold uload. rewrite (chunk_trans um va len pa) by (done || lia). by simplify_eq/=.
Qed.
Lemma uread_app m um va bs bs' :
  uread m um va bs → uread m um (va + Z.of_nat (length bs)) bs' → uread m um va (bs ++ bs').
Proof.
  intros H1 H2 i b. rewrite lookup_app_Some. intros [Hb|[Hi Hb]]; [by apply H1|].
  rewrite <- (H2 _ _ Hb). f_equal. lia.
Qed.

Lemma uwrote_nil m um va : uwrote m um va [] m.
Proof. split; [by intros i b|done]. Qed.

Lemma uwrote_chunk m um va len pa bs :
  0 < len → bytes bs → utrans um (PGROUNDDOWN va) = Some pa →
  Z.of_nat (length bs) = chunk va (PGROUNDDOWN va) len →
  uwrote m um va bs (store_bytes m (pa + (va - PGROUNDDOWN va)) bs).
Proof.
  intros Hl Hbs Hu Hn. split.
  - intros i b Hb. pose proof (lookup_lt_Some _ _ _ Hb) as Hlt. unfold uload.
    rewrite (chunk_trans um va len pa) by (done || lia). simpl. f_equal.
    rewrite (load8_store_bytes_in _ _ _ _ _ Hb). apply u8_id.
    eapply Forall_in; [done|]. by eapply list_elem_of_lookup_2.
  - intros x Hx. apply load8_store_bytes_out. intros Hr. unfold range in Hr.
    apply (Hx (Z.to_nat (x - (pa + (va - PGROUNDDOWN va))))); [lia|].
    rewrite (chunk_trans um va len pa) by (done || lia). f_equal. lia.
Qed.
Lemma uwrote_app P l m m1 m2 um va bs bs' :
  user_ok P l um → uwrote m um va bs m1 →
  uwrote m1 um (va + Z.of_nat (length bs)) bs' m2 → uwrote m um va (bs ++ bs') m2.
Proof.
  intros Hok [Hr1 Hs1] H2. destruct (id H2) as [Hr2 Hs2]. split.
  - apply uread_app; [|done]. intros i b Hb. rewrite (uload_wrote _ _ _ _ _ _ _ _ Hok H2).
    pose proof (lookup_lt_Some _ _ _ Hb). rewrite decide_False by lia. by apply Hr1.
  - intros x Hx. rewrite length_app in Hx. rewrite Hs2, Hs1; [done| |].
    + intros i Hi. apply Hx. lia.
    + intros i Hi. replace (va + Z.of_nat (length bs) + Z.of_nat i)
        with (va + Z.of_nat (length bs + i)) by lia. apply Hx. lia.
Qed.
Lemma uwrote_same P l m um va bs m' :
  user_ok P l um → uwrote m um va bs m' →
  same_on (λ x, ∃ p, (p ∈ P ∨ p ∈ l) ∧ page p x) m m'.
Proof.
  intros Hok [_ Hs]. eapply same_on_weaken; [done|]. intros x (p & Hp & Hx) i _ Hu.
  by apply (u_sep _ _ _ Hok _ _ _ Hu Hp).
Qed.

(** The address of the next page does not wrap around. *)
Lemma next_page s root P l um va pa :
  aspace s root P l um → fits 64 va → utrans um (PGROUNDDOWN va) = Some pa →
  u64 (PGROUNDDOWN va + PGSIZE) = PGROUNDDOWN va + PGSIZE.
Proof.
  intros Has Hf. unfold utrans. rewrite PGROUNDDOWN_id by apply PGROUNDDOWN_aligned.
  destruct (um !! _) eqn:He; [|done]. intros _.
  destruct (aspace_vpage _ _ _ _ _ _ _ Has He) as [[_ Hmx] _].
  apply u64_id. pose proof (PGROUNDDOWN_bounds va). change MAXVA with 274877906944 in Hmx.
  unfold fits, PGSIZE in *. lia.
Qed.
Lemma PGROUNDDOWN_nonneg va : fits 64 va → 0 ≤ PGROUNDDOWN va.
Proof. unfold fits. rewrite PGROUNDDOWN_eq. unfold PGSIZE. intros. dlia. Qed.

(** * copyout *)

(** How far a copy of [len] bytes from [va] on got. *)
Definition stopped (um : gmap Z Z) (va len r : Z) (k : nat) : Prop :=
  (r = 0 ∧ Z.of_nat k = len) ∨
  (r = -1 ∧ Z.of_nat k < len ∧ utrans um (va + Z.of_nat k) = None).

Lemma copyout_spec s root P l um dstva src :
  aspace s root P l um → user_ok P l um → fits 64 dstva → bytes src →
  wp (copyout root dstva src (Z.of_nat (length src))) (λ r s', ∃ k,
    stopped um dstva (Z.of_nat (length src)) r k ∧ aspace s' root P l um ∧
    uwrote (k_mem s) um dstva (take k src) (k_mem s')) s.
Proof.
  intros Has Hok Hva Hsrc. unfold copyout.
  eapply (wp_loop _ (λ '(va, src', len) s', ∃ k, src' = drop k src ∧
      (k ≤ length src)%nat ∧ len = Z.of_nat (length src - k) ∧ fits 64 va ∧
      (len = 0 ∨ va = dstva + Z.of_nat k) ∧ aspace s' root P l um ∧
      uwrote (k_mem s) um dstva (take k src) (k_mem s'))
    (λ '(va, _, len) _, visits va len)).
  2:{ exists 0%nat. rewrite Nat.sub_0_r, take_0, drop_0.
      split_and!; try done; [lia|right; lia]. }
  2:{ apply visits_bound. lia. }
  intros [[va src'] len] s1 (k & -> & Hk & -> & Hf & Hva1 & Has1 & Hw).
  destruct (Z.ltb_spec 0 (Z.of_nat (length src - k))) as [Hpos|Hz].
  2:{ apply wp_ret. exists k. split; [left; lia|done]. }
  destruct Hva1 as [?| ->]; [lia|]. set (va := dstva + Z.of_nat k) in *.
  set (len := Z.of_nat (length src - k)) in *.
  apply wp_bind. eapply wp_mono.
  { by eapply walkaddr_spec; [|apply PGROUNDDOWN_aligned|apply PGROUNDDOWN_nonneg]. }
  intros pa s2 [-> ->]. destruct (utrans um (PGROUNDDOWN va)) as [pa|] eqn:Hu; cbn [default from_option id Z.eqb].
  2:{ apply wp_ret. exists k. split; [right|done].
      split_and!; [done|lia|by apply utrans_page_none]. }
  pose proof (u_pos _ _ _ Hok _ _ Hu). destruct (Z.eqb_spec pa 0) as [|_]; [lia|].
  pose proof (chunk_spec va len Hpos) as Hc. cbv zeta in Hc.
  set (n := chunk va (PGROUNDDOWN va) len) in *.
  pose proof (next_page _ _ _ _ _ _ _ Has1 Hf Hu) as Hu64.
  wp_steps. rewrite Hu64.
  assert (uwrote (k_mem s1) um va (take (Z.to_nat n) (drop k src))
    (store_bytes (k_mem s1) (pa + (va - PGROUNDDOWN va)) (take (Z.to_nat n) (drop k src)))) as Hw'.
  { apply (uwrote_chunk _ _ _ len); [done| |done|].
    - by apply Forall_take, Forall_drop.
    - rewrite length_take, length_drop. fold n. lia. }
  split; [|by apply visits_step; [|done|lia]].
  exists (k + Z.to_nat n)%nat. rewrite drop_drop. split_and!; [done|lia|lia| |lia| |].
  - rewrite <- Hu64. apply u64_fits.
  - apply aspace_frame; [done|]. by eapply uwrote_same.
  - rewrite <- take_take_drop. eapply uwrote_app; [done|done|].
    rewrite length_take, Nat.min_l by lia. done.
Qed.

(** * copyin *)

Lemma copyin_spec s root P l um srcva len :
  aspace s root P l um → user_ok P l um → fits 64 srcva → 0 ≤ len →
  wp (copyin root srcva len) (λ '(r, dst) s', s' = s ∧
    stopped um srcva len r (length dst) ∧ uread (k_mem s) um srcva dst) s.
Proof.
  intros Has Hok Hva Hlen. unfold copyin.
  eapply (wp_loop _ (λ '(dst, va, len') s', s' = s ∧ fits 64 va ∧
      Z.of_nat (length dst) + len' = len ∧ 0 ≤ len' ∧
      (len' = 0 ∨ va = srcva + Z.of_nat (length dst)) ∧ uread (k_mem s) um srcva dst)
    (λ '(_, va, len') _, visits va len')).
  2:{ split_and!; try done; right; cbn; lia. }
  2:{ by apply visits_bound. }
  intros [[dst va] len'] s1 (-> & Hf & Hsum & Hpos' & Hva1 & Hr).
  destruct (Z.ltb_spec 0 len') as [Hpos|Hz].
  2:{ apply wp_ret. split_and!; [done|left; lia|done]. }
  destruct Hva1 as [?| ->]; [lia|]. set (va := srcva + Z.of_nat (length dst)) in *.
  apply wp_bind. eapply wp_mono.
  { by eapply walkaddr_spec; [|apply PGROUNDDOWN_aligned|apply PGROUNDDOWN_nonneg]. }
  intros pa s2 [-> ->]. destruct (utrans um (PGROUNDDOWN va)) as [pa|] eqn:Hu; cbn [default from_option id Z.eqb].
  2:{ apply wp_ret. split_and!; [done| |done]. right.
      split_and!; [done|lia|by apply utrans_page_none]. }
  pose proof (u_pos _ _ _ Hok _ _ Hu). destruct (Z.eqb_spec pa 0) as [|_]; [lia|].
  pose proof (chunk_spec va len' Hpos) as Hc. cbv zeta in Hc.
  pose proof (uread_chunk (k_mem s) um va len' pa _ Hpos Hu eq_refl) as Hch.
  set (n := chunk va (PGROUNDDOWN va) len') in *.
  pose proof (next_page _ _ _ _ _ _ _ Has Hf Hu) as Hu64.
  wp_steps. rewrite Hu64, length_app, length_load_bytes.
  split; [|by apply visits_step; [|done|lia]].
  split_and!; [done| |lia|lia|lia|by apply uread_app].
  rewrite <- Hu64. apply u64_fits.
Qed.

(** * copyinstr *)

Lemma uread_prefix m um va p n k :
  uread m um va (load_bytes m p n) → (k ≤ n)%nat → uread m um va (load_bytes m p k).
Proof.
  intros H Hk i b Hb. pose proof (lookup_lt_Some _ _ _ Hb) as Hlt.
  rewrite length_load_bytes in Hlt. apply H.
  rewrite load_bytes_lookup in Hb |- * by lia. done.
Qed.

Lemma copystr_spec m p n bs got :
  copystr m p n = (bs, got) →
  ∃ cs, Forall (λ b, b ≠ 0) cs ∧ load_bytes m p (length bs) = bs ∧
    (if got then bs = cs ++ [0] ∧ (length cs < n)%nat else bs = cs ∧ length cs = n).
Proof.
  revert p bs got. induction n as [|n IH]; intros p bs got; simpl.
  { intros [= <- <-]. by exists []. }
  destruct (Z.eqb_spec (load8 m p) 0) as [H0|H0].
  { intros [= <- <-]. exists []. split_and!; [done|by simpl; rewrite H0|done|simpl; lia]. }
  destruct (copystr m (p + 1) n) as [bs' got'] eqn:Hc. intros [= <- <-].
  destruct (IH _ _ _ Hc) as (cs & Hcs & Hl & Hg). exists (load8 m p :: cs).
  split_and!; [by constructor|simpl; by rewrite Hl|].
  destruct got'; destruct Hg as [-> Hn]; (split; [done|simpl; lia]).
Qed.

(** What was fetched is a NUL-terminated string, [max] bytes without a
    NUL, or stopped short at an unmapped page. *)
Definition fetched (um : gmap Z Z) (va max r : Z) (dst : list Z) : Prop :=
  ∃ cs, Forall (λ b, b ≠ 0) cs ∧
    ((r = 0 ∧ dst = cs ++ [0] ∧ Z.of_nat (length cs) < max) ∨
     (r = -1 ∧ dst = cs ∧ Z.of_nat (length cs) = max) ∨
     (r = -1 ∧ dst = cs ∧ Z.of_nat (length cs) < max ∧
      utrans um (va + Z.of_nat (length cs)) = None)).

Lemma copyinstr_spec s root P l um srcva max :
  aspace s root P l um → user_ok P l um → fits 64 srcva → 0 ≤ max →
  wp (copyinstr root srcva max) (λ '(r, dst) s', s' = s ∧
    fetched um srcva max r dst ∧ uread (k_mem s) um srcva dst) s.
Proof.
  intros Has Hok Hva Hmax. unfold copyinstr.
  eapply (wp_loop _ (λ '(dst, va, max', got) s', s' = s ∧ fits 64 va ∧
      uread (k_mem s) um srcva dst ∧
      if got : bool then fetched um srcva max 0 dst
      else Forall (λ b, b ≠ 0) dst ∧ Z.of_nat (length dst) + max' = max ∧ 0 ≤ max' ∧
           (max' = 0 ∨ va = srcva + Z.of_nat (length dst)))
    (λ '(_, va, max', got) _, if got : bool then 0%nat else visits va max')).
  2:{ split_and!; try done; right; cbn; lia. }
  2:{ by apply visits_bound. }
  intros [[[dst va] max'] got] s1 (-> & Hf & Hr & Hg). destruct got; cbn [negb andb].
  { by apply wp_ret. }
  destruct Hg as (Hnz & Hsum & Hpos' & Hva1).
  destruct (Z.ltb_spec 0 max') as [Hpos|Hz].
  2:{ apply wp_ret. split_and!; [done| |done]. exists dst. split; [done|right; left].
      split_and!; [done..|lia]. }
  destruct Hva1 as [?| ->]; [lia|]. set (va := srcva + Z.of_nat (length dst)) in *.
  apply wp_bind. eapply wp_mono.
  { by eapply walkaddr_spec; [|apply PGROUNDDOWN_aligned|apply PGROUNDDOWN_nonneg]. }
  intros pa s2 [-> ->]. destruct (utrans um (PGROUNDDOWN va)) as [pa|] eqn:Hu; cbn [default from_option id Z.eqb].
  2:{ apply wp_ret. split_and!; [done| |done]. exists dst. split; [done|right; right].
      split_and!; [done|done|lia|by apply utrans_page_none]. }
  pose proof (u_pos _ _ _ Hok _ _ Hu). destruct (Z.eqb_spec pa 0) as [|_]; [lia|].
  pose proof (chunk_spec va max' Hpos) as Hc. cbv zeta in Hc.
  pose proof (uread_chunk (k_mem s) um va max' pa _ Hpos Hu eq_refl) as Hch.
  set (n := chunk va (PGROUNDDOWN va) max') in *.
  pose proof (next_page _ _ _ _ _ _ _ Has Hf Hu) as Hu64.
  wp_steps. destruct (copystr _ _ _) as [bs got] eqn:Hcs.
  destruct (copystr_spec _ _ _ _ _ Hcs) as (cs & Hcsnz & Hbs & Hgot). apply wp_ret.
  assert (length bs ≤ Z.to_nat n)%nat as Hbl.
  { destruct got; destruct Hgot as [-> ?]; rewrite ?length_app; simpl; lia. }
  apply (uread_prefix _ _ _ _ _ (length bs)) in Hch; [|done]. rewrite Hbs in Hch.
  assert (uread (k_mem s) um srcva (dst ++ bs)) as Hr' by (by apply uread_app).
  rewrite Hu64. assert (fits 64 (PGROUNDDOWN va + PGSIZE)) by (rewrite <- Hu64; apply u64_fits).
  destruct got; destruct Hgot as [-> Hlt]; cbn [b2z].
  - split; [split_and!; try done|].
    + exists (dst ++ cs). split; [by apply Forall_app_2|left].
      rewrite length_app, app_assoc. split_and!; [done..|lia].
    + unfold visits. case_cmp; [lia|]. unfold PGSIZE. dlia.
  - rewrite Z.sub_0_r, Hlt, Z2Nat.id by lia.
    split; [|by apply visits_step; [|done|lia]]. rewrite length_app.
    split_and!; try done; [by apply Forall_app_2|lia|lia|lia].
Qed.
End usercopy.
