(* ===== verification/UserFree.v ===== *)
(** Creating and freeing address spaces: uvmcreate gives an empty map;
    freewalk and uvmfree give every page of the table back to the
    allocator. *)

From S2P Require Import Prelude Riscv Mem Cstring Kalloc Vm PageTable Mapping UserMem.

Lemma NoDup_concat {A} (cs : list (list A)) :
  (∀ j c, cs !! j = Some c → NoDup c) →
  (∀ j j' c c' x, cs !! j = Some c → cs !! j' = Some c' → x ∈ c → x ∈ c' → j = j') →
  NoDup (concat cs).
Proof.
  induction cs as [|c cs IH]; intros Hnd Hdis; simpl; [constructor|].
  apply list.NoDup_app. split_and!.
  - by apply (Hnd 0%nat).
  - intros x Hx Hx'. rewrite list_elem_of_In, in_concat in Hx'.
    destruct Hx' as (c' & Hc' & Hx'). apply list_elem_of_In in Hc', Hx'.
    apply list_elem_of_lookup in Hc' as [j Hj].
    by pose proof (Hdis 0%nat (S j) c c' x eq_refl Hj Hx Hx').
  - apply IH.
    + intros j d Hd. by apply (Hnd (S j)).
    + intros j j' d d' x Hd Hd' Hx Hx'. by pose proof (Hdis (S j) (S j') _ _ _ Hd Hd' Hx Hx'); lia.
Qed.
Lemma elem_of_concat {A} (cs : list (list A)) x :
  x ∈ concat cs ↔ ∃ j c, cs !! j = Some c ∧ x ∈ c.
Proof.
  rewrite list_elem_of_In, in_concat. split.
  - intros (c & Hc & Hx). apply list_elem_of_In in Hc, Hx.
    apply list_elem_of_lookup in Hc as [j Hj]. eauto.
  - intros (j & c & Hj & Hx). exists c. split; apply list_elem_of_In; [|done].
    by eapply list_elem_of_lookup_2.
Qed.
Lemma list_choice {A} (R : nat → A → Prop) n :
  (∀ j, (j < n)%nat → ∃ c, R j c) →
  ∃ cs, length cs = n ∧ ∀ j c, cs !! j = Some c → R j c.
Proof.
  induction n as [|n IH]; intros H; [by exists []|].
  destruct IH as (cs & Hl & Hcs); [intros; apply H; lia|]. destruct (H n) as [c Hc]; [lia|].
  exists (cs ++ [c]). rewrite length_app. split; [simpl; lia|]. intros j d.
  rewrite lookup_app_Some. intros [Hj|[Hj Hd]]; [by apply Hcs|].
  apply list_lookup_singleton_Some in Hd as [? <-]. by replace j with n by lia.
Qed.

Section userfree.
Context {L : Linker} {Lok : LinkerOk L}.

(** * uvmcreate *)

Lemma uvmcreate_spec s l :
  free_list s l →
  wp uvmcreate (λ r s', match l with
    | [] => r = 0 ∧ s' = s
    | p :: l' => r = p ∧ aspace s' p {[p]} l' ∅ ∧
                 same_on (λ x, ¬ page p x) (k_mem s) (k_mem s')
    end) s.
Proof.
  intros Hfl. unfold uvmcreate. apply wp_bind. eapply wp_mono; [by apply kalloc_spec|].
  intros r s'. destruct l as [|p l]; [intros [-> ->]; by apply wp_ret|].
  intros (-> & Hfl' & _ & Hs). destruct Hfl as (_ & _ & Hnd & Hram).
  apply list.NoDup_cons in Hnd as [Hpl Hnd]. apply list.Forall_cons in Hram as [Hp Hram].
  pose proof (ram_page_pos p Hp). destruct (Z.eqb_spec p 0); [lia|].
  unfold m_memset. wp_steps. simpl.
  split_and!; [done| |].
  - apply empty_space; simpl; [|done|done|].
    + apply free_list_frame; [|done]. intros q Hq x Hx. apply memset_out.
      apply (page_disjoint q p); [|apply Hp|by intros ->|done].
      by apply (Forall_in _ _ _ Hram Hq).
    + intros j Hj. apply memset_zero_load64; unfold PGSIZE; lia.
  - intros x Hx. rewrite memset_out by done. by apply Hs.
Qed.

(** * Subtrees without leaves *)

(** [pages] are the page-table pages below and with [p], and no entry is a
    leaf. *)
Fixpoint leafless (level : nat) (m : mem) (p : Z) (pages : list Z) : Prop :=
  ∃ cs : list (list Z), length cs = 512%nat ∧ pages ≡ₚ p :: concat cs ∧
    ∀ j c, cs !! j = Some c →
      let e := load64 m (p + 8 * Z.of_nat j) in
      (c = [] ∧ valid e = false) ∨
      match level with
      | O => False
      | S level' => ∃ q, e = ptr_pte q ∧ ram_page q ∧ leafless level' m q c
      end.

Lemma leafless_frame level m m' p pages :
  leafless level m p pages →
  same_on (λ x, ∃ q, q ∈ pages ∧ page q x) m m' → leafless level m' p pages.
Proof.
  revert p pages. induction level as [|level IH]; intros p pages (cs & Hlen & Hp & Hcs) Hs;
    exists cs; (split_and!; [done..|]); intros j c Hj;
    pose proof (lookup_lt_Some _ _ _ Hj);
    (assert (load64 m' (p + 8 * Z.of_nat j) = load64 m (p + 8 * Z.of_nat j)) as ->;
      [apply load64_ext; eapply same_on_weaken; [done|]; intros x Hx; exists p;
       rewrite Hp; split; [by left|]; eapply entry_in_page; [|done]; lia|]).
  - by apply Hcs.
  - destruct (Hcs j c Hj) as [?|(q & He & Hq & Hll)]; [by left|right].
    exists q. split_and!; [done..|]. apply IH; [done|]. eapply same_on_weaken; [done|].
    intros x (r & Hr & Hx). exists r. split; [|done]. rewrite Hp. right.
    apply elem_of_concat. eauto.
Qed.

(** * freewalk *)

Definition freed (pages l : list Z) (s s' : kmem) : Prop :=
  ∃ l', l' ≡ₚ pages ++ l ∧ free_list s' l' ∧
    same_on (λ x, ∀ q, q ∈ pages → ¬ page q x) (k_mem s) (k_mem s').

(** The state after entries [0..k) of [p] were visited. *)
Definition visited (p : Z) (cs : list (list Z)) (l : list Z) (s : kmem)
    (k : nat) (s' : kmem) : Prop :=
  ∃ l', l' ≡ₚ concat (take k cs) ++ l ∧ free_list s' l' ∧
    same_on (λ x, (∀ q, q ∈ concat (take k cs) → ¬ page q x) ∧
                  ¬ range p (8 * Z.of_nat k) x) (k_mem s) (k_mem s').

Lemma visited_skip p cs l s k s' :
  cs !! k = Some [] → visited p cs l s k s' → visited p cs l s (S k) s'.
Proof.
  intros Hk (l' & Hl & Hfl & Hs). exists l'.
  rewrite (take_S_r _ _ _ Hk), concat_app. cbn [concat app]. rewrite app_nil_r.
  split_and!; [done..|]. eapply same_on_weaken; [done|]. intros x [? Hx].
  split; [done|]. unfold range in *. lia.
Qed.

Lemma visited_child p cs l s k s1 l1 s2 c :
  cs !! k = Some c → (k < 512)%nat → ram_page p → p ∉ l → p ∉ concat cs →
  l1 ≡ₚ concat (take k cs) ++ l →
  same_on (λ x, (∀ q, q ∈ concat (take k cs) → ¬ page q x) ∧
                ¬ range p (8 * Z.of_nat k) x) (k_mem s) (k_mem s1) →
  freed c l1 s1 s2 →
  wp (st64 (p + 8 * Z.of_nat k) 0) (λ _ s', visited p cs l s (S k) s') s2.
Proof.
  intros Hk Hlt Hp Hpl Hpc Hl1 Hs (l2 & Hl2 & Hfl2 & Hs2).
  assert (concat (take (S k) cs) = concat (take k cs) ++ c) as Hcat.
  { rewrite (take_S_r _ _ _ Hk), concat_app. simpl. by rewrite app_nil_r. }
  assert (∀ q, q ∈ concat (take (S k) cs) → q ∈ concat cs) as Hsub.
  { intros q. rewrite <- (take_drop (S k) cs) at 2. rewrite concat_app. set_solver. }
  unfold st64. apply wp_modify. exists l2. rewrite Hcat. split_and!.
  - rewrite Hl2, Hl1. solve_Permutation.
  - apply free_list_frame; [|done]. intros q Hq x Hx. apply store64_same.
    intros Hx'%entry_in_page; [|lia]. revert Hx'.
    apply (page_disjoint q p); [|apply Hp| |done].
    + destruct Hfl2 as (_ & _ & _ & Hr). by apply (Forall_in _ _ _ Hr Hq).
    + intros ->. rewrite Hl2, Hl1 in Hq. rewrite Hcat in Hsub. set_solver.
  - intros x [Hx Hr]. simpl. rewrite (store64_same _ _ _ x) by (unfold range in *; lia).
    rewrite Hs2 by set_solver. apply Hs. split; [set_solver|]. unfold range in *. lia.
Qed.

Lemma children_split (cs : list (list Z)) l k c :
  cs !! k = Some c → NoDup (concat cs ++ l) →
  NoDup (c ++ concat (take k cs) ++ l) ∧ ∀ q, q ∈ c → q ∉ concat (take k cs).
Proof.
  intros Hk Hnd. rewrite <- (take_drop k cs), (drop_S _ _ _ Hk), concat_app in Hnd.
  cbn [concat] in Hnd.
  assert ((concat (take k cs) ++ c ++ concat (drop (S k) cs)) ++ l ≡ₚ
    (c ++ concat (take k cs) ++ l) ++ concat (drop (S k) cs)) as Hperm by solve_Permutation.
  rewrite Hperm in Hnd. apply list.NoDup_app in Hnd as (Hnd & _). split; [done|].
  apply list.NoDup_app in Hnd as (_ & Hd & _). set_solver.
Qed.

Lemma freewalk_spec level s p pages l :
  leafless level (k_mem s) p pages → free_list s l → NoDup (pages ++ l) →
  Forall ram_page pages →
  wp (freewalk (S level) p) (λ _ s', freed pages l s s') s.
Proof.
  revert s p pages l. induction level as [level IH] using lt_wf_ind.
  intros s p pages l Hll Hfl Hnd Hram.
  assert (∃ cs : list (list Z), length cs = 512%nat ∧ pages ≡ₚ p :: concat cs ∧
    ∀ j c, cs !! j = Some c →
      let e := load64 (k_mem s) (p + 8 * Z.of_nat j) in
      (c = [] ∧ valid e = false) ∨
      (∃ lv q, level = S lv ∧ e = ptr_pte q ∧ ram_page q ∧ leafless lv (k_mem s) q c))
    as (cs & Hlen & Hp & Hcs).
  { destruct level as [|lv]; destruct Hll as (cs & ? & ? & Hcs); exists cs;
      (split_and!; [done..|]); intros j c Hj; destruct (Hcs j c Hj) as [?|Hc];
      [by left|done|by left|right; naive_solver]. }
  clear Hll. rewrite Hp in Hnd, Hram. apply list.Forall_cons in Hram as [Hpr Hram].
  apply list.NoDup_cons in Hnd as [Hpn Hnd]. rewrite not_elem_of_app in Hpn.
  destruct Hpn as [Hpc Hpl]. cbn [freewalk]. apply wp_bind.
  eapply (wp_mono _ (λ _ s', visited p cs l s 512 s')).
  2:{ intros [] s1 (l1 & Hl1 & Hfl1 & Hs1). rewrite take_ge in Hl1, Hs1 by lia.
      eapply wp_mono; [apply (kfree_spec s1 l1); [done..|]|].
      { rewrite Hl1, not_elem_of_app. done. }
      intros [] s2 [Hfl2 Hs2]. exists (p :: l1). split_and!; [|done|].
      - rewrite Hl1, Hp. done.
      - intros x Hx'. assert (∀ q, q ∈ p :: concat cs → ¬ page q x) as Hx.
        { intros q Hq. apply Hx'. by rewrite Hp. }
        assert (¬ page p x) as Hpx by (apply Hx; by left).
        rewrite Hs2 by done. apply Hs1. split; [intros q Hq; apply Hx; by right|].
        revert Hpx. unfold page, range, PGSIZE. lia. }
  eapply (wp_loop _ (λ i s', ∃ k, i = Z.of_nat k ∧ (k ≤ 512)%nat ∧ visited p cs l s k s')
    (λ i _, Z.to_nat (512 - i))).
  2:{ exists 0%nat. split_and!; [done|lia|]. exists l. by split_and!. }
  2:{ lia. }
  intros i s1 (k & -> & Hk & Hv).
  destruct (Z.ltb_spec (Z.of_nat k) 512).
  2:{ apply wp_ret. by replace 512%nat with k by lia. }
  destruct (lookup_lt_is_Some_2 cs k) as [c Hc]; [lia|].
  assert (load64 (k_mem s1) (p + 8 * Z.of_nat k) = load64 (k_mem s) (p + 8 * Z.of_nat k)) as He.
  { destruct Hv as (l1 & _ & _ & Hs). apply load64_ext. eapply same_on_weaken; [done|].
    intros x Hx. split; [|unfold range in *; lia]. intros q Hq.
    assert (q ∈ concat cs) as Hqc.
    { rewrite <- (take_drop k cs), concat_app. apply elem_of_app. by left. }
    apply (page_disjoint p q); [apply Hpr| |by intros ->|].
    - by apply (Forall_in _ _ _ Hram Hqc).
    - eapply entry_in_page; [|done]. lia. }
  assert ((k < 512)%nat) by lia.
  unfold ld64. apply wp_bind, wp_gets. rewrite He.
  destruct (Hcs k c Hc) as [[-> Hinv]|(lv & q & -> & Heq & Hq & Hllc)].
  - unfold valid in Hinv. rewrite Hinv. cbn [andb]. apply wp_ret.
    split; [|lia]. exists (S k). split_and!; [lia|lia|]. by apply visited_skip.
  - rewrite Heq. destruct (ptr_pte_spec q Hq) as (_ & -> & -> & ->).
    cbn [andb Z.eqb]. destruct Hv as (l1 & Hl1 & Hfl1 & Hs1).
    destruct (children_split cs l k c Hc Hnd) as [Hndc Hdis].
    assert (∀ r, r ∈ c → r ∈ concat cs) as Hcc by (intros r Hr; apply elem_of_concat; eauto).
    assert (Forall ram_page c) as Hramc.
    { apply list.Forall_forall. intros r Hr. eapply Forall_in; [done|by apply Hcc]. }
    apply wp_bind. eapply wp_mono; [apply (IH lv ltac:(lia) s1 q c l1); [|done| |done]|].
    + eapply leafless_frame; [done|]. eapply same_on_weaken; [done|].
      intros x (r & Hr & Hx). destruct (Forall_in _ _ _ Hramc Hr) as [Hra _]. split.
      * intros q' Hq'. apply (page_disjoint r q'); [done| |by intros ->; apply (Hdis q')|done].
        apply (Forall_in _ _ _ Hram). rewrite <- (take_drop k cs), concat_app.
        apply elem_of_app. by left.
      * intros Hrg. apply (page_disjoint r p x); [done|apply Hpr| |done|].
        -- intros ->. by apply Hpc, Hcc.
        -- revert Hrg. unfold page, range, PGSIZE. lia.
    + rewrite Hl1. done.
    + intros [] s2 Hfreed. apply wp_bind. eapply wp_mono; [by eapply visited_child|].
      intros [] s3 Hv3. apply wp_ret. split; [|lia]. exists (S k). split_and!; [lia|lia|done].
Qed.

(** * A table without mappings is such a tree *)

(** The position of the ancestor [d] levels up. *)
Definition up (d i : Z) : Z := i `div` 512 ^ d.
Lemma up_0 i : up 0 i = i.
Proof. unfold up. apply Z.div_1_r. Qed.
Lemma up_succ d i : 0 ≤ d → up (d + 1) i = up d i `div` 512.
Proof.
  intros Hd. unfold up. rewrite Z.pow_add_r, Z.div_div by lia. done.
Qed.

Lemma pt_ancestor m root t (d : nat) l i p :
  pt_ok m root t → t !! (l, i) = Some p → l + Z.of_nat d ≤ 2 →
  is_Some (t !! (l + Z.of_nat d, up (Z.of_nat d) i)).
Proof.
  intros Hok Hp. induction d as [|d IH]; intros Hd.
  { rewrite up_0, Z.add_0_r. eauto. }
  destruct IH as [q Hq]; [lia|]. rewrite Nat2Z.inj_succ, <- Z.add_1_r, up_succ by lia.
  rewrite Z.add_assoc. eapply pt_parent; [done..|lia].
Qed.

Lemma leaf_entry_va m root t i p j :
  pt_ok m root t → t !! (0, i) = Some p → 0 ≤ j < 512 →
  ∃ va, vpage va ∧ pte_at m t va = load64 m (p + 8 * j).
Proof.
  intros Hok Hp Hj. destruct (pt_range _ _ _ Hok _ _ _ Hp) as [Hi0 Hi].
  change (2 ^ (21 + 9 * 0)) with 2097152 in Hi. change MAXVA with 274877906944 in Hi.
  exists (i * 2097152 + j * 4096). unfold vpage, aligned, pte_at, slot, PGSIZE.
  rewrite nidx0_eq, PX0_eq. change MAXVA with 274877906944.
  replace ((i * 2097152 + j * 4096) `div` 2097152) with i by dlia. rewrite Hp. simpl.
  split; [split; dlia|]. do 2 f_equal. dlia.
Qed.

Definition below (t : ptree) (level i q : Z) : Prop :=
  ∃ l' i', t !! (l', i') = Some q ∧ l' ≤ level ∧ up (level - l') i' = i.

Lemma below_none m root t level i q :
  pt_ok m root t → t !! (level, i) = None → level ≤ 2 → ¬ below t level i q.
Proof.
  intros Hok Hnone Hl (l' & i' & Hq & Hl' & Hup).
  destruct (pt_ancestor m root t (Z.to_nat (level - l')) l' i' q) as [? Ha]; [done|done|lia|].
  rewrite Z2Nat.id in Ha by lia. replace (l' + (level - l')) with level in Ha by lia.
  congruence.
Qed.
Lemma below_inj m root t level i i' q :
  pt_ok m root t → below t level i q → below t level i' q → i = i'.
Proof.
  intros Hok (l1 & i1 & H1 & _ & <-) (l2 & i2 & H2 & _ & <-).
  by pose proof (pt_inj _ _ _ Hok _ _ _ H1 H2); simplify_eq.
Qed.
Lemma below_step m root t level i p q :
  pt_ok m root t → t !! (level + 1, i) = Some p →
  below t (level + 1) i q ↔
    q = p ∨ ∃ j, 0 ≤ j < 512 ∧ below t level (i * 512 + j) q.
Proof.
  intros Hok Hp. split.
  - intros (l' & i' & Hq & Hl & Hup). destruct (decide (l' = level + 1)) as [->|Hne].
    + left. rewrite Z.sub_diag, up_0 in Hup. by simplify_eq.
    + right. replace (level + 1 - l') with (level - l' + 1) in Hup by lia.
      rewrite up_succ in Hup by lia. exists (up (level - l') i' `mod` 512).
      split; [by apply Z.mod_pos_bound|]. exists l', i'. split_and!; [done|lia|dlia].
  - intros [->|(j & Hj & l' & i' & Hq & Hl & Hup)].
    + exists (level + 1), i. split_and!; [done|lia|]. by rewrite Z.sub_diag, up_0.
    + exists l', i'. split_and!; [done|lia|].
      replace (level + 1 - l') with (level - l' + 1) by lia. rewrite up_succ by lia. dlia.
Qed.

Lemma tree_leafless m root t (level : nat) i p :
  pt_ok m root t → (∀ va, vpage va → valid (pte_at m t va) = false) →
  t !! (Z.of_nat level, i) = Some p →
  ∃ pages, leafless level m p pages ∧ NoDup pages ∧
    ∀ q, q ∈ pages ↔ below t (Z.of_nat level) i q.
Proof.
  intros Hok Hinv. revert i p. induction level as [|level IH]; intros i p Hp.
  - exists [p]. split_and!.
    + exists (replicate 512 []). split_and!; [by rewrite length_replicate|done|].
      intros j c [-> Hj]%lookup_replicate. left. split; [done|].
      destruct (leaf_entry_va m root t i p (Z.of_nat j)) as (va & Hva & <-); [done|done|lia|].
      by apply Hinv.
    + apply NoDup_singleton.
    + intros q. rewrite list_elem_of_singleton. change (Z.of_nat 0) with 0 in *. split.
      * intros ->. exists 0, i. split_and!; [done|lia|]. by rewrite Z.sub_diag, up_0.
      * intros (l' & i' & Hq & Hl & Hup). pose proof (pt_level _ _ _ Hok _ _ _ Hq).
        replace l' with 0 in * by lia. rewrite Z.sub_diag, up_0 in Hup. by simplify_eq.
  - set (R (j : nat) (c : list Z) :=
      match t !! (Z.of_nat level, i * 512 + Z.of_nat j) with
      | Some q => load64 m (p + 8 * Z.of_nat j) = ptr_pte q ∧ ram_page q ∧
                  leafless level m q c ∧ NoDup c
      | None => c = [] ∧ valid (load64 m (p + 8 * Z.of_nat j)) = false
      end ∧ ∀ q, q ∈ c ↔ below t (Z.of_nat level) (i * 512 + Z.of_nat j) q).
    destruct (list_choice R 512) as (cs & Hlen & Hcs).
    { intros j Hj. unfold R.
      pose proof (pt_content _ _ _ Hok _ _ _ (Z.of_nat j) Hp ltac:(lia) ltac:(lia)) as Hc.
      replace (Z.of_nat (S level) - 1) with (Z.of_nat level) in Hc by lia.
      destruct (t !! (Z.of_nat level, i * 512 + Z.of_nat j)) as [q|] eqn:Hq.
      - destruct (IH _ _ Hq) as (c & Hll & Hnd & Hin). exists c.
        split_and!; try done. by eapply pt_ram.
      - exists []. split; [done|]. intros q. split; [set_solver|].
        intros Hb. exfalso. eapply below_none; [done|done| |done].
        pose proof (pt_level _ _ _ Hok _ _ _ Hp). lia. }
    assert (Z.of_nat (S level) = Z.of_nat level + 1) as Hsl by lia. rewrite Hsl in Hp |- *.
    assert (∀ q, q ∈ p :: concat cs ↔ below t (Z.of_nat level + 1) i q) as Hin.
    { intros q. rewrite (below_step m root) by done. rewrite elem_of_cons, elem_of_concat.
      f_equiv. split.
      - intros (j & c & Hj & Hq). pose proof (lookup_lt_Some _ _ _ Hj).
        exists (Z.of_nat j). split; [lia|]. by apply (Hcs j c Hj).
      - intros (j & Hj & Hb). destruct (lookup_lt_is_Some_2 cs (Z.to_nat j)) as [c Hc]; [lia|].
        exists (Z.to_nat j), c. split; [done|]. apply (Hcs _ _ Hc).
        by rewrite Z2Nat.id by lia. }
    exists (p :: concat cs). split_and!; [|apply list.NoDup_cons; split|done].
    + exists cs. split_and!; [done..|]. intros j c Hj. destruct (Hcs j c Hj) as [Hr _].
      destruct (t !! (Z.of_nat level, i * 512 + Z.of_nat j)) as [q|];
        [right; exists q|by left]. by destruct Hr as (? & ? & ? & ?).
    + intros (j & c & Hj & Hq)%elem_of_concat. apply (Hcs j c Hj) in Hq.
      destruct Hq as (l' & i' & Hq & Hl' & _).
      pose proof (pt_inj _ _ _ Hok _ _ _ Hp Hq). simplify_eq. lia.
    + apply NoDup_concat.
      * intros j c Hj. destruct (Hcs j c Hj) as [Hr _].
        destruct (t !! (Z.of_nat level, i * 512 + Z.of_nat j)); [by destruct Hr as (_ & _ & _ & ?)|].
        destruct Hr as [-> _]. constructor.
      * intros j j' c c' x Hj Hj' Hx Hx'. apply (Hcs j c Hj) in Hx.
        apply (Hcs j' c' Hj') in Hx'.
        pose proof (below_inj _ _ _ _ _ _ _ Hok Hx Hx'). lia.
Qed.

(** The whole table. *)
Lemma freewalk_all s root P l um :
  aspace s root P l um → um = ∅ →
  wp (freewalk 3 root) (λ _ s', ∃ l', l' ≡ₚ elements P ++ l ∧ free_list s' l' ∧
    same_on (λ x, ∀ q, q ∈ P → ¬ page q x) (k_mem s) (k_mem s')) s.
Proof.
  intros (t & [Hok Hfl Hdis] & <- & Habs) ->.
  destruct (tree_leafless (k_mem s) root t 2 0 root) as (pages & Hll & Hnd & Hin);
    [done| |by apply Hok|].
  { intros va Hva. specialize (Habs va). rewrite lookup_empty, decide_True in Habs by done.
    by destruct (valid _). }
  change (Z.of_nat 2) with 2 in Hin.
  assert (∀ q, q ∈ pages ↔ q ∈ ptpages t) as Hpt.
  { intros q. rewrite Hin. split.
    - intros (l' & i' & Hq & _). by eapply elem_of_map_img_2.
    - intros [[l' i'] Hq]%elem_of_map_img. pose proof (pt_level _ _ _ Hok _ _ _ Hq).
      destruct (pt_ancestor _ _ _ (Z.to_nat (2 - l')) _ _ _ Hok Hq) as [r Hr]; [lia|].
      rewrite Z2Nat.id in Hr by lia. replace (l' + (2 - l')) with 2 in Hr by lia.
      destruct (pt_range _ _ _ Hok _ _ _ Hr) as [Hr0 Hr1].
      change (2 ^ (21 + 9 * 2)) with 549755813888 in Hr1.
      change MAXVA with 274877906944 in Hr1.
      exists l', i'. split_and!; [done|lia|lia]. }
  assert (pages ≡ₚ elements (ptpages t)) as Hperm.
  { apply NoDup_Permutation; [done|apply NoDup_elements|]. intros q.
    by rewrite elem_of_elements. }
  eapply wp_mono; [apply (freewalk_spec 2 s root pages l); [done..| |]|].
  - apply list.NoDup_app. split_and!; [done| |by destruct Hfl as (_ & _ & ? & _)].
    intros q Hq. apply Hdis. by apply Hpt.
  - apply list.Forall_forall. intros q Hq%Hpt. apply elem_of_map_img in Hq as [k Hk].
    by eapply pt_ram.
  - intros [] s' (l' & Hl' & Hfl' & Hs). exists l'. rewrite <- Hperm.
    split_and!; [done..|]. eapply same_on_weaken; [done|]. intros x Hx q Hq.
    by apply Hx, Hpt.
Qed.

(** * uvmfree *)

Lemma uvmfree_spec s root P l um sz :
  let n := upages 0 sz in
  aspace s root P l um → 0 ≤ sz ≤ MAXVA →
  (∀ k, (k < n)%nat → ∃ e, um !! nth_page 0 k = Some e ∧ PTE_FLAGS e ≠ PTE_V) →
  (∀ va e, um !! va = Some e → va < nth_page 0 n) →
  freeable P l um 0 n →
  wp (uvmfree root sz) (λ _ s', ∃ l', l' ≡ₚ frames um 0 n ++ elements P ++ l ∧
    free_list s' l' ∧
    same_on (λ x, ∀ q, q ∈ frames um 0 n ++ elements P → ¬ page q x) (k_mem s) (k_mem s')) s.
Proof.
  intros n Has Hsz Hmapped Hdom Hfr. unfold uvmfree.
  assert (MAXVA = 274877906944) as HM by done. assert (PGSIZE = 4096) as HP by done.
  destruct (PGROUNDUP_spec sz) as [Ha1 Ha2]; [lia|]. unfold aligned in Ha1.
  assert (PGROUNDUP sz `div` PGSIZE = Z.of_nat n) as Hn.
  { unfold n, upages. change (PGROUNDUP 0) with 0. rewrite HP in *. dlia. }
  assert (unmap_pages um 0 n = ∅) as Hempty.
  { apply map_empty. intros va. rewrite unmap_pages_lookup. case_decide as Hd; [done|].
    destruct (um !! va) eqn:He; [|done]. exfalso. apply Hd. pose proof (Hdom _ _ He).
    destruct (aspace_vpage _ _ _ _ _ _ _ Has He) as [[? ?] _]. rewrite Z.sub_0_r. split; [done|lia]. }
  apply wp_bind. eapply (wp_mono _ (λ _ s', aspace s' root P (frames um 0 n ++ l) ∅ ∧
    same_on (λ x, ∀ q, q ∈ frames um 0 n ++ elements P → ¬ page q x) (k_mem s) (k_mem s'))).
  - apply wp_when; intros Hpos; bool_facts.
    + rewrite Hn. eapply wp_mono; [apply uvmunmap_spec; [done|done| |done|done]|].
      * rewrite HP in *. dlia.
      * intros [] s' [Has' Hs']. rewrite Hempty in Has'. split; [done|].
        eapply same_on_weaken; [done|]. set_solver.
    + assert (n = 0%nat) as Hn0 by (rewrite HP in *; dlia).
      rewrite Hn0 in Hempty |- *. cbn in Hempty. by rewrite <- Hempty.
  - intros [] s' [Has' Hs']. eapply wp_mono; [by eapply freewalk_all|].
    intros [] s2 (l' & Hl & Hfl & Hs2). exists l'. split_and!; [rewrite Hl; solve_Permutation|done|].
    etrans; [done|]. eapply same_on_weaken; [done|]. set_solver.
Qed.

End userfree.
