(* ===== verification/VmProps.v ===== *)
(** The properties of kernel/vm.c that the rest of the kernel relies on,
    stated over the abstract page table of Mapping.v, with a small machine on
    which each of them applies. *)

From S2P Require Import Prelude Riscv Mem Cstring Kalloc Vm PageTable Mapping UserMem.
From S2P Require Import UserCopy UserFree.

Section vmprops.
Context {L : Linker} {Lok : LinkerOk L}.

Lemma progress_page s0 root P l um base flags content s P' l' pts held es k :
  progress s0 root P l um base flags content s P' l' pts held es → (k < length es)%nat →
  ∃ e, map_entries um base es !! nth_page base k = Some e ∧ PTE_FLAGS e = flags k ∧
    PTE2PA e ∈ PTE2PA <$> es ∧
    ∀ i, 0 ≤ i < PGSIZE → load8 (k_mem s) (PTE2PA e + i) = content k i.
Proof.
  intros [_ _ Hleaf Hcont _] Hk.
  destruct (lookup_lt_is_Some_2 (reverse es) k) as [e He]; [by rewrite length_reverse|].
  exists e. split_and!.
  - by apply map_entries_in.
  - apply (Hleaf k e He).
  - apply list_elem_of_fmap_2. apply list_elem_of_lookup_2 in He. by apply elem_of_reverse.
  - intros i Hi. by apply Hcont.
Qed.

(** What [uvmalloc] and [uvmcopy] leave at [root]: pages [0..n) from [base] on
    have the given flags and contents, in frames [fs] that were free; every
    other address is mapped as before; the pages [pts] went into the table. *)
Definition populated (s : kmem) (root : Z) (P : gset Z) (l : list Z) (um : gmap Z Z)
    (base : Z) (n : nat) (flags : nat → Z) (content : nat → Z → Z) (s' : kmem) : Prop :=
  ∃ P' l' um' pts fs,
    aspace s' root P' l' um' ∧ taken P l P' l' pts fs ∧ length fs = n ∧
    same_on (others P l) (k_mem s) (k_mem s') ∧
    (∀ va, va < base ∨ nth_page base n ≤ va → um' !! va = um !! va) ∧
    ∀ k, (k < n)%nat → ∃ e, um' !! nth_page base k = Some e ∧ PTE_FLAGS e = flags k ∧
      PTE2PA e ∈ fs ∧ ∀ i, 0 ≤ i < PGSIZE → load8 (k_mem s') (PTE2PA e + i) = content k i.

Lemma progress_populated s root P l um base flags content s' P' l' pts es :
  progress s root P l um base flags content s' P' l' pts [] es →
  populated s root P l um base (length es) flags content s'.
Proof.
  intros Hpr. exists P', l', (map_entries um base es), pts, (PTE2PA <$> es).
  split_and!; try apply Hpr.
  - by rewrite length_fmap.
  - intros va. apply map_entries_out.
  - intros k Hk. by eapply progress_page.
Qed.

(** [uvmalloc] grows an address space by zeroed, writable user pages, or
    fails with 0, and then only when the free list is exhausted and with no
    page of the address space changed or lost. *)
Theorem uvmalloc_grows s root P l um oldsz newsz :
  let base := PGROUNDUP oldsz in
  let n := upages oldsz newsz in
  aspace s root P l um → 0 ≤ oldsz ≤ newsz → newsz ≤ MAXVA →
  (∀ k, (k < n)%nat → um !! nth_page base k = None) →
  wp (uvmalloc root oldsz newsz) (λ r s',
    (r = newsz ∧
     populated s root P l um base n (λ _, Z.lor UPERM PTE_V) (λ _ _, 0) s') ∨
    (r = 0 ∧ ∃ P' l' pts, aspace s' root P' l' um ∧ taken P l P' l' pts [] ∧
       (length l ≤ n + length pts)%nat)) s.
Proof.
  intros base n Has Hsz Hmax Hum. eapply wp_mono; [by apply uvmalloc_spec|].
  intros r s' (P' & l' & pts & es & Hpr & [(-> & Hlen)|(-> & -> & Hl)]).
  - left. split; [done|]. unfold n. rewrite <- Hlen. by eapply progress_populated.
  - right. split; [done|]. exists P', l', pts. split_and!; [apply Hpr|apply Hpr|done].
Qed.

(** C9: [uvmcopy] gives the child every page of the parent with the same
    flags and the same contents in a frame of its own, and leaves the parent's
    address space as it was; when it fails it has unmapped and freed every
    page it had copied. *)
Theorem uvmcopy_forks s old new Po P l umo um sz :
  let n := Z.to_nat ((sz + PGSIZE - 1) `div` PGSIZE) in
  aspace s old Po l umo → aspace s new P l um → (∀ p, p ∈ Po → p ∉ P) →
  0 ≤ sz → nth_page 0 n ≤ MAXVA →
  (∀ k, (k < n)%nat → ∃ e, umo !! nth_page 0 k = Some e ∧
    PTE_FLAGS e ≠ PTE_V ∧ (PTE2PA e ∉ P) ∧ (PTE2PA e ∉ l)) →
  (∀ k, (k < n)%nat → um !! nth_page 0 k = None) →
  wp (uvmcopy old new sz) (λ r s',
    (∃ l', aspace s' old Po l' umo) ∧
    ((r = 0 ∧ populated s new P l um 0 n (λ k, PTE_FLAGS (page_entry umo k))
        (λ k i, load8 (k_mem s) (PTE2PA (page_entry umo k) + i)) s') ∨
     (r = -1 ∧ ∃ P' l' pts, aspace s' new P' l' um ∧ taken P l P' l' pts []))) s.
Proof.
  intros n Ho Hn Hdis Hsz Hmax Hpages Hum.
  eapply wp_mono; [by apply (uvmcopy_loop s old new Po P l umo um n)|].
  intros r s' (P' & l' & pts & es & Hpr & Hcase). split.
  - exists l'. by eapply (progress_old s old Po umo new P l um).
  - destruct Hcase as [[-> Hlen]|(-> & -> & _)].
    + left. split; [done|]. rewrite <- Hlen. by eapply progress_populated.
    + right. split; [done|]. exists P', l', pts. split; apply Hpr.
Qed.

(** C21: [mappages] inserts exactly the requested translations into the page
    table and changes no other one; it fails only when the free list is
    exhausted. *)
Theorem mappages_inserts s root P l um va size pa perm :
  let a := PGROUNDDOWN va in
  let n := npages va size in
  aspace s root P l um → 0 ≤ va → 0 < size → va + size ≤ MAXVA →
  (∀ k, (k < n)%nat → um !! nth_page a k = None) →
  aligned pa → 0 ≤ pa → nth_page pa n ≤ 2 ^ 64 → 0 ≤ perm < 1024 →
  wp (mappages root va size pa perm) (λ r s', ∃ P' l' k,
    aspace s' root P' l' (map_pages um a k pa perm) ∧ grown s P l s' P' l' ∧
    ((r = 0 ∧ k = n) ∨ (r = -1 ∧ (k < n)%nat ∧ l' = []))) s.
Proof. apply mappages_spec. Qed.

(** [mappages] never overwrites a translation: it panics when the first
    page is mapped already. *)
Theorem mappages_no_remap s root P l um va size pa perm e :
  aspace s root P l um → 0 ≤ va → 0 < size → va + size ≤ MAXVA →
  um !! PGROUNDDOWN va = Some e →
  mappages root va size pa perm s = Panic "mappages: remap".
Proof. apply mappages_remap_spec. Qed.

(** C22: [uvmunmap] removes exactly the given pages from the page table; with
    [do_free] it puts their frames, and nothing else, on the free list, and it
    writes to no memory but the page table and those frames. *)
Theorem uvmunmap_removes s root P l um va n (do_free : bool) :
  aspace s root P l um → vpage va → nth_page va n ≤ MAXVA →
  (∀ k, (k < n)%nat → ∃ e, um !! nth_page va k = Some e ∧ PTE_FLAGS e ≠ PTE_V) →
  (do_free = true → freeable P l um va n) →
  wp (uvmunmap root va (Z.of_nat n) do_free) (λ _ s',
    aspace s' root P ((if do_free then frames um va n else []) ++ l) (unmap_pages um va n) ∧
    same_on (λ x, (∀ p, p ∈ P → ¬ page p x) ∧
                  (do_free = true → ∀ p, p ∈ frames um va n → ¬ (page p x)))
      (k_mem s) (k_mem s')) s.
Proof. apply uvmunmap_spec. Qed.

(** C14: what [copyout] writes to user memory [copyin] reads back; no other
    user byte changes; and [copyout] fails exactly when it meets an address
    the user has not mapped. *)
Theorem copyout_copyin s root P l um va src :
  aspace s root P l um → user_ok P l um → fits 64 va → bytes src →
  wp (let! r := copyout root va src (Z.of_nat (length src)) in
      if r =? 0 then copyin root va (Z.of_nat (length src)) else ret (r, []))
    (λ '(r, dst) s', aspace s' root P l um ∧
      ((r = 0 ∧ dst = src ∧
        ∀ va', uload (k_mem s') um va' =
          if decide (va ≤ va' < va + Z.of_nat (length src))
          then src !! Z.to_nat (va' - va) else uload (k_mem s) um va') ∨
       (r = -1 ∧ ∃ i, 0 ≤ i < Z.of_nat (length src) ∧ utrans um (va + i) = None))) s.
Proof.
  intros Has Hu Hva Hsrc. apply wp_bind. eapply wp_mono; [by apply copyout_spec|].
  intros r s' (k & [[-> Hk]|(-> & Hk & Hn)] & Has' & Hw).
  - simpl. replace k with (length src) in Hw by lia. rewrite firstn_all in Hw.
    eapply wp_mono; [apply (copyin_spec s' root P l um); [done..|lia]|].
    intros [r dst] s2 (-> & Hst & Hrd). split; [done|]. left.
    pose proof (proj1 Hw) as Hread.
    assert (∀ j b, src !! j = Some b → utrans um (va + Z.of_nat j) ≠ None) as Hmapped.
    { intros j b Hj Hnone. specialize (Hread j b Hj). unfold uload in Hread.
      by rewrite Hnone in Hread. }
    destruct Hst as [[-> Hlen]|(-> & Hlen & Hnone)].
    + split_and!; [done| |intros va'; by eapply uload_wrote].
      apply list_eq_same_length with (length src); [done|lia|].
      intros j b b' _ Hj Hj'. pose proof (Hread j b' Hj'). pose proof (Hrd j b Hj). congruence.
    + exfalso. destruct (lookup_lt_is_Some_2 src (length dst)) as [b Hb]; [lia|].
      by eapply Hmapped.
  - apply wp_ret. split; [done|]. right. split; [done|]. exists (Z.of_nat k). split; [lia|done].
Qed.

(** C34: [copyinstr] returns 0 with the NUL-terminated string at the user
    address, cut nowhere, or -1 when the string does not end within [max]
    bytes or runs into an unmapped page; it changes nothing. *)
Theorem copyinstr_fetches s root P l um srcva max :
  aspace s root P l um → user_ok P l um → fits 64 srcva → 0 ≤ max →
  wp (copyinstr root srcva max) (λ '(r, dst) s', s' = s ∧
    fetched um srcva max r dst ∧ uread (k_mem s) um srcva dst) s.
Proof. apply copyinstr_spec. Qed.

End vmprops.

(** * A machine on which the properties apply *)

(** Page 0 above the kernel is the root of a page table, page 6 that of a
    second one, page 7 a user frame; pages 1 to 5 are free. *)
Definition pg (i : Z) : Z := PHYSTOP - 8 * PGSIZE + i * PGSIZE.
Definition ex_free : list Z := pg <$> [1; 2; 3; 4; 5].
Definition ex_kmem : kmem :=
  Kmem false (pg 1)
    (store64 (store64 (store64 (store64 ∅ (pg 1) (pg 2)) (pg 2) (pg 3)) (pg 3) (pg 4))
       (pg 4) (pg 5)).

Section vm_example.
#[local] Existing Instances ex_linker ex_linker_ok.
#[local] Opaque memset memmove load64 store64.

Lemma ex_ram i : 0 ≤ i < 8 → ram_page (pg i).
Proof.
  intros Hi. unfold ram_page, aligned, pg. cbn [kend ex_linker].
  unfold PHYSTOP, KERNBASE, PGSIZE. split; [dlia|lia].
Qed.
Lemma pg_inj i j : pg i = pg j → i = j.
Proof. unfold pg, PGSIZE. lia. Qed.
Lemma ex_load i j :
  0 ≤ i → 0 ≤ j < 512 → (j = 0 → i ∉ [1; 2; 3; 4]) → load64 (k_mem ex_kmem) (pg i + 8 * j) = 0.
Proof.
  intros Hi Hj Hij. rewrite !elem_of_cons, elem_of_nil in Hij. cbn [ex_kmem k_mem].
  rewrite !load64_store64_ne by (unfold pg, PGSIZE; lia). reflexivity.
Qed.
Lemma ex_free_ok : free_list ex_kmem ex_free.
Proof.
  split; [reflexivity|]. split; [vm_compute; tauto|]. split.
  - apply (bool_decide_unpack _). vm_compute. exact I.
  - repeat apply list.Forall_cons_2; [apply ex_ram; lia..|constructor].
Qed.
Lemma ex_space i : i = 0 ∨ i = 6 → aspace ex_kmem (pg i) {[pg i]} ex_free ∅.
Proof.
  intros Hi. apply empty_space.
  - exact ex_free_ok.
  - apply ex_ram. lia.
  - intros (k & Hk & Hin)%list_elem_of_fmap_1. apply pg_inj in Hk. subst k.
    rewrite !elem_of_cons, elem_of_nil in Hin. lia.
  - intros j Hj. apply ex_load; [lia|done|]. rewrite !elem_of_cons, elem_of_nil. lia.
Qed.

(** One user page, backed by page 7, in the first address space. *)
Definition ex_um : gmap Z Z := {[0 := leaf_pte (pg 7) UPERM]}.
Lemma ex_mapped :
  ∃ s P l, aspace s (pg 0) P l ex_um ∧ grown ex_kmem {[pg 0]} ex_free s P l.
Proof.
  pose proof (mappages_spec ex_kmem (pg 0) {[pg 0]} ex_free ∅ 0 PGSIZE (pg 7) UPERM
    (ex_space 0 (or_introl eq_refl))) as Hwp.
  cbv zeta in Hwp. change (npages 0 PGSIZE) with 1%nat in Hwp.
  unfold wp in Hwp.
  assert (match mappages (pg 0) 0 PGSIZE (pg 7) UPERM ex_kmem with
          | Ok r _ => r | _ => 1 end = 0) as Hr by (vm_compute; reflexivity).
  destruct (mappages (pg 0) 0 PGSIZE (pg 7) UPERM ex_kmem) as [r s| | |];
    [|discriminate Hr..]. subst r.
  refine (_ (Hwp _ _ _ _ _ _ _ _)); clear Hwp.
  - intros (P & l & k & Has & Hg & [[_ ->]|[? _]]); [|discriminate].
    exists s, P, l. split; [exact Has|exact Hg].
  - lia.
  - unfold PGSIZE. lia.
  - vm_compute. discriminate.
  - intros k _. apply lookup_empty.
  - apply ex_ram. lia.
  - unfold pg, PGSIZE, PHYSTOP, KERNBASE. lia.
  - unfold pg, PGSIZE, PHYSTOP, KERNBASE. lia.
  - unfold UPERM. vm_compute. split; [discriminate|reflexivity].
Qed.

(** Only the pages that were free, or the root, changed hands. *)
Lemma ex_grown s P l p :
  grown ex_kmem {[pg 0]} ex_free s P l → p ∈ P ∨ p ∈ l → ∃ i, p = pg i ∧ 0 ≤ i < 6.
Proof.
  intros [(used & Hl & ->) _] Hp.
  assert (p = pg 0 ∨ p ∈ ex_free) as [->|(i & -> & Hi)%list_elem_of_fmap_1].
  { rewrite Hl, elem_of_app. rewrite elem_of_union, elem_of_singleton, elem_of_list_to_set in Hp.
    tauto. }
  - exists 0. lia.
  - exists i. split; [reflexivity|]. rewrite !elem_of_cons, elem_of_nil in Hi. lia.
Qed.

Lemma ex_utrans a x : utrans ex_um a = Some x → x = pg 7 + a ∧ 0 ≤ a < PGSIZE.
Proof.
  unfold utrans, ex_um. pose proof (PGROUNDDOWN_bounds a).
  destruct (decide (PGROUNDDOWN a = 0)) as [H0|Hne].
  - rewrite H0, lookup_singleton_eq.
    change (truth (Z.land (leaf_pte (pg 7) UPERM) PTE_U)) with true.
    change (PTE2PA (leaf_pte (pg 7) UPERM)) with (pg 7). cbn iota.
    intros [= <-]. lia.
  - rewrite lookup_singleton_ne by congruence. discriminate.
Qed.
Lemma ex_user_ok s P l : grown ex_kmem {[pg 0]} ex_free s P l → user_ok P l ex_um.
Proof.
  intros Hg. split.
  - intros a b x [? _]%ex_utrans [? _]%ex_utrans. lia.
  - intros a x p [-> Ha]%ex_utrans Hp Hx.
    destruct (ex_grown _ _ _ _ Hg Hp) as (i & -> & Hi).
    unfold page, range, pg, PGSIZE in *. lia.
  - intros a x [-> Ha]%ex_utrans. unfold pg, PHYSTOP, KERNBASE, PGSIZE in *. lia.
Qed.


Lemma uvmcopy_forks_witness :
  ∃ s P l, aspace s (pg 0) P l ex_um ∧
    wp (uvmcopy (pg 0) (pg 6) 100) (λ r s',
      (∃ l', aspace s' (pg 0) P l' ex_um) ∧
      ((r = 0 ∧ populated s (pg 6) {[pg 6]} l ∅ 0 1 (λ k, PTE_FLAGS (page_entry ex_um k))
          (λ k i, load8 (k_mem s) (PTE2PA (page_entry ex_um k) + i)) s') ∨
       (r = -1 ∧ ∃ P' l' pts, aspace s' (pg 6) P' l' ∅ ∧ taken {[pg 6]} l P' l' pts []))) s.
Proof.
  destruct ex_mapped as (s & P & l & Has & Hg). exists s, P, l. split; [exact Has|].
  assert (∀ i, 6 ≤ i → (pg i ∉ P) ∧ (pg i ∉ l)) as Hout.
  { intros i Hi. split; intros Hp.
    - destruct (ex_grown _ _ _ _ Hg (or_introl Hp)) as (j & Hj%pg_inj & ?). lia.
    - destruct (ex_grown _ _ _ _ Hg (or_intror Hp)) as (j & Hj%pg_inj & ?). lia. }
  refine (uvmcopy_forks s (pg 0) (pg 6) P {[pg 6]} l ex_um ∅ 100 Has _ _ _ _ _ _).
  - apply empty_space.
    + eapply aspace_free. exact Has.
    + apply ex_ram. lia.
    + apply Hout. lia.
    + intros j Hj. rewrite <- (ex_load 6 j); [|lia|exact Hj|].
      * apply load64_ext. eapply same_on_weaken; [apply (proj2 Hg)|]. intros x Hx p Hp Hpx.
        destruct (ex_grown _ _ _ _ Hg (or_introl Hp)) as (i & -> & Hi).
        unfold page, range, pg, PGSIZE in *. lia.
      * rewrite !elem_of_cons, elem_of_nil. lia.
  - intros p Hp Hp6. apply elem_of_singleton in Hp6. subst p. apply (proj1 (Hout 6 ltac:(lia))); exact Hp.
  - lia.
  - vm_compute. discriminate.
  - intros k Hk. replace k with 0%nat by (change (k < 1)%nat in Hk; lia).
    exists (leaf_pte (pg 7) UPERM). change (PTE2PA (leaf_pte (pg 7) UPERM)) with (pg 7).
    split; [reflexivity|]. split; [vm_compute; discriminate|]. split.
    + rewrite elem_of_singleton. intros H%pg_inj. lia.
    + apply Hout. lia.
  - intros k _. apply lookup_empty.
Defined.

Lemma mappages_inserts_witness :
  wp (mappages (pg 0) 8192 8192 (pg 6) UPERM) (λ r s', ∃ P' l' k,
    aspace s' (pg 0) P' l' (map_pages ∅ 8192 k (pg 6) UPERM) ∧
    grown ex_kmem {[pg 0]} ex_free s' P' l' ∧
    ((r = 0 ∧ k = 2%nat) ∨ (r = -1 ∧ (k < 2)%nat ∧ l' = []))) ex_kmem.
Proof.
  refine (mappages_inserts ex_kmem (pg 0) {[pg 0]} ex_free ∅ 8192 8192 (pg 6) UPERM
    _ _ _ _ _ _ _ _ _).
  - apply ex_space. left. reflexivity.
  - lia.
  - lia.
  - vm_compute. discriminate.
  - intros k _. apply lookup_empty.
  - apply ex_ram. lia.
  - vm_compute. discriminate.
  - vm_compute. discriminate.
  - vm_compute. split; [discriminate|reflexivity].
Defined.

Lemma uvmunmap_removes_witness :
  ∃ s P l, wp (uvmunmap (pg 0) 0 1 true) (λ _ s',
    aspace s' (pg 0) P (pg 7 :: l) (unmap_pages ex_um 0 1) ∧
    same_on (λ x, (∀ p, p ∈ P → ¬ page p x) ∧
                  (true = true → ∀ p, p ∈ [pg 7] → ¬ (page p x))) (k_mem s) (k_mem s')) s.
Proof.
  destruct ex_mapped as (s & P & l & Has & Hg). exists s, P, l.
  refine (uvmunmap_removes s (pg 0) P l ex_um 0 1 true Has _ _ _ _).
  - split; [reflexivity|]. vm_compute. split; [discriminate|reflexivity].
  - vm_compute. discriminate.
  - intros k Hk. replace k with 0%nat by lia. exists (leaf_pte (pg 7) UPERM).
    split; [reflexivity|]. vm_compute. discriminate.
  - intros _. change (frames ex_um 0 1) with [pg 7]. unfold freeable.
    change (frames ex_um 0 1) with [pg 7]. split; [apply NoDup_singleton|].
    intros p ->%list_elem_of_singleton. split; [apply ex_ram; lia|].
    split; intros Hp.
    + destruct (ex_grown _ _ _ _ Hg (or_introl Hp)) as (j & Hj%pg_inj & ?). lia.
    + destruct (ex_grown _ _ _ _ Hg (or_intror Hp)) as (j & Hj%pg_inj & ?). lia.
Defined.

Lemma copyout_copyin_witness :
  ∃ s P l, aspace s (pg 0) P l ex_um ∧
    wp (let! r := copyout (pg 0) 4093 [120; 118; 54] 3 in
        if r =? 0 then copyin (pg 0) 4093 3 else ret (r, []))
      (λ '(r, dst) s', aspace s' (pg 0) P l ex_um ∧
        ((r = 0 ∧ dst = [120; 118; 54] ∧
          ∀ va', uload (k_mem s') ex_um va' =
            if decide (4093 ≤ va' < 4093 + 3)
            then [120; 118; 54] !! Z.to_nat (va' - 4093) else uload (k_mem s) ex_um va') ∨
         (r = -1 ∧ ∃ i, 0 ≤ i < 3 ∧ utrans ex_um (4093 + i) = None))) s.
Proof.
  destruct ex_mapped as (s & P & l & Has & Hg). exists s, P, l. split; [exact Has|].
  refine (copyout_copyin s (pg 0) P l ex_um 4093 [120; 118; 54] Has _ _ _).
  - eapply ex_user_ok. exact Hg.
  - vm_compute. split; [discriminate|reflexivity].
  - repeat apply list.Forall_cons_2; [vm_compute; split; [discriminate|reflexivity]..|constructor].
Defined.

Lemma copyinstr_fetches_witness :
  ∃ s, wp (copyinstr (pg 0) 4000 128) (λ '(r, dst) s', s' = s ∧
    fetched ex_um 4000 128 r dst ∧ uread (k_mem s) ex_um 4000 dst) s.
Proof.
  destruct ex_mapped as (s & P & l & Has & Hg). exists s.
  refine (copyinstr_fetches s (pg 0) P l ex_um 4000 128 Has _ _ _).
  - eapply ex_user_ok. exact Hg.
  - vm_compute. split; [discriminate|reflexivity].
  - lia.
Defined.

End vm_example.
