(* ===== verification/ProcMem.v ===== *)
(** kernel/proc.c: the user address space of a process.  [proc_pagetable] and
    [proc_freepagetable] make and destroy it, [growproc] resizes it and
    [either_copyout]/[either_copyin] reach into it or into the kernel.  The
    invariant [pspace] says what such a space maps, and which pages it and
    the allocator own together. *)

From S2P Require Import Prelude Riscv Mem Cstring Kalloc Vm PageTable Mapping UserMem.
From S2P Require Import UserCopy UserFree VmProps.

Section procmem.
Context {L : Linker}.

(** * Operations *)

(** [trapframe] is [p->trapframe]. *)
Definition proc_pagetable (trapframe : Z) : M kmem Z :=
  let! pagetable := uvmcreate in
  if pagetable =? 0 then ret 0
  else
    let! r := mappages pagetable TRAMPOLINE PGSIZE trampoline (Z.lor PTE_R PTE_X) in
    if r <? 0 then
      do! uvmfree pagetable 0;
      ret 0
    else
      let! r := mappages pagetable TRAPFRAME PGSIZE trapframe (Z.lor PTE_R PTE_W) in
      if r <? 0 then
        do! uvmunmap pagetable TRAMPOLINE 1 false;
        do! uvmfree pagetable 0;
        ret 0
      else ret pagetable.

Definition proc_freepagetable (pagetable sz : Z) : M kmem unit :=
  do! uvmunmap pagetable TRAMPOLINE 1 false;
  do! uvmunmap pagetable TRAPFRAME 1 false;
  uvmfree pagetable sz.

(** [psz] is [p->sz], a [uint64]; the local [sz] is a [uint]. The result is the
    return value and the new [p->sz]. *)
Definition growproc (pagetable psz n : Z) : M kmem (Z * Z) :=
  let sz := u32 psz in
  if 0 <? n then
    let! r := uvmalloc pagetable sz (u32 (sz + n)) in
    let sz := u32 r in
    if sz =? 0 then ret (-1, psz) else ret (0, sz)
  else if n <? 0 then
    let! r := uvmdealloc pagetable sz (u32 (sz + n)) in
    ret (0, u32 r)
  else ret (0, sz).

(** The kernel side of the copy is the bytes themselves; [dst] and [src] are
    kernel addresses when the flag is off. *)
Definition either_copyout (pagetable : Z) (user_dst : bool) (dst : Z) (src : list Z) : M kmem Z :=
  if user_dst then copyout pagetable dst src (Z.of_nat (length src))
  else
    do! modify (upd_mem (λ m, store_bytes m dst src));
    ret 0.
Definition either_copyin (pagetable : Z) (user_src : bool) (src len : Z) : M kmem (Z * list Z) :=
  if user_src then copyin pagetable src len
  else
    let! bs := gets (λ s, load_bytes (k_mem s) src (Z.to_nat len)) in
    ret (0, bs).

(** * The address space of a process *)

Context {Lok : LinkerOk L}.

(** The pages of a user memory of [sz] bytes. *)
Abbreviation pages sz := (upages 0 sz).

Record pspace (s : kmem) (root tf sz : Z) (P : gset Z) (l : list Z) (um : gmap Z Z) : Prop := {
  sp_space : aspace s root P l um;
  sp_size : 0 ≤ sz < 2 ^ 32;
  sp_user : ∀ k, (k < pages sz)%nat → ∃ e, um !! nth_page 0 k = Some e ∧ PTE_FLAGS e ≠ PTE_V;
  sp_frames : freeable P l um 0 (pages sz);
  sp_tramp : um !! TRAMPOLINE = Some (leaf_pte trampoline (Z.lor PTE_R PTE_X));
  sp_trapframe : um !! TRAPFRAME = Some (leaf_pte tf (Z.lor PTE_R PTE_W));
  sp_only : ∀ va e, um !! va = Some e →
    va < nth_page 0 (pages sz) ∨ va = TRAPFRAME ∨ va = TRAMPOLINE;
}.
(** The pages of the space and of the free list. *)
Definition pool (sz : Z) (P : gset Z) (l : list Z) (um : gmap Z Z) : list Z :=
  frames um 0 (pages sz) ++ elements P ++ l.

Lemma pages_bound sz : 0 ≤ sz ≤ 2 ^ 32 → sz ≤ nth_page 0 (pages sz) < sz + PGSIZE.
Proof.
  intros H. destruct (PGROUNDUP_spec sz) as [Ha1 Ha2]; [unfold PGSIZE; lia|]. unfold upages.
  change (PGROUNDUP 0) with 0. unfold aligned, PGSIZE in *. dlia.
Qed.

(** User memory is bounded by the machine's RAM. *)
Lemma ram_pages_count ps : NoDup ps → Forall ram_page ps → Z.of_nat (length ps) ≤ 32768.
Proof.
  intros Hnd Hram.
  assert (Hsub : ps ⊆ ((λ i : nat, KERNBASE + PGSIZE * Z.of_nat i) <$> seq 0 (Z.to_nat 32768))).
  { intros p Hp. destruct (Forall_in _ _ _ Hram Hp) as [Ha Hr].
    pose proof trampoline_text. pose proof etext_trampoline. pose proof etext_end.
    apply list_elem_of_fmap. exists (Z.to_nat ((p - KERNBASE) `div` PGSIZE)).
    rewrite elem_of_seq. unfold aligned, PGSIZE, PHYSTOP, KERNBASE in *. split; dlia. }
  apply NoDup_submseteq in Hsub; [|done]. apply submseteq_length in Hsub.
  rewrite length_fmap, length_seq in Hsub. lia.
Qed.
Lemma pspace_bound s root tf sz P l um : pspace s root tf sz P l um → sz ≤ 2 ^ 27.
Proof.
  intros H. destruct (sp_frames _ _ _ _ _ _ _ H) as [Hnd Hin].
  assert (Z.of_nat (length (frames um 0 (pages sz))) ≤ 32768) as Hlen.
  { apply ram_pages_count; [done|]. apply Forall_forall. intros p Hp. by apply Hin. }
  rewrite length_frames in Hlen. pose proof (sp_size _ _ _ _ _ _ _ H).
  pose proof (pages_bound sz). unfold PGSIZE in *. lia.
Qed.
Lemma TRAPFRAME_eq : TRAPFRAME = 2 ^ 38 - 2 * 4096 ∧ TRAMPOLINE = 2 ^ 38 - 4096 ∧ MAXVA = 2 ^ 38.
Proof. done. Qed.

(** Memory [grown] takes goes from the list to the table. *)
Lemma grown_pool s root P l um s' P' l' :
  aspace s root P l um → grown s P l s' P' l' → elements P' ++ l' ≡ₚ elements P ++ l.
Proof.
  intros Has [(used & -> & ->) _].
  pose proof (aspace_free _ _ _ _ _ Has) as (_ & _ & Hnd & _).
  apply list.NoDup_app in Hnd as (Hu & _ & _).
  rewrite elements_disj_union.
  - rewrite elements_list_to_set by done. solve_Permutation.
  - intros p Hp Hq%elem_of_list_to_set.
    apply (aspace_disj _ _ _ _ _ _ Has Hp). set_solver.
Qed.

(** A table without mappings is freed page by page. *)
Lemma uvmfree_empty s root P l :
  aspace s root P l ∅ →
  wp (uvmfree root 0) (λ _ s', ∃ l', l' ≡ₚ elements P ++ l ∧ free_list s' l' ∧
    same_on (λ x, ∀ q, q ∈ P → ¬ page q x) (k_mem s) (k_mem s')) s.
Proof.
  intros Has. eapply wp_mono; [apply (uvmfree_spec s root P l ∅ 0); [done|done| | |]|].
  - intros k Hk. by apply Nat.nlt_0_r in Hk.
  - intros va e. by rewrite lookup_empty.
  - split; [constructor|]. by intros p ?%not_elem_of_nil.
  - intros [] s' (l' & Hl & Hfl & Hs). exists l'. split_and!; [done..|].
    eapply same_on_weaken; [done|]. intros x Hx q Hq. apply Hx, elem_of_elements. done.
Qed.

Lemma tramp_ok : aligned trampoline ∧ 0 ≤ trampoline ∧ trampoline + PGSIZE ≤ 2 ^ 64.
Proof.
  pose proof trampoline_aligned. pose proof trampoline_text. pose proof etext_trampoline.
  pose proof etext_end. pose proof kend_phystop.
  unfold PHYSTOP, KERNBASE, PGSIZE in *. split_and!; [done|lia|lia].
Qed.

(** Nothing outside the pages [ps] changes. *)
Abbreviation only ps s s' := (same_on (λ x, ∀ q : Z, q ∈ ps → ¬ page q x) (k_mem s) (k_mem s')).

(** One more fixed mapping: the table grows at the expense of the list. *)
Lemma map_fixed s root P l um a m perm A :
  aspace s root P l um → elements P ++ l ≡ₚ A → vpage a → um !! a = None →
  aligned m → 0 ≤ m → m + PGSIZE ≤ 2 ^ 64 → 0 ≤ perm < 1024 →
  wp (mappages root a PGSIZE m perm) (λ r s', only A s s' ∧ ∃ P' l',
    elements P' ++ l' ≡ₚ A ∧
    ((r = 0 ∧ aspace s' root P' l' (<[a := leaf_pte m perm]> um)) ∨
     (r = -1 ∧ aspace s' root P' l' um))) s.
Proof.
  intros Has HA Ha Hum Hm1 Hm2 Hm3 Hperm. eapply wp_mono; [by apply mappages_page|].
  intros r s' (P' & l' & Hg & Hcase).
  pose proof (grown_pool _ _ _ _ _ _ _ _ Has Hg) as Hp. destruct Hg as [_ Hs]. split.
  - eapply same_on_weaken; [exact Hs|]. intros x Hx q Hq. apply Hx. rewrite <- HA, <- Hp. set_solver.
  - exists P', l'. split; [by rewrite Hp|]. tauto.
Qed.

(** Giving up: the table is freed. *)
Lemma free_fixed s root P l A :
  aspace s root P l ∅ → elements P ++ l ≡ₚ A →
  wp (do! uvmfree root 0; ret 0) (λ r s', only A s s' ∧ r = 0 ∧ ∃ l', l' ≡ₚ A ∧ free_list s' l') s.
Proof.
  intros Has HA. apply wp_bind. eapply wp_mono; [by apply uvmfree_empty|].
  intros [] s' (l' & Hl & Hfl & Hs). apply wp_ret. split.
  - eapply same_on_weaken; [exact Hs|]. intros x Hx q Hq. apply Hx. rewrite <- HA. set_solver.
  - split; [done|]. exists l'. split; [|done]. by rewrite Hl.
Qed.

Lemma unmap_fixed s root P l um a m perm :
  aspace s root P l um → vpage a → a + PGSIZE ≤ MAXVA → um !! a = Some (leaf_pte m perm) →
  aligned m → fits 64 m → 0 ≤ perm < 1024 → Z.lor perm PTE_V ≠ PTE_V →
  wp (uvmunmap root a 1 false) (λ _ s', aspace s' root P l (delete a um) ∧
    only (elements P) s s') s.
Proof.
  intros Has Ha Hmax Hum Hm1 Hm2 Hp Hp'. change 1 with (Z.of_nat 1).
  eapply wp_mono; [apply (uvmunmap_spec s root P l um a 1 false); [done|done|lia| |done]|].
  - intros k Hk. replace k with 0%nat by lia. rewrite Z.mul_0_r, Z.add_0_r. eexists. split; [done|].
    by destruct (leaf_pte_spec m perm Hm1 Hm2 Hp) as (_ & _ & _ & ->).
  - intros [] s' [Has' Hs]. cbn [unmap_pages] in Has'. change (Z.of_nat 0) with 0 in Has'.
    rewrite Z.mul_0_r, Z.add_0_r in Has'. split; [done|].
    eapply same_on_weaken; [exact Hs|]. intros x Hx. split; [|done].
    intros q Hq. apply Hx. by apply elem_of_elements.
Qed.

Lemma fixed_vpages : vpage TRAMPOLINE ∧ vpage TRAPFRAME ∧ TRAMPOLINE ≠ TRAPFRAME.
Proof. unfold vpage, aligned. done. Qed.

Lemma proc_pagetable_spec s l tf :
  free_list s l → aligned tf → 0 ≤ tf → tf + PGSIZE ≤ 2 ^ 64 →
  wp (proc_pagetable tf) (λ r s', only l s s' ∧
    ((r = 0 ∧ ∃ l', l' ≡ₚ l ∧ free_list s' l') ∨
     (r ≠ 0 ∧ ∃ P l' um, pspace s' r tf 0 P l' um ∧ pool 0 P l' um ≡ₚ l))) s.
Proof.
  intros Hfl Htf1 Htf2 Htf3. unfold proc_pagetable.
  destruct tramp_ok as (Ht1 & Ht2 & Ht3), fixed_vpages as (Hv1 & Hv2 & Hne).
  apply wp_bind. eapply wp_mono; [by apply uvmcreate_spec|]. intros r s1.
  destruct l as [|p l].
  { intros [-> ->]. apply wp_ret. split; [done|]. left. eauto. }
  intros (-> & Has & Hs1).
  assert (only (p :: l) s s1) as Ho1 by (eapply same_on_weaken; [exact Hs1|]; set_solver).
  assert (0 < p).
  { apply ram_page_pos. destruct Hfl as (_ & _ & _ & Hram). by inversion Hram. }
  destruct (Z.eqb_spec p 0); [lia|].
  apply wp_bind. eapply wp_mono; [apply (map_fixed _ _ _ _ _ _ _ _ (p :: l) Has); try done|].
  { by rewrite elements_singleton. }
  intros r s2 (Ho2 & P2 & l2 & Hp2 & [[-> Has2]|[-> Has2]]); cbn [Z.ltb Z.compare].
  2: { eapply wp_mono; [by apply (free_fixed _ _ _ _ (p :: l) Has2)|].
       intros r s3 (Ho3 & -> & Hl3). split; [by do 2 (etrans; [eassumption|])|]. by left. }
  apply wp_bind. eapply wp_mono; [apply (map_fixed _ _ _ _ _ _ _ _ (p :: l) Has2); try done|].
  intros r s3 (Ho3 & P3 & l3 & Hp3 & [[-> Has3]|[-> Has3]]); cbn [Z.ltb Z.compare].
  - apply wp_ret. split; [by do 2 (etrans; [eassumption|])|]. right. split; [lia|].
    eexists P3, l3, _. split; [|done]. split; [done|lia| | | | |].
    + intros k Hk. by apply Nat.nlt_0_r in Hk.
    + split; [constructor|]. by intros q ?%not_elem_of_nil.
    + rewrite lookup_insert_ne by done. apply lookup_insert_eq.
    + apply lookup_insert_eq.
    + intros va e. rewrite !lookup_insert_Some, lookup_empty. naive_solver.
  - apply wp_bind.
    eapply wp_mono; [apply (unmap_fixed _ _ _ _ _ _ trampoline (Z.lor PTE_R PTE_X) Has3); try done|].
    { unfold fits, PGSIZE in *. lia. }
    intros [] s4 [Has4 Hs4]. rewrite delete_insert_id in Has4 by done.
    eapply wp_mono; [by apply (free_fixed _ _ _ _ (p :: l) Has4)|].
    intros r s5 (Ho5 & -> & Hl5). split; [|by left].
    do 3 (etrans; [eassumption|]). etrans; [|exact Ho5].
    eapply same_on_weaken; [exact Hs4|]. intros x Hx q Hq. apply Hx. rewrite <- Hp3. set_solver.
Qed.

Lemma proc_freepagetable_spec s root tf sz P l um :
  pspace s root tf sz P l um → aligned tf → fits 64 tf →
  wp (proc_freepagetable root sz) (λ _ s', ∃ l', l' ≡ₚ pool sz P l um ∧ free_list s' l' ∧
    only (frames um 0 (pages sz) ++ elements P) s s') s.
Proof.
  intros Hsp Htf1 Htf2. pose proof (pspace_bound _ _ _ _ _ _ _ Hsp) as Hb.
  destruct Hsp as [Has Hsz Huser Hfr Htr Htp Honly]. unfold proc_freepagetable.
  destruct tramp_ok as (Ht1 & Ht2 & Ht3), fixed_vpages as (Hv1 & Hv2 & Hne).
  destruct TRAPFRAME_eq as (E1 & E2 & E3). pose proof (pages_bound sz ltac:(lia)) as Hpb.
  apply wp_bind. eapply wp_mono; [apply (unmap_fixed _ _ _ _ _ _ _ _ Has Hv1 ltac:(done) Htr); try done|].
  { unfold fits, PGSIZE in *. lia. }
  intros [] s1 [Has1 Hs1].
  apply wp_bind. eapply wp_mono; [apply (unmap_fixed _ _ _ _ _ _ tf (Z.lor PTE_R PTE_W) Has1); try done|].
  { by rewrite lookup_delete_ne. }
  intros [] s2 [Has2 Hs2].
  set (um2 := delete TRAPFRAME (delete TRAMPOLINE um)) in *.
  assert (Hsame : ∀ va, va < nth_page 0 (pages sz) → um2 !! va = um !! va).
  { intros va Hva. unfold um2. rewrite !lookup_delete_ne; [done| |]; unfold PGSIZE in *; lia. }
  assert (Hfrs : frames um2 0 (pages sz) = frames um 0 (pages sz)).
  { apply frames_ext. intros k Hk. apply Hsame. unfold PGSIZE. lia. }
  eapply wp_mono; [apply (uvmfree_spec s2 root P l um2 sz); [done|lia| | |]|].
  - intros k Hk. rewrite Hsame by (unfold PGSIZE; lia). auto.
  - intros va e. unfold um2. rewrite !lookup_delete_Some. intros (? & ? & He). naive_solver.
  - unfold freeable. by rewrite Hfrs.
  - rewrite Hfrs. intros [] s3 (l3 & Hl3 & Hfl3 & Hs3). exists l3. split_and!; [done..|].
    do 2 (etrans; [eapply same_on_weaken; [eassumption|]; set_solver|]). done.
Qed.

(** * growproc *)

(** The first [n] pages are mapped as before, and hold what they held. *)
Definition keeps (n : nat) (s : kmem) (um : gmap Z Z) (s' : kmem) (um' : gmap Z Z) : Prop :=
  ∀ k, (k < n)%nat → um' !! nth_page 0 k = um !! nth_page 0 k ∧
    ∀ e i, um !! nth_page 0 k = Some e → 0 ≤ i < PGSIZE →
      load8 (k_mem s') (PTE2PA e + i) = load8 (k_mem s) (PTE2PA e + i).

Lemma taken_pool s root P l um P' l' pts fs :
  aspace s root P l um → taken P l P' l' pts fs → fs ++ elements P' ++ l' ≡ₚ elements P ++ l.
Proof.
  intros Has [Hl ->]. pose proof (aspace_free _ _ _ _ _ Has) as (_ & _ & Hnd & _).
  rewrite Hl in Hnd. apply list.NoDup_app in Hnd as (Hpts & _ & _).
  rewrite elements_disj_union.
  - rewrite elements_list_to_set by done. rewrite Hl. solve_Permutation.
  - intros p Hp Hq%elem_of_list_to_set. apply (aspace_disj _ _ _ _ _ _ Has Hp). rewrite Hl. set_solver.
Qed.

(** A user page is neither a page-table page nor free. *)
Lemma user_frame s root tf sz P l um k e :
  pspace s root tf sz P l um → (k < pages sz)%nat → um !! nth_page 0 k = Some e →
  PTE2PA e ∈ frames um 0 (pages sz) ∧ ram_page (PTE2PA e) ∧ (PTE2PA e ∉ P) ∧ (PTE2PA e ∉ l).
Proof.
  intros Hsp Hk He. destruct (sp_frames _ _ _ _ _ _ _ Hsp) as [_ Hin].
  assert (PTE2PA e ∈ frames um 0 (pages sz)).
  { apply elem_of_frames. exists k. by rewrite He. }
  split; [done|by apply Hin].
Qed.
Lemma frame_others s root tf sz P l um k e i :
  pspace s root tf sz P l um → (k < pages sz)%nat → um !! nth_page 0 k = Some e →
  0 ≤ i < PGSIZE → others P l (PTE2PA e + i).
Proof.
  intros Hsp Hk He Hi. destruct (user_frame _ _ _ _ _ _ _ _ _ Hsp Hk He) as (_ & Hr & HP & Hl).
  assert (page (PTE2PA e) (PTE2PA e + i)) as Hpg by (unfold page, range; lia).
  destruct (aspace_free _ _ _ _ _ (sp_space _ _ _ _ _ _ _ Hsp)) as (_ & _ & _ & Hram).
  split; intros q Hq Hx.
  - apply (page_disjoint q (PTE2PA e) (PTE2PA e + i)); [|apply Hr|by intros ->|done|done].
    by apply (aspace_ram _ _ _ _ _ _ (sp_space _ _ _ _ _ _ _ Hsp) Hq).
  - apply (page_disjoint q (PTE2PA e) (PTE2PA e + i)); [|apply Hr|by intros ->|done|done].
    by destruct (Forall_in _ _ _ Hram Hq).
Qed.

(** The pool is a list of distinct RAM pages, and that is what makes the user
    pages freeable. *)
Lemma pspace_pool s root tf sz P l um :
  pspace s root tf sz P l um → NoDup (pool sz P l um) ∧ Forall ram_page (pool sz P l um).
Proof.
  intros Hsp. pose proof (sp_space _ _ _ _ _ _ _ Hsp) as Has.
  destruct (sp_frames _ _ _ _ _ _ _ Hsp) as [Hnd Hin].
  destruct (aspace_free _ _ _ _ _ Has) as (_ & _ & Hl & Hram). split.
  - unfold pool. apply list.NoDup_app. split_and!; [done| |].
    + intros p Hp. apply Hin in Hp. rewrite elem_of_app, elem_of_elements. tauto.
    + apply list.NoDup_app. split_and!; [apply NoDup_elements| |done].
      intros p Hp%elem_of_elements. by apply (aspace_disj _ _ _ _ _ _ Has).
  - unfold pool. rewrite !Forall_app. split_and!; [|  |done]; apply Forall_forall; intros p Hp.
    + by apply Hin.
    + apply elem_of_elements in Hp. by apply (aspace_ram _ _ _ _ _ _ Has).
Qed.
Lemma pool_freeable sz P l um :
  NoDup (pool sz P l um) → Forall ram_page (pool sz P l um) → freeable P l um 0 (pages sz).
Proof.
  unfold pool. rewrite list.NoDup_app, Forall_app. intros (Hnd & Hdis & _) [Hram _].
  split; [done|]. intros p Hp. split; [by eapply Forall_in|].
  specialize (Hdis p Hp). rewrite elem_of_app, elem_of_elements in Hdis. tauto.
Qed.

Lemma pages_base sz : 0 ≤ sz ≤ 2 ^ 32 → PGROUNDUP sz = nth_page 0 (pages sz).
Proof.
  intros H. destruct (PGROUNDUP_spec sz) as [Ha1 Ha2]; [unfold PGSIZE; lia|]. unfold upages.
  change (PGROUNDUP 0) with 0. unfold aligned, PGSIZE in *. dlia.
Qed.
Lemma pages_add sz newsz : 0 ≤ sz ≤ newsz → newsz ≤ 2 ^ 32 →
  pages newsz = (pages sz + upages sz newsz)%nat.
Proof.
  intros H H'. pose proof (pages_base sz ltac:(lia)) as E1. pose proof (pages_base newsz ltac:(lia)) as E2.
  destruct (PGROUNDUP_spec sz) as [_ Ha]; [unfold PGSIZE; lia|].
  destruct (PGROUNDUP_spec newsz) as [_ Hb]; [unfold PGSIZE; lia|].
  unfold upages at 3. unfold PGSIZE in *. dlia.
Qed.

Lemma pspace_grow s root tf sz P l um newsz s' P' l' pts es :
  pspace s root tf sz P l um → sz ≤ newsz < 2 ^ 32 → length es = upages sz newsz →
  progress s root P l um (PGROUNDUP sz) (λ _, Z.lor UPERM PTE_V) zeros s' P' l' pts [] es →
  let um' := map_entries um (PGROUNDUP sz) es in
  pspace s' root tf newsz P' l' um' ∧ pool newsz P' l' um' ≡ₚ pool sz P l um ∧
  keeps (pages sz) s um s' um'.
Proof.
  intros Hsp Hsz Hes Hpr um'. pose proof (sp_size _ _ _ _ _ _ _ Hsp) as Hsz0.
  pose proof (pages_base sz ltac:(lia)) as Hbase.
  pose proof (pages_add sz newsz ltac:(lia) ltac:(lia)) as Hadd. rewrite <- Hes in Hadd.
  pose proof (pages_bound newsz ltac:(lia)) as Hnb. destruct TRAPFRAME_eq as (E1 & E2 & E3).
  assert (Hold : ∀ k, (k < pages sz)%nat → um' !! nth_page 0 k = um !! nth_page 0 k).
  { intros k Hk. apply map_entries_out. left. rewrite Hbase. unfold PGSIZE. lia. }
  assert (Hend : nth_page (PGROUNDUP sz) (length es) = nth_page 0 (pages newsz))
    by (rewrite Hbase, Hadd; unfold PGSIZE; lia).
  assert (Hhigh : ∀ va, nth_page 0 (pages newsz) ≤ va → um' !! va = um !! va).
  { intros va Hva. apply map_entries_out. right. by rewrite Hend. }
  assert (Hfr : frames um' 0 (pages newsz) = (PTE2PA <$> es) ++ frames um 0 (pages sz)).
  { rewrite Hadd, frames_app, <- Hbase. unfold um' at 1. rewrite frames_map_entries. f_equal.
    by apply frames_ext. }
  pose proof (taken_pool _ _ _ _ _ _ _ _ _ (sp_space _ _ _ _ _ _ _ Hsp) (pr_taken _ _ _ _ _ _ _ _ _ _ _ _ _ _ Hpr)) as Hpool.
  cbn [app] in Hpool.
  assert (Hpool' : pool newsz P' l' um' ≡ₚ pool sz P l um).
  { unfold pool. rewrite Hfr, <- Hpool. solve_Permutation. }
  split_and!; [|done|].
  2: { intros k Hk. split; [by apply Hold|]. intros e i He Hi.
       apply (pr_mem _ _ _ _ _ _ _ _ _ _ _ _ _ _ Hpr). by eapply frame_others. }
  destruct (pspace_pool _ _ _ _ _ _ _ Hsp) as [Hnd Hram]. rewrite <- Hpool' in Hnd, Hram.
  destruct Hsp as [Has _ Huser _ Htr Htp Honly].
  split; [apply Hpr|lia| | | | |].
  - intros k Hk. destruct (decide (k < pages sz)%nat) as [Hlt|Hge].
    + rewrite Hold by done. auto.
    + destruct (lookup_lt_is_Some_2 (reverse es) (k - pages sz)) as [e He].
      { rewrite length_reverse. lia. }
      exists e. split; [|by destruct (pr_leaf _ _ _ _ _ _ _ _ _ _ _ _ _ _ Hpr _ _ He) as [-> ?]].
      apply (map_entries_in um (PGROUNDUP sz)) in He. fold um' in He. rewrite <- He.
      f_equal. rewrite Hbase. unfold PGSIZE. lia.
  - by apply pool_freeable.
  - rewrite Hhigh by (unfold PGSIZE in *; lia). done.
  - rewrite Hhigh by (unfold PGSIZE in *; lia). done.
  - intros va e He. destruct (decide (va < nth_page 0 (pages newsz))); [by left|].
    rewrite Hhigh in He by lia. destruct (Honly _ _ He) as [Hlt|?]; [|by right].
    left. unfold PGSIZE in *. lia.
Qed.

Lemma pspace_shrink s root tf sz P l um newsz s' :
  pspace s root tf sz P l um → 0 ≤ newsz ≤ sz →
  let a := PGROUNDUP newsz in let n := upages newsz sz in
  aspace s' root P (frames um a n ++ l) (unmap_pages um a n) →
  same_on (λ x, (∀ p, p ∈ P → ¬ page p x) ∧ (∀ p, p ∈ frames um a n → ¬ page p x))
    (k_mem s) (k_mem s') →
  let um' := unmap_pages um a n in
  pspace s' root tf newsz P (frames um a n ++ l) um' ∧
  pool newsz P (frames um a n ++ l) um' ≡ₚ pool sz P l um ∧ keeps (pages newsz) s um s' um'.
Proof.
  intros Hsp Hsz a n Has' Hs um'. pose proof (sp_size _ _ _ _ _ _ _ Hsp) as Hsz0.
  pose proof (pages_base newsz ltac:(lia)) as Hbase. fold a in Hbase.
  pose proof (pages_add newsz sz ltac:(lia) ltac:(lia)) as Hadd. fold n in Hadd.
  pose proof (pages_bound sz ltac:(lia)) as Hnb. destruct TRAPFRAME_eq as (E1 & E2 & E3).
  assert (Hlow : ∀ va, va < a → um' !! va = um !! va).
  { intros va Hva. unfold um'. rewrite unmap_pages_lookup, decide_False by lia. done. }
  assert (Hhigh : ∀ va, nth_page 0 (pages sz) ≤ va → um' !! va = um !! va).
  { intros va Hva. unfold um'. rewrite unmap_pages_lookup, decide_False; [done|].
    rewrite Hbase. unfold PGSIZE in *. lia. }
  assert (Hold : ∀ k, (k < pages newsz)%nat → um' !! nth_page 0 k = um !! nth_page 0 k).
  { intros k Hk. apply Hlow. rewrite Hbase. unfold PGSIZE. lia. }
  assert (Hfr : frames um 0 (pages sz) = frames um a n ++ frames um' 0 (pages newsz)).
  { rewrite Hadd, frames_app, <- Hbase. f_equal. symmetry. by apply frames_ext. }
  assert (Hpool : pool newsz P (frames um a n ++ l) um' ≡ₚ pool sz P l um).
  { unfold pool. rewrite Hfr. solve_Permutation. }
  split_and!; [|done|].
  - destruct (pspace_pool _ _ _ _ _ _ _ Hsp) as [Hnd Hram]. rewrite <- Hpool in Hnd, Hram.
    destruct Hsp as [Has _ Huser _ Htr Htp Honly]. split; [done|lia| | | | |].
    + intros k Hk. rewrite Hold by done. apply Huser. lia.
    + by apply pool_freeable.
    + rewrite Hhigh by (unfold PGSIZE in *; lia). done.
    + rewrite Hhigh by (unfold PGSIZE in *; lia). done.
    + intros va e He. destruct (aspace_vpage _ _ _ _ _ _ _ Has' He) as [[Hal Hr] _].
      unfold um' in He. rewrite unmap_pages_lookup in He. case_decide as Hd; [done|].
      destruct (Honly _ _ He) as [Hlt|?]; [left|by right].
      rewrite <- Hbase. destruct (decide (va < a)); [done|]. exfalso. apply Hd.
      unfold aligned, PGSIZE in *. split; [dlia|lia].
  - intros k Hk. split; [by apply Hold|]. intros e i He Hi. apply Hs.
    assert (Hk' : (k < pages sz)%nat) by lia.
    destruct (frame_others _ _ _ _ _ _ _ _ _ i Hsp Hk' He Hi) as [HP _]. split; [done|].
    destruct (user_frame _ _ _ _ _ _ _ _ _ Hsp Hk' He) as (_ & [Hr _] & _).
    destruct (sp_frames _ _ _ _ _ _ _ Hsp) as [Hnd Hin]. rewrite Hfr in Hnd, Hin.
    apply list.NoDup_app in Hnd as (_ & Hdis & _).
    intros p Hp Hx. apply (page_disjoint p (PTE2PA e) (PTE2PA e + i)); try done.
    + apply Hin. set_solver.
    + intros ->. apply (Hdis _ Hp). apply elem_of_frames. exists k. by rewrite Hold, He.
    + unfold page, range. lia.
Qed.

(** The size [growproc] asks for: it does nothing when [n] would take the
    size below zero. *)
Definition resized (sz n : Z) : Z := if sz + n <? 0 then sz else sz + n.

(** What resizing to [sz'] leaves. *)
Definition resizes (s : kmem) (root tf sz : Z) (P : gset Z) (l : list Z) (um : gmap Z Z)
    (sz' : Z) (s' : kmem) : Prop :=
  ∃ P' l' um', pspace s' root tf sz' P' l' um' ∧ pool sz' P' l' um' ≡ₚ pool sz P l um ∧
    keeps (Nat.min (pages sz) (pages sz')) s um s' um'.

Section resize.
Context (s : kmem) (root tf sz : Z) (P : gset Z) (l : list Z) (um : gmap Z Z).
Context (Hsp : pspace s root tf sz P l um).

Lemma resizes_refl : resizes s root tf sz P l um sz s.
Proof. exists P, l, um. split_and!; [done..|]. by intros k _. Qed.

Lemma uvmalloc_pspace newsz :
  sz ≤ newsz < 2 ^ 32 →
  wp (uvmalloc root sz newsz) (λ r s',
    r = newsz ∧ resizes s root tf sz P l um newsz s' ∨
    r = 0 ∧ resizes s root tf sz P l um sz s') s.
Proof.
  intros Hn. pose proof (sp_size _ _ _ _ _ _ _ Hsp) as Hsz. destruct TRAPFRAME_eq as (E1 & E2 & E3).
  eapply wp_mono; [apply uvmalloc_spec; [apply Hsp|lia|lia|]|].
  { intros k Hk. pose proof (pages_base sz ltac:(lia)) as Hbase.
    pose proof (pages_add sz newsz ltac:(lia) ltac:(lia)) as Hadd.
    pose proof (pages_bound newsz ltac:(lia)) as Hnb. rewrite Hbase.
    destruct (um !! _) as [e|] eqn:He; [|done].
    apply (sp_only _ _ _ _ _ _ _ Hsp) in He. unfold PGSIZE in *. lia. }
  intros r s' (P' & l' & pts & es & Hpr & Hcase).
  destruct Hcase as [[-> Hlen]|(-> & -> & _)]; [left|right]; (split; [done|]).
  - destruct (pspace_grow _ _ _ _ _ _ _ newsz _ _ _ _ _ Hsp Hn Hlen Hpr) as (H1 & H2 & H3).
    eexists P', l', _. split_and!; [exact H1|exact H2|]. intros k Hk. apply H3. lia.
  - refine (_ (pspace_grow _ _ _ _ _ _ _ sz _ _ _ _ [] Hsp ltac:(lia) _ Hpr)).
    2: { unfold upages. by rewrite Z.sub_diag. }
    intros (H1 & H2 & H3). exists P', l', um. split_and!; [exact H1|exact H2|].
    intros k Hk. apply H3. lia.
Qed.

Lemma uvmdealloc_pspace newsz :
  0 ≤ newsz < sz →
  wp (uvmdealloc root sz newsz) (λ r s', r = newsz ∧ resizes s root tf sz P l um newsz s') s.
Proof.
  intros Hn. pose proof (sp_size _ _ _ _ _ _ _ Hsp) as Hsz. destruct TRAPFRAME_eq as (E1 & E2 & E3).
  pose proof (pages_add newsz sz ltac:(lia) ltac:(lia)) as Hadd.
  eapply wp_mono; [apply uvmdealloc_spec; [apply Hsp|lia|lia| |]|]; fold (upages newsz sz).
  - intros k Hk. destruct (sp_user _ _ _ _ _ _ _ Hsp (pages newsz + k)%nat) as (e & He & Hf); [lia|].
    exists e. split; [|done]. rewrite <- He. f_equal.
    rewrite (pages_base newsz) by lia. unfold PGSIZE. lia.
  - destruct (sp_frames _ _ _ _ _ _ _ Hsp) as [Hnd Hin].
    rewrite Hadd, frames_app, <- pages_base in Hnd, Hin by lia.
    split; [by apply list.NoDup_app in Hnd as (? & _ & _)|]. intros p Hp. apply Hin. set_solver.
  - intros r s' (-> & Has' & Hs). split; [done|].
    destruct (pspace_shrink _ _ _ _ _ _ _ newsz s' Hsp ltac:(lia) Has' Hs) as (H1 & H2 & H3).
    eexists P, _, _. split_and!; [exact H1|exact H2|]. intros k Hk. apply H3. lia.
Qed.

Lemma growproc_spec n :
  - 2 ^ 31 ≤ n < 2 ^ 31 →
  wp (growproc root sz n) (λ '(r, sz') s', resizes s root tf sz P l um sz' s' ∧
    (r = 0 ∧ sz' = resized sz n ∨ r = -1 ∧ sz' = sz ∧ 0 < n)) s.
Proof.
  intros Hn. pose proof (sp_size _ _ _ _ _ _ _ Hsp) as Hsz.
  pose proof (pspace_bound _ _ _ _ _ _ _ Hsp) as Hb. pose proof resizes_refl as Hid.
  unfold growproc, resized. rewrite (u32_id sz) by (unfold fits; lia).
  destruct (Z.ltb_spec 0 n); [|destruct (Z.ltb_spec n 0)].
  - destruct (Z.ltb_spec (sz + n) 0); [lia|]. rewrite (u32_id (sz + n)) by (unfold fits; lia).
    apply wp_bind. eapply wp_mono; [apply uvmalloc_pspace; lia|]. intros r s' [[-> Hr]|[-> Hr]].
    + rewrite u32_id by (unfold fits; lia). destruct (Z.eqb_spec (sz + n) 0); [lia|].
      apply wp_ret. auto.
    + apply wp_ret. auto.
  - apply wp_bind. destruct (Z.ltb_spec (sz + n) 0) as [Hlt|Hge].
    + unfold uvmdealloc. assert (sz ≤ u32 (sz + n)) as Hle by (unfold u32; dlia).
      rewrite (proj2 (Z.leb_le _ _) Hle). apply wp_ret, wp_ret.
      rewrite u32_id by (unfold fits; lia). auto.
    + rewrite (u32_id (sz + n)) by (unfold fits; lia).
      eapply wp_mono; [apply uvmdealloc_pspace; lia|]. intros r s' [-> Hr].
      apply wp_ret. rewrite u32_id by (unfold fits; lia). auto.
  - replace n with 0 by lia. apply wp_ret. rewrite Z.add_0_r. destruct (Z.ltb_spec sz 0); [lia|]. auto.
Qed.
End resize.

(** Any number of [sbrk]s. *)
Fixpoint grow_all (pagetable sz : Z) (ns : list Z) : M kmem Z :=
  match ns with
  | [] => ret sz
  | n :: ns' => let! r := growproc pagetable sz n in grow_all pagetable r.2 ns'
  end.
Lemma grow_all_spec s root tf sz P l um ns :
  pspace s root tf sz P l um → Forall (λ n, - 2 ^ 31 ≤ n < 2 ^ 31) ns →
  wp (grow_all root sz ns) (λ sz' s', ∃ P' l' um', pspace s' root tf sz' P' l' um' ∧
    pool sz' P' l' um' ≡ₚ pool sz P l um) s.
Proof.
  intros Hsp Hns. revert s sz P l um Hsp.
  induction Hns as [|n ns Hn Hns IH]; intros s sz P l um Hsp; cbn [grow_all].
  { apply wp_ret. eauto. }
  apply wp_bind. eapply wp_mono; [by apply (growproc_spec _ _ _ _ _ _ _ Hsp)|].
  intros [r sz'] s' ((P' & l' & um' & Hsp' & Hpool & _) & _).
  eapply wp_mono; [by eapply IH|]. intros sz2 s2 (P2 & l2 & um2 & Hsp2 & Hpool2).
  exists P2, l2, um2. split; [done|]. by rewrite Hpool2.
Qed.

(** C10: an address space made by [proc_pagetable], resized by any sequence of
    [growproc] calls (growing, shrinking, failing for lack of memory, asking
    for less than nothing) and destroyed by [proc_freepagetable] with the size
    it has then gives back every page it took: neither the user pages nor the
    page-table pages leak, and nothing is freed twice. *)
Theorem proc_space_lifecycle s l tf ns :
  free_list s l → aligned tf → 0 ≤ tf → tf + PGSIZE ≤ 2 ^ 64 →
  Forall (λ n, - 2 ^ 31 ≤ n < 2 ^ 31) ns →
  wp (let! pagetable := proc_pagetable tf in
      if pagetable =? 0 then ret tt
      else
        let! sz := grow_all pagetable 0 ns in
        proc_freepagetable pagetable sz)
    (λ _ s', ∃ l', l' ≡ₚ l ∧ free_list s' l') s.
Proof.
  intros Hfl Ht1 Ht2 Ht3 Hns. apply wp_bind. eapply wp_mono; [by apply proc_pagetable_spec|].
  intros pt s1 (_ & [(-> & l' & Hl & Hfl')|(Hpt & P & l' & um & Hsp & Hpool)]).
  { apply wp_ret. eauto. }
  destruct (Z.eqb_spec pt 0); [done|]. apply wp_bind. eapply wp_mono; [by eapply grow_all_spec|].
  intros sz s2 (P2 & l2 & um2 & Hsp2 & Hpool2).
  eapply wp_mono; [eapply proc_freepagetable_spec; [done..|]|].
  { unfold fits, PGSIZE in *. lia. }
  intros [] s3 (l3 & Hl3 & Hfl3 & _). exists l3. split; [|done]. by rewrite Hl3, Hpool2.
Qed.

(** C20: [growproc] gives the process the size it asks for, or fails only when
    it asks for more; it keeps the contents and the mapping of every page the
    process had and still has, leaves the trampoline and the trapframe mapped
    and maps nothing else. A request to shrink below zero succeeds and changes
    nothing. *)
Theorem growproc_resizes s root tf sz P l um n :
  pspace s root tf sz P l um → - 2 ^ 31 ≤ n < 2 ^ 31 →
  wp (growproc root sz n) (λ '(r, sz') s', resizes s root tf sz P l um sz' s' ∧
    (r = 0 ∧ sz' = resized sz n ∨ r = -1 ∧ sz' = sz ∧ 0 < n)) s.
Proof. intros Hsp. by apply growproc_spec. Qed.
End procmem.

(** * Witnesses *)

Section witness.
#[local] Existing Instances ex_linker ex_linker_ok.
#[local] Opaque memset memmove load64 store64.

Lemma ex_pspace :
  ∃ s root P l um, pspace s root (KERNBASE + 4096) 0 P l um.
Proof.
  pose proof (proc_pagetable_spec ex_kmem ex_free (KERNBASE + 4096) ex_free_ok) as Hwp. unfold wp in Hwp.
  assert (match proc_pagetable (KERNBASE + 4096) ex_kmem with
          | Ok r _ => r =? 0 | _ => true end = false) as Hr by (vm_compute; reflexivity).
  destruct (proc_pagetable (KERNBASE + 4096) ex_kmem) as [r s| | |]; [|discriminate Hr..].
  refine (_ (Hwp _ _ _)); clear Hwp.
  - intros (_ & [[-> _]|(_ & P & l & um & Hsp & _)]); [discriminate Hr|]. by exists s, r, P, l, um.
  - reflexivity.
  - by apply Z.leb_le.
  - by apply Z.leb_le.
Qed.
Lemma growproc_resizes_witness :
  ∃ s root P l um,
    wp (growproc root 0 5000) (λ '(r, sz') s', resizes s root (KERNBASE + 4096) 0 P l um sz' s' ∧
      (r = 0 ∧ sz' = resized 0 5000 ∨ r = -1 ∧ sz' = 0 ∧ 0 < 5000)) s.
Proof.
  destruct ex_pspace as (s & root & P & l & um & Hsp). exists s, root, P, l, um.
  apply (growproc_resizes s root (KERNBASE + 4096) 0 P l um 5000 Hsp). lia.
Defined.

Lemma proc_space_lifecycle_witness :
  wp (let! pagetable := proc_pagetable (KERNBASE + 4096) in
      if pagetable =? 0 then ret tt
      else
        let! sz := grow_all pagetable 0 [5000; -100; 2 ^ 20; -70000; 3] in
        proc_freepagetable pagetable sz)
    (λ _ s', ∃ l', l' ≡ₚ ex_free ∧ free_list s' l') ex_kmem.
Proof.
  apply (proc_space_lifecycle ex_kmem ex_free (KERNBASE + 4096) [5000; -100; 2 ^ 20; -70000; 3]).
  - apply ex_free_ok.
  - reflexivity.
  - by apply Z.leb_le.
  - by apply Z.leb_le.
  - repeat constructor; by apply Z.leb_le + apply Z.ltb_lt.
Defined.
End witness.
