(* ===== verification/Sleeplock.v ===== *)
(** kernel/sleeplock.c: locks a process may hold while it sleeps.  The
    spinlock [lk->lk] that protects the fields is the one-bit abstract lock;
    a process that finds the lock taken sleeps, which releases the spinlock,
    and runs [acquiresleep] again from its test when it is woken up. *)

From S2P Require Import Prelude Spinlock.

Record sleeplock := Sleeplock {
  sl_locked : bool;   (* Is the lock held? *)
  sl_lk : bool;       (* the spinlock protecting this sleep lock *)
  sl_pid : Z;         (* process holding the lock *)
}.

Definition sl_set_lk (b : bool) (l : sleeplock) : sleeplock :=
  Sleeplock (sl_locked l) b (sl_pid l).
Definition sl_set_owner (b : bool) (pid : Z) (l : sleeplock) : sleeplock :=
  Sleeplock b (sl_lk l) pid.

Definition sl_acquire : M sleeplock unit := zoom sl_lk sl_set_lk Lock.lk_acquire.
Definition sl_release : M sleeplock unit := zoom sl_lk sl_set_lk Lock.lk_release.

Definition initsleeplock : sleeplock := Sleeplock false false 0.

(** [chan] is the address of the lock, [pid] is [myproc()->pid]. *)
Definition acquiresleep (chan pid : Z) : M sleeplock unit :=
  do! sl_acquire;
  let! locked := gets sl_locked in
  if locked : bool then do! sl_release; sleep_on chan
  else
    do! modify (sl_set_owner true pid);
    sl_release.

Definition releasesleep (chan : Z) : M (waking sleeplock) unit :=
  do! still sl_acquire;
  do! still (modify (sl_set_owner false 0));
  do! wakeup_on chan;
  still sl_release.

Definition holdingsleep (pid : Z) : M sleeplock bool :=
  do! sl_acquire;
  let! r := gets (λ l, sl_locked l && (sl_pid l =? pid)) in
  do! sl_release;
  ret r.

(** * Behaviour *)

(** The process that holds the lock. *)
Definition owner (l : sleeplock) : option Z :=
  if sl_locked l then Some (sl_pid l) else None.

Lemma acquiresleep_free l chan pid :
  sl_lk l = false → owner l = None →
  acquiresleep chan pid l = Ok tt (Sleeplock true false pid).
Proof. destruct l as [[] lk p]; simpl; by intros ->. Qed.
Lemma acquiresleep_held l chan pid p :
  sl_lk l = false → owner l = Some p → acquiresleep chan pid l = Blocked chan l.
Proof. destruct l as [[] lk p']; simpl; by intros ->. Qed.
Lemma releasesleep_wakes l chan cs :
  sl_lk l = false → releasesleep chan (Waking l cs) = Ok tt (Waking initsleeplock (cs ++ [chan])).
Proof. destruct l as [b lk p]; simpl; by intros ->. Qed.
Lemma releasesleep_spec l chan :
  sl_lk l = false → alone (releasesleep chan) l = Ok tt initsleeplock.
Proof. intros Hl. eapply alone_ok. by apply releasesleep_wakes. Qed.
Lemma holdingsleep_spec l pid :
  sl_lk l = false → holdingsleep pid l = Ok (bool_decide (owner l = Some pid)) l.
Proof.
  destruct l as [b lk p]; simpl; intros ->. cbv -[Z.eqb bool_decide decide].
  destruct b; simpl; [|done]. destruct (Z.eqb_spec p pid) as [->|Hne].
  - by rewrite bool_decide_eq_true_2.
  - rewrite bool_decide_eq_false_2; [done|congruence].
Qed.

(** * Processes that contend for one lock *)

Module Sleepers.
(** What a process is doing with the lock; [Asleep chan] sleeps on [chan]. *)
Inductive pstate := Idle | Wants | Asleep (chan : Z) | Holds.
#[export] Instance pstate_eq_dec : EqDecision pstate.
Proof. solve_decision. Defined.

Record world := World { w_lock : sleeplock; w_procs : gmap Z pstate }.

(** The processes that sleep on one of the channels [cs] become runnable. *)
Definition wake (cs : list Z) (p : pstate) : pstate :=
  match p with Asleep c => if decide (c ∈ cs) then Wants else p | q => q end.

(** One critical section of one process.  The lock's address is 0. *)
Inductive sl_step : world → world → Prop :=
| step_want l ps pid :
    ps !! pid = Some Idle → sl_step (World l ps) (World l (<[pid := Wants]> ps))
| step_take l l' ps pid :
    ps !! pid = Some Wants → acquiresleep 0 pid l = Ok tt l' →
    sl_step (World l ps) (World l' (<[pid := Holds]> ps))
| step_sleep l l' ps pid chan :
    ps !! pid = Some Wants → acquiresleep 0 pid l = Blocked chan l' →
    sl_step (World l ps) (World l' (<[pid := Asleep chan]> ps))
| step_release l l' cs ps pid :
    ps !! pid = Some Holds → releasesleep 0 (Waking l []) = Ok tt (Waking l' cs) →
    sl_step (World l ps) (World l' (<[pid := Idle]> (wake cs <$> ps))).

Definition sl_init (w : world) : Prop :=
  w_lock w = initsleeplock ∧ map_Forall (λ _ p, p = Idle) (w_procs w).

(** The lock knows its holder, and a process sleeps only while another one
    holds the lock: no wakeup is lost. *)
Definition sl_inv (w : world) : Prop :=
  sl_lk (w_lock w) = false ∧
  (∀ pid, w_procs w !! pid = Some Holds ↔ owner (w_lock w) = Some pid) ∧
  (∀ pid c, w_procs w !! pid = Some (Asleep c) → c = 0 ∧ is_Some (owner (w_lock w))).

Lemma wake_holds cs (ps : gmap Z pstate) q : (wake cs <$> ps) !! q = Some Holds ↔ ps !! q = Some Holds.
Proof.
  rewrite lookup_fmap. destruct (ps !! q) as [[]|]; simpl; try done. by case_decide.
Qed.
Lemma wake_asleep cs (ps : gmap Z pstate) q c : (wake cs <$> ps) !! q = Some (Asleep c) → ps !! q = Some (Asleep c) ∧ c ∉ cs.
Proof.
  rewrite lookup_fmap. destruct (ps !! q) as [[]|]; simpl; try done. case_decide; [done|]. by intros [= ->].
Qed.
Lemma wake_woken cs (ps : gmap Z pstate) q c : ps !! q = Some (Asleep c) → c ∈ cs → (wake cs <$> ps) !! q = Some Wants.
Proof. intros Hq Hc. rewrite lookup_fmap, Hq. simpl. by case_decide. Qed.

Lemma sl_step_inv w w' : sl_inv w → sl_step w w' → sl_inv w'.
Proof.
  intros (Hlk & Hown & Hsl) Hstep.
  destruct Hstep as [l ps pid Hp|l l' ps pid Hp Ha|l l' ps pid chan Hp Ha|l l' cs ps pid Hp Hr];
    unfold sl_inv; simpl in *.
  - split_and!; [done| |]; intros q; rewrite lookup_insert; case_decide; subst.
    + split; [done|]. intros Hq%Hown. congruence.
    + apply Hown.
    + done.
    + apply Hsl.
  - destruct (owner l) as [p|] eqn:Ho.
    { rewrite (acquiresleep_held _ _ _ p) in Ha by done. done. }
    rewrite acquiresleep_free in Ha by done. simplify_eq. cbn.
    split_and!; [done| |]; intros q; rewrite lookup_insert; case_decide; subst.
    + done.
    + split; [intros Hq%Hown; done|congruence].
    + done.
    + intros c [-> _]%Hsl. eauto.
  - destruct (owner l) as [p|] eqn:Ho.
    2:{ rewrite acquiresleep_free in Ha by done. done. }
    rewrite (acquiresleep_held _ _ _ p) in Ha by done. simplify_eq.
    split_and!; [done| |]; intros q; rewrite lookup_insert; case_decide; subst.
    + split; [done|]. intros Hq. rewrite <- Ho in Hown. apply Hown in Hq. congruence.
    + rewrite Ho. apply Hown.
    + intros c [= <-]. eauto.
    + rewrite Ho. apply Hsl.
  - rewrite releasesleep_wakes in Hr by done. simplify_eq. cbn.
    split_and!; [done| |]; intros q; rewrite lookup_insert; case_decide; subst; try done.
    + rewrite wake_holds. split; [|done]. intros Hq%Hown. apply Hown in Hp. congruence.
    + intros c [[-> _]%Hsl Hc]%wake_asleep. set_solver.
Qed.

Lemma sl_reachable_inv w w' : sl_init w → rtc sl_step w w' → sl_inv w'.
Proof.
  intros [Hl Hp] Hsteps.
  assert (sl_inv w) as Hinv.
  { unfold sl_inv. rewrite Hl. split_and!; [done| |]; intros pid.
    - split; [|done]. intros H. by specialize (Hp pid _ H).
    - intros c H. by specialize (Hp pid _ H). }
  clear Hl Hp. revert Hinv. induction Hsteps; eauto using sl_step_inv.
Qed.

(** C19: whatever the interleaving of the processes that use one sleep lock,
    at most one of them holds it, [holdingsleep] tells each of them whether it
    is the one, and no wakeup is lost: a process sleeps only while another one
    holds the lock, and when that one calls [releasesleep], the channels it
    wakes include the sleeper's, so that the sleeper is runnable and the next
    [acquiresleep] of any process succeeds. *)
Theorem sleeplock_safe w w' :
  sl_init w → rtc sl_step w w' →
  (∀ p q, w_procs w' !! p = Some Holds → w_procs w' !! q = Some Holds → p = q) ∧
  (∀ p, holdingsleep p (w_lock w') =
     Ok (bool_decide (w_procs w' !! p = Some Holds)) (w_lock w')) ∧
  (∀ p c, w_procs w' !! p = Some (Asleep c) → ∃ q, w_procs w' !! q = Some Holds) ∧
  (∀ q, w_procs w' !! q = Some Holds → ∃ l cs,
     releasesleep 0 (Waking (w_lock w') []) = Ok tt (Waking l cs) ∧
     (∀ p c, w_procs w' !! p = Some (Asleep c) → c ∈ cs) ∧
     ∀ p, ∃ l', acquiresleep 0 p l = Ok tt l').
Proof.
  intros Hi Hs. destruct (sl_reachable_inv _ _ Hi Hs) as (Hlk & Hown & Hsl).
  destruct w' as [lk ps]; simpl in *. split_and!.
  - intros p q Hp%Hown Hq%Hown. congruence.
  - intros p. rewrite holdingsleep_spec by done. f_equal.
    apply bool_decide_ext. by rewrite Hown.
  - intros p c Hp. destruct (Hsl p c Hp) as [_ [q Hq]]. exists q. by apply Hown.
  - intros q _. exists initsleeplock, [0]. split_and!; [by apply releasesleep_wakes| |by eexists].
    intros p c [-> _]%Hsl. set_solver.
Qed.

(** Process 1 takes the lock, process 2 goes to sleep. *)
Definition two_procs : world := World initsleeplock {[1 := Idle; 2 := Idle]}.
Lemma two_procs_init : sl_init two_procs.
Proof.
  split; [done|]. simpl. apply map_Forall_insert_2; [done|]. by apply map_Forall_singleton.
Qed.
Lemma sleeplock_safe_witness :
  ∃ w, rtc sl_step two_procs w ∧ w_procs w !! 2 = Some (Asleep 0) ∧
    ∃ l cs, releasesleep 0 (Waking (w_lock w) []) = Ok tt (Waking l cs) ∧
      ∀ p c, w_procs w !! p = Some (Asleep c) → c ∈ cs.
Proof.
  exists (World (Sleeplock true false 1) {[1 := Holds; 2 := Asleep 0]}).
  assert (rtc sl_step two_procs (World (Sleeplock true false 1) {[1 := Holds; 2 := Asleep 0]}))
    as Hs.
  { eapply rtc_l; [apply (step_want _ _ 1); reflexivity|].
    eapply rtc_l; [apply (step_want _ _ 2); reflexivity|].
    eapply rtc_l; [apply (step_take _ (Sleeplock true false 1) _ 1); reflexivity|].
    eapply rtc_l; [apply (step_sleep _ (Sleeplock true false 1) _ 2 0); reflexivity|].
    apply rtc_refl. }
  split; [exact Hs|]. split; [reflexivity|].
  destruct (proj2 (proj2 (proj2 (sleeplock_safe _ _ two_procs_init Hs))) 1 eq_refl) as (l & cs & Hr & Hc & _).
  exists l, cs. split; [exact Hr|exact Hc].
Defined.

End Sleepers.
