(* ===== verification/Bio.v ===== *)
(** kernel/bio.c: the buffer cache.  Buffers are numbered 0 to NBUF-1, the
    list head [bcache.head] is node NBUF; [prev] and [next] are node numbers.
    The disk is the list of the block writes it has completed; the field
    [disk] of a buffer, set while a transfer is in flight, is private to the
    driver (virtio_disk.c). *)

From S2P Require Import Prelude Riscv Spinlock Sleeplock.

(** * The disk *)

Definition BSIZE : Z := 1024.
Abbreviation block := (list Z).

(** Completed writes, newest first; a crash leaves an older list. *)
Abbreviation disk := (list (Z * block)).

Definition zero_block : block := replicate (Z.to_nat BSIZE) 0.
Fixpoint dread (d : disk) (b : Z) : block :=
  match d with
  | [] => zero_block
  | (b', data) :: d' => if b' =? b then data else dread d' b
  end.

(** * State *)

Record buf := Buf {
  b_valid : bool;      (* has data been read from disk? *)
  b_dev : Z;
  b_blockno : Z;
  b_lock : sleeplock;
  b_refcnt : Z;
  b_prev : nat;        (* LRU cache list *)
  b_next : nat;
  b_data : block;
}.
Definition buf0 : buf := Buf false 0 0 (Sleeplock false false 0) 0 0 0 zero_block.

Definition b_set_valid v b :=
  Buf v (b_dev b) (b_blockno b) (b_lock b) (b_refcnt b) (b_prev b) (b_next b) (b_data b).
Definition b_set_key dev no b :=
  Buf (b_valid b) dev no (b_lock b) (b_refcnt b) (b_prev b) (b_next b) (b_data b).
Definition b_set_lock l b :=
  Buf (b_valid b) (b_dev b) (b_blockno b) l (b_refcnt b) (b_prev b) (b_next b) (b_data b).
Definition b_set_refcnt r b :=
  Buf (b_valid b) (b_dev b) (b_blockno b) (b_lock b) r (b_prev b) (b_next b) (b_data b).
Definition b_set_prev p b :=
  Buf (b_valid b) (b_dev b) (b_blockno b) (b_lock b) (b_refcnt b) p (b_next b) (b_data b).
Definition b_set_next n b :=
  Buf (b_valid b) (b_dev b) (b_blockno b) (b_lock b) (b_refcnt b) (b_prev b) n (b_data b).
Definition b_set_data d b :=
  Buf (b_valid b) (b_dev b) (b_blockno b) (b_lock b) (b_refcnt b) (b_prev b) (b_next b) d.

Record bcache := Bcache {
  bc_lock : bool;
  bc_buf : list buf;   (* buf[NBUF], then head *)
  bc_disk : disk;      (* the device behind virtio_disk_rw *)
}.
Definition nbuf : nat := Z.to_nat NBUF.
Definition head : nat := nbuf.

Definition bc_set_lock (b : bool) (s : bcache) : bcache := Bcache b (bc_buf s) (bc_disk s).
Definition bc_set_disk (d : disk) (s : bcache) : bcache := Bcache (bc_lock s) (bc_buf s) d.
Definition getb (s : bcache) (i : nat) : buf := default buf0 (bc_buf s !! i).
Definition updb (i : nat) (f : buf → buf) (s : bcache) : bcache :=
  Bcache (bc_lock s) (alter f i (bc_buf s)) (bc_disk s).

Definition bc_acquire : M bcache unit := zoom bc_lock bc_set_lock Lock.lk_acquire.
Definition bc_release : M bcache unit := zoom bc_lock bc_set_lock Lock.lk_release.

(** The address of a buffer's lock, as a sleep channel. *)
Definition buf_chan (i : nat) : Z := Z.of_nat i.
Definition buf_lock {A} (i : nat) (m : M sleeplock A) : M bcache A :=
  zoom (λ s, b_lock (getb s i)) (λ l, updb i (b_set_lock l)) m.

(** * Operations *)

Definition binit : M bcache unit :=
  do! modify (bc_set_lock false);
  (* Create linked list of buffers *)
  do! modify (updb head (b_set_prev head));
  do! modify (updb head (b_set_next head));
  loop (nbuf + 1) (λ b,
    if (b <? nbuf)%nat then
      let! hn := gets (λ s, b_next (getb s head)) in
      do! modify (updb b (b_set_next hn));
      do! modify (updb b (b_set_prev head));
      do! modify (updb b (b_set_lock initsleeplock));
      let! hn := gets (λ s, b_next (getb s head)) in
      do! modify (updb hn (b_set_prev b));
      do! modify (updb head (b_set_next b));
      ret (inl (S b))
    else ret (inr tt)) 0%nat.

(** virtio_disk_rw of virtio_disk.c as bio.c uses it: the transfer is complete when it
    returns. *)
Definition disk_rw (i : nat) (write : bool) : M bcache unit :=
  let! b := gets (λ s, getb s i) in
  if write then modify (λ s, bc_set_disk ((b_blockno b, b_data b) :: bc_disk s) s)
  else modify (λ s, updb i (b_set_data (dread (bc_disk s) (b_blockno b))) s).

(** The two scans of [bget]: over [next] for the block, over [prev] for an
    unused buffer. *)
Definition scan (step : buf → nat) (found : buf → bool) (first : nat) : M bcache (option nat) :=
  loop (nbuf + 2) (λ b,
    if (b =? head)%nat then ret (inr None)
    else
      let! x := gets (λ s, getb s b) in
      if found x then ret (inr (Some b)) else ret (inl (step x))) first.

Section bio.
Context (pid : Z).   (* myproc()->pid *)

Definition bget (dev blockno : Z) : M bcache nat :=
  do! bc_acquire;
  (* Is the block already cached? *)
  let! first := gets (λ s, b_next (getb s head)) in
  let! r := scan b_next (λ b, (b_dev b =? dev) && (b_blockno b =? blockno)) first in
  match r with
  | Some b =>
      do! modify (λ s, updb b (b_set_refcnt (u32 (b_refcnt (getb s b) + 1))) s);
      do! bc_release;
      do! buf_lock b (acquiresleep (buf_chan b) pid);
      ret b
  | None =>
      (* Recycle the least recently used (LRU) unused buffer. *)
      let! last := gets (λ s, b_prev (getb s head)) in
      let! r := scan b_prev (λ b, b_refcnt b =? 0) last in
      match r with
      | Some b =>
          do! modify (updb b (b_set_key dev blockno));
          do! modify (updb b (b_set_valid false));
          do! modify (updb b (b_set_refcnt 1));
          do! bc_release;
          do! buf_lock b (acquiresleep (buf_chan b) pid);
          ret b
      | None => panic "bget: no buffers"
      end
  end.

Definition bread (dev blockno : Z) : M bcache nat :=
  let! b := bget dev blockno in
  let! valid := gets (λ s, b_valid (getb s b)) in
  do! when (negb valid)
        (do! disk_rw b false;
         modify (updb b (b_set_valid true)));
  ret b.

Definition bwrite (b : nat) : M bcache unit :=
  let! h := buf_lock b (holdingsleep pid) in
  if negb h then panic "bwrite" else disk_rw b true.

Definition brelse (b : nat) : M bcache unit :=
  let! h := buf_lock b (holdingsleep pid) in
  if negb h then panic "brelse"
  else
    do! buf_lock b (alone (releasesleep (buf_chan b)));
    do! bc_acquire;
    do! modify (λ s, updb b (b_set_refcnt (u32 (b_refcnt (getb s b) - 1))) s);
    let! r := gets (λ s, b_refcnt (getb s b)) in
    do! when (r =? 0)
          ((* no one is waiting for it. *)
           let! bn := gets (λ s, b_next (getb s b)) in
           let! bp := gets (λ s, b_prev (getb s b)) in
           do! modify (updb bn (b_set_prev bp));
           let! bp := gets (λ s, b_prev (getb s b)) in
           let! bn := gets (λ s, b_next (getb s b)) in
           do! modify (updb bp (b_set_next bn));
           let! hn := gets (λ s, b_next (getb s head)) in
           do! modify (updb b (b_set_next hn));
           do! modify (updb b (b_set_prev head));
           let! hn := gets (λ s, b_next (getb s head)) in
           do! modify (updb hn (b_set_prev b));
           modify (updb head (b_set_next b)));
    bc_release.

Definition bpin (b : nat) : M bcache unit :=
  do! bc_acquire;
  do! modify (λ s, updb b (b_set_refcnt (u32 (b_refcnt (getb s b) + 1))) s);
  bc_release.

Definition bunpin (b : nat) : M bcache unit :=
  do! bc_acquire;
  do! modify (λ s, updb b (b_set_refcnt (u32 (b_refcnt (getb s b) - 1))) s);
  bc_release.
End bio.

(** * Circular doubly-linked lists *)

(** From [a] over [l] to [z] along [nx], and back along [pv]. *)
Fixpoint linked (nx pv : nat → nat) (a : nat) (l : list nat) (z : nat) : Prop :=
  match l with
  | [] => nx a = z ∧ pv z = a
  | b :: l' => nx a = b ∧ pv b = a ∧ linked nx pv b l' z
  end.

Lemma linked_app nx pv a l1 b l2 z :
  linked nx pv a (l1 ++ b :: l2) z ↔ linked nx pv a l1 b ∧ linked nx pv b l2 z.
Proof.
  revert a. induction l1 as [|c l1 IH]; intros a; simpl; [tauto|]. rewrite IH. tauto.
Qed.

Lemma linked_ext nx pv nx' pv' a l z :
  (∀ x, x ∈ a :: l → nx' x = nx x) → (∀ x, x ∈ l ++ [z] → pv' x = pv x) →
  linked nx pv a l z → linked nx' pv' a l z.
Proof.
  revert a. induction l as [|b l IH]; intros a Hn Hp; simpl.
  - intros [? ?]. rewrite Hn, Hp by set_solver. done.
  - intros (? & ? & ?). rewrite Hn, Hp by set_solver. split_and!; [done..|].
    apply IH; [set_solver..|done].
Qed.

Lemma linked_first nx pv a l z : linked nx pv a l z → nx a ∈ l ++ [z].
Proof. destruct l; simpl; set_solver. Qed.
Lemma linked_last nx pv a l z : linked nx pv a l z → pv z ∈ a :: l.
Proof.
  revert a. induction l as [|b l IH]; intros a; simpl; [set_solver|].
  intros (_ & _ & H%IH). set_solver.
Qed.

Abbreviation upd f i v := (λ j, if decide (i = j) then v else f j).

(** A segment that ended at [b] ends at [c] instead. *)
Lemma linked_redirect nx pv nx' pv' a l b c :
  linked nx pv a l b → NoDup (a :: l) →
  (∀ x, x ∈ a :: l → nx' x = if decide (pv b = x) then c else nx x) →
  (∀ x, x ∈ l → pv' x = pv x) → pv' c = pv b →
  linked nx' pv' a l c.
Proof.
  revert a. induction l as [|d l IH]; intros a; simpl.
  - intros [? Hb] _ Hn _ ->. split; [|done]. rewrite Hn by set_solver. by rewrite decide_True.
  - intros (Ha & Hd & Hl) Hnd Hn Hp Hc. apply list.NoDup_cons in Hnd as [Han Hnd].
    pose proof (linked_last _ _ _ _ _ Hl).
    rewrite Hn, Hp by set_solver. rewrite decide_False by (intros <-; done).
    split_and!; [done..|]. apply IH; [done..| |set_solver|done]. set_solver.
Qed.

(** Taking [b] out: [b->next->prev = b->prev; b->prev->next = b->next]. *)
Lemma linked_unlink nx pv a l1 b l2 :
  NoDup (a :: l1 ++ b :: l2) → linked nx pv a (l1 ++ b :: l2) a →
  linked (upd nx (pv b) (nx b)) (upd pv (nx b) (pv b)) a (l1 ++ l2) a.
Proof.
  intros Hnd [H1 H2]%linked_app.
  assert (NoDup (a :: l1) ∧ (b ∉ a :: l1) ∧ NoDup (b :: l2) ∧ ∀ x, x ∈ a :: l1 → x ∉ l2)
    as (Hnd1 & Hb & Hnd2 & Hdis).
  { change (a :: l1 ++ b :: l2) with ((a :: l1) ++ b :: l2) in Hnd.
    apply list.NoDup_app in Hnd as (? & Hd & ?). split_and!; [done| |done|]; set_solver. }
  pose proof (linked_last _ _ _ _ _ H1) as Hpv.
  pose proof (linked_first _ _ _ _ _ H2) as Hnx.
  destruct l2 as [|c l2]; simpl in H2.
  - rewrite app_nil_r. destruct H2 as [Hnb Hpa]. rewrite Hnb.
    eapply linked_redirect; [exact H1|done|done| |by rewrite decide_True].
    intros x Hx. rewrite decide_False; [done|]. intros ->.
    apply list.NoDup_cons in Hnd1 as [? _]. done.
  - destruct H2 as (Hnb & Hpb & H2). rewrite Hnb in *. apply linked_app. split.
    + eapply linked_redirect; [exact H1|done|done| |by rewrite decide_True].
      intros x Hx. rewrite decide_False; [done|]. intros ->. set_solver.
    + apply list.NoDup_cons in Hnd2 as [Hb2 Hnd2].
      eapply linked_ext; [| |done].
      * intros x Hx. rewrite decide_False; [done|]. intros <-. set_solver.
      * intros x Hx. rewrite decide_False; [done|]. intros ->.
        apply list.NoDup_cons in Hnd2 as [Hc _]. set_solver.
Qed.

(** Putting [b] behind the head:
    [b->next = head.next; b->prev = &head; head.next->prev = b; head.next = b]. *)
Lemma linked_push nx pv a b l :
  NoDup (a :: l) → b ∉ a :: l → linked nx pv a l a →
  linked (upd (upd nx b (nx a)) a b) (upd (upd pv b a) (nx a) b) a (b :: l) a.
Proof.
  intros Hnd Hb Hl. pose proof (linked_first _ _ _ _ _ Hl) as Hnx. simpl.
  rewrite decide_True by done. split; [done|].
  assert (nx a ≠ b) as Hne by set_solver.
  rewrite decide_False, decide_True by done. split; [done|].
  destruct l as [|c l]; simpl in *.
  - destruct Hl as [Ha Hp]. rewrite Ha. rewrite decide_False by set_solver.
    rewrite !decide_True by done. done.
  - destruct Hl as (Ha & Hp & Hl). rewrite Ha in *.
    rewrite decide_False by set_solver. rewrite !decide_True by done. split_and!; [done..|].
    apply list.NoDup_cons in Hnd as [Han Hnd]. apply list.NoDup_cons in Hnd as [Hcn Hnd].
    eapply linked_ext; [| |done]; intros x Hx.
    + rewrite !decide_False by set_solver. done.
    + rewrite !decide_False by set_solver. done.
Qed.
