(* ===== verification/BioSpec.v ===== *)
(** What the buffer cache promises: an abstract cache that only knows the
    buffers in use, and the proof that bio.c implements it.

    A block that no one refers to is read from the disk; a block in use is
    read from its one buffer, whoever asks for it.  The promise needs the
    rule every client follows: the last reference to a buffer is dropped only
    when its data is on the disk. *)

From S2P Require Import Prelude Riscv Spinlock Sleeplock Bio.

(** * The abstract cache *)

Record abuf := ABuf {
  ab_idx : nat;             (* the buffer *)
  ab_data : block;
  ab_ref : Z;               (* references, at least one *)
  ab_owner : option Z;      (* the process that has it locked *)
}.
Record abio := ABio {
  a_disk : disk;
  a_bufs : gmap Z abuf;     (* block numbers to buffers in use *)
}.

Definition a_set (no : Z) (ab : abuf) (a : abio) : abio :=
  ABio (a_disk a) (<[no := ab]> (a_bufs a)).
Definition a_del (no : Z) (a : abio) : abio := ABio (a_disk a) (delete no (a_bufs a)).
Definition a_write (no : Z) (data : block) (a : abio) : abio :=
  ABio ((no, data) :: a_disk a) (a_bufs a).

(** What a reader of block [no] sees. *)
Definition a_view (a : abio) (no : Z) : block :=
  match a_bufs a !! no with Some ab => ab_data ab | None => dread (a_disk a) no end.

Definition a_unused (a : abio) (i : nat) : Prop :=
  (i < nbuf)%nat ∧ ∀ no ab, a_bufs a !! no = Some ab → ab_idx ab ≠ i.

(** * The representation *)

Abbreviation nx s := (λ i, b_next (getb s i)).
Abbreviation pv s := (λ i, b_prev (getb s i)).

(** [l] is the list from [head.next] on: most recently used first. *)
Record brep (s : bcache) (l : list nat) (a : abio) : Prop := {
  br_lock : bc_lock s = false;
  br_len : length (bc_buf s) = S nbuf;
  br_perm : l ≡ₚ seq 0 nbuf;
  br_list : linked (nx s) (pv s) head l head;
  br_disk : a_disk a = bc_disk s;
  br_sl : ∀ i, (i < nbuf)%nat → sl_lk (b_lock (getb s i)) = false;
  br_ref : ∀ i, (i < nbuf)%nat → fits 32 (b_refcnt (getb s i));
  br_dev : ∀ i, (i < nbuf)%nat → b_dev (getb s i) = 0 ∨ b_dev (getb s i) = ROOTDEV;
  br_uniq : ∀ i j, (i < nbuf)%nat → (j < nbuf)%nat →
    b_dev (getb s i) = ROOTDEV → b_dev (getb s j) = ROOTDEV →
    b_blockno (getb s i) = b_blockno (getb s j) → i = j;
  br_unused : ∀ i, (i < nbuf)%nat → b_refcnt (getb s i) = 0 →
    owner (b_lock (getb s i)) = None ∧
    (b_valid (getb s i) = true → b_dev (getb s i) = ROOTDEV →
     b_data (getb s i) = dread (bc_disk s) (b_blockno (getb s i)));
  br_used : ∀ i, (i < nbuf)%nat → b_refcnt (getb s i) ≠ 0 →
    b_dev (getb s i) = ROOTDEV ∧ b_valid (getb s i) = true ∧
    a_bufs a !! b_blockno (getb s i) =
      Some (ABuf i (b_data (getb s i)) (b_refcnt (getb s i)) (owner (b_lock (getb s i))));
  br_abs : ∀ no ab, a_bufs a !! no = Some ab →
    (ab_idx ab < nbuf)%nat ∧ b_blockno (getb s (ab_idx ab)) = no ∧
    b_refcnt (getb s (ab_idx ab)) ≠ 0;
}.

Lemma getb_updb s i f j :
  (i < length (bc_buf s))%nat →
  getb (updb i f s) j = if decide (i = j) then f (getb s i) else getb s j.
Proof.
  intros Hi. unfold getb, updb. simpl. case_decide as Hij.
  - subst. rewrite list_lookup_alter_eq. destruct (lookup_lt_is_Some_2 _ _ Hi) as [b ->]. done.
  - by rewrite list_lookup_alter_ne.
Qed.
Lemma getb_updb_ne s i f j : i ≠ j → getb (updb i f s) j = getb s j.
Proof. intros Hij. unfold getb, updb. simpl. by rewrite list_lookup_alter_ne. Qed.
Lemma length_updb s i f : length (bc_buf (updb i f s)) = length (bc_buf s).
Proof. apply length_alter. Qed.

Lemma dread_cons b d no data :
  dread ((b, data) :: d) no = if decide (b = no) then data else dread d no.
Proof. simpl. destruct (Z.eqb_spec b no); case_decide; congruence. Qed.

(** * binit *)

(** The zero-initialised [bcache] of the kernel image, on disk [d]. *)
Definition bss (d : disk) : bcache := Bcache false (replicate (S nbuf) buf0) d.

(** Case analysis on which nodes coincide. *)
Ltac node_cases :=
  repeat (rewrite getb_updb by (rewrite ?length_updb; lia)); simpl;
  repeat case_decide; subst; simpl; try done; try congruence; try lia.

Definition pristine (x : buf) : Prop :=
  b_valid x = false ∧ b_dev x = 0 ∧ b_lock x = initsleeplock ∧ b_refcnt x = 0.

Lemma linked_nodes nx pv l z :
  linked nx pv z l z → ∀ x, x ∈ z :: l → nx x ∈ z :: l ∧ pv x ∈ z :: l.
Proof.
  intros Hl x Hx.
  assert (∀ a l, linked nx pv a l z → ∀ x, (x ∈ a :: l → nx x ∈ l ++ [z]) ∧
            (x ∈ l ++ [z] → pv x ∈ a :: l)) as H.
  { clear. intros a l. revert a. induction l as [|b l IH]; intros a; simpl.
    - intros [Ha Hp] x. split; intros ->%list_elem_of_singleton; set_solver.
    - intros (Ha & Hp & Hl) x. destruct (IH _ Hl x) as [H1 H2]. split.
      + intros [->|Hx]%elem_of_cons; [rewrite Ha; set_solver|]. set_solver.
      + intros [->|Hx]%elem_of_cons; [rewrite Hp; set_solver|]. set_solver. }
  destruct (H _ _ Hl x) as [H1 H2]. set_solver.
Qed.

(** No node of a list points to itself. *)
Lemma linked_no_loop nx pv z l :
  linked nx pv z l z → NoDup l → z ∉ l → ∀ x, x ∈ l → nx x ≠ x.
Proof.
  intros Hl Hnd Hz x Hx.
  apply list_elem_of_split in Hx as (l1 & l2 & ->). apply linked_app in Hl as [_ Hl].
  apply linked_first in Hl as Hf. apply list.NoDup_app in Hnd as (_ & _ & Hnd).
  apply list.NoDup_cons in Hnd as [Hx _]. intros Heq.
  rewrite Heq, elem_of_app, list_elem_of_singleton in Hf. destruct Hf as [?| ->]; [done|].
  apply Hz, elem_of_app. right. by left.
Qed.

Lemma binit_spec d :
  wp binit (λ _ s, brep s (reverse (seq 0 nbuf)) (ABio d ∅)) (bss d).
Proof.
  unfold binit. wp_steps.
  eapply (wp_loop _ (λ b s, (b ≤ nbuf)%nat ∧ bc_lock s = false ∧ bc_disk s = d ∧
      length (bc_buf s) = S nbuf ∧ (∀ i, (i < nbuf)%nat → pristine (getb s i)) ∧
      linked (nx s) (pv s) head (reverse (seq 0 b)) head)
    (λ b _, nbuf - b)%nat).
  - intros b s (Hb & Hlk & Hd & Hlen & Hpr & Hl).
    destruct (Nat.ltb_spec b nbuf).
    + wp_steps. unfold head in *.
      assert (b_next (getb s nbuf) ≤ nbuf)%nat as Hhn.
      { pose proof (linked_first _ _ _ _ _ Hl) as Hf. rewrite elem_of_app, elem_of_reverse,
          elem_of_seq, list_elem_of_singleton in Hf. lia. }
      rewrite !(getb_updb _ _ _ nbuf) by (rewrite ?length_updb; lia).
      rewrite !decide_False by lia. 
      split; [|lia]. split_and!; [lia|done|done|by rewrite !length_updb| |].
      * intros i Hi. pose proof (Hpr i Hi) as (? & ? & ? & ?).
        generalize dependent (b_next (getb s nbuf)). intros.
        unfold pristine. node_cases; lia.
      * rewrite seq_S, reverse_app. cbn [reverse rev_append app].
        change (reverse [b] ++ reverse (seq 0 b)) with (b :: reverse (seq 0 b)).
        eapply linked_ext; [| |apply (linked_push (nx s) (pv s)); [| |done]].
        -- intros x _. node_cases.
        -- intros x _. node_cases.
        -- apply list.NoDup_cons. rewrite elem_of_reverse, elem_of_seq.
           split; [lia|]. rewrite reverse_Permutation. apply NoDup_seq.
        -- rewrite elem_of_cons, elem_of_reverse, elem_of_seq. lia.
    + apply wp_ret. assert (b = nbuf) as -> by lia. split; try done.
      * by rewrite reverse_Permutation.
      * intros i Hi. by destruct (Hpr i Hi) as (_ & _ & -> & _).
      * intros i Hi. by destruct (Hpr i Hi) as (_ & _ & _ & ->).
      * intros i Hi. left. by apply Hpr.
      * intros i j Hi _ Hdi. by destruct (Hpr i Hi) as (_ & Hdev & _); rewrite Hdev in Hdi.
      * intros i Hi _. destruct (Hpr i Hi) as (-> & _ & -> & _). done.
      * intros i Hi Hne. by destruct (Hpr i Hi) as (_ & _ & _ & ?).
  - split_and!; [lia|done|done| | |]; try done.
    intros i Hi. assert (length (bc_buf (bc_set_lock false (bss d))) = S nbuf) by done.
    assert (getb (bc_set_lock false (bss d)) i = buf0) as Hb0.
    { unfold getb. cbn [bc_set_lock bss bc_buf].
      destruct (replicate _ _ !! i) eqn:Hr; [|done]. by apply lookup_replicate in Hr as [-> _]. }
    rewrite getb_updb by (rewrite length_updb; unfold head; lia).
    rewrite decide_False by (unfold head; lia).
    rewrite getb_updb, decide_False by (unfold head; lia). by rewrite Hb0.
  - lia.
Qed.

(** * The scans *)

(** The nodes a scan visits from [a] on until [z]. *)
Fixpoint path (f : nat → nat) (a : nat) (l : list nat) (z : nat) : Prop :=
  match l with
  | [] => a = z
  | b :: l' => a = b ∧ path f (f b) l' z
  end.

Lemma path_app f a l1 b l2 z : path f a l1 b → path f b l2 z → path f a (l1 ++ l2) z.
Proof.
  revert a. induction l1 as [|c l1 IH]; intros a; simpl; [by intros ->|].
  intros [-> H] H2. split; [done|]. by apply IH.
Qed.
Lemma linked_path_next nx pv a l z : linked nx pv a l z → path nx (nx a) l z.
Proof.
  revert a. induction l as [|b l IH]; intros a; simpl; [tauto|].
  intros (-> & _ & H). split; [done|]. by apply IH.
Qed.
Lemma linked_path_prev nx pv a l z : linked nx pv a l z → path pv (pv z) (reverse l) a.
Proof.
  revert a. induction l as [|b l IH]; intros a; simpl; [tauto|].
  intros (_ & Hb & H). rewrite reverse_cons. eapply path_app; [by apply IH|]. by simpl.
Qed.

(** The first visited buffer that satisfies [found]. *)
Definition first_found (s : bcache) (found : buf → bool) (l : list nat) (r : option nat) : Prop :=
  match r with
  | Some b => ∃ l1 l2, l = l1 ++ b :: l2 ∧ found (getb s b) = true ∧
                ∀ i, i ∈ l1 → found (getb s i) = false
  | None => ∀ i, i ∈ l → found (getb s i) = false
  end.

Lemma scan_spec (step : buf → nat) found s a l :
  path (λ i, step (getb s i)) a l head → head ∉ l → (length l ≤ nbuf)%nat →
  wp (scan step found a) (λ r s', s' = s ∧ first_found s found l r) s.
Proof.
  intros Hp Hh Hlen. unfold scan.
  assert (∀ fuel, (length l < fuel)%nat → wp (loop fuel (λ b,
    if (b =? head)%nat then ret (inr None)
    else
      let! x := gets (λ s, getb s b) in
      if found x then ret (inr (Some b)) else ret (inl (step x))) a)
    (λ r s', s' = s ∧ first_found s found l r) s) as H; [|apply H; lia].
  clear Hlen. revert a Hp. induction l as [|b l IH]; intros a Hp fuel Hf;
    (destruct fuel as [|fuel]; [simpl in Hf; lia|]); simpl in Hp.
  - subst a. cbn [loop]. rewrite Nat.eqb_refl. apply wp_bind, wp_ret, wp_ret.
    split; [done|]. intros i Hi. set_solver.
  - destruct Hp as [-> Hp]. cbn [loop]. destruct (Nat.eqb_spec b head) as [->|_]; [set_solver|].
    apply wp_bind, wp_bind, wp_gets. destruct (found (getb s b)) eqn:Hfd.
    + apply wp_ret, wp_ret. split; [done|]. exists [], l. split_and!; [done..|set_solver].
    + apply wp_ret. eapply wp_mono; [apply IH; [set_solver|done|simpl in Hf; lia]|].
      intros r s' [-> Hr]. split; [done|]. destruct r as [i|]; simpl in *.
      * destruct Hr as (l1 & l2 & -> & Hfi & Hl1). exists (b :: l1), l2.
        split_and!; [done..|]. intros j [->|Hj]%elem_of_cons; [done|by apply Hl1].
      * intros j [->|Hj]%elem_of_cons; [done|by apply Hr].
Qed.

(** * Changing one buffer *)

(** [s'] is [s] with buffer [i] replaced by [x']; its links are unchanged. *)
Record upd_at (s : bcache) (i : nat) (x' : buf) (s' : bcache) : Prop := {
  ua_lock : bc_lock s' = bc_lock s;
  ua_len : length (bc_buf s') = length (bc_buf s);
  ua_disk : bc_disk s' = bc_disk s;
  ua_get : ∀ j, getb s' j = if decide (i = j) then x' else getb s j;
  ua_prev : b_prev x' = b_prev (getb s i);
  ua_next : b_next x' = b_next (getb s i);
}.

Lemma upd_at_linked s i x' s' l :
  upd_at s i x' s' → linked (nx s) (pv s) head l head → linked (nx s') (pv s') head l head.
Proof.
  intros Hu. apply linked_ext; intros x _; rewrite (ua_get _ _ _ _ Hu);
    case_decide; subst; [apply Hu|done|apply Hu|done].
Qed.

Definition buf_abs (i : nat) (x : buf) : option abuf :=
  if decide (b_refcnt x = 0) then None
  else Some (ABuf i (b_data x) (b_refcnt x) (owner (b_lock x))).

(** The abstract cache of [a] after buffer [i] became [x']. *)
Definition a_upd (i : nat) (x' : buf) (a : abio) : abio :=
  ABio (a_disk a) (partial_alter (λ _, buf_abs i x') (b_blockno x') (a_bufs a)).

Lemma brep_upd s l a i x' s' :
  brep s l a → (i < nbuf)%nat → upd_at s i x' s' →
  sl_lk (b_lock x') = false → fits 32 (b_refcnt x') → b_dev x' = ROOTDEV →
  (∀ j, (j < nbuf)%nat → i ≠ j → b_dev (getb s j) = ROOTDEV →
     b_blockno (getb s j) ≠ b_blockno x') →
  (∀ no ab, a_bufs a !! no = Some ab → ab_idx ab = i → no = b_blockno x') →
  (b_refcnt x' = 0 → owner (b_lock x') = None ∧
     (b_valid x' = true → b_data x' = dread (bc_disk s) (b_blockno x'))) →
  (b_refcnt x' ≠ 0 → b_valid x' = true) →
  brep s' l (a_upd i x' a).
Proof.
  intros [] Hi Hu Hsl Hfit Hdev Huniq Hidx Hun Hus. pose proof (ua_get _ _ _ _ Hu) as Hg.
  split.
  - rewrite (ua_lock _ _ _ _ Hu). done.
  - rewrite (ua_len _ _ _ _ Hu). done.
  - done.
  - by eapply upd_at_linked.
  - rewrite (ua_disk _ _ _ _ Hu). done.
  - intros j Hj. rewrite Hg. case_decide; auto.
  - intros j Hj. rewrite Hg. case_decide; auto.
  - intros j Hj. rewrite Hg. case_decide; auto.
  - intros j k Hj Hk. rewrite !Hg. repeat case_decide; subst; try done; [| |by apply br_uniq0].
    + intros _ Hdk Heq. exfalso. eapply (Huniq k); [done..|by symmetry].
    + intros Hdj _ Heq. exfalso. by apply (Huniq j).
  - intros j Hj. rewrite Hg, (ua_disk _ _ _ _ Hu). case_decide; [|by apply br_unused0].
    intros H0. destruct (Hun H0). auto.
  - intros j Hj. rewrite Hg. simpl. case_decide; subst.
    + intros Hne. split_and!; [done|by apply Hus|]. rewrite lookup_partial_alter_eq.
      unfold buf_abs. by rewrite decide_False.
    + intros Hne. destruct (br_used0 j Hj Hne) as (Hd & Hv & Ha). split_and!; [done..|].
      rewrite lookup_partial_alter_ne; [done|]. intros Heq. by apply (Huniq j).
  - intros no ab. simpl. rewrite lookup_partial_alter. case_decide; subst.
    + unfold buf_abs. case_decide; [done|]. intros ?. simplify_eq/=. by rewrite Hg, decide_True.
    + intros Ha. destruct (br_abs0 no ab Ha) as (H1 & H2 & H3). rewrite Hg.
      rewrite decide_False; [done|]. intros ->. by pose proof (Hidx _ _ Ha eq_refl).
Qed.

(** * bread *)

Lemma brep_nodes s l a : brep s l a →
  (∀ i, i ∈ l ↔ (i < nbuf)%nat) ∧ (head ∉ l) ∧ length l = nbuf ∧ NoDup l.
Proof.
  intros Hr. pose proof (br_perm _ _ _ Hr) as Hp.
  assert (∀ i, i ∈ l ↔ (i < nbuf)%nat) as Hin.
  { intros i. rewrite Hp, elem_of_seq. lia. }
  split_and!; [done| | |].
  - rewrite Hin. unfold head. lia.
  - by rewrite Hp, length_seq.
  - rewrite Hp. apply NoDup_seq.
Qed.

Section bread.
Context (pid : Z).

(** The end of [bget] in both branches, [x] being the buffer by then. *)
Lemma bget_lock s i x :
  (i < length (bc_buf s))%nat → bc_lock s = true → getb s i = x →
  sl_lk (b_lock x) = false → owner (b_lock x) = None →
  wp (do! bc_release; do! buf_lock i (acquiresleep (buf_chan i) pid); ret i)
    (λ r s', r = i ∧ s' = updb i (b_set_lock (Sleeplock true false pid)) (bc_set_lock false s)) s.
Proof.
  intros Hi Hlk Hx Hsl Ho. apply wp_bind, wp_lock_release; [done|].
  apply wp_bind, wp_zoom. eapply wp_run; [apply acquiresleep_free|by apply wp_ret].
  - change (getb (bc_set_lock false s) i) with (getb s i). by rewrite Hx.
  - change (getb (bc_set_lock false s) i) with (getb s i). by rewrite Hx.
Qed.
Lemma bget_sleep s i x p :
  bc_lock s = true → getb s i = x → sl_lk (b_lock x) = false → owner (b_lock x) = Some p →
  ∃ s', (do! bc_release; do! buf_lock i (acquiresleep (buf_chan i) pid); ret i) s =
        Blocked (buf_chan i) s'.
Proof.
  intros Hlk Hx Hsl Ho. unfold bind, bc_release, zoom. rewrite Hlk. simpl.
  unfold buf_lock, zoom. change (getb (bc_set_lock false s) i) with (getb s i).
  rewrite Hx, (acquiresleep_held _ _ _ p) by done. by eexists.
Qed.

Definition has_key (no : Z) (b : buf) : bool := (b_dev b =? ROOTDEV) && (b_blockno b =? no).
Definition bump (i : nat) : M bcache nat :=
  do! modify (λ s, updb i (b_set_refcnt (u32 (b_refcnt (getb s i) + 1))) s);
  do! bc_release; do! buf_lock i (acquiresleep (buf_chan i) pid); ret i.
Definition recycle (i : nat) (no : Z) : M bcache nat :=
  do! modify (updb i (b_set_key ROOTDEV no));
  do! modify (updb i (b_set_valid false));
  do! modify (updb i (b_set_refcnt 1));
  do! bc_release; do! buf_lock i (acquiresleep (buf_chan i) pid); ret i.

(** Which branch [bget] takes. *)
Lemma bget_eq s l a no :
  brep s l a →
  ∃ r, first_found s (has_key no) l r ∧
  match r with
  | Some i => bget pid ROOTDEV no s = bump i (bc_set_lock true s)
  | None => ∃ r', first_found s (λ b, b_refcnt b =? 0) (reverse l) r' ∧
      match r' with
      | Some i => bget pid ROOTDEV no s = recycle i no (bc_set_lock true s)
      | None => bget pid ROOTDEV no s = Panic "bget: no buffers"
      end
  end.
Proof.
  intros Hr. destruct (brep_nodes s l a Hr) as (Hin & Hh & Hlen & Hnd).
  set (s1 := bc_set_lock true s).
  pose proof (scan_spec b_next (has_key no) s1 _ l
    (linked_path_next _ _ _ _ _ (br_list _ _ _ Hr)) Hh ltac:(lia)) as H1.
  apply wp_ok in H1 as (r & s' & H1 & -> & Hf). exists r. split; [done|].
  assert (bget pid ROOTDEV no s = match r with
    | Some i => bump i s1
    | None => (let! last := gets (λ s, b_prev (getb s head)) in
               let! r := scan b_prev (λ b, b_refcnt b =? 0) last in
               match r with
               | Some b => recycle b no
               | None => panic "bget: no buffers"
               end) s1
    end) as Hb.
  { unfold bget, bc_acquire, zoom, bind at 1. simpl. rewrite (br_lock _ _ _ Hr). simpl.
    fold s1. unfold bind at 1, gets at 1. cbn beta iota.
    unfold bind at 1.
    change (scan b_next _ _ s1) with (scan b_next (has_key no) (b_next (getb s head)) s1).
    rewrite H1. by destruct r. }
  destruct r as [i|]; [done|].
  pose proof (scan_spec b_prev (λ b, b_refcnt b =? 0) s1 _ (reverse l)
    (linked_path_prev _ _ _ _ _ (br_list _ _ _ Hr))) as H2.
  apply wp_ok in H2 as (r' & s' & H2 & -> & Hf2).
  2:{ by rewrite elem_of_reverse. } 2:{ rewrite length_reverse. lia. }
  exists r'. split; [done|].
  destruct r'; rewrite Hb; unfold bind at 1, gets at 1; cbn beta iota; unfold bind at 1;
    change (scan b_prev _ _ s1)
      with (scan b_prev (λ b, b_refcnt b =? 0) (b_prev (getb s head)) s1); by rewrite H2.
Qed.

(** The buffer [bread] returns. *)
Definition got (x : buf) (no r : Z) (data : block) : buf :=
  Buf true ROOTDEV no (Sleeplock true false pid) r (b_prev x) (b_next x) data.

(** The part of [bread] after [bget]. *)
Lemma bread_fill s i :
  (i < length (bc_buf s))%nat →
  wp (let! valid := gets (λ s, b_valid (getb s i)) in
      do! when (negb valid)
            (do! disk_rw i false; modify (updb i (b_set_valid true)));
      ret i)
    (λ r s', r = i ∧ bc_lock s' = bc_lock s ∧ bc_disk s' = bc_disk s ∧
      length (bc_buf s') = length (bc_buf s) ∧
      ∀ j, getb s' j = if decide (i = j) then
        b_set_valid true (if b_valid (getb s i) then getb s i else
          b_set_data (dread (bc_disk s) (b_blockno (getb s i))) (getb s i))
        else getb s j) s.
Proof.
  intros Hi. apply wp_bind, wp_gets. destruct (b_valid (getb s i)) eqn:Hv; cbn [negb when].
  - wp_steps. split_and!; [done..|]. intros j. case_decide; [|done]. subst.
    destruct (getb s j) eqn:E. simpl in *. by subst.
  - unfold disk_rw. wp_steps. split_and!; [done..| |].
    + by rewrite !length_updb.
    + intros j. rewrite !getb_updb by (rewrite ?length_updb; lia). by repeat case_decide; subst.
Qed.

Lemma wp_eq {S A} (m m' : M S A) Q s s' : m s = m' s' → wp m' Q s' → wp m Q s.
Proof. unfold wp. by intros ->. Qed.

Lemma bump_spec s i :
  (i < length (bc_buf s))%nat → bc_lock s = false →
  sl_lk (b_lock (getb s i)) = false → owner (b_lock (getb s i)) = None →
  wp (bump i) (λ r s', r = i ∧ upd_at s i
    (b_set_lock (Sleeplock true false pid)
      (b_set_refcnt (u32 (b_refcnt (getb s i) + 1)) (getb s i))) s') (bc_set_lock true s).
Proof.
  intros Hi Hlk Hsl Ho. unfold bump. apply wp_bind, wp_modify.
  set (s1 := updb i _ _). assert (∀ j, getb s1 j = if decide (i = j)
    then b_set_refcnt (u32 (b_refcnt (getb s i) + 1)) (getb s i) else getb s j) as Hg.
  { intros j. unfold s1. by rewrite getb_updb. }
  assert (length (bc_buf s1) = length (bc_buf s)) as Hl1 by (unfold s1; by rewrite length_updb).
  eapply wp_mono; [eapply bget_lock; [lia|done|by rewrite Hg, decide_True|done|done]|].
  intros r s' [-> ->]. split; [done|]. split; try done.
  - by rewrite length_updb.
  - intros j. rewrite getb_updb by (change (bc_buf (bc_set_lock false s1)) with (bc_buf s1); lia).
    change (getb (bc_set_lock false s1)) with (getb s1). rewrite !Hg.
    by repeat case_decide; subst.
Qed.

Lemma recycle_spec s i no :
  (i < length (bc_buf s))%nat → bc_lock s = false →
  sl_lk (b_lock (getb s i)) = false → owner (b_lock (getb s i)) = None →
  wp (recycle i no) (λ r s', r = i ∧ upd_at s i
    (b_set_lock (Sleeplock true false pid)
      (b_set_refcnt 1 (b_set_valid false (b_set_key ROOTDEV no (getb s i))))) s')
    (bc_set_lock true s).
Proof.
  intros Hi Hlk Hsl Ho. unfold recycle. do 3 apply wp_bind, wp_modify.
  set (s1 := updb i _ _). assert (∀ j, getb s1 j = if decide (i = j)
    then b_set_refcnt 1 (b_set_valid false (b_set_key ROOTDEV no (getb s i)))
    else getb s j) as Hg.
  { intros j. unfold s1. rewrite !getb_updb by (rewrite ?length_updb; done).
    by repeat case_decide; subst. }
  assert (length (bc_buf s1) = length (bc_buf s)) as Hl1 by (unfold s1; by rewrite !length_updb).
  eapply wp_mono; [eapply bget_lock; [lia|done|by rewrite Hg, decide_True|done|done]|].
  intros r s' [-> ->]. split; [done|]. split; try done.
  - by rewrite length_updb.
  - intros j. rewrite getb_updb by (change (bc_buf (bc_set_lock false s1)) with (bc_buf s1); lia).
    change (getb (bc_set_lock false s1)) with (getb s1). rewrite !Hg.
    by repeat case_decide; subst.
Qed.

Lemma bread_from_bget s i no x :
  (i < length (bc_buf s))%nat →
  wp (bget pid ROOTDEV no) (λ r s', r = i ∧ upd_at s i x s') s →
  b_dev x = ROOTDEV → b_blockno x = no → b_lock x = Sleeplock true false pid →
  wp (bread pid ROOTDEV no) (λ r s', r = i ∧ upd_at s i
    (got (getb s i) no (b_refcnt x)
       (if b_valid x then b_data x else dread (bc_disk s) no)) s') s.
Proof.
  intros Hi Hb Hdev Hno Hlk. unfold bread. apply wp_bind. eapply wp_mono; [exact Hb|].
  intros r s1 [-> Hu]. pose proof (ua_len _ _ _ _ Hu) as Hlen.
  eapply wp_mono; [apply bread_fill; lia|].
  intros r s2 (-> & H1 & H2 & H3 & Hg). split; [done|].
  pose proof (ua_get _ _ _ _ Hu) as Hg1. pose proof (ua_prev _ _ _ _ Hu).
  pose proof (ua_next _ _ _ _ Hu).
  split; [rewrite H1; apply Hu|lia|rewrite H2; apply Hu| |done|done].
  intros j. rewrite Hg, !Hg1. case_decide; [|done]. subst j. rewrite decide_True by done.
  rewrite (ua_disk _ _ _ _ Hu). unfold got.
  destruct x as [v dv bn lk rf pr nx dt]; simpl in *. subst. by destruct v.
Qed.

(** [bread] on a cached block, on an uncached one, and with no buffer
    free; the recycled buffer is the least recently used unused one. *)
Lemma bread_run s l a no :
  brep s l a →
  (∃ i, (i < nbuf)%nat ∧ has_key no (getb s i) = true ∧
     match owner (b_lock (getb s i)) with
     | Some _ => ∃ s', bread pid ROOTDEV no s = Blocked (buf_chan i) s'
     | None => wp (bread pid ROOTDEV no) (λ r s', r = i ∧ upd_at s i
         (got (getb s i) no (u32 (b_refcnt (getb s i) + 1))
            (if b_valid (getb s i) then b_data (getb s i) else dread (bc_disk s) no)) s') s
     end) ∨
  ((∀ i, (i < nbuf)%nat → has_key no (getb s i) = false) ∧
   ((∃ l1 i l2, l = l1 ++ i :: l2 ∧ b_refcnt (getb s i) = 0 ∧
       (∀ j, j ∈ l2 → b_refcnt (getb s j) ≠ 0) ∧
       wp (bread pid ROOTDEV no) (λ r s', r = i ∧ upd_at s i
         (got (getb s i) no 1 (dread (bc_disk s) no)) s') s) ∨
    ((∀ i, (i < nbuf)%nat → b_refcnt (getb s i) ≠ 0) ∧
     bread pid ROOTDEV no s = Panic "bget: no buffers"))).
Proof.
  intros Hr. destruct (brep_nodes s l a Hr) as (Hin & Hh & Hlen & Hnd).
  pose proof (br_len _ _ _ Hr) as Hbl. pose proof (br_lock _ _ _ Hr) as Hlk.
  destruct (bget_eq s l a no Hr) as (r & Hf & Hb). destruct r as [i|]; simpl in Hf.
  - left. destruct Hf as (l1 & l2 & -> & Hk & _).
    assert (i < nbuf)%nat as Hi by (apply Hin; set_solver). exists i. split_and!; [done..|].
    pose proof Hk as Hk'. unfold has_key in Hk'. bool_facts.
    pose proof (br_sl _ _ _ Hr i Hi) as Hsl.
    destruct (owner _) as [p|] eqn:Ho.
    + destruct (bget_sleep (updb i (b_set_refcnt (u32 (b_refcnt (getb s i) + 1)))
        (bc_set_lock true s)) i (b_set_refcnt (u32 (b_refcnt (getb s i) + 1)) (getb s i)) p)
        as [s' Hs']; [done| |done|done|].
      { rewrite getb_updb by (simpl; lia). by rewrite decide_True. }
      exists s'. unfold bread, bind at 1. rewrite Hb. unfold bump, bind at 1, modify.
      cbn beta iota. change (getb (bc_set_lock true s) i) with (getb s i). by rewrite Hs'.
    + apply (bread_from_bget s i no (b_set_lock (Sleeplock true false pid)
        (b_set_refcnt (u32 (b_refcnt (getb s i) + 1)) (getb s i)))); [lia| |done..].
      eapply wp_eq; [exact Hb|]. apply bump_spec; [lia|done..].
  - right. split.
    { intros i Hi. apply Hf. by apply Hin. }
    destruct Hb as (r' & Hf' & Hb). destruct r' as [i|]; simpl in Hf'.
    + left. destruct Hf' as (l1 & l2 & Hl & Hi0 & Hl1).
      apply (f_equal reverse) in Hl. rewrite reverse_involutive, reverse_app, reverse_cons in Hl.
      rewrite <- app_assoc in Hl. simpl in Hl. bool_facts.
      assert (i < nbuf)%nat as Hi by (apply Hin; rewrite Hl; set_solver).
      exists (reverse l2), i, (reverse l1). split_and!; [done|done| |].
      * intros j Hj. rewrite elem_of_reverse in Hj. specialize (Hl1 j Hj). by bool_facts.
      * apply (bread_from_bget s i no (b_set_lock (Sleeplock true false pid)
          (b_set_refcnt 1 (b_set_valid false (b_set_key ROOTDEV no (getb s i))))));
          [lia| |done..].
        eapply wp_eq; [exact Hb|].
        apply recycle_spec; [lia|done|by apply (br_sl _ _ _ Hr)|by apply (br_unused _ _ _ Hr)].
    + right. split.
      * intros i Hi. specialize (Hf' i). rewrite elem_of_reverse, Hin in Hf'.
        specialize (Hf' Hi). by bool_facts.
      * unfold bread, bind at 1. by rewrite Hb.
Qed.

Lemma a_upd_used i x a :
  b_refcnt x ≠ 0 →
  a_upd i x a =
    a_set (b_blockno x) (ABuf i (b_data x) (b_refcnt x) (owner (b_lock x))) a.
Proof. intros Hx. unfold a_upd, buf_abs. by rewrite decide_False. Qed.
Lemma a_upd_unused i x a : b_refcnt x = 0 → a_upd i x a = a_del (b_blockno x) a.
Proof. intros Hx. unfold a_upd, buf_abs. by rewrite decide_True. Qed.

Lemma brep_unused s l a i :
  brep s l a → (i < nbuf)%nat → b_refcnt (getb s i) = 0 ↔ a_unused a i.
Proof.
  intros Hr Hi. split.
  - intros H0. split; [done|]. intros no ab Hab <-.
    by destruct (br_abs _ _ _ Hr no ab Hab) as (_ & _ & ?).
  - intros [_ Hu]. destruct (decide (b_refcnt (getb s i) = 0)) as [|Hne]; [done|].
    destruct (br_used _ _ _ Hr i Hi Hne) as (_ & _ & Ha). by apply Hu in Ha.
Qed.
Lemma brep_lookup s l a no ab :
  brep s l a → a_bufs a !! no = Some ab →
  let x := getb s (ab_idx ab) in
  (ab_idx ab < nbuf)%nat ∧ b_dev x = ROOTDEV ∧ b_blockno x = no ∧ b_valid x = true ∧
  b_data x = ab_data ab ∧ b_refcnt x = ab_ref ab ∧ owner (b_lock x) = ab_owner ab ∧
  b_refcnt x ≠ 0.
Proof.
  intros Hr Hab. destruct (br_abs _ _ _ Hr no ab Hab) as (Hi & Hno & Hne).
  destruct (br_used _ _ _ Hr _ Hi Hne) as (Hd & Hv & Ha). cbv zeta.
  rewrite Hno, Hab in Ha. destruct ab. simpl in *. simplify_eq. done.
Qed.

(** The buffers that [no] may be read into. *)
Lemma bread_brep s l a no i r data s' :
  brep s l a → (i < nbuf)%nat →
  (has_key no (getb s i) = true ∨
   (b_refcnt (getb s i) = 0 ∧ ∀ j, (j < nbuf)%nat → has_key no (getb s j) = false)) →
  0 < r < 2 ^ 32 → upd_at s i (got (getb s i) no r data) s' →
  brep s' l (a_set no (ABuf i data r (Some pid)) a).
Proof.
  intros Hr Hi Hk Hrr Hu.
  pose proof (brep_upd s l a i _ s' Hr Hi Hu) as Hb.
  rewrite a_upd_used in Hb by (simpl; lia). apply Hb; clear Hb; simpl; try done.
  - unfold fits. lia.
  - intros j Hj Hne Hdj Hno. destruct Hk as [Hk|[_ Hk]].
    + unfold has_key in Hk. bool_facts. apply Hne, (br_uniq _ _ _ Hr); [done..|congruence].
    + specialize (Hk j Hj). unfold has_key in Hk. rewrite Hdj, Hno, !Z.eqb_refl in Hk. done.
  - intros no' ab Hab Hidx. destruct (br_abs _ _ _ Hr no' ab Hab) as (_ & Hno & Hne).
    rewrite Hidx in *. destruct Hk as [Hk|[H0 _]]; [|done].
    unfold has_key in Hk. bool_facts. congruence.
  - lia.
Qed.

Lemma bread_cached s l a no ab :
  brep s l a → a_bufs a !! no = Some ab → ab_owner ab = None → ab_ref ab < 2 ^ 32 - 1 →
  wp (bread pid ROOTDEV no) (λ i s', i = ab_idx ab ∧
    brep s' l (a_set no (ABuf i (ab_data ab) (ab_ref ab + 1) (Some pid)) a)) s.
Proof.
  intros Hr Hab Ho Href.
  destruct (brep_lookup s l a no ab Hr Hab) as (Hi & Hd & Hno & Hv & Hdt & Hrf & How & Hne).
  pose proof (br_ref _ _ _ Hr _ Hi) as Hfit. unfold fits in Hfit.
  assert (has_key no (getb s (ab_idx ab)) = true) as Hkey.
  { unfold has_key. by rewrite Hd, Hno, !Z.eqb_refl. }
  destruct (bread_run s l a no Hr) as [(i & Hi' & Hk & Hm)|[Hnk _]].
  2:{ by rewrite Hnk in Hkey. }
  assert (i = ab_idx ab) as ->.
  { unfold has_key in Hk. bool_facts. apply (br_uniq _ _ _ Hr); [done..|congruence]. }
  rewrite How, Ho in Hm. eapply wp_mono; [exact Hm|]. intros i s' [-> Hu]. split; [done|].
  rewrite Hv, Hdt, Hrf, u32_id in Hu by (unfold fits; lia).
  eapply bread_brep; [done|done|by left|lia|done].
Qed.

Lemma bread_uncached s l a no :
  brep s l a → a_bufs a !! no = None → (∃ i, a_unused a i) →
  wp (bread pid ROOTDEV no) (λ i s', a_unused a i ∧
    brep s' l (a_set no (ABuf i (dread (a_disk a) no) 1 (Some pid)) a)) s.
Proof.
  intros Hr Hnone [j0 Hj0].
  assert (∀ i, (i < nbuf)%nat → has_key no (getb s i) = true → b_refcnt (getb s i) = 0) as Hkz.
  { intros i Hi Hk. destruct (decide (b_refcnt (getb s i) = 0)) as [|Hne]; [done|].
    destruct (br_used _ _ _ Hr i Hi Hne) as (_ & _ & Ha). unfold has_key in Hk. bool_facts.
    congruence. }
  rewrite (br_disk _ _ _ Hr).
  destruct (bread_run s l a no Hr) as [(i & Hi & Hk & Hm)|[Hnk [Hm|Hm]]].
  - pose proof (Hkz i Hi Hk) as H0. destruct (br_unused _ _ _ Hr i Hi H0) as [Ho Hdt].
    rewrite Ho in Hm. eapply wp_mono; [exact Hm|]. intros i' s' [-> Hu].
    split; [by eapply brep_unused|]. pose proof Hk as Hk'. unfold has_key in Hk'. bool_facts.
    assert ((if b_valid (getb s i) then b_data (getb s i) else dread (bc_disk s) no) =
      dread (bc_disk s) no) as Hdata.
    { destruct (b_valid (getb s i)) eqn:Hv; [|done]. rewrite Hdt by done. congruence. }
    rewrite H0, Hdata in Hu. change (u32 (0 + 1)) with 1 in Hu.
    eapply bread_brep; [done|done|by left|lia|done].
  - destruct Hm as (l1 & i & l2 & -> & H0 & _ & Hm).
    assert (i < nbuf)%nat as Hi.
    { destruct (brep_nodes _ _ _ Hr) as (Hin & _). apply Hin. set_solver. }
    eapply wp_mono; [exact Hm|]. intros i' s' [-> Hu].
    split; [by eapply brep_unused|]. eapply bread_brep; [done|done|by right|lia|done].
  - destruct Hm as [Hall _]. destruct (Hall j0 (proj1 Hj0)).
    by eapply brep_unused; [|apply Hj0|].
Qed.
End bread.

(** * Moving a buffer to the front *)

Definition same_body (x y : buf) : Prop :=
  b_valid x = b_valid y ∧ b_dev x = b_dev y ∧ b_blockno x = b_blockno y ∧
  b_lock x = b_lock y ∧ b_refcnt x = b_refcnt y ∧ b_data x = b_data y.

Lemma brep_relink s l a s' l' :
  brep s l a → bc_lock s' = bc_lock s → bc_disk s' = bc_disk s →
  length (bc_buf s') = length (bc_buf s) →
  (∀ j, same_body (getb s' j) (getb s j)) →
  l' ≡ₚ l → linked (nx s') (pv s') head l' head →
  brep s' l' a.
Proof.
  intros [] Hlk Hd Hlen Hb Hp Hl. unfold same_body in Hb.
  split; rewrite ?Hlk, ?Hd, ?Hlen, ?Hp; try done.
  - intros j Hj. destruct (Hb j) as (_ & _ & _ & -> & _). auto.
  - intros j Hj. destruct (Hb j) as (_ & _ & _ & _ & -> & _). auto.
  - intros j Hj. destruct (Hb j) as (_ & -> & _). auto.
  - intros j k Hj Hk. destruct (Hb j) as (_ & -> & -> & _), (Hb k) as (_ & -> & -> & _). auto.
  - intros j Hj. destruct (Hb j) as (-> & -> & -> & -> & -> & ->). auto.
  - intros j Hj. destruct (Hb j) as (-> & -> & -> & -> & -> & ->). auto.
  - intros no ab Hab. destruct (Hb (ab_idx ab)) as (_ & _ & -> & _ & -> & _). auto.
Qed.

(** The assignments of [brelse]. *)
Definition to_front (i : nat) (s : bcache) : bcache :=
  let bn := b_next (getb s i) in
  let bp := b_prev (getb s i) in
  let s2 := updb bp (b_set_next bn) (updb bn (b_set_prev bp) s) in
  let hn := b_next (getb s2 head) in
  updb head (b_set_next i) (updb hn (b_set_prev i)
    (updb i (b_set_prev head) (updb i (b_set_next hn) s2))).

Lemma same_body_updb s i f j :
  (∀ x, same_body (f x) x) → same_body (getb (updb i f s) j) (getb s j).
Proof.
  intros Hf. unfold getb, updb. simpl. destruct (decide (i = j)) as [<-|Hne].
  - rewrite list_lookup_alter_eq. destruct (bc_buf s !! i); [apply Hf|].
    by unfold same_body.
  - rewrite list_lookup_alter_ne by done. by unfold same_body.
Qed.
Lemma same_body_trans x y z : same_body x y → same_body y z → same_body x z.
Proof. unfold same_body. intuition congruence. Qed.

Lemma to_front_body i s j : same_body (getb (to_front i s) j) (getb s j).
Proof.
  unfold to_front. cbv zeta. repeat (eapply same_body_trans; [by apply same_body_updb|]).
  by unfold same_body.
Qed.

(** The re-reads of [brelse] see the same values. *)
Lemma to_front_run s i :
  b_next (getb s i) ≠ i → i ≠ head →
  wp (let! bn := gets (λ s, b_next (getb s i)) in
      let! bp := gets (λ s, b_prev (getb s i)) in
      do! modify (updb bn (b_set_prev bp));
      let! bp := gets (λ s, b_prev (getb s i)) in
      let! bn := gets (λ s, b_next (getb s i)) in
      do! modify (updb bp (b_set_next bn));
      let! hn := gets (λ s, b_next (getb s head)) in
      do! modify (updb i (b_set_next hn));
      do! modify (updb i (b_set_prev head));
      let! hn := gets (λ s, b_next (getb s head)) in
      do! modify (updb hn (b_set_prev i));
      modify (updb head (b_set_next i))) (λ _ s', s' = to_front i s) s.
Proof.
  intros Hn Hh. wp_steps. rewrite !(getb_updb_ne _ i _ head) by done.
  rewrite !(getb_updb_ne s (b_next (getb s i)) _ i) by done. done.
Qed.

Lemma to_front_linked s l1 i l2 :
  length (bc_buf s) = S nbuf → l1 ++ i :: l2 ≡ₚ seq 0 nbuf →
  linked (nx s) (pv s) head (l1 ++ i :: l2) head →
  linked (nx (to_front i s)) (pv (to_front i s)) head (i :: l1 ++ l2) head.
Proof.
  intros Hlen Hperm Hl.
  assert (NoDup (head :: l1 ++ i :: l2)) as Hnd.
  { apply list.NoDup_cons. rewrite Hperm, elem_of_seq. split; [unfold head; lia|apply NoDup_seq]. }
  assert (∀ x, x ∈ head :: l1 ++ i :: l2 → (x < S nbuf)%nat) as Hlt.
  { intros x [->|Hx]%elem_of_cons; [unfold head; lia|]. rewrite Hperm, elem_of_seq in Hx. lia. }
  assert (i ∈ head :: l1 ++ i :: l2) as Hi by set_solver.
  destruct (linked_nodes _ _ _ _ Hl i Hi) as [Hn Hp].
  pose proof (Hlt _ Hn) as Hn'. pose proof (Hlt _ Hp) as Hp'. pose proof (Hlt _ Hi) as Hi'.
  set (s2 := updb (pv s i) (b_set_next (nx s i)) (updb (nx s i) (b_set_prev (pv s i)) s)).
  assert (linked (nx s2) (pv s2) head (l1 ++ l2) head) as Hl2.
  { eapply linked_ext; [| |exact (linked_unlink _ _ _ _ _ _ Hnd Hl)]; intros x _;
      unfold s2; node_cases. }
  assert (length (bc_buf s2) = S nbuf) as Hlen2 by (unfold s2; by rewrite !length_updb).
  assert (NoDup (head :: l1 ++ l2) ∧ i ∉ head :: l1 ++ l2) as [Hnd2 Hi2].
  { assert (head :: l1 ++ i :: l2 ≡ₚ i :: head :: l1 ++ l2) as Hp2 by solve_Permutation.
    rewrite Hp2 in Hnd. apply list.NoDup_cons in Hnd. tauto. }
  assert (nx s2 head < S nbuf)%nat as Hhn.
  { destruct (linked_nodes _ _ _ _ Hl2 head) as [Hh _]; [by left|]. apply Hlt. set_solver. }
  change (to_front i s) with (updb head (b_set_next i) (updb (nx s2 head) (b_set_prev i)
    (updb i (b_set_prev head) (updb i (b_set_next (nx s2 head)) s2)))).
  clearbody s2. assert (head < S nbuf)%nat by (unfold head; lia).
  assert (i ≠ head) by set_solver.
  eapply linked_ext; [| |exact (linked_push _ _ _ _ _ Hnd2 Hi2 Hl2)]; intros x _; node_cases.
Qed.

(** * Operations on a buffer in use *)

Section inuse.
Context (pid : Z).
Context (s : bcache) (l : list nat) (a : abio) (no : Z) (ab : abuf).
Context (Hr : brep s l a) (Hab : a_bufs a !! no = Some ab).
Abbreviation i := (ab_idx ab).

(** A change of the buffer's data, reference count or lock. *)
Lemma inuse_upd s' data r lk :
  upd_at s i (b_set_data data (b_set_lock lk (b_set_refcnt r (getb s i)))) s' →
  fits 32 r → sl_lk lk = false →
  (r = 0 → owner lk = None ∧ data = dread (a_disk a) no) →
  brep s' l (if decide (r = 0) then a_del no a
             else a_set no (ABuf i data r (owner lk)) a).
Proof.
  intros Hu Hf Hlk Hz.
  destruct (brep_lookup s l a no ab Hr Hab) as (Hi & Hd & Hno & Hv & _).
  pose proof (brep_upd s l a i _ s' Hr Hi Hu) as Hb. simpl in Hb.
  assert (brep s' l (a_upd i
    (b_set_data data (b_set_lock lk (b_set_refcnt r (getb s i)))) a)) as Hb'.
  { apply Hb; try done.
    - intros j Hj Hne Hdj Hnj. apply Hne, (br_uniq _ _ _ Hr); [done..|congruence].
    - intros no' ab' Hab' Hidx. destruct (br_abs _ _ _ Hr no' ab' Hab') as (_ & Hno' & _).
      rewrite Hidx in *. congruence.
    - intros H0. destruct (Hz H0) as [Ho Hdt]. split; [done|]. intros _.
      rewrite Hno, <- (br_disk _ _ _ Hr). done. }
  case_decide as H0.
  - rewrite a_upd_unused in Hb' by done. simpl in Hb'. by rewrite Hno in Hb'.
  - rewrite a_upd_used in Hb' by done. simpl in Hb'. by rewrite Hno in Hb'.
Qed.

Lemma upd_at_updb f :
  b_prev (f (getb s i)) = b_prev (getb s i) → b_next (f (getb s i)) = b_next (getb s i) →
  upd_at s i (f (getb s i)) (updb i f s).
Proof.
  intros Hp Hn. destruct (brep_lookup s l a no ab Hr Hab) as (Hi & _).
  split; [done|apply length_updb|done| |done|done].
  intros j. rewrite getb_updb; [done|]. rewrite (br_len _ _ _ Hr). lia.
Qed.

Lemma bdata_spec : b_data (getb s i) = ab_data ab.
Proof. apply (brep_lookup s l a no ab Hr Hab). Qed.

Lemma buf_eta x : b_set_data (b_data x) (b_set_lock (b_lock x) (b_set_refcnt (b_refcnt x) x)) = x.
Proof. by destruct x. Qed.

Lemma set_bdata_spec data :
  wp (modify (updb i (b_set_data data)))
    (λ _ s', brep s' l (a_set no (ABuf i data (ab_ref ab) (ab_owner ab)) a)) s.
Proof.
  destruct (brep_lookup s l a no ab Hr Hab) as (Hi & Hd & Hno & Hv & Hdt & Hrf & How & Hne).
  apply wp_modify.
  pose proof (inuse_upd (updb i (b_set_data data) s) data (b_refcnt (getb s i))
    (b_lock (getb s i))) as H.
  rewrite decide_False, Hrf, How in H by done. apply H.
  - replace (b_set_data data (b_set_lock _ _)) with (b_set_data data (getb s i))
      by (rewrite <- Hrf; by destruct (getb s i)).
    by apply (upd_at_updb (b_set_data data)).
  - rewrite <- Hrf. by apply (br_ref _ _ _ Hr).
  - by apply (br_sl _ _ _ Hr).
  - congruence.
Qed.

Lemma holding_spec :
  ab_owner ab = Some pid → buf_lock i (holdingsleep pid) s = Ok true (updb i (b_set_lock (b_lock (getb s i))) s).
Proof.
  intros Ho. destruct (brep_lookup s l a no ab Hr Hab) as (Hi & _ & _ & _ & _ & _ & How & _).
  unfold buf_lock, zoom. rewrite holdingsleep_spec by (by apply (br_sl _ _ _ Hr)).
  by rewrite How, Ho, bool_decide_eq_true_2.
Qed.
Lemma updb_same : updb i (b_set_lock (b_lock (getb s i))) s = s.
Proof.
  destruct s as [lk bs d] eqn:Es. unfold updb, getb. simpl. f_equal.
  apply list_eq. intros j. destruct (decide (i = j)) as [<-|].
  - rewrite list_lookup_alter_eq. destruct (bs !! _) as [[]|]; done.
  - by rewrite list_lookup_alter_ne.
Qed.

Lemma bwrite_spec :
  ab_owner ab = Some pid →
  wp (bwrite pid i) (λ _ s', brep s' l (a_write no (ab_data ab) a)) s.
Proof.
  intros Ho. unfold bwrite. apply wp_bind. eapply wp_run; [by apply holding_spec|].
  rewrite updb_same. cbn [negb]. unfold disk_rw. wp_steps.
  destruct (brep_lookup s l a no ab Hr Hab) as (Hi & Hd & Hno & Hv & Hdt & Hrf & How & Hne).
  rewrite Hno, Hdt.
  assert (∀ j, (j < nbuf)%nat → b_refcnt (getb s j) = 0 → b_dev (getb s j) = ROOTDEV →
    no ≠ b_blockno (getb s j)) as Hother.
  { intros j Hj Hz Hdj Heq. assert (i = j); [|congruence].
    apply (br_uniq _ _ _ Hr); [done..|congruence]. }
  destruct Hr. split; try done.
  - simpl. by f_equal.
  - intros j Hj Hz. change (getb (bc_set_disk _ s) j) with (getb s j) in *.
    destruct (br_unused0 j Hj Hz) as [? Hdj]. split; [done|]. intros Hvj Hdvj.
    cbn [bc_disk bc_set_disk]. rewrite dread_cons, decide_False by (by apply Hother). by apply Hdj.
Qed.

(** [acquire; b->refcnt = r; release]. *)
Lemma refcnt_upd r :
  upd_at s i (b_set_data (b_data (getb s i)) (b_set_lock (b_lock (getb s i))
    (b_set_refcnt r (getb s i))))
    (bc_set_lock false (updb i (b_set_refcnt r) (bc_set_lock true s))).
Proof.
  destruct (brep_lookup s l a no ab Hr Hab) as (Hi & _).
  replace (b_set_data _ _) with (b_set_refcnt r (getb s i)) by (by destruct (getb s i)).
  split; [by rewrite (br_lock _ _ _ Hr)|simpl; apply length_alter|done| |done|done].
  intros j. change (getb (bc_set_lock false ?x) j) with (getb x j).
  rewrite getb_updb; [done|]. simpl. rewrite (br_len _ _ _ Hr). lia.
Qed.

Lemma refcnt_step (f : Z → Z) :
  wp (do! bc_acquire;
      do! modify (λ s, updb i (b_set_refcnt (f (b_refcnt (getb s i)))) s);
      bc_release)
    (λ _ s', s' = bc_set_lock false (updb i (b_set_refcnt (f (ab_ref ab))) (bc_set_lock true s)))
    s.
Proof.
  destruct (brep_lookup s l a no ab Hr Hab) as (_ & _ & _ & _ & _ & Hrf & _).
  apply wp_bind, wp_lock_acquire; [apply Hr|]. apply wp_bind, wp_modify.
  apply wp_lock_release; [done|]. rewrite <- Hrf. done.
Qed.

Lemma bpin_spec :
  ab_ref ab < 2 ^ 32 - 1 →
  wp (bpin i) (λ _ s',
    brep s' l (a_set no (ABuf i (ab_data ab) (ab_ref ab + 1) (ab_owner ab)) a)) s.
Proof.
  intros Hmax.
  destruct (brep_lookup s l a no ab Hr Hab) as (Hi & Hd & Hno & Hv & Hdt & Hrf & How & Hne).
  pose proof (br_ref _ _ _ Hr i Hi) as Hf. unfold fits in Hf.
  eapply wp_mono; [apply (refcnt_step (λ r, u32 (r + 1)))|]. intros [] s' ->.
  rewrite u32_id by (unfold fits; lia).
  pose proof (inuse_upd _ _ _ _ (refcnt_upd (ab_ref ab + 1))) as H.
  rewrite decide_False, Hdt, How in H by lia.
  apply H; [unfold fits; lia|by apply (br_sl _ _ _ Hr)|lia].
Qed.

(** Dropping a reference; the last one only when the data is on the disk. *)
Definition a_drop (o : option Z) : abio :=
  if decide (ab_ref ab = 1) then a_del no a
  else a_set no (ABuf i (ab_data ab) (ab_ref ab - 1) o) a.

Lemma bunpin_spec :
  (ab_ref ab = 1 → ab_owner ab = None ∧ ab_data ab = dread (a_disk a) no) →
  wp (bunpin i) (λ _ s', brep s' l (a_drop (ab_owner ab))) s.
Proof.
  intros Hlast.
  destruct (brep_lookup s l a no ab Hr Hab) as (Hi & Hd & Hno & Hv & Hdt & Hrf & How & Hne).
  pose proof (br_ref _ _ _ Hr i Hi) as Hf. unfold fits in Hf.
  eapply wp_mono; [apply (refcnt_step (λ r, u32 (r - 1)))|]. intros [] s' ->.
  rewrite u32_id by (unfold fits; lia). unfold a_drop.
  pose proof (inuse_upd _ _ _ _ (refcnt_upd (ab_ref ab - 1))) as H.
  rewrite Hdt, How in H.
  assert (brep (bc_set_lock false (updb i (b_set_refcnt (ab_ref ab - 1)) (bc_set_lock true s))) l
    (if decide (ab_ref ab - 1 = 0) then a_del no a
     else a_set no (ABuf i (ab_data ab) (ab_ref ab - 1) (ab_owner ab)) a)) as H'.
  { apply H; [unfold fits; lia|by apply (br_sl _ _ _ Hr)|]. intros. apply Hlast. lia. }
  repeat case_decide; (done || lia).
Qed.
(** The list after [brelse]: moved to the front when it became unused. *)
Definition l_drop : list nat :=
  if decide (ab_ref ab = 1) then i :: filter (λ j, j ≠ i) l else l.

Lemma filter_other l1 l2 :
  l = l1 ++ i :: l2 → filter (λ j, j ≠ i) l = l1 ++ l2.
Proof.
  intros Hl. destruct (brep_nodes s l a Hr) as (_ & _ & _ & Hnd). rewrite Hl in Hnd |- *.
  apply list.NoDup_app in Hnd as (_ & H1 & Hnd). apply list.NoDup_cons in Hnd as [H2 _].
  rewrite filter_app, filter_cons_False by tauto. f_equal; apply filter_id; set_solver.
Qed.

Lemma brelse_unlocked :
  ab_owner ab = Some pid → (ab_ref ab = 1 → ab_data ab = dread (a_disk a) no) →
  let s1 := updb i (b_set_refcnt (ab_ref ab - 1))
              (bc_set_lock true (updb i (b_set_lock initsleeplock) s)) in
  brep (bc_set_lock false s1) l (a_drop None).
Proof.
  intros Ho Hlast s1.
  destruct (brep_lookup s l a no ab Hr Hab) as (Hi & Hd & Hno & Hv & Hdt & Hrf & How & Hne).
  pose proof (br_ref _ _ _ Hr i Hi) as Hf. unfold fits in Hf.
  assert (upd_at s i (b_set_data (b_data (getb s i)) (b_set_lock initsleeplock
    (b_set_refcnt (ab_ref ab - 1) (getb s i)))) (bc_set_lock false s1)) as Hu.
  { split; [by rewrite (br_lock _ _ _ Hr)| |done| |done|done].
    - unfold s1. simpl. by rewrite !length_alter.
    - intros j. change (getb (bc_set_lock false s1) j) with (getb s1 j). unfold s1.
      pose proof (br_len _ _ _ Hr) as Hl.
      rewrite getb_updb by (simpl; rewrite length_alter; lia).
      change (getb (bc_set_lock true ?x)) with (getb x). rewrite !getb_updb by lia.
      case_decide; [|done]. rewrite decide_True by done. by destruct (getb s i). }
  pose proof (inuse_upd _ _ _ _ Hu) as H. unfold a_drop. rewrite Hdt in H.
  assert (brep (bc_set_lock false s1) l (if decide (ab_ref ab - 1 = 0) then a_del no a
     else a_set no (ABuf i (ab_data ab) (ab_ref ab - 1) None) a)) as H'.
  { apply H; [unfold fits; lia|done|]. intros. split; [done|]. apply Hlast. lia. }
  repeat case_decide; (done || lia).
Qed.

Lemma brelse_spec :
  ab_owner ab = Some pid → (ab_ref ab = 1 → ab_data ab = dread (a_disk a) no) →
  wp (brelse pid i) (λ _ s', brep s' l_drop (a_drop None)) s.
Proof.
  intros Ho Hlast. pose proof (brelse_unlocked Ho Hlast) as Hb. cbv zeta in Hb.
  destruct (brep_lookup s l a no ab Hr Hab) as (Hi & Hd & Hno & Hv & Hdt & Hrf & How & Hne).
  pose proof (br_ref _ _ _ Hr i Hi) as Hf. unfold fits in Hf.
  pose proof (br_len _ _ _ Hr) as Hl.
  unfold brelse. apply wp_bind. eapply wp_run; [by apply holding_spec|].
  rewrite updb_same. cbn [negb]. apply wp_bind. unfold buf_lock. apply wp_zoom.
  eapply wp_run; [apply releasesleep_spec; by apply (br_sl _ _ _ Hr)|]. cbn beta.
  apply wp_bind, wp_lock_acquire; [apply Hr|]. apply wp_bind, wp_modify.
  assert (b_refcnt (getb (bc_set_lock true (updb i (b_set_lock initsleeplock) s)) i) = ab_ref ab)
    as Href.
  { change (getb (bc_set_lock true ?x)) with (getb x).
    rewrite getb_updb, decide_True by (done || lia). done. }
  rewrite Href, u32_id by (unfold fits; lia).
  set (s1 := updb i (b_set_refcnt (ab_ref ab - 1)) _) in *.
  assert (b_refcnt (getb s1 i) = ab_ref ab - 1) as Href1.
  { unfold s1. rewrite getb_updb by (simpl; rewrite length_alter; lia).
    by rewrite decide_True. }
  apply wp_bind, wp_gets. rewrite Href1. unfold l_drop. apply wp_bind, wp_when; intros Hz; bool_facts.
  - rewrite decide_True by lia. destruct (brep_nodes _ _ _ Hb) as (Hin & Hh & _ & Hnd).
    destruct (list_elem_of_split l i) as (l1 & l2 & Hl12); [by apply Hin|].
    eapply wp_mono; [apply to_front_run|].
    { intros Heq. apply (linked_no_loop _ _ _ _ (br_list _ _ _ Hb) Hnd Hh i); [|done].
      by apply Hin. }
    { unfold head. lia. }
    intros [] s2 ->. apply wp_lock_release; [done|].
    rewrite (filter_other l1 l2 Hl12).
    eapply (brep_relink (bc_set_lock false s1) l _ (bc_set_lock false (to_front i s1)));
      [done|done|done| | | |].
    + unfold to_front. simpl. by rewrite !length_alter.
    + intros j. apply (to_front_body i s1 j).
    + rewrite Hl12. solve_Permutation.
    + apply (to_front_linked s1 l1 i l2).
      * apply (br_len _ _ _ Hb).
      * rewrite <- Hl12. apply (br_perm _ _ _ Hr).
      * rewrite <- Hl12. apply (br_list _ _ _ Hb).
  - rewrite decide_False by lia. by apply wp_lock_release.
Qed.
End inuse.
