(* ===== verification/BufCache.v ===== *)
(** The buffer cache as its clients see it: the class [BufferCache] of the
    operations of kernel/bio.c with a buffer's fields, the class
    [BufferCacheOk] of what they promise in terms of the abstract cache, and
    the proof that bio.c keeps the promise. *)

From S2P Require Import Prelude Riscv Spinlock Sleeplock Bio BioSpec.

(** * The interface *)

Class BufferCache (S : Type) := {
  c_bread : Z → Z → Z → M S nat;          (* pid, dev, blockno *)
  c_bwrite : Z → nat → M S unit;
  c_brelse : Z → nat → M S unit;
  c_bpin : nat → M S unit;
  c_bunpin : nat → M S unit;
  c_blockno : nat → S → Z;                (* b->blockno *)
  c_data : nat → S → block;               (* b->data *)
  c_set_data : nat → block → M S unit;
  c_rep : S → abio → Prop;
}.

(** References to a block. *)
Definition a_refs (a : abio) (no : Z) : Z :=
  match a_bufs a !! no with Some ab => ab_ref ab | None => 0 end.
(** No process has the block locked. *)
Definition a_idle (a : abio) (no : Z) : Prop :=
  ∀ ab, a_bufs a !! no = Some ab → ab_owner ab = None ∧ ab_ref ab < 2 ^ 32 - 1.
(** There is a buffer for the block. *)
Definition a_room (a : abio) (no : Z) : Prop :=
  is_Some (a_bufs a !! no) ∨ ∃ i, a_unused a i.
Definition a_slot (a : abio) (no : Z) (i : nat) : Prop :=
  match a_bufs a !! no with Some ab => i = ab_idx ab | None => a_unused a i end.
(** [pid] has locked block [no] in buffer [i]; it has unlocked it again. *)
Definition a_take (pid no : Z) (i : nat) (a : abio) : abio :=
  a_set no (ABuf i (a_view a no) (a_refs a no + 1) (Some pid)) a.
Definition a_give (no : Z) (ab : abuf) (o : option Z) (a : abio) : abio :=
  if decide (ab_ref ab = 1) then a_del no a
  else a_set no (ABuf (ab_idx ab) (ab_data ab) (ab_ref ab - 1) o) a.

Class BufferCacheOk (S : Type) `{BufferCache S} : Prop := {
  c_bread_ok : ∀ s a pid no, c_rep s a → a_idle a no → a_room a no →
    wp (c_bread pid ROOTDEV no) (λ i s', a_slot a no i ∧ c_rep s' (a_take pid no i a)) s;
  c_fields_ok : ∀ s a no ab, c_rep s a → a_bufs a !! no = Some ab →
    c_blockno (ab_idx ab) s = no ∧ c_data (ab_idx ab) s = ab_data ab;
  c_set_data_ok : ∀ s a no ab data, c_rep s a → a_bufs a !! no = Some ab →
    wp (c_set_data (ab_idx ab) data) (λ _ s',
      c_rep s' (a_set no (ABuf (ab_idx ab) data (ab_ref ab) (ab_owner ab)) a)) s;
  c_bwrite_ok : ∀ s a pid no ab, c_rep s a → a_bufs a !! no = Some ab →
    ab_owner ab = Some pid →
    wp (c_bwrite pid (ab_idx ab)) (λ _ s', c_rep s' (a_write no (ab_data ab) a)) s;
  c_bpin_ok : ∀ s a no ab, c_rep s a → a_bufs a !! no = Some ab →
    ab_ref ab < 2 ^ 32 - 1 →
    wp (c_bpin (ab_idx ab)) (λ _ s',
      c_rep s' (a_set no (ABuf (ab_idx ab) (ab_data ab) (ab_ref ab + 1) (ab_owner ab)) a)) s;
  c_bunpin_ok : ∀ s a no ab, c_rep s a → a_bufs a !! no = Some ab →
    (ab_ref ab = 1 → ab_owner ab = None ∧ ab_data ab = dread (a_disk a) no) →
    wp (c_bunpin (ab_idx ab)) (λ _ s', c_rep s' (a_give no ab (ab_owner ab) a)) s;
  c_brelse_ok : ∀ s a pid no ab, c_rep s a → a_bufs a !! no = Some ab →
    ab_owner ab = Some pid → (ab_ref ab = 1 → ab_data ab = dread (a_disk a) no) →
    wp (c_brelse pid (ab_idx ab)) (λ _ s', c_rep s' (a_give no ab None a)) s;
  c_refs_ok : ∀ s a no ab, c_rep s a → a_bufs a !! no = Some ab → 0 < ab_ref ab;
}.

(** The promises in the form clients use them: the buffer number is known
    before the abstract buffer is. *)
Section client.
Context {S : Type} `{BCok : BufferCacheOk S} (pid : Z).
Context (b : S) (a : abio) (no : Z) (ab : abuf) (i : nat) (Q : unit → S → Prop).
Context (Hr : c_rep b a) (Hab : a_bufs a !! no = Some ab) (Hi : ab_idx ab = i).

Lemma wp_set_data data :
  (∀ b', c_rep b' (a_set no (ABuf i data (ab_ref ab) (ab_owner ab)) a) → Q tt b') →
  wp (c_set_data i data) Q b.
Proof. subst i. intros HQ. eapply wp_mono; [by eapply c_set_data_ok|]. intros []; auto. Qed.
Lemma wp_bwrite :
  ab_owner ab = Some pid → (∀ b', c_rep b' (a_write no (ab_data ab) a) → Q tt b') →
  wp (c_bwrite pid i) Q b.
Proof. subst i. intros Ho HQ. eapply wp_mono; [by eapply c_bwrite_ok|]. intros []; auto. Qed.
Lemma wp_bpin :
  ab_ref ab < 2 ^ 32 - 1 →
  (∀ b', c_rep b' (a_set no (ABuf i (ab_data ab) (ab_ref ab + 1) (ab_owner ab)) a) → Q tt b') →
  wp (c_bpin i) Q b.
Proof. subst i. intros Ho HQ. eapply wp_mono; [by eapply c_bpin_ok|]. intros []; auto. Qed.
Lemma wp_bunpin :
  (ab_ref ab = 1 → ab_owner ab = None ∧ ab_data ab = dread (a_disk a) no) →
  (∀ b', c_rep b' (a_give no ab (ab_owner ab) a) → Q tt b') → wp (c_bunpin i) Q b.
Proof. subst i. intros Ho HQ. eapply wp_mono; [by eapply c_bunpin_ok|]. intros []; auto. Qed.
Lemma wp_brelse :
  ab_owner ab = Some pid → (ab_ref ab = 1 → ab_data ab = dread (a_disk a) no) →
  (∀ b', c_rep b' (a_give no ab None a) → Q tt b') → wp (c_brelse pid i) Q b.
Proof.
  subst i. intros Ho Hl HQ. eapply wp_mono; [by eapply c_brelse_ok|]. intros []; auto.
Qed.
End client.

(** * The instance *)

#[export] Instance bio_cache : BufferCache bcache := {
  c_bread := bread;
  c_bwrite := bwrite;
  c_brelse := brelse;
  c_bpin := bpin;
  c_bunpin := bunpin;
  c_blockno b s := b_blockno (getb s b);
  c_data b s := b_data (getb s b);
  c_set_data b data := modify (updb b (b_set_data data));
  c_rep s a := ∃ l, brep s l a;
}.

#[export] Instance bio_cache_ok : BufferCacheOk bcache.
Proof.
  split; cbn [c_bread c_bwrite c_brelse c_bpin c_bunpin c_blockno c_data c_set_data c_rep
    bio_cache]; intros s a.
  - intros pid no [l Hr] Hidle Hroom. unfold a_slot, a_take, a_view, a_refs.
    destruct (a_bufs a !! no) as [ab|] eqn:Hab.
    + destruct (Hidle _ Hab) as [Ho Hlt].
      eapply wp_mono; [by eapply bread_cached|]. intros i s' [-> Hr']. eauto.
    + destruct Hroom as [[? ?]|Hun]; [congruence|].
      eapply wp_mono; [by eapply bread_uncached|]. intros i s' [Hi Hr']. eauto.
  - intros no ab [l Hr] Hab. by destruct (brep_lookup s l a no ab Hr Hab) as (_&_&?&_&?&_).
  - intros no ab data [l Hr] Hab. eapply wp_mono; [by eapply set_bdata_spec|]. intros [] s' Hr'. by eexists.
  - intros pid no ab [l Hr] Hab Ho. eapply wp_mono; [by eapply bwrite_spec|]. intros [] s' Hr'. by eexists.
  - intros no ab [l Hr] Hab Hlt. eapply wp_mono; [by eapply bpin_spec|]. intros [] s' Hr'. by eexists.
  - intros no ab [l Hr] Hab Hlast. eapply wp_mono; [by eapply bunpin_spec|]. intros [] s' Hr'. by eexists.
  - intros pid no ab [l Hr] Hab Ho Hlast. eapply wp_mono; [by eapply brelse_spec|]. intros [] s' Hr'. by eexists.
  - intros no ab [l Hr] Hab. destruct (brep_lookup s l a no ab Hr Hab) as (Hi&_&_&_&_&<-&_&?).
    pose proof (br_ref _ _ _ Hr _ Hi) as [? _]. lia.
Qed.

(** * Properties *)

Section properties.
Context (pid : Z).

Lemma bread_locked s l a no ab p :
  brep s l a → a_bufs a !! no = Some ab → ab_owner ab = Some p →
  ∃ s', bread pid ROOTDEV no s = Blocked (buf_chan (ab_idx ab)) s'.
Proof.
  intros Hr Hab Ho.
  destruct (brep_lookup s l a no ab Hr Hab) as (Hi & Hd & Hno & Hv & Hdt & Hrf & How & Hne).
  assert (has_key no (getb s (ab_idx ab)) = true) as Hkey.
  { unfold has_key. by rewrite Hd, Hno, !Z.eqb_refl. }
  destruct (bread_run pid s l a no Hr) as [(j & Hj & Hk & Hrun)|[Hnone _]].
  - unfold has_key in Hk. bool_facts.
    assert (j = ab_idx ab) as -> by (apply (br_uniq _ _ _ Hr); congruence).
    by rewrite How, Ho in Hrun.
  - rewrite (Hnone _ Hi) in Hkey. done.
Qed.

Lemma bread_full s l a no :
  brep s l a → a_bufs a !! no = None → (∀ i, ¬ a_unused a i) →
  bread pid ROOTDEV no s = Panic "bget: no buffers".
Proof.
  intros Hr Hab Hfull.
  assert (∀ i, (i < nbuf)%nat → b_refcnt (getb s i) ≠ 0) as Hused.
  { intros i Hi H0. by apply (brep_unused s l a i Hr Hi), Hfull in H0. }
  destruct (bread_run pid s l a no Hr) as [(j & Hj & Hk & _)|[_ [(l1 & i & l2 & Hl & H0 & _)|[_ ?]]]].
  - unfold has_key in Hk. bool_facts.
    destruct (br_used _ _ _ Hr j Hj (Hused j Hj)) as (_ & _ & Ha). congruence.
  - exfalso. apply (Hused i); [|done]. destruct (brep_nodes _ _ _ Hr) as [Hin _].
    apply Hin. rewrite Hl. set_solver.
  - done.
Qed.

(** C15: [bread] gives every process the one buffer of a block: the buffer in
    use if there is one (the caller sleeps while another process has it
    locked), and otherwise an unused buffer filled from the disk; it panics
    only when all the buffers are in use. *)
Theorem bread_coherent s l a no :
  brep s l a →
  match a_bufs a !! no with
  | Some ab =>
      match ab_owner ab with
      | Some _ => ∃ s', bread pid ROOTDEV no s = Blocked (buf_chan (ab_idx ab)) s'
      | None => ab_ref ab < 2 ^ 32 - 1 →
          wp (bread pid ROOTDEV no) (λ i s', i = ab_idx ab ∧
            b_data (getb s' i) = ab_data ab ∧ brep s' l (a_take pid no i a)) s
      end
  | None =>
      ((∃ i, a_unused a i) →
       wp (bread pid ROOTDEV no) (λ i s', a_unused a i ∧
         b_data (getb s' i) = dread (a_disk a) no ∧ brep s' l (a_take pid no i a)) s) ∧
      ((∀ i, ¬ a_unused a i) → bread pid ROOTDEV no s = Panic "bget: no buffers")
  end.
Proof.
  intros Hr. destruct (a_bufs a !! no) as [ab|] eqn:Hab.
  - destruct (ab_owner ab) as [p|] eqn:Ho; [by eapply bread_locked|]. intros Hlt.
    eapply wp_mono; [by eapply bread_cached|]. intros i s' [-> Hr'].
    unfold a_take, a_view, a_refs. rewrite Hab. split_and!; [done| |done].
    exact (bdata_spec s' _ _ no _ Hr' (lookup_insert_eq _ _ _)).
  - split; [|by eapply bread_full]. intros Hun.
    eapply wp_mono; [by eapply bread_uncached|]. intros i s' [Hi Hr'].
    unfold a_take, a_view, a_refs. rewrite Hab. split_and!; [done| |done].
    exact (bdata_spec s' _ _ no _ Hr' (lookup_insert_eq _ _ _)).
Qed.

(** the cache keeps recently used blocks: [brelse] of the last reference
    moves the buffer to the front of the list and keeps the order of the
    others, and a [bread] that misses takes the unused buffer nearest to the
    end of it. *)
Theorem bread_lru s l a :
  brep s l a →
  (∀ no ab, a_bufs a !! no = Some ab → ab_owner ab = Some pid → ab_ref ab = 1 →
     ab_data ab = dread (a_disk a) no →
     wp (brelse pid (ab_idx ab)) (λ _ s',
       brep s' (ab_idx ab :: filter (λ j, j ≠ ab_idx ab) l) (a_del no a)) s) ∧
  (∀ no, (∀ i, (i < nbuf)%nat → has_key no (getb s i) = false) → (∃ i, a_unused a i) →
     ∃ l1 i l2, l = l1 ++ i :: l2 ∧ a_unused a i ∧ (∀ j, j ∈ l2 → ¬ a_unused a j) ∧
       wp (bread pid ROOTDEV no) (λ r _, r = i) s).
Proof.
  intros Hr. split.
  - intros no ab Hab Ho H1 Hd. eapply wp_mono; [by eapply brelse_spec|].
    intros [] s'. unfold l_drop, a_drop. by rewrite !decide_True.
  - intros no Hmiss [u Hu]. destruct (brep_nodes _ _ _ Hr) as [Hin _].
    destruct (bread_run pid s l a no Hr)
      as [(j & Hj & Hk & _)|[_ [(l1 & i & l2 & Hl & H0 & Hlast & Hrun)|[Hused _]]]].
    + by rewrite Hmiss in Hk.
    + exists l1, i, l2. assert ((i < nbuf)%nat) as Hi by (apply Hin; rewrite Hl; set_solver).
      split_and!; [done|by apply (brep_unused s l a i Hr Hi)| |].
      * intros j Hj Hun. apply (Hlast j Hj), (brep_unused s l a j Hr); [|done]. apply Hun.
      * eapply wp_mono; [done|]. by intros r s' [? _].
    + destruct (Hused u (proj1 Hu)). by apply (brep_unused s l a u Hr (proj1 Hu)).
Qed.
End properties.

(** After [binit] on a blank disk. *)
Lemma booted_cache : ∃ s, brep s (reverse (seq 0 nbuf)) (ABio [] ∅).
Proof.
  destruct (proj1 (wp_ok binit _ _) (binit_spec [])) as ([] & s & _ & Hr). by exists s.
Qed.
Lemma booted_unused : ∃ i, a_unused (ABio [] ∅) i.
Proof. exists 0%nat. split; [apply Nat.ltb_lt; reflexivity|]. intros no ab H. discriminate H. Qed.
Lemma bread_coherent_witness :
  ∃ s, wp (bread 1 ROOTDEV 7) (λ i s', a_unused (ABio [] ∅) i ∧
    b_data (getb s' i) = zero_block ∧
    brep s' (reverse (seq 0 nbuf)) (a_take 1 7 i (ABio [] ∅))) s.
Proof.
  destruct booted_cache as [s Hr]. exists s.
  refine (proj1 (bread_coherent 1 s _ _ 7 Hr) _).
  exact booted_unused.
Defined.

