(* ===== verification/FsLayout.v ===== *)
(** The on-disk format of kernel/fs.h: its constants, the structures with the
    byte offsets of their fields, and little-endian fields in a block. *)

From S2P Require Import Prelude Riscv Mem Bio.

(** * kernel/fs.h *)

Definition ROOTINO : Z := 1.
Definition FSMAGIC : Z := 0x10203040.
Definition NDIRECT : Z := 12.
Definition NINDIRECT : Z := BSIZE / 4.
Definition MAXFILE : Z := NDIRECT + NINDIRECT.

Record superblock := Superblock {
  sb_magic : Z;        (* Must be FSMAGIC *)
  sb_size : Z;         (* Size of file system image (blocks) *)
  sb_nblocks : Z;      (* Number of data blocks *)
  sb_ninodes : Z;      (* Number of inodes. *)
  sb_nlog : Z;         (* Number of log blocks *)
  sb_logstart : Z;     (* Block number of first log block *)
  sb_inodestart : Z;   (* Block number of first inode block *)
  sb_bmapstart : Z;    (* Block number of first free map block *)
}.

(** [sizeof(struct dinode)]: four shorts, the size, NDIRECT+1 addresses. *)
Definition sizeof_dinode : Z := 4 * 2 + 4 + 4 * (NDIRECT + 1).
Definition IPB : Z := BSIZE / sizeof_dinode.
Definition IBLOCK (i : Z) (sb : superblock) : Z := i / IPB + sb_inodestart sb.
Definition BPB : Z := BSIZE * 8.
Definition BBLOCK (b : Z) (sb : superblock) : Z := b / BPB + sb_bmapstart sb.
Definition DIRSIZ : Z := 14.
Definition sizeof_dirent : Z := 2 + DIRSIZ.

(** * Fields of a block *)

(** [n] bytes at offset [off], and a block with [bs] written at [off]. *)
Definition get_bytes (d : list Z) (off n : nat) : list Z := take n (drop off d).
Definition splice (d : list Z) (off : nat) (bs : list Z) : list Z :=
  take off d ++ bs ++ drop (off + length bs) d.
(** The little-endian field of [n] bytes at offset [off]. *)
Definition get (n : nat) (d : list Z) (off : Z) : Z :=
  le_combine (get_bytes d (Z.to_nat off) n).
Definition put (n : nat) (d : list Z) (off v : Z) : list Z :=
  splice d (Z.to_nat off) (le_split n v).

Definition is_block (d : list Z) : Prop := length d = Z.to_nat BSIZE ∧ bytes d.

(** * Lemmas *)

Lemma length_splice d off bs :
  (off + length bs ≤ length d)%nat → length (splice d off bs) = length d.
Proof. intros H. unfold splice. rewrite !length_app, length_take, length_drop. lia. Qed.

Lemma splice_lookup d off bs i :
  (off + length bs ≤ length d)%nat →
  splice d off bs !! i =
    if decide (off ≤ i < off + length bs)%nat then bs !! (i - off)%nat else d !! i.
Proof.
  intros H. unfold splice. case_decide as Hi.
  - rewrite lookup_app_r; rewrite length_take; [|lia].
    rewrite lookup_app_l by lia. f_equal. lia.
  - destruct (decide (i < off)%nat).
    + rewrite lookup_app_l by (rewrite length_take; lia). by apply lookup_take_lt.
    + rewrite lookup_app_r; rewrite length_take; [|lia].
      rewrite lookup_app_r by lia. rewrite lookup_drop. f_equal. lia.
Qed.

Lemma get_bytes_lookup d off n i :
  get_bytes d off n !! i = if decide (i < n)%nat then d !! (off + i)%nat else None.
Proof.
  unfold get_bytes. case_decide.
  - by rewrite lookup_take_lt, lookup_drop by done.
  - by apply lookup_take_ge, Nat.nlt_ge.
Qed.

Lemma get_bytes_splice_eq d off bs :
  (off + length bs ≤ length d)%nat → get_bytes (splice d off bs) off (length bs) = bs.
Proof.
  intros H. apply list_eq. intros i. rewrite get_bytes_lookup. case_decide as Hi.
  - rewrite splice_lookup, decide_True by lia. f_equal. lia.
  - symmetry. apply lookup_ge_None_2. lia.
Qed.
Lemma get_bytes_splice_ne d off bs off' n :
  (off + length bs ≤ length d)%nat → (off' + n ≤ off ∨ off + length bs ≤ off')%nat →
  get_bytes (splice d off bs) off' n = get_bytes d off' n.
Proof.
  intros H Hd. apply list_eq. intros i. rewrite !get_bytes_lookup. case_decide; [|done].
  rewrite splice_lookup, decide_False by lia. done.
Qed.

Lemma splice_block d off bs :
  is_block d → bytes bs → (off + length bs ≤ Z.to_nat BSIZE)%nat → is_block (splice d off bs).
Proof.
  intros [Hl Hb] Hbs H. split; [rewrite length_splice; lia|].
  unfold splice. rewrite !list.Forall_app.
  split_and!; [by apply Forall_take|done|by apply Forall_drop].
Qed.

Lemma get_put_eq n d off v :
  is_block d → 0 ≤ off → off + Z.of_nat n ≤ BSIZE → 0 ≤ v < 2 ^ (8 * Z.of_nat n) →
  get n (put n d off v) off = v.
Proof.
  intros [Hl _] Ho Hn Hv. unfold get, put.
  rewrite <- (length_le_split n v) at 2.
  rewrite get_bytes_splice_eq by (rewrite length_le_split; lia).
  rewrite le_combine_split. by apply Z.mod_small.
Qed.
Lemma get_put_ne n d off v n' off' :
  is_block d → 0 ≤ off → off + Z.of_nat n ≤ BSIZE → 0 ≤ off' →
  off' + Z.of_nat n' ≤ off ∨ off + Z.of_nat n ≤ off' →
  get n' (put n d off v) off' = get n' d off'.
Proof.
  intros [Hl _] Ho Hn Ho' Hd. unfold get, put. f_equal.
  apply get_bytes_splice_ne; rewrite length_le_split; lia.
Qed.
Lemma put_block n d off v :
  is_block d → 0 ≤ off → off + Z.of_nat n ≤ BSIZE → is_block (put n d off v).
Proof.
  intros Hd Ho Hn. apply splice_block; [done|apply le_split_bytes|rewrite length_le_split; lia].
Qed.
Lemma get_bound n d off :
  bytes d → 0 ≤ get n d off < 2 ^ (8 * Z.of_nat n).
Proof.
  intros Hb. unfold get, get_bytes.
  assert (bytes (take n (drop (Z.to_nat off) d))) as Hb' by (by apply Forall_take, Forall_drop).
  pose proof (le_combine_bound _ Hb') as H. rewrite length_take in H.
  split; [lia|]. eapply Z.lt_le_trans; [apply H|]. apply Z.pow_le_mono_r; lia.
Qed.

Lemma zero_block_ok : is_block zero_block.
Proof.
  split; [apply length_replicate|]. apply Forall_replicate. unfold fits. lia.
Qed.
