(* ===== verification/Log.v ===== *)
(** kernel/log.c: the write-ahead log, over any buffer cache.  The on-disk
    header is the [struct logheader] in the bytes of block [log.start]:
    [n] at offset 0 and [block[i]] at offset [4 + 4 * i]. *)

From S2P Require Import Prelude Riscv Mem Spinlock Bio BioSpec BufCache FsLayout.

(** * State *)

Record log (S : Type) := Log {
  lg_lock : bool;
  lg_start : Z;
  lg_size : Z;
  lg_outstanding : Z;     (* how many FS sys calls are executing. *)
  lg_committing : bool;   (* in commit(), please wait. *)
  lg_dev : Z;
  lh_n : Z;               (* log.lh.n *)
  lh_block : list Z;      (* log.lh.block[LOGSIZE] *)
  lg_bio : S;             (* the buffer cache and the disk behind it *)
}.
Arguments Log {S}.
Arguments lg_lock {S}.
Arguments lg_start {S}.
Arguments lg_size {S}.
Arguments lg_outstanding {S}.
Arguments lg_committing {S}.
Arguments lg_dev {S}.
Arguments lh_n {S}.
Arguments lh_block {S}.
Arguments lg_bio {S}.

Section log.
Context {S : Type} `{BC : BufferCache S}.

Definition lg_set_lock (b : bool) (s : log S) : log S :=
  Log b (lg_start s) (lg_size s) (lg_outstanding s) (lg_committing s) (lg_dev s)
    (lh_n s) (lh_block s) (lg_bio s).
Definition lg_set_params (start size dev : Z) (s : log S) : log S :=
  Log (lg_lock s) start size (lg_outstanding s) (lg_committing s) dev
    (lh_n s) (lh_block s) (lg_bio s).
Definition lg_set_outstanding (k : Z) (s : log S) : log S :=
  Log (lg_lock s) (lg_start s) (lg_size s) k (lg_committing s) (lg_dev s)
    (lh_n s) (lh_block s) (lg_bio s).
Definition lg_set_committing (b : bool) (s : log S) : log S :=
  Log (lg_lock s) (lg_start s) (lg_size s) (lg_outstanding s) b (lg_dev s)
    (lh_n s) (lh_block s) (lg_bio s).
Definition lh_set_n (n : Z) (s : log S) : log S :=
  Log (lg_lock s) (lg_start s) (lg_size s) (lg_outstanding s) (lg_committing s) (lg_dev s)
    n (lh_block s) (lg_bio s).
Definition lh_set_block (l : list Z) (s : log S) : log S :=
  Log (lg_lock s) (lg_start s) (lg_size s) (lg_outstanding s) (lg_committing s) (lg_dev s)
    (lh_n s) l (lg_bio s).
Definition lg_set_bio (b : S) (s : log S) : log S :=
  Log (lg_lock s) (lg_start s) (lg_size s) (lg_outstanding s) (lg_committing s) (lg_dev s)
    (lh_n s) (lh_block s) b.

Definition lg_acquire : M (log S) unit := zoom lg_lock lg_set_lock Lock.lk_acquire.
Definition lg_release : M (log S) unit := zoom lg_lock lg_set_lock Lock.lk_release.
Definition bio {A} (m : M S A) : M (log S) A := zoom lg_bio lg_set_bio m.

(** [log.lh.block[i]]; an index out of range is undefined behaviour. *)
Definition lh_get (i : Z) : M (log S) Z :=
  if (0 <=? i) && (i <? LOGSIZE) then gets (λ s, default 0 (lh_block s !! Z.to_nat i))
  else stuck.
Definition lh_set (i v : Z) : M (log S) unit :=
  if (0 <=? i) && (i <? LOGSIZE)
  then modify (λ s, lh_set_block (<[Z.to_nat i := v]> (lh_block s)) s)
  else stuck.

(** The [int] at offset [off] of [b->data]. *)
Definition word_get (b : nat) (off : Z) : M (log S) Z :=
  gets (λ s, s32 (get 4 (c_data b (lg_bio s)) off)).
Definition word_set (b : nat) (off v : Z) : M (log S) unit :=
  let! d := gets (λ s, c_data b (lg_bio s)) in
  bio (c_set_data b (put 4 d off (u32 v))).
(** [memmove(dst->data, src->data, BSIZE)]. *)
Definition copy_data (dst src : nat) : M (log S) unit :=
  let! d := gets (λ s, c_data src (lg_bio s)) in
  bio (c_set_data dst d).

(** [for(i = 0; i < log.lh.n; i++) body(i)]; the bodies index [lh.block], so
    [LOGSIZE + 1] rounds are enough. *)
Definition for_lh (body : Z → M (log S) unit) : M (log S) unit :=
  loop (Z.to_nat LOGSIZE + 1) (λ i,
    let! n := gets lh_n in
    if i <? n then do! body i; ret (inl (i + 1)) else ret (inr tt)) 0.

(** * Operations *)

Context (pid : Z).   (* myproc()->pid *)

(** Copy committed blocks from log to their home location *)
Definition install_trans (recovering : bool) : M (log S) unit :=
  for_lh (λ tail,
    let! dev := gets lg_dev in
    let! start := gets lg_start in
    let! lbuf := bio (c_bread pid dev (u32 (start + tail + 1))) in
    let! home := lh_get tail in
    let! dbuf := bio (c_bread pid dev (u32 home)) in
    do! copy_data dbuf lbuf;
    do! bio (c_bwrite pid dbuf);
    do! when (negb recovering) (bio (c_bunpin dbuf));
    do! bio (c_brelse pid lbuf);
    bio (c_brelse pid dbuf)).

(** Read the log header from disk into the in-memory log header *)
Definition read_head : M (log S) unit :=
  let! dev := gets lg_dev in
  let! start := gets lg_start in
  let! buf := bio (c_bread pid dev (u32 start)) in
  let! n := word_get buf 0 in
  do! modify (lh_set_n n);
  do! for_lh (λ i,
    let! b := word_get buf (4 + 4 * i) in
    lh_set i b);
  bio (c_brelse pid buf).

(** Write in-memory log header to disk. *)
Definition write_head : M (log S) unit :=
  let! dev := gets lg_dev in
  let! start := gets lg_start in
  let! buf := bio (c_bread pid dev (u32 start)) in
  let! n := gets lh_n in
  do! word_set buf 0 n;
  do! for_lh (λ i,
    let! b := lh_get i in
    word_set buf (4 + 4 * i) b);
  do! bio (c_bwrite pid buf);
  bio (c_brelse pid buf).

Definition recover_from_log : M (log S) unit :=
  do! read_head;
  do! install_trans true; (* if committed, copy from log to disk *)
  do! modify (lh_set_n 0);
  write_head. (* clear the log *)

Definition sizeof_logheader : Z := 4 + 4 * LOGSIZE.

Definition initlog (dev : Z) (sb : superblock) : M (log S) unit :=
  if BSIZE <=? sizeof_logheader then panic "initlog: too big logheader"
  else
    do! modify (lg_set_lock false);
    do! modify (lg_set_params (s32 (sb_logstart sb)) (s32 (sb_nlog sb)) dev);
    recover_from_log.

(** The address of [log], as a sleep channel. *)
Definition log_chan : Z := -1.

(** called at the start of each FS system call.  A process that has to wait
    runs [begin_op] again from its test when it is woken up. *)
Definition begin_op : M (log S) unit :=
  do! lg_acquire;
  let! committing := gets lg_committing in
  if committing : bool then do! lg_release; sleep_on log_chan
  else
    let! n := gets lh_n in
    let! outstanding := gets lg_outstanding in
    if LOGSIZE <? n + (outstanding + 1) * MAXOPBLOCKS then
      (* this op might exhaust log space; wait for commit. *)
      do! lg_release; sleep_on log_chan
    else
      do! modify (lg_set_outstanding (outstanding + 1));
      lg_release.

(** Copy modified blocks from cache to log. *)
Definition write_log : M (log S) unit :=
  for_lh (λ tail,
    let! dev := gets lg_dev in
    let! start := gets lg_start in
    let! to := bio (c_bread pid dev (u32 (start + tail + 1))) in
    let! home := lh_get tail in
    let! from := bio (c_bread pid dev (u32 home)) in
    do! copy_data to from;
    do! bio (c_bwrite pid to);
    do! bio (c_brelse pid from);
    bio (c_brelse pid to)).

Definition commit : M (log S) unit :=
  let! n := gets lh_n in
  when (0 <? n)
    (do! write_log;          (* Write modified blocks from cache to log *)
     do! write_head;         (* Write header to disk -- the real commit *)
     do! install_trans false; (* Now install writes to home locations *)
     do! modify (lh_set_n 0);
     write_head).            (* Erase the transaction from the log *)

(** called at the end of each FS system call; commits if this was the last
    outstanding operation.  [end_op] is two critical sections with [commit]
    between them. *)
Definition end_op_enter : M (waking (log S)) bool :=
  do! still lg_acquire;
  do! still (modify (λ s, lg_set_outstanding (lg_outstanding s - 1) s));
  let! committing := still (gets lg_committing) in
  if committing : bool then panic "log.committing"
  else
    let! outstanding := still (gets lg_outstanding) in
    let do_commit := outstanding =? 0 in
    do! (if do_commit then still (modify (lg_set_committing true))
         else
           (* begin_op() may be waiting for log space, and decrementing
              log.outstanding has decreased the amount of reserved space. *)
           wakeup_on log_chan);
    do! still lg_release;
    ret do_commit.
Definition end_op_leave : M (waking (log S)) unit :=
  do! still lg_acquire;
  do! still (modify (lg_set_committing false));
  do! wakeup_on log_chan;
  still lg_release.
Definition end_op : M (log S) unit :=
  let! do_commit := alone end_op_enter in
  when do_commit
    (do! commit;
     alone end_op_leave).

(** Caller has modified b->data and is done with the buffer.  Record the
    block number and pin in the cache by increasing refcnt. *)
Definition log_write (b : nat) : M (log S) unit :=
  do! lg_acquire;
  let! n := gets lh_n in
  let! size := gets lg_size in
  if (LOGSIZE <=? n) || (size - 1 <=? n) then panic "too big a transaction"
  else
    let! outstanding := gets lg_outstanding in
    if outstanding <? 1 then panic "log_write outside of trans"
    else
      let! no := gets (λ s, c_blockno b (lg_bio s)) in
      let! i := loop (Z.to_nat LOGSIZE + 1) (λ i,
        if i <? n then
          let! x := lh_get i in
          if u32 x =? no   (* log absorption *)
          then ret (inr i) else ret (inl (i + 1))
        else ret (inr i)) 0 in
      do! lh_set i (s32 no);
      do! when (i =? n)   (* Add new block to log? *)
            (do! bio (c_bpin b);
             modify (lh_set_n (n + 1)));
      lg_release.

End log.
