(* ===== verification/LogSpec.v ===== *)
(** What kernel/log.c does to the disk: [write_log], [write_head] and
    [install_trans] as the block writes they make, in order, and the buffers
    they leave in use. *)

From S2P Require Import Prelude Riscv Mem Spinlock Bio BioSpec BufCache FsLayout Log.

(** * The abstract cache *)

Lemma size_list_to_set_le (l : list nat) :
  (size (list_to_set l : gset nat) ≤ length l)%nat.
Proof.
  induction l as [|x l IH]; [done|]. rewrite list_to_set_cons, size_union_alt, size_singleton.
  assert (size ((list_to_set l : gset nat) ∖ {[x]}) ≤ size (list_to_set l : gset nat))%nat.
  { apply subseteq_size. set_solver. }
  simpl. lia.
Qed.
Lemma a_room_size a no : (size (a_bufs a) < nbuf)%nat → a_room a no.
Proof.
  intros Hsz. right.
  set (X := list_to_set (C := gset nat) (ab_idx <$> (map_to_list (a_bufs a)).*2)).
  assert (size X ≤ size (a_bufs a))%nat as HX.
  { etrans; [apply size_list_to_set_le|]. by rewrite !length_fmap, length_map_to_list. }
  destruct (decide (set_seq 0 nbuf ⊆ X)) as [Hsub|Hsub].
  { apply subseteq_size in Hsub. rewrite size_set_seq in Hsub. lia. }
  destruct (set_choose_L (set_seq 0 nbuf ∖ X)) as [i Hi].
  { intros He. apply Hsub. intros x Hx. destruct (decide (x ∈ X)); [done|].
    assert (x ∈ (∅ : gset nat)); [|set_solver]. rewrite <- He. set_solver. }
  apply elem_of_difference in Hi as [Hi Hn]. apply elem_of_set_seq in Hi.
  exists i. split; [lia|]. intros no' ab Hab Heq. apply Hn. unfold X.
  apply elem_of_list_to_set. rewrite <- Heq. apply list_elem_of_fmap_2.
  apply list_elem_of_fmap. exists (no', ab). split; [done|]. by apply elem_of_map_to_list.
Qed.

Lemma a_set_set no x y a : a_set no x (a_set no y a) = a_set no x a.
Proof. unfold a_set. simpl. by rewrite insert_insert_eq. Qed.
Lemma a_set_id no x a : a_bufs a !! no = Some x → a_set no x a = a.
Proof. intros H. destruct a. unfold a_set. simpl in *. by rewrite insert_id. Qed.
Lemma a_del_set no x a : a_bufs a !! no = None → a_del no (a_set no x a) = a.
Proof. intros H. destruct a. unfold a_del, a_set. simpl in *. by rewrite delete_insert_id. Qed.
Lemma a_set_comm no no' x x' a :
  no ≠ no' → a_set no x (a_set no' x' a) = a_set no' x' (a_set no x a).
Proof. intros H. unfold a_set. simpl. by rewrite insert_insert_ne. Qed.
Lemma a_set_lookup no x a : a_bufs (a_set no x a) !! no = Some x.
Proof. apply lookup_insert_eq. Qed.
Lemma a_set_lookup_ne no no' x a : no ≠ no' → a_bufs (a_set no x a) !! no' = a_bufs a !! no'.
Proof. apply lookup_insert_ne. Qed.

(** The buffer of a block, after changes to other blocks. *)
Ltac a_lookup :=
  cbn [a_bufs a_set a_del a_write];
  repeat first [rewrite lookup_insert_ne by congruence | rewrite lookup_delete_ne by congruence];
  first [apply lookup_insert_eq | eassumption].

(** Two abstract caches are equal because every block has the same buffer. *)
Ltac abio_eq :=
  unfold a_set, a_del, a_write; cbn [a_disk a_bufs]; f_equal; apply map_eq; intros ?;
  repeat (rewrite lookup_insert || rewrite lookup_delete);
  repeat case_decide; subst; simpl in *; congruence.

(** [ws], newest first, were written to the disk. *)
Definition a_append (ws : disk) (a : abio) : abio := ABio (ws ++ a_disk a) (a_bufs a).

(** The blocks of a log of [z] blocks: the header and [z - 1] others. *)
Definition log_area (start z no : Z) : Prop := start ≤ no < start + z.

(** The writes of [write_log] and [install_trans], newest first. *)
Definition log_writes (start : Z) (bs : list Z) (f : Z → block) : disk :=
  reverse (imap (λ i h, (start + Z.of_nat i + 1, f h)) bs).
Definition home_writes (bs : list Z) (f : Z → block) : disk :=
  reverse ((λ h, (h, f h)) <$> bs).
Lemma log_writes_snoc start bs h f :
  log_writes start (bs ++ [h]) f =
    (start + Z.of_nat (length bs) + 1, f h) :: log_writes start bs f.
Proof.
  unfold log_writes. rewrite imap_app. simpl. rewrite reverse_snoc.
  repeat f_equal. lia.
Qed.
Lemma home_writes_snoc bs h f : home_writes (bs ++ [h]) f = (h, f h) :: home_writes bs f.
Proof. unfold home_writes. rewrite fmap_app. simpl. by rewrite reverse_snoc. Qed.

(** The header in block [log.start]. *)
Definition hd_n (h : block) : Z := s32 (get 4 h 0).
Definition hd_block (h : block) (i : nat) : Z := s32 (get 4 h (4 + 4 * Z.of_nat i)).
Definition hd_blocks (h : block) : list Z := hd_block h <$> seq 0 (Z.to_nat (hd_n h)).

(** Block [h] installed with data [d].  After a commit the block is in use and
    loses the reference [log_write] took; when recovering it is not. *)
Definition a_install (h : Z) (d : block) (a : abio) : abio :=
  a_write h d
    match a_bufs a !! h with
    | Some ab => a_give h (ABuf (ab_idx ab) d (ab_ref ab) None) None a
    | None => a
    end.

Definition a_inst (bs : list Z) (f : Z → block) (a : abio) : abio :=
  foldl (λ a h, a_install h (f h) a) a bs.

Lemma a_inst_snoc bs h f a : a_inst (bs ++ [h]) f a = a_install h (f h) (a_inst bs f a).
Proof. unfold a_inst. by rewrite foldl_app. Qed.
Lemma a_inst_disk bs f a : a_disk (a_inst bs f a) = home_writes bs f ++ a_disk a.
Proof.
  induction bs as [|h bs IH] using rev_ind; [done|].
  rewrite a_inst_snoc, home_writes_snoc. cbn [app]. rewrite <- IH.
  unfold a_install, a_give. cbn [a_write a_disk]. f_equal.
  destruct (a_bufs _ !! h); [case_decide|]; done.
Qed.
Lemma a_install_other h d a no : no ≠ h → a_bufs (a_install h d a) !! no = a_bufs a !! no.
Proof.
  intros Hne. unfold a_install, a_give. cbn [a_write a_bufs].
  destruct (a_bufs a !! h); [|done]. case_decide; cbn [a_del a_set a_bufs].
  - by rewrite lookup_delete_ne.
  - by rewrite lookup_insert_ne.
Qed.
Lemma a_inst_other bs f a no : no ∉ bs → a_bufs (a_inst bs f a) !! no = a_bufs a !! no.
Proof.
  induction bs as [|h bs IH] using rev_ind; [done|]. rewrite elem_of_app, list_elem_of_singleton.
  intros Hn. rewrite a_inst_snoc, a_install_other by tauto. apply IH. tauto.
Qed.
Lemma a_inst_size bs f a : (size (a_bufs (a_inst bs f a)) ≤ size (a_bufs a))%nat.
Proof.
  induction bs as [|h bs IH] using rev_ind; [done|]. rewrite a_inst_snoc.
  etrans; [|exact IH]. unfold a_install, a_give. cbn [a_write a_bufs].
  destruct (a_bufs (a_inst bs f a) !! h) as [ab|] eqn:Hh; [|done].
  case_decide; cbn [a_del a_set a_bufs].
  - rewrite map_size_delete, Hh. lia.
  - by rewrite map_size_insert, Hh.
Qed.

Lemma a_inst_empty bs f a : a_bufs a = ∅ → a_bufs (a_inst bs f a) = ∅.
Proof.
  intros He. induction bs as [|h bs IH] using rev_ind; [done|]. rewrite a_inst_snoc.
  unfold a_install. rewrite IH, lookup_empty. done.
Qed.

Lemma s32_u32 x : - 2 ^ 31 ≤ x < 2 ^ 31 → s32 (u32 x) = x.
Proof. unfold s32, sgn, u32. intros. dlia. Qed.

(** A header that records the blocks [bs]. *)
Lemma hd_blocks_eq (h : block) (bs : list Z) :
  hd_n h = Z.of_nat (length bs) →
  (∀ i x, bs !! i = Some x → hd_block h i = x) → hd_blocks h = bs.
Proof.
  intros Hn Hb. unfold hd_blocks. rewrite Hn, Nat2Z.id. apply list_eq. intros i.
  rewrite list_lookup_fmap. destruct (bs !! i) as [x|] eqn:Hi.
  - rewrite lookup_seq_lt by (by eapply lookup_lt_Some). simpl. f_equal. by apply Hb.
  - rewrite lookup_seq_ge by (by apply lookup_ge_None). done.
Qed.

Section logspec.
Context {S : Type} `{BCok : BufferCacheOk S} (pid : Z).
Implicit Types (s : log S) (b : S) (a : abio).

Lemma wp_bio {A} (m : M S A) (Q : A → log S → Prop) s :
  wp m (λ x b, Q x (lg_set_bio b s)) (lg_bio s) → wp (bio m) Q s.
Proof. apply wp_zoom. Qed.

Lemma bread_new b a no :
  c_rep b a → a_bufs a !! no = None → (size (a_bufs a) < nbuf)%nat →
  wp (c_bread pid ROOTDEV no) (λ i b',
    c_rep b' (a_set no (ABuf i (dread (a_disk a) no) 1 (Some pid)) a)) b.
Proof.
  intros Hr Hno Hsz. eapply wp_mono.
  - apply c_bread_ok; [done| |by apply a_room_size]. intros ab Hab. congruence.
  - intros i b' [_ Hr']. unfold a_take, a_view, a_refs in Hr'. by rewrite Hno in Hr'.
Qed.
Lemma bread_old b a no ab :
  c_rep b a → a_bufs a !! no = Some ab → ab_owner ab = None → ab_ref ab < 2 ^ 32 - 1 →
  wp (c_bread pid ROOTDEV no) (λ i b', i = ab_idx ab ∧
    c_rep b' (a_set no (ABuf (ab_idx ab) (ab_data ab) (ab_ref ab + 1) (Some pid)) a)) b.
Proof.
  intros Hr Hno Ho Hlt. eapply wp_mono.
  - apply c_bread_ok; [done| |left; by eexists]. intros ab' Hab. by simplify_eq.
  - intros i b' [Hi Hr']. unfold a_slot, a_take, a_view, a_refs in *. rewrite Hno in Hi, Hr'.
    by subst i.
Qed.

Lemma lh_get_spec i h (Q : Z → log S → Prop) s :
  0 ≤ i < LOGSIZE → lh_block s !! Z.to_nat i = Some h → Q h s → wp (lh_get i) Q s.
Proof.
  intros Hi Hh HQ. unfold lh_get.
  assert ((0 <=? i) && (i <? LOGSIZE) = true) as -> by lia. apply wp_gets. by rewrite Hh.
Qed.

Lemma for_lh_spec (I : Z → log S → Prop) (body : Z → M (log S) unit) n Q s :
  0 ≤ n ≤ LOGSIZE → I 0 s → (∀ i s', I i s' → lh_n s' = n) →
  (∀ i s', 0 ≤ i < n → I i s' → wp (body i) (λ _ s'', I (i + 1) s'') s') →
  (∀ s', I n s' → Q tt s') → wp (for_lh body) Q s.
Proof.
  intros Hn HI HIn Hbody HQ. unfold for_lh.
  apply (wp_loop _ (λ i s', 0 ≤ i ≤ n ∧ I i s') (λ i _, Z.to_nat (n - i))).
  - intros i s' [Hi HIi]. wp_steps. rewrite (HIn _ _ HIi).
    destruct (Z.ltb_spec i n).
    + apply wp_bind. eapply wp_mono; [apply Hbody; [lia|done]|].
      intros [] s'' HI'. apply wp_ret. split; [split; [lia|done]|lia].
    + apply wp_ret, HQ. by replace n with i by lia.
  - split; [lia|done].
  - lia.
Qed.

Lemma copy_data_spec dst src s a no no' ab ab' (Q : unit → log S → Prop) :
  c_rep (lg_bio s) a → a_bufs a !! no = Some ab → a_bufs a !! no' = Some ab' →
  dst = ab_idx ab → src = ab_idx ab' →
  (∀ b, c_rep b (a_set no (ABuf (ab_idx ab) (ab_data ab') (ab_ref ab) (ab_owner ab)) a) →
     Q tt (lg_set_bio b s)) →
  wp (copy_data dst src) Q s.
Proof.
  intros Hr Hno Hno' -> -> HQ. unfold copy_data. apply wp_bind, wp_gets.
  destruct (c_fields_ok _ _ _ _ Hr Hno') as [_ ->]. apply wp_bio.
  eapply wp_mono; [by eapply c_set_data_ok|]. intros [] b Hb. by apply HQ.
Qed.

(** One round of [write_log]: block [h] is in use, the log block is not. *)
Lemma write_log_round s a tail h ab :
  c_rep (lg_bio s) a → lg_dev s = ROOTDEV → 0 ≤ tail < LOGSIZE →
  fits 32 (lg_start s + tail + 1) → lh_block s !! Z.to_nat tail = Some h → fits 32 h →
  a_bufs a !! h = Some ab → ab_owner ab = None → ab_ref ab < 2 ^ 32 - 1 →
  a_bufs a !! (lg_start s + tail + 1) = None → (size (a_bufs a) < nbuf)%nat →
  wp (let! dev := gets lg_dev in
      let! start := gets lg_start in
      let! to := bio (c_bread pid dev (u32 (start + tail + 1))) in
      let! home := lh_get tail in
      let! from := bio (c_bread pid dev (u32 home)) in
      do! copy_data to from;
      do! bio (c_bwrite pid to);
      do! bio (c_brelse pid from);
      bio (c_brelse pid to))
    (λ _ s', ∃ b, s' = lg_set_bio b s ∧
      c_rep b (a_write (lg_start s + tail + 1) (ab_data ab) a)) s.
Proof.
  intros Hr Hdev Ht Hfl Hh Hfh Hab Ho Hlt Hl Hsz. set (l := lg_start s + tail + 1) in *.
  assert (l ≠ h) as Hne by congruence.
  apply wp_bind, wp_gets, wp_bind, wp_gets. rewrite Hdev. fold l. rewrite u32_id by done.
  apply wp_bind, wp_bio. eapply wp_mono; [by eapply bread_new|]. intros i b1 H1.
  apply wp_bind, (lh_get_spec _ h); [done|done|]. rewrite u32_id by done.
  apply wp_bind, wp_bio. eapply wp_mono.
  { eapply (bread_old _ _ h ab H1); [by rewrite a_set_lookup_ne|done|done]. }
  intros j b2 [-> H2]. cbn [lg_bio lg_set_bio] in H2. rewrite a_set_comm in H2 by done.
  apply wp_bind. eapply (copy_data_spec _ _ _ _ l h).
  { exact H2. }
  { apply a_set_lookup. }
  { rewrite a_set_lookup_ne by done. apply a_set_lookup. }
  { done. }
  { done. }
  intros b3 H3. cbn [ab_idx ab_data ab_ref ab_owner] in H3. rewrite a_set_set in H3.
  apply wp_bind, wp_bio. eapply (wp_bwrite _ _ _ l); [exact H3|apply a_set_lookup|done|done|].
  intros b4 H4. cbn [ab_data] in H4. pose proof (c_refs_ok _ _ _ _ Hr Hab).
  apply wp_bind, wp_bio. eapply (wp_brelse _ _ _ h); [exact H4|a_lookup|done|done|cbn; lia|].
  intros b5 H5. unfold a_give in H5. cbn [ab_ref ab_idx ab_data] in H5.
  rewrite decide_False in H5 by lia.
  apply wp_bio. eapply (wp_brelse _ _ _ l); [exact H5|a_lookup|done|done| |].
  { intros _. cbn. by rewrite Z.eqb_refl. }
  intros b6 H6. unfold a_give in H6. cbn [ab_ref] in H6. rewrite decide_True in H6 by done.
  exists b6. split; [done|]. replace (ab_ref ab + 1 - 1) with (ab_ref ab) in H6 by lia.
  eapply eq_ind; [exact H6|]. destruct ab; simpl in *. subst. abio_eq.
Qed.

(** One round of [install_trans]: the log block is not in use. *)
Abbreviation install_round recovering tail :=
  (let! dev := gets lg_dev in
   let! start := gets lg_start in
   let! lbuf := bio (c_bread pid dev (u32 (start + tail + 1))) in
   let! home := lh_get tail in
   let! dbuf := bio (c_bread pid dev (u32 home)) in
   do! copy_data dbuf lbuf;
   do! bio (c_bwrite pid dbuf);
   do! when (negb recovering) (bio (c_bunpin dbuf));
   do! bio (c_brelse pid lbuf);
   bio (c_brelse pid dbuf)).

Lemma install_round_commit s a tail h ab :
  c_rep (lg_bio s) a → lg_dev s = ROOTDEV → 0 ≤ tail < LOGSIZE →
  fits 32 (lg_start s + tail + 1) → lh_block s !! Z.to_nat tail = Some h → fits 32 h →
  a_bufs a !! h = Some ab → ab_owner ab = None → ab_ref ab < 2 ^ 32 - 1 →
  a_bufs a !! (lg_start s + tail + 1) = None → (size (a_bufs a) < nbuf)%nat →
  wp (install_round false tail) (λ _ s', ∃ b, s' = lg_set_bio b s ∧
    c_rep b (a_install h (dread (a_disk a) (lg_start s + tail + 1)) a)) s.
Proof.
  intros Hr Hdev Ht Hfl Hh Hfh Hab Ho Hlt Hl Hsz. set (l := lg_start s + tail + 1) in *.
  assert (l ≠ h) as Hne by congruence. pose proof (c_refs_ok _ _ _ _ Hr Hab) as Hpos.
  apply wp_bind, wp_gets, wp_bind, wp_gets. rewrite Hdev. fold l. rewrite u32_id by done.
  apply wp_bind, wp_bio. eapply wp_mono; [by eapply bread_new|]. intros i b1 H1.
  apply wp_bind, (lh_get_spec _ h); [done|done|]. rewrite u32_id by done.
  apply wp_bind, wp_bio. eapply wp_mono.
  { eapply (bread_old _ _ h ab H1); [by rewrite a_set_lookup_ne|done|done]. }
  intros j b2 [-> H2]. cbn [lg_bio lg_set_bio] in H2.
  apply wp_bind. eapply (copy_data_spec _ _ _ _ h l); [exact H2|a_lookup|a_lookup|done|done|].
  intros b3 H3. cbn [ab_idx ab_data ab_ref ab_owner] in H3. rewrite a_set_set in H3.
  apply wp_bind, wp_bio. eapply (wp_bwrite _ _ _ h); [exact H3|a_lookup|done|done|].
  intros b4 H4. cbn [ab_data] in H4.
  apply wp_bind. cbn [negb when]. apply wp_bio.
  eapply (wp_bunpin _ _ h); [exact H4|a_lookup|done|cbn; lia|].
  intros b5 H5. unfold a_give in H5. cbn [ab_ref ab_idx ab_data ab_owner] in H5.
  rewrite decide_False in H5 by lia.
  apply wp_bind, wp_bio. eapply (wp_brelse _ _ _ l); [exact H5|a_lookup|done|done| |].
  { intros _. cbn. rewrite (proj2 (Z.eqb_neq h l)) by congruence. done. }
  intros b6 H6. unfold a_give in H6. cbn [ab_ref] in H6. rewrite decide_True in H6 by done.
  apply wp_bio. eapply (wp_brelse _ _ _ h); [exact H6|a_lookup|done|done| |].
  { intros _. cbn. by rewrite Z.eqb_refl. }
  intros b7 H7. exists b7. split; [done|].
  replace (ab_ref ab + 1 - 1) with (ab_ref ab) in H7 by lia.
  unfold a_install. rewrite Hab. unfold a_give in H7 |- *. cbn [ab_ref ab_idx ab_data] in H7 |- *.
  eapply eq_ind; [exact H7|]. case_decide; abio_eq.
Qed.

Lemma install_round_recover s a tail h :
  c_rep (lg_bio s) a → lg_dev s = ROOTDEV → 0 ≤ tail < LOGSIZE →
  fits 32 (lg_start s + tail + 1) → lh_block s !! Z.to_nat tail = Some h → fits 32 h →
  a_bufs a = ∅ → lg_start s + tail + 1 ≠ h →
  wp (install_round true tail) (λ _ s', ∃ b, s' = lg_set_bio b s ∧
    c_rep b (a_install h (dread (a_disk a) (lg_start s + tail + 1)) a)) s.
Proof.
  intros Hr Hdev Ht Hfl Hh Hfh Hem Hne. set (l := lg_start s + tail + 1) in *.
  assert (∀ no, a_bufs a !! no = None) as Hnone by (intros; by rewrite Hem, lookup_empty).
  apply wp_bind, wp_gets, wp_bind, wp_gets. rewrite Hdev. fold l. rewrite u32_id by done.
  apply wp_bind, wp_bio. eapply wp_mono.
  { apply bread_new; [done|done|]. rewrite Hem, map_size_empty. apply Nat.ltb_lt. done. }
  intros i b1 H1.
  apply wp_bind, (lh_get_spec _ h); [done|done|]. rewrite u32_id by done.
  apply wp_bind, wp_bio. eapply wp_mono.
  { eapply (bread_new _ _ h H1); [by rewrite a_set_lookup_ne|]. cbn [a_set a_bufs].
    rewrite Hem, map_size_insert, map_size_empty. rewrite lookup_empty. apply Nat.ltb_lt. done. }
  intros j b2 H2. cbn [lg_bio lg_set_bio] in H2.
  apply wp_bind. eapply (copy_data_spec _ _ _ _ h l); [exact H2|a_lookup|a_lookup|done|done|].
  intros b3 H3. cbn [ab_idx ab_data ab_ref ab_owner] in H3. rewrite a_set_set in H3.
  apply wp_bind, wp_bio. eapply (wp_bwrite _ _ _ h); [exact H3|a_lookup|done|done|].
  intros b4 H4. cbn [ab_data] in H4. apply wp_bind. cbn [negb when]. apply wp_ret.
  apply wp_bind, wp_bio. eapply (wp_brelse _ _ _ l); [exact H4|a_lookup|done|done| |].
  { intros _. cbn. rewrite (proj2 (Z.eqb_neq h l)) by congruence. done. }
  intros b6 H6. unfold a_give in H6. cbn [ab_ref] in H6. rewrite decide_True in H6 by done.
  apply wp_bio. eapply (wp_brelse _ _ _ h); [exact H6|a_lookup|done|done| |].
  { intros _. cbn. by rewrite Z.eqb_refl. }
  intros b7 H7. exists b7. split; [done|]. unfold a_install. rewrite Hnone.
  unfold a_give in H7. cbn [ab_ref] in H7. rewrite decide_True in H7 by done.
  eapply eq_ind; [exact H7|]. destruct a. simpl in *. abio_eq.
Qed.

(** ** The rounds together *)

Record log_ok s : Prop := {
  lo_dev : lg_dev s = ROOTDEV;
  lo_len : length (lh_block s) = Z.to_nat LOGSIZE;
  lo_n : 0 ≤ lh_n s ≤ LOGSIZE;
  lo_start : 0 ≤ lg_start s ∧ lg_start s + LOGSIZE < 2 ^ 31;
  lo_size : lh_n s < lg_size s;
}.
(** The blocks of the current transaction. *)
Definition logged s : list Z := take (Z.to_nat (lh_n s)) (lh_block s).
(** Blocks of the log itself. *)
Definition in_log s (no : Z) : Prop := log_area (lg_start s) (lg_size s) no.

Lemma length_logged s : log_ok s → length (logged s) = Z.to_nat (lh_n s).
Proof. intros [_ Hl Hn _ _]. unfold logged. rewrite length_take. lia. Qed.
Lemma logged_lookup s i h : logged s !! i = Some h → lh_block s !! i = Some h.
Proof. unfold logged. by intros [? _]%lookup_take_Some. Qed.
Lemma logged_round s i h :
  log_ok s → logged s !! Z.to_nat i = Some h → 0 ≤ i → 0 ≤ i < LOGSIZE.
Proof.
  intros Hok Hh Hi. apply lookup_lt_Some in Hh. rewrite length_logged in Hh by done.
  pose proof (lo_n _ Hok). lia.
Qed.

Lemma write_log_spec s a :
  log_ok s → c_rep (lg_bio s) a →
  (∀ h, h ∈ logged s → fits 31 h ∧ is_Some (a_bufs a !! h) ∧ a_idle a h) →
  (∀ no, in_log s no → a_bufs a !! no = None) → (size (a_bufs a) < nbuf)%nat →
  wp (write_log pid) (λ _ s', ∃ b, s' = lg_set_bio b s ∧
    c_rep b (a_append (log_writes (lg_start s) (logged s) (a_view a)) a)) s.
Proof.
  intros Hok Hr Hbs Hlog Hsz. unfold write_log.
  apply (for_lh_spec (λ i s', ∃ b, s' = lg_set_bio b s ∧
    c_rep b (a_append (log_writes (lg_start s) (take (Z.to_nat i) (logged s)) (a_view a)) a))
    _ (lh_n s)).
  - apply Hok.
  - exists (lg_bio s). split; [by destruct s|]. by destruct a.
  - by intros i s' (b & -> & _).
  - intros i s' Hi (b & -> & Hb).
    destruct (lookup_lt_is_Some_2 (logged s) (Z.to_nat i)) as [h Hh].
    { rewrite length_logged by done. lia. }
    pose proof (logged_round _ _ _ Hok Hh (proj1 Hi)) as Hi'.
    destruct (Hbs h) as (Hf & [ab Hab] & Hidle); [by eapply list_elem_of_lookup_2|].
    destruct (Hidle _ Hab) as [Ho Hlt]. destruct (lo_start _ Hok).
    eapply wp_mono.
    { apply (write_log_round (lg_set_bio b s) _ i h ab Hb);
        [apply Hok|done| |by apply logged_lookup| |done|done|done| |done];
        cbn [lg_start lg_set_bio]; [unfold fits; lia|unfold fits in *; lia|].
      apply Hlog. pose proof (lo_size _ Hok). unfold in_log, log_area. lia. }
    intros [] s'' (b' & -> & Hb'). exists b'. split; [done|].
    cbn [lg_start lg_set_bio] in Hb'. replace (Z.to_nat (i + 1)) with (Datatypes.S (Z.to_nat i)) by lia.
    rewrite (take_S_r _ _ h Hh), log_writes_snoc, length_take, length_logged, Nat.min_l by (done || lia).
    rewrite Z2Nat.id by lia. unfold a_view at 1. rewrite Hab. exact Hb'.
  - intros s' (b & -> & Hb). exists b. split; [done|].
    rewrite firstn_all2 in Hb by (rewrite length_logged by done; lia). done.
Qed.

(** [f] gives the data of the log blocks. *)
Definition log_data s (d : disk) (f : Z → block) : Prop :=
  ∀ i h, logged s !! i = Some h → dread d (lg_start s + Z.of_nat i + 1) = f h.

Lemma dread_home bs f d no : no ∉ bs → dread (home_writes bs f ++ d) no = dread d no.
Proof.
  induction bs as [|h bs IH] using rev_ind; [done|].
  rewrite home_writes_snoc, elem_of_app, list_elem_of_singleton. intros Hn. simpl.
  destruct (Z.eqb_spec h no); [subst; tauto|]. apply IH. tauto.
Qed.

(** Both modes: after a commit every home block is in use, when recovering
    no block is. *)
Lemma install_trans_spec (recovering : bool) s a f :
  log_ok s → c_rep (lg_bio s) a → log_data s (a_disk a) f → NoDup (logged s) →
  (∀ h, h ∈ logged s → fits 31 h ∧ ¬ in_log s h) →
  (if recovering then a_bufs a = ∅ else
     (∀ h, h ∈ logged s → is_Some (a_bufs a !! h) ∧ a_idle a h) ∧
     (∀ no, in_log s no → a_bufs a !! no = None) ∧ (size (a_bufs a) < nbuf)%nat) →
  wp (install_trans pid recovering) (λ _ s', ∃ b, s' = lg_set_bio b s ∧
    c_rep b (a_inst (logged s) f a)) s.
Proof.
  intros Hok Hr Hf Hnd Hbs Hmode. unfold install_trans.
  apply (for_lh_spec (λ i s', ∃ b, s' = lg_set_bio b s ∧
    c_rep b (a_inst (take (Z.to_nat i) (logged s)) f a)) _ (lh_n s)).
  - apply Hok.
  - exists (lg_bio s). split; [by destruct s|done].
  - by intros i s' (b & -> & _).
  - intros i s' Hi (b & -> & Hb).
    destruct (lookup_lt_is_Some_2 (logged s) (Z.to_nat i)) as [h Hh].
    { rewrite length_logged by done. lia. }
    pose proof (logged_round _ _ _ Hok Hh (proj1 Hi)) as Hi'. destruct (lo_start _ Hok).
    assert (h ∈ logged s) as Hin by (by eapply list_elem_of_lookup_2).
    destruct (Hbs h Hin) as [Hfh Hnl].
    assert (in_log s (lg_start s + i + 1)) as Hl by (pose proof (lo_size _ Hok); unfold in_log, log_area; lia).
    assert (lg_start s + i + 1 ∉ take (Z.to_nat i) (logged s)) as Hlbs.
    { intros Hx%elem_of_take. destruct Hx as (k & Hk & _).
      by apply list_elem_of_lookup_2, Hbs in Hk as [_ ?]. }
    assert (h ∉ take (Z.to_nat i) (logged s)) as Hhbs.
    { intros (k & Hk & Hlt)%elem_of_take. pose proof (NoDup_lookup _ _ _ _ Hnd Hk Hh). lia. }
    apply wp_mono with (Q := λ _ s', ∃ b', s' = lg_set_bio b' (lg_set_bio b s) ∧
      c_rep b' (a_install h (dread (a_disk (a_inst (take (Z.to_nat i) (logged s)) f a))
        (lg_start s + i + 1)) (a_inst (take (Z.to_nat i) (logged s)) f a))).
    + destruct recovering.
      * apply (install_round_recover (lg_set_bio b s) _ i h Hb);
          [apply Hok|done|unfold fits; cbn; lia|by apply logged_lookup|unfold fits in *; lia
          |by apply a_inst_empty|]. cbn [lg_start lg_set_bio]. by intros <-.
      * destruct Hmode as (Huse & Hlog & Hsz). destruct (Huse h Hin) as [[ab Hab] Hidle].
        destruct (Hidle _ Hab). pose proof (a_inst_size (take (Z.to_nat i) (logged s)) f a).
        apply (install_round_commit (lg_set_bio b s) _ i h ab Hb);
          [apply Hok|done|unfold fits; cbn; lia|by apply logged_lookup|unfold fits in *; lia
          |by rewrite a_inst_other|done|done| |lia].
        cbn [lg_start lg_set_bio]. rewrite a_inst_other by done. by apply Hlog.
    + intros [] s'' (b' & -> & Hb'). exists b'. split; [done|].
      replace (Z.to_nat (i + 1)) with (Datatypes.S (Z.to_nat i)) by lia.
      rewrite (take_S_r _ _ h Hh), a_inst_snoc.
      rewrite a_inst_disk, dread_home in Hb' by done.
      rewrite <- (Hf _ _ Hh). by rewrite Z2Nat.id by lia.
  - intros s' (b & -> & Hb). exists b. split; [done|].
    rewrite firstn_all2 in Hb by (rewrite length_logged by done; lia). done.
Qed.

(** ** The header *)

Lemma word_set_spec buf off v s a no ab (Q : unit → log S → Prop) :
  c_rep (lg_bio s) a → a_bufs a !! no = Some ab → ab_idx ab = buf →
  (∀ b, c_rep b (a_set no (ABuf buf (put 4 (ab_data ab) off (u32 v)) (ab_ref ab) (ab_owner ab)) a) →
     Q tt (lg_set_bio b s)) →
  wp (word_set buf off v) Q s.
Proof.
  intros Hr Hab <- HQ. unfold word_set. apply wp_bind, wp_gets.
  destruct (c_fields_ok _ _ _ _ Hr Hab) as [_ ->]. apply wp_bio.
  by eapply (wp_set_data _ _ no ab).
Qed.

(** The part of the header written before round [i]. *)
Definition head_upto s (i : Z) (d : block) : Prop :=
  is_block d ∧ get 4 d 0 = u32 (lh_n s) ∧
  ∀ j h, (Z.of_nat j < i) → logged s !! j = Some h → get 4 d (4 + 4 * Z.of_nat j) = u32 h.

Lemma head_upto_put s i h d :
  log_ok s → head_upto s i d → logged s !! Z.to_nat i = Some h → 0 ≤ i →
  head_upto s (i + 1) (put 4 d (4 + 4 * i) (u32 h)).
Proof.
  intros Hok (Hd & H0 & Hj) Hh Hi. pose proof (logged_round _ _ _ Hok Hh Hi) as Hlt.
  assert (LOGSIZE = 30) as HL by done. assert (BSIZE = 1024) as HB by done.
  pose proof (u32_fits h) as Hu. unfold fits in Hu.
  split_and!.
  - apply put_block; [done|lia|lia].
  - rewrite get_put_ne; [done|done|lia..].
  - intros j x Hjlt Hx. destruct (decide (Z.of_nat j = i)) as [<-|].
    + rewrite Nat2Z.id in Hh. simplify_eq. rewrite get_put_eq; [done|done|lia..].
    + rewrite get_put_ne; [apply Hj; [lia|done]|done|lia..].
Qed.

Lemma write_head_spec s a :
  log_ok s → c_rep (lg_bio s) a → (∀ h, h ∈ logged s → fits 31 h) →
  a_bufs a !! lg_start s = None → (size (a_bufs a) < nbuf)%nat →
  is_block (dread (a_disk a) (lg_start s)) →
  wp (write_head pid) (λ _ s', ∃ b d, s' = lg_set_bio b s ∧ is_block d ∧
    hd_n d = lh_n s ∧ hd_blocks d = logged s ∧ c_rep b (a_write (lg_start s) d a)) s.
Proof.
  intros Hok Hr Hbs Hst Hsz Hblk. unfold write_head. destruct (lo_start _ Hok) as [Hs0 Hs1].
  assert (LOGSIZE = 30) as HL by done. assert (BSIZE = 1024) as HB by done.
  pose proof (lo_n _ Hok) as Hn.
  apply wp_bind, wp_gets, wp_bind, wp_gets. rewrite (lo_dev _ Hok), u32_id by (unfold fits; lia).
  apply wp_bind, wp_bio. eapply wp_mono; [by apply bread_new|]. intros buf b1 H1.
  apply wp_bind, wp_gets. apply wp_bind.
  eapply (word_set_spec _ _ _ _ _ (lg_start s)); [exact H1|a_lookup|done|].
  intros b2 H2. cbn [ab_data ab_ref ab_owner] in H2. rewrite a_set_set in H2.
  apply wp_bind. apply (for_lh_spec (λ i s', ∃ b d, s' = lg_set_bio b s ∧ head_upto s i d ∧
    c_rep b (a_set (lg_start s) (ABuf buf d 1 (Some pid)) a)) _ (lh_n s)).
  - done.
  - exists b2, (put 4 (dread (a_disk a) (lg_start s)) 0 (u32 (lh_n s))).
    split_and!; [done| |done]. split_and!.
    + apply put_block; [done|lia|lia].
    + pose proof (u32_fits (lh_n s)) as Hu. unfold fits in Hu. apply get_put_eq; [done|lia..].
    + intros j h Hj. lia.
  - by intros i s' (b & d & -> & _).
  - intros i s' Hi (b & d & -> & Hd & Hb).
    destruct (lookup_lt_is_Some_2 (logged s) (Z.to_nat i)) as [h Hh].
    { rewrite length_logged by done. lia. }
    pose proof (logged_round _ _ _ Hok Hh (proj1 Hi)) as Hi'.
    apply wp_bind, (lh_get_spec _ h); [done|by apply logged_lookup|].
    eapply (word_set_spec _ _ _ _ _ (lg_start s)); [exact Hb|a_lookup|done|].
    intros b3 H3. cbn [ab_data ab_ref ab_owner] in H3. rewrite a_set_set in H3.
    exists b3, (put 4 d (4 + 4 * i) (u32 h)). split_and!; [done|apply head_upto_put; (done || lia)|done].
  - intros s' (b & d & -> & (Hd & H0 & Hj) & Hb). apply wp_bind, wp_bio.
    eapply (wp_bwrite _ _ _ (lg_start s)); [exact Hb|a_lookup|done|done|]. intros b4 H4.
    cbn [ab_data] in H4. apply wp_bio.
    eapply (wp_brelse _ _ _ (lg_start s)); [exact H4|a_lookup|done|done| |].
    { intros _. cbn. by rewrite Z.eqb_refl. }
    intros b5 H5. unfold a_give in H5. cbn [ab_ref] in H5. rewrite decide_True in H5 by done.
    exists b5, d. assert (hd_n d = lh_n s) as Hhd.
    { unfold hd_n. rewrite H0. apply s32_u32. lia. }
    split_and!; [done|done|done| |].
    + apply hd_blocks_eq; [rewrite length_logged by done; lia|]. intros i x Hx.
      unfold hd_block. rewrite (Hj i x); [|by apply lookup_lt_Some in Hx; rewrite length_logged in Hx by done; lia|done].
      apply s32_u32. assert (fits 31 x) as Hf by (by eapply Hbs, list_elem_of_lookup_2).
      unfold fits in Hf. lia.
    + eapply eq_ind; [exact H5|]. destruct a. simpl in *. abio_eq.
Qed.

Lemma read_head_spec s a :
  let h := dread (a_disk a) (lg_start s) in
  log_ok s → c_rep (lg_bio s) a → 0 ≤ hd_n h ≤ LOGSIZE → hd_n h < lg_size s →
  a_bufs a !! lg_start s = None → (size (a_bufs a) < nbuf)%nat →
  wp (read_head pid) (λ _ s', ∃ b l,
    s' = lg_set_bio b (lh_set_block l (lh_set_n (hd_n h) s)) ∧ log_ok s' ∧
    logged s' = hd_blocks h ∧ c_rep b a) s.
Proof.
  intros h Hok Hr Hn Hz Hst Hsz. unfold read_head. destruct (lo_start _ Hok) as [Hs0 Hs1].
  apply wp_bind, wp_gets, wp_bind, wp_gets. rewrite (lo_dev _ Hok), u32_id by (unfold fits; lia).
  apply wp_bind, wp_bio. eapply wp_mono; [by apply bread_new|]. intros buf b1 H1. fold h in H1.
  assert (c_data buf b1 = h) as Hdata.
  { apply (c_fields_ok _ _ (lg_start s) _ H1 (a_set_lookup _ _ _)). }
  unfold word_get. apply wp_bind, wp_gets. cbn [lg_bio lg_set_bio]. rewrite Hdata.
  fold (hd_n h). apply wp_bind, wp_modify, wp_bind.
  apply (for_lh_spec (λ i s', ∃ l, s' = lg_set_bio b1 (lh_set_block l (lh_set_n (hd_n h) s)) ∧
    length l = Z.to_nat LOGSIZE ∧
    ∀ j, (Z.of_nat j < i) → l !! j = Some (hd_block h j)) _ (hd_n h)).
  - done.
  - exists (lh_block s). split_and!; [done|apply Hok|lia].
  - by intros i s' (l & -> & _).
  - intros i s' Hi (l & -> & Hl & Hj). apply wp_bind, wp_gets. cbn [lg_bio lg_set_bio].
    rewrite Hdata. unfold lh_set. assert ((0 <=? i) && (i <? LOGSIZE) = true) as -> by lia.
    apply wp_modify. exists (<[Z.to_nat i := s32 (get 4 h (4 + 4 * i))]> l).
    split_and!; [done|by rewrite length_insert|]. intros j Hji.
    destruct (decide (Z.of_nat j = i)) as [<-|].
    + rewrite Nat2Z.id, list_lookup_insert_eq by lia. done.
    + rewrite list_lookup_insert_ne by lia. apply Hj. lia.
  - intros s' (l & -> & Hl & Hj). apply wp_bio. cbn [lg_bio lg_set_bio].
    eapply (wp_brelse _ _ _ (lg_start s)); [exact H1|a_lookup|done|done|done|].
    intros b2 H2. unfold a_give in H2. cbn [ab_ref] in H2. rewrite decide_True in H2 by done.
    rewrite a_del_set in H2 by done. exists b2, l.
    split_and!; [done|split; simpl; [apply Hok|done|done|done|done]| |done].
    unfold logged. cbn [lh_n lh_block lg_set_bio lh_set_block lh_set_n].
    symmetry. apply hd_blocks_eq; [rewrite length_take; lia|]. intros i x Hx.
    apply lookup_take_Some in Hx as [Hx Hlt]. rewrite Hj in Hx by lia. congruence.
Qed.
End logspec.
