(* ===== verification/LogCrash.v ===== *)
(** Crash safety of kernel/log.c.  A crash leaves the disk after any number of
    the block writes that were made; recovery reads the header, installs the
    logged blocks and clears the log.  [commit] is shown to be atomic with
    respect to crashes at every point, recovery included. *)

From S2P Require Import Prelude Riscv Mem Spinlock Sleeplock Bio BioSpec BufCache FsLayout.
From S2P Require Import Log LogSpec.

(** * Disks as lists of writes *)

(** [d'] is a disk between [d] and [D]: some of the writes were made. *)
Definition crash (d D d' : disk) : Prop := ∃ w1 w2, D = w1 ++ d' ∧ d' = w2 ++ d.

Lemma crash_refl d : crash d d d.
Proof. by exists [], []. Qed.
Lemma crash_end d w : crash d (w ++ d) (w ++ d).
Proof. by exists [], w. Qed.

Lemma dread_app_ne w d no :
  (∀ x, x ∈ w → x.1 ≠ no) → dread (w ++ d) no = dread d no.
Proof.
  induction w as [|[b v] w IH]; intros Hw; [done|]. simpl.
  destruct (Z.eqb_spec b no) as [->|]; [by destruct (Hw (no, v)); [left|]|].
  apply IH. intros x Hx. apply Hw. by right.
Qed.

Lemma home_writes_elem bs f x : x ∈ home_writes bs f → x.1 ∈ bs.
Proof.
  unfold home_writes. rewrite elem_of_reverse. intros (h & -> & Hh)%list_elem_of_fmap_1. done.
Qed.
Lemma log_writes_elem start bs f x :
  x ∈ log_writes start bs f → start < x.1 ≤ start + Z.of_nat (length bs).
Proof.
  unfold log_writes. rewrite elem_of_reverse. intros (i & h & -> & Hh)%elem_of_lookup_imap_1.
  apply lookup_lt_Some in Hh. simpl. lia.
Qed.
Lemma dread_home_in bs f d h : h ∈ bs → dread (home_writes bs f ++ d) h = f h.
Proof.
  induction bs as [|x bs IH] using rev_ind; [by intros ?%elem_of_nil|].
  rewrite home_writes_snoc, elem_of_app, list_elem_of_singleton. simpl. intros Hh.
  destruct (Z.eqb_spec x h) as [->|]; [done|]. apply IH. destruct Hh; congruence.
Qed.
Lemma dread_log_in start bs f d i h :
  bs !! i = Some h → dread (log_writes start bs f ++ d) (start + Z.of_nat i + 1) = f h.
Proof.
  revert i. induction bs as [|x bs IH] using rev_ind; intros i Hi; [done|].
  rewrite log_writes_snoc. simpl.
  destruct (Z.eqb_spec (start + Z.of_nat (length bs) + 1) (start + Z.of_nat i + 1)) as [He|Hne].
  - rewrite lookup_app_r in Hi by lia. replace (i - length bs)%nat with 0%nat in Hi by lia.
    by simplify_eq/=.
  - pose proof (lookup_lt_Some _ _ _ Hi) as Hlt. rewrite length_app in Hlt. simpl in Hlt.
    apply IH. rewrite lookup_app_l in Hi by lia. done.
Qed.

(** * What a restart reads *)

Definition lview (start : Z) (d : disk) (no : Z) : block :=
  match list_find (λ h, h = no) (hd_blocks (dread d start)) with
  | Some (i, _) => dread d (start + Z.of_nat i + 1)
  | None => dread d no
  end.

(** The log at [start] can be recovered from. *)
Record valid_log (start z : Z) (d : disk) : Prop := {
  vl_block : is_block (dread d start);
  vl_n : 0 ≤ hd_n (dread d start) ≤ LOGSIZE;
  vl_size : hd_n (dread d start) < z;
  vl_nodup : NoDup (hd_blocks (dread d start));
  vl_home : ∀ h, h ∈ hd_blocks (dread d start) →
    fits 31 h ∧ ¬ log_area start z h;
}.

Lemma hd_blocks_nil h : hd_n h = 0 → hd_blocks h = [].
Proof. intros H. unfold hd_blocks. by rewrite H. Qed.
Lemma lview_clear start d no : hd_n (dread d start) = 0 → lview start d no = dread d no.
Proof. intros H. unfold lview. by rewrite hd_blocks_nil. Qed.
Lemma valid_clear start z d :
  is_block (dread d start) → hd_n (dread d start) = 0 → 0 < z → valid_log start z d.
Proof.
  intros Hb H0 Hz. split; rewrite ?hd_blocks_nil, ?H0 by done; [done|done|done|constructor|].
  by intros h ?%elem_of_nil.
Qed.

(** The value of a logged block, and of the others. *)
Lemma lview_in start d i h :
  NoDup (hd_blocks (dread d start)) → hd_blocks (dread d start) !! i = Some h →
  lview start d h = dread d (start + Z.of_nat i + 1).
Proof.
  intros Hnd Hi. unfold lview.
  destruct (list_find _ _) as [[j x]|] eqn:Hf.
  - apply list_find_Some in Hf as (Hj & -> & _).
    by rewrite (NoDup_lookup _ _ _ _ Hnd Hj Hi).
  - eapply list_find_None, Forall_in in Hf; [done|]. by eapply list_elem_of_lookup_2.
Qed.
Lemma lview_out start d no :
  no ∉ hd_blocks (dread d start) → lview start d no = dread d no.
Proof.
  intros Hno. unfold lview. destruct (list_find _ _) as [[j x]|] eqn:Hf; [|done].
  apply list_find_Some in Hf as (Hj & -> & _). by apply list_elem_of_lookup_2 in Hj.
Qed.

(** Writes outside the log to logged blocks do not change the view. *)
Lemma lview_install start z w d :
  valid_log start z d →
  (∀ x, x ∈ w → x.1 ∈ hd_blocks (dread d start)) →
  valid_log start z (w ++ d) ∧ ∀ no, lview start (w ++ d) no = lview start d no.
Proof.
  intros [Hb Hn Hz Hnd Hh] Hw.
  assert (∀ no, log_area start z no → dread (w ++ d) no = dread d no) as Hlog.
  { intros no Hno. apply dread_app_ne. intros x Hx <-. by apply (Hh (x.1)); [apply Hw|]. }
  assert (dread (w ++ d) start = dread d start) as Hs by (apply Hlog; unfold log_area; lia).
  split; [split; rewrite Hs; done|]. intros no.
  destruct (decide (no ∈ hd_blocks (dread d start))) as [Hin|Hout].
  - apply list_elem_of_lookup_1 in Hin as [i Hi].
    rewrite !(lview_in _ _ i) by (rewrite ?Hs; done). apply Hlog.
    pose proof (lookup_lt_Some _ _ _ Hi) as Hlt. unfold hd_blocks in Hlt.
    rewrite length_fmap, length_seq in Hlt. unfold log_area. lia.
  - rewrite !lview_out by (rewrite ?Hs; done).
    apply dread_app_ne. intros x Hx <-. by apply Hout, Hw.
Qed.

(** * The disk during a commit *)

Section commit_disk.
Context (start z : Z) (d : disk) (bs : list Z) (f : Z → block) (h0 h1 : block).
Context (Hblk : is_block (dread d start)) (Hclear : hd_n (dread d start) = 0).
Context (Hlen : Z.of_nat (length bs) ≤ LOGSIZE) (Hz : Z.of_nat (length bs) < z) (Hnd : NoDup bs).
Context (Hbs : ∀ h, h ∈ bs → fits 31 h ∧ ¬ log_area start z h).
Context (Hh1 : is_block h1 ∧ hd_n h1 = Z.of_nat (length bs) ∧ hd_blocks h1 = bs).
Context (Hh0 : is_block h0 ∧ hd_n h0 = 0).

Definition new_view (no : Z) : block := if decide (no ∈ bs) then f no else dread d no.
(** The disk once the header is written: the transaction is committed. *)
Definition committed : disk := (start, h1) :: log_writes start bs f ++ d.
(** The disk at the end of [commit]. *)
Definition installed : disk := (start, h0) :: home_writes bs f ++ committed.

Lemma dread_committed no : ¬ log_area start z no → dread committed no = dread d no.
Proof.
  unfold log_area. intros Hno. simpl.
  destruct (Z.eqb_spec start no); [lia|]. apply dread_app_ne.
  intros x Hx <-. apply log_writes_elem in Hx. lia.
Qed.
Lemma dread_committed_start : dread committed start = h1.
Proof. simpl. by rewrite Z.eqb_refl. Qed.

Lemma committed_valid : valid_log start z committed.
Proof.
  destruct Hh1 as (? & ? & Hb). split; rewrite dread_committed_start, ?Hb; [done|lia|lia|done|done].
Qed.
Lemma committed_view no :
  ¬ log_area start z no → lview start committed no = new_view no.
Proof.
  intros Hno. destruct Hh1 as (_ & _ & Hb). unfold new_view. case_decide as Hin.
  - apply list_elem_of_lookup_1 in Hin as [i Hi].
    rewrite (lview_in _ _ i) by (rewrite dread_committed_start, Hb; done).
    unfold committed. cbn [dread]. destruct (Z.eqb_spec start (start + Z.of_nat i + 1)); [lia|].
    by apply dread_log_in.
  - rewrite lview_out by (by rewrite dread_committed_start, Hb). by apply dread_committed.
Qed.

Lemma installed_start : dread installed start = h0.
Proof. simpl. by rewrite Z.eqb_refl. Qed.
Lemma installed_view no :
  ¬ log_area start z no → dread installed no = new_view no.
Proof.
  intros Hno. unfold installed. cbn [dread].
  destruct (Z.eqb_spec start no); [subst; destruct Hno; unfold log_area; lia|].
  unfold new_view. case_decide.
  - by apply dread_home_in.
  - rewrite dread_app_ne; [by apply dread_committed|].
    by intros x Hx%home_writes_elem <-.
Qed.

Definition sees (v : Z → block) (d' : disk) : Prop :=
  ∀ no, ¬ log_area start z no → lview start d' no = v no.

Lemma uncommitted_view w w' :
  log_writes start bs f = w' ++ w → valid_log start z (w ++ d) ∧ sees (dread d) (w ++ d).
Proof.
  intros Hw. unfold sees, log_area.
  assert (∀ x, x ∈ w → start < x.1 < start + z) as Hin.
  { intros x Hx. assert (x ∈ log_writes start bs f) as H by (rewrite Hw; set_solver).
    apply log_writes_elem in H. lia. }
  assert (dread (w ++ d) start = dread d start) as Hs.
  { apply dread_app_ne. intros x Hx%Hin <-. lia. }
  split; [apply valid_clear; rewrite ?Hs; done || lia|]. intros no Hno.
  rewrite lview_clear by (by rewrite Hs). apply dread_app_ne. intros x Hx%Hin <-. lia.
Qed.

Lemma commit_crash d' :
  crash d installed d' →
  valid_log start z d' ∧ (sees (dread d) d' ∨ sees new_view d').
Proof.
  intros (w1 & w2 & HD & ->).
  assert ((start, h0) :: home_writes bs f ++ (start, h1) :: log_writes start bs f = w1 ++ w2)
    as HA.
  { apply (app_inv_tail d). rewrite <- app_assoc, <- HD. unfold installed, committed.
    simpl. by rewrite <- app_assoc. }
  assert (∀ k, (∀ x, x ∈ k → x.1 ∈ bs) →
    valid_log start z (k ++ committed) ∧ sees new_view (k ++ committed)) as Hcom.
  { intros k Hk. destruct (lview_install start z k committed) as [Hv Hl].
    - apply committed_valid.
    - rewrite dread_committed_start. destruct Hh1 as (_ & _ & ->). done.
    - split; [done|]. intros no Hno. rewrite Hl. by apply committed_view. }
  destruct w1 as [|x w1].
  - cbn [app] in HD. rewrite <- HD.
    split; [apply valid_clear; rewrite ?installed_start; apply Hh0 || lia|]. right.
    intros no Hno. rewrite lview_clear by (rewrite installed_start; apply Hh0).
    by apply installed_view.
  - cbn [app] in HA. injection HA as _ HA. apply app_eq_inv in HA as [(k & Hk & ->)|(k & -> & Hk)].
    + destruct (Hcom k) as [? ?]; [|rewrite <- app_assoc; by auto].
      intros y Hy. apply (home_writes_elem bs f). rewrite Hk. set_solver.
    + destruct k as [|y k]; simplify_eq/=.
      * destruct (Hcom []) as [? ?]; [by intros y ?%elem_of_nil|]. auto.
      * destruct (uncommitted_view w2 k) as [? ?]; [done|]. auto.
Qed.
End commit_disk.

(** * commit and recovery *)

Section commit.
Context {S : Type} `{BCok : BufferCacheOk S} (pid : Z).
Implicit Types (s : log S) (a : abio).

(** A transaction that is ready to commit: its blocks are in the cache and
    no process has them locked, the log's own blocks are not in use and the
    log on disk is clear. *)
Record tx_ready (s : log S) (a : abio) : Prop := {
  tr_ok : log_ok s;
  tr_rep : c_rep (lg_bio s) a;
  tr_nodup : NoDup (logged s);
  tr_home : ∀ h, h ∈ logged s → fits 31 h ∧ ¬ in_log s h;
  tr_used : ∀ h, h ∈ logged s → is_Some (a_bufs a !! h) ∧ a_idle a h;
  tr_log : ∀ no, in_log s no → a_bufs a !! no = None;
  tr_room : (size (a_bufs a) < nbuf)%nat;
  tr_block : is_block (dread (a_disk a) (lg_start s));
  tr_clear : hd_n (dread (a_disk a) (lg_start s)) = 0;
}.

Lemma lh_clear_ok (s : log S) : log_ok s → log_ok (lh_set_n 0 s).
Proof. intros [H1 H2 H3 H4 H5]. split; [done|done|done|done|simpl; lia]. Qed.

(** The buffers after the installation do not depend on the disk. *)
Lemma a_inst_eq bs f a a' :
  a_bufs a = a_bufs a' →
  a_inst bs f a = ABio (home_writes bs f ++ a_disk a) (a_bufs (a_inst bs f a')).
Proof.
  intros Heq. assert (a_bufs (a_inst bs f a) = a_bufs (a_inst bs f a')) as <-.
  { induction bs as [|x bs IH] using rev_ind; [done|]. rewrite !a_inst_snoc.
    unfold a_install, a_give. rewrite IH. cbn [a_write a_bufs].
    destruct (a_bufs (a_inst bs f a') !! x); [|done]. case_decide; cbn; by rewrite IH. }
  rewrite <- a_inst_disk. by destruct (a_inst bs f a).
Qed.

Lemma commit_spec s a :
  tx_ready s a → 0 < lh_n s →
  wp (commit pid) (λ _ s', ∃ b h0 h1,
    s' = lh_set_n 0 (lg_set_bio b s) ∧
    (is_block h1 ∧ hd_n h1 = lh_n s ∧ hd_blocks h1 = logged s) ∧
    (is_block h0 ∧ hd_n h0 = 0) ∧
    c_rep b (ABio (installed (lg_start s) (a_disk a) (logged s) (a_view a) h0 h1)
      (a_bufs (a_inst (logged s) (a_view a) a)))) s.
Proof.
  intros [Hok Hr Hnd Hhome Hused Hlog Hroom Hblk Hclear] Hn. unfold commit.
  assert (LOGSIZE = 30) as HL by done. pose proof (lo_n _ Hok) as Hn'.
  assert (∀ h, h ∈ logged s → fits 31 h) as Hf by (intros h Hh; by apply Hhome).
  assert (in_log s (lg_start s)) as Hst by (pose proof (lo_size _ Hok); unfold in_log, log_area; lia).
  apply wp_bind, wp_gets. rewrite (proj2 (Z.ltb_lt 0 (lh_n s))) by lia. cbn [when].
  apply wp_bind. eapply wp_mono; [apply (write_log_spec pid s a Hok Hr)|].
  { intros h Hh. split; [by apply Hf|by apply Hused]. }
  { done. } { done. }
  intros [] s1 (b1 & -> & H1). set (s1 := lg_set_bio b1 s).
  assert (log_ok s1) as Hok1 by (destruct Hok; by split).
  set (d1 := log_writes (lg_start s) (logged s) (a_view a) ++ a_disk a).
  assert (dread d1 (lg_start s) = dread (a_disk a) (lg_start s)) as Hd1.
  { apply dread_app_ne. intros x Hx%log_writes_elem. lia. }
  apply wp_bind. eapply wp_mono; [apply (write_head_spec pid s1 _ Hok1 H1 Hf)|].
  { by apply Hlog. } { done. } { by rewrite <- Hd1 in Hblk. }
  intros [] s2 (b2 & h1 & -> & Hh1 & Hh1n & Hh1b & H2).
  assert (log_ok (lg_set_bio b2 s1)) as Hok2 by (destruct Hok; by split).
  apply wp_bind. eapply wp_mono.
  { apply (install_trans_spec pid false _ _ (a_view a) Hok2 H2); [|done|done|].
    - intros i h Hi. cbn [a_write a_append a_disk lg_start lg_set_bio s1 dread].
      destruct (Z.eqb_spec (lg_start s) (lg_start s + Z.of_nat i + 1)); [lia|].
      by apply dread_log_in.
    - split_and!; [|done|done]. intros h Hh. apply Hused, Hh. }
  intros [] s3 (b3 & -> & H3). cbn [logged] in H3.
  apply wp_bind, wp_modify. eapply wp_mono; [eapply (write_head_spec pid)|].
  { by apply lh_clear_ok; destruct Hok; split. }
  { exact H3. }
  { by intros h ?%elem_of_nil. }
  { cbn. rewrite a_inst_other; [by apply Hlog|]. by intros [_ Hx]%Hhome. }
  { eapply Nat.le_lt_trans; [apply a_inst_size|done]. }
  { cbn. rewrite a_inst_disk, dread_app_ne; cbn; [by rewrite Z.eqb_refl|].
    intros x Hx%home_writes_elem He. rewrite He in Hx. by apply Hhome in Hx as [_ ?]. }
  intros [] s4 (b4 & h0 & -> & Hh0 & Hh0n & _ & H4). exists b4, h0, h1.
  split_and!; [done..|]. change (logged (lg_set_bio b2 s1)) with (logged s) in H4.
  rewrite (a_inst_eq _ _ _ a) in H4 by done. exact H4.
Qed.

(** [s'] differs from [s] in the in-memory header and the cache. *)
Definition same_log (s s' : log S) : Prop :=
  lg_lock s' = lg_lock s ∧ lg_start s' = lg_start s ∧ lg_size s' = lg_size s ∧
  lg_outstanding s' = lg_outstanding s ∧ lg_committing s' = lg_committing s ∧
  lg_dev s' = lg_dev s.

Lemma lview_log_data s d :
  valid_log (lg_start s) (lg_size s) d → logged s = hd_blocks (dread d (lg_start s)) →
  log_data s d (lview (lg_start s) d).
Proof.
  intros Hv Hl i h Hi. rewrite Hl in Hi. by rewrite (lview_in _ _ i) by (done || apply Hv).
Qed.

Lemma recover_spec s a :
  let bs := hd_blocks (dread (a_disk a) (lg_start s)) in
  log_ok s → c_rep (lg_bio s) a → a_bufs a = ∅ → valid_log (lg_start s) (lg_size s) (a_disk a) →
  wp (recover_from_log pid) (λ _ s', ∃ h0, same_log s s' ∧ log_ok s' ∧ lh_n s' = 0 ∧
    (is_block h0 ∧ hd_n h0 = 0) ∧
    c_rep (lg_bio s') (ABio ((lg_start s, h0) ::
      home_writes bs (lview (lg_start s) (a_disk a)) ++ a_disk a) ∅)) s.
Proof.
  intros bs Hok Hr Hem Hv. unfold recover_from_log.
  assert (LOGSIZE = 30) as HL by done.
  assert (∀ no, a_bufs a !! no = None) as Hnone by (intros; by rewrite Hem, lookup_empty).
  assert (size (a_bufs a) < nbuf)%nat as Hsz.
  { rewrite Hem, map_size_empty. apply Nat.ltb_lt. done. }
  apply wp_bind. eapply wp_mono; [apply (read_head_spec pid s a Hok Hr); [apply Hv|apply Hv|done|done]|].
  intros [] s1 (b1 & l & Hs1 & Hok1 & Hl1 & H1).
  assert (same_log s s1 ∧ lg_start s1 = lg_start s ∧ lg_size s1 = lg_size s ∧ lg_bio s1 = b1) as (Hsame1 & Hst1 & Hsz1 & Hb1)
    by (by rewrite Hs1).
  clear Hs1. rewrite <- Hb1 in H1. fold bs in Hl1.
  apply wp_bind. eapply wp_mono.
  { apply (install_trans_spec pid true s1 a (lview (lg_start s) (a_disk a)) Hok1 H1).
    - rewrite <- Hst1. apply lview_log_data; rewrite ?Hst1, ?Hsz1; done.
    - rewrite Hl1. apply Hv.
    - rewrite Hl1. unfold in_log. rewrite Hst1, Hsz1. apply Hv.
    - done. }
  intros [] s2 (b2 & -> & H2). rewrite Hl1 in H2. apply wp_bind, wp_modify.
  rewrite (a_inst_eq _ _ _ (ABio [] ∅)) in H2 by (by rewrite Hem).
  rewrite a_inst_empty in H2 by done.
  eapply wp_mono; [eapply (write_head_spec pid)|].
  { by apply lh_clear_ok; destruct Hok1; split. }
  { exact H2. }
  { by intros h ?%elem_of_nil. }
  { apply lookup_empty. }
  { cbn. rewrite map_size_empty. apply Nat.ltb_lt. done. }
  { cbn. rewrite Hst1, dread_app_ne; [apply Hv|]. intros x Hx%home_writes_elem He.
    rewrite He in Hx. apply Hv in Hx as [_ Hx]. apply Hx. pose proof (vl_n _ _ _ Hv). pose proof (vl_size _ _ _ Hv). unfold log_area. lia. }
  intros [] s3 (b3 & h0 & -> & Hh0 & Hh0n & _ & H3). exists h0.
  change (lg_bio (lg_set_bio b3 ?x)) with b3. cbn in H3. rewrite Hst1 in H3.
  split_and!; [exact Hsame1|destruct Hok1; split; simpl; done || lia|done|done|done|exact H3].
Qed.

(** The disk after recovery, and at every point of it. *)
Lemma recover_crash start z d h0 d' :
  valid_log start z d → is_block h0 ∧ hd_n h0 = 0 →
  let bs := hd_blocks (dread d start) in
  let D := (start, h0) :: home_writes bs (lview start d) ++ d in
  (∀ no, ¬ log_area start z no → dread D no = lview start d no) ∧
  (crash d D d' → valid_log start z d' ∧ sees start z (lview start d) d').
Proof.
  intros Hv Hh0 bs D. assert (0 < z) as Hz by (destruct Hv; lia).
  assert (dread D start = h0) as HD0 by (simpl; by rewrite Z.eqb_refl).
  assert (∀ no, ¬ log_area start z no → dread D no = lview start d no) as HD.
  { intros no Hno. unfold D. cbn [dread].
    destruct (Z.eqb_spec start no); [exfalso; apply Hno; unfold log_area; lia|].
    destruct (decide (no ∈ bs)).
    - by apply dread_home_in.
    - rewrite lview_out by done. apply dread_app_ne. by intros x Hx%home_writes_elem <-. }
  split; [done|]. intros (w1 & w2 & HDw & ->). destruct w1 as [|x w1].
  - cbn [app] in HDw. rewrite <- HDw. split; [apply valid_clear; rewrite ?HD0; apply Hh0 || done|].
    intros no Hno. rewrite lview_clear by (rewrite HD0; apply Hh0). by apply HD.
  - unfold D in HDw. cbn [app] in HDw. injection HDw as _ HDw. rewrite app_assoc in HDw.
    apply app_inv_tail in HDw. destruct (lview_install start z w2 d Hv) as [Hv' Hl].
    + intros y Hy. apply (home_writes_elem bs (lview start d)). rewrite HDw. set_solver.
    + split; [done|]. intros no _. apply Hl.
Qed.

(** The file system's blocks before and after the transaction. *)
Definition old_view a : Z → block := dread (a_disk a).
Definition tx_view s a : Z → block := new_view (a_disk a) (logged s) (a_view a).

(** [commit] is atomic with respect to crashes.  It installs every block
    of the transaction and clears the log; and whichever of its disk writes
    were made before a crash, the log on the disk is valid and what a restart
    reads through it is, for all blocks at once, either what the disk held
    before the transaction or what the transaction wrote. *)
Theorem commit_atomic s a :
  tx_ready s a → 0 < lh_n s →
  wp (commit pid) (λ _ s', ∃ a', c_rep (lg_bio s') a' ∧ lh_n s' = 0 ∧
    hd_n (dread (a_disk a') (lg_start s)) = 0 ∧
    (∀ no, ¬ in_log s no → dread (a_disk a') no = tx_view s a no) ∧
    ∀ d', crash (a_disk a) (a_disk a') d' →
      valid_log (lg_start s) (lg_size s) d' ∧
      (sees (lg_start s) (lg_size s) (old_view a) d' ∨ sees (lg_start s) (lg_size s) (tx_view s a) d')) s.
Proof.
  intros Ht Hn. eapply wp_mono; [by apply (commit_spec s a)|].
  intros [] s' (b & h0 & h1 & -> & Hh1 & Hh0 & Hb). destruct Ht.
  rewrite <- (Z2Nat.id (lh_n s)), <- length_logged in Hh1 by (done || lia).
  assert (Z.of_nat (length (logged s)) ≤ LOGSIZE ∧ Z.of_nat (length (logged s)) < lg_size s) as [Hlen Hz].
  { rewrite length_logged by done. pose proof (lo_n _ tr_ok0). pose proof (lo_size _ tr_ok0). lia. }
  eexists. split_and!; [exact Hb|done| | |].
  - cbn [a_disk]. rewrite installed_start. apply Hh0.
  - intros no Hno. by apply (installed_view (lg_start s) (lg_size s)).
  - intros d' Hc. by eapply commit_crash.
Qed.

(** C2: recovery after a crash is safe and can itself crash.  It makes every
    block read as the log says and clears the log; and whichever of its own
    writes were made before another crash, the log is still valid and reads
    the same, so that the next recovery produces the same file system. *)
Theorem recovery_idempotent s a :
  log_ok s → c_rep (lg_bio s) a → a_bufs a = ∅ → valid_log (lg_start s) (lg_size s) (a_disk a) →
  wp (recover_from_log pid) (λ _ s', ∃ a', c_rep (lg_bio s') a' ∧ a_bufs a' = ∅ ∧
    lh_n s' = 0 ∧ hd_n (dread (a_disk a') (lg_start s)) = 0 ∧
    (∀ no, ¬ in_log s no → dread (a_disk a') no = lview (lg_start s) (a_disk a) no) ∧
    ∀ d', crash (a_disk a) (a_disk a') d' →
      valid_log (lg_start s) (lg_size s) d' ∧
      sees (lg_start s) (lg_size s) (lview (lg_start s) (a_disk a)) d') s.
Proof.
  intros Hok Hr Hem Hv. eapply wp_mono; [by apply (recover_spec s a)|].
  intros [] s' (h0 & _ & _ & Hn & Hh0 & Hb). eexists. split_and!; [exact Hb|done|done| | |].
  - cbn. rewrite Z.eqb_refl. apply Hh0.
  - intros no Hno. by apply (recover_crash (lg_start s) (lg_size s) (a_disk a) h0 []).
  - intros d' Hc. by eapply (recover_crash (lg_start s) (lg_size s)).
Qed.
End commit.

(** * A transaction on the buffer cache of bio.c *)

(** One block is modified, pinned and released; [ex_log] is the log of the
    transaction, at block 2. *)
Definition ex_data : block := replicate (Z.to_nat BSIZE) 7.
Definition ex_log (b : bcache) : log bcache :=
  Log false 2 30 0 true ROOTDEV 1 (50 :: replicate 29 0) b.
Lemma ex_tx_cache :
  ∃ b i, c_rep b (ABio [] {[50 := ABuf i ex_data 1 None]}).
Proof.
  destruct booted_cache as [b0 Hr0].
  assert (wp (let! i := c_bread 1 ROOTDEV 50 in
              do! c_set_data i ex_data; do! c_bpin i; do! c_brelse 1 i; ret i)
    (λ i b, c_rep b (ABio [] {[50 := ABuf i ex_data 1 None]})) b0) as Hwp.
  { apply wp_bind. eapply wp_mono.
    { apply (bread_new 1 b0 (ABio [] ∅) 50); [by eexists|done|apply Nat.ltb_lt; done]. }
    intros i b1 H1. apply wp_bind. eapply (wp_set_data _ _ 50); [exact H1|a_lookup|done|].
    intros b2 H2. rewrite a_set_set in H2. apply wp_bind.
    eapply (wp_bpin _ _ 50); [exact H2|a_lookup|done|done|].
    intros b3 H3. rewrite a_set_set in H3. apply wp_bind.
    eapply (wp_brelse _ _ _ 50); [exact H3|a_lookup|done|done|done|].
    intros b4 H4. apply wp_ret. exact H4. }
  destruct (proj1 (wp_ok _ _ _) Hwp) as (i & b & _ & Hb). by exists b, i.
Qed.
Lemma zero_block_clear : hd_n zero_block = 0.
Proof. vm_compute. reflexivity. Qed.
Lemma ex_tx_ready b i :
  c_rep b (ABio [] {[50 := ABuf i ex_data 1 None]}) →
  tx_ready (ex_log b) (ABio [] {[50 := ABuf i ex_data 1 None]}).
Proof.
  intros Hr. assert (logged (ex_log b) = [50]) as Hl by done.
  split; rewrite ?Hl.
  - split; [done|done|cbn; vm_compute; split; discriminate|split; [cbn; lia|reflexivity]|reflexivity].
  - exact Hr.
  - apply NoDup_singleton.
  - intros h ->%list_elem_of_singleton. split; [unfold fits; lia|].
    unfold in_log, log_area. cbn. lia.
  - intros h ->%list_elem_of_singleton. cbn. rewrite lookup_singleton_eq. split; [by eexists|].
    intros ab Hab. cbn in Hab. rewrite lookup_singleton_eq in Hab. simplify_eq. done.
  - intros no Hno. cbn. apply lookup_singleton_ne.
    unfold in_log, log_area in Hno. cbn in Hno. lia.
  - cbn. rewrite map_size_singleton. apply Nat.ltb_lt. reflexivity.
  - apply zero_block_ok.
  - apply zero_block_clear.
Qed.


Lemma recovery_idempotent_witness :
  ∃ b, wp (recover_from_log 1) (λ _ s', ∃ a', c_rep (lg_bio s') a' ∧ a_bufs a' = ∅ ∧
    lh_n s' = 0 ∧ hd_n (dread (a_disk a') 2) = 0 ∧
    (∀ no, ¬ in_log (ex_log b) no → dread (a_disk a') no = lview 2 [] no) ∧
    ∀ d', crash [] (a_disk a') d' → valid_log 2 30 d' ∧ sees 2 30 (lview 2 []) d') (ex_log b).
Proof.
  destruct booted_cache as (b & Hr). exists b.
  refine (recovery_idempotent 1 (ex_log b) (ABio [] ∅) _ _ _ _).
  - split; [done|done|cbn; vm_compute; split; discriminate|split; [cbn; lia|reflexivity]|reflexivity].
  - eexists. exact Hr.
  - reflexivity.
  - apply valid_clear; [apply zero_block_ok|apply zero_block_clear|reflexivity].
Defined.

(** * Restarting the kernel *)

(** [binit], then [initlog] as [fsinit] calls it, from a zeroed kernel image. *)
Definition boot (pid : Z) (sb : superblock) : M (log bcache) unit :=
  do! bio binit; initlog pid ROOTDEV sb.
Definition image (d : disk) : log bcache :=
  Log false 0 0 0 false 0 0 (replicate (Z.to_nat LOGSIZE) 0) (bss d).

(** The disks that restarts from [d] can leave, each of them cut short by a
    crash at any point. *)
Inductive crashed_boots (pid : Z) (sb : superblock) : disk → disk → Prop :=
| cb_none d : crashed_boots pid sb d d
| cb_more d d' s d'' :
    crashed_boots pid sb d d' → boot pid sb (image d') = Ok tt s →
    crash d' (bc_disk (lg_bio s)) d'' → crashed_boots pid sb d d''.

Section restart.
Context (pid : Z) (sb : superblock).
Context (Hstart : 0 ≤ sb_logstart sb ∧ sb_logstart sb + LOGSIZE < 2 ^ 31) (Hnlog : 0 < sb_nlog sb < 2 ^ 31).
Abbreviation start := (sb_logstart sb).
Abbreviation z := (sb_nlog sb).

Lemma boot_spec d :
  valid_log start z d →
  wp (boot pid sb) (λ _ s, (∀ d', crash d (bc_disk (lg_bio s)) d' →
      valid_log start z d' ∧ sees start z (lview start d) d') ∧
    ∀ no, ¬ log_area start z no →
      dread (bc_disk (lg_bio s)) no = lview start d no) (image d).
Proof.
  intros Hv. unfold boot. apply wp_bind, wp_bio. cbn [lg_bio image].
  eapply wp_mono; [apply binit_spec|]. intros [] b Hb. unfold initlog.
  change (BSIZE <=? sizeof_logheader) with false. cbn iota.
  apply wp_bind, wp_modify, wp_bind, wp_modify.
  rewrite !s32_id by (assert (LOGSIZE = 30) by done; lia).
  eapply wp_mono; [apply (recover_spec pid _ (ABio d ∅))|].
  - split; [done|apply length_replicate|vm_compute; split; discriminate|done|apply Hnlog].
  - by eexists.
  - done.
  - done.
  - intros [] s (h0 & _ & _ & _ & Hh0 & [l Hr]).
    rewrite <- (br_disk _ _ _ Hr). split.
    + intros d' Hc. by eapply (recover_crash start z d h0).
    + intros no Hno. by apply (recover_crash start z d h0 []).
Qed.

Lemma crashed_boots_view d d' :
  crashed_boots pid sb d d' → valid_log start z d →
  valid_log start z d' ∧ sees start z (lview start d) d'.
Proof.
  intros Hc Hv. induction Hc as [d|d d' s d'' _ IH Hb Hd]; [done|].
  destruct (IH Hv) as [Hv' Hs']. pose proof (boot_spec d' Hv') as Hw.
  destruct (wp_elim _ _ _ _ _ Hw Hb) as [H _]. destruct (H d'' Hd) as [Hv'' Hs''].
  split; [done|]. intros no Hno. rewrite Hs'', Hs' by done. done.
Qed.
End restart.

(** C1: a crash anywhere in [commit], followed by any number of restarts that
    crash themselves, loses no committed block and shows no half of a
    transaction: the first restart that completes leaves a disk on which all
    blocks have the values before the transaction or all have the values the
    transaction wrote. *)
Theorem commit_survives pid sb s a s' d' d'' :
  tx_ready s a → 0 < lh_n s → sb_logstart sb = lg_start s →
  sb_nlog sb = lg_size s → lg_size s < 2 ^ 31 →
  commit pid s = Ok tt s' →
  crash (bc_disk (lg_bio s)) (bc_disk (lg_bio s')) d' →
  crashed_boots pid sb d' d'' →
  wp (boot pid sb) (λ _ r,
    (∀ no, ¬ in_log s no → dread (bc_disk (lg_bio r)) no = old_view a no) ∨
    (∀ no, ¬ in_log s no → dread (bc_disk (lg_bio r)) no = tx_view s a no)) (image d'').
Proof.
  intros Ht Hn Hsb Hsz Hmax Hrun Hc Hboots. pose proof Ht as [Hok [l Hr] _ _ _ _ _ _ _].
  pose proof (lo_start _ Hok) as Hst. rewrite <- Hsb in Hst.
  assert (0 < sb_nlog sb < 2 ^ 31) as Hnlog by (pose proof (lo_size _ Hok); lia).
  destruct (wp_elim _ _ _ _ _ (commit_spec pid s a Ht Hn) Hrun)
    as (b & h0 & h1 & -> & Hh1 & Hh0 & [l' Hb]).
  change (lg_bio (lh_set_n 0 (lg_set_bio b s))) with b in Hc.
  rewrite <- (br_disk _ _ _ Hr), <- (br_disk _ _ _ Hb) in Hc. destruct Ht.
  rewrite <- (Z2Nat.id (lh_n s)), <- length_logged in Hh1 by (done || lia).
  assert (Z.of_nat (length (logged s)) ≤ LOGSIZE ∧ Z.of_nat (length (logged s)) < lg_size s) as [Hlen Hz].
  { rewrite length_logged by done. pose proof (lo_n _ Hok). pose proof (lo_size _ Hok). lia. }
  destruct (commit_crash (lg_start s) (lg_size s) (a_disk a) (logged s) (a_view a) h0 h1) with d'
    as [Hv Hsees]; [done..|].
  rewrite <- Hsb, <- Hsz in Hv. destruct (crashed_boots_view pid sb Hst Hnlog d' d'' Hboots Hv) as [Hv' Hs'].
  eapply wp_mono; [by apply boot_spec|]. intros [] r [_ Hread].
  unfold in_log. rewrite <- Hsb, <- Hsz in Hsees |- *.
  destruct Hsees as [Hsees|Hsees]; [left|right]; intros no Hno;
    rewrite Hread, Hs' by done; by apply Hsees.
Qed.

Definition ex_sb : superblock := Superblock FSMAGIC 1000 954 200 30 2 32 45.
Lemma commit_survives_witness :
  ∃ b i s', commit 1 (ex_log b) = Ok tt s' ∧
    wp (boot 1 ex_sb) (λ _ r,
      (∀ no, ¬ in_log (ex_log b) no → dread (bc_disk (lg_bio r)) no =
         old_view (ABio [] {[50 := ABuf i ex_data 1 None]}) no) ∨
      (∀ no, ¬ in_log (ex_log b) no → dread (bc_disk (lg_bio r)) no =
         tx_view (ex_log b) (ABio [] {[50 := ABuf i ex_data 1 None]}) no))
      (image (bc_disk (lg_bio s'))).
Proof.
  destruct ex_tx_cache as (b & i & Hr). pose proof (ex_tx_ready b i Hr) as Ht.
  destruct (proj1 (wp_ok (commit 1) _ _) (commit_spec 1 (ex_log b) _ Ht ltac:(reflexivity)))
    as ([] & s' & Hrun & Hs').
  exists b, i, s'. split; [exact Hrun|].
  refine (commit_survives 1 ex_sb (ex_log b) _ s' (bc_disk (lg_bio s')) _ Ht _ _ _ _ Hrun _ _).
  - reflexivity.
  - reflexivity.
  - reflexivity.
  - reflexivity.
  - destruct Hs' as (b' & h0 & h1 & -> & _ & _ & [l' Hb']). destruct Hr as [l Hr].
    change (lg_bio (ex_log b)) with b.
    change (lg_bio (lh_set_n 0 (lg_set_bio b' (ex_log b)))) with b'.
    rewrite <- (br_disk _ _ _ Hr), <- (br_disk _ _ _ Hb').
    exists [], (installed 2 [] [50] (a_view (ABio [] {[50 := ABuf i ex_data 1 None]})) h0 h1).
    split; [reflexivity|]. symmetry. apply app_nil_r.
  - apply cb_none.
Defined.
