(* ===== verification/LogOps.v ===== *)
(** Processes that run file-system calls concurrently: [begin_op],
    [log_write] and [end_op] of kernel/log.c as the steps of an interleaving,
    with the reservation of log space they maintain. *)

From S2P Require Import Prelude Riscv Mem Spinlock Sleeplock Bio BioSpec BufCache FsLayout.
From S2P Require Import Log LogSpec.

Section ops.
Context {S : Type} `{BC : BufferCache S}.
Implicit Types s : log S.

(** * What the operations do *)

Lemma begin_op_run s :
  lg_lock s = false →
  begin_op s =
    if lg_committing s || (LOGSIZE <? lh_n s + (lg_outstanding s + 1) * MAXOPBLOCKS)
    then Blocked log_chan s
    else Ok tt (lg_set_outstanding (lg_outstanding s + 1) s).
Proof.
  destruct s as [lk st sz out com dev n bl b]; simpl; intros ->.
  unfold begin_op. cbv -[Z.ltb Z.add Z.mul LOGSIZE MAXOPBLOCKS orb].
  destruct com; [done|]. simpl. by destruct (_ <? _).
Qed.

Lemma end_op_enter_run s cs :
  lg_lock s = false →
  end_op_enter (Waking s cs) =
    if lg_committing s then Panic "log.committing"
    else let out := lg_outstanding s - 1 in
         let s' := lg_set_outstanding out s in
         if out =? 0 then Ok true (Waking (lg_set_committing true s') cs)
         else Ok false (Waking s' (cs ++ [log_chan])).
Proof.
  destruct s as [lk st sz out com dev n bl b]; simpl; intros ->.
  unfold end_op_enter. cbv -[Z.eqb Z.sub]. destruct com; [done|]. by destruct (_ =? 0).
Qed.

Lemma end_op_leave_run s cs :
  lg_lock s = false →
  end_op_leave (Waking s cs) = Ok tt (Waking (lg_set_committing false s) (cs ++ [log_chan])).
Proof. destruct s; simpl; by intros ->. Qed.

(** Where [log_write] stops in its search: the position of [no] among the
    logged blocks, or their number. *)
Definition log_pos (no : Z) (bs : list Z) : nat :=
  match list_find (λ h, u32 h = no) bs with Some (i, _) => i | None => length bs end.

Lemma log_pos_le no bs : (log_pos no bs ≤ length bs)%nat.
Proof.
  unfold log_pos. destruct (list_find _ bs) as [[i x]|] eqn:Hf; [|done].
  apply list_find_Some in Hf as (Hi & _). apply lookup_lt_Some in Hi. lia.
Qed.

Lemma log_search_spec no n s :
  log_ok s → lh_n s = n →
  wp (loop (Z.to_nat LOGSIZE + 1) (λ i,
        if i <? n then
          let! x := lh_get i in
          if u32 x =? no then ret (inr i) else ret (inl (i + 1))
        else ret (inr i)) 0)
    (λ i s', s' = s ∧ i = Z.of_nat (log_pos no (logged s))) s.
Proof.
  intros Hok Hn. pose proof (lo_n _ Hok) as Hb. pose proof (length_logged s Hok) as Hlen.
  apply (wp_loop _ (λ i s', s' = s ∧ 0 ≤ i ≤ n ∧
      ∀ j h, Z.of_nat j < i → logged s !! j = Some h → u32 h ≠ no)
    (λ i _, Z.to_nat (n - i))).
  - intros i ? (-> & Hi & Hbefore). destruct (Z.ltb_spec i n).
    + destruct (lookup_lt_is_Some_2 (logged s) (Z.to_nat i)) as [h Hh]; [lia|].
      apply wp_bind, (lh_get_spec _ h); [lia|by apply logged_lookup|].
      destruct (Z.eqb_spec (u32 h) no) as [He|Hne]; apply wp_ret.
      * split; [done|]. unfold log_pos.
        rewrite (proj2 (list_find_Some _ _ (Z.to_nat i) h)); [lia|].
        split_and!; [done|done|]. intros j x Hj Hlt. apply (Hbefore j); [lia|done].
      * split; [|lia]. split_and!; [done|lia|lia|]. intros j x Hj Hx.
        destruct (decide (Z.of_nat j = i)) as [<-|]; [rewrite Nat2Z.id in Hh; congruence|].
        apply (Hbefore j); [lia|done].
    + apply wp_ret. split; [done|]. unfold log_pos.
      rewrite (proj2 (list_find_None _ _)); [lia|].
      apply list.Forall_forall. intros x Hx. apply list_elem_of_lookup_1 in Hx as [j Hj].
      apply (Hbefore j); [|done]. apply lookup_lt_Some in Hj. lia.
  - split_and!; [done|lia|lia|]. intros j h Hj. lia.
  - lia.
Qed.

Lemma log_write_too_big s b :
  lg_lock s = false → LOGSIZE ≤ lh_n s ∨ lg_size s - 1 ≤ lh_n s →
  log_write b s = Panic "too big a transaction".
Proof.
  intros Hlk Hn. destruct s as [lk st sz out com dev n bl b0]; simpl in *. subst lk.
  unfold log_write. cbv -[Z.leb Z.sub LOGSIZE orb Z.ltb loop].
  assert ((LOGSIZE <=? n) || (sz - 1 <=? n) = true) as ->; [|done].
  apply orb_true_iff. rewrite !Z.leb_le. done.
Qed.

(** The block list after [no] was put at its position. *)
Definition log_put (no : Z) s : log S :=
  lh_set_block (<[log_pos no (logged s) := s32 no]> (lh_block s)) s.

Lemma log_write_run s b :
  log_ok s → lg_lock s = false → lh_n s < LOGSIZE → lh_n s < lg_size s - 1 →
  1 ≤ lg_outstanding s →
  let no := c_blockno b (lg_bio s) in
  log_write b s =
    if decide (log_pos no (logged s) = length (logged s)) then
      match c_bpin b (lg_bio s) with
      | Ok _ b' => Ok tt (lh_set_n (lh_n s + 1) (lg_set_bio b' (log_put no s)))
      | Panic msg => Panic msg
      | Blocked c b' => Blocked c (lg_set_lock true (lg_set_bio b' (log_put no s)))
      | Stuck => Stuck
      end
    else Ok tt (log_put no s).
Proof.
  intros Hok Hlk Hn Hsz Hout no. set (s1 := lg_set_lock true s).
  assert (log_ok s1) as Hok1 by (destruct Hok; by split).
  pose proof (lo_n _ Hok) as Hb. pose proof (length_logged s Hok) as Hlen.
  pose proof (log_pos_le no (logged s)) as Hpos.
  destruct (proj1 (wp_ok _ _ _) (log_search_spec no (lh_n s) s1 Hok1 eq_refl))
    as (i & s2 & Hrun & -> & Hi).
  change (logged s1) with (logged s) in Hi.
  assert (lg_acquire s = Ok tt s1) as Hacq by (unfold lg_acquire, zoom; by rewrite Hlk).
  assert ((LOGSIZE <=? lh_n s) || (lg_size s - 1 <=? lh_n s) = false) as Hc1.
  { apply orb_false_iff. rewrite !Z.leb_gt. lia. }
  assert ((lg_outstanding s <? 1) = false) as Hc2 by lia.
  assert ((0 <=? i) && (i <? LOGSIZE) = true) as Hc3 by lia.
  unfold log_write. rewrite (bind_ok _ _ _ _ _ Hacq).
  rewrite (bind_ok (gets lh_n) _ _ (lh_n s) s1) by done.
  rewrite (bind_ok (gets lg_size) _ _ (lg_size s) s1) by done. rewrite Hc1.
  rewrite (bind_ok (gets lg_outstanding) _ _ (lg_outstanding s) s1) by done. rewrite Hc2.
  rewrite (bind_ok (gets _) _ _ no s1) by done. rewrite (bind_ok _ _ _ _ _ Hrun).
  unfold lh_set. rewrite Hc3, Hi, Nat2Z.id. unfold modify at 1, bind at 1.
  case_decide as Hd.
  - assert ((Z.of_nat (log_pos no (logged s)) =? lh_n s) = true) as -> by lia. cbn [when].
    unfold bind, bio, zoom. cbn. destruct (c_bpin b (lg_bio s)) as [[] b'| | |]; [|done..].
    destruct s; simpl in *. by subst.
  - assert ((Z.of_nat (log_pos no (logged s)) =? lh_n s) = false) as -> by lia. cbn [when].
    destruct s; simpl in *. by subst.
Qed.
End ops.

(** * What commit leaves alone *)

Section frame.
Context {S : Type} `{BC : BufferCache S}.

(** The fields of the log other than the cache are unchanged. *)
Definition keeps {A} (m : M (log S) A) : Prop :=
  ∀ s a s', m s = Ok a s' → s' = lg_set_bio (lg_bio s') s.

Lemma keeps_ret {A} (a : A) : keeps (ret a).
Proof. intros [] ? ? [= _ <-]. done. Qed.
Lemma keeps_gets {A} (f : log S → A) : keeps (gets f).
Proof. intros [] ? ? [= _ <-]. done. Qed.
Lemma keeps_stuck {A} : keeps (@stuck (log S) A).
Proof. by intros []. Qed.
Lemma keeps_bio {A} (m : M S A) : keeps (bio m).
Proof. intros s a s'. unfold bio, zoom. destruct (m (lg_bio s)); naive_solver. Qed.
Lemma keeps_bind {A B} (m : M (log S) A) (k : A → M (log S) B) :
  keeps m → (∀ a, keeps (k a)) → keeps (bind m k).
Proof.
  intros Hm Hk s b s'. unfold bind. destruct (m s) as [a s1| | |] eqn:E; try done.
  intros H. apply Hm in E. apply Hk in H. rewrite H, E. done.
Qed.
Lemma keeps_when c m : keeps m → keeps (when c m).
Proof. intros H. destruct c; [done|apply keeps_ret]. Qed.
Lemma keeps_loop {A B} fuel (body : A → M (log S) (A + B)) a :
  (∀ a, keeps (body a)) → keeps (loop fuel body a).
Proof.
  intros H. revert a. induction fuel as [|fuel IH]; intros a; [by intros []|].
  simpl. apply keeps_bind; [done|]. intros [|]; [done|apply keeps_ret].
Qed.
Hint Resolve keeps_ret keeps_gets keeps_stuck keeps_bio keeps_bind keeps_when keeps_loop : kernel.

Lemma keeps_for_lh body : (∀ i, keeps (body i)) → keeps (@for_lh S body).
Proof.
  intros H. apply keeps_loop. intros i. apply keeps_bind; [apply keeps_gets|].
  intros n. destruct (i <? n); auto with kernel.
Qed.
Lemma keeps_lh_get i : keeps (@lh_get S i).
Proof. unfold lh_get. destruct (_ && _); auto with kernel. Qed.
Lemma keeps_word_set b off v : keeps (word_set b off v).
Proof. unfold word_set. auto with kernel. Qed.
Lemma keeps_copy_data dst src : keeps (copy_data dst src).
Proof. unfold copy_data. auto with kernel. Qed.
Hint Resolve keeps_for_lh keeps_lh_get keeps_word_set keeps_copy_data : kernel.

Lemma keeps_write_log pid : keeps (write_log pid).
Proof. unfold write_log. auto 20 with kernel. Qed.
Lemma keeps_write_head pid : keeps (write_head pid).
Proof. unfold write_head. auto 20 with kernel. Qed.
Lemma keeps_install_trans pid r : keeps (install_trans pid r).
Proof. unfold install_trans. auto 20 with kernel. Qed.

(** [commit] empties the in-memory header and leaves the rest. *)
Lemma commit_frame pid s s' :
  commit pid s = Ok tt s' →
  s' = lh_set_n (if 0 <? lh_n s then 0 else lh_n s) (lg_set_bio (lg_bio s') s).
Proof.
  unfold commit. rewrite (bind_ok (gets lh_n) _ s (lh_n s) s) by done.
  destruct (0 <? lh_n s); simpl.
  - unfold bind. destruct (write_log pid s) as [[] s1| | |] eqn:E1; try done.
    destruct (write_head pid s1) as [[] s2| | |] eqn:E2; try done.
    destruct (install_trans pid false s2) as [[] s3| | |] eqn:E3; try done.
    simpl. intros E4. apply keeps_write_log in E1. apply keeps_write_head in E2, E4.
    apply keeps_install_trans in E3. rewrite E4, E3, E2, E1. done.
  - intros [= <-]. by destruct s.
Qed.
End frame.

(** * Concurrent file-system calls *)

Module Calls.
(** A process outside any call (or about to try [begin_op] again), asleep in
    [begin_op] on a channel, in a call that has added [k] blocks to the log, in [end_op]
    before and after [commit]. *)
Inductive caller := Out | Waiting (chan : Z) | In (k : nat) | Committing | Committed.

(** The sleepers on one of the channels [cs] are runnable again. *)
Definition wake (cs : list Z) (p : caller) : caller :=
  match p with Waiting c => if decide (c ∈ cs) then Out else p | _ => p end.
Definition running (p : caller) : nat := match p with In _ => 1 | _ => 0 end.
Definition committer (p : caller) : nat :=
  match p with Committing | Committed => 1 | _ => 0 end.
(** What a call may still add. *)
Definition allowance (p : caller) : nat :=
  match p with In k => (Z.to_nat MAXOPBLOCKS - k)%nat | _ => 0 end.

Section calls.
Context {S : Type} `{BC : BufferCache S}.

Implicit Types (s : log S) (ps : list caller).

Record calls := World { y_log : log S; y_procs : list caller }.

(** One critical section of one process, or any activity in the buffer cache.
    A call adds at most [MAXOPBLOCKS] blocks.  What [end_op] does to the
    sleepers is what its calls of [wakeup] do. *)
Inductive call_step : calls → calls → Prop :=
| st_begin s s' ps i :
    ps !! i = Some Out → begin_op s = Ok tt s' →
    call_step (World s ps) (World s' (<[i := In 0]> ps))
| st_wait s s' ps i c :
    ps !! i = Some Out → begin_op s = Blocked c s' →
    call_step (World s ps) (World s' (<[i := Waiting c]> ps))
| st_cache s ps b :
    call_step (World s ps) (World (lg_set_bio b s) ps)
| st_write s s' ps i k b :
    ps !! i = Some (In k) → log_write b s = Ok tt s' →
    (k + Z.to_nat (lh_n s' - lh_n s) ≤ Z.to_nat MAXOPBLOCKS)%nat →
    call_step (World s ps) (World s' (<[i := In (k + Z.to_nat (lh_n s' - lh_n s))]> ps))
| st_end s s' cs ps i k :
    ps !! i = Some (In k) → end_op_enter (Waking s []) = Ok false (Waking s' cs) →
    call_step (World s ps) (World s' (wake cs <$> <[i := Out]> ps))
| st_last s s' cs ps i k :
    ps !! i = Some (In k) → end_op_enter (Waking s []) = Ok true (Waking s' cs) →
    call_step (World s ps) (World s' (wake cs <$> <[i := Committing]> ps))
| st_commit s s' ps i pid :
    ps !! i = Some Committing → commit pid s = Ok tt s' →
    call_step (World s ps) (World s' (<[i := Committed]> ps))
| st_leave s s' cs ps i :
    ps !! i = Some Committed → end_op_leave (Waking s []) = Ok tt (Waking s' cs) →
    call_step (World s ps) (World s' (wake cs <$> <[i := Out]> ps)).

Definition calls_init (w : calls) : Prop :=
  log_ok (y_log w) ∧ lg_lock (y_log w) = false ∧ lg_outstanding (y_log w) = 0 ∧
  lg_committing (y_log w) = false ∧ lh_n (y_log w) = 0 ∧ Forall (eq Out) (y_procs w).

(** [begin_op] has to wait. *)
Definition must_wait (s : log S) : bool :=
  lg_committing s || (LOGSIZE <? lh_n s + (lg_outstanding s + 1) * MAXOPBLOCKS).

Record calls_inv (w : calls) : Prop := {
  ci_ok : log_ok (y_log w);
  ci_lock : lg_lock (y_log w) = false;
  ci_out : lg_outstanding (y_log w) = Z.of_nat (sum_list_with running (y_procs w));
  ci_com : b2z (lg_committing (y_log w)) = Z.of_nat (sum_list_with committer (y_procs w));
  ci_alone : lg_committing (y_log w) = true → lg_outstanding (y_log w) = 0;
  ci_space : lh_n (y_log w) + Z.of_nat (sum_list_with allowance (y_procs w)) ≤ LOGSIZE;
  ci_empty : lg_outstanding (y_log w) = 0 →
    lg_committing (y_log w) = false ∨ Committed ∈ y_procs w → lh_n (y_log w) = 0;
  ci_wait : ∀ c, Waiting c ∈ y_procs w → c = log_chan ∧ must_wait (y_log w) = true;
}.

Lemma sum_insert (f : caller → nat) ps i p q :
  ps !! i = Some p →
  (sum_list_with f (<[i := q]> ps) + f p = sum_list_with f ps + f q)%nat.
Proof.
  revert i. induction ps as [|x ps IH]; intros [|i] H; simplify_eq/=; [lia|].
  specialize (IH i H). lia.
Qed.
Lemma sum_wake (f : caller → nat) cs ps :
  (∀ c, f (Waiting c) = f Out) → sum_list_with f (wake cs <$> ps) = sum_list_with f ps.
Proof.
  intros Hf. induction ps as [|x ps IH]; [done|]. csimpl. rewrite IH.
  destruct x; simpl; try case_decide; rewrite ?Hf; done.
Qed.
Lemma wake_waiting c cs ps : Waiting c ∈ wake cs <$> ps → Waiting c ∈ ps ∧ c ∉ cs.
Proof.
  intros (x & Hx & Hin)%list_elem_of_fmap_1. destruct x; try done. simpl in Hx.
  case_decide; [done|]. by injection Hx as ->.
Qed.
Lemma wake_committed cs ps : Committed ∈ wake cs <$> ps → Committed ∈ ps.
Proof. intros (x & Hx & Hin)%list_elem_of_fmap_1. destruct x; try done. simpl in Hx. by case_decide. Qed.
Lemma elem_insert ps i p x : x ∈ <[i := p]> ps → x = p ∨ x ∈ ps.
Proof.
  intros [j Hj]%list_elem_of_lookup_1. apply list_lookup_insert_Some in Hj.
  destruct Hj as [(_ & -> & _)|[_ Hj]]; [by left|right]. by eapply list_elem_of_lookup_2.
Qed.
Lemma committed_counted ps : Committed ∈ ps → (0 < sum_list_with committer ps)%nat.
Proof.
  induction ps as [|x ps IH]; [by intros ?%elem_of_nil|].
  intros [<-|H]%elem_of_cons; simpl; [lia|]. apply IH in H. lia.
Qed.

Lemma init_inv w : calls_init w → calls_inv w.
Proof.
  intros (Hok & Hlk & Hout & Hcom & Hn & Hps). 
  assert (∀ f, f Out = 0%nat → sum_list_with f (y_procs w) = 0%nat) as Hsum.
  { intros f Hf. induction Hps as [|x ps <- _ IH]; simpl; [done|]. by rewrite Hf, IH. }
  split; rewrite ?Hsum, ?Hout, ?Hcom, ?Hn by done; try done.
  - intros c Hw. eapply Forall_in in Hps; [|exact Hw]. done.
Qed.

(** What remains to be checked for a step of process [i] from [p] to [q]. *)
Record step_ok s s' (p q : caller) (ps' : list caller) : Prop := {
  so_ok : log_ok s';
  so_lock : lg_lock s' = false;
  so_out : lg_outstanding s' = lg_outstanding s + Z.of_nat (running q) - Z.of_nat (running p);
  so_com : b2z (lg_committing s') =
    b2z (lg_committing s) + Z.of_nat (committer q) - Z.of_nat (committer p);
  so_alone : lg_committing s' = true → lg_outstanding s' = 0;
  so_space : lh_n s' + Z.of_nat (sum_list_with allowance ps') ≤ LOGSIZE;
  so_empty : lg_outstanding s' = 0 → lg_committing s' = false ∨ Committed ∈ ps' → lh_n s' = 0;
}.
Lemma step_ok_inv s ps i p q s' :
  calls_inv (World s ps) → ps !! i = Some p → step_ok s s' p q (<[i := q]> ps) →
  (∀ c, Waiting c ∈ <[i := q]> ps → c = log_chan ∧ must_wait s' = true) →
  calls_inv (World s' (<[i := q]> ps)).
Proof.
  intros [Hok Hlk Hout Hcom Hal Hsp Hem Hwt] Hi []; simpl in *. intros Hw.
  pose proof (sum_insert running ps i p q Hi). pose proof (sum_insert committer ps i p q Hi).
  split; simpl; try done; lia.
Qed.
Lemma step_ok_wake s ps i p q s' cs :
  calls_inv (World s ps) → ps !! i = Some p → step_ok s s' p q (<[i := q]> ps) →
  (∀ c, q ≠ Waiting c) → (log_chan ∈ cs ∨ must_wait s' = true) →
  calls_inv (World s' (wake cs <$> <[i := q]> ps)).
Proof.
  intros [Hok Hlk Hout Hcom Hal Hsp Hem Hwt] Hi [] Hq Hcs; simpl in *.
  pose proof (sum_insert running ps i p q Hi). pose proof (sum_insert committer ps i p q Hi).
  split; simpl; rewrite ?sum_wake by done; try done; try lia.
  - intros Hz [Hc|Hc%wake_committed]; auto.
  - intros c [[E|Hw]%elem_insert Hc]%wake_waiting; [by destruct (Hq c)|].
    destruct (Hwt c Hw) as [-> _]. split; [done|]. by destruct Hcs.
Qed.

Lemma allowance_bound ps :
  Z.of_nat (sum_list_with allowance ps) ≤ MAXOPBLOCKS * Z.of_nat (sum_list_with running ps).
Proof.
  induction ps as [|x ps IH]; [done|]. cbn [sum_list_with].
  assert (Z.of_nat (allowance x) ≤ MAXOPBLOCKS * Z.of_nat (running x)).
  { unfold MAXOPBLOCKS. destruct x; cbn [allowance running]; unfold MAXOPBLOCKS; lia. }
  lia.
Qed.

Lemma begin_inv s s' ps i :
  calls_inv (World s ps) → ps !! i = Some Out → begin_op s = Ok tt s' →
  calls_inv (World s' (<[i := In 0]> ps)).
Proof.
  intros Hinv Hi Hrun. pose proof Hinv as [Hok Hlk Hout Hcom Hal Hsp Hem Hwt]; simpl in *.
  rewrite begin_op_run in Hrun by done. fold (must_wait s) in Hrun.
  destruct (must_wait s) eqn:Hmw; simplify_eq. unfold must_wait in Hmw. bool_facts.
  pose proof (allowance_bound (<[i := In 0]> ps)) as Hb.
  pose proof (sum_insert running ps i Out (In 0) Hi) as Hr. simpl in Hr.
  unfold MAXOPBLOCKS in *.
  eapply step_ok_inv; [done..| |].
  - split; simpl; [destruct Hok; by split|done|lia|lia|congruence|lia|lia].
  - intros c [?|Hw]%elem_insert; [done|]. by destruct (Hwt c Hw).
Qed.

Lemma wait_inv s s' ps i c :
  calls_inv (World s ps) → ps !! i = Some Out → begin_op s = Blocked c s' →
  calls_inv (World s' (<[i := Waiting c]> ps)).
Proof.
  intros Hinv Hi Hrun. pose proof Hinv as [Hok Hlk Hout Hcom Hal Hsp Hem Hwt]; simpl in *.
  rewrite begin_op_run in Hrun by done. fold (must_wait s) in Hrun.
  destruct (must_wait s) eqn:Hmw; simplify_eq.
  pose proof (sum_insert allowance ps i Out (Waiting log_chan) Hi) as Hr. simpl in Hr.
  eapply step_ok_inv; [done..| |].
  - split; simpl; [done|done|lia|lia|done|lia|]. intros Hz [Hc|Hc]; [by auto|].
    apply elem_insert in Hc as [?|?]; [done|auto].
  - intros c [[= ->]|Hw]%elem_insert; [done|]. split; [|done]. by apply Hwt.
Qed.

Lemma running_pos ps i k : ps !! i = Some (In k) → (0 < sum_list_with running ps)%nat.
Proof. intros Hi. pose proof (sum_insert running ps i (In k) Out Hi). simpl in *. lia. Qed.

Lemma log_put_ok no s : log_ok s → log_ok (log_put no s).
Proof. intros []. split; simpl; [done|by rewrite length_insert|done|done|done]. Qed.

Lemma write_inv s s' ps i k b :
  calls_inv (World s ps) → ps !! i = Some (In k) → log_write b s = Ok tt s' →
  (k + Z.to_nat (lh_n s' - lh_n s) ≤ Z.to_nat MAXOPBLOCKS)%nat →
  calls_inv (World s' (<[i := In (k + Z.to_nat (lh_n s' - lh_n s))]> ps)).
Proof.
  intros Hinv Hi Hrun Hk. pose proof Hinv as [Hok Hlk Hout Hcom Hal Hsp Hem Hwt]; simpl in *.
  pose proof (running_pos _ _ _ Hi). pose proof (lo_n _ Hok).
  assert (lh_n s < LOGSIZE ∧ lh_n s < lg_size s - 1) as [Hn1 Hn2].
  { destruct (decide (LOGSIZE ≤ lh_n s ∨ lg_size s - 1 ≤ lh_n s)) as [Hd|Hd]; [|lia].
    by rewrite log_write_too_big in Hrun. }
  rewrite log_write_run in Hrun by (done || lia). cbv zeta in Hrun.
  set (no := c_blockno b (lg_bio s)) in *. pose proof (log_put_ok no s Hok) as Hput.
  assert (∃ b' δ, s' = lh_set_n (lh_n s + Z.of_nat δ) (lg_set_bio b' (log_put no s)) ∧ (δ ≤ 1)%nat)
    as (b' & δ & -> & Hδ).
  { case_decide.
    - destruct (c_bpin b (lg_bio s)) as [[] b'| | |]; simplify_eq. by exists b', 1%nat.
    - simplify_eq. exists (lg_bio s), 0%nat. split; [|lia]. rewrite Z.add_0_r. by destruct s. }
  cbn [lh_n lh_set_n] in Hk |- *. replace (Z.to_nat (lh_n s + Z.of_nat δ - lh_n s)) with δ in Hk |- * by lia.
  pose proof (sum_insert allowance ps i (In k) (In (k + δ)) Hi) as Ha. simpl in Ha.
  unfold MAXOPBLOCKS in *.
  eapply step_ok_inv; [done..| |].
  - split; simpl; [destruct Hput; split; simpl in *; (done || lia)|done|lia|lia|done|lia|lia].
  - intros c [?|Hw]%elem_insert; [done|]. apply Hwt in Hw as [-> Hw]. split; [done|]. unfold must_wait in *. simpl.
    unfold MAXOPBLOCKS in *. apply orb_true_iff in Hw as [->|Hw]; [done|]. bool_facts.
    apply orb_true_iff. right. lia.
Qed.

Lemma end_inv s s' cs ps i k :
  calls_inv (World s ps) → ps !! i = Some (In k) →
  end_op_enter (Waking s []) = Ok false (Waking s' cs) →
  calls_inv (World s' (wake cs <$> <[i := Out]> ps)).
Proof.
  intros Hinv Hi Hrun. pose proof Hinv as [Hok Hlk Hout Hcom Hal Hsp Hem Hwt]; simpl in *.
  rewrite end_op_enter_run in Hrun by done.
  destruct (lg_committing s) eqn:Hc; [done|]. cbv zeta in Hrun.
  destruct (Z.eqb_spec (lg_outstanding s - 1) 0); simplify_eq.
  pose proof (sum_insert allowance ps i (In k) Out Hi) as Ha. simpl in Ha.
  eapply step_ok_wake; [done..| |done|left; set_solver].
  split; simpl; [destruct Hok; by split|done|lia|by rewrite Hc|congruence|lia|lia].
Qed.

Lemma last_inv s s' cs ps i k :
  calls_inv (World s ps) → ps !! i = Some (In k) →
  end_op_enter (Waking s []) = Ok true (Waking s' cs) →
  calls_inv (World s' (wake cs <$> <[i := Committing]> ps)).
Proof.
  intros Hinv Hi Hrun. pose proof Hinv as [Hok Hlk Hout Hcom Hal Hsp Hem Hwt]; simpl in *.
  rewrite end_op_enter_run in Hrun by done.
  destruct (lg_committing s) eqn:Hc; [done|]. cbv zeta in Hrun.
  destruct (Z.eqb_spec (lg_outstanding s - 1) 0); simplify_eq.
  pose proof (sum_insert allowance ps i (In k) Committing Hi) as Ha. simpl in Ha.
  eapply step_ok_wake; [done..| |done|by right].
  split; simpl; [destruct Hok; by split|done|lia|by rewrite Hc|done|lia|].
  intros _ [?|[?|Hin]%elem_insert]; [done..|]. apply committed_counted in Hin. simpl in Hcom. lia.
Qed.

Lemma committing_true s ps i p :
  calls_inv (World s ps) → ps !! i = Some p → committer p = 1%nat → lg_committing s = true.
Proof.
  intros [Hok Hlk Hout Hcom Hal Hsp Hem Hwt] Hi Hp; simpl in *.
  pose proof (sum_insert committer ps i p Out Hi) as Hs. rewrite Hp in Hs. simpl in Hs.
  destruct (lg_committing s); [done|]. simpl in Hcom. lia.
Qed.

Lemma commit_inv s s' ps i pid :
  calls_inv (World s ps) → ps !! i = Some Committing → commit pid s = Ok tt s' →
  calls_inv (World s' (<[i := Committed]> ps)).
Proof.
  intros Hinv Hi Hrun. pose proof Hinv as [Hok Hlk Hout Hcom Hal Hsp Hem Hwt]; simpl in *.
  pose proof (committing_true _ _ _ _ Hinv Hi eq_refl) as Hc. apply commit_frame in Hrun.
  pose proof (lo_n _ Hok) as Hn.
  assert (lh_n s' = 0) as Hn0.
  { rewrite Hrun. simpl. destruct (Z.ltb_spec 0 (lh_n s)); [done|lia]. }
  rewrite Hrun in Hn0 |- *. cbn [lh_n lh_set_n] in Hn0. rewrite Hn0. clear Hrun Hn0.
  pose proof (sum_insert allowance ps i Committing Committed Hi) as Ha. simpl in Ha.
  eapply step_ok_inv; [done..| |].
  - split; simpl; [destruct Hok; split; simpl in *; (done || lia)|done|lia|lia|done|lia|done].
  - intros c [?|Hw]%elem_insert; [done|]. apply Hwt in Hw as [-> _]. split; [done|]. unfold must_wait. simpl. by rewrite Hc.
Qed.

Lemma leave_inv s s' cs ps i :
  calls_inv (World s ps) → ps !! i = Some Committed →
  end_op_leave (Waking s []) = Ok tt (Waking s' cs) →
  calls_inv (World s' (wake cs <$> <[i := Out]> ps)).
Proof.
  intros Hinv Hi Hrun. pose proof Hinv as [Hok Hlk Hout Hcom Hal Hsp Hem Hwt]; simpl in *.
  pose proof (committing_true _ _ _ _ Hinv Hi eq_refl) as Hc.
  rewrite end_op_leave_run in Hrun by done. simplify_eq.
  pose proof (sum_insert allowance ps i Committed Out Hi) as Ha. simpl in Ha.
  eapply step_ok_wake; [done..| |done|left; set_solver].
  split; simpl; [destruct Hok; by split|done|lia|by rewrite Hc|done|lia|].
  intros _ _. apply Hem; [by apply Hal|right]. by eapply list_elem_of_lookup_2.
Qed.

Lemma call_step_inv w w' : calls_inv w → call_step w w' → calls_inv w'.
Proof.
  intros Hinv Hstep. destruct Hstep.
  - by eapply begin_inv.
  - by eapply wait_inv.
  - destruct Hinv as [Hok Hlk Hout Hcom Hal Hsp Hem Hwt]. split; simpl in *; try done.
    destruct Hok. by split.
  - by eapply write_inv.
  - by eapply end_inv.
  - by eapply last_inv.
  - by eapply commit_inv.
  - by eapply leave_inv.
Qed.
Lemma calls_reachable w w' : calls_init w → rtc call_step w w' → calls_inv w'.
Proof.
  intros Hi Hs. apply init_inv in Hi. induction Hs; eauto using call_step_inv.
Qed.

Lemma no_runner ps i k : sum_list_with running ps = 0%nat → ps !! i ≠ Some (In k).
Proof. intros Hs Hi. apply running_pos in Hi. lia. Qed.

Lemma log_write_returns s b b' :
  log_ok s → lg_lock s = false → lh_n s < LOGSIZE → lh_n s < lg_size s - 1 →
  1 ≤ lg_outstanding s → c_bpin b (lg_bio s) = Ok tt b' → ∃ s', log_write b s = Ok tt s'.
Proof.
  intros Hok Hlk Hn Hsz Hout Hb. rewrite log_write_run by done. cbv zeta. rewrite Hb. case_decide; eauto.
Qed.
Lemma no_runners ps : (∀ i k, ps !! i ≠ Some (In k)) → sum_list_with running ps = 0%nat.
Proof.
  induction ps as [|x ps IH]; intros Hno; [done|]. simpl.
  rewrite IH by (intros i k; apply (Hno (Datatypes.S i) k)).
  destruct x; try done. by destruct (Hno 0%nat k).
Qed.

(** C3: the log's protocol holds in every interleaving of file-system calls,
    each of which adds at most [MAXOPBLOCKS] blocks.  A commit runs only while
    no call is active, and no [end_op] panics.  What the calls have added and
    what is reserved for them is never more than [LOGSIZE] blocks.  On a log
    of at least [LOGSIZE] blocks (mkfs makes exactly [LOGSIZE]) the [log_write]
    of a call that has added fewer than [MAXOPBLOCKS - 1] blocks returns, when
    [bpin] does; the one panic left to a call that has added fewer than
    [MAXOPBLOCKS] is on a log of exactly [LOGSIZE] blocks when all but one of
    them are taken.  No wakeup is lost: a process sleeps
    in [begin_op] only while it has to.  When no call is active and none is
    committing, [begin_op] succeeds. *)
Theorem log_calls_safe w w' :
  calls_init w → rtc call_step w w' →
  let s := y_log w' in
  (lg_committing s = true → ∀ i k, y_procs w' !! i ≠ Some (In k)) ∧
  lh_n s + Z.of_nat (sum_list_with allowance (y_procs w')) ≤ LOGSIZE ∧
  (∀ i k, y_procs w' !! i = Some (In k) →
     (∃ r v, end_op_enter (Waking s []) = Ok r v) ∧
     (LOGSIZE ≤ lg_size s → ∀ b b', c_bpin b (lg_bio s) = Ok tt b' →
      ((k < Z.to_nat MAXOPBLOCKS - 1)%nat → ∃ s', log_write b s = Ok tt s') ∧
      ((k < Z.to_nat MAXOPBLOCKS)%nat → (∃ s', log_write b s = Ok tt s') ∨
         lg_size s = LOGSIZE ∧ lh_n s = LOGSIZE - 1))) ∧
  (∀ i c, y_procs w' !! i = Some (Waiting c) → begin_op s = Blocked c s) ∧
  (lg_committing s = false → (∀ i k, y_procs w' !! i ≠ Some (In k)) →
     ∃ s', begin_op s = Ok tt s').
Proof.
  intros Hi Hs. pose proof (calls_reachable w w' Hi Hs) as [Hok Hlk Hout Hcom Hal Hsp Hem Hwt].
  destruct w' as [s ps]; simpl in *. split_and!.
  - intros Hc i k. apply no_runner. specialize (Hal Hc). lia.
  - done.
  - intros i k Hik. pose proof (running_pos _ _ _ Hik) as Hr. split.
    + rewrite end_op_enter_run by done. destruct (lg_committing s); [specialize (Hal eq_refl); lia|].
      cbv zeta. destruct (_ =? 0); eauto.
    + intros Hsz b b' Hb. pose proof (sum_insert allowance ps i (In k) Out Hik) as Ha.
      simpl in Ha. unfold MAXOPBLOCKS in *. split; intros Hk.
      * eapply log_write_returns; [done|done|lia..|done].
      * destruct (decide (lg_size s = LOGSIZE ∧ lh_n s = LOGSIZE - 1)) as [|Hd]; [by right|left].
        eapply log_write_returns; [done|done|lia..|done].
  - intros i c Hw. rewrite begin_op_run by done. fold (must_wait s).
    by destruct (Hwt c) as [-> ->]; [by eapply list_elem_of_lookup_2|].
  - intros Hc Hno. rewrite begin_op_run by done. rewrite Hc. simpl.
    apply no_runners in Hno. assert (lg_outstanding s = 0) as Hz by lia.
    rewrite Hz, Hem by auto. eauto.
Qed.
End calls.
Arguments calls S : clear implicits.
Arguments World {S}.
Arguments y_log {S}.
Arguments y_procs {S}.

(** ** Three calls on a disk made by mkfs *)

(** Buffer [i] holds block [100 + i]; mkfs gives the log [LOGSIZE] blocks. *)
Definition full_cache : bcache :=
  Bcache false ((λ i, Buf true ROOTDEV (100 + Z.of_nat i) initsleeplock 1 0 0 zero_block)
                <$> seq 0 (nbuf + 1)) [].
Definition fresh_log : log bcache :=
  Log false 2 LOGSIZE 0 false ROOTDEV 0 (replicate (Z.to_nat LOGSIZE) 0) full_cache.
Definition three : calls bcache := World fresh_log [Out; Out; Out].

Lemma three_init : calls_init three.
Proof.
  split_and!; [|done..|repeat constructor].
  split; [done|done|split; [done|vm_compute; discriminate]|split; [done|reflexivity]|reflexivity].
Qed.

(** Executing [begin_op] for process [i], and [log_write] of buffer [b]. *)
Definition do_begin (i : nat) (w : calls bcache) : option (calls bcache) :=
  match y_procs w !! i, begin_op (y_log w) with
  | Some Out, Ok _ s' => Some (World s' (<[i := In 0]> (y_procs w)))
  | _, _ => None
  end.
Definition do_write (i b : nat) (w : calls bcache) : option (calls bcache) :=
  match y_procs w !! i with
  | Some (In k) =>
      match log_write b (y_log w) with
      | Ok _ s' =>
          let k' := (k + Z.to_nat (lh_n s' - lh_n (y_log w)))%nat in
          if (k' <=? Z.to_nat MAXOPBLOCKS)%nat then Some (World s' (<[i := In k']> (y_procs w)))
          else None
      | _ => None
      end
  | _ => None
  end.
Lemma do_begin_step i w w' : do_begin i w = Some w' → call_step w w'.
Proof.
  destruct w as [s ps]. unfold do_begin. simpl. destruct (ps !! i) as [[]|] eqn:Hi; try done.
  destruct (begin_op s) as [[] s'| | |] eqn:Hb; try done. intros [= <-]. by apply st_begin.
Qed.
Lemma do_write_step i b w w' : do_write i b w = Some w' → call_step w w'.
Proof.
  destruct w as [s ps]. unfold do_write. simpl. destruct (ps !! i) as [[]|] eqn:Hi; try done.
  destruct (log_write b s) as [[] s'| | |] eqn:Hb; try done.
  destruct (Nat.leb_spec (k + Z.to_nat (lh_n s' - lh_n s)) (Z.to_nat MAXOPBLOCKS)); [|done].
  intros [= <-]. by eapply st_write.
Qed.
Definition do_writes (l : list (nat * nat)) (w : calls bcache) : option (calls bcache) :=
  foldl (λ o p, w ← o; do_write p.1 p.2 w) (Some w) l.
Lemma do_writes_steps l w w' : do_writes l w = Some w' → rtc call_step w w'.
Proof.
  unfold do_writes. revert w'. induction l as [|p l IH] using rev_ind; intros w'.
  - intros [= <-]. apply rtc_refl.
  - rewrite foldl_app. simpl. destruct (foldl _ _ l) as [w1|]; [|done]. simpl.
    intros H. eapply rtc_r; [by apply IH|by eapply do_write_step].
Qed.
(** All three calls begin; then block [100 + b] is logged by call [b / 10]. *)
Definition three_run (n : nat) : option (calls bcache) :=
  w ← do_begin 0 three; w ← do_begin 1 w; w ← do_begin 2 w;
  do_writes ((λ b, (b / 10, b)%nat) <$> seq 0 n) w.
Lemma three_run_steps n w : three_run n = Some w → rtc call_step three w.
Proof.
  unfold three_run. intros (w1 & H1 & (w2 & H2 & (w3 & H3 & H4)%bind_Some)%bind_Some)%bind_Some.
  eapply rtc_l; [by eapply do_begin_step|]. eapply rtc_l; [by eapply do_begin_step|].
  eapply rtc_l; [by eapply do_begin_step|]. by eapply do_writes_steps.
Qed.

Lemma log_calls_safe_witness :
  ∃ w, three_run 12 = Some w ∧ y_procs w = [In 10; In 2; In 0] ∧ lh_n (y_log w) = 12 ∧
    ∃ s', log_write 12 (y_log w) = Ok tt s'.
Proof.
  destruct (three_run 12) as [w|] eqn:E; [|vm_compute in E; discriminate E].
  exists w. split; [reflexivity|].
  assert (y_procs <$> three_run 12 = Some [In 10; In 2; In 0]) as Hp by (vm_compute; reflexivity).
  assert ((λ w, (lh_n (y_log w), lg_size (y_log w))) <$> three_run 12 = Some (12, LOGSIZE)) as Hn by (vm_compute; reflexivity).
  assert ((λ w, match c_bpin 12 (lg_bio (y_log w)) with Ok _ _ => true | _ => false end) <$> three_run 12 = Some true)
    as Hb by (vm_compute; reflexivity).
  rewrite E in Hp, Hn, Hb. injection Hp as Hp. injection Hn as Hn Hz. injection Hb as Hb. split; [exact Hp|].
  split; [exact Hn|].
  destruct (bpin 12 (lg_bio (y_log w))) as [[] b'| | |] eqn:Eb; [|discriminate Hb..].
  refine (proj1 (proj2 (proj1 (proj2 (proj2 (log_calls_safe three w three_init (three_run_steps 12 w E))))
    1%nat 2%nat _) _ 12%nat b' Eb) _).
  - rewrite Hp. reflexivity.
  - rewrite Hz. reflexivity.
  - vm_compute. lia.
Defined.

(** C36: the reservation of [begin_op] counts on [LOGSIZE] blocks of log, but
    [log_write] accepts only [log.size - 1], and mkfs makes [log.size] equal
    to [LOGSIZE].  Three calls that each stay within [MAXOPBLOCKS] can
    therefore drive the kernel into the panic the reservation is meant to
    exclude. *)
Theorem log_overcommit :
  lg_size fresh_log = LOGSIZE ∧ calls_init three ∧
  ∃ w, rtc call_step three w ∧ y_procs w !! 2%nat = Some (In 9) ∧ (9 < Z.to_nat MAXOPBLOCKS)%nat ∧
    log_write 29 (y_log w) = Panic "too big a transaction".
Proof.
  split; [done|]. split; [exact three_init|].
  destruct (three_run 29) as [w|] eqn:E; [|vm_compute in E; discriminate E].
  exists w. split; [by eapply three_run_steps|].
  assert ((λ w, y_procs w !! 2%nat) <$> three_run 29 = Some (Some (In 9))) as Hp
    by (vm_compute; reflexivity).
  assert ((λ w, match log_write 29 (y_log w) with Panic m => m | _ => ""%string end)
    <$> three_run 29 = Some "too big a transaction"%string) as Hw by (vm_compute; reflexivity).
  rewrite E in Hp, Hw. injection Hp as Hp. injection Hw as Hw. split; [exact Hp|].
  split; [unfold MAXOPBLOCKS; lia|]. clear E Hp.
  destruct (log_write 29 (y_log w)); [discriminate Hw| |discriminate Hw..].
  rewrite Hw. reflexivity.
Qed.
End Calls.
