(* ===== verification/Fs.v ===== *)
(** kernel/fs.c: the file system below the system calls: block allocation,
    inodes with their table and their contents, directories and path names.
    A [struct inode *] is the index of the inode in [itable].  The blocks are
    those of a transaction of the log over the buffer cache (class
    [BlockStore]); callers hold the locks fs.c asks them to hold. *)

From S2P Require Import Prelude Riscv Mem Cstring Spinlock Sleeplock Kalloc Vm Bio FsLayout ProcMem.

(** * What fs.c uses of bio.c and log.c *)

Class BlockStore (D : Type) := {
  s_bread : Z → Z → M D nat;           (* dev, blockno *)
  s_brelse : nat → M D unit;
  s_data : nat → D → block;            (* bp->data *)
  s_set_data : nat → block → M D unit;
  s_log_write : nat → M D unit;
  s_initlog : Z → superblock → M D unit;
}.

(** * State *)

(** kernel/stat.h *)
Definition T_DIR : Z := 1.
Definition T_FILE : Z := 2.
Definition T_DEVICE : Z := 3.
Record stat := Stat { st_dev : Z; st_ino : Z; st_type : Z; st_nlink : Z; st_size : Z }.

(** kernel/file.h: in-memory copy of an inode. *)
Record inode := Inode {
  i_dev : Z;
  i_inum : Z;
  i_ref : Z;
  i_lock : sleeplock;
  i_valid : bool;
  i_type : Z;
  i_major : Z;
  i_minor : Z;
  i_nlink : Z;
  i_size : Z;
  i_addrs : list Z;
}.
Definition i_set_id dev inum ref valid ip := Inode dev inum ref (i_lock ip) valid (i_type ip)
  (i_major ip) (i_minor ip) (i_nlink ip) (i_size ip) (i_addrs ip).
Definition i_set_ref x ip := Inode (i_dev ip) (i_inum ip) x (i_lock ip) (i_valid ip) (i_type ip)
  (i_major ip) (i_minor ip) (i_nlink ip) (i_size ip) (i_addrs ip).
Definition i_set_lock x ip := Inode (i_dev ip) (i_inum ip) (i_ref ip) x (i_valid ip) (i_type ip)
  (i_major ip) (i_minor ip) (i_nlink ip) (i_size ip) (i_addrs ip).
Definition i_set_valid x ip := Inode (i_dev ip) (i_inum ip) (i_ref ip) (i_lock ip) x (i_type ip)
  (i_major ip) (i_minor ip) (i_nlink ip) (i_size ip) (i_addrs ip).
Definition i_set_type x ip := Inode (i_dev ip) (i_inum ip) (i_ref ip) (i_lock ip) (i_valid ip) x
  (i_major ip) (i_minor ip) (i_nlink ip) (i_size ip) (i_addrs ip).
Definition i_set_size x ip := Inode (i_dev ip) (i_inum ip) (i_ref ip) (i_lock ip) (i_valid ip) (i_type ip)
  (i_major ip) (i_minor ip) (i_nlink ip) x (i_addrs ip).
Definition i_set_addrs x ip := Inode (i_dev ip) (i_inum ip) (i_ref ip) (i_lock ip) (i_valid ip) (i_type ip)
  (i_major ip) (i_minor ip) (i_nlink ip) (i_size ip) x.

(** * The inodes of a block *)

(** The byte offset of [(struct dinode * )bp->data + inum%IPB]. *)
Definition dip_off (inum : Z) : Z := inum `mod` IPB * sizeof_dinode.
Definition dip_type (d : block) (off : Z) : Z := s16 (get 2 d off).
Definition naddrs : nat := Z.to_nat (NDIRECT + 1).
Definition uints (n : nat) (d : block) (off : Z) : list Z :=
  (λ k, get 4 d (off + 4 * Z.of_nat k)) <$> seq 0 n.
(** The fields of a [struct dinode], copied to and from those of an inode. *)
Definition dip_load (d : block) (off : Z) (ip : inode) : inode :=
  Inode (i_dev ip) (i_inum ip) (i_ref ip) (i_lock ip) (i_valid ip)
    (dip_type d off) (s16 (get 2 d (off + 2))) (s16 (get 2 d (off + 4))) (s16 (get 2 d (off + 6)))
    (get 4 d (off + 8)) (uints naddrs d (off + 12)).
Definition dip_store (ip : inode) (off : Z) (d : block) : block :=
  let d := put 2 d off (u16 (i_type ip)) in
  let d := put 2 d (off + 2) (u16 (i_major ip)) in
  let d := put 2 d (off + 4) (u16 (i_minor ip)) in
  let d := put 2 d (off + 6) (u16 (i_nlink ip)) in
  let d := put 4 d (off + 8) (i_size ip) in
  splice d (Z.to_nat (off + 12)) (concat (le_split 4 <$> i_addrs ip)).

Section fs.
Context {D : Type} `{BS : BlockStore D} {L : Linker}.

Record fsys := Fsys {
  fs_d : D;                  (* the blocks *)
  fs_sb : superblock;
  it_lock : bool;            (* itable.lock *)
  it_inode : list inode;     (* itable.inode *)
  fs_mem : kmem;             (* physical memory *)
}.
Definition set_d x s := Fsys x (fs_sb s) (it_lock s) (it_inode s) (fs_mem s).
Definition set_sb x s := Fsys (fs_d s) x (it_lock s) (it_inode s) (fs_mem s).
Definition set_it_lock x s := Fsys (fs_d s) (fs_sb s) x (it_inode s) (fs_mem s).
Definition set_it_inode x s := Fsys (fs_d s) (fs_sb s) (it_lock s) x (fs_mem s).
Definition set_fs_mem x s := Fsys (fs_d s) (fs_sb s) (it_lock s) (it_inode s) x.

Definition blocks {A} (m : M D A) : M fsys A := zoom fs_d set_d m.
Definition memory {A} (m : M kmem A) : M fsys A := zoom fs_mem set_fs_mem m.
Definition fs_bread (dev no : Z) : M fsys nat := blocks (s_bread dev no).
Definition fs_brelse (b : nat) : M fsys unit := blocks (s_brelse b).
Definition fs_log_write (b : nat) : M fsys unit := blocks (s_log_write b).
Definition fs_data (b : nat) : M fsys block := gets (λ s, s_data b (fs_d s)).
Definition fs_set_data (b : nat) (d : block) : M fsys unit := blocks (s_set_data b d).

Definition geti (ip : nat) : M fsys inode := λ s,
  match it_inode s !! ip with Some i => Ok i s | None => Stuck end.
Definition updi (ip : nat) (f : inode → inode) : M fsys unit :=
  modify (λ s, set_it_inode (alter f ip (it_inode s)) s).
Definition it_acquire : M fsys unit := zoom it_lock set_it_lock Lock.lk_acquire.
Definition it_release : M fsys unit := zoom it_lock set_it_lock Lock.lk_release.
(** An operation on [ip->lock]. *)
Definition lock_op {A} (ip : nat) (m : M sleeplock A) : M fsys A :=
  let! i := geti ip in
  match m (i_lock i) with
  | Ok a l => do! updi ip (i_set_lock l); ret a
  | Panic msg => panic msg
  | Blocked c l => do! updi ip (i_set_lock l); sleep_on c
  | Stuck => stuck
  end.

(** [myproc()]: its pid, its page table and its current directory. *)
Context (pid pagetable : Z) (cwd : nat).

(** * Blocks *)

(** [memmove(sb, bp->data, sizeof( *sb))]. *)
Definition sb_load (d : block) : superblock :=
  Superblock (get 4 d 0) (get 4 d 4) (get 4 d 8) (get 4 d 12) (get 4 d 16) (get 4 d 20)
    (get 4 d 24) (get 4 d 28).
Definition readsb (dev : Z) : M fsys unit :=
  let! bp := fs_bread dev 1 in
  let! d := fs_data bp in
  do! modify (set_sb (sb_load d));
  fs_brelse bp.
Definition fsinit (dev : Z) : M fsys unit :=
  do! readsb dev;
  let! sb := gets fs_sb in
  if negb (sb_magic sb =? FSMAGIC) then panic "invalid file system"
  else blocks (s_initlog dev sb).

(** Zero a block. *)
Definition bzero (dev bno : Z) : M fsys unit :=
  let! bp := fs_bread dev bno in
  do! fs_set_data bp zero_block;
  do! fs_log_write bp;
  fs_brelse bp.

(** [bp->data[bi/8] & (1 << (bi % 8))]; and the block with the bit set or
    cleared. *)
Definition bit (d : block) (bi : Z) : bool := truth (Z.land (get 1 d (bi / 8)) (Z.shiftl 1 (bi `mod` 8))).
Definition bit_set (d : block) (bi : Z) : block :=
  put 1 d (bi / 8) (Z.lor (get 1 d (bi / 8)) (Z.shiftl 1 (bi `mod` 8))).
Definition bit_clear (d : block) (bi : Z) : block :=
  put 1 d (bi / 8) (Z.land (get 1 d (bi / 8)) (u8 (Z.lnot (Z.shiftl 1 (bi `mod` 8))))).
(** [for(bi = 0; bi < BPB && b + bi < sb.size; bi++)], up to a clear bit. *)
Fixpoint free_bit (d : block) (bi lim : Z) (n : nat) : option Z :=
  match n with
  | O => None
  | S n' => if bi <? lim then if bit d bi then free_bit d (bi + 1) lim n' else Some bi else None
  end.

(** Allocate a zeroed disk block. *)
Definition balloc_round (dev : Z) (sb : superblock) (b : Z) : M fsys (Z + Z) :=
  if b <? sb_size sb then
    let! bp := fs_bread dev (BBLOCK b sb) in
    let! d := fs_data bp in
    match free_bit d 0 (sb_size sb - b) (Z.to_nat BPB) with
    | Some bi =>
        do! fs_set_data bp (bit_set d bi);   (* Mark block in use. *)
        do! fs_log_write bp;
        do! fs_brelse bp;
        do! bzero dev (b + bi);
        ret (inr (b + bi))
    | None =>
        do! fs_brelse bp;
        ret (inl (b + BPB))
    end
  else panic "balloc: out of blocks".
Definition balloc (dev : Z) : M fsys Z :=
  let! sb := gets fs_sb in
  loop (Z.to_nat (sb_size sb / BPB) + 2) (balloc_round dev sb) 0.

(** Free a disk block. *)
Definition bfree (dev b : Z) : M fsys unit :=
  let! sb := gets fs_sb in
  let! bp := fs_bread dev (BBLOCK b sb) in
  let! d := fs_data bp in
  let bi := b `mod` BPB in
  if negb (bit d bi) then panic "freeing free block"
  else
    do! fs_set_data bp (bit_clear d bi);
    do! fs_log_write bp;
    fs_brelse bp.

(** * The inode table *)

Definition iinit : M fsys unit :=
  do! modify (set_it_lock false);
  modify (λ s, set_it_inode (i_set_lock initsleeplock <$> it_inode s) s).

(** [iget]'s scan: the entry that has the inode, or the first free one. *)
Fixpoint iget_scan (dev inum : Z) (l : list inode) (ip : nat) (empty : option nat) : nat + option nat :=
  match l with
  | [] => inr empty
  | i :: l' =>
      if (0 <? i_ref i) && (i_dev i =? dev) && (i_inum i =? inum) then inl ip
      else iget_scan dev inum l' (S ip)
             (match empty with None => if i_ref i =? 0 then Some ip else None | e => e end)
  end.
Definition iget (dev inum : Z) : M fsys nat :=
  do! it_acquire;
  let! r := gets (λ s, iget_scan dev inum (it_inode s) 0 None) in
  match r with
  | inl ip =>
      do! updi ip (λ i, i_set_ref (i_ref i + 1) i);
      do! it_release;
      ret ip
  | inr None => panic "iget: no inodes"
  | inr (Some ip) =>
      do! updi ip (i_set_id dev inum 1 false);
      do! it_release;
      ret ip
  end.

(** Allocate an inode on device dev. *)
Definition ialloc (dev type : Z) : M fsys nat :=
  let! sb := gets fs_sb in
  let! inum := loop (Z.to_nat (sb_ninodes sb) + 1) (λ inum,
    if inum <? sb_ninodes sb then
      let! bp := fs_bread dev (IBLOCK inum sb) in
      let! d := fs_data bp in
      let off := dip_off inum in
      if dip_type d off =? 0 then        (* a free inode *)
        do! fs_set_data bp
          (put 2 (splice d (Z.to_nat off) (replicate (Z.to_nat sizeof_dinode) 0)) off (u16 type));
        do! fs_log_write bp;                (* mark it allocated on the disk *)
        do! fs_brelse bp;
        ret (inr inum)
      else
        do! fs_brelse bp;
        ret (inl (inum + 1))
    else panic "ialloc: no inodes") 1 in
  iget dev inum.

(** Copy a modified in-memory inode to disk. *)
Definition iupdate (ip : nat) : M fsys unit :=
  let! sb := gets fs_sb in
  let! i := geti ip in
  let! bp := fs_bread (i_dev i) (IBLOCK (i_inum i) sb) in
  let! d := fs_data bp in
  do! fs_set_data bp (dip_store i (dip_off (i_inum i)) d);
  do! fs_log_write bp;
  fs_brelse bp.

Definition idup (ip : nat) : M fsys nat :=
  do! it_acquire;
  do! updi ip (λ i, i_set_ref (i_ref i + 1) i);
  do! it_release;
  ret ip.

(** Lock the given inode. Reads the inode from disk if necessary. *)
Definition ilock (ip : nat) : M fsys unit :=
  let! i := geti ip in
  if i_ref i <? 1 then panic "ilock"
  else
    do! lock_op ip (acquiresleep (Z.of_nat ip) pid);
    let! i := geti ip in
    if i_valid i then ret tt
    else
      let! sb := gets fs_sb in
      let! bp := fs_bread (i_dev i) (IBLOCK (i_inum i) sb) in
      let! d := fs_data bp in
      do! updi ip (dip_load d (dip_off (i_inum i)));
      do! fs_brelse bp;
      do! updi ip (i_set_valid true);
      let! i := geti ip in
      if i_type i =? 0 then panic "ilock: no type" else ret tt.
Definition iunlock (ip : nat) : M fsys unit :=
  let! held := lock_op ip (holdingsleep pid) in
  let! i := geti ip in
  if negb held || (i_ref i <? 1) then panic "iunlock"
  else lock_op ip (alone (releasesleep (Z.of_nat ip))).

(** * The contents of an inode *)

(** Return the disk block address of the nth block in inode ip.
    If there is no such block, bmap allocates one. *)
Definition bmap (ip : nat) (bn : Z) : M fsys Z :=
  let! i := geti ip in
  if bn <? NDIRECT then
    let addr := default 0 (i_addrs i !! Z.to_nat bn) in
    if addr =? 0 then
      let! addr := balloc (i_dev i) in
      do! updi ip (λ i, i_set_addrs (<[Z.to_nat bn := addr]> (i_addrs i)) i);
      ret addr
    else ret addr
  else
    let bn := bn - NDIRECT in
    if bn <? NINDIRECT then
      let addr := default 0 (i_addrs i !! Z.to_nat NDIRECT) in
      let! addr := (if addr =? 0 then
                      let! addr := balloc (i_dev i) in
                      do! updi ip (λ i, i_set_addrs (<[Z.to_nat NDIRECT := addr]> (i_addrs i)) i);
                      ret addr
                    else ret addr) in
      let! bp := fs_bread (i_dev i) addr in
      let! d := fs_data bp in
      let addr := get 4 d (4 * bn) in
      if addr =? 0 then
        let! addr := balloc (i_dev i) in
        do! fs_set_data bp (put 4 d (4 * bn) addr);
        do! fs_log_write bp;
        do! fs_brelse bp;
        ret addr
      else
        do! fs_brelse bp;
        ret addr
    else panic "bmap: out of range".

(** The loops of itrunc, over the direct blocks and over the [uint]s of the
    indirect block. *)
Fixpoint trunc_direct (ip : nat) (dev : Z) (n : nat) : M fsys unit :=
  match n with
  | O => ret tt
  | S n' =>
      do! trunc_direct ip dev n';
      let! i := geti ip in
      let addr := default 0 (i_addrs i !! n') in
      if truth addr then
        do! bfree dev addr;
        updi ip (λ i, i_set_addrs (<[n' := 0]> (i_addrs i)) i)
      else ret tt
  end.
Fixpoint trunc_indirect (dev : Z) (a : list Z) : M fsys unit :=
  match a with
  | [] => ret tt
  | addr :: a' =>
      do! when (truth addr) (bfree dev addr);
      trunc_indirect dev a'
  end.
(** Truncate inode (discard contents). *)
Definition itrunc (ip : nat) : M fsys unit :=
  let! i := geti ip in
  do! trunc_direct ip (i_dev i) (Z.to_nat NDIRECT);
  let addr := default 0 (i_addrs i !! Z.to_nat NDIRECT) in
  do! when (truth addr) (
    let! bp := fs_bread (i_dev i) addr in
    let! d := fs_data bp in
    do! trunc_indirect (i_dev i) (uints (Z.to_nat NINDIRECT) d 0);
    do! fs_brelse bp;
    do! bfree (i_dev i) addr;
    updi ip (λ i, i_set_addrs (<[Z.to_nat NDIRECT := 0]> (i_addrs i)) i));
  do! updi ip (i_set_size 0);
  iupdate ip.

(** Drop a reference to an in-memory inode. *)
Definition iput (ip : nat) : M fsys unit :=
  do! it_acquire;
  let! i := geti ip in
  do! when ((i_ref i =? 1) && i_valid i && (i_nlink i =? 0)) (
    (* inode has no links and no other references: truncate and free. *)
    do! lock_op ip (acquiresleep (Z.of_nat ip) pid);
    do! it_release;
    do! itrunc ip;
    do! updi ip (i_set_type 0);
    do! iupdate ip;
    do! updi ip (i_set_valid false);
    do! lock_op ip (alone (releasesleep (Z.of_nat ip)));
    it_acquire);
  do! updi ip (λ i, i_set_ref (i_ref i - 1) i);
  it_release.
Definition iunlockput (ip : nat) : M fsys unit :=
  do! iunlock ip;
  iput ip.

Definition stati (ip : nat) : M fsys stat :=
  let! i := geti ip in
  ret (Stat (i_dev i) (i_inum i) (i_type i) (i_nlink i) (i_size i)).

(** Read data from inode. Caller must hold ip->lock. *)
Definition readi_round (ip : nat) (user_dst : bool) (n : Z) '((tot, off, dst) : Z * Z * Z)
    : M fsys (Z * Z * Z + Z) :=
  if tot <? n then
    let! addr := bmap ip (off / BSIZE) in
    let! i := geti ip in
    let! bp := fs_bread (i_dev i) addr in
    let m := Z.min (n - tot) (BSIZE - off `mod` BSIZE) in
    let! d := fs_data bp in
    let! r := memory (either_copyout pagetable user_dst dst
                        (get_bytes d (Z.to_nat (off `mod` BSIZE)) (Z.to_nat m))) in
    if r =? -1 then
      do! fs_brelse bp;
      ret (inr (-1))
    else
      do! fs_brelse bp;
      ret (inl (tot + m, off + m, u64 (dst + m)))
  else ret (inr tot).
Definition readi (ip : nat) (user_dst : bool) (dst off n : Z) : M fsys Z :=
  let! i := geti ip in
  if (i_size i <? off) || (u32 (off + n) <? off) then ret 0
  else
    let n := if i_size i <? u32 (off + n) then i_size i - off else n in
    let! tot := loop (Z.to_nat (n / BSIZE) + 3) (readi_round ip user_dst n) (0, off, dst) in
    ret (s32 tot).

(** Write data to inode. Caller must hold ip->lock. The loop ends with the
    bytes written and the offset reached. *)
Definition writei_round (ip : nat) (user_src : bool) (n : Z) '((tot, off, src) : Z * Z * Z)
    : M fsys (Z * Z * Z + Z * Z) :=
  if tot <? n then
    let! addr := bmap ip (off / BSIZE) in
    let! i := geti ip in
    let! bp := fs_bread (i_dev i) addr in
    let m := Z.min (n - tot) (BSIZE - off `mod` BSIZE) in
    let! '(r, bs) := memory (either_copyin pagetable user_src src m) in
    let! d := fs_data bp in
    do! fs_set_data bp (splice d (Z.to_nat (off `mod` BSIZE)) bs);
    if r =? -1 then
      do! fs_brelse bp;
      ret (inr (tot, off))
    else
      do! fs_log_write bp;
      do! fs_brelse bp;
      ret (inl (tot + m, off + m, u64 (src + m)))
  else ret (inr (tot, off)).
Definition writei (ip : nat) (user_src : bool) (src off n : Z) : M fsys Z :=
  let! i := geti ip in
  if (i_size i <? off) || (u32 (off + n) <? off) then ret (-1)
  else if MAXFILE * BSIZE <? u32 (off + n) then ret (-1)
  else
    let! '(tot, off) := loop (Z.to_nat (n / BSIZE) + 3) (writei_round ip user_src n) (0, off, src) in
    let! i := geti ip in
    do! when (i_size i <? off) (updi ip (i_set_size off));
    do! iupdate ip;
    ret (s32 tot).

(** * Directories *)

Definition namecmp (s t : list Z) : Z := strncmp (at_list s) (at_list t) DIRSIZ.

(** The local [struct dirent de] of dirlookup and dirlink is at address [de]. *)
Context (de : Z).
Definition read_dirent : M fsys (list Z) :=
  memory (gets (λ k, load_bytes (k_mem k) de (Z.to_nat sizeof_dirent))).
Definition de_inum (e : list Z) : Z := get 2 e 0.
Definition de_name (e : list Z) : list Z := drop 2 e.

(** The entry found: its inode and its offset, which goes to [*poff]. *)
Definition dirlookup_round (dp : nat) (name : list Z) (off : Z) : M fsys (Z + option (nat * Z)) :=
  let! i := geti dp in
  if off <? i_size i then
    let! r := readi dp false de off sizeof_dirent in
    if negb (r =? sizeof_dirent) then panic "dirlookup read"
    else
      let! e := read_dirent in
      if de_inum e =? 0 then ret (inl (u32 (off + sizeof_dirent)))
      else if namecmp name (de_name e) =? 0 then
        (* entry matches path element *)
        let! ip := iget (i_dev i) (de_inum e) in
        ret (inr (Some (ip, off)))
      else ret (inl (u32 (off + sizeof_dirent)))
  else ret (inr None).
Definition dirlookup (dp : nat) (name : list Z) : M fsys (option (nat * Z)) :=
  let! i := geti dp in
  if negb (i_type i =? T_DIR) then panic "dirlookup not DIR"
  else loop (Z.to_nat (i_size i / sizeof_dirent) + 2) (dirlookup_round dp name) 0.

(** Look for an empty dirent. *)
Definition empty_round (dp : nat) (off : Z) : M fsys (Z + Z) :=
  let! i := geti dp in
  if off <? i_size i then
    let! r := readi dp false de off sizeof_dirent in
    if negb (r =? sizeof_dirent) then panic "dirlink read"
    else
      let! e := read_dirent in
      if de_inum e =? 0 then ret (inr off)
      else ret (inl (off + sizeof_dirent))
  else ret (inr off).
(** Write a new directory entry (name, inum) into the directory dp. *)
Definition dirlink (dp : nat) (name : list Z) (inum : Z) : M fsys Z :=
  (* Check that name is not present. *)
  let! r := dirlookup dp name in
  match r with
  | Some (ip, _) =>
      do! iput ip;
      ret (-1)
  | None =>
      let! i := geti dp in
      let! off := loop (Z.to_nat (i_size i / sizeof_dirent) + 2) (empty_round dp) 0 in
      do! memory (modify (upd_mem (λ m,
        store_bytes m de (le_split 2 inum ++ strncpy_bytes (at_list name) DIRSIZ))));
      let! r := writei dp false de off sizeof_dirent in
      if negb (r =? sizeof_dirent) then panic "dirlink" else ret 0
  end.

(** * Paths *)

Definition SLASH : Z := 47.
Fixpoint skip_slashes (path : list Z) : list Z :=
  match path with c :: path' => if c =? SLASH then skip_slashes path' else path | [] => [] end.
(** [while( *path != '/' && *path != 0) path++]: the element and the rest. *)
Fixpoint path_element (path : list Z) : list Z * list Z :=
  match path with
  | c :: path' => if c =? SLASH then ([], path) else let '(e, r) := path_element path' in (c :: e, r)
  | [] => ([], [])
  end.
(** Copy the next path element from path into name; [name] is the buffer of
    DIRSIZ bytes. A path is a string without its NUL. *)
Definition skipelem (path name : list Z) : option (list Z * list Z) :=
  match skip_slashes path with
  | [] => None
  | path =>
      let '(s, rest) := path_element path in
      let name := if Z.of_nat (length s) >=? DIRSIZ then take (Z.to_nat DIRSIZ) s
                  else s ++ [0] ++ drop (length s + 1) name in
      Some (skip_slashes rest, name)
  end.

(** Look up and return the inode for a path name. *)
Definition namex_round (nameiparent : bool) '((path, name, ip) : list Z * list Z * nat)
    : M fsys (list Z * list Z * nat + option (nat * list Z)) :=
  match skipelem path name with
  | None =>
      if nameiparent then do! iput ip; ret (inr None) else ret (inr (Some (ip, name)))
  | Some (path, name) =>
      do! ilock ip;
      let! i := geti ip in
      if negb (i_type i =? T_DIR) then
        do! iunlockput ip;
        ret (inr None)
      else if nameiparent && bool_decide (path = []) then
        (* Stop one level early. *)
        do! iunlock ip;
        ret (inr (Some (ip, name)))
      else
        let! r := dirlookup ip name in
        match r with
        | None =>
            do! iunlockput ip;
            ret (inr None)
        | Some (next, _) =>
            do! iunlockput ip;
            ret (inl (path, name, next))
        end
  end.
Definition namex (path : list Z) (nameiparent : bool) (name : list Z) : M fsys (option (nat * list Z)) :=
  let! ip := (if default 0 (path !! 0%nat) =? SLASH then iget ROOTDEV ROOTINO else idup cwd) in
  loop (length path + 1) (namex_round nameiparent) (path, name, ip).
(** The local buffer [name] of namei is not initialised. *)
Definition namei (path name : list Z) : M fsys (option nat) :=
  let! r := namex path false name in
  ret (fst <$> r).
Definition nameiparent (path name : list Z) : M fsys (option (nat * list Z)) := namex path true name.
End fs.
