(* ===== verification/FsBlocks.v ===== *)
(** kernel/fs.c, blocks: what fs.c needs of the block store, the free map, and
    the behaviour of balloc and bfree. *)

From S2P Require Import Prelude Riscv Mem Spinlock Sleeplock Kalloc Bio FsLayout ProcMem Fs.

(** * The block store *)

(** A transaction: the blocks as a reader sees them, the blocks it has logged
    and the buffers it holds. *)
Record atx := ATx {
  x_disk : Z → block;
  x_logged : gset Z;
  x_bufs : gmap nat (Z * block);
}.
Definition x_hold (b : nat) (no : Z) (d : block) (a : atx) : atx :=
  ATx (x_disk a) (x_logged a) (<[b := (no, d)]> (x_bufs a)).
Definition x_drop (b : nat) (a : atx) : atx := ATx (x_disk a) (x_logged a) (delete b (x_bufs a)).
Definition x_put (no : Z) (d : block) (a : atx) : atx :=
  ATx (λ n, if decide (n = no) then d else x_disk a n) ({[no]} ∪ x_logged a) (x_bufs a).
Definition x_free (a : atx) (no : Z) : Prop := ∀ b x, x_bufs a !! b = Some x → x.1 ≠ no.

Class BlockStoreOk (D : Type) `{BlockStore D} := {
  x_rep : D → atx → Prop;
  x_block : Z → Prop;          (* the blocks that are not the log's *)
  x_cap : nat;                 (* how many blocks a transaction may log *)
  x_disk_ok : ∀ d a no, x_rep d a → is_block (x_disk a no);
  x_bread_ok : ∀ d a no, x_rep d a → x_block no → x_free a no → (size (x_bufs a) < 3)%nat →
    wp (s_bread ROOTDEV no) (λ b d', x_bufs a !! b = None ∧ x_rep d' (x_hold b no (x_disk a no) a)) d;
  x_data_ok : ∀ d a b no x, x_rep d a → x_bufs a !! b = Some (no, x) → s_data b d = x;
  x_set_data_ok : ∀ d a b no x x', x_rep d a → x_bufs a !! b = Some (no, x) → is_block x' →
    wp (s_set_data b x') (λ _ d', x_rep d' (x_hold b no x' a)) d;
  x_log_write_ok : ∀ d a b no x, x_rep d a → x_bufs a !! b = Some (no, x) →
    (size ({[no]} ∪ x_logged a) ≤ x_cap)%nat →
    wp (s_log_write b) (λ _ d', x_rep d' (x_put no x a)) d;
  x_brelse_ok : ∀ d a b no x, x_rep d a → x_bufs a !! b = Some (no, x) → x = x_disk a no →
    wp (s_brelse b) (λ _ d', x_rep d' (x_drop b a)) d;
}.

Lemma x_drop_hold b no d a : x_bufs a !! b = None → x_drop b (x_hold b no d a) = a.
Proof. intros H. unfold x_drop, x_hold. simpl. rewrite delete_insert_id by done. by destruct a. Qed.
Lemma x_drop_put_hold b no d no' d' a :
  x_bufs a !! b = None → x_drop b (x_put no' d' (x_hold b no d a)) = x_put no' d' a.
Proof. intros H. unfold x_drop, x_put, x_hold. simpl. by rewrite delete_insert_id. Qed.
Lemma x_hold_hold b no d no' d' a : x_hold b no d (x_hold b no' d' a) = x_hold b no d a.
Proof. unfold x_hold. simpl. by rewrite insert_insert_eq. Qed.
Lemma x_hold_lookup b no d a : x_bufs (x_hold b no d a) !! b = Some (no, d).
Proof. simpl. by rewrite lookup_insert_eq. Qed.
Lemma x_put_eq no d a : x_disk (x_put no d a) no = d.
Proof. simpl. by rewrite decide_True. Qed.
Lemma x_put_ne no d a no' : no' ≠ no → x_disk (x_put no d a) no' = x_disk a no'.
Proof. intros. simpl. by rewrite decide_False. Qed.

(** * Bits *)

Lemma get1 d off : is_block d → 0 ≤ off < BSIZE → d !! Z.to_nat off = Some (get 1 d off).
Proof.
  intros [Hl Hb] Ho. destruct (lookup_lt_is_Some_2 d (Z.to_nat off)) as [x Hx]; [lia|].
  rewrite Hx. f_equal. unfold get, get_bytes.
  rewrite (drop_S _ _ _ Hx). simpl. lia.
Qed.
Lemma bit_testbit d bi : 0 ≤ bi → bit d bi = Z.testbit (get 1 d (bi / 8)) (bi `mod` 8).
Proof.
  intros Hb. unfold bit, truth. set (x := get 1 d (bi / 8)). set (k := bi `mod` 8).
  assert (0 ≤ k) as Hk by (apply Z.mod_pos_bound; lia). rewrite Z.shiftl_1_l.
  destruct (Z.testbit x k) eqn:E.
  - apply negb_true_iff, Z.eqb_neq. intros H0.
    assert (Z.testbit (Z.land x (2 ^ k)) k = false) as H1 by (by rewrite H0, Z.bits_0).
    by rewrite Z.land_spec, E, Z.pow2_bits_true in H1.
  - apply negb_false_iff, Z.eqb_eq. apply Z.bits_inj'. intros n Hn.
    rewrite Z.land_spec, Z.pow2_bits_eqb, Z.bits_0 by done.
    destruct (Z.eqb_spec k n) as [<-|]; [by rewrite E|by rewrite andb_false_r].
Qed.
Lemma get_put_mod n d off v :
  is_block d → 0 ≤ off → off + Z.of_nat n ≤ BSIZE → get n (put n d off v) off = v `mod` 2 ^ (8 * Z.of_nat n).
Proof.
  intros [Hl _] Ho Hn. unfold get, put. rewrite <- (length_le_split n v) at 2.
  rewrite get_bytes_splice_eq by (rewrite length_le_split; lia). apply le_combine_split.
Qed.
(** A byte of the map with the bits of [v]. *)
Lemma bit_put d bi bj v : is_block d → 0 ≤ bi < BPB → 0 ≤ bj < BPB →
  bit (put 1 d (bi / 8) v) bj = if decide (bj / 8 = bi / 8) then Z.testbit v (bj `mod` 8) else bit d bj.
Proof.
  unfold BPB. intros Hd Hi Hj. rewrite !bit_testbit by lia.
  assert (0 ≤ bi / 8 < BSIZE ∧ 0 ≤ bj / 8 < BSIZE) as [? ?] by (unfold BSIZE in *; dlia).
  case_decide as E.
  - rewrite E, get_put_mod by (done || lia). change (2 ^ (8 * Z.of_nat 1)) with (2 ^ 8).
    apply Z.mod_pow2_bits_low. apply Z.mod_pos_bound. lia.
  - rewrite get_put_ne by (done || lia). done.
Qed.
Lemma same_bit bi bj : 0 ≤ bi → 0 ≤ bj → bj / 8 = bi / 8 → bj `mod` 8 = bi `mod` 8 ↔ bj = bi.
Proof. intros. split; [intros|by intros ->]. dlia. Qed.
Lemma bit_bit_set d bi bj : is_block d → 0 ≤ bi < BPB → 0 ≤ bj < BPB →
  bit (bit_set d bi) bj = bool_decide (bj = bi) || bit d bj.
Proof.
  intros Hd Hi Hj. unfold bit_set. rewrite bit_put by done. case_decide as E.
  - rewrite Z.lor_spec, Z.shiftl_1_l, Z.pow2_bits_eqb by (apply Z.mod_pos_bound; lia).
    rewrite (bit_testbit d bj), E, orb_comm by lia. f_equal. symmetry.
    rewrite bool_decide_decide. case_decide as H; [subst; symmetry; apply Z.eqb_refl|].
    symmetry. apply Z.eqb_neq. intros H'. apply H, same_bit; lia.
  - rewrite bool_decide_eq_false_2; [done|]. intros ->. done.
Qed.
Lemma bit_bit_clear d bi bj : is_block d → 0 ≤ bi < BPB → 0 ≤ bj < BPB →
  bit (bit_clear d bi) bj = negb (bool_decide (bj = bi)) && bit d bj.
Proof.
  intros Hd Hi Hj. unfold bit_clear. rewrite bit_put by done. case_decide as E.
  - assert (0 ≤ bj `mod` 8 < 8) as Hk by (apply Z.mod_pos_bound; lia).
    rewrite Z.land_spec. unfold u8. rewrite Z.mod_pow2_bits_low, Z.lnot_spec by lia.
    rewrite Z.shiftl_1_l, Z.pow2_bits_eqb by (apply Z.mod_pos_bound; lia).
    rewrite (bit_testbit d bj), E, andb_comm by lia. f_equal. f_equal. symmetry.
    rewrite bool_decide_decide. case_decide as H; [subst; symmetry; apply Z.eqb_refl|].
    symmetry. apply Z.eqb_neq. intros H'. apply H, same_bit; lia.
  - rewrite bool_decide_eq_false_2; [done|]. intros ->. done.
Qed.
Lemma bit_set_block d bi : is_block d → 0 ≤ bi < BPB → is_block (bit_set d bi).
Proof. unfold BPB. intros Hd Hi. apply put_block; [done|dlia|unfold BSIZE in *; dlia]. Qed.
Lemma bit_clear_block d bi : is_block d → 0 ≤ bi < BPB → is_block (bit_clear d bi).
Proof. unfold BPB. intros Hd Hi. apply put_block; [done|dlia|unfold BSIZE in *; dlia]. Qed.

Lemma free_bit_some d bi lim n r : free_bit d bi lim n = Some r →
  bi ≤ r < lim ∧ r < bi + Z.of_nat n ∧ bit d r = false ∧ ∀ j, bi ≤ j < r → bit d j = true.
Proof.
  revert bi. induction n as [|n IH]; intros bi; simpl; [done|].
  destruct (Z.ltb_spec bi lim); [|done]. destruct (bit d bi) eqn:Hb.
  - intros (? & ? & ? & Hall)%IH. split_and!; [lia..|done|]. intros j Hj.
    destruct (decide (j = bi)) as [->|]; [done|]. apply Hall. lia.
  - intros [= <-]. split_and!; [lia..|done|]. intros j. lia.
Qed.
Lemma free_bit_none d bi lim n : free_bit d bi lim n = None →
  ∀ j, bi ≤ j < lim → j < bi + Z.of_nat n → bit d j = true.
Proof.
  revert bi. induction n as [|n IH]; intros bi; simpl; [lia|].
  destruct (Z.ltb_spec bi lim); [|lia]. destruct (bit d bi) eqn:Hb; [|done].
  intros H' j Hj1 Hj2. destruct (decide (j = bi)) as [->|]; [done|]. apply (IH (bi + 1)); [done|lia..].
Qed.

(** * The layout of the disk *)

Section blocks.
Context {D : Type} `{BS : BlockStore D} {BSok : BlockStoreOk D} {L : Linker}.
Abbreviation state := (fsys (D:=D)).
Implicit Types s : state.
Implicit Types a : atx.

(** The first data block. *)
Definition dstart (sb : superblock) : Z := sb_bmapstart sb + sb_size sb / BPB + 1.
Record layout (sb : superblock) : Prop := {
  ly_size : 0 < sb_size sb < 2 ^ 31;
  ly_ninodes : 0 ≤ sb_ninodes sb;
  ly_inodes : 2 ≤ sb_inodestart sb;
  ly_bmap : sb_inodestart sb + sb_ninodes sb / IPB + 1 ≤ sb_bmapstart sb;
  ly_data : dstart sb ≤ sb_size sb;
  ly_block : ∀ no, sb_inodestart sb ≤ no < sb_size sb → x_block no;
}.
Definition in_data (sb : superblock) (b : Z) : Prop := dstart sb ≤ b < sb_size sb.
Lemma layout_order sb : layout sb →
  2 ≤ sb_inodestart sb < sb_bmapstart sb ∧ sb_bmapstart sb < dstart sb ≤ sb_size sb.
Proof.
  intros [? ? ? ? ?]. unfold dstart in *. assert (0 ≤ sb_ninodes sb / IPB) by (apply Z.div_pos; [done|by vm_compute]).
  assert (0 ≤ sb_size sb / BPB) by (apply Z.div_pos; [lia|by vm_compute]). lia.
Qed.

(** The free map: whether block [b] is in use. *)
Definition used (sb : superblock) (a : atx) (b : Z) : bool := bit (x_disk a (BBLOCK b sb)) (b `mod` BPB).
(** The blocks before the data are never free. *)
Definition map_ok (sb : superblock) (a : atx) : Prop := ∀ b, 0 ≤ b < dstart sb → used sb a b = true.
Definition bitmap (sb : superblock) : gset Z :=
  list_to_set ((λ k, sb_bmapstart sb + Z.of_nat k) <$> seq 0 (Z.to_nat (sb_size sb / BPB) + 1)).

Lemma bitmap_range sb no : layout sb → no ∈ bitmap sb ↔ sb_bmapstart sb ≤ no < dstart sb.
Proof.
  intros Hly. pose proof (ly_size _ Hly). unfold bitmap, dstart.
  assert (0 ≤ sb_size sb / BPB) by (unfold BPB, BSIZE; dlia).
  rewrite elem_of_list_to_set, list_elem_of_fmap. split.
  - intros (k & -> & Hk%elem_of_seq). lia.
  - intros Hno. exists (Z.to_nat (no - sb_bmapstart sb)). split; [lia|]. apply elem_of_seq. lia.
Qed.
Lemma BBLOCK_range sb b : layout sb → 0 ≤ b < sb_size sb → sb_bmapstart sb ≤ BBLOCK b sb < dstart sb.
Proof. intros Hly Hb. unfold BBLOCK, dstart, BPB, BSIZE in *. dlia. Qed.
Lemma IBLOCK_range sb inum : layout sb → 0 ≤ inum < sb_ninodes sb →
  sb_inodestart sb ≤ IBLOCK inum sb < sb_bmapstart sb.
Proof.
  intros Hly Hi. pose proof (ly_bmap _ Hly) as H. revert H. unfold IBLOCK. change IPB with 16. dlia.
Qed.

(** * Operations on buffers *)

Definition rep s a : Prop := x_rep (fs_d s) a.
(** The transaction may log [n] blocks besides those of the free map. *)
Definition budget (sb : superblock) (a : atx) (n : nat) : Prop := (size (x_logged a ∪ bitmap sb) + n ≤ x_cap)%nat.

Lemma budget_le sb a n m : (m ≤ n)%nat → budget sb a n → budget sb a m.
Proof. unfold budget. lia. Qed.
Lemma budget_put sb a n no d : budget sb a (S n) → budget sb (x_put no d a) n.
Proof.
  unfold budget. simpl. intros H. rewrite <- (assoc_L (∪)).
  pose proof (size_union_alt {[no]} (x_logged a ∪ bitmap sb)) as E. rewrite size_singleton in E.
  pose proof (subseteq_size ((x_logged a ∪ bitmap sb) ∖ {[no]}) (x_logged a ∪ bitmap sb)). set_solver by lia.
Qed.
Lemma budget_map sb a n no d : no ∈ bitmap sb ∪ x_logged a → budget sb a n → budget sb (x_put no d a) n.
Proof.
  unfold budget. simpl. intros Hno H. replace ({[no]} ∪ x_logged a ∪ bitmap sb) with (x_logged a ∪ bitmap sb); [done|].
  set_solver.
Qed.
Lemma budget_log sb a no : budget sb a 1 ∨ budget sb a 0 ∧ no ∈ bitmap sb ∪ x_logged a →
  (size ({[no]} ∪ x_logged a) ≤ x_cap)%nat.
Proof.
  intros H. assert (budget sb (x_put no zero_block a) 0) as Hb.
  { destruct H as [H|[H Hno]]; [by apply budget_put|by apply budget_map]. }
  unfold budget in Hb. simpl in Hb.
  pose proof (subseteq_size ({[no]} ∪ x_logged a) ({[no]} ∪ x_logged a ∪ bitmap sb)). set_solver by lia.
Qed.

Lemma wp_fs_bread s a no (Q : nat → state → Prop) :
  rep s a → x_block no → x_free a no → (size (x_bufs a) < 3)%nat →
  (∀ b d', x_bufs a !! b = None → x_rep d' (x_hold b no (x_disk a no) a) → Q b (set_d d' s)) →
  wp (fs_bread ROOTDEV no) Q s.
Proof.
  intros Hr Hb Hf Hs HQ. apply wp_zoom. eapply wp_mono; [by apply x_bread_ok|]. intros b d' [? ?]. by apply HQ.
Qed.
Lemma wp_fs_data s a b no x (Q : block → state → Prop) :
  rep s a → x_bufs a !! b = Some (no, x) → Q x s → wp (fs_data b) Q s.
Proof. intros Hr Hb HQ. apply wp_gets. by rewrite (x_data_ok _ _ _ _ _ Hr Hb). Qed.
Lemma wp_fs_set_data s a b no x x' (Q : unit → state → Prop) :
  rep s a → x_bufs a !! b = Some (no, x) → is_block x' →
  (∀ d', x_rep d' (x_hold b no x' a) → Q tt (set_d d' s)) → wp (fs_set_data b x') Q s.
Proof.
  intros Hr Hb Hx HQ. apply wp_zoom. eapply wp_mono; [by eapply x_set_data_ok|]. intros [] d' ?. by apply HQ.
Qed.
Lemma wp_fs_log_write s a b no x (Q : unit → state → Prop) :
  rep s a → x_bufs a !! b = Some (no, x) → (size ({[no]} ∪ x_logged a) ≤ x_cap)%nat →
  (∀ d', x_rep d' (x_put no x a) → Q tt (set_d d' s)) → wp (fs_log_write b) Q s.
Proof.
  intros Hr Hb Hx HQ. apply wp_zoom. eapply wp_mono; [by eapply x_log_write_ok|]. intros [] d' ?. by apply HQ.
Qed.
Lemma wp_fs_brelse s a b no x (Q : unit → state → Prop) :
  rep s a → x_bufs a !! b = Some (no, x) → x = x_disk a no →
  (∀ d', x_rep d' (x_drop b a) → Q tt (set_d d' s)) → wp (fs_brelse b) Q s.
Proof.
  intros Hr Hb Hx HQ. apply wp_zoom. eapply wp_mono; [by eapply x_brelse_ok|]. intros [] d' ?. by apply HQ.
Qed.

(** Release a buffer that was only read; log and release a changed one. *)
Lemma wp_release s a b no (Q : unit → state → Prop) :
  rep s (x_hold b no (x_disk a no) a) → x_bufs a !! b = None →
  (∀ d', x_rep d' a → Q tt (set_d d' s)) → wp (fs_brelse b) Q s.
Proof.
  intros Hr Hb HQ. eapply wp_fs_brelse; [done|apply x_hold_lookup|done|]. intros d' Hd.
  rewrite x_drop_hold in Hd by done. by apply HQ.
Qed.
Lemma wp_commit {A} s a b no x x' (k : M state A) (Q : A → state → Prop) :
  rep s (x_hold b no x a) → x_bufs a !! b = None → is_block x' →
  (size ({[no]} ∪ x_logged a) ≤ x_cap)%nat →
  (∀ d', x_rep d' (x_put no x' a) → wp k Q (set_d d' s)) →
  wp (do! fs_set_data b x'; do! fs_log_write b; do! fs_brelse b; k) Q s.
Proof.
  intros Hr Hb Hx Hs HQ. apply wp_bind. eapply wp_fs_set_data; [done|apply x_hold_lookup|done|].
  intros d1 H1. rewrite x_hold_hold in H1. apply wp_bind.
  eapply wp_fs_log_write; [exact H1|apply x_hold_lookup|done|]. intros d2 H2. apply wp_bind.
  eapply wp_fs_brelse; [exact H2|apply x_hold_lookup|by rewrite x_put_eq|].
  intros d3 H3. rewrite x_drop_put_hold in H3 by done. by apply HQ.
Qed.
Lemma wp_commit_last s a b no x x' (Q : unit → state → Prop) :
  rep s (x_hold b no x a) → x_bufs a !! b = None → is_block x' →
  (size ({[no]} ∪ x_logged a) ≤ x_cap)%nat →
  (∀ d', x_rep d' (x_put no x' a) → Q tt (set_d d' s)) →
  wp (do! fs_set_data b x'; do! fs_log_write b; fs_brelse b) Q s.
Proof.
  intros Hr Hb Hx Hs HQ. eapply (wp_commit (A:=unit) _ _ _ _ _ _ (ret tt)) in HQ; [|done..].
  revert HQ. unfold wp, bind. destruct (fs_set_data b x' s) as [[] s1| | |]; [|done..].
  destruct (fs_log_write b s1) as [[] s2| | |]; [|done..]. by destruct (fs_brelse b s2) as [[] s3| | |].
Qed.

(** * Allocation *)

Definition x_alloc (sb : superblock) (b : Z) (a : atx) : atx :=
  x_put b zero_block (x_put (BBLOCK b sb) (bit_set (x_disk a (BBLOCK b sb)) (b `mod` BPB)) a).

Lemma bzero_spec s a no (Q : unit → state → Prop) :
  rep s a → x_block no → x_free a no → (size (x_bufs a) < 3)%nat → (size ({[no]} ∪ x_logged a) ≤ x_cap)%nat →
  (∀ d', x_rep d' (x_put no zero_block a) → Q tt (set_d d' s)) → wp (bzero ROOTDEV no) Q s.
Proof.
  intros Hr Hb Hf Hs Hl HQ. unfold bzero. apply wp_bind. eapply wp_fs_bread; [done..|]. intros b d1 Hb1 H1.
  eapply wp_commit_last; [exact H1|done|apply zero_block_ok|done|]. intros d' Hd. by apply HQ.
Qed.

Lemma bitmap_free sb a b : (∀ no, no ∈ bitmap sb → x_free a no) → layout sb → 0 ≤ b < sb_size sb → x_free a (BBLOCK b sb).
Proof. intros H Hly Hb. by apply H, bitmap_range, BBLOCK_range. Qed.
Lemma BBLOCK_block sb b : layout sb → 0 ≤ b < sb_size sb → x_block (BBLOCK b sb).
Proof.
  intros Hly Hb. pose proof (BBLOCK_range _ _ Hly Hb). pose proof (layout_order _ Hly). apply (ly_block _ Hly). lia.
Qed.

(** The caller holds at most two buffers, all of blocks in use, none of them
    a block of the free map. *)
Record ready (sb : superblock) (a : atx) : Prop := {
  rd_few : (size (x_bufs a) < 3)%nat;
  rd_map : ∀ no, no ∈ bitmap sb → x_free a no;
  rd_used : ∀ b, 0 ≤ b < sb_size sb → used sb a b = false → x_free a b;
}.

Lemma block_index sb b bi : 0 ≤ b → b `mod` BPB = 0 → 0 ≤ bi < BPB →
  BBLOCK (b + bi) sb = BBLOCK b sb ∧ (b + bi) `mod` BPB = bi.
Proof. unfold BBLOCK, BPB, BSIZE. intros. dlia. Qed.

(** What a round of balloc's outer loop does. *)
Definition all_used (sb : superblock) (a : atx) (b : Z) : Prop := ∀ b', 0 ≤ b' < b → b' < sb_size sb → used sb a b' = true.
Lemma balloc_round_spec s a sb b (Q : Z + Z → state → Prop) :
  rep s a → layout sb → map_ok sb a → ready sb a → budget sb a 1 →
  0 ≤ b < sb_size sb → b `mod` BPB = 0 → all_used sb a b →
  (∀ d', x_rep d' a → all_used sb a (b + BPB) → Q (inl (b + BPB)) (set_d d' s)) →
  (∀ b' d', b ≤ b' < sb_size sb → used sb a b' = false → all_used sb a b' →
     x_rep d' (x_alloc sb b' a) → Q (inr b') (set_d d' s)) →
  wp (balloc_round ROOTDEV sb b) Q s.
Proof.
  intros Hr Hly Hmap [Hfew Hmapf Hused] Hbud Hb Hmod Hall Hnone Hsome. unfold balloc_round.
  destruct (Z.ltb_spec b (sb_size sb)); [|lia]. apply wp_bind.
  eapply wp_fs_bread; [done|by apply BBLOCK_block|by apply bitmap_free|done|]. intros i d1 Hi1 H1.
  apply wp_bind. eapply wp_fs_data; [exact H1|apply x_hold_lookup|].
  pose proof (x_disk_ok _ _ (BBLOCK b sb) Hr) as Hblk.
  destruct (free_bit _ _ _ _) as [bi|] eqn:Hf.
  - apply free_bit_some in Hf as (Hbi & Hbi' & Hclear & Hbefore). rewrite Z2Nat.id in Hbi' by (by vm_compute).
    destruct (block_index sb b bi) as [E1 E2]; [lia..|].
    assert (used sb a (b + bi) = false) as Hu by (unfold used; by rewrite E1, E2).
    assert (dstart sb ≤ b + bi) as Hds.
    { apply Z.nlt_ge. intros Hlt. rewrite Hmap in Hu by lia. done. }
    assert (BBLOCK b sb ∈ bitmap sb) as Hin by (by apply bitmap_range, BBLOCK_range).
    eapply wp_commit; [exact H1|done|apply bit_set_block; [done|lia]|..].
    { apply (budget_log sb). right. split; [|set_solver]. eapply budget_le; [|done]. lia. }
    intros d2 H2. apply wp_bind. eapply bzero_spec.
    + exact H2.
    + pose proof (layout_order _ Hly). apply (ly_block _ Hly). lia.
    + apply Hused; [lia|done].
    + done.
    + apply (budget_log sb). left. apply budget_map; [set_solver|done].
    + intros d3 H3. apply wp_ret. apply Hsome; [lia|done| |].
      * intros b' Hb' Hlt. destruct (decide (b' < b)); [apply Hall; lia|].
        destruct (block_index sb b (b' - b)) as [E3 E4]; [lia..|]. replace (b + (b' - b)) with b' in * by lia.
        unfold used. rewrite E3, E4. apply Hbefore. lia.
      * unfold x_alloc. rewrite E1, E2. exact H3.
  - apply wp_bind. eapply wp_release; [exact H1|done|]. intros d2 H2. apply wp_ret. apply Hnone; [done|].
    intros b' Hb' Hlt. destruct (decide (b' < b)); [apply Hall; lia|].
    destruct (block_index sb b (b' - b)) as [E3 E4]; [lia..|]. replace (b + (b' - b)) with b' in * by lia.
    unfold used. rewrite E3, E4. apply (free_bit_none _ _ _ _ Hf); [lia|]. rewrite Z2Nat.id by (by vm_compute). lia.
Qed.
Lemma balloc_spec s a (Q : Z → state → Prop) :
  rep s a → layout (fs_sb s) → map_ok (fs_sb s) a → ready (fs_sb s) a → budget (fs_sb s) a 1 →
  (∃ b, 0 ≤ b < sb_size (fs_sb s) ∧ used (fs_sb s) a b = false) →
  (∀ b d', in_data (fs_sb s) b → used (fs_sb s) a b = false → all_used (fs_sb s) a b →
     x_rep d' (x_alloc (fs_sb s) b a) → Q b (set_d d' s)) →
  wp (balloc ROOTDEV) Q s.
Proof.
  intros Hr Hly Hmap Hrd Hbud (b0 & Hb0 & Hfree) HQ. unfold balloc. apply wp_bind, wp_gets.
  set (sb := fs_sb s) in *.
  eapply (wp_loop _ (λ b s1, ∃ d1, s1 = set_d d1 s ∧ x_rep d1 a ∧ 0 ≤ b ∧ b `mod` BPB = 0 ∧ all_used sb a b)
    (λ b _, Z.to_nat (sb_size sb / BPB + 1 - b / BPB))).
  - intros b s1 (d1 & -> & H1 & Hb & Hmod & Hall).
    assert (b < sb_size sb) as Hlt.
    { apply Z.nle_gt. intros Hge. rewrite (Hall b0) in Hfree by lia. done. }
    eapply balloc_round_spec; [exact H1|done..| |].
    + intros d2 H2 Hall2. split; [exists d2|].
      { split_and!; [done|done|unfold BPB, BSIZE in *; lia|unfold BPB, BSIZE in *; dlia|done]. }
      unfold BPB, BSIZE in *. dlia.
    + intros b' d2 Hb' Hu Hall' H2. apply (HQ b' d2); [|done..]. split; [|lia].
      apply Z.nlt_ge. intros Hlt'. rewrite Hmap in Hu by lia. done.
  - exists (fs_d s). split_and!; [by destruct s|done|lia|done|]. intros b'. lia.
  - rewrite Z.div_0_l by (by vm_compute). unfold BPB, BSIZE. pose proof (ly_size _ Hly). subst sb. dlia.
Qed.

(** ** What allocation changes *)

Lemma BPB_mod b : 0 ≤ b `mod` BPB < BPB.
Proof. apply Z.mod_pos_bound. by vm_compute. Qed.
Lemma same_block sb b b' : 0 ≤ b → 0 ≤ b' → BBLOCK b' sb = BBLOCK b sb → b' `mod` BPB = b `mod` BPB → b' = b.
Proof. unfold BBLOCK, BPB, BSIZE. intros. dlia. Qed.

(** A change of one bit of the free map. *)
Lemma used_put_map sb a b b' (v : bool) x :
  (∀ no, is_block (x_disk a no)) → 0 ≤ b → 0 ≤ b' →
  (∀ bj, 0 ≤ bj < BPB → bit x bj = if decide (bj = b `mod` BPB) then v else bit (x_disk a (BBLOCK b sb)) bj) →
  used sb (x_put (BBLOCK b sb) x a) b' = if decide (b' = b) then v else used sb a b'.
Proof.
  intros Hblk Hb Hb' Hx. unfold used. destruct (decide (BBLOCK b' sb = BBLOCK b sb)) as [E|E].
  - rewrite E, x_put_eq, Hx by apply BPB_mod. case_decide as Hm; case_decide as Hd; [done| |by subst|done].
    exfalso. by apply Hd, (same_block sb).
  - rewrite x_put_ne by done. rewrite decide_False; [done|]. congruence.
Qed.
Lemma used_put_data sb a no x b : no ∉ bitmap sb → layout sb → 0 ≤ b < sb_size sb →
  used sb (x_put no x a) b = used sb a b.
Proof.
  intros Hno Hly Hb. unfold used. rewrite x_put_ne; [done|]. intros <-. by apply Hno, bitmap_range, BBLOCK_range.
Qed.
Lemma data_not_map sb b : layout sb → in_data sb b → b ∉ bitmap sb.
Proof. intros Hly [Hb _]. rewrite bitmap_range by done. lia. Qed.

Lemma used_alloc sb a b b' :
  (∀ no, is_block (x_disk a no)) → layout sb → in_data sb b → 0 ≤ b' < sb_size sb →
  used sb (x_alloc sb b a) b' = bool_decide (b' = b) || used sb a b'.
Proof.
  intros Hblk Hly Hd Hb'. unfold x_alloc.
  rewrite used_put_data by (done || by apply data_not_map).
  assert (0 ≤ b) by (pose proof (layout_order _ Hly); destruct Hd; lia).
  rewrite (used_put_map _ _ _ _ true); [|done|done|lia|].
  - rewrite bool_decide_decide. by case_decide.
  - intros bj Hbj. rewrite bit_bit_set by (done || apply BPB_mod). rewrite bool_decide_decide. by case_decide.
Qed.
Lemma alloc_disk sb a b no : in_data sb b → layout sb → no ∉ bitmap sb → no ≠ b →
  x_disk (x_alloc sb b a) no = x_disk a no.
Proof.
  intros Hd Hly Hno Hne. unfold x_alloc. rewrite x_put_ne, x_put_ne; [done| |done]. intros ->.
  apply Hno, bitmap_range; [done|]. apply BBLOCK_range; [done|]. pose proof (layout_order _ Hly). destruct Hd. lia.
Qed.

Lemma alloc_zero sb a b : x_disk (x_alloc sb b a) b = zero_block.
Proof. apply x_put_eq. Qed.
Lemma alloc_map_ok sb a b : (∀ no, is_block (x_disk a no)) → layout sb → in_data sb b → map_ok sb a → map_ok sb (x_alloc sb b a).
Proof.
  intros Hblk Hly Hd Hm b' Hb'. pose proof (layout_order _ Hly). rewrite used_alloc by (done || lia).
  by rewrite Hm, orb_true_r.
Qed.
Lemma alloc_ready sb a b : (∀ no, is_block (x_disk a no)) → layout sb → in_data sb b → ready sb a → ready sb (x_alloc sb b a).
Proof.
  intros Hblk Hly Hd [H1 H2 H3]. split; [done|done|]. intros b' Hb' Hu. apply H3; [done|].
  rewrite used_alloc in Hu by done. by apply orb_false_iff in Hu as [_ ?].
Qed.
Lemma alloc_budget sb a b n : layout sb → in_data sb b → budget sb a (S n) → budget sb (x_alloc sb b a) n.
Proof.
  intros Hly Hd Hbud. apply budget_put, budget_map; [|done]. apply elem_of_union_l, bitmap_range, BBLOCK_range; [done..|].
  pose proof (layout_order _ Hly). destruct Hd. lia.
Qed.

(** The free blocks. *)
Definition free_set (sb : superblock) (a : atx) : gset Z :=
  filter (λ b, used sb a b = false) (list_to_set (seqZ 0 (sb_size sb))).
Definition nfree (sb : superblock) (a : atx) : nat := size (free_set sb a).
Lemma elem_of_free sb a b : b ∈ free_set sb a ↔ 0 ≤ b < sb_size sb ∧ used sb a b = false.
Proof. unfold free_set. rewrite elem_of_filter, elem_of_list_to_set, elem_of_seqZ. split; intros; split_and!; try tauto; lia. Qed.
Lemma nfree_pos sb a : (0 < nfree sb a)%nat → ∃ b, 0 ≤ b < sb_size sb ∧ used sb a b = false.
Proof.
  intros H. destruct (size_pos_elem_of (free_set sb a) H) as [b Hb]. exists b. by apply elem_of_free.
Qed.
Lemma free_alloc sb a b : (∀ no, is_block (x_disk a no)) → layout sb → in_data sb b →
  free_set sb (x_alloc sb b a) = free_set sb a ∖ {[b]}.
Proof.
  intros Hblk Hly Hd. apply set_eq. intros b'. rewrite elem_of_difference, !elem_of_free, elem_of_singleton. split.
  - intros [Hb' Hu]. rewrite used_alloc in Hu by done. apply orb_false_iff in Hu as [Hne ?].
    apply bool_decide_eq_false in Hne. done.
  - intros [[Hb' Hu] Hne]. split; [done|]. rewrite used_alloc by done. by rewrite bool_decide_eq_false_2.
Qed.
Lemma nfree_alloc sb a b : (∀ no, is_block (x_disk a no)) → layout sb → in_data sb b → used sb a b = false →
  nfree sb a = S (nfree sb (x_alloc sb b a)).
Proof.
  intros Hblk Hly Hd Hu. unfold nfree. rewrite free_alloc by done.
  assert (b ∈ free_set sb a) as Hb by (apply elem_of_free; pose proof (layout_order _ Hly); destruct Hd; split; [lia|done]).
  rewrite size_difference by set_solver. rewrite size_singleton.
  assert (size (free_set sb a) ≠ 0)%nat; [|lia]. intros E%size_empty_inv. set_solver.
Qed.

(** ** Freeing *)

Definition x_dealloc (sb : superblock) (b : Z) (a : atx) : atx :=
  x_put (BBLOCK b sb) (bit_clear (x_disk a (BBLOCK b sb)) (b `mod` BPB)) a.
Lemma used_dealloc sb a b b' : (∀ no, is_block (x_disk a no)) → 0 ≤ b → 0 ≤ b' →
  used sb (x_dealloc sb b a) b' = negb (bool_decide (b' = b)) && used sb a b'.
Proof.
  intros Hblk Hb Hb'. unfold x_dealloc. rewrite (used_put_map _ _ _ _ false); [|done..|].
  - rewrite bool_decide_decide. by case_decide.
  - intros bj Hbj. rewrite bit_bit_clear by (done || apply BPB_mod). rewrite bool_decide_decide. by case_decide.
Qed.
Lemma bfree_spec s a b (Q : unit → state → Prop) :
  rep s a → layout (fs_sb s) → 0 ≤ b < sb_size (fs_sb s) → used (fs_sb s) a b = true →
  (size (x_bufs a) < 3)%nat → x_free a (BBLOCK b (fs_sb s)) → budget (fs_sb s) a 0 →
  (∀ d', x_rep d' (x_dealloc (fs_sb s) b a) → Q tt (set_d d' s)) →
  wp (bfree ROOTDEV b) Q s.
Proof.
  intros Hr Hly Hb Hu Hfew Hfree Hbud HQ. unfold bfree. apply wp_bind, wp_gets, wp_bind.
  eapply wp_fs_bread; [done|by apply BBLOCK_block|done|done|]. intros i d1 Hi1 H1.
  apply wp_bind. eapply wp_fs_data; [exact H1|apply x_hold_lookup|]. cbv zeta.
  unfold used in Hu. rewrite Hu. simpl negb. cbv iota.
  pose proof (x_disk_ok _ _ (BBLOCK b (fs_sb s)) Hr) as Hblk.
  eapply wp_commit_last; [exact H1|done|apply bit_clear_block; [done|apply BPB_mod]| |].
  - apply (budget_log (fs_sb s)). right. split; [done|].
    apply elem_of_union_l, bitmap_range, BBLOCK_range; done.
  - intros d2 H2. by apply HQ.
Qed.
Lemma bfree_free s a b :
  rep s a → layout (fs_sb s) → 0 ≤ b < sb_size (fs_sb s) → used (fs_sb s) a b = false →
  (size (x_bufs a) < 3)%nat → x_free a (BBLOCK b (fs_sb s)) →
  bfree ROOTDEV b s = Panic "freeing free block".
Proof.
  intros Hr Hly Hb Hu Hfew Hfree. unfold bfree, bind, gets.
  pose proof (wp_fs_bread s a (BBLOCK b (fs_sb s)) (λ i s', ∃ d', s' = set_d d' s ∧
    x_rep d' (x_hold i (BBLOCK b (fs_sb s)) (x_disk a (BBLOCK b (fs_sb s))) a)) Hr) as Hwp.
  assert (wp (fs_bread ROOTDEV (BBLOCK b (fs_sb s))) (λ i s', ∃ d', s' = set_d d' s ∧
    x_rep d' (x_hold i (BBLOCK b (fs_sb s)) (x_disk a (BBLOCK b (fs_sb s))) a)) s) as Hwp'.
  { apply Hwp; [by apply BBLOCK_block|done|done|]. eauto. }
  unfold wp in Hwp'. destruct (fs_bread _ _ s) as [i s1| | |]; [|done..]. destruct Hwp' as (d1 & -> & H1).
  unfold fs_data, gets. cbn [fs_d set_d]. rewrite (x_data_ok _ _ _ _ _ H1 (x_hold_lookup _ _ _ _)).
  unfold used in Hu. by rewrite Hu.
Qed.
End blocks.
