(* ===== verification/FsFile.v ===== *)
(** kernel/fs.c, the contents of an inode: the blocks bmap finds or allocates,
    and the bytes readi and writei move. *)

From S2P Require Import Prelude Riscv Mem Spinlock Sleeplock Kalloc Bio FsLayout ProcMem Fs FsBlocks.

(** * The blocks of a file *)

Definition ind (i : inode) : Z := default 0 (i_addrs i !! Z.to_nat NDIRECT).
(** The address of the [k]th block, 0 if there is none; [MAXFILE] stands for
    the indirect block itself. *)
Definition slot (a : atx) (i : inode) (k : Z) : Z :=
  if k <? NDIRECT then default 0 (i_addrs i !! Z.to_nat k)
  else if k =? MAXFILE then ind i
  else if ind i =? 0 then 0 else get 4 (x_disk a (ind i)) (4 * (k - NDIRECT)).

Section file.
Context {D : Type} `{BS : BlockStore D} {BSok : BlockStoreOk D} {L : Linker}.
Abbreviation state := (fsys (D:=D)).
Implicit Types s : state.
Implicit Types a : atx.
Implicit Types i : inode.
Context (pagetable : Z).

Record iwf (sb : superblock) (a : atx) (i : inode) : Prop := {
  iw_dev : i_dev i = ROOTDEV;
  iw_inum : 0 ≤ i_inum i < sb_ninodes sb;
  iw_len : length (i_addrs i) = naddrs;
  iw_size : 0 ≤ i_size i ≤ MAXFILE * BSIZE;
  iw_data : ∀ k, 0 ≤ k ≤ MAXFILE → slot a i k ≠ 0 → in_data sb (slot a i k) ∧ used sb a (slot a i k) = true;
  iw_inj : ∀ j k, 0 ≤ j ≤ MAXFILE → 0 ≤ k ≤ MAXFILE → slot a i j = slot a i k → slot a i k ≠ 0 → j = k;
  iw_full : ∀ k, 0 ≤ k → k * BSIZE < i_size i → slot a i k ≠ 0;
}.

Lemma MAXFILE_eq : MAXFILE = 268. Proof. done. Qed.
Lemma slot_max a i : slot a i MAXFILE = ind i.
Proof. done. Qed.

(** A block [b] that was free becomes the [k0]th. *)
Record added (sb : superblock) (a : atx) (i : inode) (k0 b : Z) (a' : atx) (i' : inode) : Prop := {
  ad_fields : i' = i_set_addrs (i_addrs i') i;
  ad_len : length (i_addrs i') = naddrs;
  ad_slot : ∀ k, 0 ≤ k ≤ MAXFILE → slot a' i' k = if decide (k = k0) then b else slot a i k;
  ad_used : ∀ c, 0 ≤ c < sb_size sb → used sb a' c = bool_decide (c = b) || used sb a c;
  ad_disk : ∀ no, no ∉ bitmap sb → no ≠ b → (no = ind i → no = 0) → x_disk a' no = x_disk a no;
  ad_zero : x_disk a' b = zero_block;
}.
Lemma added_iwf sb a i k0 b a' i' :
  layout sb → iwf sb a i → 0 ≤ k0 ≤ MAXFILE → slot a i k0 = 0 → in_data sb b → used sb a b = false →
  added sb a i k0 b a' i' → iwf sb a' i'.
Proof.
  intros Hly [Hdev Hinum Hlen Hsize Hdata Hinj Hfull] Hk0 H0 Hb Hu [Hf Hl Hslot Hused Hdisk].
  pose proof (layout_order _ Hly) as Ho. pose proof Hb as [Hb1 Hb2].
  assert (∀ k, 0 ≤ k ≤ MAXFILE → slot a i k ≠ 0 → slot a i k ≠ b) as Hne.
  { intros k Hk Hs <-. destruct (Hdata k Hk Hs). congruence. }
  pose proof (f_equal i_dev Hf) as E1. pose proof (f_equal i_inum Hf) as E2. pose proof (f_equal i_size Hf) as E3.
  cbn [i_set_addrs i_dev i_inum i_size] in E1, E2, E3. split; rewrite ?E1, ?E2, ?E3; try done.
  - intros k Hk. rewrite Hslot by done. case_decide.
    + intros _. split; [done|]. rewrite Hused by lia. by rewrite bool_decide_eq_true_2.
    + intros Hs. destruct (Hdata k Hk Hs) as [[? ?] E]. split; [done|]. rewrite Hused by lia.
      by rewrite E, orb_true_r.
  - intros j k Hj Hk. rewrite !Hslot by done. case_decide; case_decide; subst; [done|..|by apply Hinj].
    + intros E ?. exfalso. apply (Hne k Hk); congruence.
    + intros E ?. exfalso. apply (Hne j Hj); congruence.
  - intros k Hk Hks. assert (k ≤ MAXFILE) by (unfold BSIZE in *; lia). rewrite Hslot by lia.
    case_decide; [lia|by apply Hfull].
Qed.

(** ** The two ways of adding a block *)

Lemma slot_range_not_map sb a i k : layout sb → iwf sb a i → 0 ≤ k ≤ MAXFILE → slot a i k ≠ 0 →
  slot a i k ∉ bitmap sb.
Proof. intros Hly Hi Hk Hs. apply data_not_map; [done|]. by apply (iw_data _ _ _ Hi). Qed.
Lemma get_zero k : get 4 zero_block (4 * k) = 0.
Proof.
  unfold get, get_bytes, zero_block. rewrite drop_replicate, take_replicate.
  generalize (4 `min` (Z.to_nat BSIZE - Z.to_nat (4 * k)))%nat. intros n. induction n as [|n IH]; [done|].
  simpl. rewrite IH. done.
Qed.

(** In [addrs]: a direct block or the indirect block. *)
Lemma added_direct sb a i k0 b :
  layout sb → iwf sb a i → (∀ no, is_block (x_disk a no)) →
  0 ≤ k0 < NDIRECT ∨ k0 = MAXFILE → slot a i k0 = 0 → in_data sb b → used sb a b = false →
  let n := Z.to_nat (if k0 =? MAXFILE then NDIRECT else k0) in
  added sb a i k0 b (x_alloc sb b a) (i_set_addrs (<[n := b]> (i_addrs i)) i).
Proof.
  intros Hly Hi Hblk Hk0 H0 Hb Hu n. pose proof (iw_len _ _ _ Hi) as Hlen.
  assert (n < length (i_addrs i))%nat as Hn.
  { rewrite Hlen. subst n. destruct (Z.eqb_spec k0 MAXFILE); [by apply Nat.ltb_lt|].
    destruct Hk0 as [Hk0|?]; [|done]. unfold NDIRECT in Hk0. change naddrs with 13%nat. lia. }
  split.
  - done.
  - simpl. by rewrite length_insert.
  - intros k Hk. unfold slot at 1, ind. cbn [i_set_addrs i_addrs].
    destruct (Z.ltb_spec k NDIRECT) as [Hlt|Hge].
    + destruct (decide (k = k0)) as [->|Hne].
      * assert (n = Z.to_nat k0) as <-.
        { subst n. destruct (Z.eqb_spec k0 MAXFILE) as [->|]; [|done]. by vm_compute in Hlt. }
        by rewrite list_lookup_insert_eq.
      * unfold slot. destruct (Z.ltb_spec k NDIRECT); [|lia]. rewrite list_lookup_insert_ne; [done|].
        subst n. destruct (Z.eqb_spec k0 MAXFILE); [lia|]. destruct Hk0 as [?|?]; [lia|done].
    + destruct Hk0 as [Hk0|Hk0].
      * rewrite decide_False by lia. subst n. destruct (Z.eqb_spec k0 MAXFILE); [unfold NDIRECT, MAXFILE in *; lia|].
        rewrite list_lookup_insert_ne by lia. unfold slot, ind. destruct (Z.ltb_spec k NDIRECT); [lia|].
        destruct (Z.eqb_spec k MAXFILE); [done|]. destruct (Z.eqb_spec (default 0 (i_addrs i !! Z.to_nat NDIRECT)) 0) as [|Hd]; [done|].
        rewrite alloc_disk; [done..| |].
        -- by apply (slot_range_not_map sb a i MAXFILE).
        -- intros E. destruct (iw_data _ _ _ Hi MAXFILE) as [_ Hu']; [done|done|].
           rewrite slot_max in Hu'. unfold ind in Hu'. rewrite E in Hu'. congruence.
      * subst k0. subst n. rewrite Z.eqb_refl in *. rewrite list_lookup_insert_eq by done. change (default 0 (Some b)) with b.
        destruct (Z.eqb_spec k MAXFILE) as [->|Hne]; [by rewrite decide_True|]. rewrite decide_False by done.
        destruct (Z.eqb_spec b 0) as [->|_].
        { pose proof (layout_order _ Hly). destruct Hb. lia. }
        rewrite alloc_zero, get_zero. unfold slot. destruct (Z.ltb_spec k NDIRECT); [lia|].
        destruct (Z.eqb_spec k MAXFILE); [done|]. rewrite slot_max in H0. by rewrite H0.
  - intros c Hc. by apply used_alloc.
  - intros no ? ? _. by apply alloc_disk.
  - apply alloc_zero.
Qed.

(** In the indirect block. *)
Lemma added_indirect sb a i k0 b :
  layout sb → iwf sb a i → (∀ no, is_block (x_disk a no)) →
  NDIRECT ≤ k0 < MAXFILE → ind i ≠ 0 → slot a i k0 = 0 → in_data sb b → used sb a b = false →
  added sb a i k0 b
    (x_put (ind i) (put 4 (x_disk a (ind i)) (4 * (k0 - NDIRECT)) b) (x_alloc sb b a)) i.
Proof.
  intros Hly Hi Hblk Hk0 Hind H0 Hb Hu.
  destruct (iw_data _ _ _ Hi MAXFILE) as [Hd Hui]; [done|by rewrite slot_max|]. rewrite slot_max in Hd, Hui.
  assert (ind i ≠ b) as Hne by congruence. pose proof (data_not_map _ _ Hly Hd) as Hnm.
  pose proof (layout_order _ Hly) as Ho. pose proof (ly_size _ Hly) as Hsz. split.
  - by destruct i.
  - apply (iw_len _ _ _ Hi).
  - intros k Hk. unfold slot at 1. destruct (Z.ltb_spec k NDIRECT) as [Hlt|Hge].
    { rewrite decide_False by lia. unfold slot. by destruct (Z.ltb_spec k NDIRECT); [|lia]. }
    destruct (Z.eqb_spec k MAXFILE) as [->|Hkm].
    { rewrite decide_False by lia. by rewrite slot_max. }
    destruct (Z.eqb_spec (ind i) 0); [done|]. rewrite x_put_eq.
    assert (4 * (k - NDIRECT) + 4 ≤ BSIZE ∧ 4 * (k0 - NDIRECT) + 4 ≤ BSIZE) as [? ?].
    { rewrite MAXFILE_eq in *. unfold NDIRECT, BSIZE in *. lia. }
    destruct (decide (k = k0)) as [->|Hkk].
    + apply get_put_eq; [done|lia|simpl; lia|]. destruct Hb. change (8 * Z.of_nat 4) with 32. lia.
    + rewrite get_put_ne; [|done|lia|simpl; lia|lia|simpl; lia].
      unfold slot. destruct (Z.ltb_spec k NDIRECT); [lia|]. destruct (Z.eqb_spec k MAXFILE); [done|].
      by destruct (Z.eqb_spec (ind i) 0).
  - intros c Hc. rewrite used_put_data by done. by apply used_alloc.
  - intros no ? ? Hni. rewrite x_put_ne by (intros E; apply Hind; rewrite <- E; auto). by apply alloc_disk.
  - rewrite x_put_ne by congruence. apply alloc_zero.
Qed.

(** * bmap *)

Definition fs_put s (ip : nat) (i : inode) (d : D) : state :=
  Fsys d (fs_sb s) (it_lock s) (<[ip := i]> (it_inode s)) (fs_mem s).
Lemma fs_put_id s ip i d : it_inode s !! ip = Some i → fs_put s ip i d = set_d d s.
Proof. intros H. unfold fs_put, set_d. by rewrite list_insert_id. Qed.
Lemma fs_put_put s ip i d i' d' : fs_put (fs_put s ip i d) ip i' d' = fs_put s ip i' d'.
Proof. unfold fs_put. simpl. by rewrite list_insert_insert_eq. Qed.
Lemma set_d_id s : set_d (fs_d s) s = s.
Proof. by destruct s. Qed.

Lemma wp_geti s ip i (Q : inode → state → Prop) : it_inode s !! ip = Some i → Q i s → wp (geti ip) Q s.
Proof. intros H HQ. unfold wp, geti. by rewrite H. Qed.
Lemma wp_updi s ip i f (Q : unit → state → Prop) :
  it_inode s !! ip = Some i → Q tt (fs_put s ip (f i) (fs_d s)) → wp (updi ip f) Q s.
Proof. intros H HQ. apply wp_modify. by rewrite (alter_lookup _ _ _ _ H). Qed.

(** The transaction can log, and the disk has, [n] blocks more for the file,
    besides its indirect block. *)
Definition ind_log a i : nat := if decide (ind i ≠ 0 ∧ ind i ∈ x_logged a) then 0 else 1.
Definition ind_new i : nat := if decide (ind i = 0) then 1 else 0.
Definition res (sb : superblock) a i (n : nat) : Prop :=
  budget sb a (n + ind_log a i) ∧ (n + ind_new i ≤ nfree sb a)%nat.

(** No buffer is held and the map is sound. *)
Record idle sb a : Prop := { id_bufs : x_bufs a = ∅; id_map : map_ok sb a }.
Lemma idle_free sb a no : idle sb a → x_free a no.
Proof. intros [E _] b x. rewrite E. by rewrite lookup_empty. Qed.
Lemma idle_ready sb a : idle sb a → ready sb a.
Proof.
  intros Hid. split; [rewrite (id_bufs _ _ Hid), map_size_empty; lia|intros; by apply (idle_free sb)..].
Qed.
Lemma idle_few sb a : idle sb a → (size (x_bufs a) < 3)%nat.
Proof. intros Hid. rewrite (id_bufs _ _ Hid), map_size_empty. lia. Qed.
Lemma data_block sb b : layout sb → in_data sb b → x_block b.
Proof. intros Hly [? ?]. pose proof (layout_order _ Hly). apply (ly_block _ Hly). lia. Qed.

Lemma bmap_found s a ip i bn (Q : Z → state → Prop) :
  rep s a → layout (fs_sb s) → idle (fs_sb s) a → it_inode s !! ip = Some i → iwf (fs_sb s) a i →
  0 ≤ bn < MAXFILE → slot a i bn ≠ 0 →
  (∀ d', x_rep d' a → Q (slot a i bn) (set_d d' s)) → wp (bmap ip bn) Q s.
Proof.
  intros Hr Hly Hid Hip Hi Hbn Hs HQ. unfold bmap. apply wp_bind. eapply wp_geti; [done|].
  pose proof (iw_data _ _ _ Hi bn) as Hdata. revert Hs HQ Hdata. unfold slot.
  destruct (Z.ltb_spec bn NDIRECT) as [Hlt|Hge].
  - intros Hs HQ _. destruct (Z.eqb_spec (default 0 (i_addrs i !! Z.to_nat bn)) 0); [done|]. apply wp_ret.
    rewrite <- (set_d_id s). by apply HQ.
  - destruct (Z.eqb_spec bn MAXFILE); [lia|]. cbv zeta.
    destruct (Z.ltb_spec (bn - NDIRECT) NINDIRECT) as [_|Hge'].
    2: { rewrite MAXFILE_eq in *. change NINDIRECT with 256 in *. unfold NDIRECT in *. lia. }
    fold (ind i). destruct (Z.eqb_spec (ind i) 0) as [|Hind]; [done|]. intros Hs HQ _.
    apply wp_bind, wp_ret, wp_bind. rewrite (iw_dev _ _ _ Hi).
    destruct (iw_data _ _ _ Hi MAXFILE) as [Hd Hu]; [done|by rewrite slot_max|]. rewrite slot_max in Hd, Hu.
    eapply wp_fs_bread; [done|by eapply data_block|by eapply idle_free|by eapply idle_few|]. intros b d1 Hb1 H1.
    apply wp_bind. eapply wp_fs_data; [exact H1|apply x_hold_lookup|].
    destruct (Z.eqb_spec (get 4 (x_disk a (ind i)) (4 * (bn - NDIRECT))) 0); [done|].
    apply wp_bind. eapply wp_release; [exact H1|done|]. intros d2 H2. apply wp_ret. by apply HQ.
Qed.

Record mapped (sb : superblock) a i (bn : Z) a' i' : Prop := {
  mp_idle : idle sb a';
  mp_iwf : iwf sb a' i';
  mp_fields : i' = i_set_addrs (i_addrs i') i;
  mp_slot : slot a' i' bn ≠ 0;
  mp_slots : ∀ k, 0 ≤ k < MAXFILE → k ≠ bn → slot a' i' k = slot a i k;
  mp_used : ∀ c, 0 ≤ c < sb_size sb → used sb a c = true → used sb a' c = true;
  mp_disk : ∀ no, no ∉ bitmap sb → (in_data sb no → used sb a no = true) →
    (no = ind i → no = 0) → x_disk a' no = x_disk a no;
  mp_old : slot a i bn ≠ 0 → slot a' i' bn = slot a i bn ∧ x_disk a' (slot a i bn) = x_disk a (slot a i bn);
  mp_new : slot a i bn = 0 → in_data sb (slot a' i' bn) ∧ used sb a (slot a' i' bn) = false ∧
    x_disk a' (slot a' i' bn) = zero_block;
  mp_ind : ind i' = ind i ∨ ind i = 0 ∧ in_data sb (ind i') ∧ used sb a (ind i') = false;
}.
Lemma mapped_refl sb a i bn : idle sb a → iwf sb a i → slot a i bn ≠ 0 → mapped sb a i bn a i.
Proof. intros. split; try done; [by destruct i|by left]. Qed.
Lemma added_mapped sb a i bn b a' i' :
  layout sb → iwf sb a i → 0 ≤ bn < MAXFILE → slot a i bn = 0 → in_data sb b → used sb a b = false →
  added sb a i bn b a' i' → x_bufs a' = ∅ → map_ok sb a' → mapped sb a i bn a' i'.
Proof.
  intros Hly Hi Hbn H0 Hb Hu Had Hbufs Hmap. pose proof (layout_order _ Hly). pose proof Hb as [? ?].
  assert (slot a' i' bn = b) as Es by (rewrite (ad_slot _ _ _ _ _ _ _ Had) by lia; by rewrite decide_True).
  split.
  - done.
  - by apply (added_iwf sb a i bn b); [..|lia| | | |].
  - apply (ad_fields _ _ _ _ _ _ _ Had).
  - rewrite Es. lia.
  - intros k Hk Hne. rewrite (ad_slot _ _ _ _ _ _ _ Had) by lia. by rewrite decide_False.
  - intros c Hc E. rewrite (ad_used _ _ _ _ _ _ _ Had) by done. by rewrite E, orb_true_r.
  - intros no Hno Hun Hne. apply (ad_disk _ _ _ _ _ _ _ Had); [done| |done]. intros ->. rewrite Hun in Hu; done.
  - done.
  - intros _. rewrite Es. split_and!; [done..|]. apply (ad_zero _ _ _ _ _ _ _ Had).
  - left. rewrite <- (slot_max a'), (ad_slot _ _ _ _ _ _ _ Had) by done. rewrite decide_False by lia. apply slot_max.
Qed.
Lemma mapped_after sb a i bn b a1 i1 a' i' :
  layout sb → iwf sb a i → NDIRECT ≤ bn < MAXFILE → ind i = 0 → in_data sb b → used sb a b = false →
  added sb a i MAXFILE b a1 i1 → mapped sb a1 i1 bn a' i' → mapped sb a i bn a' i'.
Proof.
  intros Hly Hi Hbn H0 Hb Hu Had Hm. pose proof (layout_order _ Hly). pose proof Hb as [? ?].
  assert (slot a i bn = 0) as Hs0.
  { unfold slot. destruct (Z.ltb_spec bn NDIRECT); [lia|]. destruct (Z.eqb_spec bn MAXFILE); [lia|]. by rewrite H0. }
  assert (slot a1 i1 bn = 0) as Hs1.
  { rewrite (ad_slot _ _ _ _ _ _ _ Had) by (unfold NDIRECT in *; lia). rewrite decide_False by lia. done. }
  assert (ind i1 = b) as Eb.
  { rewrite <- (slot_max a1), (ad_slot _ _ _ _ _ _ _ Had) by done. by rewrite decide_True. }
  assert (∀ c, 0 ≤ c < sb_size sb → used sb a c = true → used sb a1 c = true) as Hu1.
  { intros c Hc E. rewrite (ad_used _ _ _ _ _ _ _ Had) by done. by rewrite E, orb_true_r. }
  destruct Hm as [Hid Hiw Hf Hsl Hsls Hus Hdi Hold Hnew Hin]. split.
  - done.
  - done.
  - rewrite Hf at 1. by rewrite (ad_fields _ _ _ _ _ _ _ Had).
  - done.
  - intros k Hk Hne. rewrite Hsls by done. rewrite (ad_slot _ _ _ _ _ _ _ Had) by lia. rewrite decide_False by lia. done.
  - auto.
  - intros no Hno Hun Hne. assert (no ≠ b) by (intros ->; rewrite Hun in Hu; done). rewrite Hdi; [|done| |congruence].
    + by apply (ad_disk _ _ _ _ _ _ _ Had).
    + intros [? ?]. apply Hu1; [lia|]. by apply Hun.
  - done.
  - intros _. destruct (Hnew Hs1) as ([? ?] & Hu' & Hz). split_and!; [done| |done].
    destruct (used sb a (slot a' i' bn)) eqn:E; [|done]. rewrite Hu1 in Hu' by (done || lia). done.
  - right. destruct Hin as [->|[? _]]; [|lia]. by rewrite Eb.
Qed.

(** ** What it costs *)

Lemma nfree_put sb a no x : layout sb → no ∉ bitmap sb → nfree sb (x_put no x a) = nfree sb a.
Proof.
  intros Hly Hno. unfold nfree. f_equal. apply set_eq. intros b. rewrite !elem_of_free. split.
  - intros [? Hu]. split; [done|]. by rewrite used_put_data in Hu.
  - intros [? Hu]. split; [done|]. by rewrite used_put_data.
Qed.
Lemma ind_log_mono a a' i i' : ind i' = ind i → x_logged a ⊆ x_logged a' → (ind_log a' i' ≤ ind_log a i)%nat.
Proof. intros E H. unfold ind_log. rewrite E. case_decide; case_decide; try lia. set_solver. Qed.
Lemma res_put sb a i n no x : layout sb → no ∉ bitmap sb → res sb a i (S n) → res sb (x_put no x a) i n.
Proof.
  intros Hly Hno [Hb Hn]. pose proof (ind_log_mono a (x_put no x a) i i eq_refl ltac:(set_solver)) as Hl. split.
  - apply budget_put. eapply budget_le; [|exact Hb]. lia.
  - rewrite nfree_put by done. lia.
Qed.
Lemma res_put_logged sb a i n no x : layout sb → no ∉ bitmap sb → no ∈ x_logged a → res sb a i n → res sb (x_put no x a) i n.
Proof.
  intros Hly Hno Hin [Hb Hn]. pose proof (ind_log_mono a (x_put no x a) i i eq_refl ltac:(set_solver)) as Hl. split.
  - apply budget_map; [set_solver|]. eapply budget_le; [|exact Hb]. lia.
  - by rewrite nfree_put.
Qed.
Lemma alloc_logged sb a b : b ∈ x_logged (x_alloc sb b a).
Proof. simpl. set_solver. Qed.
Lemma alloc_logged_sub sb a b : x_logged a ⊆ x_logged (x_alloc sb b a).
Proof. simpl. set_solver. Qed.
Lemma res_alloc sb a i n b i' : layout sb → (∀ no, is_block (x_disk a no)) → in_data sb b → used sb a b = false →
  ind i' = ind i → res sb a i (S n) → res sb (x_alloc sb b a) i' n.
Proof.
  intros Hly Hblk Hb Hu E [Hbud Hn]. pose proof (ind_log_mono a (x_alloc sb b a) i i' E (alloc_logged_sub _ _ _)) as Hl. split.
  - apply alloc_budget; [done..|]. eapply budget_le; [|exact Hbud]. lia.
  - rewrite (nfree_alloc sb a b) in Hn by done. unfold ind_new in *. rewrite E. lia.
Qed.
Lemma res_alloc_ind sb a i n b i' : layout sb → (∀ no, is_block (x_disk a no)) → in_data sb b → used sb a b = false →
  ind i = 0 → ind i' = b → res sb a i n → res sb (x_alloc sb b a) i' n.
Proof.
  intros Hly Hblk Hb Hu E E' [Hbud Hn]. pose proof (layout_order _ Hly). pose proof Hb as [? ?].
  unfold ind_log, ind_new in *. rewrite decide_False in Hbud by tauto. rewrite decide_True in Hn by done. split.
  - unfold ind_log. rewrite decide_True by (rewrite E'; split; [lia|apply alloc_logged]).
    apply alloc_budget; [done..|]. eapply budget_le; [|exact Hbud]. lia.
  - unfold ind_new. rewrite decide_False by lia. rewrite (nfree_alloc sb a b) in Hn by done. lia.
Qed.
Lemma res_put_ind sb a i n x : layout sb → ind i ≠ 0 → ind i ∉ bitmap sb → res sb a i n → res sb (x_put (ind i) x a) i n.
Proof.
  intros Hly Hi Hno [Hb Hn]. split; [|by rewrite nfree_put]. unfold ind_log in *. simpl x_logged.
  rewrite (decide_True (P := ind i ≠ 0 ∧ ind i ∈ {[ind i]} ∪ x_logged a)) by set_solver. case_decide as Hd.
  - apply budget_map; [set_solver|done].
  - apply budget_put. eapply budget_le; [|exact Hb]. lia.
Qed.

(** ** Its specification *)

Definition bmap_post (sb : superblock) s a (ip : nat) i (bn : Z) (n : nat) (Q : Z → state → Prop) : Prop :=
  ∀ a' i' d', mapped sb a i bn a' i' → x_rep d' a' →
    (∀ x, res sb (x_put (slot a' i' bn) x a') i' n) → Q (slot a' i' bn) (fs_put s ip i' d').

Lemma held_ready sb a i b x : layout sb → idle sb a → iwf sb a i → ind i ≠ 0 →
  ready sb (x_hold b (ind i) x a).
Proof.
  intros Hly Hid Hi Hind. destruct (iw_data _ _ _ Hi MAXFILE) as [Hd Hu]; [done|by rewrite slot_max|].
  rewrite slot_max in Hd, Hu.
  assert (∀ no, no ≠ ind i → x_free (x_hold b (ind i) x a) no) as Hf.
  { intros no Hno b' y. simpl. rewrite (id_bufs _ _ Hid). rewrite lookup_insert_Some, lookup_empty.
    intros [[_ <-]|[_ ?]]; [|done]. simpl. congruence. }
  split.
  - simpl. rewrite (id_bufs _ _ Hid), map_size_insert, lookup_empty, map_size_empty. lia.
  - intros no Hno. apply Hf. intros ->. by apply (data_not_map sb (ind i)).
  - intros c Hc E. apply Hf. intros ->. change (used sb a (ind i) = false) in E. congruence.
Qed.
Lemma x_alloc_hold sb b a h no x : x_alloc sb b (x_hold h no x a) = x_hold h no x (x_alloc sb b a).
Proof. done. Qed.
Lemma bmap_indirect s a ip i bn n (Q : Z → state → Prop) :
  rep s a → layout (fs_sb s) → idle (fs_sb s) a → it_inode s !! ip = Some i → iwf (fs_sb s) a i →
  NDIRECT ≤ bn < MAXFILE → ind i ≠ 0 → slot a i bn = 0 → res (fs_sb s) a i (S n) →
  bmap_post (fs_sb s) s a ip i bn n Q →
  wp (let! bp := fs_bread ROOTDEV (ind i) in
      let! d := fs_data bp in
      let addr := get 4 d (4 * (bn - NDIRECT)) in
      if addr =? 0 then
        let! addr := balloc ROOTDEV in
        do! fs_set_data bp (put 4 d (4 * (bn - NDIRECT)) addr);
        do! fs_log_write bp;
        do! fs_brelse bp;
        ret addr
      else
        do! fs_brelse bp;
        ret addr) Q s.
Proof.
  intros Hr Hly Hid Hip Hi Hbn Hind Hs Hres HQ.
  destruct (iw_data _ _ _ Hi MAXFILE) as [Hd Hu]; [done|by rewrite slot_max|]. rewrite slot_max in Hd, Hu.
  pose proof (λ no, x_disk_ok _ _ no Hr) as Hblk. pose proof (data_not_map _ _ Hly Hd) as Hnm.
  apply wp_bind. eapply wp_fs_bread; [done|by eapply data_block|by eapply idle_free|by eapply idle_few|].
  intros b d1 Hb1 H1. apply wp_bind. eapply wp_fs_data; [exact H1|apply x_hold_lookup|]. cbv zeta.
  assert (get 4 (x_disk a (ind i)) (4 * (bn - NDIRECT)) = 0) as Hg.
  { revert Hs. unfold slot. destruct (Z.ltb_spec bn NDIRECT); [lia|]. destruct (Z.eqb_spec bn MAXFILE); [lia|].
    by destruct (Z.eqb_spec (ind i) 0). }
  rewrite Hg. simpl Z.eqb. cbv iota. apply wp_bind.
  eapply balloc_spec; [exact H1|done|apply (id_map _ _ Hid)|by apply held_ready| | |].
  { destruct Hres as [Hbud _]. eapply (budget_le (fs_sb s) a); [|exact Hbud]. lia. }
  { destruct Hres as [_ Hn]. apply (nfree_pos (fs_sb s) a). lia. }
  intros nb d2 Hnb Hunb _ H2. rewrite x_alloc_hold in H2. change (used (fs_sb s) a nb = false) in Hunb.
  pose proof (added_indirect _ a i bn nb Hly Hi Hblk Hbn Hind Hs Hnb Hunb) as Had.
  assert (0 ≤ bn < MAXFILE) as Hbn' by (unfold NDIRECT in *; lia).
  set (a' := x_put _ _ _) in Had.
  assert (map_ok (fs_sb s) a') as Hmap'.
  { intros c Hc. unfold a'. pose proof (layout_order _ Hly). rewrite used_put_data by (done || lia).
    apply alloc_map_ok; [done..|apply (id_map _ _ Hid)|done]. }
  pose proof (added_mapped _ a i bn nb a' i Hly Hi Hbn' Hs Hnb Hunb Had (id_bufs _ _ Hid) Hmap') as Hm.
  assert (slot a' i bn = nb) as Es by (rewrite (ad_slot _ _ _ _ _ _ _ Had) by lia; by rewrite decide_True).
  assert (∀ x, res (fs_sb s) (x_put nb x a') i n) as Hres'.
  { intros x. apply res_put_logged; [done|by apply data_not_map|unfold a'; simpl; set_solver|].
    apply res_put_ind; [done..|]. by apply (res_alloc _ a i). }
  eapply wp_commit; [exact H2|done| | |].
  - apply put_block; [done|lia|]. rewrite MAXFILE_eq in Hbn. unfold NDIRECT, BSIZE in *. simpl. lia.
  - apply (budget_log (fs_sb s)). destruct (res_alloc _ a i n nb i Hly Hblk Hnb Hunb eq_refl Hres) as [Hbud _].
    unfold ind_log in Hbud. case_decide as Hl; [right|left].
    + split; [eapply budget_le; [|exact Hbud]; lia|]. simpl. set_solver.
    + eapply budget_le; [|exact Hbud]. lia.
  - intros d3 H3. apply wp_ret. rewrite <- Es. specialize (HQ a' i d3 Hm H3).
    rewrite fs_put_id in HQ by done. apply HQ. by rewrite Es.
Qed.

(** A new entry of [addrs]. *)
Lemma bmap_addrs s a ip i k0 b d1 :
  rep s a → layout (fs_sb s) → idle (fs_sb s) a → it_inode s !! ip = Some i → iwf (fs_sb s) a i →
  0 ≤ k0 < NDIRECT ∨ k0 = MAXFILE → slot a i k0 = 0 →
  in_data (fs_sb s) b → used (fs_sb s) a b = false → x_rep d1 (x_alloc (fs_sb s) b a) →
  let n := Z.to_nat (if k0 =? MAXFILE then NDIRECT else k0) in
  let i' := i_set_addrs (<[n := b]> (i_addrs i)) i in
  let s' := fs_put s ip i' d1 in
  added (fs_sb s) a i k0 b (x_alloc (fs_sb s) b a) i' ∧ iwf (fs_sb s) (x_alloc (fs_sb s) b a) i' ∧
  idle (fs_sb s) (x_alloc (fs_sb s) b a) ∧ it_inode s' !! ip = Some i'.
Proof.
  intros Hr Hly Hid Hip Hi Hk0 Hs Hb Hu H1 n i' s'. pose proof (λ no, x_disk_ok _ _ no Hr) as Hblk.
  pose proof (added_direct _ a i k0 b Hly Hi Hblk Hk0 Hs Hb Hu) as Had.
  assert (0 ≤ k0 ≤ MAXFILE) by (rewrite MAXFILE_eq in *; unfold NDIRECT in *; lia). split_and!.
  - exact Had.
  - by apply (added_iwf _ a i k0 b).
  - split; [apply (id_bufs _ _ Hid)|]. apply alloc_map_ok; [done..|apply (id_map _ _ Hid)].
  - simpl. apply list_lookup_insert_eq. by eapply lookup_lt_Some.
Qed.
Lemma slot_direct a i bn : bn < NDIRECT → slot a i bn = default 0 (i_addrs i !! Z.to_nat bn).
Proof. intros. unfold slot. by destruct (Z.ltb_spec bn NDIRECT); [|lia]. Qed.
Lemma res_budget sb a i n : res sb a i (S n) → budget sb a 1.
Proof. intros [H _]. eapply budget_le; [|exact H]. lia. Qed.
Lemma res_free sb a i n : res sb a i (S n) → ∃ b, 0 ≤ b < sb_size sb ∧ used sb a b = false.
Proof. intros [_ H]. apply nfree_pos. lia. Qed.

Lemma bmap_direct s a ip i bn n (Q : Z → state → Prop) :
  rep s a → layout (fs_sb s) → idle (fs_sb s) a → it_inode s !! ip = Some i → iwf (fs_sb s) a i →
  0 ≤ bn < NDIRECT → slot a i bn = 0 → res (fs_sb s) a i (S n) →
  bmap_post (fs_sb s) s a ip i bn n Q → wp (bmap ip bn) Q s.
Proof.
  intros Hr Hly Hid Hip Hi Hbn Hs Hres HQ. unfold bmap. apply wp_bind. eapply wp_geti; [done|].
  destruct (Z.ltb_spec bn NDIRECT); [|lia]. cbv zeta. rewrite slot_direct in Hs by lia. rewrite Hs. simpl Z.eqb. cbv iota.
  rewrite <- (slot_direct a) in Hs by lia. rewrite (iw_dev _ _ _ Hi). apply wp_bind.
  eapply balloc_spec; [done|done|apply (id_map _ _ Hid)|by apply idle_ready|by eapply res_budget|by eapply res_free|].
  intros b d1 Hb Hu _ H1. apply wp_bind. eapply wp_updi; [done|]. apply wp_ret.
  destruct (bmap_addrs s a ip i bn b d1) as (Had & Hiw & Hid' & _); [try done..|by left|done|done|done|done|].
  assert ((bn =? MAXFILE) = false) as E by (apply Z.eqb_neq; rewrite MAXFILE_eq; unfold NDIRECT in *; lia). rewrite E in *.
  set (i' := i_set_addrs _ i) in *. set (a' := x_alloc (fs_sb s) b a) in *.
  assert (0 ≤ bn < MAXFILE) as Hbn' by (rewrite MAXFILE_eq; unfold NDIRECT in *; lia).
  assert (slot a' i' bn = b) as Es by (rewrite (ad_slot _ _ _ _ _ _ _ Had) by lia; by rewrite decide_True).
  rewrite <- Es at 1. apply HQ.
  - by apply (added_mapped _ a i bn b a' i'); [..|apply Hid'|apply Hid'].
  - done.
  - intros x. rewrite Es. apply res_put_logged; [done|by apply data_not_map|apply alloc_logged|].
    pose proof (λ no, x_disk_ok _ _ no Hr) as Hblk. apply (res_alloc _ a i); try done.
    unfold ind, i'. simpl. rewrite list_lookup_insert_ne; [done|].
    unfold NDIRECT in *. lia.
Qed.
Lemma bmap_spec s a ip i bn n (Q : Z → state → Prop) :
  rep s a → layout (fs_sb s) → idle (fs_sb s) a → it_inode s !! ip = Some i → iwf (fs_sb s) a i →
  0 ≤ bn < MAXFILE → res (fs_sb s) a i (S n) → bmap_post (fs_sb s) s a ip i bn n Q → wp (bmap ip bn) Q s.
Proof.
  intros Hr Hly Hid Hip Hi Hbn Hres HQ. destruct (decide (slot a i bn = 0)) as [Hs|Hs].
  2: { eapply bmap_found; [done..|]. intros d' Hd. specialize (HQ a i d'). rewrite fs_put_id in HQ by done.
       apply HQ; [by apply mapped_refl|done|]. intros x. apply res_put; [done| |done].
       apply (slot_range_not_map _ a i); [done..|lia|done]. }
  destruct (decide (bn < NDIRECT)); [by eapply bmap_direct; [..|lia| | |]|].
  unfold bmap. apply wp_bind. eapply wp_geti; [done|]. destruct (Z.ltb_spec bn NDIRECT); [lia|]. cbv zeta.
  destruct (Z.ltb_spec (bn - NDIRECT) NINDIRECT) as [_|Hge'].
  2: { rewrite MAXFILE_eq in *. change NINDIRECT with 256 in *. unfold NDIRECT in *. lia. }
  fold (ind i). rewrite (iw_dev _ _ _ Hi). destruct (Z.eqb_spec (ind i) 0) as [Hind|Hind].
  2: { apply wp_bind, wp_ret. by eapply bmap_indirect; [..|lia| | | |]. }
  apply wp_bind, wp_bind.
  eapply balloc_spec; [done|done|apply (id_map _ _ Hid)|by apply idle_ready|by eapply res_budget|by eapply res_free|].
  intros b d1 Hb Hu _ H1. apply wp_bind. eapply wp_updi; [done|]. apply wp_ret.
  destruct (bmap_addrs s a ip i MAXFILE b d1) as (Had & Hiw & Hid' & Hip'); [try done..|by right|done|done|done|done|].
  rewrite Z.eqb_refl in *. set (i' := i_set_addrs _ i) in *. set (a' := x_alloc (fs_sb s) b a) in *.
  assert (ind i' = b) as Eb.
  { rewrite <- (slot_max a'), (ad_slot _ _ _ _ _ _ _ Had) by done. by rewrite decide_True. }
  assert (b ≠ 0) by (pose proof (layout_order _ Hly); destruct Hb; lia).
  assert (slot a' i' bn = 0) as Hs'.
  { rewrite (ad_slot _ _ _ _ _ _ _ Had) by lia. rewrite decide_False by lia. done. }
  pose proof (λ no, x_disk_ok _ _ no Hr) as Hblk.
  rewrite <- Eb. eapply (bmap_indirect (fs_put s ip i' d1) a' ip i'); [done|done|done|done|done|lia|congruence|done| |].
  - by apply (res_alloc_ind _ a i).
  - intros a2 i2 d2 Hm H2 Hr2. rewrite fs_put_put. apply HQ; [|done..].
    by apply (mapped_after _ a i bn b a' i'); [..|lia| | | | |].
Qed.
End file.
