(* ===== verification/FsIo.v ===== *)
(** kernel/fs.c, reading and writing: a file as the sequence of its bytes,
    which readi delivers and writei changes. *)

From S2P Require Import Prelude Riscv Mem Spinlock Sleeplock Kalloc Vm PageTable Mapping UserMem UserCopy.
From S2P Require Import Bio FsLayout ProcMem Fs FsBlocks FsFile.

(** * The bytes of a file *)

Definition fbyte (a : atx) (i : inode) (p : Z) : Z :=
  default 0 (x_disk a (slot a i (p / BSIZE)) !! Z.to_nat (p `mod` BSIZE)).
Definition fbytes (a : atx) (i : inode) (p : Z) (n : nat) : list Z :=
  (λ k, fbyte a i (p + Z.of_nat k)) <$> seq 0 n.

Lemma length_fbytes a i p n : length (fbytes a i p n) = n.
Proof. unfold fbytes. by rewrite length_fmap, length_seq. Qed.
Lemma fbytes_lookup a i p n k : (k < n)%nat → fbytes a i p n !! k = Some (fbyte a i (p + Z.of_nat k)).
Proof. intros Hk. unfold fbytes. by rewrite list_lookup_fmap, lookup_seq_lt. Qed.
Lemma fbytes_app a i p n m : fbytes a i p (n + m) = fbytes a i p n ++ fbytes a i (p + Z.of_nat n) m.
Proof.
  unfold fbytes. rewrite seq_app, fmap_app. f_equal. apply list_eq. intros k.
  rewrite !list_lookup_fmap. destruct (decide (k < m)%nat).
  - rewrite !lookup_seq_lt by done. simpl. do 2 f_equal. lia.
  - by rewrite !lookup_seq_ge by lia.
Qed.
Lemma BSIZE_eq : BSIZE = 1024. Proof. done. Qed.
Lemma bmod p : 0 ≤ p `mod` BSIZE < BSIZE.
Proof. apply Z.mod_pos_bound. done. Qed.
(** A part of one block. *)
Lemma fbytes_chunk a i p m :
  is_block (x_disk a (slot a i (p / BSIZE))) → 0 ≤ p → p `mod` BSIZE + Z.of_nat m ≤ BSIZE →
  get_bytes (x_disk a (slot a i (p / BSIZE))) (Z.to_nat (p `mod` BSIZE)) m = fbytes a i p m.
Proof.
  intros [Hl _] Hp Hm. pose proof (bmod p). apply list_eq. intros k. rewrite get_bytes_lookup. case_decide as Hk.
  - rewrite fbytes_lookup by done. unfold fbyte.
    assert ((p + Z.of_nat k) / BSIZE = p / BSIZE ∧ (p + Z.of_nat k) `mod` BSIZE = p `mod` BSIZE + Z.of_nat k) as [-> ->].
    { rewrite BSIZE_eq in *. dlia. }
    replace (Z.to_nat (p `mod` BSIZE + Z.of_nat k)) with (Z.to_nat (p `mod` BSIZE) + k)%nat by lia.
    destruct (lookup_lt_is_Some_2 (x_disk a (slot a i (p / BSIZE))) (Z.to_nat (p `mod` BSIZE) + k)) as [x ->]; [|done].
    rewrite Hl. lia.
  - symmetry. apply lookup_ge_None_2. rewrite length_fbytes. lia.
Qed.

Section io.
Context {D : Type} `{BS : BlockStore D} {BSok : BlockStoreOk D} {L : Linker}.
Abbreviation state := (fsys (D:=D)).
Implicit Types s : state.
Implicit Types a : atx.
Implicit Types i : inode.
Context (pagetable : Z).

(** * Chunks *)

(** The blocks an access to [n] bytes at [off] has left to visit. *)
Definition blocks_left (off n tot : Z) : nat :=
  if tot <? n then Z.to_nat ((off + n - 1) / BSIZE - (off + tot) / BSIZE + 1) else 0.
Definition chunk_len (n tot off' : Z) : Z := Z.min (n - tot) (BSIZE - off' `mod` BSIZE).
Lemma chunk_pos n tot off' : tot < n → 0 < chunk_len n tot off' ≤ BSIZE ∧ tot + chunk_len n tot off' ≤ n ∧
  off' `mod` BSIZE + chunk_len n tot off' ≤ BSIZE.
Proof. intros Ht. unfold chunk_len. pose proof (bmod off'). lia. Qed.
Lemma blocks_left_next off n tot : 0 ≤ off → 0 ≤ tot < n →
  blocks_left off n tot = S (blocks_left off n (tot + chunk_len n tot (off + tot))).
Proof.
  intros Ho Ht. unfold blocks_left, chunk_len. rewrite BSIZE_eq in *. destruct (Z.ltb_spec tot n); [|lia].
  case_cmp; dlia.
Qed.
Lemma blocks_left_fuel off n : 0 ≤ off → 0 ≤ n → (blocks_left off n 0 < Z.to_nat (n / BSIZE) + 3)%nat.
Proof. intros Ho Hn. unfold blocks_left. rewrite BSIZE_eq in *. case_cmp; dlia. Qed.

(** * readi *)

(** A place to copy to: what is there after the bytes [bs] have been copied,
    or after an attempt that failed. *)
Definition sink (user_dst : bool) (dst n : Z) (W : list Z → kmem → Prop) (F : kmem → Prop) : Prop :=
  ∀ bs c m, W bs m → bytes c → Z.of_nat (length bs) + Z.of_nat (length c) ≤ n →
    wp (either_copyout pagetable user_dst (u64 (dst + Z.of_nat (length bs))) c)
      (λ r m', r = 0 ∧ W (bs ++ c) m' ∨ r = -1 ∧ F m') m.
Definition fs_io s (d : D) (m : kmem) : state := Fsys d (fs_sb s) (it_lock s) (it_inode s) m.

Lemma u64_add x k m : u64 (u64 (x + k) + m) = u64 (x + (k + m)).
Proof. unfold u64. rewrite Zplus_mod_idemp_l. f_equal. lia. Qed.
Lemma slot_visited sb a i p : iwf sb a i → 0 ≤ p < i_size i →
  0 ≤ p / BSIZE < MAXFILE ∧ slot a i (p / BSIZE) ≠ 0.
Proof.
  intros Hi Hp. pose proof (iw_size _ _ _ Hi) as Hsz. rewrite MAXFILE_eq in *.
  split; [rewrite BSIZE_eq in *; dlia|]. apply (iw_full _ _ _ Hi); rewrite BSIZE_eq in *; dlia.
Qed.
Lemma wp_memory {A} s (m : M kmem A) (Q : A → state → Prop) :
  wp m (λ r k, Q r (set_fs_mem k s)) (fs_mem s) → wp (memory m) Q s.
Proof. apply wp_zoom. Qed.

Lemma readi_round_spec s a ip i user_dst dst W F off n tot (Q : Z * Z * Z + Z → state → Prop) :
  rep s a → layout (fs_sb s) → idle (fs_sb s) a → it_inode s !! ip = Some i → iwf (fs_sb s) a i →
  0 ≤ off → 0 ≤ tot < n → off + n ≤ i_size i → sink user_dst dst n W F →
  W (fbytes a i off (Z.to_nat tot)) (fs_mem s) →
  (∀ d' m', let m := chunk_len n tot (off + tot) in
     x_rep d' a → W (fbytes a i off (Z.to_nat (tot + m))) m' →
     Q (inl (tot + m, off + (tot + m), u64 (dst + (tot + m)))) (fs_io s d' m')) →
  (∀ d' m', x_rep d' a → F m' → Q (inr (-1)) (fs_io s d' m')) →
  wp (readi_round pagetable ip user_dst n (tot, off + tot, u64 (dst + tot))) Q s.
Proof.
  intros Hr Hly Hid Hip Hi Ho Ht Hsz Hsink HW Hnext Hfail. unfold readi_round.
  destruct (Z.ltb_spec tot n); [|lia]. destruct (slot_visited _ _ _ (off + tot) Hi) as [Hbn Hs]; [lia|].
  apply wp_bind. eapply bmap_found; [done..|]. intros d1 H1. apply wp_bind. eapply wp_geti; [done|].
  rewrite (iw_dev _ _ _ Hi). destruct (iw_data _ _ _ Hi ((off + tot) / BSIZE)) as [Hd _]; [lia|done|].
  apply wp_bind. eapply wp_fs_bread; [exact H1|by eapply data_block|by eapply idle_free|by eapply idle_few|].
  intros b d2 Hb2 H2. cbv zeta. fold (chunk_len n tot (off + tot)).
  destruct (chunk_pos n tot (off + tot)) as (Hm1 & Hm2 & Hm3); [lia|]. set (m := chunk_len n tot (off + tot)) in *.
  apply wp_bind. eapply wp_fs_data; [exact H2|apply x_hold_lookup|].
  pose proof (x_disk_ok _ _ (slot a i ((off + tot) / BSIZE)) Hr) as Hblk.
  rewrite fbytes_chunk by (done || lia). apply wp_bind, wp_memory.
  assert (bytes (fbytes a i (off + tot) (Z.to_nat m))) as Hbytes.
  { rewrite <- fbytes_chunk by (done || lia). apply Forall_take, Forall_drop, Hblk. }
  pose proof (Hsink _ _ _ HW Hbytes) as Hc. rewrite !length_fbytes, !Z2Nat.id in Hc by lia. specialize (Hc ltac:(lia)).
  eapply wp_mono; [exact Hc|]. intros r m' [[-> HW']|[-> HF]]; simpl Z.eqb; cbv iota; apply wp_bind.
  - eapply wp_release; [exact H2|done|]. intros d3 H3. apply wp_ret.
    replace (off + tot + m) with (off + (tot + m)) by lia. rewrite u64_add. apply Hnext; [done|].
    rewrite Z2Nat.inj_add, fbytes_app, Z2Nat.id by lia. done.
  - eapply wp_release; [exact H2|done|]. intros d3 H3. apply wp_ret. by apply Hfail.
Qed.
Lemma readi_spec s a ip i user_dst dst W F off n :
  rep s a → layout (fs_sb s) → idle (fs_sb s) a → it_inode s !! ip = Some i → iwf (fs_sb s) a i →
  fits 64 dst → fits 32 off → fits 32 n → off ≤ i_size i → off + n < 2 ^ 32 →
  sink user_dst dst n W F → W [] (fs_mem s) →
  wp (readi pagetable ip user_dst dst off n) (λ r s', ∃ d' m', s' = fs_io s d' m' ∧ x_rep d' a ∧
    let k := Z.min n (i_size i - off) in
    (r = k ∧ W (fbytes a i off (Z.to_nat k)) m' ∨ r = -1 ∧ F m')) s.
Proof.
  intros Hr Hly Hid Hip Hi Hdst [Ho Ho'] [Hn Hn'] Hoff Hsum Hsink HW. unfold readi. apply wp_bind.
  eapply wp_geti; [done|]. pose proof (iw_size _ _ _ Hi) as Hsz.
  assert (u32 (off + n) = off + n) as E by (apply Z.mod_small; lia). rewrite E.
  destruct (Z.ltb_spec (i_size i) off); [lia|]. destruct (Z.ltb_spec (off + n) off); [lia|]. simpl orb. cbv iota zeta.
  set (k := if i_size i <? off + n then i_size i - off else n).
  assert (k = Z.min n (i_size i - off)) as Ek by (subst k; case_cmp; lia). rewrite <- Ek. clearbody k.
  apply wp_bind.
  eapply (wp_loop _ (λ '(tot, off', dst') s1, ∃ d1 m1, s1 = fs_io s d1 m1 ∧ x_rep d1 a ∧ 0 ≤ tot ≤ k ∧
    off' = off + tot ∧ dst' = u64 (dst + tot) ∧ W (fbytes a i off (Z.to_nat tot)) m1)
    (λ '(tot, _, _) _, blocks_left off k tot)).
  - intros [[tot off'] dst'] s1 (d1 & m1 & -> & H1 & Ht & -> & -> & HW1).
    destruct (decide (tot < k)) as [Hlt|Hge].
    + eapply readi_round_spec; [exact H1|done..|lia|lia| |done| |].
      { intros bs c m3 HW3 Hc Hl. apply Hsink; [done..|lia]. }
      * intros d2 m2 m H2 HW2. destruct (chunk_pos k tot (off + tot) Hlt) as (? & ? & _).
        split; [exists d2, m2; split_and!; try done; lia|]. subst m. rewrite (blocks_left_next off k tot) by lia. lia.
      * intros d2 m2 H2 HF. apply wp_ret. exists d2, m2. split_and!; try done. by right.
    + unfold readi_round. destruct (Z.ltb_spec tot k); [lia|]. apply wp_ret, wp_ret. exists d1, m1. split_and!; try done.
      left. assert (tot = k) as -> by lia. split; [apply s32_id; rewrite MAXFILE_eq, BSIZE_eq in *; lia|done].
  - exists (fs_d s), (fs_mem s). split_and!; [by destruct s|done|lia|lia|lia|..|done].
    rewrite Z.add_0_r. symmetry. by apply Z.mod_small.
  - apply blocks_left_fuel; lia.
Qed.

(** * writei *)

Record wrote (sb : superblock) a i (off : Z) (bs : list Z) a' i' : Prop := {
  wr_idle : idle sb a';
  wr_iwf : iwf sb a' i';
  wr_fields : i' = i_set_addrs (i_addrs i') i;
  wr_full : ∀ k, 0 ≤ k → k * BSIZE < Z.max (i_size i) (off + Z.of_nat (length bs)) → slot a' i' k ≠ 0;
  wr_bytes : ∀ p, 0 ≤ p < Z.max (i_size i) (off + Z.of_nat (length bs)) →
    fbyte a' i' p = if decide (off ≤ p < off + Z.of_nat (length bs))
                    then default 0 (bs !! Z.to_nat (p - off)) else fbyte a i p;
  wr_used : ∀ c, 0 ≤ c < sb_size sb → used sb a c = true → used sb a' c = true;
  wr_slots : ∀ k, 0 ≤ k ≤ MAXFILE → slot a' i' k ≠ 0 →
    slot a' i' k = slot a i k ∨ in_data sb (slot a' i' k) ∧ used sb a (slot a' i' k) = false;
  wr_disk : ∀ no, no ∉ bitmap sb → (in_data sb no → used sb a no = true) →
    (∀ k, 0 ≤ k ≤ MAXFILE → slot a i k = no → no = 0) → x_disk a' no = x_disk a no;
}.
Lemma wrote_refl sb a i off : idle sb a → iwf sb a i → 0 ≤ off ≤ i_size i → wrote sb a i off [] a i.
Proof.
  intros Hid Hi Ho. split; try done.
  - by destruct i.
  - intros k Hk Hlt. apply (iw_full _ _ _ Hi); [done|]. simpl in Hlt. lia.
  - intros p Hp. simpl. rewrite decide_False; [done|lia].
  - by left.
Qed.

(** ** Changing the data of one block of the file *)

Section put.
Context (sb : superblock) (a : atx) (i : inode) (bn : Z) (x : block).
Context (Hly : layout sb) (Hi : iwf sb a i) (Hbn : 0 ≤ bn < MAXFILE) (Hs : slot a i bn ≠ 0).
Abbreviation addr := (slot a i bn).
Lemma put_ind : ind i ≠ addr.
Proof using Hi Hbn Hs.
  intros E. assert (MAXFILE = bn); [|lia]. apply (iw_inj _ _ _ Hi); [done|lia|by rewrite slot_max|done].
Qed.
Lemma put_slot k : slot (x_put addr x a) i k = slot a i k.
Proof using Hi Hbn Hs.
  unfold slot at 1. pose proof put_ind as Hne. rewrite x_put_ne by done. done.
Qed.
Lemma put_not_map : addr ∉ bitmap sb.
Proof using Hly Hi Hbn Hs. apply (slot_range_not_map _ a i); [done..|lia|done]. Qed.
Lemma put_used c : 0 ≤ c < sb_size sb → used sb (x_put addr x a) c = used sb a c.
Proof using Hly Hi Hbn Hs. intros. apply used_put_data; [apply put_not_map|done..]. Qed.
Lemma put_iwf : iwf sb (x_put addr x a) i.
Proof using Hly Hi Hbn Hs.
  destruct Hi as [? ? ? ? Hdata Hinj Hfull]. pose proof (layout_order _ Hly). split; try done.
  - intros k Hk. rewrite put_slot. intros Hk'. destruct (Hdata k Hk Hk') as [[? ?] ?]. split; [done|].
    rewrite put_used by lia. done.
  - intros j k ? ?. rewrite !put_slot. by apply Hinj.
  - intros k ? ?. rewrite put_slot. by apply Hfull.
Qed.
Lemma put_idle : idle sb a → idle sb (x_put addr x a).
Proof using Hly Hi Hbn Hs.
  intros [Hb Hm]. split; [done|]. intros c Hc. pose proof (layout_order _ Hly). rewrite put_used by lia. by apply Hm.
Qed.
Lemma put_fbyte p : fbyte (x_put addr x a) i p =
  if decide (slot a i (p / BSIZE) = addr) then default 0 (x !! Z.to_nat (p `mod` BSIZE)) else fbyte a i p.
Proof using Hi Hbn Hs.
  unfold fbyte. rewrite put_slot. case_decide as E.
  - by rewrite E, x_put_eq.
  - by rewrite x_put_ne.
Qed.
End put.

(** ** One round *)

Lemma mapped_fbyte sb a i bn a' i' p :
  layout sb → iwf sb a i → 0 ≤ bn < MAXFILE → mapped sb a i bn a' i' → 0 ≤ p / BSIZE < MAXFILE →
  slot a i (p / BSIZE) ≠ 0 → fbyte a' i' p = fbyte a i p.
Proof.
  intros Hly Hi Hbn Hm Hp Hs. unfold fbyte. destruct (decide (p / BSIZE = bn)) as [E|Hne].
  - rewrite E in *. by destruct (mp_old _ _ _ _ _ _ Hm Hs) as [-> ->].
  - rewrite (mp_slots _ _ _ _ _ _ Hm) by done. rewrite (mp_disk _ _ _ _ _ _ Hm); [done|..].
    + apply (slot_range_not_map _ a i); [done..|lia|done].
    + intros _. apply (iw_data _ _ _ Hi); [lia|done].
    + rewrite <- (slot_max a). intros E. assert (p / BSIZE = MAXFILE); [|lia]. apply (iw_inj _ _ _ Hi); [lia|done|done|].
      by rewrite <- E.
Qed.

Section step.
Context (sb : superblock) (a : atx) (i : inode) (off : Z) (bs : list Z) (a1 : atx) (i1 : inode).
Context (a2 : atx) (i2 : inode) (c : list Z).
Abbreviation q := (off + Z.of_nat (length bs)).
Abbreviation bn := (q / BSIZE).
Abbreviation addr := (slot a2 i2 bn).
Abbreviation x := (splice (x_disk a2 addr) (Z.to_nat (q `mod` BSIZE)) c).
Context (Hly : layout sb) (Hblk : ∀ no, is_block (x_disk a2 no)).
Context (Hi : iwf sb a i) (Hoff : 0 ≤ off ≤ i_size i) (Hbn : 0 ≤ bn < MAXFILE).
Context (Hc : q `mod` BSIZE + Z.of_nat (length c) ≤ BSIZE).
Context (Hwr : wrote sb a i off bs a1 i1) (Hm : mapped sb a1 i1 bn a2 i2).

Lemma step_size : i_size i1 = i_size i ∧ i_size i2 = i_size i.
Proof using All.
  pose proof (f_equal i_size (wr_fields _ _ _ _ _ _ _ Hwr)) as E1.
  pose proof (f_equal i_size (mp_fields _ _ _ _ _ _ Hm)) as E2. simpl in E1, E2. split; congruence.
Qed.
Lemma step_range p : 0 ≤ p < Z.max (i_size i) q → 0 ≤ p / BSIZE < MAXFILE ∧ p / BSIZE * BSIZE < Z.max (i_size i) q.
Proof using All.
  pose proof (iw_size _ _ _ Hi) as Hsz. rewrite MAXFILE_eq in *. rewrite BSIZE_eq in *. intros Hp. split; dlia.
Qed.
Lemma step_fbyte p : 0 ≤ p < Z.max (i_size i) (q + Z.of_nat (length c)) →
  fbyte (x_put addr x a2) i2 p =
    if decide (q ≤ p < q + Z.of_nat (length c)) then default 0 (c !! Z.to_nat (p - q)) else fbyte a1 i1 p.
Proof using All.
  intros Hp. pose proof (mp_iwf _ _ _ _ _ _ Hm) as Hi2. pose proof (mp_slot _ _ _ _ _ _ Hm) as Hs2.
  pose proof (wr_iwf _ _ _ _ _ _ _ Hwr) as Hi1.
  rewrite (put_fbyte sb) by done. pose proof (bmod q) as Hqm. pose proof (proj1 (Hblk addr)) as Hlen.
  destruct (decide (p / BSIZE = bn)) as [Ek|Ek].
  - rewrite decide_True by (by rewrite Ek). rewrite splice_lookup by (rewrite Hlen; lia).
    assert (q ≤ p < q + Z.of_nat (length c) ↔
      (Z.to_nat (q `mod` BSIZE) ≤ Z.to_nat (p `mod` BSIZE) < Z.to_nat (q `mod` BSIZE) + length c)%nat) as Hiff.
    { rewrite BSIZE_eq in *. clear -Ek Hc Hp Hoff Hqm. dlia. }
    case_decide as H1; case_decide as H2; [|tauto|tauto|].
    + do 2 f_equal. rewrite BSIZE_eq in *. clear -Ek Hc Hp Hoff H2. dlia.
    + destruct (decide (slot a1 i1 bn = 0)) as [H0|H0].
      * exfalso. destruct (decide (bn * BSIZE < Z.max (i_size i) q)) as [Hlt|Hge].
        { by apply (wr_full _ _ _ _ _ _ _ Hwr bn); [lia|..]. }
        apply H2. rewrite BSIZE_eq in *. clear -Ek Hge Hp Hoff. dlia.
      * destruct (mp_old _ _ _ _ _ _ Hm H0) as [E1 E2]. rewrite E1, E2. unfold fbyte. by rewrite Ek.
  - assert (¬ (q ≤ p < q + Z.of_nat (length c))) as Hout.
    { intros [? ?]. apply Ek. rewrite BSIZE_eq in *. clear -Hc Hqm H H0 Hoff. dlia. }
    assert (0 ≤ p < Z.max (i_size i) q) as Hp' by lia. destruct (step_range p Hp') as [Hr1 Hr2].
    assert (slot a1 i1 (p / BSIZE) ≠ 0) as Hs1 by (by apply (wr_full _ _ _ _ _ _ _ Hwr); [lia|]).
    rewrite (decide_False (P := q ≤ p < _)) by done. rewrite decide_False.
    + by apply (mapped_fbyte sb a1 i1 bn).
    + intros E. apply Ek, (iw_inj _ _ _ Hi2); [lia|lia|done|]. by apply (mp_slot _ _ _ _ _ _ Hm).
Qed.
Lemma wrote_step : wrote sb a i off (bs ++ c) (x_put addr x a2) i2.
Proof using All.
  pose proof (mp_iwf _ _ _ _ _ _ Hm) as Hi2. pose proof (mp_slot _ _ _ _ _ _ Hm) as Hs2.
  pose proof (wr_iwf _ _ _ _ _ _ _ Hwr) as Hi1. pose proof (layout_order _ Hly) as Hord.
  split.
  - by apply (put_idle sb), (mp_idle _ _ _ _ _ _ Hm).
  - by apply put_iwf.
  - rewrite (mp_fields _ _ _ _ _ _ Hm) at 1. rewrite (wr_fields _ _ _ _ _ _ _ Hwr). done.
  - intros k Hk Hlt. rewrite length_app, Nat2Z.inj_add in Hlt. rewrite (put_slot sb) by done.
    destruct (decide (k = bn)) as [->|Hne]; [done|].
    assert (k * BSIZE < Z.max (i_size i) q) as Hlt'.
    { pose proof (bmod q). rewrite BSIZE_eq in *. clear -Hc Hne Hlt Hk Hoff. dlia. }
    assert (0 ≤ k < MAXFILE) as Hkm.
    { pose proof (iw_size _ _ _ Hi). rewrite MAXFILE_eq, BSIZE_eq in *. clear -Hlt' Hk Hbn H. dlia. }
    rewrite (mp_slots _ _ _ _ _ _ Hm) by done. by apply (wr_full _ _ _ _ _ _ _ Hwr).
  - intros p Hp. rewrite length_app, Nat2Z.inj_add in *. rewrite Z.add_assoc in *. rewrite step_fbyte by done.
    case_decide as H1; case_decide as H2; [|lia|..].
    + rewrite lookup_app_r by lia. do 2 f_equal. lia.
    + rewrite (wr_bytes _ _ _ _ _ _ _ Hwr) by lia. rewrite decide_True by lia. by rewrite lookup_app_l by lia.
    + rewrite (wr_bytes _ _ _ _ _ _ _ Hwr) by lia. by rewrite decide_False by lia.
  - intros u Hu E. rewrite (put_used sb) by done. apply (mp_used _ _ _ _ _ _ Hm); [done|].
    by apply (wr_used _ _ _ _ _ _ _ Hwr).
  - intros k Hk. rewrite (put_slot sb) by done. intros Hk'.
    assert (∀ b, in_data sb b → used sb a1 b = false → used sb a b = false) as Hun.
    { intros b [? ?] E. destruct (used sb a b) eqn:E'; [|done]. rewrite (wr_used _ _ _ _ _ _ _ Hwr) in E by (done || lia). done. }
    destruct (decide (k = bn)) as [->|Hkb]; [|destruct (decide (k = MAXFILE)) as [->|Hkm]].
    + destruct (decide (slot a1 i1 bn = 0)) as [H0|H0].
      * destruct (mp_new _ _ _ _ _ _ Hm H0) as (? & ? & _). auto.
      * destruct (mp_old _ _ _ _ _ _ Hm H0) as [E _]. rewrite E. by apply (wr_slots _ _ _ _ _ _ _ Hwr).
    + rewrite slot_max in *. destruct (mp_ind _ _ _ _ _ _ Hm) as [E|(_ & ? & ?)]; [|auto].
      rewrite E in *. rewrite <- (slot_max a1), <- (slot_max a) in *. by apply (wr_slots _ _ _ _ _ _ _ Hwr).
    + rewrite (mp_slots _ _ _ _ _ _ Hm) in * by lia. by apply (wr_slots _ _ _ _ _ _ _ Hwr).
  - intros no Hno Hun Hsl.
    assert (∀ k, 0 ≤ k ≤ MAXFILE → slot a1 i1 k ≠ 0 → slot a1 i1 k ≠ no) as Hsl1.
    { intros k Hk Hk' E. destruct (wr_slots _ _ _ _ _ _ _ Hwr k Hk Hk') as [E'|[Hd E']].
      - rewrite E in *. apply Hk'. by apply (Hsl k).
      - rewrite E in *. rewrite Hun in E'; done. }
    rewrite x_put_ne.
    + rewrite (mp_disk _ _ _ _ _ _ Hm); [by apply (wr_disk _ _ _ _ _ _ _ Hwr)|done|..].
      * intros [? ?]. apply (wr_used _ _ _ _ _ _ _ Hwr); [lia|by apply Hun].
      * intros E. destruct (decide (no = 0)); [done|]. exfalso. rewrite <- (slot_max a1) in E.
        by apply (Hsl1 MAXFILE); [|congruence|].
    + intros ->. destruct (decide (slot a1 i1 bn = 0)) as [H0|H0].
      * destruct (mp_new _ _ _ _ _ _ Hm H0) as (Hd & E & _). rewrite (wr_used _ _ _ _ _ _ _ Hwr) in E; [done| |by apply Hun].
        destruct Hd. lia.
      * destruct (mp_old _ _ _ _ _ _ Hm H0) as [E _]. apply (Hsl1 bn); [lia|done|congruence].
Qed.
End step.

(** ** The inode on disk *)

Lemma addrs_bytes (l : list Z) : bytes (concat (le_split 4 <$> l)) ∧ length (concat (le_split 4 <$> l)) = (4 * length l)%nat.
Proof.
  induction l as [|v l [IH1 IH2]]; [done|]. cbn [fmap list_fmap concat]. rewrite length_app, length_le_split, IH2.
  split; [|simpl; lia]. apply Forall_app. split; [apply le_split_bytes|done].
Qed.
Lemma dip_store_block i off d : is_block d → 0 ≤ off → off + sizeof_dinode ≤ BSIZE → length (i_addrs i) = naddrs →
  is_block (dip_store i off d).
Proof.
  intros Hd Ho Hs Hl. change sizeof_dinode with 64 in Hs. rewrite BSIZE_eq in Hs. unfold dip_store. cbv zeta.
  destruct (addrs_bytes (i_addrs i)) as [Hb Hlen]. apply splice_block.
  - repeat apply put_block; try done; rewrite ?BSIZE_eq; simpl; lia.
  - done.
  - rewrite Hlen, Hl, BSIZE_eq. change naddrs with 13%nat. lia.
Qed.
Lemma dip_off_range inum : 0 ≤ dip_off inum ∧ dip_off inum + sizeof_dinode ≤ BSIZE.
Proof.
  unfold dip_off. change sizeof_dinode with 64. rewrite BSIZE_eq. change IPB with 16.
  pose proof (Z.mod_pos_bound inum 16). lia.
Qed.
Definition x_update (sb : superblock) i a : atx :=
  x_put (IBLOCK (i_inum i) sb) (dip_store i (dip_off (i_inum i)) (x_disk a (IBLOCK (i_inum i) sb))) a.
Lemma iupdate_spec s a ip i (Q : unit → state → Prop) :
  rep s a → layout (fs_sb s) → idle (fs_sb s) a → it_inode s !! ip = Some i → i_dev i = ROOTDEV →
  0 ≤ i_inum i < sb_ninodes (fs_sb s) → length (i_addrs i) = naddrs → budget (fs_sb s) a 1 →
  (∀ d', x_rep d' (x_update (fs_sb s) i a) → Q tt (set_d d' s)) → wp (iupdate ip) Q s.
Proof.
  intros Hr Hly Hid Hip Hdev Hinum Hlen Hbud HQ. unfold iupdate. apply wp_bind, wp_gets, wp_bind.
  eapply wp_geti; [done|]. rewrite Hdev. pose proof (IBLOCK_range _ _ Hly Hinum) as Hib.
  pose proof (layout_order _ Hly) as Ho. apply wp_bind.
  eapply wp_fs_bread; [done|apply (ly_block _ Hly); lia|by eapply idle_free|by eapply idle_few|]. intros b d1 Hb1 H1.
  apply wp_bind. eapply wp_fs_data; [exact H1|apply x_hold_lookup|].
  destruct (dip_off_range (i_inum i)). eapply wp_commit_last; [exact H1|done| |by apply (budget_log (fs_sb s)); left|].
  - apply dip_store_block; [apply (x_disk_ok _ _ _ Hr)|done..].
  - intros d2 H2. by apply HQ.
Qed.

(** A block before the free map is not one of a file. *)
Section meta.
Context (sb : superblock) (a : atx) (i : inode) (no : Z) (x : block).
Context (Hly : layout sb) (Hi : iwf sb a i) (Hno : no < sb_bmapstart sb).
Lemma meta_slot_ne k : 0 ≤ k ≤ MAXFILE → slot a i k ≠ 0 → slot a i k ≠ no.
Proof using Hly Hi Hno. intros Hk Hs. destruct (iw_data _ _ _ Hi k Hk Hs) as [[? ?] _]. pose proof (layout_order _ Hly). lia. Qed.
Lemma meta_slot k : slot (x_put no x a) i k = slot a i k.
Proof using Hly Hi Hno.
  unfold slot. destruct (decide (ind i = 0)) as [E|E].
  - rewrite E. done.
  - rewrite x_put_ne; [done|]. by apply (meta_slot_ne MAXFILE).
Qed.
Lemma meta_not_map : no ∉ bitmap sb.
Proof using Hly Hno. rewrite bitmap_range by done. lia. Qed.
Lemma meta_used c : 0 ≤ c < sb_size sb → used sb (x_put no x a) c = used sb a c.
Proof using Hly Hno. intros. apply used_put_data; [apply meta_not_map|done..]. Qed.
Lemma meta_idle : idle sb a → idle sb (x_put no x a).
Proof using Hly Hno.
  intros [Hb Hm]. split; [done|]. intros c Hc. pose proof (layout_order _ Hly). rewrite meta_used by lia. by apply Hm.
Qed.
Lemma meta_iwf : iwf sb (x_put no x a) i.
Proof using Hly Hi Hno.
  destruct Hi as [? ? ? ? Hdata Hinj Hfull]. pose proof (layout_order _ Hly). split; try done.
  - intros k Hk. rewrite meta_slot. intros Hk'. destruct (Hdata k Hk Hk') as [[? ?] ?]. split; [done|].
    rewrite meta_used by lia. done.
  - intros j k ? ?. rewrite !meta_slot. by apply Hinj.
  - intros k ? ?. rewrite meta_slot. by apply Hfull.
Qed.
Lemma meta_fbyte p : 0 ≤ p < i_size i → fbyte (x_put no x a) i p = fbyte a i p.
Proof using Hly Hi Hno.
  intros Hp. destruct (slot_visited _ _ _ p Hi Hp) as [? ?]. unfold fbyte. rewrite meta_slot, x_put_ne; [done|].
  apply meta_slot_ne; [lia|done].
Qed.
End meta.

(** ** Its specification *)

(** A place to copy from that holds the bytes [bs]. *)
Definition source (user_src : bool) (src : Z) (bs : list Z) (m : kmem) : Prop :=
  ∀ tot k, 0 ≤ tot → 0 ≤ k → tot + k ≤ Z.of_nat (length bs) →
    wp (either_copyin pagetable user_src (u64 (src + tot)) k)
      (λ '(r, b) m', m' = m ∧ r = 0 ∧ b = take (Z.to_nat k) (drop (Z.to_nat tot) bs)) m.

Lemma res_log sb a i n no x : res sb (x_put no x a) i n → (size ({[no]} ∪ x_logged a) ≤ x_cap)%nat.
Proof.
  intros [Hb _]. unfold budget in Hb. simpl in Hb.
  pose proof (subseteq_size ({[no]} ∪ x_logged a) ({[no]} ∪ x_logged a ∪ bitmap sb)). set_solver by lia.
Qed.
Lemma writei_round_spec s a ip i user_src src bs off tot d1 a1 i1 (Q : Z * Z * Z + Z * Z → state → Prop) :
  let n := Z.of_nat (length bs) in let m := chunk_len n tot (off + tot) in
  layout (fs_sb s) → it_inode s !! ip = Some i → iwf (fs_sb s) a i → bytes bs →
  0 ≤ off ≤ i_size i → off + n ≤ MAXFILE * BSIZE → 0 ≤ tot < n → source user_src src bs (fs_mem s) →
  x_rep d1 a1 → wrote (fs_sb s) a i off (take (Z.to_nat tot) bs) a1 i1 →
  res (fs_sb s) a1 i1 (S (S (blocks_left off n (tot + m)))) →
  (∀ d2 a2 i2, x_rep d2 a2 → wrote (fs_sb s) a i off (take (Z.to_nat (tot + m)) bs) a2 i2 →
     res (fs_sb s) a2 i2 (S (blocks_left off n (tot + m))) →
     Q (inl (tot + m, off + (tot + m), u64 (src + (tot + m)))) (fs_put s ip i2 d2)) →
  wp (writei_round pagetable ip user_src n (tot, off + tot, u64 (src + tot))) Q (fs_put s ip i1 d1).
Proof.
  intros n m Hly Hip Hi Hbs Hoff Hmax Ht Hsrc H1 Hwr Hres HQ. unfold writei_round.
  destruct (Z.ltb_spec tot n); [|lia]. destruct (chunk_pos n tot (off + tot)) as (Hm1 & Hm2 & Hm3); [lia|].
  fold m in Hm1, Hm2, Hm3. assert (0 ≤ (off + tot) / BSIZE < MAXFILE) as Hbn.
  { rewrite MAXFILE_eq, BSIZE_eq in *. clear -Hmax Hoff Ht. dlia. }
  assert (it_inode (fs_put s ip i1 d1) !! ip = Some i1) as Hip1.
  { simpl. apply list_lookup_insert_eq. by eapply lookup_lt_Some. }
  apply wp_bind. eapply bmap_spec; [exact H1|done|apply (wr_idle _ _ _ _ _ _ _ Hwr)|done|
    apply (wr_iwf _ _ _ _ _ _ _ Hwr)|done|exact Hres|].
  intros a2 i2 d2 Hm H2 Hres2. rewrite fs_put_put. pose proof (mp_iwf _ _ _ _ _ _ Hm) as Hi2.
  assert (it_inode (fs_put s ip i2 d2) !! ip = Some i2) as Hip2.
  { simpl. apply list_lookup_insert_eq. by eapply lookup_lt_Some. }
  apply wp_bind. eapply wp_geti; [done|]. rewrite (iw_dev _ _ _ Hi2).
  destruct (iw_data _ _ _ Hi2 ((off + tot) / BSIZE)) as [Hd _]; [lia|apply (mp_slot _ _ _ _ _ _ Hm)|].
  apply wp_bind. eapply wp_fs_bread; [exact H2|by eapply data_block|eapply idle_free, (mp_idle _ _ _ _ _ _ Hm)|
    eapply idle_few, (mp_idle _ _ _ _ _ _ Hm)|]. intros b d3 Hb3 H3. cbv zeta.
  fold (chunk_len n tot (off + tot)). fold m. apply wp_bind, wp_memory.
  eapply wp_mono; [apply Hsrc; lia|]. intros [r c] mem' (-> & -> & ->). cbn match beta.
  apply wp_bind. eapply wp_fs_data; [exact H3|apply x_hold_lookup|]. simpl Z.eqb. cbv iota.
  set (c := take (Z.to_nat m) (drop (Z.to_nat tot) bs)).
  assert (Z.of_nat (length c) = m) as Hlc by (unfold c; rewrite length_take, length_drop; lia).
  assert (length (take (Z.to_nat tot) bs) = Z.to_nat tot) as Hlt by (rewrite length_take; lia).
  pose proof (λ no, x_disk_ok _ _ no H2) as Hblk.
  pose proof (wrote_step (fs_sb s) a i off (take (Z.to_nat tot) bs) a1 i1 a2 i2 c) as Hstep.
  rewrite Hlt, Z2Nat.id in Hstep by lia. specialize (Hstep Hly Hblk Hi Hoff Hbn ltac:(lia) Hwr Hm).
  eapply wp_commit; [exact H3|done| |exact (res_log _ _ _ _ _ _ (Hres2 zero_block))|].
  - apply splice_block; [done|apply Forall_take, Forall_drop, Hbs|]. fold c. lia.
  - intros d4 H4. apply wp_ret. replace (off + tot + m) with (off + (tot + m)) by lia. rewrite u64_add.
    apply (HQ d4 _ i2 H4); [|apply Hres2]. rewrite Z2Nat.inj_add by lia. rewrite <- take_take_drop. exact Hstep.
Qed.

(** What writei leaves behind. *)
Record written (sb : superblock) a i (off : Z) (bs : list Z) a' i' : Prop := {
  wn_idle : idle sb a';
  wn_iwf : iwf sb a' i';
  wn_size : i_size i' = Z.max (i_size i) (off + Z.of_nat (length bs));
  wn_fields : i' = i_set_size (i_size i') (i_set_addrs (i_addrs i') i);
  wn_bytes : ∀ p, 0 ≤ p < i_size i' →
    fbyte a' i' p = if decide (off ≤ p < off + Z.of_nat (length bs))
                    then default 0 (bs !! Z.to_nat (p - off)) else fbyte a i p;
  wn_inode : x_disk a' (IBLOCK (i_inum i) sb) =
    dip_store i' (dip_off (i_inum i)) (x_disk a (IBLOCK (i_inum i) sb));
  wn_used : ∀ c, 0 ≤ c < sb_size sb → used sb a c = true → used sb a' c = true;
  wn_disk : ∀ no, no ∉ bitmap sb → no ≠ IBLOCK (i_inum i) sb → (in_data sb no → used sb a no = true) →
    (∀ k, 0 ≤ k ≤ MAXFILE → slot a i k = no → no = 0) → x_disk a' no = x_disk a no;
}.
Lemma slot_set_size a i n k : slot a (i_set_size n i) k = slot a i k.
Proof. done. Qed.
Lemma wrote_written sb a i off bs a1 i1 : layout sb → iwf sb a i → 0 ≤ off → off + Z.of_nat (length bs) ≤ MAXFILE * BSIZE →
  wrote sb a i off bs a1 i1 →
  let i' := i_set_size (Z.max (i_size i) (off + Z.of_nat (length bs))) i1 in
  written sb a i off bs (x_update sb i' a1) i'.
Proof.
  intros Hly Hi Hoff Hmax Hwr i'. pose proof (wr_fields _ _ _ _ _ _ _ Hwr) as Hf.
  assert (i_inum i1 = i_inum i) as Ei by (by rewrite Hf).
  pose proof (IBLOCK_range _ _ Hly (iw_inum _ _ _ Hi)) as Hib. pose proof (layout_order _ Hly) as Ho.
  assert (iwf sb a1 i') as Hi'.
  { pose proof (iw_size _ _ _ Hi). destruct (wr_iwf _ _ _ _ _ _ _ Hwr) as [? ? ? ? Hdata Hinj Hfull]. split; try done.
    - simpl. lia.
    - apply (wr_full _ _ _ _ _ _ _ Hwr). }
  assert (IBLOCK (i_inum i) sb ∉ bitmap sb) as Hnm by (rewrite bitmap_range by done; lia).
  unfold x_update. change (i_inum i') with (i_inum i1). rewrite Ei.
  assert (x_disk a1 (IBLOCK (i_inum i) sb) = x_disk a (IBLOCK (i_inum i) sb)) as Ed.
  { apply (wr_disk _ _ _ _ _ _ _ Hwr); [done|intros [? ?]; lia|]. intros k Hk E.
    destruct (decide (slot a i k = 0)) as [E0|E0]; [congruence|].
    destruct (iw_data _ _ _ Hi k Hk E0) as [[? ?] _]. lia. }
  rewrite Ed. split.
  - apply meta_idle; [done|lia|]. apply (wr_idle _ _ _ _ _ _ _ Hwr).
  - apply meta_iwf; [done..|lia].
  - done.
  - unfold i'. rewrite Hf at 1. done.
  - intros p Hp. rewrite (meta_fbyte sb) by (done || lia). by apply (wr_bytes _ _ _ _ _ _ _ Hwr).
  - by rewrite x_put_eq.
  - intros c Hc E. rewrite (meta_used sb) by (done || lia). by apply (wr_used _ _ _ _ _ _ _ Hwr).
  - intros no ? ? ? ?. rewrite x_put_ne by done. by apply (wr_disk _ _ _ _ _ _ _ Hwr).
Qed.
Lemma writei_spec s a ip i user_src src bs off :
  let n := Z.of_nat (length bs) in
  rep s a → layout (fs_sb s) → idle (fs_sb s) a → it_inode s !! ip = Some i → iwf (fs_sb s) a i → bytes bs →
  fits 64 src → 0 ≤ off ≤ i_size i → off + n ≤ MAXFILE * BSIZE → source user_src src bs (fs_mem s) →
  res (fs_sb s) a i (S (blocks_left off n 0)) →
  wp (writei pagetable ip user_src src off n) (λ r s', r = n ∧ ∃ d' a' i', s' = fs_put s ip i' d' ∧
    x_rep d' a' ∧ written (fs_sb s) a i off bs a' i') s.
Proof.
  intros n Hr Hly Hid Hip Hi Hbs Hsrc64 Hoff Hmax Hsrc Hres. unfold writei. apply wp_bind.
  eapply wp_geti; [done|]. pose proof (iw_size _ _ _ Hi) as Hsz.
  assert (u32 (off + n) = off + n) as E by (apply Z.mod_small; rewrite MAXFILE_eq, BSIZE_eq in *; lia). rewrite E.
  destruct (Z.ltb_spec (i_size i) off) as [|_]; [lia|]. destruct (Z.ltb_spec (off + n) off) as [|_]; [lia|]. simpl orb. cbv iota.
  destruct (Z.ltb_spec (MAXFILE * BSIZE) (off + n)) as [|_]; [lia|]. apply wp_bind.
  assert (∀ s1 i1 d1, s1 = fs_put s ip i1 d1 → it_inode s1 !! ip = Some i1) as Hlook.
  { intros s1 i1 d1 ->. simpl. apply list_lookup_insert_eq. by eapply lookup_lt_Some. }
  eapply (wp_loop _ (λ '(tot, off', src') s1, ∃ d1 a1 i1, s1 = fs_put s ip i1 d1 ∧ x_rep d1 a1 ∧ 0 ≤ tot ≤ n ∧
    off' = off + tot ∧ src' = u64 (src + tot) ∧ wrote (fs_sb s) a i off (take (Z.to_nat tot) bs) a1 i1 ∧
    res (fs_sb s) a1 i1 (S (blocks_left off n tot))) (λ '(tot, _, _) _, blocks_left off n tot)).
  - intros [[tot off'] src'] s1 (d1 & a1 & i1 & -> & H1 & Ht & -> & -> & Hwr & Hres1).
    destruct (decide (tot < n)) as [Hlt|Hge].
    + rewrite (blocks_left_next off n tot) in Hres1 by lia.
      eapply (writei_round_spec s a ip i user_src src bs off tot); try done; [lia|].
      intros d2 a2 i2 H2 Hwr2 Hres2. cbv zeta. fold n. fold n in Hwr2, Hres2.
      destruct (chunk_pos n tot (off + tot) Hlt) as (? & ? & _).
      split; [exists d2, a2, i2; split_and!; try done; lia|]. rewrite (blocks_left_next off n tot) by lia. lia.
    + unfold writei_round. destruct (Z.ltb_spec tot n); [lia|]. apply wp_ret.
      assert (tot = n) as -> by lia. assert (take (Z.to_nat n) bs = bs) as Etk by (apply take_ge; lia). rewrite Etk in Hwr.
      apply wp_bind. eapply wp_geti; [by eapply Hlook|].
      pose proof (wrote_written _ a i off bs a1 i1 Hly Hi (proj1 Hoff) Hmax Hwr) as Hwn. fold n in Hwn.
      assert (i_size i1 = i_size i) as Es by (by rewrite (wr_fields _ _ _ _ _ _ _ Hwr)).
      set (i' := i_set_size (Z.max (i_size i) (off + n)) i1) in *.
      apply wp_bind. eapply (wp_mono _ (λ _ s2, s2 = fs_put s ip i' d1)).
      { apply wp_when; rewrite Es; intros Hb.
        - eapply wp_updi; [by eapply Hlook|]. rewrite fs_put_put. unfold i'. apply Z.ltb_lt in Hb.
          by rewrite Z.max_r by lia.
        - unfold i'. apply Z.ltb_ge in Hb. rewrite Z.max_l, <- Es by lia. by destruct i1. }
      intros [] s2 ->. pose proof (wn_iwf _ _ _ _ _ _ _ Hwn) as Hi'. apply wp_bind.
      eapply iupdate_spec; [exact H1|done|apply (wr_idle _ _ _ _ _ _ _ Hwr)|by eapply Hlook|apply (iw_dev _ _ _ Hi')|
        apply (iw_inum _ _ _ Hi')|apply (iw_len _ _ _ Hi')|eapply res_budget, Hres1|].
      intros d2 H2. apply wp_ret. split; [apply s32_id; rewrite MAXFILE_eq, BSIZE_eq in *; lia|].
      by exists d2, (x_update (fs_sb s) i' a1), i'.
  - exists (fs_d s), a, i. split_and!; try done; [by rewrite fs_put_id, set_d_id|lia..| |by apply wrote_refl].
    rewrite Z.add_0_r. symmetry. by apply Z.mod_small.
  - apply blocks_left_fuel; lia.
Qed.

(** * Places to copy to and from *)

Lemma load_bytes_slice (m : mem) p n tot k : (tot + k ≤ n)%nat →
  load_bytes m (p + Z.of_nat tot) k = take k (drop tot (load_bytes m p n)).
Proof.
  intros H. apply list_eq. intros j. destruct (decide (j < k)%nat) as [Hj|Hj].
  - rewrite lookup_take_lt, lookup_drop, !load_bytes_lookup by lia. do 2 f_equal. lia.
  - rewrite !lookup_ge_None_2; [done|rewrite length_take, length_drop, length_load_bytes; lia|].
    rewrite length_load_bytes. lia.
Qed.
Lemma u64_small x : 0 ≤ x < 2 ^ 64 → u64 x = x.
Proof. apply Z.mod_small. Qed.
Lemma kernel_source src bs m : 0 ≤ src → src + Z.of_nat (length bs) < 2 ^ 64 →
  load_bytes (k_mem m) src (length bs) = bs → source false src bs m.
Proof.
  intros H0 H1 Hl tot k Ht Hk Htk. rewrite u64_small by lia. apply wp_bind, wp_gets, wp_ret. split_and!; [done..|].
  rewrite <- Hl. rewrite <- (Z2Nat.id tot) at 1 by lia. apply load_bytes_slice. lia.
Qed.
Context {Lok : LinkerOk L}.
Lemma user_source src bs m P l um : aspace m pagetable P l um → user_ok P l um → 0 ≤ src →
  src + Z.of_nat (length bs) < 2 ^ 64 → uread (k_mem m) um src bs → source true src bs m.
Proof.
  intros Has Hok H0 H1 Hr tot k Ht Hk Htk. rewrite u64_small by lia.
  eapply wp_mono; [apply (copyin_spec m pagetable P l um); [done|done|split; lia|done]|].
  intros [r dst] m' (-> & Hst & Hdst). split; [done|].
  assert (∀ j, (Z.to_nat tot + j < length bs)%nat → uload (k_mem m) um (src + tot + Z.of_nat j) = bs !! (Z.to_nat tot + j)%nat) as Hb.
  { intros j Hj. destruct (lookup_lt_is_Some_2 bs _ Hj) as [b Eb]. rewrite Eb, <- (Hr _ _ Eb). f_equal. lia. }
  destruct Hst as [[-> Hlen]|(-> & Hlen & Hn)].
  - split; [done|]. apply list_eq. intros j. destruct (decide (j < length dst)%nat) as [Hj|Hj].
    + rewrite lookup_take_lt, lookup_drop, <- Hb by lia. destruct (lookup_lt_is_Some_2 dst j Hj) as [b Eb].
      by rewrite Eb, (Hdst _ _ Eb).
    + rewrite !lookup_ge_None_2; [done|rewrite length_take, length_drop; lia|lia].
  - exfalso. pose proof (Hb (length dst) ltac:(lia)) as E. unfold uload in E. rewrite Hn in E. simpl in E.
    destruct (lookup_lt_is_Some_2 bs (Z.to_nat tot + length dst)) as [b Eb]; [lia|]. congruence.
Qed.
Lemma store_bytes_app (m : mem) p l1 l2 : store_bytes m p (l1 ++ l2) = store_bytes (store_bytes m p l1) (p + Z.of_nat (length l1)) l2.
Proof.
  revert m p. induction l1 as [|x l1 IH]; intros m p; simpl; [by rewrite Z.add_0_r|]. rewrite IH. f_equal. lia.
Qed.
Definition kernel_dst (dst : Z) (m : kmem) (bs : list Z) (m' : kmem) : Prop :=
  m' = upd_mem (λ k, store_bytes k dst bs) m.
Lemma kernel_sink dst n m : 0 ≤ dst → dst + n < 2 ^ 64 → sink false dst n (kernel_dst dst m) (λ _, False).
Proof.
  intros H0 H1 bs c m1 -> Hc Hl. rewrite u64_small by lia. apply wp_bind, wp_modify, wp_ret. left. split; [done|].
  unfold kernel_dst, upd_mem. simpl. by rewrite store_bytes_app.
Qed.
Definition user_dst (P : gset Z) (l : list Z) (um : gmap Z Z) (dst : Z) (m : kmem) (bs : list Z) (m' : kmem) : Prop :=
  aspace m' pagetable P l um ∧ uwrote (k_mem m) um dst bs (k_mem m').
Lemma user_sink P l um dst n m : user_ok P l um → 0 ≤ dst → dst + n < 2 ^ 64 →
  sink true dst n (user_dst P l um dst m) (λ m', ∃ bs, user_dst P l um dst m bs m').
Proof.
  intros Hok H0 H1 bs c m1 [Has Hw] Hc Hl. rewrite u64_small by lia.
  eapply wp_mono; [apply (copyout_spec m1 pagetable P l um); [done|done|split; lia|done]|].
  intros r m2 (k & Hst & Has2 & Hw2). pose proof (uwrote_app _ _ _ _ _ _ _ _ _ Hok Hw Hw2) as Hw'.
  destruct Hst as [[-> Hk]|(-> & _ & _)]; [left|right].
  - rewrite take_ge in Hw' by lia. done.
  - split; [done|]. exists (bs ++ take k c). done.
Qed.
End io.
