(* ===== verification/FsInode.v ===== *)
(** kernel/fs.c, inodes: the copy of an inode on the disk, locking, and
    giving back the blocks of a file. *)

From S2P Require Import Prelude Riscv Mem Spinlock Sleeplock Kalloc Bio FsLayout ProcMem Fs FsBlocks FsFile FsIo.

(** * The inode on the disk *)

(** The fields fit their types. *)
Record inode_fits (i : inode) : Prop := {
  if_type : - 2 ^ 15 ≤ i_type i < 2 ^ 15;
  if_major : - 2 ^ 15 ≤ i_major i < 2 ^ 15;
  if_minor : - 2 ^ 15 ≤ i_minor i < 2 ^ 15;
  if_nlink : - 2 ^ 15 ≤ i_nlink i < 2 ^ 15;
  if_size : fits 32 (i_size i);
  if_len : length (i_addrs i) = naddrs;
  if_addrs : Forall (fits 32) (i_addrs i);
}.
(** The fields that are kept on the disk. *)
Definition on_disk (i : inode) : Z * Z * Z * Z * Z * list Z :=
  (i_type i, i_major i, i_minor i, i_nlink i, i_size i, i_addrs i).

Lemma s16_u16 x : - 2 ^ 15 ≤ x < 2 ^ 15 → s16 (u16 x) = x.
Proof. unfold s16, sgn, u16. intros. dlia. Qed.
Lemma u16_range x : 0 ≤ u16 x < 2 ^ (8 * Z.of_nat 2).
Proof. apply Z.mod_pos_bound. done. Qed.
Lemma get_bytes_inner d off bs k n : (off + length bs ≤ length d)%nat → (k + n ≤ length bs)%nat →
  get_bytes (splice d off bs) (off + k) n = get_bytes bs k n.
Proof.
  intros H Hk. apply list_eq. intros i. rewrite !get_bytes_lookup. case_decide; [|done].
  rewrite splice_lookup, decide_True by lia. f_equal. lia.
Qed.
Lemma get_bytes_words l k x : l !! k = Some x → get_bytes (concat (le_split 4 <$> l)) (4 * k) 4 = le_split 4 x.
Proof.
  revert k. induction l as [|y l IH]; intros [|k] Hk; [done|done|..]; cbn [fmap list_fmap concat].
  - injection Hk as ->. unfold get_bytes. rewrite drop_0, take_app_le by done. done.
  - unfold get_bytes in *. rewrite drop_app_ge by (rewrite length_le_split; lia). rewrite length_le_split.
    replace (4 * S k - 4)%nat with (4 * k)%nat by lia. by apply IH.
Qed.
Lemma uints_words d off l : is_block d → 0 ≤ off → off + 4 * Z.of_nat (length l) ≤ BSIZE → Forall (fits 32) l →
  uints (length l) (splice d (Z.to_nat off) (concat (le_split 4 <$> l))) off = l.
Proof.
  intros [Hl _] Ho Hs Hf. rewrite BSIZE_eq in *. destruct (addrs_bytes l) as [_ Hc]. apply list_eq. intros k. unfold uints.
  destruct (decide (k < length l)%nat) as [Hk|Hk].
  - rewrite list_lookup_fmap, lookup_seq_lt by done. cbn [fmap option_fmap option_map]. change (0 + k)%nat with k.
    destruct (lookup_lt_is_Some_2 _ _ Hk) as [x Hx]. rewrite Hx.
    unfold get. replace (Z.to_nat (off + 4 * Z.of_nat k)) with (Z.to_nat off + 4 * k)%nat by lia.
    rewrite get_bytes_inner by lia. rewrite (get_bytes_words _ _ _ Hx), le_combine_split. f_equal.
    apply Z.mod_small. eapply Forall_lookup_1 in Hf; [|exact Hx]. exact Hf.
  - rewrite !lookup_ge_None_2; [done|lia|rewrite length_fmap, length_seq; lia].
Qed.
Lemma get_splice_ne d off bs n off' : is_block d → 0 ≤ off' → 0 ≤ off → off + Z.of_nat (length bs) ≤ BSIZE →
  off' + Z.of_nat n ≤ off ∨ off + Z.of_nat (length bs) ≤ off' → get n (splice d (Z.to_nat off) bs) off' = get n d off'.
Proof. rewrite BSIZE_eq. intros [Hl _] ? ? ? Hd. rewrite BSIZE_eq in Hl. unfold get. rewrite get_bytes_splice_ne; [done|lia|lia]. Qed.

Ltac block_side := repeat first [done | apply put_block | rewrite BSIZE_eq in *; simpl; lia].
Lemma dip_roundtrip i off d i0 : is_block d → 0 ≤ off → off + sizeof_dinode ≤ BSIZE → inode_fits i →
  dip_load (dip_store i off d) off i0 =
    Inode (i_dev i0) (i_inum i0) (i_ref i0) (i_lock i0) (i_valid i0)
      (i_type i) (i_major i) (i_minor i) (i_nlink i) (i_size i) (i_addrs i).
Proof.
  intros Hd Ho Hs [Ht Hma Hmi Hnl Hsz Hlen Hf]. change sizeof_dinode with 64 in Hs. unfold dip_load, dip_store, dip_type. cbv zeta.
  destruct (addrs_bytes (i_addrs i)) as [_ Hc]. rewrite Hlen in Hc. change (4 * naddrs)%nat with 52%nat in Hc.
  set (d1 := put 2 d off _). set (d2 := put 2 d1 _ _). set (d3 := put 2 d2 _ _). set (d4 := put 2 d3 _ _). set (d5 := put 4 d4 _ _).
  assert (is_block d1) as H1 by (unfold d1; block_side). assert (is_block d2) as H2 by (unfold d2; block_side).
  assert (is_block d3) as H3 by (unfold d3; block_side). assert (is_block d4) as H4 by (unfold d4; block_side).
  assert (is_block d5) as H5 by (unfold d5; block_side).
  rewrite !(get_splice_ne d5) by (done || rewrite ?Hc, ?BSIZE_eq in *; simpl; lia).
  assert (∀ n o, 0 ≤ o → o + Z.of_nat n ≤ off + 8 → get n d5 o = get n d4 o) as E5
    by (intros n o ? ?; unfold d5; rewrite get_put_ne; block_side).
  rewrite !E5 by (simpl; lia).
  f_equal.
  - unfold d4, d3, d2. rewrite !get_put_ne by block_side. unfold d1. rewrite get_put_eq by (block_side || apply u16_range). by apply s16_u16.
  - unfold d4, d3. rewrite !get_put_ne by block_side. unfold d2. rewrite get_put_eq by (block_side || apply u16_range). by apply s16_u16.
  - unfold d4. rewrite !get_put_ne by block_side. unfold d3. rewrite get_put_eq by (block_side || apply u16_range). by apply s16_u16.
  - unfold d4. rewrite get_put_eq by (block_side || apply u16_range). by apply s16_u16.
  - unfold d5. rewrite get_put_eq by block_side. done.
  - rewrite <- Hlen. apply uints_words; [done|lia| |done]. rewrite Hlen. change naddrs with 13%nat. rewrite BSIZE_eq in *. lia.
Qed.

(** The other inodes of the block. *)
Lemma dip_load_ne i off off' d i0 : is_block d → 0 ≤ off → off + sizeof_dinode ≤ BSIZE → 0 ≤ off' →
  off' + sizeof_dinode ≤ off ∨ off + sizeof_dinode ≤ off' → length (i_addrs i) = naddrs →
  dip_load (dip_store i off d) off' i0 = dip_load d off' i0.
Proof.
  intros Hd Ho Hs Ho' Hne Hlen. change sizeof_dinode with 64 in *.
  destruct (addrs_bytes (i_addrs i)) as [_ Hc]. rewrite Hlen in Hc. change (4 * naddrs)%nat with 52%nat in Hc.
  assert (∀ n o, off' ≤ o → o + Z.of_nat n ≤ off' + 64 → get n (dip_store i off d) o = get n d o) as Hg.
  { intros n o H1 H2. unfold dip_store. cbv zeta. rewrite get_splice_ne; [|block_side|lia|lia|rewrite Hc, BSIZE_eq in *; lia|rewrite Hc; lia].
    rewrite !get_put_ne; block_side. }
  unfold dip_load, dip_type, uints. rewrite !Hg by (simpl; lia). f_equal. apply list_eq. intros k. rewrite !list_lookup_fmap.
  destruct (seq 0 naddrs !! k) as [j|] eqn:E; [|done]. simpl. f_equal. apply lookup_seq in E as [-> Hj].
  change naddrs with 13%nat in Hj. apply Hg; simpl; lia.
Qed.
Lemma dip_off_ne inum inum' : inum `mod` IPB ≠ inum' `mod` IPB →
  dip_off inum' + sizeof_dinode ≤ dip_off inum ∨ dip_off inum + sizeof_dinode ≤ dip_off inum'.
Proof. unfold dip_off. change IPB with 16. change sizeof_dinode with 64. intros. dlia. Qed.

Section inodes.
Context {D : Type} `{BS : BlockStore D} {BSok : BlockStoreOk D} {L : Linker}.
Abbreviation state := (fsys (D:=D)).
Implicit Types s : state.
Implicit Types a : atx.
Implicit Types i : inode.
Context (pid : Z).

(** The inode numbered [inum] on the disk, in the place of [i]. *)
Definition disk_inode (sb : superblock) a (inum : Z) i : inode :=
  dip_load (x_disk a (IBLOCK inum sb)) (dip_off inum) i.
Lemma update_disk_inode sb a i inum j : layout sb → (∀ no, is_block (x_disk a no)) → inode_fits i →
  0 ≤ i_inum i < sb_ninodes sb → 0 ≤ inum < sb_ninodes sb →
  on_disk (disk_inode sb (x_update sb i a) inum j) =
    if decide (inum = i_inum i) then on_disk i else on_disk (disk_inode sb a inum j).
Proof.
  intros Hly Hblk Hf Hi Hn. destruct (dip_off_range (i_inum i)), (dip_off_range inum). unfold disk_inode, x_update.
  destruct (decide (IBLOCK inum sb = IBLOCK (i_inum i) sb)) as [E|E].
  - rewrite E, x_put_eq. case_decide as En.
    + rewrite En, dip_roundtrip by (done || apply Hblk). done.
    + rewrite dip_load_ne; [done|apply Hblk|done|done|done| |apply Hf]. apply dip_off_ne.
      unfold IBLOCK in E. change IPB with 16 in *. intros E'. apply En. revert E E'. clear. intros. dlia.
  - rewrite x_put_ne by done. rewrite decide_False; [done|]. by intros ->.
Qed.

(** ** Locking *)

Lemma wp_lock_op {A} s ip i (m : M sleeplock A) (Q : A → state → Prop) : it_inode s !! ip = Some i →
  wp m (λ x l, Q x (fs_put s ip (i_set_lock l i) (fs_d s))) (i_lock i) → wp (lock_op ip m) Q s.
Proof.
  intros Hip Hm. unfold lock_op. apply wp_bind. eapply wp_geti; [done|]. unfold wp at 1 in Hm.
  destruct (m (i_lock i)) as [x l| | |]; try done. apply wp_bind. eapply wp_updi; [done|]. by apply wp_ret.
Qed.
Lemma fs_put_lookup s ip i i' d : it_inode s !! ip = Some i → it_inode (fs_put s ip i' d) !! ip = Some i'.
Proof. intros H. simpl. apply list_lookup_insert_eq. by eapply lookup_lt_Some. Qed.
Lemma set_d_put s ip i d d' : set_d d' (fs_put s ip i d) = fs_put s ip i d'.
Proof. done. Qed.

Definition sl_free (l : sleeplock) : Prop := sl_lk l = false ∧ owner l = None.
Definition sl_mine : sleeplock := Sleeplock true false pid.
(** The inode as its holder sees it: what was read before, or the disk's. *)
Definition locked (sb : superblock) a i : inode :=
  i_set_lock sl_mine (if i_valid i then i else i_set_valid true (disk_inode sb a (i_inum i) i)).
Lemma ilock_spec s a ip i (Q : unit → state → Prop) :
  rep s a → layout (fs_sb s) → idle (fs_sb s) a → it_inode s !! ip = Some i → i_dev i = ROOTDEV →
  0 ≤ i_inum i < sb_ninodes (fs_sb s) → 1 ≤ i_ref i → sl_free (i_lock i) →
  (i_valid i = false → i_type (locked (fs_sb s) a i) ≠ 0) →
  (∀ d', x_rep d' a → Q tt (fs_put s ip (locked (fs_sb s) a i) d')) → wp (ilock pid ip) Q s.
Proof.
  intros Hr Hly Hid Hip Hdev Hinum Href [Hlk How] Hty HQ. unfold ilock. apply wp_bind. eapply wp_geti; [done|].
  destruct (Z.ltb_spec (i_ref i) 1); [lia|]. apply wp_bind. eapply wp_lock_op; [done|].
  unfold wp. rewrite acquiresleep_free by done. fold sl_mine. apply wp_bind.
  set (i1 := i_set_lock sl_mine i). pose proof (fs_put_lookup s ip i i1 (fs_d s) Hip) as Hip1. eapply wp_geti; [done|].
  change (i_valid i1) with (i_valid i). unfold locked in *. destruct (i_valid i) eqn:Ev; [apply wp_ret; by apply HQ|].
  apply wp_bind, wp_gets, wp_bind. change (i_dev i1) with (i_dev i). rewrite Hdev. change (i_inum i1) with (i_inum i).
  pose proof (IBLOCK_range _ _ Hly Hinum) as Hib. pose proof (layout_order _ Hly) as Ho.
  eapply wp_fs_bread; [done|apply (ly_block _ Hly); simpl; lia|by eapply idle_free|by eapply idle_few|]. intros b d1 Hb1 H1.
  rewrite set_d_put. pose proof (λ d, fs_put_lookup s ip i i1 d Hip) as Hput.
  apply wp_bind. eapply wp_fs_data; [exact H1|apply x_hold_lookup|]. apply wp_bind. eapply wp_updi; [apply Hput|].
  rewrite fs_put_put. apply wp_bind. eapply wp_fs_brelse; [exact H1|apply x_hold_lookup|done|]. intros d2 H2. rewrite x_drop_hold in H2 by done.
  rewrite set_d_put. apply wp_bind. eapply wp_updi; [by eapply fs_put_lookup|]. rewrite fs_put_put.
  apply wp_bind. eapply wp_geti; [by eapply fs_put_lookup|]. specialize (Hty eq_refl). apply Z.eqb_neq in Hty.
  match goal with |- wp (if ?c then _ else _) _ _ => assert (c = false) as -> by exact Hty end.
  apply wp_ret. by apply HQ.
Qed.
Lemma iunlock_spec s ip i (Q : unit → state → Prop) :
  it_inode s !! ip = Some i → i_lock i = sl_mine → 1 ≤ i_ref i →
  Q tt (fs_put s ip (i_set_lock initsleeplock i) (fs_d s)) → wp (iunlock pid ip) Q s.
Proof.
  intros Hip Hl Href HQ. unfold iunlock. apply wp_bind. eapply wp_lock_op; [done|].
  unfold wp. rewrite Hl, holdingsleep_spec by done. rewrite bool_decide_eq_true_2 by done.
  assert (i_set_lock sl_mine i = i) as -> by (rewrite <- Hl; by destruct i).
  rewrite (fs_put_id s ip i) by done. assert (set_d (fs_d s) s = s) as -> by (by destruct s). apply wp_bind.
  eapply wp_geti; [done|]. destruct (Z.ltb_spec (i_ref i) 1); [lia|]. simpl. eapply wp_lock_op; [done|].
  unfold wp. by rewrite Hl, releasesleep_spec.
Qed.
End inodes.
