(* ===== verification/FsDir.v ===== *)
(** kernel/fs.c, directories: a directory file as the table of its entries,
    which dirlookup searches and dirlink extends. *)

From S2P Require Import Prelude Riscv Mem Cstring Spinlock Sleeplock Kalloc Vm Bio FsLayout ProcMem.
From S2P Require Import Fs FsBlocks FsFile FsIo.

(** The [k]th entry. *)
Definition dent (a : atx) (i : inode) (k : Z) : list Z := fbytes a i (sizeof_dirent * k) (Z.to_nat sizeof_dirent).
Definition dents (i : inode) : Z := i_size i / sizeof_dirent.
(** A C string in a buffer of DIRSIZ bytes, or shorter. *)
Definition name_of (name : list Z) : list Z := cstr (at_list name) DIRSIZ.
Definition matches (name : list Z) (e : list Z) : Prop := de_inum e ≠ 0 ∧ name_of (de_name e) = name_of name.
#[export] Instance matches_dec name e : Decision (matches name e).
Proof. unfold matches. apply _. Defined.

Lemma fbyte_fits a i p : (∀ no, is_block (x_disk a no)) → fits 8 (fbyte a i p).
Proof.
  intros Hblk. unfold fbyte. destruct (_ !! _) as [x|] eqn:E; [|split; simpl; lia].
  simpl. destruct (Hblk (slot a i (p / BSIZE))) as [_ Hb]. by eapply Forall_lookup_1.
Qed.
Lemma fbytes_bytes a i p n : (∀ no, is_block (x_disk a no)) → bytes (fbytes a i p n).
Proof. intros Hblk. apply Forall_fmap, Forall_true. intros k. by apply fbyte_fits. Qed.
Lemma at_list_fits l j : bytes l → fits 8 (at_list l j).
Proof.
  intros Hl. unfold at_list. destruct (l !! Z.to_nat j) as [x|] eqn:E; [|split; simpl; lia].
  simpl. by eapply Forall_lookup_1.
Qed.
Lemma namecmp_zero s t : bytes s → bytes t → namecmp s t = 0 ↔ name_of s = name_of t.
Proof. intros Hs Ht. apply strncmp_from_zero; intros j; by apply at_list_fits. Qed.
(** A string and what follows its end. *)
Lemma cstr_list n pre c r :
  Forall (λ x, x ≠ 0) c → (length c ≤ n)%nat → default 0 (r !! 0%nat) = 0 ∨ length c = n →
  cstr_from (at_list (pre ++ c ++ r)) (Z.of_nat (length pre)) n = c.
Proof.
  revert pre c. induction n as [|n IH]; intros pre c Hc Hl Hr.
  - by destruct c; [|simpl in Hl; lia].
  - simpl. unfold at_list at 1 2. rewrite Nat2Z.id. rewrite lookup_app_r, Nat.sub_diag by lia.
    destruct c as [|x c]; simpl.
    + destruct Hr as [->|?]; [done|done].
    + apply Forall_cons in Hc as [Hx Hc]. destruct (Z.eqb_spec x 0); [done|]. f_equal.
      assert (pre ++ x :: c ++ r = (pre ++ [x]) ++ c ++ r) as -> by (by rewrite <- app_assoc).
      replace (Z.of_nat (length pre) + 1) with (Z.of_nat (length (pre ++ [x]))) by (rewrite length_app; simpl; lia).
      apply IH; [done|simpl in Hl; lia|]. destruct Hr; [by left|right]. simpl in *. lia.
Qed.
Lemma cstr_nonzero p k n : Forall (λ x, x ≠ 0) (cstr_from p k n).
Proof. revert k. induction n as [|n IH]; intros k; simpl; [done|]. case_cmp; [done|]. by constructor. Qed.
Lemma name_strncpy name : name_of (strncpy_bytes (at_list name) DIRSIZ) = name_of name.
Proof.
  unfold name_of at 1. unfold cstr, strncpy_bytes. fold (name_of name). set (c := name_of name).
  apply (cstr_list _ []); [apply cstr_nonzero|apply length_cstr_from|].
  destruct (decide (length c = Z.to_nat DIRSIZ)); [by right|left].
  by destruct (Z.to_nat DIRSIZ - length c)%nat.
Qed.

Section dir.
Context {D : Type} `{BS : BlockStore D} {BSok : BlockStoreOk D} {L : Linker}.
Abbreviation state := (fsys (D:=D)).
Implicit Types s : state.
Implicit Types a : atx.
Implicit Types i : inode.
Context (pid pagetable de : Z) (Hde : 0 ≤ de) (Hde' : de + sizeof_dirent < 2 ^ 64).

Lemma fs_io_io s d m d' m' : fs_io (fs_io s d m) d' m' = fs_io s d' m'.
Proof. done. Qed.
Lemma read_entry s a dp i k :
  rep s a → layout (fs_sb s) → idle (fs_sb s) a → it_inode s !! dp = Some i → iwf (fs_sb s) a i →
  0 ≤ k → sizeof_dirent * (k + 1) ≤ i_size i →
  wp (readi pagetable dp false de (sizeof_dirent * k) sizeof_dirent) (λ r s', r = sizeof_dirent ∧
    ∃ d' m', s' = fs_io s d' m' ∧ x_rep d' a ∧
      load_bytes (k_mem m') de (Z.to_nat sizeof_dirent) = dent a i k) s.
Proof using BSok Hde Hde'.
  intros Hr Hly Hid Hip Hi Hk Hsz. pose proof (iw_size _ _ _ Hi) as Hmax. rewrite MAXFILE_eq, BSIZE_eq in Hmax.
  change sizeof_dirent with 16 in *. unfold fits in *.
  eapply wp_mono; [apply (readi_spec pagetable s a dp i false de (kernel_dst de (fs_mem s)) (λ _, False) (16 * k) 16);
    [done..|split; lia|split; lia|split; lia|lia|lia|by apply kernel_sink|]|].
  - unfold kernel_dst, upd_mem. by destruct (fs_mem s).
  - intros r s' (d' & m' & -> & H' & [[-> ->]|[_ []]]). rewrite Z.min_l by lia. split; [done|]. exists d', (upd_mem (λ k0, store_bytes k0 de (fbytes a i (16 * k) 16)) (fs_mem s)).
    split_and!; [done..|]. cbn [k_mem upd_mem]. unfold dent. change (Z.to_nat sizeof_dirent) with 16%nat.
    change sizeof_dirent with 16. pose proof (λ no, x_disk_ok _ _ no Hr) as Hblk.
    pose proof (load_store_bytes (k_mem (fs_mem s)) de (fbytes a i (16 * k) 16) (fbytes_bytes _ _ _ _ Hblk)) as E.
    by rewrite length_fbytes in E.
Qed.

(** ** Looking up *)

Definition none_before (name : list Z) a i (k : Z) : Prop := ∀ j, 0 ≤ j < k → ¬ matches name (dent a i j).
Record is_dir (sb : superblock) a i : Prop := {
  dr_iwf : iwf sb a i;
  dr_type : i_type i = T_DIR;
  dr_size : i_size i `mod` sizeof_dirent = 0;
}.
Lemma read_dirent_spec s (Q : list Z → state → Prop) :
  Q (load_bytes (k_mem (fs_mem s)) de (Z.to_nat sizeof_dirent)) s → wp (read_dirent de) Q s.
Proof using. intros HQ. apply wp_memory, wp_gets. unfold set_fs_mem. by destruct s. Qed.
Lemma dir_range sb a i k : is_dir sb a i → 0 ≤ k → sizeof_dirent * k < i_size i →
  sizeof_dirent * (k + 1) ≤ i_size i ∧ u32 (sizeof_dirent * k + sizeof_dirent) = sizeof_dirent * (k + 1) ∧ k < dents i.
Proof using.
  intros [Hi _ Hm] Hk Hlt. pose proof (iw_size _ _ _ Hi) as Hmax. rewrite MAXFILE_eq, BSIZE_eq in Hmax.
  unfold dents, u32. change sizeof_dirent with 16 in *. split_and!; [dlia| |dlia]. rewrite Z.mod_small; [lia|dlia].
Qed.
Lemma dirlookup_spec s a dp i name (Q : option (nat * Z) → state → Prop) :
  rep s a → layout (fs_sb s) → idle (fs_sb s) a → it_inode s !! dp = Some i → is_dir (fs_sb s) a i → bytes name →
  (∀ d' m', x_rep d' a → none_before name a i (dents i) → Q None (fs_io s d' m')) →
  (∀ k d' m', x_rep d' a → 0 ≤ k < dents i → none_before name a i k → matches name (dent a i k) →
     wp (iget ROOTDEV (de_inum (dent a i k))) (λ ip, Q (Some (ip, sizeof_dirent * k))) (fs_io s d' m')) →
  wp (dirlookup pagetable de dp name) Q s.
Proof using BSok Hde Hde'.
  intros Hr Hly Hid Hip Hdir Hname Hnone Hsome. pose proof (dr_iwf _ _ _ Hdir) as Hi. unfold dirlookup.
  apply wp_bind. eapply wp_geti; [done|]. rewrite (dr_type _ _ _ Hdir). simpl negb. cbv iota.
  pose proof (λ no, x_disk_ok _ _ no Hr) as Hblk.
  eapply (wp_loop _ (λ off s1, ∃ k d1 m1, s1 = fs_io s d1 m1 ∧ x_rep d1 a ∧ off = sizeof_dirent * k ∧ 0 ≤ k ≤ dents i ∧
    none_before name a i k) (λ off _, Z.to_nat (dents i + 1 - off / sizeof_dirent))).
  - intros off s1 (k & d1 & m1 & -> & H1 & -> & Hk & Hb). unfold dirlookup_round. apply wp_bind.
    eapply wp_geti; [done|]. destruct (Z.ltb_spec (sizeof_dirent * k) (i_size i)) as [Hlt|Hge].
    2: { apply wp_ret. apply Hnone; [done|]. assert (k = dents i) as <-; [|done].
         unfold dents in *. change sizeof_dirent with 16 in *. clear -Hk Hge. dlia. }
    destruct (dir_range _ _ _ k Hdir (proj1 Hk) Hlt) as (Hr1 & Hr2 & Hr3). apply wp_bind.
    eapply wp_mono; [apply (read_entry (fs_io s d1 m1) a dp i k); [done..|lia|done]|].
    intros r s2 [-> (d2 & m2 & -> & H2 & Hld)]. rewrite fs_io_io. rewrite Z.eqb_refl. simpl negb. cbv iota.
    apply wp_bind, read_dirent_spec. cbn [fs_mem fs_io]. rewrite Hld. rewrite Hr2.
    assert (bytes (de_name (dent a i k))) as Hdn by (apply Forall_drop; by apply fbytes_bytes).
    assert (∀ d' m', x_rep d' a → ¬ matches name (dent a i k) →
      wp (ret (inl (sizeof_dirent * (k + 1)))) (λ (r : Z + option (nat * Z)) s', match r with
        | inl off' => (∃ k d1 m1, s' = fs_io s d1 m1 ∧ x_rep d1 a ∧ off' = sizeof_dirent * k ∧ 0 ≤ k ≤ dents i ∧
            none_before name a i k) ∧
            (Z.to_nat (dents i + 1 - off' / sizeof_dirent) < Z.to_nat (dents i + 1 - sizeof_dirent * k / sizeof_dirent))%nat
        | inr b => Q b s' end) (fs_io s d' m')) as Hgo.
    { intros d' m' H' Hnm. apply wp_ret. split.
      - exists (k + 1), d', m'. split_and!; [done..|lia|lia|]. intros j Hj. destruct (decide (j = k)) as [->|]; [done|].
        apply Hb. lia.
      - change sizeof_dirent with 16. clear -Hk Hr3. dlia. }
    destruct (Z.eqb_spec (de_inum (dent a i k)) 0) as [E0|E0]; [apply Hgo; [done|]; by intros [? _]|].
    destruct (Z.eqb_spec (namecmp name (de_name (dent a i k))) 0) as [En|En]; rewrite namecmp_zero in En by done.
    + rewrite (iw_dev _ _ _ Hi). apply wp_bind. eapply wp_mono; [apply (Hsome k d2 m2); [done|lia|done|]|].
      * split; [done|by symmetry].
      * intros ip s3 HQ. by apply wp_ret.
    + apply Hgo; [done|]. intros [_ E]. by apply En.
  - exists 0, (fs_d s), (fs_mem s). split_and!; [by destruct s|done|lia|lia| |intros j; lia].
    apply Z.div_pos; [apply (iw_size _ _ _ Hi)|done].
  - unfold dents. change sizeof_dirent with 16. pose proof (iw_size _ _ _ Hi). dlia.
Qed.

(** ** A free entry *)

Definition full_before a i (k : Z) : Prop := ∀ j, 0 ≤ j < k → de_inum (dent a i j) ≠ 0.
Lemma empty_loop_spec s a dp i (Q : Z → state → Prop) :
  rep s a → layout (fs_sb s) → idle (fs_sb s) a → it_inode s !! dp = Some i → is_dir (fs_sb s) a i →
  (∀ k d' m', x_rep d' a → 0 ≤ k ≤ dents i → full_before a i k → (k < dents i → de_inum (dent a i k) = 0) →
     Q (sizeof_dirent * k) (fs_io s d' m')) →
  wp (loop (Z.to_nat (i_size i / sizeof_dirent) + 2) (empty_round pagetable de dp) 0) Q s.
Proof using BSok Hde Hde'.
  intros Hr Hly Hid Hip Hdir HQ. pose proof (dr_iwf _ _ _ Hdir) as Hi.
  eapply (wp_loop _ (λ off s1, ∃ k d1 m1, s1 = fs_io s d1 m1 ∧ x_rep d1 a ∧ off = sizeof_dirent * k ∧ 0 ≤ k ≤ dents i ∧
    full_before a i k) (λ off _, Z.to_nat (dents i + 1 - off / sizeof_dirent))).
  - intros off s1 (k & d1 & m1 & -> & H1 & -> & Hk & Hb). unfold empty_round. apply wp_bind.
    eapply wp_geti; [done|]. destruct (Z.ltb_spec (sizeof_dirent * k) (i_size i)) as [Hlt|Hge].
    2: { apply wp_ret. apply HQ; [done..|]. intros Hlt'. exfalso.
         unfold dents in *. change sizeof_dirent with 16 in *. clear -Hk Hge Hlt'. dlia. }
    destruct (dir_range _ _ _ k Hdir (proj1 Hk) Hlt) as (Hr1 & Hr2 & Hr3). apply wp_bind.
    eapply wp_mono; [apply (read_entry (fs_io s d1 m1) a dp i k); [done..|lia|done]|].
    intros r s2 [-> (d2 & m2 & -> & H2 & Hld)]. rewrite fs_io_io. rewrite Z.eqb_refl. simpl negb. cbv iota.
    apply wp_bind, read_dirent_spec. cbn [fs_mem fs_io]. rewrite Hld.
    destruct (Z.eqb_spec (de_inum (dent a i k)) 0) as [E0|E0]; apply wp_ret.
    + by apply HQ.
    + split.
      * exists (k + 1), d2, m2. split_and!; [done..|lia|lia|lia|]. intros j Hj. destruct (decide (j = k)) as [->|]; [done|].
        apply Hb. lia.
      * change sizeof_dirent with 16. clear -Hk Hr3. dlia.
  - exists 0, (fs_d s), (fs_mem s). split_and!; [by destruct s|done|lia|lia| |intros j; lia].
    apply Z.div_pos; [apply (iw_size _ _ _ Hi)|done].
  - unfold dents. change sizeof_dirent with 16. pose proof (iw_size _ _ _ Hi). dlia.
Qed.

(** ** A new entry *)

Definition new_dirent (name : list Z) (inum : Z) : list Z := le_split 2 inum ++ strncpy_bytes (at_list name) DIRSIZ.
Lemma length_strncpy name : length (strncpy_bytes (at_list name) DIRSIZ) = 14%nat.
Proof using.
  unfold strncpy_bytes. rewrite length_app, length_replicate.
  pose proof (length_cstr_from (at_list name) 0 (Z.to_nat DIRSIZ)) as H. unfold cstr. change (Z.to_nat DIRSIZ) with 14%nat in *. lia.
Qed.
Lemma length_new_dirent name inum : length (new_dirent name inum) = 16%nat.
Proof using. unfold new_dirent. by rewrite length_app, length_le_split, length_strncpy. Qed.
Lemma cstr_bytes (name : list Z) k n : bytes name → bytes (cstr_from (at_list name) k n).
Proof using.
  intros Hn. revert k. induction n as [|n IH]; intros k; simpl; [done|]. case_cmp; [done|].
  constructor; [by apply at_list_fits|done].
Qed.
Lemma new_dirent_bytes name inum : bytes name → bytes (new_dirent name inum).
Proof using.
  intros Hn. apply Forall_app. split; [apply le_split_bytes|]. apply Forall_app. split; [by apply cstr_bytes|].
  apply Forall_replicate. split; simpl; lia.
Qed.
Lemma new_dirent_fields name inum : 0 ≤ inum < 2 ^ 16 →
  de_inum (new_dirent name inum) = inum ∧ name_of (de_name (new_dirent name inum)) = name_of name.
Proof using.
  intros Hn. split.
  - unfold de_inum, get, get_bytes, new_dirent. rewrite drop_0.
    rewrite take_app_le by (by rewrite length_le_split). rewrite take_ge by (by rewrite length_le_split).
    rewrite le_combine_split. by apply Z.mod_small.
  - unfold de_name, new_dirent. rewrite drop_app_le by (by rewrite length_le_split).
    rewrite drop_ge by (by rewrite length_le_split). apply name_strncpy.
Qed.
(** The table of the directory after the new entry is written. *)
Lemma written_dent sb a i k name inum a' i' : is_dir sb a i → 0 ≤ k ≤ dents i →
  written sb a i (sizeof_dirent * k) (new_dirent name inum) a' i' →
  is_dir sb a' i' ∧ dents i' = Z.max (dents i) (k + 1) ∧
  ∀ j, 0 ≤ j < dents i' → dent a' i' j = if decide (j = k) then new_dirent name inum else dent a i j.
Proof using.
  intros [Hi Ht Hm] Hk Hw. pose proof (wn_size _ _ _ _ _ _ _ Hw) as Hsz. rewrite length_new_dirent in Hsz.
  pose proof (iw_size _ _ _ Hi) as Hs0. unfold dents in *. change sizeof_dirent with 16 in *.
  assert (i_size i' / 16 = Z.max (i_size i / 16) (k + 1) ∧ i_size i' `mod` 16 = 0) as [Hd1 Hd2].
  { rewrite Hsz. clear -Hm Hk Hs0. destruct (Z.max_spec (i_size i) (16 * k + Z.of_nat 16)) as [[? ->]|[? ->]]; split; dlia. }
  split_and!; [|done|].
  - split; [apply (wn_iwf _ _ _ _ _ _ _ Hw)|rewrite (wn_fields _ _ _ _ _ _ _ Hw); done|done].
  - intros j Hj. apply list_eq. intros n. unfold dent. change sizeof_dirent with 16. change (Z.to_nat 16) with 16%nat.
    destruct (decide (n < 16)%nat) as [Hn|Hn].
    + rewrite fbytes_lookup by done. rewrite (wn_bytes _ _ _ _ _ _ _ Hw).
      2: { clear -Hd2 Hj Hn. dlia. }
      rewrite length_new_dirent. case_decide as H1; case_decide as H2.
      * subst j. replace (Z.to_nat (16 * k + Z.of_nat n - 16 * k)) with n by lia.
        destruct (lookup_lt_is_Some_2 (new_dirent name inum) n) as [y ->]; [by rewrite length_new_dirent|done].
      * lia.
      * subst j. lia.
      * by rewrite fbytes_lookup.
    + rewrite lookup_ge_None_2 by (rewrite length_fbytes; lia). symmetry. apply lookup_ge_None_2.
      case_decide; [rewrite length_new_dirent|rewrite length_fbytes]; lia.
Qed.

(** ** The directory as a table *)

(** The inode number [name] stands for. *)
Definition entry_of (name : list Z) a i (inum : Z) : Prop :=
  ∃ k, 0 ≤ k < dents i ∧ none_before name a i k ∧ matches name (dent a i k) ∧ inum = de_inum (dent a i k).
Definition absent (name : list Z) a i : Prop := none_before name a i (dents i).

Lemma matches_ext name name' e : name_of name' = name_of name → matches name' e ↔ matches name e.
Proof using. unfold matches. intros ->. done. Qed.
Lemma new_matches name inum name' : 0 < inum < 2 ^ 16 →
  matches name' (new_dirent name inum) ↔ name_of name' = name_of name.
Proof using.
  intros Hn. destruct (new_dirent_fields name inum ltac:(lia)) as [E1 E2]. unfold matches. rewrite E1, E2.
  split; [by intros [_ ->]|]. intros ->. split; [lia|done].
Qed.
Lemma linked_entries sb a i k name inum a' i' :
  is_dir sb a i → 0 ≤ k ≤ dents i → 0 < inum < 2 ^ 16 → absent name a i →
  (k < dents i → de_inum (dent a i k) = 0) →
  written sb a i (sizeof_dirent * k) (new_dirent name inum) a' i' →
  ∀ name' n, entry_of name' a' i' n ↔
    if decide (name_of name' = name_of name) then n = inum else entry_of name' a i n.
Proof using.
  intros Hdir Hk Hn Habs Hfree Hw name' n. destruct (written_dent _ _ _ _ _ _ _ _ Hdir Hk Hw) as (_ & Hd & Hdent).
  pose proof (new_matches name inum name' Hn) as Hnew. destruct (new_dirent_fields name inum ltac:(lia)) as [E1 _].
  assert (Hk' : k < dents i') by lia.
  assert (Hold : ∀ j, 0 ≤ j < dents i' → j ≠ k → j < dents i ∧ dent a' i' j = dent a i j).
  { intros j Hj Hjk. split; [lia|]. rewrite Hdent by done. by rewrite decide_False. }
  assert (Hat : dent a' i' k = new_dirent name inum) by (rewrite Hdent by lia; by rewrite decide_True).
  case_decide as E.
  - assert (Hab : ∀ j, 0 ≤ j < dents i → ¬ matches name' (dent a i j)).
    { intros j Hj Hmt. apply (Habs j Hj). by apply (matches_ext name'). }
    split.
    + intros (j & Hj & _ & Hmt & ->). destruct (decide (j = k)) as [->|Hjk]; [by rewrite Hat|].
      destruct (Hold j Hj Hjk) as [? E']. rewrite E' in Hmt. by destruct (Hab j ltac:(lia)).
    + intros ->. exists k. rewrite Hat. split_and!; [lia|lia| |by apply Hnew|done].
      intros j Hj. destruct (Hold j ltac:(lia) ltac:(lia)) as [? ->]. apply Hab. lia.
  - split.
    + intros (j & Hj & Hb & Hmt & ->). destruct (decide (j = k)) as [->|Hjk].
      { rewrite Hat in Hmt. by apply Hnew in Hmt. }
      destruct (Hold j Hj Hjk) as [Hj' E']. rewrite E' in *. exists j. split_and!; [lia|lia| |done|done].
      intros m Hm. destruct (decide (m = k)) as [->|Hmk]; [intros [? _]; by apply H, Hfree; lia|].
      destruct (Hold m ltac:(lia) Hmk) as [_ <-]. by apply Hb.
    + intros (j & Hj & Hb & Hmt & ->).
      assert (j ≠ k) as Hjk by (intros ->; destruct Hmt as [H _]; by apply H, Hfree; lia).
      destruct (Hold j ltac:(lia) Hjk) as [_ E']. exists j. rewrite E'. split_and!; [lia|lia| |done|done].
      intros m Hm. destruct (decide (m = k)) as [->|Hmk]; [rewrite Hat; intros Hx%Hnew; done|].
      destruct (Hold m ltac:(lia) Hmk) as [_ ->]. by apply Hb.
Qed.

Definition fs_all s (ip : nat) i (d : D) (m : kmem) : state :=
  Fsys d (fs_sb s) (it_lock s) (<[ip := i]> (it_inode s)) m.
Lemma dirlink_spec s a dp i name inum :
  rep s a → layout (fs_sb s) → idle (fs_sb s) a → it_inode s !! dp = Some i → is_dir (fs_sb s) a i → bytes name →
  0 < inum < 2 ^ 16 → absent name a i → i_size i + sizeof_dirent ≤ MAXFILE * BSIZE → res (fs_sb s) a i 2 →
  wp (dirlink pid pagetable de dp name inum) (λ r s', r = 0 ∧ ∃ d' m' a' i' k, s' = fs_all s dp i' d' m' ∧
    x_rep d' a' ∧ 0 ≤ k ≤ dents i ∧ (k < dents i → de_inum (dent a i k) = 0) ∧
    written (fs_sb s) a i (sizeof_dirent * k) (new_dirent name inum) a' i') s.
Proof using BSok Hde Hde' L pid.
  intros Hr Hly Hid Hip Hdir Hname Hinum Habs Hroom Hres. pose proof (dr_iwf _ _ _ Hdir) as Hi. unfold dirlink.
  apply wp_bind. eapply dirlookup_spec; [done..| |].
  2: { intros k d' m' _ Hk _ Hmt. by destruct (Habs k). }
  intros d1 m1 H1 _. cbn match beta. apply wp_bind. eapply wp_geti; [done|]. apply wp_bind.
  eapply (empty_loop_spec (fs_io s d1 m1)); [done..|]. intros k d2 m2 H2 Hk _ Hfree. rewrite fs_io_io.
  apply wp_bind, wp_memory, wp_modify. fold (new_dirent name inum). apply wp_bind.
  set (m3 := upd_mem (λ m, store_bytes m de (new_dirent name inum)) (fs_mem (fs_io s d2 m2))).
  change (set_fs_mem m3 (fs_io s d2 m2)) with (fs_io s d2 m3).
  assert (16 * k ≤ i_size i) as Hks.
  { unfold dents in Hk. change sizeof_dirent with 16 in Hk. clear -Hk. dlia. }
  assert (blocks_left (16 * k) 16 0 = 1%nat) as Ebl.
  { unfold blocks_left. rewrite BSIZE_eq. change (0 <? 16) with true. cbv iota.
    assert ((16 * k + 16 - 1) / 1024 = (16 * k + 0) / 1024) as -> by (clear -Hk; dlia). lia. }
  pose proof (writei_spec pagetable (fs_io s d2 m3) a dp i false de (new_dirent name inum) (16 * k)) as Hw.
  cbv zeta in Hw. rewrite length_new_dirent in Hw. change (Z.of_nat 16) with 16 in Hw. rewrite Ebl in Hw.
  change sizeof_dirent with 16 in Hde', Hroom. change sizeof_dirent with 16 at 1 2.
  eapply wp_mono; [apply Hw; try done|].
  - by apply new_dirent_bytes.
  - split; lia.
  - lia.
  - lia.
  - apply kernel_source; [done|by rewrite length_new_dirent|]. unfold m3. cbn [fs_mem fs_io k_mem upd_mem].
    apply load_store_bytes. by apply new_dirent_bytes.
  - intros r s' [-> (d4 & a4 & i4 & -> & H4 & Hwn)]. simpl Z.eqb. cbv iota. apply wp_ret. split; [done|].
    exists d4, m3, a4, i4, k. split_and!; try done; lia.
Qed.

(** ** The inode table *)

Definition active (i : inode) (dev inum : Z) : Prop := 0 < i_ref i ∧ i_dev i = dev ∧ i_inum i = inum.
#[export] Instance active_dec i dev inum : Decision (active i dev inum).
Proof using. unfold active. apply _. Defined.
Lemma iget_scan_spec dev inum l ip empty : (∀ i, i ∈ l → 0 ≤ i_ref i) →
  match iget_scan dev inum l ip empty with
  | inl jp => ∃ k i, l !! k = Some i ∧ jp = (ip + k)%nat ∧ active i dev inum
  | inr e => (∀ i, i ∈ l → ¬ active i dev inum) ∧
      match e with
      | Some jp => empty = Some jp ∨ empty = None ∧ ∃ k i, l !! k = Some i ∧ jp = (ip + k)%nat ∧ i_ref i = 0
      | None => empty = None ∧ ∀ i, i ∈ l → i_ref i ≠ 0
      end
  end.
Proof using.
  revert ip empty. induction l as [|i l IH]; intros ip empty Hpos.
  { simpl. split; [intros i Hi; by apply not_elem_of_nil in Hi|]. destruct empty; [by left|split; [done|]].
    intros i Hi. by apply not_elem_of_nil in Hi. }
  cbn [iget_scan]. destruct (decide (active i dev inum)) as [Ha|Ha].
  { destruct (Ha) as (Hr & Hd & Hn). apply Z.ltb_lt in Hr. rewrite Hr, Hd, Hn, !Z.eqb_refl. simpl.
    exists 0%nat, i. split_and!; [done|lia|done]. }
  assert ((0 <? i_ref i) && (i_dev i =? dev) && (i_inum i =? inum) = false) as ->.
  { apply not_true_iff_false. intros [[H1%Z.ltb_lt H2%Z.eqb_eq]%andb_true_iff H3%Z.eqb_eq]%andb_true_iff. by apply Ha. }
  set (empty' := match empty with None => if i_ref i =? 0 then Some ip else None | e => e end).
  assert (∀ i0, i0 ∈ l → 0 ≤ i_ref i0) as Hpos' by (intros i0 Hi0; apply Hpos; by right).
  specialize (IH (S ip) empty' Hpos'). destruct (iget_scan _ _ _ _ _) as [jp|e].
  { destruct IH as (k & i' & ? & -> & ?). exists (S k), i'. split_and!; [done|lia|done]. }
  destruct IH as [IH1 IH2]. split; [intros j [->|?]%elem_of_cons; [done|by apply IH1]|]. subst empty'.
  destruct e as [jp|].
  - destruct IH2 as [IH2|(E & k & i' & ? & -> & ?)].
    + destruct empty as [e0|]; [by left|right]. split; [done|]. destruct (Z.eqb_spec (i_ref i) 0); [|done].
      injection IH2 as <-. exists 0%nat, i. split_and!; [done|lia|done].
    + right. split; [by destruct empty|]. exists (S k), i'. split_and!; [done|lia|done].
  - destruct IH2 as [E IH2]. destruct empty; [done|]. split; [done|]. destruct (Z.eqb_spec (i_ref i) 0); [done|].
    intros j [->|?]%elem_of_cons; [done|by apply IH2].
Qed.
Definition table_room s : Prop := it_lock s = false ∧ (∀ i, i ∈ it_inode s → 0 ≤ i_ref i) ∧ ∃ i, i ∈ it_inode s ∧ i_ref i = 0.
Definition got s (dev inum : Z) (ip : nat) s' : Prop :=
  ∃ i, it_inode s !! ip = Some i ∧
    (active i dev inum ∧ s' = set_it_inode (<[ip := i_set_ref (i_ref i + 1) i]> (it_inode s)) s ∨
     (∀ j, j ∈ it_inode s → ¬ active j dev inum) ∧ i_ref i = 0 ∧
       s' = set_it_inode (<[ip := i_set_id dev inum 1 false i]> (it_inode s)) s).
Lemma wp_it_acquire s (Q : unit → state → Prop) : it_lock s = false → Q tt (set_it_lock true s) → wp it_acquire Q s.
Proof using. intros Hl HQ. apply wp_zoom. by rewrite Hl. Qed.
Lemma wp_it_release s (Q : unit → state → Prop) : it_lock s = true → Q tt (set_it_lock false s) → wp it_release Q s.
Proof using. intros Hl HQ. apply wp_zoom. by rewrite Hl. Qed.
Lemma iget_spec s dev inum : table_room s → wp (iget dev inum) (got s dev inum) s.
Proof using.
  intros (Hl & Hpos & (i0 & Hi0 & Hr0)). unfold iget. apply wp_bind, wp_it_acquire; [done|]. apply wp_bind, wp_gets.
  cbn [it_inode set_it_lock]. pose proof (iget_scan_spec dev inum (it_inode s) 0 None Hpos) as Hscan.
  assert (∀ l, set_it_lock false (set_it_inode l (set_it_lock true s)) = set_it_inode l s) as Es.
  { intros l. unfold set_it_lock, set_it_inode. simpl. by rewrite Hl. }
  destruct (iget_scan _ _ _ _ _) as [ip|[ip|]].
  - destruct Hscan as (k & i & Hk & -> & Ha). rewrite Nat.add_0_l. apply wp_bind, wp_modify, wp_bind, wp_it_release; [done|].
    apply wp_ret. exists i. split; [done|]. left. split; [done|].
    rewrite Es. cbn [it_inode set_it_lock]. by rewrite (alter_lookup _ _ _ _ Hk).
  - destruct Hscan as [Hno [?|(_ & k & i & Hk & -> & Hr)]]; [done|]. rewrite Nat.add_0_l.
    apply wp_bind, wp_modify, wp_bind, wp_it_release; [done|]. apply wp_ret. exists i. split; [done|]. right.
    split_and!; [done..|]. rewrite Es. cbn [it_inode set_it_lock]. by rewrite (alter_lookup _ _ _ _ Hk).
  - destruct Hscan as [_ [_ Hall]]. by destruct (Hall i0).
Qed.
End dir.
