(* ===== verification/FsStore.v ===== *)
(** The block store of fs.c: a transaction of kernel/log.c over any buffer
    cache that keeps its promises, kernel/bio.c among them. *)

From S2P Require Import Prelude Riscv Mem Spinlock Sleeplock Bio BioSpec BufCache FsLayout.
From S2P Require Import Log LogSpec LogCrash LogOps Fs FsBlocks.

Lemma size_union_le (X Y : gset Z) : (size (X ∪ Y) ≤ size X + size Y)%nat.
Proof. rewrite size_union_alt. pose proof (subseteq_size (Y ∖ X) Y). set_solver by lia. Qed.

Section store.
Context {S : Type} {BC : BufferCache S} {BCok : BufferCacheOk S} (pid start z : Z) (dk : disk).
Implicit Types d : log S.
Implicit Types a : atx.

#[local] Instance log_store : BlockStore (log S) := {
  s_bread dev no := bio (c_bread pid dev no);
  s_brelse b := bio (c_brelse pid b);
  s_data b d := c_data b (lg_bio d);
  s_set_data b x := bio (c_set_data b x);
  s_log_write b := log_write b;
  s_initlog dev sb := initlog pid dev sb;
}.

(** A call logs at most the blocks that begin_op reserves for it; the cache
    keeps a buffer for each of them, besides the three fs.c may hold. *)
Definition store_cap : nat := Z.to_nat MAXOPBLOCKS.
Definition store_block (no : Z) : Prop := 0 ≤ no < 2 ^ 31 ∧ ¬ log_area start z no.

(** The buffers in use are those of the logged blocks and those held. *)
Record cache_rep a (ab : abio) : Prop := {
  cr_none : ∀ no, no ∉ x_logged a → x_free a no → a_bufs ab !! no = None;
  cr_held : ∀ b no x, x_bufs a !! b = Some (no, x) →
    a_bufs ab !! no = Some (ABuf b x (if decide (no ∈ x_logged a) then 2 else 1) (Some pid));
  cr_pinned : ∀ no, no ∈ x_logged a → x_free a no → ∃ b, a_bufs ab !! no = Some (ABuf b (x_disk a no) 1 None);
  cr_disk : ∀ no, no ∉ x_logged a → store_block no → x_disk a no = dread dk no;
  cr_dk : a_disk ab = dk;
}.
Record store_rep d a : Prop := {
  sr_log : log_ok d;
  sr_lock : lg_lock d = false;
  sr_start : lg_start d = start;
  sr_size : lg_size d = z ∧ Z.of_nat store_cap < z - 1;
  sr_com : lg_committing d = false;
  sr_out : lg_outstanding d = 1;
  sr_logged : x_logged a = list_to_set (logged d);
  sr_nodup : NoDup (logged d);
  sr_range : ∀ no, no ∈ x_logged a → store_block no;
  sr_cap : (length (logged d) ≤ store_cap)%nat;
  sr_disk : ∀ no, is_block (x_disk a no);
  sr_held : ∀ b no x, x_bufs a !! b = Some (no, x) → store_block no ∧ is_block x;
  sr_cache : ∃ ab, c_rep (lg_bio d) ab ∧ cache_rep a ab;
}.

(** ** The size of the cache in use *)

Lemma free_dec a no : x_free a no ∨ ∃ b x, x_bufs a !! b = Some (no, x).
Proof.
  destruct (decide (Exists (λ p, p.2.1 = no) (map_to_list (x_bufs a)))) as [He|He].
  - right. apply Exists_exists in He as ([b [no' x]] & Hin & E). simpl in E. subst no'.
    apply elem_of_map_to_list in Hin. by exists b, x.
  - left. intros b x Hb E. apply He, Exists_exists. exists (b, x). split; [by apply elem_of_map_to_list|done].
Qed.
Lemma cache_size a ab : cache_rep a ab → (size (a_bufs ab) ≤ size (x_logged a) + size (x_bufs a))%nat.
Proof.
  intros Hc. set (nos := list_to_set ((map_to_list (x_bufs a)).*2.*1) : gset Z).
  assert (dom (a_bufs ab) ⊆ x_logged a ∪ nos) as Hsub.
  { intros no [ab0 Hno]%elem_of_dom. destruct (decide (no ∈ x_logged a)) as [|Hl]; [set_solver|].
    destruct (free_dec a no) as [Hf|(b & x & Hb)]; [rewrite (cr_none _ _ Hc) in Hno by done; done|].
    apply elem_of_union_r, elem_of_list_to_set, list_elem_of_fmap. exists (no, x). split; [done|].
    apply list_elem_of_fmap. exists (b, (no, x)). split; [done|]. by apply elem_of_map_to_list. }
  apply subseteq_size in Hsub. rewrite size_dom in Hsub. etrans; [exact Hsub|]. etrans; [apply size_union_le|].
  apply Nat.add_le_mono_l. unfold nos.
  assert (∀ l : list Z, (size (list_to_set l : gset Z) ≤ length l)%nat) as Hle.
  { induction l as [|y l IH]; [done|]. rewrite list_to_set_cons. etrans; [apply size_union_le|]. rewrite size_singleton. simpl. lia. }
  etrans; [apply Hle|]. by rewrite !length_fmap, length_map_to_list.
Qed.
Lemma logged_size d a : store_rep d a → size (x_logged a) = length (logged d).
Proof. intros H. rewrite (sr_logged _ _ H). apply size_list_to_set, (sr_nodup _ _ H). Qed.

(** ** Keeping the representation *)

Lemma x_free_hold a b no x no' : x_bufs a !! b = None → x_free (x_hold b no x a) no' ↔ x_free a no' ∧ no' ≠ no.
Proof.
  intros Hb. unfold x_free, x_hold. simpl. split.
  - intros H. split.
    + intros b' y Hy. apply (H b'). rewrite lookup_insert_ne; [done|]. congruence.
    + intros ->. by apply (H b (no, x)); [rewrite lookup_insert_eq|].
  - intros [H Hne] b' y. rewrite lookup_insert_Some. intros [[_ <-]|[_ ?]]; [simpl; congruence|by apply (H b')].
Qed.
Lemma x_free_drop a b no x no' : x_bufs a !! b = Some (no, x) →
  (∀ b' y, x_bufs a !! b' = Some (no, y) → b' = b) →
  x_free (x_drop b a) no' ↔ x_free a no' ∨ no' = no.
Proof.
  intros Hb Huq. unfold x_free, x_drop. simpl. split.
  - intros H. destruct (decide (no' = no)) as [->|Hne]; [by right|left]. intros b' [n y] Hy E.
    destruct (decide (b' = b)) as [->|Hbb]; [rewrite Hb in Hy; injection Hy as <- <-; by apply Hne|].
    by apply (H b' (n, y)); [rewrite lookup_delete_ne|].
  - intros H b' [n y] [Hbb Hy]%lookup_delete_Some E. simpl in E. subst n. destruct H as [H| ->]; [by apply (H b' (no', y))|].
    apply Hbb. symmetry. by apply (Huq _ y).
Qed.
Lemma store_rep_bio d a b a' :
  store_rep d a → x_logged a' = x_logged a → x_disk a' = x_disk a →
  (∀ b no x, x_bufs a' !! b = Some (no, x) → store_block no ∧ is_block x) →
  (∃ ab, c_rep b ab ∧ cache_rep a' ab) → store_rep (lg_set_bio b d) a'.
Proof.
  intros [Hlog Hlk Hst Hsz Hcom Hout Hlg Hnd Hrg Hcap Hdisk Hheld _] El Ed Hh Hc. split; try done.
  - destruct Hlog. by split.
  - by rewrite El.
  - by rewrite El.
  - by rewrite Ed.
Qed.
Lemma held_unique a ab b b' no x y :
  cache_rep a ab → x_bufs a !! b = Some (no, x) → x_bufs a !! b' = Some (no, y) → b' = b.
Proof. intros Hc H1%(cr_held _ _ Hc) H2%(cr_held _ _ Hc). congruence. Qed.

(** A block is taken: it gets a buffer, or its pinned one. *)
Lemma cache_take a ab no b :
  cache_rep a ab → store_block no → x_free a no → x_bufs a !! b = None → a_slot ab no b →
  cache_rep (x_hold b no (x_disk a no) a) (a_take pid no b ab).
Proof.
  intros Hc Hno Hf Hb Hslot. unfold a_take. split.
  - intros n Hn Hfn. simpl in Hn. apply x_free_hold in Hfn as [Hfn Hne]; [|done].
    rewrite a_set_lookup_ne by congruence. by apply (cr_none _ _ Hc).
  - intros b' n y Hy. simpl in Hy. apply lookup_insert_Some in Hy as [[<- [= <- <-]]|[Hne Hy]].
    + rewrite a_set_lookup. simpl x_logged. unfold a_view, a_refs. case_decide as Hl.
      * destruct (cr_pinned _ _ Hc no Hl Hf) as [b0 E]. by rewrite E.
      * rewrite (cr_none _ _ Hc no Hl Hf). rewrite (cr_disk _ _ Hc no Hl Hno), (cr_dk _ _ Hc). done.
    + rewrite a_set_lookup_ne; [by apply (cr_held _ _ Hc)|]. intros ->. by apply (Hf _ _ Hy).
  - intros n Hl Hfn. apply x_free_hold in Hfn as [Hfn Hne]; [|done]. simpl in Hl.
    rewrite a_set_lookup_ne by congruence. by apply (cr_pinned _ _ Hc).
  - intros n Hl Hb'. by apply (cr_disk _ _ Hc).
  - apply (cr_dk _ _ Hc).
Qed.
Lemma take_fresh d a ab no b :
  c_rep (lg_bio d) ab → cache_rep a ab → x_free a no → a_slot ab no b → x_bufs a !! b = None.
Proof.
  intros Hr Hc Hf Hslot. destruct (x_bufs a !! b) as [[n y]|] eqn:E; [exfalso|done].
  pose proof (cr_held _ _ Hc _ _ _ E) as En. unfold a_slot in Hslot.
  destruct (a_bufs ab !! no) as [ab0|] eqn:Eno.
  - destruct (c_fields_ok _ _ _ _ Hr En) as [F1 _]. destruct (c_fields_ok _ _ _ _ Hr Eno) as [F2 _].
    simpl in F1. rewrite <- Hslot, F1 in F2. by apply (Hf _ _ E).
  - destruct Hslot as [_ Hun]. by apply (Hun _ _ En).
Qed.

Lemma x_free_rehold a b no x x' n : x_bufs a !! b = Some (no, x) → x_free (x_hold b no x' a) n ↔ x_free a n.
Proof.
  intros Hb. unfold x_free, x_hold. simpl. split.
  - intros H b' y Hy. destruct (decide (b' = b)) as [->|Hne].
    + rewrite Hb in Hy. injection Hy as <-. apply (H b (no, x')). by rewrite lookup_insert_eq.
    + apply (H b'). by rewrite lookup_insert_ne.
  - intros H b' y. rewrite lookup_insert_Some. intros [[<- <-]|[_ ?]]; [by apply (H b (no, x))|by apply (H b')].
Qed.
(** The data of a held buffer changes. *)
Lemma cache_set a ab b no x x' :
  cache_rep a ab → x_bufs a !! b = Some (no, x) →
  cache_rep (x_hold b no x' a) (a_set no (ABuf b x' (if decide (no ∈ x_logged a) then 2 else 1) (Some pid)) ab).
Proof.
  intros Hc Hb. assert (∀ n, x_free a n → n ≠ no) as Hfn by (intros n Hn ->; by apply (Hn _ _ Hb)). split.
  - intros n Hn Hf%(x_free_rehold _ _ _ _ _ _ Hb). pose proof (Hfn _ Hf). rewrite a_set_lookup_ne by congruence.
    by apply (cr_none _ _ Hc).
  - intros b' n y Hy. simpl in Hy. apply lookup_insert_Some in Hy as [[<- [= <- <-]]|[Hne Hy]].
    + by rewrite a_set_lookup.
    + rewrite a_set_lookup_ne; [by apply (cr_held _ _ Hc)|]. intros <-. apply Hne. symmetry. by apply (held_unique a ab b b' no x y).
  - intros n Hl Hf%(x_free_rehold _ _ _ _ _ _ Hb). pose proof (Hfn _ Hf). rewrite a_set_lookup_ne by congruence.
    by apply (cr_pinned _ _ Hc).
  - intros n Hl Hn. by apply (cr_disk _ _ Hc).
  - apply (cr_dk _ _ Hc).
Qed.
(** A held buffer is released. *)
Lemma cache_give a ab b no x :
  cache_rep a ab → x_bufs a !! b = Some (no, x) → x = x_disk a no →
  cache_rep (x_drop b a) (a_give no (ABuf b x (if decide (no ∈ x_logged a) then 2 else 1) (Some pid)) None ab).
Proof.
  intros Hc Hb Hx. pose proof (λ b' y, held_unique a ab b b' no x y Hc Hb) as Huq.
  assert (∀ n, n ≠ no → a_bufs (a_give no (ABuf b x (if decide (no ∈ x_logged a) then 2 else 1) (Some pid)) None ab) !! n =
    a_bufs ab !! n) as Hoth.
  { intros n Hn. unfold a_give. simpl ab_ref. destruct (decide (no ∈ x_logged a)); [|]; (case_decide; [|]); try lia.
    - by rewrite a_set_lookup_ne.
    - simpl. by rewrite lookup_delete_ne. }
  assert (∀ n, x_free a n → n ≠ no) as Hfn by (intros n Hn ->; by apply (Hn _ _ Hb)). split.
  - intros n Hn Hf. apply (x_free_drop _ _ _ _ _ Hb Huq) in Hf as [Hf| ->].
    + rewrite Hoth by auto. by apply (cr_none _ _ Hc).
    + simpl in Hn. unfold a_give. rewrite (decide_False (P := no ∈ _)) by done. rewrite decide_True by done.
      simpl. apply lookup_delete_eq.
  - intros b' n y Hy. simpl in Hy. apply lookup_delete_Some in Hy as [Hne Hy]. rewrite Hoth; [by apply (cr_held _ _ Hc)|].
    intros ->. by apply Hne; symmetry; apply (Huq _ y).
  - intros n Hl Hf. simpl in Hl. apply (x_free_drop _ _ _ _ _ Hb Huq) in Hf as [Hf| ->].
    + rewrite Hoth by auto. by apply (cr_pinned _ _ Hc).
    + exists b. unfold a_give. rewrite (decide_True (P := no ∈ _)) by done. rewrite decide_False by done.
      rewrite a_set_lookup. simpl. by rewrite Hx.
  - intros n Hl Hn. unfold a_give. simpl in Hl. by apply (cr_disk _ _ Hc).
  - unfold a_give. case_decide; apply (cr_dk _ _ Hc).
Qed.
(** A held buffer is logged. *)
Lemma cache_log a ab b no x :
  cache_rep a ab → x_bufs a !! b = Some (no, x) →
  cache_rep (x_put no x a) (a_set no (ABuf b x 2 (Some pid)) ab).
Proof.
  intros Hc Hb. assert (∀ n, x_free a n → n ≠ no) as Hfn by (intros n Hn ->; by apply (Hn _ _ Hb)). split.
  - intros n Hn Hf. simpl in Hn. rewrite a_set_lookup_ne by set_solver. apply (cr_none _ _ Hc); [set_solver|done].
  - intros b' n y Hy. simpl x_bufs in Hy. destruct (decide (n = no)) as [->|Hne].
    + rewrite a_set_lookup. pose proof (held_unique a ab b b' no x y Hc Hb Hy) as ->. rewrite Hb in Hy. injection Hy as <-.
      rewrite decide_True; [done|]. simpl. set_solver.
    + rewrite a_set_lookup_ne by done. rewrite (cr_held _ _ Hc _ _ _ Hy). do 2 f_equal. apply decide_ext. simpl. set_solver.
  - intros n Hl Hf. pose proof (Hfn n Hf) as Hne. rewrite a_set_lookup_ne by done. rewrite x_put_ne by done.
    apply (cr_pinned _ _ Hc); [|done]. simpl in Hl. set_solver.
  - intros n Hl Hn. simpl in Hl. rewrite x_put_ne by set_solver. apply (cr_disk _ _ Hc); [set_solver|done].
  - apply (cr_dk _ _ Hc).
Qed.

(** ** The promises *)

Lemma store_bread d a no : store_rep d a → store_block no → x_free a no → (size (x_bufs a) < 3)%nat →
  wp (s_bread ROOTDEV no) (λ b d', x_bufs a !! b = None ∧ store_rep d' (x_hold b no (x_disk a no) a)) d.
Proof.
  intros Hr Hno Hf Hfew. destruct (sr_cache _ _ Hr) as (ab & Hab & Hc). apply wp_bio.
  pose proof (logged_size _ _ Hr) as Hls. pose proof (sr_cap _ _ Hr) as Hcap.
  eapply wp_mono; [apply (c_bread_ok _ ab)|].
  - done.
  - intros ab0 E. destruct (decide (no ∈ x_logged a)) as [Hl|Hl].
    + destruct (cr_pinned _ _ Hc no Hl Hf) as [b0 E']. rewrite E in E'. injection E' as ->. simpl. split; [done|lia].
    + rewrite (cr_none _ _ Hc) in E by done. done.
  - apply a_room_size. pose proof (cache_size _ _ Hc). change nbuf with 30%nat. unfold store_cap, MAXOPBLOCKS in *. lia.
  - intros b d' [Hslot Hr']. pose proof (take_fresh _ _ _ _ _ Hab Hc Hf Hslot) as Hb. split; [done|].
    eapply (store_rep_bio d a); [done|done|done| |].
    + intros b' n x. simpl. rewrite lookup_insert_Some. intros [[_ [= <- <-]]|[_ ?]]; [split; [done|apply (sr_disk _ _ Hr)]|by eapply (sr_held _ _ Hr)].
    + eexists. split; [exact Hr'|]. by apply cache_take.
Qed.
Lemma store_data d a b no x : store_rep d a → x_bufs a !! b = Some (no, x) → s_data b d = x.
Proof.
  intros Hr Hb. destruct (sr_cache _ _ Hr) as (ab & Hab & Hc).
  by destruct (c_fields_ok _ _ _ _ Hab (cr_held _ _ Hc _ _ _ Hb)).
Qed.
Lemma store_set_data d a b no x x' : store_rep d a → x_bufs a !! b = Some (no, x) → is_block x' →
  wp (s_set_data b x') (λ _ d', store_rep d' (x_hold b no x' a)) d.
Proof.
  intros Hr Hb Hx. destruct (sr_cache _ _ Hr) as (ab & Hab & Hc). apply wp_bio.
  eapply wp_mono; [apply (c_set_data_ok _ _ _ _ x' Hab (cr_held _ _ Hc _ _ _ Hb))|]. intros [] d' Hr'.
  eapply (store_rep_bio d a); [done|done|done| |].
  - intros b' n y. simpl. rewrite lookup_insert_Some. intros [[_ [= <- <-]]|[_ ?]]; [|by eapply (sr_held _ _ Hr)].
    split; [|done]. by apply (sr_held _ _ Hr b no x).
  - eexists. split; [exact Hr'|]. simpl. by apply (cache_set _ _ _ _ x).
Qed.
Lemma store_brelse d a b no x : store_rep d a → x_bufs a !! b = Some (no, x) → x = x_disk a no →
  wp (s_brelse b) (λ _ d', store_rep d' (x_drop b a)) d.
Proof.
  intros Hr Hb Hx. destruct (sr_cache _ _ Hr) as (ab & Hab & Hc). pose proof (cr_held _ _ Hc _ _ _ Hb) as E. apply wp_bio.
  eapply wp_mono; [apply (c_brelse_ok _ _ pid no _ Hab E); [done|]|].
  - simpl. case_decide as Hl; [done|]. intros _. rewrite Hx, (cr_dk _ _ Hc). apply (cr_disk _ _ Hc); [done|]. by apply (sr_held _ _ Hr b no x).
  - intros [] d' Hr'. eapply (store_rep_bio d a); [done|done|done| |].
    + intros b' n y. simpl. rewrite lookup_delete_Some. intros [_ ?]. by eapply (sr_held _ _ Hr).
    + eexists. split; [exact Hr'|]. by apply cache_give.
Qed.
Lemma log_pos_in d no : (∀ h, h ∈ logged d → 0 ≤ h < 2 ^ 31) → no ∈ logged d →
  ∃ h, logged d !! log_pos no (logged d) = Some h ∧ h = no ∧ (log_pos no (logged d) < length (logged d))%nat.
Proof.
  intros Hrg Hin. unfold log_pos. destruct (list_find (λ h, u32 h = no) (logged d)) as [[j h]|] eqn:E.
  - apply list_find_Some in E as (Hj & Hu & _). exists h. split_and!; [done| |by eapply lookup_lt_Some].
    rewrite <- Hu. symmetry. apply Z.mod_small. pose proof (Hrg h ltac:(by eapply list_elem_of_lookup_2)). lia.
  - apply list_find_None in E. rewrite list.Forall_forall in E. exfalso. apply (E no Hin). apply Z.mod_small.
    pose proof (Hrg no Hin). lia.
Qed.
Lemma log_pos_out no bs : (∀ h, h ∈ bs → 0 ≤ h < 2 ^ 31) → no ∉ bs → log_pos no bs = length bs.
Proof.
  intros Hrg Hno. unfold log_pos. destruct (list_find (λ h, u32 h = no) bs) as [[j h]|] eqn:E; [exfalso|done].
  apply list_find_Some in E as (Hj & Hu & _). apply Hno. pose proof (list_elem_of_lookup_2 _ _ _ Hj) as Hin.
  rewrite <- Hu. unfold u32. rewrite Z.mod_small; [done|]. pose proof (Hrg h Hin). lia.
Qed.

Lemma log_put_same d no j : (j < Z.to_nat (lh_n d))%nat → logged d !! j = Some no → s32 no = no →
  <[j := s32 no]> (lh_block d) = lh_block d.
Proof. intros Hj Hl ->. apply list_insert_id. by apply logged_lookup. Qed.
Lemma logged_snoc d no : log_ok d → lh_n d < LOGSIZE →
  let d' := lh_set_n (lh_n d + 1) (lh_set_block (<[length (logged d) := no]> (lh_block d)) d) in
  logged d' = logged d ++ [no].
Proof.
  intros Hok Hn d'. pose proof (lo_n _ Hok). pose proof (lo_len _ Hok) as Hlen. pose proof (length_logged _ Hok) as Hll.
  unfold d'. rewrite Hll. unfold logged. simpl.
  replace (Z.to_nat (lh_n d + 1)) with (Datatypes.S (Z.to_nat (lh_n d))) by lia.
  rewrite (take_S_r _ _ no) by (apply list_lookup_insert_eq; lia). f_equal. by rewrite take_insert_ge by lia.
Qed.
Lemma store_log_write d a b no x : store_rep d a → x_bufs a !! b = Some (no, x) →
  (size ({[no]} ∪ x_logged a) ≤ store_cap)%nat → wp (s_log_write b) (λ _ d', store_rep d' (x_put no x a)) d.
Proof.
  intros Hr Hb Hcap. destruct (sr_cache _ _ Hr) as (ab & Hab & Hc). pose proof (cr_held _ _ Hc _ _ _ Hb) as E.
  destruct (c_fields_ok _ _ _ _ Hab E) as [Fno _]. simpl in Fno. destruct (sr_held _ _ Hr _ _ _ Hb) as [[Hrange Hnl] Hx].
  pose proof (sr_log _ _ Hr) as Hok. pose proof (length_logged _ Hok) as Hll. pose proof (sr_cap _ _ Hr) as Hcap0.
  pose proof (lo_n _ Hok) as Hn. destruct (sr_size _ _ Hr) as [Hzz Hsz]. pose proof (sr_logged _ _ Hr) as Hlg.
  assert (∀ h, h ∈ logged d → 0 ≤ h < 2 ^ 31) as Hrg.
  { intros h Hh. apply (sr_range _ _ Hr). rewrite Hlg. by apply elem_of_list_to_set. }
  assert (s32 no = no) as Hs32 by (apply s32_id; lia).
  assert (LOGSIZE = 30) as HLS by done. change store_cap with 10%nat in *.
  assert (∀ n, is_block (x_disk (x_put no x a) n)) as Hblk by (intros n; simpl; destruct (decide (n = no)); [done|apply (sr_disk _ _ Hr)]).
  unfold wp. simpl s_log_write.
  rewrite (log_write_run d b Hok (sr_lock _ _ Hr)) by (lia || (rewrite (sr_out _ _ Hr); lia)). rewrite Fno.
  destruct (decide (no ∈ logged d)) as [Hin|Hin].
  - destruct (log_pos_in d no Hrg Hin) as (h & Hh & -> & Hlt). rewrite decide_False by lia.
    assert (log_put no d = d) as ->.
    { unfold log_put. rewrite (log_put_same d no) by (done || lia). by destruct d. }
    assert ({[no]} ∪ x_logged a = x_logged a) as El.
    { rewrite Hlg. apply set_eq. intros n. rewrite elem_of_union, elem_of_singleton, elem_of_list_to_set. naive_solver. }
    destruct Hr as [? ? ? ? ? ? ? ? ? ? ? Hheld _]. split; try done; simpl x_logged; rewrite ?El; try done.
    exists ab. split; [done|]. pose proof (cache_log _ _ _ _ _ Hc Hb) as Hc'.
    rewrite decide_True in E by (rewrite Hlg; by apply elem_of_list_to_set). by rewrite (a_set_id _ _ _ E) in Hc'.
  - rewrite (log_pos_out no (logged d) Hrg Hin), decide_True by done.
    assert (no ∉ x_logged a) as Hnx by (rewrite Hlg; by rewrite elem_of_list_to_set).
    rewrite decide_False in E by done. pose proof (c_bpin_ok _ _ _ _ Hab E ltac:(simpl; lia)) as Hpin. simpl in Hpin.
    unfold wp in Hpin. destruct (c_bpin b (lg_bio d)) as [[] b'| | |]; [|done..].
    unfold log_put. rewrite (log_pos_out no (logged d) Hrg Hin), Hs32.
    rewrite size_union, size_singleton, (logged_size _ _ Hr) in Hcap by set_solver.
    pose proof (logged_snoc d no Hok ltac:(lia)) as Hsn. cbv zeta in Hsn.
    set (d' := lh_set_n _ _). assert (logged d' = logged d ++ [no]) as Hlg' by exact Hsn. split.
    + destruct Hok as [? Hlen ? ?]. split; [done| |simpl; lia|done|simpl; lia]. simpl. by rewrite length_insert.
    + apply (sr_lock _ _ Hr).
    + apply (sr_start _ _ Hr).
    + apply (sr_size _ _ Hr).
    + apply (sr_com _ _ Hr).
    + apply (sr_out _ _ Hr).
    + rewrite Hlg'. simpl. rewrite Hlg, list_to_set_app_L. set_solver.
    + rewrite Hlg'. apply list.NoDup_app. split_and!; [apply (sr_nodup _ _ Hr)|set_solver|apply NoDup_singleton].
    + intros n. simpl. intros [->%elem_of_singleton|Hn']%elem_of_union; [done|by apply (sr_range _ _ Hr)].
    + rewrite Hlg', length_app. simpl. change store_cap with 10%nat. lia.
    + done.
    + apply (sr_held _ _ Hr).
    + eexists. split; [exact Hpin|]. by apply cache_log.
Qed.

(** ** The commit *)

(** With no buffer held the transaction can commit, and it commits the blocks
    as its reader sees them. *)
Lemma store_tx d a : store_rep d a → x_bufs a = ∅ → is_block (dread dk start) → hd_n (dread dk start) = 0 →
  ∃ ab, tx_ready d ab ∧ a_disk ab = dk ∧ (∀ no, store_block no → tx_view d ab no = x_disk a no) ∧
    (∀ no, no ∉ logged d → a_bufs ab !! no = None) ∧
    ∀ no, no ∈ logged d → a_view ab no = x_disk a no ∧ ∃ x, a_bufs ab !! no = Some x ∧ ab_ref x = 1.
Proof.
  intros Hr Hb Hblk Hclear. destruct (sr_cache _ _ Hr) as (ab & Hab & Hc). exists ab.
  pose proof (sr_logged _ _ Hr) as Hlg. pose proof (cr_dk _ _ Hc) as Hdk.
  assert (∀ no, x_free a no) as Hfree by (intros no b x; rewrite Hb; by rewrite lookup_empty).
  assert (∀ no, no ∈ logged d ↔ no ∈ x_logged a) as Hin by (intros no; by rewrite Hlg, elem_of_list_to_set).
  assert (∀ no, no ∈ logged d → ∃ b, a_bufs ab !! no = Some (ABuf b (x_disk a no) 1 None)) as Hpin.
  { intros no Hl%Hin. by apply (cr_pinned _ _ Hc). }
  split_and!; [|done|..].
  - split; [apply (sr_log _ _ Hr)|done|apply (sr_nodup _ _ Hr)|..].
    + intros h Hh%Hin. destruct (sr_range _ _ Hr _ Hh) as [? ?]. split; [split; lia|].
      unfold in_log. by rewrite (sr_start _ _ Hr), (proj1 (sr_size _ _ Hr)).
    + intros h Hh%Hin. destruct (cr_pinned _ _ Hc h Hh (Hfree h)) as [b E]. split; [by rewrite E|].
      intros ab0 E'. rewrite E in E'. injection E' as <-. simpl. split; [done|lia].
    + intros no Hno. apply (cr_none _ _ Hc); [|done]. intros Hl. destruct (sr_range _ _ Hr _ Hl) as [_ Hn].
      apply Hn. unfold in_log in Hno. by rewrite (sr_start _ _ Hr), (proj1 (sr_size _ _ Hr)) in Hno.
    + pose proof (cache_size _ _ Hc) as Hs. rewrite Hb, map_size_empty, (logged_size _ _ Hr) in Hs.
      pose proof (sr_cap _ _ Hr). change store_cap with 10%nat in *. change nbuf with 30%nat. lia.
    + by rewrite (sr_start _ _ Hr), Hdk.
    + by rewrite (sr_start _ _ Hr), Hdk.
  - intros no Hno. unfold tx_view, new_view. case_decide as Hl.
    + destruct (Hpin no Hl) as [b E]. unfold a_view. by rewrite E.
    + rewrite Hdk. symmetry. apply (cr_disk _ _ Hc); [|done]. by rewrite <- Hin.
  - intros no Hl. apply (cr_none _ _ Hc); [|done]. by rewrite <- Hin.
  - intros no Hl. destruct (Hpin no Hl) as [b E]. unfold a_view. rewrite E. split; [done|]. by eexists.
Qed.

#[local] Instance log_store_ok : BlockStoreOk (log S) := {
  x_rep := store_rep;
  x_block := store_block;
  x_cap := store_cap;
  x_disk_ok d a no Hr := sr_disk _ _ Hr no;
  x_bread_ok := store_bread;
  x_data_ok := store_data;
  x_set_data_ok := store_set_data;
  x_log_write_ok := store_log_write;
  x_brelse_ok := store_brelse;
}.

(** ** A whole call *)

(** The log between two calls: nothing is logged and no buffer is in use. *)
Record quiet d : Prop := {
  qt_log : log_ok d;
  qt_lock : lg_lock d = false;
  qt_start : lg_start d = start;
  qt_size : lg_size d = z ∧ Z.of_nat store_cap < z - 1;
  qt_com : lg_committing d = false;
  qt_out : lg_outstanding d = 0;
  qt_n : lh_n d = 0;
  qt_rep : c_rep (lg_bio d) (ABio dk ∅);
  qt_block : ∀ no, is_block (dread dk no);
  qt_clear : hd_n (dread dk start) = 0;
}.
Definition disk_tx : atx := ATx (dread dk) ∅ ∅.
Lemma store_begin d : quiet d → wp begin_op (λ _ d', store_rep d' disk_tx) d.
Proof.
  intros [Hok Hlk Hst Hsz Hcom Hout Hn Hr Hblk Hcl]. unfold wp. rewrite begin_op_run by done.
  rewrite Hcom, Hn, Hout. simpl. assert (logged d = []) as Hlg by (unfold logged; by rewrite Hn).
  split; simpl; try done.
  - by destruct Hok.
  - unfold logged in *. simpl. by rewrite Hlg.
  - unfold logged in *. simpl. rewrite Hlg. apply NoDup_nil_2.
  - unfold logged in *. simpl. rewrite Hlg. simpl. lia.
  - exists (ABio dk ∅). split; [done|]. split; try done.
Qed.
Lemma a_inst_gone bs f ab : NoDup bs →
  (∀ h, h ∈ bs → ∃ x, a_bufs ab !! h = Some x ∧ ab_ref x = 1) →
  ∀ h, h ∈ bs → a_bufs (a_inst bs f ab) !! h = None.
Proof.
  induction bs as [|h0 bs IH] using rev_ind; intros Hnd Hin h Hh; [set_solver|]. rewrite a_inst_snoc.
  apply list.NoDup_app in Hnd as (Hnd & Hdis & _). destruct (decide (h = h0)) as [->|Hne].
  - destruct (Hin h0 Hh) as (x & Hx & Href). unfold a_install.
    rewrite (a_inst_other bs f ab h0), Hx by set_solver. unfold a_give. rewrite decide_True by done. simpl. apply lookup_delete_eq.
  - rewrite a_install_other by done. apply IH; [done| |set_solver]. intros h' Hh'. apply Hin. set_solver.
Qed.
End store.

(** The end of a call. *)
Section commit.
Context {S : Type} {BC : BufferCache S} {BCok : BufferCacheOk S} (pid start z : Z).

(** What a restart reads through the log. *)
Definition shows (v : Z → block) (c : disk) : Prop := ∀ no, store_block start z no → lview start c no = v no.
(** A crash while the disk goes from [dk] to [dk'] shows [v] or [v']. *)
Definition all_or_nothing (dk dk' : disk) (v v' : Z → block) : Prop :=
  ∀ c, crash dk dk' c → valid_log start z c ∧ (shows v c ∨ shows v' c).

Lemma dread_blocks (w : disk) (d : disk) : (∀ p, p ∈ w → is_block p.2) → (∀ no, is_block (dread d no)) →
  ∀ no, is_block (dread (w ++ d) no).
Proof.
  intros Hw Hd no. induction w as [|[b x] w IH]; [done|]. simpl. destruct (b =? no).
  - apply (Hw (b, x)). by left.
  - apply IH. intros p Hp. apply Hw. by right.
Qed.
Lemma crash_same d c : crash d d c → c = d.
Proof.
  intros (w1 & w2 & E & ->). assert (length (w1 ++ w2 ++ d) = length d) as El by (by rewrite <- E).
  rewrite !length_app in El. destruct w2; [done|simpl in El; lia].
Qed.
Lemma sees_shows v c : sees start z v c → shows v c.
Proof. intros H no [_ Hno]. by apply H. Qed.

Lemma installed_blocks dk bs f h0 h1 : (∀ no, is_block (dread dk no)) → is_block h0 → is_block h1 →
  (∀ h, h ∈ bs → is_block (f h)) → ∀ no, is_block (dread (installed start dk bs f h0 h1) no).
Proof.
  intros Hdk H0 H1 Hf. unfold installed, committed. apply (dread_blocks [(start, h0)]).
  { intros p ->%list_elem_of_singleton. done. }
  apply dread_blocks.
  { intros p. unfold home_writes. rewrite elem_of_reverse. intros (h & -> & Hh)%list_elem_of_fmap_1. by apply Hf. }
  apply (dread_blocks [(start, h1)]); [by intros p ->%list_elem_of_singleton|]. apply dread_blocks; [|done].
  intros p. unfold log_writes. rewrite elem_of_reverse. intros (i & h & -> & Hh)%elem_of_lookup_imap_1.
  apply Hf. by eapply list_elem_of_lookup_2.
Qed.
Lemma commit_tx (d : log S) ab :
  tx_ready d ab → lg_start d = start → lg_size d = z → (∀ no, is_block (dread (a_disk ab) no)) →
  (∀ no, no ∉ logged d → a_bufs ab !! no = None) →
  (∀ no, no ∈ logged d → is_block (a_view ab no) ∧ ∃ x, a_bufs ab !! no = Some x ∧ ab_ref x = 1) →
  wp (commit pid) (λ _ d', ∃ dk' b, d' = lh_set_n 0 (lg_set_bio b d) ∧ c_rep b (ABio dk' ∅) ∧
    (∀ no, is_block (dread dk' no)) ∧ hd_n (dread dk' start) = 0 ∧
    (∀ no, store_block start z no → dread dk' no = tx_view d ab no) ∧
    all_or_nothing (a_disk ab) dk' (dread (a_disk ab)) (tx_view d ab)) d.
Proof.
  intros Ht Hst Hz Hblk Hout Hin. pose proof Ht as [Hok Hr Hnd Hhome _ _ _ _ Hclear]. pose proof (lo_n _ Hok) as Hn. pose proof (lo_size _ Hok) as Hsz. rewrite Hz in Hsz.
  destruct (decide (lh_n d = 0)) as [H0|H0].
  - assert (logged d = []) as Hlg by (unfold logged; by rewrite H0). unfold commit. apply wp_bind, wp_gets.
    rewrite H0. simpl. apply wp_ret. exists (a_disk ab), (lg_bio d). rewrite Hst in *. split_and!; [|..|done|done| |].
    + destruct d. simpl in *. by subst.
    + assert (a_bufs ab = ∅) as <-. { apply map_empty. intros no. apply Hout. rewrite Hlg. set_solver. } by destruct ab.
    + intros no _. unfold tx_view, new_view. rewrite Hlg. rewrite decide_False by set_solver. done.
    + intros c ->%crash_same. split; [apply valid_clear; [done|done|lia]|]. left. intros no _. by apply lview_clear.
  - eapply wp_mono; [apply (commit_spec pid d ab); [done|lia]|].
    intros [] d' (b & h0 & h1 & -> & Hh1 & Hh0 & Hb). rewrite Hst in *.
    rewrite <- (Z2Nat.id (lh_n d)), <- length_logged in Hh1 by (done || lia).
    assert (Z.of_nat (length (logged d)) ≤ LOGSIZE ∧ Z.of_nat (length (logged d)) < z) as [Hlen Hlz] by (rewrite length_logged by done; lia).
    assert (∀ h, h ∈ logged d → fits 31 h ∧ ¬ log_area start z h) as Hbs.
    { intros h Hh. destruct (Hhome h Hh) as [? Hnl]. split; [done|]. unfold in_log in Hnl. by rewrite Hst, Hz in Hnl. }
    eexists _, b. split; [done|].
    assert (a_bufs (a_inst (logged d) (a_view ab) ab) = ∅) as Hem.
    { apply map_empty. intros no. destruct (decide (no ∈ logged d)) as [Hl|Hl].
      - apply a_inst_gone; [done| |done]. intros h Hh. apply (Hin h Hh).
      - rewrite a_inst_other by done. by apply Hout. }
    rewrite Hem in Hb. split_and!; [exact Hb|..].
    + apply installed_blocks; [done|apply Hh0|apply Hh1|]. intros h Hh. by apply Hin.
    + rewrite installed_start. apply Hh0.
    + intros no [_ Hno]. by apply (installed_view start z).
    + intros c Hc. destruct (commit_crash start z (a_disk ab) (logged d) (a_view ab) h0 h1) with (d' := c)
        as [Hv [Hs|Hs]]; try done; (split; [done|]); [left|right]; by apply sees_shows.
Qed.
Lemma store_end dk (d : log S) a :
  store_rep pid start z dk d a → x_bufs a = ∅ → (∀ no, is_block (dread dk no)) → hd_n (dread dk start) = 0 →
  wp (end_op pid) (λ _ d', ∃ dk', quiet start z dk' d' ∧
    (∀ no, store_block start z no → dread dk' no = x_disk a no) ∧ all_or_nothing dk dk' (dread dk) (x_disk a)) d.
Proof.
  intros Hr Hb Hblk Hcl. destruct (store_tx pid start z dk d a Hr Hb (Hblk _) Hcl) as (ab & Ht & <- & Hview & Hno & Hin).
  unfold end_op. apply wp_bind. apply wp_alone. unfold wp at 1. rewrite end_op_enter_run by apply (sr_lock _ _ _ _ _ _ Hr).
  rewrite (sr_com _ _ _ _ _ _ Hr), (sr_out _ _ _ _ _ _ Hr). simpl. unfold when.
  set (d1 := lg_set_committing true _). apply wp_bind. eapply wp_mono; [apply (commit_tx d1 ab)|].
  - destruct Ht as [[] ? ? ? ? ? ? ? ?]. split; try done.
  - apply (sr_start _ _ _ _ _ _ Hr).
  - apply (sr_size _ _ _ _ _ _ Hr).
  - done.
  - done.
  - intros no Hl. destruct (Hin no Hl) as [-> ?]. split; [apply (sr_disk _ _ _ _ _ _ Hr)|done].
  - intros [] d' (dk' & b & -> & Hrep & Hblk' & Hcl' & Hv & Hall). apply wp_alone. unfold wp. rewrite end_op_leave_run by apply (sr_lock _ _ _ _ _ _ Hr).
    exists dk'. split_and!.
    + split; try done; try apply Hr. destruct (sr_log _ _ _ _ _ _ Hr). split; simpl; done || lia.
    + intros no Hs. by rewrite Hv, <- Hview.
    + intros c Hc. destruct (Hall c Hc) as [? [Hs|Hs]]; (split; [done|]); [by left|right].
      intros no Hb'. rewrite Hs by done. by apply Hview.
Qed.
End commit.
