(* ===== verification/FsProps.v ===== *)
(** kernel/fs.c, what its callers rely on: a write is read back, leaves the
    rest of the file system alone and is atomic when run in a transaction; an
    entry linked into a directory is found; names are split at slashes; an
    inode written to the disk is read back. *)

From S2P Require Import Prelude Riscv Mem Cstring Spinlock Sleeplock Kalloc Vm Bio BioSpec BufCache FsLayout ProcMem.
From S2P Require Import Log LogSpec LogCrash LogOps Fs FsBlocks FsFile FsIo FsInode FsDir FsStore.

(** * Reading what was written *)

Section props.
Context {D : Type} `{BS : BlockStore D} {BSok : BlockStoreOk D} {L : Linker}.
Abbreviation state := (fsys (D:=D)).
Implicit Types s : state.
Context (pid pagetable : Z).

(** What writei and readi ask of the inode [ip], locked by the caller. *)
Record inode_at s (a : atx) (ip : nat) (i : inode) : Prop := {
  ia_rep : rep s a;
  ia_layout : layout (fs_sb s);
  ia_idle : idle (fs_sb s) a;
  ia_inode : it_inode s !! ip = Some i;
  ia_wf : iwf (fs_sb s) a i;
}.
(** There is room to write [n] bytes at [off]: the file may grow so far, the
    transaction may log the blocks and the disk has them. *)
Record write_room (sb : superblock) (a : atx) (i : inode) (off n : Z) : Prop := {
  wr_off : 0 ≤ off ≤ i_size i;
  wr_max : off + n ≤ MAXFILE * BSIZE;
  wr_res : res sb a i (S (blocks_left off n 0));
}.
Lemma writei_wp s a ip i user_src src bs off :
  let n := Z.of_nat (length bs) in
  inode_at s a ip i → write_room (fs_sb s) a i off n → bytes bs → fits 64 src → source pagetable user_src src bs (fs_mem s) →
  wp (writei pagetable ip user_src src off n) (λ r s', r = n ∧ ∃ d' a' i', s' = fs_put s ip i' d' ∧
    x_rep d' a' ∧ inode_at s' a' ip i' ∧ written (fs_sb s) a i off bs a' i') s.
Proof.
  intros n [Hr Hly Hid Hip Hi] [Ho Hm Hres] Hb Hs Hsrc. eapply wp_mono; [by apply (writei_spec pagetable s a ip i)|].
  intros r s' (-> & d' & a' & i' & -> & Hr' & Hw). split; [done|]. exists d', a', i'.
  split_and!; [done|done| |done]. split; [done|done|apply Hw| |apply Hw].
  simpl. apply list_lookup_insert_eq. by eapply lookup_lt_Some.
Qed.
Lemma written_fbytes sb a i off bs a' i' : 0 ≤ off → written sb a i off bs a' i' → fbytes a' i' off (length bs) = bs.
Proof.
  intros Ho Hw. apply list_eq. intros k. destruct (decide (k < length bs)%nat) as [Hk|Hk].
  - rewrite fbytes_lookup by done. rewrite (wn_bytes _ _ _ _ _ _ _ Hw) by (rewrite (wn_size _ _ _ _ _ _ _ Hw); lia).
    rewrite decide_True by lia. replace (Z.to_nat (off + Z.of_nat k - off)) with k by lia.
    destruct (lookup_lt_is_Some_2 _ _ Hk) as [x ->]. done.
  - rewrite !lookup_ge_None_2; [done|lia|rewrite length_fbytes; lia].
Qed.

(** C6: what writei writes readi reads back, wherever in a file of up to
    MAXFILE blocks the bytes lie, whatever blocks bmap has to allocate for
    them, and whether the two copies are with kernel or user memory.  The
    file keeps its other bytes; blocks in use that are not the file's, its
    inode's or the free map's are unchanged. *)
Theorem writei_readi s a ip i user_src src bs off user_dst dst W F :
  let n := Z.of_nat (length bs) in
  inode_at s a ip i → write_room (fs_sb s) a i off n → bytes bs → fits 64 src → source pagetable user_src src bs (fs_mem s) →
  fits 64 dst → sink pagetable user_dst dst n W F → W [] (fs_mem s) →
  wp (let! w := writei pagetable ip user_src src off n in
      let! r := readi pagetable ip user_dst dst off n in ret (w, r))
    (λ '(w, r) s', w = n ∧ (r = n ∧ W bs (fs_mem s') ∨ r = -1 ∧ F (fs_mem s')) ∧
       ∃ a' i', inode_at s' a' ip i' ∧ written (fs_sb s) a i off bs a' i') s.
Proof.
  intros n Hat Hroom Hb Hs Hsrc Hd Hsink HW. apply wp_bind. eapply wp_mono; [by apply (writei_wp s a ip i)|].
  intros w s1 (-> & d1 & a1 & i1 & -> & _ & [Hr1 Hly1 Hid1 Hip1 Hi1] & Hw). pose proof (wn_size _ _ _ _ _ _ _ Hw) as Hsz.
  pose proof (iw_size _ _ _ Hi1) as Hmax. rewrite MAXFILE_eq, BSIZE_eq in Hmax. destruct Hroom as [Ho Hm _]. rewrite MAXFILE_eq, BSIZE_eq in Hm.
  apply wp_bind. eapply wp_mono; [apply (readi_spec pagetable _ a1 ip i1 user_dst dst W F off n); try done; unfold fits; lia|].
  intros r s2 (d2 & m2 & -> & Hr2 & Hres). cbv zeta in Hres. apply wp_ret. rewrite Z.min_l in Hres by lia.
  replace (Z.to_nat n) with (length bs) in Hres by (unfold n; lia).
  rewrite (written_fbytes (fs_sb s) a i off bs) in Hres by (done || lia).
  split_and!; [done|done|]. exists a1, i1. split; [|done]. by split.
Qed.
End props.

(** * Directories *)

Section dirs.
Context {D : Type} `{BS : BlockStore D} {BSok : BlockStoreOk D} {L : Linker}.
Context (pid pagetable de : Z) (Hde : 0 ≤ de) (Hde' : de + sizeof_dirent < 2 ^ 64).
Implicit Types s : fsys (D:=D).

Lemma got_active s dev inum ip s' : got s dev inum ip s' → ∃ i, it_inode s' !! ip = Some i ∧ active i dev inum.
Proof using.
  intros (i & Hi & Hc). assert (ip < length (it_inode s))%nat as Hlt by (by eapply lookup_lt_Some).
  destruct Hc as [[Ha ->]|(_ & _ & ->)]; eexists; (split; [simpl; by apply list_lookup_insert_eq|]).
  - destruct Ha as (? & ? & ?). split_and!; simpl; [lia|done|done].
  - split_and!; simpl; [lia|done|done].
Qed.
Lemma got_fields s dev inum ip s' : got s dev inum ip s' →
  fs_d s' = fs_d s ∧ fs_sb s' = fs_sb s ∧ fs_mem s' = fs_mem s.
Proof using. by intros (i & _ & [[_ ->]|(_ & _ & ->)]). Qed.

(** C7: the entry dirlink adds is found by dirlookup, which hands out an
    inode in use with the number linked; every other name of the directory
    stands for what it stood for before. *)
Theorem dirlink_dirlookup s a dp i name inum :
  inode_at s a dp i → is_dir (fs_sb s) a i → bytes name → 0 < inum < 2 ^ 16 → absent name a i →
  i_size i + sizeof_dirent ≤ MAXFILE * BSIZE → res (fs_sb s) a i 2 → i_ref i ≠ 0 → table_room s →
  wp (let! r := dirlink pid pagetable de dp name inum in
      let! e := dirlookup pagetable de dp name in ret (r, e))
    (λ '(r, e) s', r = 0 ∧ (∃ ip off j, e = Some (ip, off) ∧ it_inode s' !! ip = Some j ∧ active j ROOTDEV inum) ∧
       ∃ a' i', is_dir (fs_sb s) a' i' ∧ x_rep (fs_d s') a' ∧
         ∀ name' n, entry_of name' a' i' n ↔
           if decide (name_of name' = name_of name) then n = inum else entry_of name' a i n) s.
Proof using BSok Hde Hde' L.
  intros [Hr Hly Hid Hip Hi] Hdir Hname Hinum Habs Hroom Hres Href Htab. apply wp_bind.
  eapply wp_mono; [by apply (dirlink_spec pid pagetable de Hde Hde' s a dp i)|].
  intros r s1 (-> & d1 & m1 & a1 & i1 & k & -> & Hr1 & Hk & Hfree & Hw).
  destruct (written_dent _ _ _ _ _ _ _ _ Hdir Hk Hw) as (Hdir1 & _ & _).
  pose proof (linked_entries _ _ _ _ _ _ _ _ Hdir Hk Hinum Habs Hfree Hw) as Hent.
  pose proof (Hent name inum) as Hnew. rewrite decide_True in Hnew by done.
  destruct (proj2 Hnew eq_refl) as (k1 & Hk1 & Hnb1 & Hm1 & E1). apply wp_bind.
  eapply (dirlookup_spec pagetable de Hde Hde' _ a1 dp i1); [done|done|apply Hw| |done|done|..].
  { simpl. apply list_lookup_insert_eq. by eapply lookup_lt_Some. }
  { intros d2 m2 _ Hnone. by destruct (Hnone k1 Hk1). }
  intros k2 d2 m2 Hr2 Hk2 Hnb2 Hm2. pose proof (Hent name (de_inum (dent a1 i1 k2))) as Hu.
  rewrite decide_True in Hu by done. rewrite (proj1 Hu) by (exists k2; done).
  eapply wp_mono; [apply iget_spec|].
  - destruct Htab as (Hl & Hpos & i0 & Hi0 & Hz). assert (i_ref i1 = i_ref i) as Er.
    { rewrite (wn_fields _ _ _ _ _ _ _ Hw). done. }
    split_and!; [done| |].
    + intros j. simpl. intros [m Hm]%list_elem_of_lookup. destruct (decide (m = dp)) as [->|Hne].
      * rewrite list_lookup_insert_eq in Hm by (by eapply lookup_lt_Some). injection Hm as <-.
        rewrite Er. apply Hpos. by eapply list_elem_of_lookup_2.
      * rewrite list_lookup_insert_ne in Hm by done. apply Hpos. by eapply list_elem_of_lookup_2.
    + exists i0. split; [|done]. apply list_elem_of_lookup in Hi0 as [m Hm]. apply (list_elem_of_lookup_2 _ m). simpl.
      rewrite list_lookup_insert_ne; [done|]. intros ->. congruence.
  - intros ip s2 Hgot. apply wp_ret. split; [done|]. destruct (got_active _ _ _ _ _ Hgot) as (j & Hj & Ha).
    split; [by exists ip, (sizeof_dirent * k2), j|]. exists a1, i1. destruct (got_fields _ _ _ _ _ Hgot) as (-> & _). done.
Qed.
End dirs.

(** * Path names *)

(** The parts of a path between its slashes, and those that are not empty. *)
Fixpoint split_slash (path : list Z) : list (list Z) :=
  match path with
  | [] => [[]]
  | c :: path' =>
      if c =? SLASH then [] :: split_slash path'
      else match split_slash path' with e :: es => (c :: e) :: es | [] => [[c]] end
  end.
Definition elements (path : list Z) : list (list Z) := filter (λ e, e ≠ []) (split_slash path).

Lemma split_slash_cons path : ∃ e es, split_slash path = e :: es.
Proof. destruct path as [|c path]; simpl; [by eexists _, _|]. destruct (c =? SLASH); [by eexists _, _|]. destruct (split_slash path); by eexists _, _. Qed.
Lemma elements_skip path : elements (skip_slashes path) = elements path.
Proof.
  induction path as [|c path IH]; [done|]. simpl. destruct (c =? SLASH) eqn:E; [|done]. rewrite IH.
  unfold elements at 2. simpl. rewrite E. done.
Qed.
Lemma skip_head path : match skip_slashes path with c :: _ => c ≠ SLASH | [] => True end.
Proof. induction path as [|c path IH]; [done|]. simpl. destruct (Z.eqb_spec c SLASH); done. Qed.
Lemma path_element_split path : let '(e, r) := path_element path in
  path = e ++ r ∧ ∃ es, split_slash path = e :: es ∧ filter (λ e, e ≠ []) es = elements r.
Proof.
  induction path as [|c path IH]; [split; [done|]; by exists []|]. simpl. destruct (c =? SLASH) eqn:E.
  - split; [done|]. exists (split_slash path). split; [done|]. unfold elements. simpl. by rewrite E.
  - destruct (path_element path) as [e r]. destruct IH as (-> & es & Es & Hes). split; [done|]. exists es. by rewrite Es.
Qed.
Lemma elements_nil path : elements (skip_slashes path) = [] ↔ skip_slashes path = [].
Proof.
  split; [|by intros ->]. pose proof (skip_head path) as Hh. destruct (skip_slashes path) as [|c p]; [done|].
  unfold elements. simpl. apply Z.eqb_neq in Hh. rewrite Hh. destruct (split_slash_cons p) as (e & es & ->). done.
Qed.

(** skipelem takes the elements off a path one by one.  It fails exactly
    when none is left; otherwise the name it stores is the first element, cut
    to DIRSIZ bytes, and what it returns has the other elements, and is empty
    exactly when there are none. *)
Theorem skipelem_elements path name :
  Forall (λ c, c ≠ 0) path → length name = Z.to_nat DIRSIZ →
  match elements path with
  | [] => skipelem path name = None
  | e :: es => ∃ rest name', skipelem path name = Some (rest, name') ∧ elements rest = es ∧ (rest = [] ↔ es = []) ∧
      length name' = Z.to_nat DIRSIZ ∧ name_of name' = take (Z.to_nat DIRSIZ) e
  end.
Proof.
  intros Hnz Hlen. rewrite <- elements_skip. assert (Forall (λ c, c ≠ 0) (skip_slashes path)) as Hnz'.
  { clear Hlen. induction Hnz as [|c p Hc Hp IH]; [done|]. simpl. destruct (c =? SLASH); [done|by constructor]. }
  unfold skipelem. pose proof (skip_head path) as Hh. destruct (skip_slashes path) as [|c p]; [done|].
  pose proof (path_element_split (c :: p)) as Hs. destruct (path_element (c :: p)) as [e r] eqn:Ep.
  destruct Hs as (Eapp & es & Es & Hes).
  assert (e ≠ []) as He. { intros ->. simpl in Ep. apply Z.eqb_neq in Hh. rewrite Hh in Ep. by destruct (path_element p). }
  assert (elements (c :: p) = e :: elements r) as ->. { unfold elements at 1. rewrite Es. rewrite filter_cons_True by done. by rewrite Hes. }
  rewrite Eapp in Hnz'. apply Forall_app in Hnz' as [Hze _]. rewrite <- (elements_skip r).
  eexists _, _. split; [done|]. split; [done|]. split; [symmetry; apply elements_nil|].
  change (Z.to_nat DIRSIZ) with 14%nat in *. change DIRSIZ with 14. destruct (Z.geb_spec (Z.of_nat (length e)) 14) as [Hl|Hl].
  - split; [rewrite length_take; lia|]. pose proof (cstr_list 14 [] (take 14 e) []) as Hc.
    rewrite app_nil_r in Hc. apply Hc; [by apply Forall_take|rewrite length_take; lia|right; rewrite length_take; lia].
  - split; [rewrite !length_app, length_drop; simpl; lia|]. rewrite firstn_all2 by lia.
    apply (cstr_list 14 [] e); [done|lia|by left].
Qed.

(** * The inode on the disk *)

Section inodes.
Context {D : Type} `{BS : BlockStore D} {BSok : BlockStoreOk D} {L : Linker} (pid : Z).
Implicit Types s : fsys (D:=D).

(** C32: an inode that iupdate has written is what ilock reads into another
    entry of the inode table; the other inodes keep their copy on the disk,
    those in the same block included. *)
Theorem iupdate_ilock s a ip i jp j :
  rep s a → layout (fs_sb s) → idle (fs_sb s) a → budget (fs_sb s) a 1 →
  it_inode s !! ip = Some i → it_inode s !! jp = Some j → inode_fits i → i_type i ≠ 0 →
  0 ≤ i_inum i < sb_ninodes (fs_sb s) → i_dev i = ROOTDEV → i_dev j = ROOTDEV → i_inum j = i_inum i →
  1 ≤ i_ref j → i_valid j = false → sl_free (i_lock j) →
  wp (do! iupdate ip; ilock pid jp) (λ _ s', ∃ j' a', it_inode s' = <[jp := j']> (it_inode s) ∧
    owner (i_lock j') = Some pid ∧ i_valid j' = true ∧ on_disk j' = on_disk i ∧ x_rep (fs_d s') a' ∧
    ∀ inum k, 0 ≤ inum < sb_ninodes (fs_sb s) → inum ≠ i_inum i →
      on_disk (disk_inode (fs_sb s) a' inum k) = on_disk (disk_inode (fs_sb s) a inum k)) s.
Proof.
  intros Hr Hly Hid Hbud Hip Hjp Hf Hty Hinum Hdi Hdj Hn Href Hv Hl. apply wp_bind.
  eapply iupdate_spec; [done..|apply Hf|done|]. intros d1 H1. set (a1 := x_update (fs_sb s) i a) in *.
  pose proof (IBLOCK_range _ _ Hly Hinum) as Hib.
  assert (on_disk (disk_inode (fs_sb s) a1 (i_inum i) j) = on_disk i) as Ed.
  { unfold a1. rewrite update_disk_inode by (done || intros; apply (x_disk_ok _ _ _ Hr)). by rewrite decide_True. }
  eapply (ilock_spec pid _ a1 jp j); [done|done|exact (meta_idle (fs_sb s) a (IBLOCK (i_inum i) (fs_sb s)) _ Hly (proj2 Hib) Hid)|done|done|by rewrite Hn|done|done|..].
  - intros _. unfold locked. rewrite Hv, Hn. simpl. injection Ed as E _. congruence.
  - intros d2 H2. exists (locked pid (fs_sb s) a1 j), a1. unfold locked. rewrite Hv, Hn. split_and!; [done|done|done|exact Ed|done|].
    intros inum k Hi Hne. unfold a1. rewrite update_disk_inode by (done || intros; apply (x_disk_ok _ _ _ Hr)).
    by rewrite decide_False.
Qed.
End inodes.

(** * A write in a transaction *)

Section atomic.
Context {S : Type} {BC : BufferCache S} {BCok : BufferCacheOk S} {L : Linker} (pid pagetable start z : Z) (dk : disk).
#[local] Instance call_store : BlockStore (log S) := log_store pid.
#[local] Instance call_store_ok : BlockStoreOk (log S) := log_store_ok pid start z dk.
Implicit Types s : fsys (D:=log S).

(** The calls of a file-system call that writes. *)
Definition write_call (ip : nat) (user_src : bool) (src off n : Z) : M (fsys (D:=log S)) Z :=
  do! blocks begin_op;
  let! r := writei pagetable ip user_src src off n in
  do! blocks (end_op pid);
  ret r.

(** C4: a write to a file between begin_op and end_op is atomic with respect
    to crashes.  It leaves the disk with the bytes written and the log empty;
    and whichever of the disk writes were made before a crash, the log is
    valid and a restart sees the file system as it was before the call or as
    the call leaves it, never a part of the write. *)
Theorem write_call_atomic s ip i user_src src bs off :
  let n := Z.of_nat (length bs) in
  let a := disk_tx dk in
  quiet start z dk (fs_d s) → layout (fs_sb s) → map_ok (fs_sb s) a →
  it_inode s !! ip = Some i → iwf (fs_sb s) a i → write_room (fs_sb s) a i off n →
  bytes bs → fits 64 src → source pagetable user_src src bs (fs_mem s) →
  wp (write_call ip user_src src off n) (λ r s', r = n ∧ ∃ dk' a' i',
    it_inode s' = <[ip := i']> (it_inode s) ∧ written (fs_sb s) a i off bs a' i' ∧ quiet start z dk' (fs_d s') ∧
    (∀ no, store_block start z no → dread dk' no = x_disk a' no) ∧
    all_or_nothing start z dk dk' (dread dk) (x_disk a')) s.
Proof.
  intros n a Hq Hly Hmap Hip Hi Hroom Hb Hs Hsrc. unfold write_call. apply wp_bind, wp_zoom.
  eapply wp_mono; [by apply (store_begin pid start z dk)|]. intros [] d1 Hd1. apply wp_bind.
  eapply wp_mono; [apply (writei_wp pagetable (set_d d1 s) a ip i user_src src bs off); try done|].
  intros r s' (-> & d2 & a2 & i2 & -> & Hr2 & _ & Hw). apply wp_bind, wp_zoom. cbn [fs_d fs_put].
  eapply wp_mono; [apply (store_end pid start z dk d2 a2 Hr2)|].
  - apply (id_bufs _ _ (wn_idle _ _ _ _ _ _ _ Hw)).
  - apply (qt_block _ _ _ _ Hq).
  - apply (qt_clear _ _ _ _ Hq).
  - intros [] d3 (dk' & Hq' & Hread & Hall). apply wp_ret. split; [done|]. by exists dk', a2, i2.
Qed.
End atomic.

(** * A small file system *)

(** 64 blocks: the log in blocks 2 to 31, 16 inodes from block 32 on, the free
    map in block 34 and the data behind it. *)
Definition tiny_sb : superblock := Superblock FSMAGIC 64 29 16 30 2 32 34.
Definition tiny_map : block := [255; 255; 255; 255; 7] ++ replicate 1019 0.
Definition tiny_disk : disk := [(34, tiny_map)].
Definition tiny_tx : atx := disk_tx tiny_disk.
Definition tiny_inode (type inum ref : Z) (valid : bool) : inode :=
  Inode ROOTDEV inum ref initsleeplock valid type 0 0 1 0 (replicate 13 0).
Definition tiny_mem : kmem := Kmem false 0 (store_bytes ∅ 100 [1; 2; 3]).
Definition tiny_log (b : bcache) : log bcache := Log false 2 30 0 false ROOTDEV 0 (replicate 30 0) b.

Section tiny.
#[local] Existing Instances ex_linker.
#[local] Instance tiny_store : BlockStore (log bcache) := log_store 1.
#[local] Instance tiny_store_ok : BlockStoreOk (log bcache) := log_store_ok 1 2 30 tiny_disk.
Definition tiny_fs (d : log bcache) (l : list inode) : fsys (D:=log bcache) := Fsys d tiny_sb false l tiny_mem.

Lemma tiny_quiet : ∃ b, quiet 2 30 tiny_disk (tiny_log b).
Proof.
  destruct (proj1 (wp_ok binit _ _) (binit_spec tiny_disk)) as ([] & b & _ & Hr). exists b. split; try done.
  - by eexists.
  - intros no. unfold tiny_disk. rewrite dread_cons. case_decide; [|apply zero_block_ok]. split; [done|]. apply Forall_app. split.
    + repeat (apply Forall_cons; split; [split; simpl; lia|]). apply Forall_nil_2.
    + apply Forall_replicate. split; simpl; lia.
Qed.
Lemma tiny_layout : layout tiny_sb.
Proof.
  split; [cbn; lia|cbn; lia|cbn; lia|by vm_compute|by vm_compute|]. cbn. intros no Hno. split; [lia|]. unfold log_area. lia.
Qed.
Lemma tiny_map_ok : map_ok tiny_sb tiny_tx.
Proof.
  assert (forallb (used tiny_sb tiny_tx) (seqZ 0 35) = true) as H by (vm_compute; reflexivity).
  intros b Hb. rewrite forallb_forall in H. apply H. apply list_elem_of_In, elem_of_seqZ. exact Hb.
Qed.
Lemma tiny_slot type inum ref valid k : slot tiny_tx (tiny_inode type inum ref valid) k = 0.
Proof.
  assert (∀ n, default 0 (replicate 13 0 !! n) = 0) as H.
  { intros n. destruct (replicate 13 0 !! n) as [x|] eqn:E; [|done]. by apply lookup_replicate in E as [-> _]. }
  unfold slot, ind. cbn [i_addrs tiny_inode]. rewrite !H. by repeat case_match.
Qed.
Lemma tiny_iwf type inum ref valid : 0 ≤ inum < 16 → iwf tiny_sb tiny_tx (tiny_inode type inum ref valid).
Proof.
  intros Hi. split; [done|done|done|cbn; rewrite MAXFILE_eq, BSIZE_eq; lia|..].
  - intros k _. by rewrite tiny_slot.
  - intros j k _ _ _. by rewrite tiny_slot.
  - intros k Hk. cbn. rewrite BSIZE_eq. lia.
Qed.
Lemma tiny_res type inum ref valid : res tiny_sb tiny_tx (tiny_inode type inum ref valid) 2.
Proof.
  split.
  - unfold budget. apply Nat.leb_le. vm_compute. reflexivity.
  - apply Nat.leb_le. vm_compute. reflexivity.
Qed.
Lemma tiny_source : source 0 false 100 [1; 2; 3] tiny_mem.
Proof. apply kernel_source; [lia|simpl; lia|vm_compute; reflexivity]. Qed.
Lemma tiny_room type inum ref valid : write_room tiny_sb tiny_tx (tiny_inode type inum ref valid) 0 3.
Proof. split; [cbn; lia|rewrite MAXFILE_eq, BSIZE_eq; lia|]. apply tiny_res. Qed.
Lemma tiny_at d l ip type inum ref valid : store_rep 1 2 30 tiny_disk d tiny_tx →
  l !! ip = Some (tiny_inode type inum ref valid) → 0 ≤ inum < 16 →
  inode_at (tiny_fs d l) tiny_tx ip (tiny_inode type inum ref valid).
Proof.
  intros Hr Hl Hi. split; [exact Hr|apply tiny_layout|split; [done|apply tiny_map_ok]|exact Hl|by apply tiny_iwf].
Qed.
Lemma tiny_begun : ∃ d, store_rep 1 2 30 tiny_disk d tiny_tx.
Proof.
  destruct tiny_quiet as [b Hq]. destruct (proj1 (wp_ok _ _ _) (store_begin 1 2 30 tiny_disk _ Hq)) as ([] & d & _ & Hr).
  by exists d.
Qed.

Lemma writei_readi_witness : ∃ d,
  let s := tiny_fs d [tiny_inode T_FILE 2 1 true] in
  wp (let! w := writei 0 0 false 100 0 3 in let! r := readi 0 0 false 200 0 3 in ret (w, r))
    (λ '(w, r) s', w = 3 ∧ (r = 3 ∧ kernel_dst 200 tiny_mem [1; 2; 3] (fs_mem s') ∨ r = -1 ∧ False) ∧
       ∃ a' i', inode_at s' a' 0%nat i' ∧ written tiny_sb tiny_tx (tiny_inode T_FILE 2 1 true) 0 [1; 2; 3] a' i') s.
Proof.
  destruct tiny_begun as [d Hr]. exists d.
  refine (writei_readi 0 (tiny_fs d [tiny_inode T_FILE 2 1 true]) tiny_tx 0 _ false 100 [1; 2; 3] 0 false 200 (kernel_dst 200 tiny_mem) (λ _, False)
    (tiny_at d [tiny_inode T_FILE 2 1 true] 0 T_FILE 2 1 true Hr eq_refl _) (tiny_room _ _ _ _) _ _ tiny_source _ (kernel_sink 0 200 3 tiny_mem _ _) _).
  - lia.
  - repeat (apply Forall_cons; split; [split; simpl; lia|]). apply Forall_nil_2.
  - split; lia.
  - split; lia.
  - lia.
  - lia.
  - reflexivity.
Defined.
Lemma dirlink_dirlookup_witness : ∃ d,
  let s := tiny_fs d [tiny_inode T_DIR 1 1 true; tiny_inode 0 0 0 false] in
  wp (let! r := dirlink 1 0 300 0 [97] 5 in let! e := dirlookup 0 300 0 [97] in ret (r, e))
    (λ '(r, e) s', r = 0 ∧ (∃ ip off j, e = Some (ip, off) ∧ it_inode s' !! ip = Some j ∧ active j ROOTDEV 5) ∧
       ∃ a' i', is_dir tiny_sb a' i' ∧ x_rep (fs_d s') a' ∧
         ∀ name' n, entry_of name' a' i' n ↔
           if decide (name_of name' = name_of [97]) then n = 5
           else entry_of name' tiny_tx (tiny_inode T_DIR 1 1 true) n) s.
Proof.
  destruct tiny_begun as [d Hr]. exists d.
  refine (dirlink_dirlookup 1 0 300 _ _ (tiny_fs d [tiny_inode T_DIR 1 1 true; tiny_inode 0 0 0 false]) tiny_tx 0 _ [97] 5
    (tiny_at d [tiny_inode T_DIR 1 1 true; tiny_inode 0 0 0 false] 0 T_DIR 1 1 true Hr eq_refl _) _ _ _ _ _ (tiny_res _ _ _ _) _ _).
  - lia.
  - change sizeof_dirent with 16. lia.
  - lia.
  - split; [apply tiny_iwf; lia|reflexivity|reflexivity].
  - apply Forall_cons. split; [split; simpl; lia|apply Forall_nil_2].
  - lia.
  - intros k Hk. exfalso. assert (dents (tiny_inode T_DIR 1 1 true) = 0) as E by reflexivity. lia.
  - change sizeof_dirent with 16. rewrite MAXFILE_eq, BSIZE_eq. simpl i_size. lia.
  - discriminate.
  - split_and!; [reflexivity| |].
    + intros i. cbn. rewrite !elem_of_cons. intros [->|[->|?%elem_of_nil]]; [cbn; lia..|done].
    + exists (tiny_inode 0 0 0 false). split; [right; left|reflexivity].
Defined.
Lemma iupdate_ilock_witness : ∃ d,
  let s := tiny_fs d [tiny_inode T_FILE 2 1 true; tiny_inode 0 2 1 false] in
  wp (do! iupdate 0; ilock 1 1) (λ _ s', ∃ j' a', it_inode s' = <[1%nat := j']> (it_inode s) ∧
    owner (i_lock j') = Some 1 ∧ i_valid j' = true ∧ on_disk j' = (T_FILE, 0, 0, 1, 0, replicate 13 0) ∧ x_rep (fs_d s') a' ∧
    ∀ inum k, 0 ≤ inum < 16 → inum ≠ 2 → on_disk (disk_inode tiny_sb a' inum k) = on_disk (disk_inode tiny_sb tiny_tx inum k)) s.
Proof.
  destruct tiny_begun as [d Hr]. exists d.
  refine (iupdate_ilock 1 (tiny_fs d [tiny_inode T_FILE 2 1 true; tiny_inode 0 2 1 false]) tiny_tx 0 (tiny_inode T_FILE 2 1 true) 1 (tiny_inode 0 2 1 false)
    Hr tiny_layout _ _ eq_refl eq_refl _ _ _ eq_refl eq_refl eq_refl _ eq_refl _).
  - split; [reflexivity|apply tiny_map_ok].
  - unfold budget. apply Nat.leb_le. vm_compute. reflexivity.
  - split; cbn; unfold T_FILE, fits in *; try lia; [reflexivity|]. apply (Forall_replicate _ 13). split; lia.
  - discriminate.
  - cbn. lia.
  - cbn. lia.
  - split; reflexivity.
Defined.
Lemma write_call_atomic_witness : ∃ b,
  let s := tiny_fs (tiny_log b) [tiny_inode T_FILE 2 1 true] in
  wp (write_call 1 0 0 false 100 0 3) (λ r s', r = 3 ∧ ∃ dk' a' i', it_inode s' = [i'] ∧
    written tiny_sb tiny_tx (tiny_inode T_FILE 2 1 true) 0 [1; 2; 3] a' i' ∧ quiet 2 30 dk' (fs_d s') ∧
    (∀ no, store_block 2 30 no → dread dk' no = x_disk a' no) ∧
    all_or_nothing 2 30 tiny_disk dk' (dread tiny_disk) (x_disk a')) s.
Proof.
  destruct tiny_quiet as [b Hq]. exists b.
  refine (write_call_atomic 1 0 2 30 tiny_disk (tiny_fs (tiny_log b) [tiny_inode T_FILE 2 1 true]) 0 _ false 100 [1; 2; 3] 0
    Hq tiny_layout tiny_map_ok eq_refl (tiny_iwf T_FILE 2 1 true _) (tiny_room _ _ _ _) _ _ tiny_source).
  - lia.
  - repeat (apply Forall_cons; split; [split; simpl; lia|]). apply Forall_nil_2.
  - split; lia.
Defined.
End tiny.
