(* ===== verification/Mkfs.v ===== *)
(** mkfs/mkfs.c: the host program that builds the file-system image the kernel
    starts from.  The image is the list of its sectors; an argument is the
    name of a file of the host with what successive reads of it return.  An
    exit with an error, and a failed assert, is a panic. *)

From S2P Require Import Prelude Riscv Mem Cstring Sleeplock Bio FsLayout Fs.

(** * State *)

Definition NINODES : Z := 200.
Definition nbitmap : Z := FSSIZE / (BSIZE * 8) + 1.
Definition ninodeblocks : Z := NINODES / IPB + 1.
Definition nlog : Z := LOGSIZE.
Definition nmeta : Z := 2 + nlog + ninodeblocks + nbitmap.

Record mkfs := MkFs {
  m_img : list block;      (* the file fsfd *)
  m_sb : superblock;       (* sb *)
  m_freeinode : Z;         (* freeinode *)
  m_freeblock : Z;         (* freeblock *)
}.
Definition m_set_img x s := MkFs x (m_sb s) (m_freeinode s) (m_freeblock s).
Definition m_set_sb x s := MkFs (m_img s) x (m_freeinode s) (m_freeblock s).
Definition m_set_freeinode x s := MkFs (m_img s) (m_sb s) x (m_freeblock s).
Definition m_set_freeblock x s := MkFs (m_img s) (m_sb s) (m_freeinode s) x.

(** The statics before main: zeros, but for freeinode. *)
Definition mkfs0 : mkfs := MkFs [] (Superblock 0 0 0 0 0 0 0 0) 1 0.

(** [struct dinode]; mkfs keeps it in the byte order of the disk. *)
Record dinode := Dinode {
  d_type : Z; d_major : Z; d_minor : Z; d_nlink : Z;
  d_size : Z;
  d_addrs : list Z;
}.
Definition d_set_size x d := Dinode (d_type d) (d_major d) (d_minor d) (d_nlink d) x (d_addrs d).
Definition d_set_addr (k : Z) x d :=
  Dinode (d_type d) (d_major d) (d_minor d) (d_nlink d) (d_size d) (<[Z.to_nat k := x]> (d_addrs d)).
Definition d_addr (d : dinode) (k : Z) : Z := default 0 (d_addrs d !! Z.to_nat k).

(** convert to intel byte order *)
Definition xshort (x : Z) : Z := le_combine [u8 x; u8 (Z.shiftr x 8)].
Definition xint (x : Z) : Z :=
  le_combine [u8 x; u8 (Z.shiftr x 8); u8 (Z.shiftr x 16); u8 (Z.shiftr x 24)].

Definition die {A} (msg : string) : M mkfs A := panic msg.

Section mkfs.
(** Whether the host has room for a sector of the image. *)
Context (room : Z → bool).

(** * Sectors *)

(** [lseek] to a multiple of BSIZE, then [write]: a gap reads as zeros. *)
Definition wsect (sec : Z) (buf : block) : M mkfs unit :=
  let no := u32 (sec * BSIZE) / BSIZE in
  if room no then
    modify (λ s, let img := m_img s in
      m_set_img (<[Z.to_nat no := buf]> (img ++ replicate (Z.to_nat no + 1 - length img) zero_block)) s)
  else die "write".
Definition rsect (sec : Z) : M mkfs block :=
  let! img := gets m_img in
  match img !! Z.to_nat (u32 (sec * BSIZE) / BSIZE) with
  | Some buf => ret buf
  | None => die "read"
  end.

(** * Inodes *)

(** A [struct dinode] in a block has the fields fs.c copies one by one. *)
Definition dinode_put (din : dinode) (off : Z) (buf : block) : block :=
  dip_store (Inode 0 0 0 initsleeplock false (d_type din) (d_major din) (d_minor din) (d_nlink din)
    (d_size din) (d_addrs din)) off buf.
Definition dinode_get (buf : block) (off : Z) : dinode :=
  Dinode (dip_type buf off) (s16 (get 2 buf (off + 2))) (s16 (get 2 buf (off + 4))) (s16 (get 2 buf (off + 6)))
    (get 4 buf (off + 8)) (uints naddrs buf (off + 12)).
Definition winode (inum : Z) (din : dinode) : M mkfs unit :=
  let! sb := gets m_sb in
  let bn := IBLOCK inum sb in
  let! buf := rsect bn in
  wsect bn (dinode_put din (inum `mod` IPB * sizeof_dinode) buf).
Definition rinode (inum : Z) : M mkfs dinode :=
  let! sb := gets m_sb in
  let! buf := rsect (IBLOCK inum sb) in
  ret (dinode_get buf (inum `mod` IPB * sizeof_dinode)).
Definition ialloc (type : Z) : M mkfs Z :=
  let! inum := gets m_freeinode in
  do! modify (m_set_freeinode (u32 (inum + 1)));
  do! winode inum (Dinode (s16 (xshort type)) 0 0 (s16 (xshort 1)) (xint 0) (replicate naddrs 0));
  ret inum.

(** * Blocks *)

(** [for(i = 0; i < used; i++) buf[i/8] = buf[i/8] | (0x1 << (i%8))] *)
Fixpoint mark_used (n : nat) (buf : block) : block :=
  match n with
  | O => buf
  | S n' => bit_set (mark_used n' buf) (Z.of_nat n')
  end.
Definition balloc (used : Z) : M mkfs unit :=
  if negb (used <? BSIZE * 8) then die "assert"
  else
    let! sb := gets m_sb in
    wsect (sb_bmapstart sb) (mark_used (Z.to_nat used) zero_block).

(** [freeblock++] *)
Definition new_block : M mkfs Z :=
  let! x := gets m_freeblock in
  do! modify (m_set_freeblock (u32 (x + 1)));
  ret x.
(** [if(xint(din.addrs[k]) == 0) din.addrs[k] = xint(freeblock++);] *)
Definition ensure_addr (k : Z) (din : dinode) : M mkfs dinode :=
  if xint (d_addr din k) =? 0 then
    let! b := new_block in
    ret (d_set_addr k (xint b) din)
  else ret din.
(** The sector [x] of block [fbn] of the file. *)
Definition iappend_sector (fbn : Z) (din : dinode) : M mkfs (dinode * Z) :=
  if fbn <? NDIRECT then
    let! din := ensure_addr fbn din in
    ret (din, xint (d_addr din fbn))
  else
    let! din := ensure_addr NDIRECT din in
    let! indirect := rsect (xint (d_addr din NDIRECT)) in
    let at_ := 4 * (fbn - NDIRECT) in
    let! indirect :=
      (if get 4 indirect at_ =? 0 then
         let! b := new_block in
         let indirect := put 4 indirect at_ (xint b) in
         do! wsect (xint (d_addr din NDIRECT)) indirect;
         ret indirect
       else ret indirect) in
    ret (din, xint (get 4 indirect at_)).
(** One round of the loop: the inode, the offset and the bytes left. *)
Definition iappend_round '((din, off, p) : dinode * Z * list Z) : M mkfs (dinode * Z * list Z + dinode * Z) :=
  let n := Z.of_nat (length p) in
  if 0 <? n then
    let fbn := off / BSIZE in
    if negb (fbn <? MAXFILE) then die "assert"
    else
      let! '(din, x) := iappend_sector fbn din in
      let n1 := Z.min n (u32 ((fbn + 1) * BSIZE - off)) in
      let! buf := rsect x in
      do! wsect x (splice buf (Z.to_nat (off - fbn * BSIZE)) (take (Z.to_nat n1) p));
      ret (inl (din, u32 (off + n1), drop (Z.to_nat n1) p))
  else ret (inr (din, off)).
Definition iappend (inum : Z) (p : list Z) : M mkfs unit :=
  let! din := rinode inum in
  let! '(din, off) := loop (Z.to_nat (Z.of_nat (length p) / BSIZE) + 3) iappend_round (din, xint (d_size din), p) in
  winode inum (d_set_size (xint off) din).

(** * main *)

(** A file of the host: its name in argv and, if it can be opened, what
    successive reads of at most BSIZE bytes return, up to an error or the
    end. *)
Record hostfile := HostFile { h_arg : list Z; h_reads : option (list (list Z)) }.

(** [struct dirent] with a name of at most DIRSIZ bytes, zeroed before. *)
Definition dirent (inum : Z) (name : list Z) : list Z := le_split 2 (xshort inum) ++ name.
Definition dot : list Z := 46 :: replicate 13 0.
Definition dotdot : list Z := 46 :: 46 :: replicate 12 0.
(** Get rid of user/; then skip a leading _. *)
Definition strip_dir (arg : list Z) : list Z :=
  if strncmp (at_list arg) (at_list [117; 115; 101; 114; 47]) 5 =? 0 then drop 5 arg else arg.
Definition strip_underscore (name : list Z) : list Z :=
  if default 0 (name !! 0%nat) =? 95 then drop 1 name else name.

(** [while((cc = read(fd, buf, sizeof(buf))) > 0) iappend(inum, buf, cc);] *)
Fixpoint append_reads (inum : Z) (reads : list (list Z)) : M mkfs unit :=
  match reads with
  | [] => ret tt
  | c :: reads' =>
      if 0 <? Z.of_nat (length c) then do! iappend inum c; append_reads inum reads' else ret tt
  end.
Definition add_file (rootino : Z) (f : hostfile) : M mkfs unit :=
  let shortname := strip_dir (h_arg f) in
  if existsb (Z.eqb SLASH) shortname then die "assert"
  else
    match h_reads f with
    | None => die "open"
    | Some reads =>
        let shortname := strip_underscore shortname in
        let! inum := ialloc T_FILE in
        do! iappend rootino (dirent inum (strncpy_bytes (at_list shortname) DIRSIZ));
        append_reads inum reads
    end.
Fixpoint add_files (rootino : Z) (files : list hostfile) : M mkfs unit :=
  match files with
  | [] => ret tt
  | f :: files' => do! add_file rootino f; add_files rootino files'
  end.
Definition mkfs_sb : superblock :=
  Superblock FSMAGIC (xint FSSIZE) (xint (FSSIZE - nmeta)) (xint NINODES) (xint nlog) (xint 2) (xint (2 + nlog))
    (xint (2 + nlog + ninodeblocks)).
(** The bytes of [struct superblock]. *)
Definition sb_bytes (sb : superblock) : list Z :=
  concat (le_split 4 <$> [sb_magic sb; sb_size sb; sb_nblocks sb; sb_ninodes sb; sb_nlog sb; sb_logstart sb;
    sb_inodestart sb; sb_bmapstart sb]).
Fixpoint zero_sectors (n : nat) : M mkfs unit :=
  match n with
  | O => ret tt
  | S n' => do! zero_sectors n'; wsect (Z.of_nat n') zero_block
  end.
(** fix size of root inode dir *)
Definition fix_root (rootino : Z) : M mkfs unit :=
  let! din := rinode rootino in
  let off := xint (d_size din) in
  let off := u32 (u32 (off / BSIZE + 1) * BSIZE) in
  winode rootino (d_set_size (xint off) din).
(** The superblock and an empty image. *)
Definition mkfs_start : M mkfs unit :=
  do! modify (m_set_sb mkfs_sb);
  do! modify (m_set_freeblock nmeta);   (* the first free block that we can allocate *)
  do! zero_sectors (Z.to_nat FSSIZE);
  wsect 1 (splice zero_block 0 (sb_bytes mkfs_sb)).
(** [img]: whether the image can be created, if it is named at all. *)
Definition main (img : option bool) (files : list hostfile) : M mkfs Z :=
  match img with
  | None => die "Usage: mkfs fs.img files..."
  | Some opened =>
      if negb (BSIZE `mod` sizeof_dinode =? 0) || negb (BSIZE `mod` sizeof_dirent =? 0) then die "assert"
      else if negb opened then die "open"
      else
      do! mkfs_start;
      let! rootino := ialloc T_DIR in
      if negb (rootino =? ROOTINO) then die "assert"
      else
        do! iappend rootino (dirent rootino dot);
        do! iappend rootino (dirent rootino dotdot);
        do! add_files rootino files;
        do! fix_root rootino;
        let! used := gets m_freeblock in
        do! balloc used;
        ret 0
  end.
End mkfs.
