(* ===== verification/MkfsFile.v ===== *)
(** mkfs/mkfs.c, files: what the blocks and the inode of one file hold while
    mkfs appends to it, and that appending to one file leaves the others
    alone. *)

From S2P Require Import Prelude Riscv Mem Cstring Sleeplock Bio FsLayout Fs FsBlocks FsFile FsIo FsInode Mkfs.

(** * The image *)

Definition img_block (img : list block) (no : Z) : block :=
  if decide (0 ≤ no) then default zero_block (img !! Z.to_nat no) else zero_block.
(** The image as the kernel sees it. *)
Definition img_tx (img : list block) : atx := ATx (img_block img) ∅ ∅.
Abbreviation tx s := (img_tx (m_img s)).

Lemma img_insert img no b no' : 0 ≤ no < Z.of_nat (length img) →
  img_block (<[Z.to_nat no := b]> img) no' = if decide (no' = no) then b else img_block img no'.
Proof.
  intros Hno. unfold img_block. case_decide as H1; case_decide as H2; subst; try done; try lia.
  - rewrite list_lookup_insert_eq by lia. done.
  - rewrite list_lookup_insert_ne by lia. done.
Qed.
Lemma img_is_block img no : Forall is_block img → is_block (img_block img no).
Proof.
  intros H. unfold img_block. case_decide; [|apply zero_block_ok].
  destruct (img !! _) as [b|] eqn:E; [|apply zero_block_ok]. by eapply Forall_lookup_1.
Qed.

(** * One file *)

(** Block [b] belongs to a file (its inode number) at an index; the index
    [MAXFILE] is that of the indirect block. *)
Definition owners := Z → option (Z * Z).
Definition give (own : owners) (b : Z) (x : Z * Z) : owners := λ b', if decide (b' = b) then Some x else own b'.
Definition extend (has : Z → bool) (j : Z) : Z → bool := λ j', has j' || (j' =? j).

(** File [k] has blocks at the indices [has] and the bytes [bs], then zeros. *)
Record file_ok (a : atx) (own : owners) (k : Z) (i : inode) (has : Z → bool) (bs : list Z) : Prop := {
  fo_len : length (i_addrs i) = naddrs;
  fo_fits : Forall (fits 32) (i_addrs i);
  fo_slot : ∀ j, 0 ≤ j ≤ MAXFILE → slot a i j ≠ 0 ↔ has j = true;
  fo_own : ∀ j, 0 ≤ j ≤ MAXFILE → has j = true → own (slot a i j) = Some (k, j);
  fo_bytes : ∀ p, 0 ≤ p < MAXFILE * BSIZE → has (p / BSIZE) = true →
    fbyte a i p = default 0 (bs !! Z.to_nat p);
}.
Lemma index_range p : 0 ≤ p < MAXFILE * BSIZE → 0 ≤ p / BSIZE < MAXFILE.
Proof. rewrite MAXFILE_eq, BSIZE_eq. intros. dlia. Qed.

(** The blocks of [k] and their owners are the same. *)
Definition keeps (k : Z) (a a' : atx) (own own' : owners) : Prop :=
  ∀ b j, own b = Some (k, j) → own' b = Some (k, j) ∧ x_disk a' b = x_disk a b.

Section file_ok.
Context (a : atx) (own : owners) (k : Z) (i : inode) (has : Z → bool) (bs : list Z).
Context (Hf : file_ok a own k i has bs).

Lemma has_slot j : 0 ≤ j ≤ MAXFILE → slot a i j = if has j then slot a i j else 0.
Proof using Hf.
  intros Hj. pose proof (fo_slot _ _ _ _ _ _ Hf j Hj). destruct (has j); [done|].
  destruct (decide (slot a i j = 0)) as [|Hn]; [done|]. by apply H in Hn.
Qed.
Lemma slot_inj j j' : 0 ≤ j ≤ MAXFILE → 0 ≤ j' ≤ MAXFILE → has j = true → has j' = true →
  slot a i j = slot a i j' → j = j'.
Proof using Hf.
  intros Hj Hj' H1 H2 E. pose proof (fo_own _ _ _ _ _ _ Hf j Hj H1) as O1.
  pose proof (fo_own _ _ _ _ _ _ Hf j' Hj' H2) as O2. rewrite E in O1. congruence.
Qed.
Lemma has_ind : ind i ≠ 0 ↔ has MAXFILE = true.
Proof using Hf. rewrite <- (slot_max a i). apply (fo_slot _ _ _ _ _ _ Hf). rewrite MAXFILE_eq. lia. Qed.

Lemma file_ext has' : (∀ j, 0 ≤ j ≤ MAXFILE → has' j = has j) → file_ok a own k i has' bs.
Proof using Hf.
  intros E. destruct Hf as [H1 H2 H3 H4 H5]. split; [done|done|..].
  - intros j Hj. rewrite E by done. by apply H3.
  - intros j Hj. rewrite E by done. by apply H4.
  - intros p Hp. pose proof (index_range p Hp). rewrite E by lia. by apply H5.
Qed.
Lemma file_frame a' own' : keeps k a a' own own' → file_ok a' own' k i has bs.
Proof using Hf.
  intros Hk. destruct Hf as [H1 H2 H3 H4 H5].
  assert (∀ j, 0 ≤ j ≤ MAXFILE → slot a' i j = slot a i j) as Hs.
  { intros j Hj. unfold slot. case_cmp; [done|]. case_cmp; [done|]. case_cmp; [done|]. f_equal.
    apply (Hk _ MAXFILE). rewrite <- (slot_max a i). apply H4; [rewrite MAXFILE_eq; lia|].
    by apply has_ind. }
  split; [done|done|..].
  - intros j Hj. rewrite Hs by done. by apply H3.
  - intros j Hj Hh. rewrite Hs by done. apply Hk. by apply H4.
  - intros p Hp Hh. pose proof (index_range p Hp). rewrite <- H5 by done. unfold fbyte. rewrite Hs by lia.
    destruct (Hk (slot a i (p / BSIZE)) (p / BSIZE)) as [_ ->]; [apply H4; [lia|done]|done].
Qed.

(** ** A new block *)

Section add.
Context (j b : Z) (Hb : 0 < b < 2 ^ 32) (Hnew : own b = None) (Hz : x_disk a b = zero_block).
Context (Hno : has j = false).

(** What the three ways to add a block have in common. *)
Lemma file_added a' i' : 0 ≤ j ≤ MAXFILE → (j < MAXFILE → Z.of_nat (length bs) ≤ j * BSIZE) →
  length (i_addrs i') = naddrs → Forall (fits 32) (i_addrs i') →
  (∀ j', 0 ≤ j' ≤ MAXFILE → slot a' i' j' = if decide (j' = j) then b else slot a i j') →
  (∀ no, (has MAXFILE = true → no ≠ ind i) → x_disk a' no = x_disk a no) →
  file_ok a' (give own b (k, j)) k i' (extend has j) bs.
Proof using Hf Hb Hnew Hz Hno.
  intros Hj Hbs Hl Hfit Hs Hd. destruct Hf as [H1 H2 H3 H4 H5]. unfold extend.
  assert (∀ j', 0 ≤ j' ≤ MAXFILE → has j' = true → slot a i j' ≠ b) as Hne.
  { intros j' Hj' Hh E. pose proof (H4 j' Hj' Hh). congruence. }
  split; [done|done|..].
  - intros j' Hj'. rewrite Hs by done. case_decide as E.
    + subst. rewrite Z.eqb_refl, orb_true_r. split; [done|lia].
    + apply Z.eqb_neq in E. rewrite E, orb_false_r. by apply H3.
  - intros j' Hj' [Hh|Hh%Z.eqb_eq]%orb_true_iff; rewrite Hs by done; unfold give.
    + rewrite (decide_False (P := j' = j)) by congruence. rewrite decide_False by (by apply Hne). by apply H4.
    + rewrite (decide_True (P := j' = j)) by done. rewrite decide_True by done. by subst.
  - intros p Hp Hh. pose proof (index_range p Hp) as Hr. unfold fbyte. rewrite Hs by lia. case_decide as E.
    + rewrite Hd.
      2: { intros Hi E'. rewrite E' in Hnew. pose proof (H4 MAXFILE ltac:(rewrite MAXFILE_eq; lia) Hi) as Ho.
           rewrite slot_max in Ho. congruence. }
      rewrite Hz. rewrite (lookup_ge_None_2 bs).
      * unfold zero_block. destruct (replicate _ _ !! _) eqn:El; [|done]. by apply lookup_replicate in El as [-> _].
      * rewrite <- E in *. specialize (Hbs ltac:(lia)). rewrite BSIZE_eq in *. dlia.
    + apply orb_true_iff in Hh as [Hh|Hh%Z.eqb_eq]; [|done]. rewrite Hd; [by apply H5|].
      intros Hi E'. rewrite <- (slot_max a i) in E'.
      pose proof (slot_inj (p / BSIZE) MAXFILE ltac:(lia) ltac:(rewrite MAXFILE_eq; lia) Hh Hi E'). lia.
Qed.
Lemma file_add_addr : 0 ≤ j < NDIRECT ∨ j = MAXFILE → (j < MAXFILE → Z.of_nat (length bs) ≤ j * BSIZE) →
  (j = MAXFILE → ∀ j', NDIRECT ≤ j' < MAXFILE → has j' = false) →
  let n := Z.to_nat (if j =? MAXFILE then NDIRECT else j) in
  file_ok a (give own b (k, j)) k (i_set_addrs (<[n := b]> (i_addrs i)) i) (extend has j) bs.
Proof using Hf Hb Hnew Hz Hno.
  intros Hj Hbs Hind n. pose proof (fo_len _ _ _ _ _ _ Hf) as Hl. change naddrs with 13%nat in Hl.
  assert (NDIRECT = 12) as EN by done. assert (n < 13)%nat as Hn.
  { unfold n. case_cmp; [rewrite EN; lia|]. destruct Hj; [lia|done]. }
  apply file_added; [rewrite MAXFILE_eq in *; lia|done|cbn; by rewrite length_insert| | |done].
  { apply Forall_insert; [apply (fo_fits _ _ _ _ _ _ Hf)|]. unfold fits. lia. }
  cbn [i_addrs i_set_addrs]. intros j' Hj'. unfold slot, ind. cbn [i_addrs i_set_addrs].
  destruct Hj as [Hj| ->].
  - unfold n. rewrite MAXFILE_eq in *. destruct (Z.eqb_spec j 268); [lia|].
    destruct (Z.ltb_spec j' NDIRECT).
    + case_decide as E; [subst; by rewrite list_lookup_insert_eq by lia|]. rewrite list_lookup_insert_ne by lia. done.
    + rewrite (decide_False (P := j' = j)) by lia. rewrite list_lookup_insert_ne by lia. done.
  - unfold n. rewrite Z.eqb_refl. rewrite list_lookup_insert_eq by lia. cbn [default id]. unfold id.
    destruct (Z.ltb_spec j' NDIRECT) as [Hlt|Hge].
    + rewrite decide_False by (rewrite MAXFILE_eq; lia). rewrite list_lookup_insert_ne by lia. done.
    + destruct (Z.eqb_spec j' MAXFILE) as [E|E]; [by rewrite decide_True|]. rewrite decide_False by done.
      destruct (Z.eqb_spec b 0); [lia|]. rewrite Hz, get_zero.
      pose proof (has_slot j' Hj') as Hs. rewrite (Hind eq_refl j') in Hs by lia. unfold slot, ind in Hs.
      apply Z.ltb_ge in Hge. apply Z.eqb_neq in E. rewrite Hge, E in Hs. symmetry. exact Hs.
Qed.
Lemma file_add_indirect a' : NDIRECT ≤ j < MAXFILE → Z.of_nat (length bs) ≤ j * BSIZE → has MAXFILE = true →
  (∀ no, is_block (x_disk a no)) →
  (∀ no, x_disk a' no = if decide (no = ind i) then put 4 (x_disk a (ind i)) (4 * (j - NDIRECT)) b else x_disk a no) →
  file_ok a' (give own b (k, j)) k i (extend has j) bs.
Proof using Hf Hb Hnew Hz Hno.
  intros Hj Hbs Hi Hblk Hd. assert (NDIRECT = 12) as EN by done. rewrite MAXFILE_eq, EN in Hj.
  apply file_added; [rewrite MAXFILE_eq; lia|done|apply Hf|apply Hf| |].
  2: { intros no H. rewrite Hd, decide_False by auto. done. }
  intros j' Hj'. unfold slot. apply has_ind in Hi as Hi'. apply Z.eqb_neq in Hi' as Hi0. rewrite Hi0.
  rewrite MAXFILE_eq in *. destruct (Z.ltb_spec j' NDIRECT) as [Hlt|Hge]; [rewrite decide_False by lia; done|].
  destruct (Z.eqb_spec j' 268); [rewrite decide_False by lia; done|]. rewrite Hd, decide_True by done.
  case_decide as E.
  - subst j'. apply get_put_eq; [done|lia|rewrite BSIZE_eq; lia|]. change (8 * Z.of_nat 4) with 32. lia.
  - apply get_put_ne; [done|lia|rewrite BSIZE_eq; lia|lia|lia].
Qed.
End add.

(** ** More bytes *)

Lemma file_write a' j q c : 0 ≤ j < MAXFILE → has j = true → Z.of_nat (length bs) = j * BSIZE + Z.of_nat q →
  (q + length c ≤ Z.to_nat BSIZE)%nat → (∀ no, is_block (x_disk a no)) →
  (∀ no, x_disk a' no = if decide (no = slot a i j) then splice (x_disk a (slot a i j)) q c else x_disk a no) →
  file_ok a' own k i has (bs ++ c).
Proof using Hf.
  intros Hj Hh Hn Hq Hblk Hd. destruct Hf as [H1 H2 H3 H4 H5].
  assert (∀ j', 0 ≤ j' ≤ MAXFILE → slot a' i j' = slot a i j') as Hs.
  { intros j' Hj'. unfold slot. case_cmp; [done|]. case_cmp; [done|]. case_cmp; [done|]. f_equal.
    rewrite Hd, decide_False; [done|]. intros E. rewrite <- (slot_max a i) in E.
    pose proof (slot_inj MAXFILE j ltac:(rewrite MAXFILE_eq; lia) ltac:(lia) ltac:(by apply has_ind) Hh E). lia. }
  split; [done|done|..].
  - intros j' Hj'. rewrite Hs by done. by apply H3.
  - intros j' Hj' Hh'. rewrite Hs by done. by apply H4.
  - intros p Hp Hh'. pose proof (index_range p Hp) as Hr. pose proof (H5 p Hp Hh') as Hb. unfold fbyte in *.
    rewrite Hs, Hd by lia. case_decide as E.
    + assert (p / BSIZE = j) as Ej by (apply slot_inj; (done || lia)). rewrite E in Hb.
      destruct (Hblk (slot a i j)) as [Hlen _]. rewrite splice_lookup by lia. rewrite BSIZE_eq in *. case_decide as Hin.
      * rewrite lookup_app_r by dlia. f_equal. f_equal. dlia.
      * rewrite Hb. destruct (decide (Z.to_nat p < length bs)%nat); [by rewrite lookup_app_l|].
        rewrite !lookup_ge_None_2; [done| |lia]. rewrite length_app. dlia.
    + rewrite Hb. assert (p / BSIZE ≠ j) by (intros <-; done). destruct (decide (Z.to_nat p < length bs)%nat); [by rewrite lookup_app_l|].
      rewrite !lookup_ge_None_2; [done| |lia]. rewrite length_app. rewrite BSIZE_eq in *. dlia.
Qed.
End file_ok.
