(* ===== verification/MkfsSpec.v ===== *)
(** mkfs/mkfs.c: iappend keeps every file of the image, and main builds an
    image on which the kernel finds and reads every file it was given. *)

From S2P Require Import Prelude Riscv Mem Cstring Sleeplock Bio FsLayout Fs FsBlocks FsFile FsIo FsInode FsDir.
From S2P Require Import Mkfs MkfsFile.

(** * Byte order and dinodes *)

Lemma xint_u32 x : xint x = u32 x.
Proof.
  change (u32 x) with (x `mod` 2 ^ (8 * Z.of_nat 4)). rewrite <- le_combine_split. unfold xint. cbn [le_split].
  rewrite !Z.shiftr_div_pow2 by lia. rewrite !Z.div_div by lia. done.
Qed.
Lemma xint_id x : fits 32 x → xint x = x.
Proof. intros H. rewrite xint_u32. unfold u32, fits in *. by apply Z.mod_small. Qed.
Lemma xshort_id x : fits 16 x → xshort x = x.
Proof.
  intros H. transitivity (x `mod` 2 ^ (8 * Z.of_nat 2)); [|by apply Z.mod_small].
  rewrite <- le_combine_split. unfold xshort. cbn [le_split]. by rewrite Z.shiftr_div_pow2.
Qed.

(** The inode the kernel makes of a dinode. *)
Definition as_inode (k : Z) (din : dinode) : inode :=
  Inode ROOTDEV k 1 initsleeplock true (d_type din) (d_major din) (d_minor din) (d_nlink din) (d_size din) (d_addrs din).
Definition dinode_of (i : inode) : dinode := Dinode (i_type i) (i_major i) (i_minor i) (i_nlink i) (i_size i) (i_addrs i).
Lemma dinode_get_put din off buf : is_block buf → 0 ≤ off → off + sizeof_dinode ≤ BSIZE → inode_fits (as_inode 0 din) →
  dinode_get (dinode_put din off buf) off = din.
Proof.
  intros Hb Ho Hs [? ? ? ? ? ? ?].
  assert (E := dip_roundtrip (Inode 0 0 0 initsleeplock false (d_type din) (d_major din) (d_minor din) (d_nlink din)
    (d_size din) (d_addrs din)) off buf (as_inode 0 din) Hb Ho Hs ltac:(by split)).
  apply (f_equal dinode_of) in E. destruct din. exact E.
Qed.
Lemma dinode_get_ne din off off' buf : is_block buf → 0 ≤ off → off + sizeof_dinode ≤ BSIZE → 0 ≤ off' →
  off' + sizeof_dinode ≤ off ∨ off + sizeof_dinode ≤ off' → length (d_addrs din) = naddrs →
  dinode_get (dinode_put din off buf) off' = dinode_get buf off'.
Proof.
  intros Hb Ho Hs Ho' Hne Hl.
  assert (E := dip_load_ne (Inode 0 0 0 initsleeplock false (d_type din) (d_major din) (d_minor din) (d_nlink din)
    (d_size din) (d_addrs din)) off off' buf (as_inode 0 din) Hb Ho Hs Ho' Hne Hl).
  exact (f_equal dinode_of E).
Qed.

(** * The state *)

Definition disk_dinode (img : list block) (k : Z) : dinode :=
  dinode_get (img_block img (IBLOCK k mkfs_sb)) (dip_off k).

Record mkinv (own : owners) (s : mkfs) : Prop := {
  mi_len : Z.of_nat (length (m_img s)) = FSSIZE;
  mi_blk : Forall is_block (m_img s);
  mi_sb : m_sb s = mkfs_sb;
  mi_super : img_block (m_img s) 1 = splice zero_block 0 (sb_bytes mkfs_sb);
  mi_log : ∀ b, 2 ≤ b < 2 + nlog → img_block (m_img s) b = zero_block;
  mi_free : nmeta ≤ m_freeblock s ≤ FSSIZE;
  mi_own : ∀ b x, own b = Some x → nmeta ≤ b < m_freeblock s;
  mi_zero : ∀ b, m_freeblock s ≤ b → img_block (m_img s) b = zero_block;
}.
(** What appending to file [k] leaves alone. *)
Record grew (k : Z) (own : owners) (s : mkfs) (own' : owners) (s' : mkfs) : Prop := {
  gr_keeps : ∀ k', k' ≠ k → keeps k' (tx s) (tx s') own own';
  gr_meta : ∀ b, b < nmeta → img_block (m_img s') b = img_block (m_img s) b;
  gr_inode : m_freeinode s' = m_freeinode s;
}.
Lemma grew_refl k own s : grew k own s own s.
Proof. split; [by intros ? ? ? ?|done|done]. Qed.
Lemma grew_trans k own s own1 s1 own2 s2 : grew k own s own1 s1 → grew k own1 s1 own2 s2 → grew k own s own2 s2.
Proof.
  intros [K1 M1 I1] [K2 M2 I2]. split.
  - intros k' Hk b j Hb. destruct (K1 k' Hk b j Hb) as [H1 E1]. destruct (K2 k' Hk b j H1) as [H2 E2].
    split; [done|]. by rewrite E2.
  - intros b Hb. by rewrite M2, M1.
  - congruence.
Qed.

Section mkfs.
Context (room : Z → bool) (Hroom : ∀ no, 0 ≤ no < FSSIZE → room no = true).

Lemma sect_small no : 0 ≤ no < FSSIZE → u32 (no * BSIZE) / BSIZE = no.
Proof using.
  intros H. change FSSIZE with 1000 in H. unfold u32. rewrite BSIZE_eq. rewrite Z.mod_small by lia. apply Z.div_mul. lia.
Qed.
Lemma wp_wsect own s no buf (Q : unit → mkfs → Prop) : mkinv own s → 0 ≤ no < FSSIZE →
  Q tt (m_set_img (<[Z.to_nat no := buf]> (m_img s)) s) → wp (wsect room no buf) Q s.
Proof using Hroom.
  intros Hs Hno HQ. unfold wsect. rewrite sect_small, Hroom by done. apply wp_modify.
  pose proof (mi_len _ _ Hs). replace (Z.to_nat no + 1 - length (m_img s))%nat with 0%nat by lia.
  by rewrite app_nil_r.
Qed.
Lemma wp_rsect own s no (Q : block → mkfs → Prop) : mkinv own s → 0 ≤ no < FSSIZE →
  Q (img_block (m_img s) no) s → wp (rsect no) Q s.
Proof using.
  intros Hs Hno HQ. unfold rsect. apply wp_bind, wp_gets. rewrite sect_small by done.
  pose proof (mi_len _ _ Hs). unfold img_block in HQ. rewrite decide_True in HQ by lia.
  destruct (lookup_lt_is_Some_2 (m_img s) (Z.to_nat no)) as [b Hb]; [lia|]. rewrite Hb in *. by apply wp_ret.
Qed.
Lemma mkinv_block own s no : mkinv own s → is_block (img_block (m_img s) no).
Proof using. intros Hs. by apply img_is_block, Hs. Qed.
(** Writing a sector that is in use and behind the log. *)
Lemma img_write own s no buf b : mkinv own s → 0 ≤ no < FSSIZE →
  img_block (<[Z.to_nat no := buf]> (m_img s)) b = if decide (b = no) then buf else img_block (m_img s) b.
Proof using. intros Hs Hno. apply img_insert. pose proof (mi_len _ _ Hs). lia. Qed.
Lemma mkinv_write own s no buf : mkinv own s → 2 + nlog ≤ no < m_freeblock s → is_block buf →
  mkinv own (m_set_img (<[Z.to_nat no := buf]> (m_img s)) s).
Proof using.
  intros Hs Hno Hb. pose proof (mi_free _ _ Hs). assert (2 + nlog = 32) as En by done.
  pose proof (λ b, img_write own s no buf b Hs ltac:(lia)) as E. destruct Hs as [H1 H2 H3 H4 H8 H5 H6 H7]. split; cbn [m_img m_set_img m_sb m_freeblock]; try done.
  - by rewrite length_insert.
  - by apply Forall_insert.
  - rewrite E, decide_False by lia. done.
  - intros b Hb'. rewrite E, decide_False by lia. by apply H8.
  - intros b Hb'. rewrite E, decide_False by lia. by apply H7.
Qed.

(** * Appending *)

(** [inc] blocks more, and the file has them at [has] and the bytes [bs]. *)
Definition grown (k : Z) (own : owners) (s : mkfs) (din : dinode) (has : Z → bool) (bs : list Z) (inc : Z)
    (s' : mkfs) (din' : dinode) : Prop :=
  ∃ own', mkinv own' s' ∧ file_ok (tx s') own' k (as_inode k din') has bs ∧ grew k own s own' s' ∧
    din' = Dinode (d_type din) (d_major din) (d_minor din) (d_nlink din) (d_size din) (d_addrs din') ∧
    m_freeblock s' = m_freeblock s + inc.
Definition cost (has : Z → bool) (j : Z) : Z := if has j then 0 else 1.

Lemma mkinv_give own s k j : mkinv own s → m_freeblock s < FSSIZE →
  mkinv (give own (m_freeblock s) (k, j)) (m_set_freeblock (m_freeblock s + 1) s) ∧
  grew k own s (give own (m_freeblock s) (k, j)) (m_set_freeblock (m_freeblock s + 1) s) ∧
  own (m_freeblock s) = None ∧ 0 < m_freeblock s < 2 ^ 32.
Proof using.
  intros Hs Hlt. assert (own (m_freeblock s) = None) as Hn.
  { destruct (own _) as [x|] eqn:E; [|done]. apply (mi_own _ _ Hs) in E. lia. }
  pose proof (mi_free _ _ Hs) as Hf. change nmeta with 46 in Hf. change FSSIZE with 1000 in *. split_and!; [| |done|lia|lia].
  - destruct Hs as [H1 H2 H3 H4 H8 H5 H6 H7]. split; cbn; try done.
    + change FSSIZE with 1000. lia.
    + intros b x. unfold give. case_decide as E; [subst; intros _; change nmeta with 46; lia|].
      intros Hb%H6. lia.
    + intros b Hb. apply H7. lia.
  - split; [|done|done]. intros k' Hk b j' Hb. split; [|done]. unfold give. rewrite decide_False; [done|].
    intros ->. congruence.
Qed.
Lemma new_block_spec own s (Q : Z → mkfs → Prop) : mkinv own s → m_freeblock s < FSSIZE →
  Q (m_freeblock s) (m_set_freeblock (m_freeblock s + 1) s) → wp new_block Q s.
Proof using.
  intros Hs Hlt HQ. unfold new_block. apply wp_bind, wp_gets, wp_bind, wp_modify, wp_ret.
  pose proof (mi_free _ _ Hs) as Hf. change nmeta with 46 in Hf. change FSSIZE with 1000 in *.
  unfold u32. by rewrite Z.mod_small by lia.
Qed.
Lemma d_addr_slot a k din j : 0 ≤ j < NDIRECT ∨ j = MAXFILE →
  d_addr din (if j =? MAXFILE then NDIRECT else j) = slot a (as_inode k din) j.
Proof using.
  intros Hj. unfold d_addr, slot, ind. cbn [i_addrs as_inode]. rewrite MAXFILE_eq in *. change NDIRECT with 12 in *.
  destruct (Z.eqb_spec j 268) as [->|]; [done|]. destruct Hj; [|done]. destruct (Z.ltb_spec j 12); [done|lia].
Qed.
Lemma mk_addr_fits a own k din has bs n : file_ok a own k (as_inode k din) has bs → fits 32 (d_addr din n).
Proof using.
  intros Hf. unfold d_addr. destruct (_ !! _) as [x|] eqn:E; [|split; simpl; lia].
  apply (Forall_lookup_1 _ _ _ _ (fo_fits _ _ _ _ _ _ Hf) E).
Qed.

Lemma ensure_spec own s k din has bs j (Q : dinode → mkfs → Prop) :
  mkinv own s → file_ok (tx s) own k (as_inode k din) has bs → 0 ≤ j < NDIRECT ∨ j = MAXFILE →
  (has j = false → j < MAXFILE → Z.of_nat (length bs) ≤ j * BSIZE) →
  (has j = false → j = MAXFILE → ∀ j', NDIRECT ≤ j' < MAXFILE → has j' = false) →
  m_freeblock s + cost has j ≤ FSSIZE →
  (∀ din' s', grown k own s din (extend has j) bs (cost has j) s' din' → Q din' s') →
  wp (ensure_addr (if j =? MAXFILE then NDIRECT else j) din) Q s.
Proof using.
  intros Hs Hf Hj Hbs Hind Hcost HQ. unfold ensure_addr. set (n := if j =? MAXFILE then NDIRECT else j).
  rewrite xint_id by (by eapply mk_addr_fits). unfold n at 1. rewrite (d_addr_slot (tx s) k) by done.
  assert (0 ≤ j ≤ MAXFILE) as Hjr by (rewrite MAXFILE_eq in *; change NDIRECT with 12 in *; lia).
  pose proof (fo_slot _ _ _ _ _ _ Hf j Hjr) as Hsl. unfold cost in *. destruct (Z.eqb_spec (slot (tx s) (as_inode k din) j) 0) as [E|E].
  - destruct (has j) eqn:Hh; [by destruct (proj2 Hsl eq_refl)|].
    apply wp_bind. eapply new_block_spec; [done|lia|]. apply wp_ret.
    destruct (mkinv_give own s k j Hs ltac:(lia)) as (Hs' & Hg & Hn & Hb). apply HQ.
    exists (give own (m_freeblock s) (k, j)). rewrite xint_id by (unfold fits; lia). split_and!; [done| |done|done|done].
    pose proof (file_add_addr _ _ _ _ _ _ Hf j (m_freeblock s) Hb Hn (mi_zero _ _ Hs _ (Z.le_refl _)) Hh Hj (Hbs eq_refl) (Hind eq_refl)) as Hf'.
    exact Hf'.
  - apply Hsl in E. rewrite E in *. apply wp_ret, HQ. exists own. split_and!; [done| |apply grew_refl|by destruct din|lia].
    apply (file_ext _ _ _ _ has); [done|]. intros j' _. unfold extend. destruct (Z.eqb_spec j' j) as [->|]; [by rewrite E|].
    by rewrite orb_false_r.
Qed.

Lemma ind_range own s k din has bs : mkinv own s → file_ok (tx s) own k (as_inode k din) has bs → has MAXFILE = true →
  d_addr din NDIRECT = ind (as_inode k din) ∧ ind (as_inode k din) ≠ 0 ∧ nmeta ≤ ind (as_inode k din) < m_freeblock s.
Proof using.
  intros Hs Hf Hi. split_and!; [done|by apply (has_ind _ _ _ _ _ _ Hf)|..];
    apply (mi_own _ _ Hs _ (k, MAXFILE)), (fo_own _ _ _ _ _ _ Hf MAXFILE); done.
Qed.
Lemma grown_indirect own s k din has bs j buf :
  mkinv own s → file_ok (tx s) own k (as_inode k din) has bs → has MAXFILE = true →
  NDIRECT ≤ j < MAXFILE → has j = false → Z.of_nat (length bs) ≤ j * BSIZE → m_freeblock s < FSSIZE →
  let x := ind (as_inode k din) in
  buf = put 4 (img_block (m_img s) x) (4 * (j - NDIRECT)) (m_freeblock s) →
  grown k own s din (extend has j) bs 1 (m_set_img (<[Z.to_nat x := buf]> (m_img s)) (m_set_freeblock (m_freeblock s + 1) s)) din.
Proof using.
  intros Hs Hf Hi Hj Hh Hbs Hlt x ->. destruct (ind_range _ _ _ _ _ _ Hs Hf Hi) as (_ & Hx0 & Hx). fold x in Hx, Hx0.
  destruct (mkinv_give own s k j Hs Hlt) as (Hs' & Hg & Hn & Hb). pose proof (mi_free _ _ Hs) as Hfb.
  assert (2 < 2 + nlog ≤ nmeta) as Hm by done. set (buf := put 4 _ _ _).
  assert (is_block buf) as Hbuf.
  { change NDIRECT with 12 in *. rewrite MAXFILE_eq in Hj. apply put_block; [by eapply mkinv_block|lia|rewrite BSIZE_eq; lia]. }
  pose proof (λ b, img_write own s x buf b Hs ltac:(lia)) as E.
  exists (give own (m_freeblock s) (k, j)). split_and!; [|..|by destruct din|done].
  - apply (mkinv_write _ (m_set_freeblock (m_freeblock s + 1) s)); [done|cbn; lia|done].
  - apply (file_add_indirect _ _ _ _ _ _ Hf j (m_freeblock s) Hb Hn (mi_zero _ _ Hs _ (Z.le_refl _)) Hh (img_tx (<[Z.to_nat x:=buf]> (m_img s)))); [done..| |].
    + intros no. by eapply mkinv_block.
    + intros no. cbn [x_disk img_tx]. rewrite E. done.
  - eapply grew_trans; [exact Hg|]. split; [|intros b Hb'; cbn; rewrite E, decide_False by lia; done|done].
    intros k' Hk b j' Hb'. split; [done|]. cbn [x_disk img_tx m_img m_set_img]. rewrite E, decide_False; [done|].
    intros ->. assert (own x = Some (k, MAXFILE)) as Ho by (by apply (fo_own _ _ _ _ _ _ Hf MAXFILE)).
    unfold give in Hb'. case_decide; [lia|]. congruence.
Qed.
Lemma indirect_spec own s k din has bs j (Q : dinode * Z → mkfs → Prop) :
  mkinv own s → file_ok (tx s) own k (as_inode k din) has bs → has MAXFILE = true → NDIRECT ≤ j < MAXFILE →
  (has j = false → Z.of_nat (length bs) ≤ j * BSIZE) → m_freeblock s + cost has j ≤ FSSIZE →
  (∀ s', grown k own s din (extend has j) bs (cost has j) s' din → Q (din, slot (tx s') (as_inode k din) j) s') →
  wp (let! indirect := rsect (xint (d_addr din NDIRECT)) in
      let at_ := 4 * (j - NDIRECT) in
      let! indirect :=
        (if get 4 indirect at_ =? 0 then
           let! b := new_block in
           let indirect := put 4 indirect at_ (xint b) in
           do! wsect room (xint (d_addr din NDIRECT)) indirect;
           ret indirect
         else ret indirect) in
      ret (din, xint (get 4 indirect at_))) Q s.
Proof using Hroom.
  intros Hs Hf Hi Hj Hbs Hcost HQ. destruct (ind_range _ _ _ _ _ _ Hs Hf Hi) as (Ex & Hx0 & Hx).
  rewrite xint_id by (by eapply mk_addr_fits). rewrite Ex. set (x := ind (as_inode k din)) in *.
  pose proof (mi_free _ _ Hs) as Hfb. assert (2 < 2 + nlog ≤ nmeta) as Hm by done.
  apply wp_bind. eapply wp_rsect; [done|lia|]. cbv zeta. set (d := img_block (m_img s) x).
  assert (∀ img, slot (img_tx img) (as_inode k din) j = get 4 (img_block img x) (4 * (j - NDIRECT))) as Hslot.
  { intros img. unfold slot. fold x. destruct (Z.ltb_spec j NDIRECT); [lia|]. destruct (Z.eqb_spec j MAXFILE); [lia|].
    by destruct (Z.eqb_spec x 0). }
  assert (∀ d', is_block d' → xint (get 4 d' (4 * (j - NDIRECT))) = get 4 d' (4 * (j - NDIRECT))) as Hxi.
  { intros d' [_ Hd]. apply xint_id. apply (get_bound 4 _ _ Hd). }
  assert (0 ≤ j ≤ MAXFILE) as Hjr by (change NDIRECT with 12 in *; lia).
  pose proof (fo_slot _ _ _ _ _ _ Hf j Hjr) as Hsl. rewrite Hslot in Hsl. fold d in Hsl. unfold cost in *.
  assert (is_block d) as Hd by (by eapply mkinv_block).
  destruct (Z.eqb_spec (get 4 d (4 * (j - NDIRECT))) 0) as [E|E].
  - destruct (has j) eqn:Hh; [by destruct (proj2 Hsl eq_refl)|]. apply wp_bind, wp_bind.
    destruct (mkinv_give own s k j Hs ltac:(lia)) as (Hs' & _ & _ & Hb).
    eapply new_block_spec; [done|lia|]. apply wp_bind. eapply wp_wsect; [exact Hs'|lia|]. do 2 apply wp_ret.
    rewrite (xint_id (m_freeblock s)) by (unfold fits; lia).
    pose proof (grown_indirect own s k din has bs j _ Hs Hf Hi Hj Hh (Hbs eq_refl) ltac:(lia) eq_refl) as Hg.
    fold x d in Hg. cbv zeta in Hg. apply HQ in Hg. rewrite Hslot in Hg. cbn [m_img m_set_img m_set_freeblock] in *.
    rewrite (img_write own), decide_True in Hg by (done || lia).
    rewrite Hxi; [exact Hg|]. change NDIRECT with 12. rewrite MAXFILE_eq in *. change NDIRECT with 12 in *.
    apply put_block; [done|lia|rewrite BSIZE_eq; lia].
  - apply Hsl in E. rewrite E in *. apply wp_bind. do 2 apply wp_ret. rewrite Hxi by done. unfold d. rewrite <- Hslot. apply HQ.
    exists own. split_and!; [done| |apply grew_refl|by destruct din|lia].
    apply (file_ext _ _ _ _ has); [done|]. intros j' _. unfold extend. destruct (Z.eqb_spec j' j) as [->|]; [by rewrite E|].
    by rewrite orb_false_r.
Qed.

(** A file of [n] bytes has a block at the index [j]; how many it has. *)
Definition need (n j : Z) : bool := if j =? MAXFILE then NDIRECT * BSIZE <? n else j * BSIZE <? n.
Definition nblocks_of (n : Z) : Z := (n + BSIZE - 1) / BSIZE + (if NDIRECT * BSIZE <? n then 1 else 0).
Lemma need_direct n n1 j : 0 ≤ n → 0 < n1 ≤ BSIZE - n `mod` BSIZE → n / BSIZE < NDIRECT → 0 ≤ j ≤ MAXFILE →
  need (n + n1) j = extend (need n) (n / BSIZE) j ∧ nblocks_of (n + n1) - nblocks_of n = cost (need n) (n / BSIZE).
Proof using.
  unfold need, nblocks_of, cost, extend. rewrite MAXFILE_eq, BSIZE_eq. change NDIRECT with 12. intros.
  split; repeat case_cmp; simpl; dlia.
Qed.
Lemma need_indirect n n1 j : 0 ≤ n → 0 < n1 ≤ BSIZE - n `mod` BSIZE → NDIRECT ≤ n / BSIZE < MAXFILE → 0 ≤ j ≤ MAXFILE →
  need (n + n1) j = extend (extend (need n) MAXFILE) (n / BSIZE) j ∧
  nblocks_of (n + n1) - nblocks_of n = cost (need n) MAXFILE + cost (extend (need n) MAXFILE) (n / BSIZE).
Proof using.
  unfold need, nblocks_of, cost, extend. rewrite MAXFILE_eq, BSIZE_eq. change NDIRECT with 12. intros.
  split; repeat case_cmp; simpl; dlia.
Qed.

Lemma mk_grown_trans k own s din has bs inc own1 s1 din1 has' bs' inc' s2 din2 :
  grew k own s own1 s1 → din1 = Dinode (d_type din) (d_major din) (d_minor din) (d_nlink din) (d_size din) (d_addrs din1) →
  m_freeblock s1 = m_freeblock s + inc → mkinv own1 s1 → file_ok (tx s1) own1 k (as_inode k din1) has bs →
  grown k own1 s1 din1 has' bs' inc' s2 din2 → grown k own s din has' bs' (inc + inc') s2 din2.
Proof using.
  intros Hg Ed Ef _ _ (own2 & Hs2 & Hf2 & Hg2 & Ed2 & Ef2). exists own2. split_and!; [done|done|by eapply grew_trans| |lia].
  rewrite Ed2 at 1. rewrite Ed. done.
Qed.
Lemma grown_ext k own s din has has' bs inc s' din' : (∀ j, 0 ≤ j ≤ MAXFILE → has' j = has j) →
  grown k own s din has bs inc s' din' → grown k own s din has' bs inc s' din'.
Proof using.
  intros E (own' & ? & Hf & ? & ? & ?). exists own'. split_and!; try done. by eapply file_ext.
Qed.
Lemma sector_spec own s k din bs n1 (Q : dinode * Z → mkfs → Prop) :
  let n := Z.of_nat (length bs) in
  mkinv own s → file_ok (tx s) own k (as_inode k din) (need n) bs → 0 < n1 ≤ BSIZE - n `mod` BSIZE → n / BSIZE < MAXFILE →
  m_freeblock s + (nblocks_of (n + n1) - nblocks_of n) ≤ FSSIZE →
  (∀ din' s', grown k own s din (need (n + n1)) bs (nblocks_of (n + n1) - nblocks_of n) s' din' →
     Q (din', slot (tx s') (as_inode k din') (n / BSIZE)) s') →
  wp (iappend_sector room (n / BSIZE) din) Q s.
Proof using Hroom.
  intros n Hs Hf Hn1 Hmax Hcost HQ. assert (0 ≤ n) as Hn by lia. unfold iappend_sector.
  assert (0 ≤ n / BSIZE) as Hfb by (rewrite BSIZE_eq; dlia).
  assert (∀ j, need n j = false → 0 ≤ j < MAXFILE → n ≤ j * BSIZE) as Hbs.
  { intros j H Hj. unfold need in H. destruct (Z.eqb_spec j MAXFILE); [lia|]. by apply Z.ltb_ge in H. }
  destruct (Z.ltb_spec (n / BSIZE) NDIRECT) as [Hlt|Hge].
  - pose proof (λ j, need_direct n n1 j Hn Hn1 Hlt) as He. destruct (He 0 ltac:(rewrite MAXFILE_eq; lia)) as [_ Ec].
    rewrite Ec in *. apply wp_bind.
    assert (n / BSIZE = if n / BSIZE =? MAXFILE then NDIRECT else n / BSIZE) as E by (by destruct (Z.eqb_spec (n / BSIZE) MAXFILE); [lia|]).
    rewrite E at 1. eapply ensure_spec; [done|done|lia|intros; apply Hbs; (done || lia)|lia|done|].
    intros din' s' Hg. apply wp_ret. pose proof Hg as (own' & _ & Hf' & _).
    rewrite xint_id by (by eapply mk_addr_fits). rewrite E at 1. rewrite (d_addr_slot (tx s') k) by lia. apply HQ.
    eapply grown_ext; [|done]. intros j Hj. by apply He.
  - pose proof (λ j, need_indirect n n1 j Hn Hn1 (conj Hge Hmax)) as He. destruct (He 0 ltac:(rewrite MAXFILE_eq; lia)) as [_ Ec].
    rewrite Ec in *. apply wp_bind. change NDIRECT with (if MAXFILE =? MAXFILE then NDIRECT else MAXFILE) at 1.
    assert (∀ has j, 0 ≤ cost has j) as Hpos by (intros has j; unfold cost; by destruct (has j)).
    pose proof (Hpos (extend (need n) MAXFILE) (n / BSIZE)).
    eapply ensure_spec; [done|done|by right|lia| |lia|].
    { intros Hi _ j Hj. unfold need in *. rewrite Z.eqb_refl in Hi. rewrite MAXFILE_eq, BSIZE_eq in *. change NDIRECT with 12 in *.
      destruct (Z.eqb_spec j 268); [lia|]. apply Z.ltb_ge in Hi. apply Z.ltb_ge. lia. }
    intros din1 s1 (own1 & Hs1 & Hf1 & Hg1 & Ed1 & Ef1).
    eapply (indirect_spec own1 s1 k din1 (extend (need n) MAXFILE) bs); [done|done| |done| |lia|].
    + unfold extend. by rewrite Z.eqb_refl, orb_true_r.
    + intros H0. apply Hbs; [|lia]. unfold extend in H0. by apply orb_false_iff in H0 as [? _].
    + intros s' Hg. apply HQ. eapply grown_ext; [intros j Hj; by apply He|]. by eapply mk_grown_trans.
Qed.
Lemma file_slot own s k din has bs j : mkinv own s → file_ok (tx s) own k (as_inode k din) has bs → 0 ≤ j ≤ MAXFILE →
  has j = true → nmeta ≤ slot (tx s) (as_inode k din) j < m_freeblock s.
Proof using. intros Hs Hf Hj Hh. apply (mi_own _ _ Hs _ (k, j)). by apply (fo_own _ _ _ _ _ _ Hf). Qed.
Lemma grown_write own s k din has bs j c : mkinv own s → file_ok (tx s) own k (as_inode k din) has bs →
  0 ≤ j < MAXFILE → has j = true → bytes c →
  let q := Z.of_nat (length bs) - j * BSIZE in 0 ≤ q → q + Z.of_nat (length c) ≤ BSIZE →
  let x := slot (tx s) (as_inode k din) j in
  let buf := splice (img_block (m_img s) x) (Z.to_nat q) c in
  grown k own s din has (bs ++ c) 0 (m_set_img (<[Z.to_nat x := buf]> (m_img s)) s) din.
Proof using.
  intros Hs Hf Hj Hh Hc q Hq Hqc x buf. pose proof (file_slot _ _ _ _ _ _ j Hs Hf ltac:(lia) Hh) as Hx. fold x in Hx.
  pose proof (mi_free _ _ Hs) as Hfree. assert (2 < 2 + nlog ≤ nmeta) as Hm by done.
  assert (is_block buf) as Hbuf by (apply splice_block; [by eapply mkinv_block|done|lia]).
  pose proof (λ b, img_write own s x buf b Hs ltac:(lia)) as E.
  exists own. split_and!; [by apply mkinv_write; [|lia|]| | |by destruct din|cbn; lia].
  - eapply (file_write _ _ _ _ _ _ Hf _ j (Z.to_nat q)); [done|done|lia|lia| |exact E]. intros no. by eapply mkinv_block.
  - split; [|intros b Hb'; cbn; rewrite E, decide_False by lia; done|done].
    intros k' Hk b j' Hb'. split; [done|]. cbn [x_disk img_tx m_img m_set_img]. rewrite E, decide_False; [done|].
    intros ->. assert (own x = Some (k, j)) by (apply (fo_own _ _ _ _ _ _ Hf); [lia|done]). congruence.
Qed.
Lemma round_spec own s k din bs p (Q : dinode * Z * list Z + dinode * Z → mkfs → Prop) :
  let n := Z.of_nat (length bs) in let n1 := chunk_len (Z.of_nat (length p)) 0 n in
  mkinv own s → file_ok (tx s) own k (as_inode k din) (need n) bs → p ≠ [] → bytes p →
  n + Z.of_nat (length p) ≤ MAXFILE * BSIZE → m_freeblock s + (nblocks_of (n + n1) - nblocks_of n) ≤ FSSIZE →
  (∀ din' s', grown k own s din (need (n + n1)) (bs ++ take (Z.to_nat n1) p) (nblocks_of (n + n1) - nblocks_of n) s' din' →
     Q (inl (din', n + n1, drop (Z.to_nat n1) p)) s') →
  wp (iappend_round room (din, n, p)) Q s.
Proof using Hroom.
  intros n n1 Hs Hf Hp Hby Hmax Hcost HQ. assert (0 < Z.of_nat (length p)) as Hlen by (destruct p; [done|simpl; lia]).
  destruct (chunk_pos (Z.of_nat (length p)) 0 n Hlen) as (Hn1 & Hn2 & Hn3). fold n1 in Hn1, Hn2, Hn3.
  assert (0 ≤ n) as Hn by lia. rewrite MAXFILE_eq, BSIZE_eq in Hmax.
  unfold iappend_round. apply Z.ltb_lt in Hlen as ->.
  assert (0 ≤ n / BSIZE < MAXFILE) as Hj by (rewrite MAXFILE_eq, BSIZE_eq; clear -Hmax Hn Hn1 Hn2; dlia).
  pose proof (proj2 (Z.ltb_lt _ _) (proj2 Hj)) as ->. cbn [negb]. cbv zeta. apply wp_bind.
  eapply (sector_spec own s k din bs n1); [done|done|fold n; lia|fold n; lia|done|].
  fold n. intros din' s' (own' & Hs' & Hf' & Hg' & Ed' & Ef').
  assert (n - n / BSIZE * BSIZE = n `mod` BSIZE) as Eq by (rewrite BSIZE_eq; clear -Hn; dlia).
  assert (Z.min (Z.of_nat (length p)) (u32 ((n / BSIZE + 1) * BSIZE - n)) = n1) as ->.
  { unfold n1, chunk_len, u32. rewrite BSIZE_eq in *. rewrite Z.mod_small by (clear -Hn; dlia). f_equal; clear -Hn; dlia. }
  assert (need (n + n1) (n / BSIZE) = true) as Hh.
  { unfold need. destruct (Z.eqb_spec (n / BSIZE) MAXFILE); [lia|]. apply Z.ltb_lt. rewrite BSIZE_eq. clear -Hn Hn1. dlia. }
  pose proof (file_slot _ _ _ _ _ _ (n / BSIZE) Hs' Hf' ltac:(lia) Hh) as Hx.
  pose proof (mi_free _ _ Hs') as Hfree. assert (2 < 2 + nlog ≤ nmeta) as Hm by done.
  apply wp_bind. eapply wp_rsect; [done|lia|]. apply wp_bind. eapply wp_wsect; [done|lia|]. apply wp_ret.
  assert (u32 (n + n1) = n + n1) as -> by (unfold u32; apply Z.mod_small; lia).
  assert (length (take (Z.to_nat n1) p) = Z.to_nat n1) as Htl by (rewrite length_take; lia).
  apply HQ. rewrite <- (Z.add_0_r (_ - _)). eapply mk_grown_trans; [done..|].
  apply grown_write; [done|done|done|done|by apply Forall_take|fold n; rewrite Eq; apply Z.mod_pos_bound; done|fold n; lia].
Qed.

Lemma append_loop own s k din bs p (Q : dinode * Z → mkfs → Prop) :
  let n := Z.of_nat (length bs) in let m := n + Z.of_nat (length p) in
  mkinv own s → file_ok (tx s) own k (as_inode k din) (need n) bs → bytes p → m ≤ MAXFILE * BSIZE →
  m_freeblock s + (nblocks_of m - nblocks_of n) ≤ FSSIZE →
  (∀ din' s', grown k own s din (need m) (bs ++ p) (nblocks_of m - nblocks_of n) s' din' → Q (din', m) s') →
  wp (loop (Z.to_nat (Z.of_nat (length p) / BSIZE) + 3) (iappend_round room) (din, n, p)) Q s.
Proof using Hroom.
  intros n m Hs Hf Hby Hmax Hcost HQ. assert (0 ≤ n) as Hn by lia.
  eapply (wp_loop _ (λ '(din1, off, p1) s1, ∃ c, p = c ++ p1 ∧ off = n + Z.of_nat (length c) ∧
    grown k own s din (need off) (bs ++ c) (nblocks_of off - nblocks_of n) s1 din1)
    (λ '(_, _, p1) _, blocks_left n (Z.of_nat (length p)) (Z.of_nat (length p) - Z.of_nat (length p1)))).
  - intros [[din1 off] p1] s1 (c & -> & -> & Hg). pose proof Hg as (own1 & Hs1 & Hf1 & Hg1 & Ed1 & Ef1).
    unfold m in *. clear m. destruct (decide (p1 = [])) as [->|Hp1].
    { unfold iappend_round. simpl Z.of_nat. cbn [Z.ltb Z.compare]. rewrite app_nil_r in *. apply wp_ret. by apply HQ. }
    rewrite length_app, Nat2Z.inj_add in *.
    assert (n + Z.of_nat (length c) = Z.of_nat (length (bs ++ c))) as En by (rewrite length_app; lia).
    set (n1 := chunk_len (Z.of_nat (length p1)) 0 (Z.of_nat (length (bs ++ c)))).
    assert (0 < Z.of_nat (length p1)) as Hlen by (destruct p1; [done|simpl; lia]).
    destruct (chunk_pos (Z.of_nat (length p1)) 0 (Z.of_nat (length (bs ++ c))) Hlen) as (Hn1 & Hn2 & _). fold n1 in Hn1, Hn2.
    assert (nblocks_of (n + Z.of_nat (length c) + n1) ≤ nblocks_of (n + (Z.of_nat (length c) + Z.of_nat (length p1)))) as Hmono.
    { unfold nblocks_of. rewrite BSIZE_eq. repeat case_cmp; try lia; dlia. }
    rewrite En. eapply round_spec; [done|by rewrite <- En|done|by apply Forall_app in Hby as [_ ?]|rewrite <- En; lia|fold n1; rewrite <- En; lia|].
    fold n1. rewrite <- En. intros din' s' Hg'. split.
    + exists (c ++ take (Z.to_nat n1) p1). rewrite <- app_assoc, take_drop. split_and!; [done|rewrite length_app, length_take; lia|].
      rewrite app_assoc. replace (nblocks_of (n + Z.of_nat (length c) + n1) - nblocks_of n) with
        (nblocks_of (n + Z.of_nat (length c)) - nblocks_of n + (nblocks_of (n + Z.of_nat (length c) + n1) - nblocks_of (n + Z.of_nat (length c)))) by lia.
      by eapply mk_grown_trans.
    + rewrite length_drop. replace (Z.of_nat (length c) + Z.of_nat (length p1) - Z.of_nat (length p1)) with (Z.of_nat (length c)) by lia.
      rewrite (blocks_left_next n _ (Z.of_nat (length c))) by lia.
      match goal with |- (?x < S ?y)%nat => replace x with y; [lia|] end. f_equal.
      assert (chunk_len (Z.of_nat (length c) + Z.of_nat (length p1)) (Z.of_nat (length c)) (n + Z.of_nat (length c)) = n1) as ->.
      { unfold n1, chunk_len. rewrite <- En. f_equal. lia. }
      lia.
  - exists []. rewrite app_nil_r, Z.add_0_r, Z.sub_diag. split_and!; [done|done|]. exists own.
    split_and!; [done|done|apply grew_refl|by destruct din|lia].
  - rewrite Z.sub_diag. apply blocks_left_fuel; lia.
Qed.

(** * Inodes *)

Record inode_put (k : Z) (din : dinode) (s s' : mkfs) : Prop := {
  ip_inode : ∀ k', 0 ≤ k' < NINODES →
    disk_dinode (m_img s') k' = if decide (k' = k) then din else disk_dinode (m_img s) k';
  ip_data : ∀ b, nmeta ≤ b → img_block (m_img s') b = img_block (m_img s) b;
  ip_block : m_freeblock s' = m_freeblock s;
  ip_number : m_freeinode s' = m_freeinode s;
}.
Lemma mkfs_IBLOCK k : IBLOCK k mkfs_sb = k / 16 + 32.
Proof using. done. Qed.
Lemma rinode_spec own s k (Q : dinode → mkfs → Prop) : mkinv own s → 0 ≤ k < NINODES →
  Q (disk_dinode (m_img s) k) s → wp (rinode k) Q s.
Proof using.
  intros Hs Hk HQ. unfold rinode. apply wp_bind, wp_gets, wp_bind. rewrite (mi_sb _ _ Hs). eapply wp_rsect; [done| |by apply wp_ret].
  rewrite mkfs_IBLOCK. change NINODES with 200 in Hk. change FSSIZE with 1000. dlia.
Qed.
Lemma winode_spec own s k din (Q : unit → mkfs → Prop) : mkinv own s → 0 ≤ k < NINODES → inode_fits (as_inode 0 din) →
  (∀ s', mkinv own s' → inode_put k din s s' → Q tt s') → wp (winode room k din) Q s.
Proof using Hroom.
  intros Hs Hk Hfit HQ. unfold winode. apply wp_bind, wp_gets, wp_bind. rewrite (mi_sb _ _ Hs).
  assert (2 + nlog ≤ IBLOCK k mkfs_sb < nmeta) as Hno.
  { rewrite mkfs_IBLOCK. change NINODES with 200 in Hk. change nmeta with 46. change (2 + nlog) with 32. dlia. }
  assert (2 + nlog = 32) as En by done.
  pose proof (mi_free _ _ Hs) as Hfree. eapply wp_rsect; [done|lia|]. eapply wp_wsect; [done|lia|].
  fold (dip_off k). set (no := IBLOCK k mkfs_sb) in *. set (d := img_block (m_img s) no). destruct (dip_off_range k) as [Ho1 Ho2].
  assert (is_block d) as Hd by (by eapply mkinv_block).
  assert (is_block (dinode_put din (dip_off k) d)) as Hd' by (apply dip_store_block; [done..|apply (if_len _ Hfit)]).
  pose proof (λ b, img_write own s no (dinode_put din (dip_off k) d) b Hs ltac:(lia)) as E.
  apply HQ; [apply mkinv_write; [done|lia|done]|]. split; [|intros b Hb; cbn; rewrite E, decide_False by lia; done|done|done].
  intros k' Hk'. unfold disk_dinode. cbn [m_img m_set_img]. rewrite E. case_decide as Eno.
  - case_decide as Ek; [subst; by apply dinode_get_put|]. rewrite Eno. fold d.
    destruct (dip_off_range k'). apply dinode_get_ne; [done..| |apply (if_len _ Hfit)]. apply dip_off_ne.
    unfold no in Eno. rewrite !mkfs_IBLOCK in Eno. change IPB with 16. intros Em. apply Ek. dlia.
  - rewrite decide_False; [done|]. by intros ->.
Qed.

(** File [k] of the image, with its inode. *)
Definition has_file (own : owners) (s : mkfs) (k ty : Z) (bs : list Z) : Prop :=
  ∃ addrs, let din := Dinode ty 0 0 1 (Z.of_nat (length bs)) addrs in
    disk_dinode (m_img s) k = din ∧ file_ok (tx s) own k (as_inode k din) (need (Z.of_nat (length bs))) bs.
Lemma has_file_frame own s own' s' k ty bs : has_file own s k ty bs →
  keeps k (tx s) (tx s') own own' → disk_dinode (m_img s') k = disk_dinode (m_img s) k → has_file own' s' k ty bs.
Proof using.
  intros (ads & E & Hf) Hk Ei. exists ads. cbv zeta. split; [by rewrite Ei|]. by eapply file_frame.
Qed.
(** What iappend, ialloc and the like keep of the files but [k]. *)
Definition others (k : Z) (own : owners) (s : mkfs) (own' : owners) (s' : mkfs) : Prop :=
  ∀ k' ty bs, 0 ≤ k' < NINODES → k' ≠ k → has_file own s k' ty bs → has_file own' s' k' ty bs.
Lemma put_keeps own s k din s' k' : mkinv own s → inode_put k din s s' → keeps k' (tx s) (tx s') own own.
Proof using.
  intros Hs Hp b j Hb. split; [done|]. apply (ip_data _ _ _ _ Hp). apply (mi_own _ _ Hs) in Hb. lia.
Qed.
Lemma put_others own s k din s' : mkinv own s → inode_put k din s s' → others k own s own s'.
Proof using.
  intros Hs Hp k' ty bs Hk Hne Hf. eapply has_file_frame; [done|by eapply put_keeps|].
  rewrite (ip_inode _ _ _ _ Hp) by done. by rewrite decide_False.
Qed.
Lemma grew_others k own s own' s' : grew k own s own' s' → others k own s own' s'.
Proof using.
  intros [Hk Hm _] k' ty bs Hr Hne Hf. eapply has_file_frame; [done|by apply Hk|].
  unfold disk_dinode. rewrite Hm; [done|]. rewrite mkfs_IBLOCK. change NINODES with 200 in Hr. change nmeta with 46. dlia.
Qed.

Lemma iappend_spec own s k ty bs p (Q : unit → mkfs → Prop) :
  let n := Z.of_nat (length bs) in let m := n + Z.of_nat (length p) in
  mkinv own s → 0 ≤ k < NINODES → 0 ≤ ty < 2 ^ 15 → has_file own s k ty bs → bytes p → m ≤ MAXFILE * BSIZE →
  m_freeblock s + (nblocks_of m - nblocks_of n) ≤ FSSIZE →
  (∀ own' s', mkinv own' s' → has_file own' s' k ty (bs ++ p) → others k own s own' s' →
     m_freeblock s' = m_freeblock s + (nblocks_of m - nblocks_of n) → m_freeinode s' = m_freeinode s → Q tt s') →
  wp (iappend room k p) Q s.
Proof using Hroom.
  intros n m Hs Hk Hty (ads & Edin & Hf) Hby Hmax Hcost HQ. unfold iappend. apply wp_bind.
  eapply rinode_spec; [done|done|]. rewrite Edin. cbn [d_size]. fold n in Edin, Hf |- *. set (din := Dinode ty 0 0 1 n ads) in *.
  assert (MAXFILE * BSIZE < 2 ^ 31) as Hbig by done.
  apply wp_bind. rewrite xint_id by (unfold fits; lia).
  eapply append_loop; [done|done|done|done|done|]. intros din' s1 (own1 & Hs1 & Hf1 & Hg1 & Ed1 & Ef1).
  rewrite xint_id by (unfold fits; lia).
  eapply winode_spec; [exact Hs1|done|..].
  { rewrite Ed1. pose proof (fo_len _ _ _ _ _ _ Hf1). pose proof (fo_fits _ _ _ _ _ _ Hf1).
    split; cbn; unfold fits; (done || lia). }
  intros s2 Hs2 Hp. apply (HQ own1 s2 Hs2).
  - exists (d_addrs din'). rewrite length_app, Nat2Z.inj_add. cbv zeta. split.
    + rewrite (ip_inode _ _ _ _ Hp) by done. rewrite decide_True by done. rewrite Ed1. done.
    + eapply file_frame; [|exact (put_keeps _ _ _ _ _ k Hs1 Hp)]. destruct Hf1 as [H1 H2 H3 H4 H5]. split; [exact H1|exact H2|exact H3|exact H4|exact H5].
  - intros k' ty' bs' Hk' Hne Hf'. apply (put_others _ _ _ _ _ Hs1 Hp); [done|done|]. by apply (grew_others _ _ _ _ _ Hg1).
  - rewrite (ip_block _ _ _ _ Hp). done.
  - rewrite (ip_number _ _ _ _ Hp). apply Hg1.
Qed.
Lemma ialloc_spec own s ty (Q : Z → mkfs → Prop) : mkinv own s → 0 ≤ m_freeinode s < NINODES → 0 ≤ ty < 2 ^ 15 →
  (∀ s', mkinv own s' → has_file own s' (m_freeinode s) ty [] → others (m_freeinode s) own s own s' →
     m_freeblock s' = m_freeblock s → m_freeinode s' = m_freeinode s + 1 → Q (m_freeinode s) s') →
  wp (Mkfs.ialloc room ty) Q s.
Proof using Hroom.
  intros Hs Hk Hty HQ. unfold Mkfs.ialloc. apply wp_bind, wp_gets, wp_bind, wp_modify, wp_bind. set (k := m_freeinode s) in *.
  assert (u32 (k + 1) = k + 1) as -> by (unfold u32; change NINODES with 200 in Hk; rewrite Z.mod_small; lia).
  set (s0 := m_set_freeinode (k + 1) s).
  assert (mkinv own s0) as Hs0 by (destruct Hs as [? ? ? ? ? ? ? ?]; by split).
  assert (s16 (xshort ty) = ty ∧ s16 (xshort 1) = 1 ∧ xint 0 = 0) as (-> & -> & ->).
  { split_and!; [|done|done]. rewrite xshort_id by (unfold fits; lia).
    rewrite <- (s16_u16 ty) at 2 by lia. unfold u16. by rewrite Z.mod_small by lia. }
  eapply (winode_spec own s0); [done|done| |].
  { split; cbn; unfold fits; (done || lia || idtac). apply (Forall_replicate _ 13). unfold fits. lia. }
  intros s1 Hs1 Hp. apply wp_ret. apply HQ; [done| |by apply (put_others _ _ _ _ _ Hs0 Hp)|by rewrite (ip_block _ _ _ _ Hp)|by rewrite (ip_number _ _ _ _ Hp)].
  exists (replicate naddrs 0). cbv zeta. split.
  - rewrite (ip_inode _ _ _ _ Hp), decide_True by done. done.
  - assert (∀ n, default 0 (replicate naddrs 0 !! n) = 0) as Hz.
    { intros n. destruct (replicate naddrs 0 !! n) as [x|] eqn:E; [|done]. by apply lookup_replicate in E as [-> _]. }
    assert (∀ j, 0 ≤ j → need 0 j = false) as Hn.
    { intros j Hj. unfold need. rewrite BSIZE_eq. change NDIRECT with 12. repeat case_cmp; (done || lia). }
    split; [done|apply (Forall_replicate _ 13); unfold fits; lia|..].
    + intros j Hj. change (Z.of_nat (length (@nil Z))) with 0. rewrite Hn by lia. unfold slot, ind. cbn [i_addrs as_inode d_addrs].
      rewrite !Hz. by repeat case_cmp.
    + intros j Hj. change (Z.of_nat (length (@nil Z))) with 0. by rewrite Hn by lia.
    + intros p Hp'. pose proof (index_range p Hp'). change (Z.of_nat (length (@nil Z))) with 0. by rewrite Hn by lia.
Qed.
End mkfs.
