(* ===== verification/MkfsMain.v ===== *)
(** mkfs/mkfs.c: main builds an image on which the kernel finds every file it
    was given by its name and reads back its contents. *)

From S2P Require Import Prelude Riscv Mem Cstring Spinlock Sleeplock Kalloc Vm Bio FsLayout ProcMem.
From S2P Require Import Fs FsBlocks FsFile FsIo FsInode FsDir FsStore FsProps Mkfs MkfsFile MkfsSpec.

(** * The files of the host *)

Definition h_name (f : hostfile) : list Z := strip_underscore (strip_dir (h_arg f)).
(** The bytes read up to the end. *)
Fixpoint read_all (reads : list (list Z)) : list Z :=
  match reads with
  | [] => []
  | c :: reads' => if 0 <? Z.of_nat (length c) then c ++ read_all reads' else []
  end.
Definition h_data (f : hostfile) : list Z := read_all (default [] (h_reads f)).
Record host_ok (f : hostfile) : Prop := {
  ho_open : is_Some (h_reads f);
  ho_slash : existsb (Z.eqb SLASH) (strip_dir (h_arg f)) = false;
  ho_arg : Forall (λ c, 0 < c < 256) (h_arg f);
  ho_data : bytes (h_data f);
  ho_size : Z.of_nat (length (h_data f)) ≤ MAXFILE * BSIZE;
}.
(** The root directory, and the blocks in use. *)
Definition root_entries (files : list hostfile) : list (list Z) :=
  dirent 1 dot :: dirent 1 dotdot ::
  imap (λ j f, dirent (2 + Z.of_nat j) (strncpy_bytes (at_list (h_name f)) DIRSIZ)) files.
Definition root_data (files : list hostfile) : list Z := concat (root_entries files).
Definition data_blocks (files : list hostfile) : Z :=
  foldr Z.add 0 ((λ f, nblocks_of (Z.of_nat (length (h_data f)))) <$> files).
Definition blocks_for (files : list hostfile) : Z :=
  nmeta + nblocks_of (Z.of_nat (length (root_data files))) + data_blocks files.
Record mkfs_fits (files : list hostfile) : Prop := {
  mf_ok : Forall host_ok files;
  mf_inodes : 2 + Z.of_nat (length files) ≤ NINODES;
  mf_blocks : blocks_for files ≤ FSSIZE;
}.

Lemma nblocks_mono n m : 0 ≤ n ≤ m → 0 ≤ nblocks_of n ≤ nblocks_of m.
Proof. intros. unfold nblocks_of. rewrite BSIZE_eq. change NDIRECT with 12. repeat case_cmp; dlia. Qed.
Lemma data_blocks_app l l' : data_blocks (l ++ l') = data_blocks l + data_blocks l'.
Proof. induction l as [|f l IH]; [done|]. unfold data_blocks in *. cbn [app fmap list_fmap foldr]. lia. Qed.
Lemma data_blocks_pos l : 0 ≤ data_blocks l.
Proof.
  induction l as [|f l IH]; [done|]. unfold data_blocks in *. cbn [fmap list_fmap foldr].
  pose proof (nblocks_mono (Z.of_nat (length (h_data f))) (Z.of_nat (length (h_data f)))). lia.
Qed.
Lemma root_snoc files f : root_data (files ++ [f]) =
  root_data files ++ dirent (2 + Z.of_nat (length files)) (strncpy_bytes (at_list (h_name f)) DIRSIZ).
Proof.
  unfold root_data, root_entries. rewrite imap_app. cbn [concat]. rewrite concat_app. cbn [imap concat].
  rewrite app_nil_r, Nat.add_0_r. by rewrite <- !app_assoc.
Qed.
Lemma length_dirent inum nm : length nm = 14%nat → length (dirent inum nm) = 16%nat.
Proof. intros H. unfold dirent. by rewrite length_app, length_le_split, H. Qed.
Lemma length_root files : Z.of_nat (length (root_data files)) = 16 * (2 + Z.of_nat (length files)).
Proof.
  induction files as [|f l IH] using rev_ind; [done|]. rewrite root_snoc, !length_app, length_dirent by apply length_strncpy.
  cbn [length]. lia.
Qed.
Lemma strip_name (P : Z → Prop) f : Forall P (h_arg f) → Forall P (h_name f).
Proof.
  intros H. assert (Forall P (strip_dir (h_arg f))) as H' by (unfold strip_dir; case_cmp; [by apply Forall_drop|done]).
  unfold h_name, strip_underscore. case_cmp; [by apply Forall_drop|done].
Qed.
Lemma h_name_bytes f : host_ok f → bytes (h_name f).
Proof.
  intros Hf. apply strip_name. eapply Forall_impl; [apply (ho_arg _ Hf)|]. unfold fits. simpl. lia.
Qed.
Lemma dirent_bytes inum nm : bytes nm → bytes (dirent inum nm).
Proof. intros H. apply Forall_app. split; [apply le_split_bytes|done]. Qed.
Lemma name_bytes f : host_ok f → bytes (strncpy_bytes (at_list (h_name f)) DIRSIZ).
Proof.
  intros Hf. apply Forall_app. split; [by apply cstr_bytes, h_name_bytes|]. apply Forall_replicate. split; simpl; lia.
Qed.

Section main.
Context (room : Z → bool) (Hroom : ∀ no, 0 ≤ no < FSSIZE → room no = true).

(** * The loops of main *)

Lemma append_reads_spec reads own s k bs (Q : unit → mkfs → Prop) :
  let n := Z.of_nat (length bs) in let m := n + Z.of_nat (length (read_all reads)) in
  mkinv own s → 0 ≤ k < NINODES → has_file own s k T_FILE bs → bytes (read_all reads) → m ≤ MAXFILE * BSIZE →
  m_freeblock s + (nblocks_of m - nblocks_of n) ≤ FSSIZE →
  (∀ own' s', mkinv own' s' → has_file own' s' k T_FILE (bs ++ read_all reads) → others k own s own' s' →
     m_freeblock s' = m_freeblock s + (nblocks_of m - nblocks_of n) → m_freeinode s' = m_freeinode s → Q tt s') →
  wp (append_reads room k reads) Q s.
Proof using Hroom.
  revert own s bs. induction reads as [|c reads IH]; intros own s bs n m Hs Hk Hf Hby Hmax Hcost HQ; cbn [append_reads].
  - apply wp_ret. apply (HQ own s); [done|by rewrite app_nil_r|by intros ? ? ? ? ? ?| |done]. unfold m. simpl. rewrite Z.add_0_r. lia.
  - cbn [read_all] in *. destruct (Z.ltb_spec 0 (Z.of_nat (length c))) as [Hc|Hc].
    2: { apply wp_ret. apply (HQ own s); [done|by rewrite app_nil_r|by intros ? ? ? ? ? ?| |done]. unfold m. simpl. rewrite Z.add_0_r. lia. }
    apply Forall_app in Hby as [Hby1 Hby2]. unfold m in *. clear m. rewrite length_app, Nat2Z.inj_add in *.
    pose proof (nblocks_mono (n + Z.of_nat (length c)) (n + (Z.of_nat (length c) + Z.of_nat (length (read_all reads)))) ltac:(lia)).
    apply wp_bind. eapply (iappend_spec room Hroom own s k T_FILE bs); [done|done|done|done|done|lia|fold n; lia|].
    fold n. intros own1 s1 Hs1 Hf1 Ho1 Efb1 Efi1.
    assert (Z.of_nat (length (bs ++ c)) = n + Z.of_nat (length c)) as En by (rewrite length_app; lia).
    eapply (IH own1 s1); [done|done|exact Hf1|done|rewrite En; lia|rewrite En, <- Z.add_assoc; lia|].
    rewrite En, <- Z.add_assoc. intros own2 s2 Hs2 Hf2 Ho2 Efb2 Efi2. apply (HQ own2 s2); [done|by rewrite app_assoc| |lia|congruence].
    intros k' ty' bs' Hk' Hne Hf'. apply Ho2; [done|done|]. by apply Ho1.
Qed.

(** The image holds the files [done]. *)
Record img_holds (own : owners) (s : mkfs) (done : list hostfile) : Prop := {
  hd_inv : mkinv own s;
  hd_inode : m_freeinode s = 2 + Z.of_nat (length done);
  hd_block : m_freeblock s = blocks_for done;
  hd_root : has_file own s 1 T_DIR (root_data done);
  hd_file : ∀ j f, done !! j = Some f → has_file own s (2 + Z.of_nat j) T_FILE (h_data f);
}.
Lemma add_file_spec own s done f (Q : unit → mkfs → Prop) : img_holds own s done → host_ok f →
  3 + Z.of_nat (length done) ≤ NINODES → blocks_for (done ++ [f]) ≤ FSSIZE →
  (∀ own' s', img_holds own' s' (done ++ [f]) → Q tt s') → wp (add_file room 1 f) Q s.
Proof using Hroom.
  intros [Hs Hfi Hfb Hr Hfs] Hf Hn Hcost HQ. pose proof (length_root done) as Elr. unfold add_file. rewrite (ho_slash _ Hf).
  destruct (ho_open _ Hf) as [reads Er]. rewrite Er. cbv zeta. change NINODES with 200 in *. apply wp_bind.
  assert (h_data f = read_all reads) as Ed by (unfold h_data; by rewrite Er).
  eapply ialloc_spec; [done|done|change NINODES with 200; lia|done|]. intros s1 Hs1 Hf1 Ho1 Efb1 Efi1. rewrite Hfi in *.
  set (k := 2 + Z.of_nat (length done)) in *. apply wp_bind.
  set (e := dirent _ _). assert (length e = 16%nat) as Ele by (apply length_dirent, length_strncpy).
  assert (root_data (done ++ [f]) = root_data done ++ e) as Ers by apply root_snoc.
  unfold blocks_for in *. rewrite Ers, data_blocks_app, length_app, Nat2Z.inj_add, Ele in Hcost.
  assert (data_blocks [f] = nblocks_of (Z.of_nat (length (h_data f)))) as Edf by (unfold data_blocks; cbn [fmap list_fmap foldr]; lia).
  pose proof (data_blocks_pos [f]) as Hpos.
  eapply (iappend_spec room Hroom own s1 1 T_DIR (root_data done)); [done|change NINODES with 200; lia|done| |by apply dirent_bytes, name_bytes| | |].
  { apply Ho1; [change NINODES with 200; lia|lia|done]. }
  { rewrite Ele, MAXFILE_eq, BSIZE_eq. lia. }
  { rewrite Ele, Efb1, Hfb. lia. }
  rewrite Ele. intros own2 s2 Hs2 Hr2 Ho2 Efb2 Efi2. pose proof (ho_size _ Hf) as Hsz. rewrite MAXFILE_eq, BSIZE_eq in Hsz.
  assert (Z.of_nat (length (@nil Z)) = 0) as E0 by done.
  eapply (append_reads_spec reads own2 s2 k []); [done|change NINODES with 200; lia|apply Ho2; [change NINODES with 200; lia|lia|done]| | | |].
  { rewrite <- Ed. apply Hf. }
  { rewrite <- Ed, E0, MAXFILE_eq, BSIZE_eq. lia. }
  { rewrite <- Ed, E0, Z.add_0_l. change (nblocks_of 0) with 0. lia. }
  rewrite <- Ed, E0, Z.add_0_l. change (nblocks_of 0) with 0. intros own3 s3 Hs3 Hf3 Ho3 Efb3 Efi3. apply (HQ own3 s3). split.
  - done.
  - rewrite Efi3, Efi2, Efi1, length_app. simpl. lia.
  - unfold blocks_for. rewrite Ers, data_blocks_app, length_app, Nat2Z.inj_add, Ele. lia.
  - rewrite Ers. apply Ho3; [change NINODES with 200; lia|lia|done].
  - intros j g [Hj|(Hj & Hg)]%lookup_app_Some.
    + pose proof (lookup_lt_Some _ _ _ Hj). apply Ho3; [change NINODES with 200; lia|lia|]. apply Ho2; [change NINODES with 200; lia|lia|].
      apply Ho1; [change NINODES with 200; lia|lia|]. by apply Hfs.
    + apply list_lookup_singleton_Some in Hg as [Hj' <-]. replace (2 + Z.of_nat j) with k by lia. exact Hf3.
Qed.
Lemma add_files_spec files : ∀ own s done (Q : unit → mkfs → Prop), img_holds own s done → Forall host_ok files →
  2 + Z.of_nat (length done) + Z.of_nat (length files) ≤ NINODES → blocks_for (done ++ files) ≤ FSSIZE →
  (∀ own' s', img_holds own' s' (done ++ files) → Q tt s') → wp (add_files room 1 files) Q s.
Proof using Hroom.
  induction files as [|f files IH]; intros own s done Q Hs Hok Hn Hc HQ; cbn [add_files].
  { apply wp_ret, (HQ own). by rewrite app_nil_r. }
  apply Forall_cons in Hok as [Hf Hok]. cbn [length] in Hn. apply wp_bind.
  assert (done ++ f :: files = (done ++ [f]) ++ files) as E by (by rewrite <- app_assoc). rewrite E in *.
  eapply add_file_spec; [done|done|lia| |].
  { unfold blocks_for in *. rewrite (data_blocks_app (done ++ [f])) in Hc. pose proof (data_blocks_pos files).
    pose proof (nblocks_mono (Z.of_nat (length (root_data (done ++ [f])))) (Z.of_nat (length (root_data ((done ++ [f]) ++ files))))) as Hm.
    rewrite !length_root, !length_app in Hm. rewrite !length_root, !length_app in Hc. rewrite !length_root, !length_app. lia. }
  intros own1 s1 Hs1. eapply IH; [done|done|rewrite length_app; cbn [length]; lia|done|done].
Qed.

Lemma wsect_end s no buf (Q : unit → mkfs → Prop) : 0 ≤ no < FSSIZE → Z.of_nat (length (m_img s)) = no →
  Q tt (m_set_img (m_img s ++ [buf]) s) → wp (wsect room no buf) Q s.
Proof using Hroom.
  intros Hno Hl HQ. unfold wsect. rewrite sect_small, Hroom by done. apply wp_modify.
  replace (Z.to_nat no + 1 - length (m_img s))%nat with 1%nat by lia. replace (Z.to_nat no) with (length (m_img s)) by lia. cbn [replicate].
  by rewrite insert_app_r_alt, Nat.sub_diag by lia.
Qed.
Lemma zero_sectors_spec n s (Q : unit → mkfs → Prop) : Z.of_nat n ≤ FSSIZE → m_img s = [] →
  Q tt (m_set_img (replicate n zero_block) s) → wp (zero_sectors room n) Q s.
Proof using Hroom.
  revert Q. induction n as [|n IH]; intros Q Hn Hi HQ; cbn [zero_sectors].
  { apply wp_ret. destruct s; cbn in *; subst. exact HQ. }
  apply wp_bind, IH; [lia|done|]. apply wsect_end; [lia|cbn; by rewrite length_replicate|]. cbn [m_img m_set_img].
  assert (replicate n zero_block ++ [zero_block] = replicate (S n) zero_block) as -> by (by rewrite replicate_S_end).
  exact HQ.
Qed.
Lemma start_spec (Q : unit → mkfs → Prop) :
  (∀ s, mkinv (λ _, None) s → m_freeblock s = nmeta → m_freeinode s = 1 → Q tt s) → wp (mkfs_start room) Q mkfs0.
Proof using Hroom.
  intros HQ. unfold mkfs_start. apply wp_bind, wp_modify, wp_bind, wp_modify, wp_bind.
  apply zero_sectors_spec; [by vm_compute|done|]. set (s := m_set_img _ _).
  assert (Z.of_nat (length (m_img s)) = FSSIZE) as Hl by (cbn [s m_img m_set_img]; by rewrite length_replicate).
  assert (Forall is_block (m_img s)) as Hb by (apply Forall_replicate, zero_block_ok).
  assert (∀ b, img_block (m_img s) b = zero_block) as Hz.
  { intros b. unfold img_block. case_decide; [|done]. destruct (m_img s !! _) as [x|] eqn:E; [|done].
    by apply lookup_replicate in E as [-> _]. }
  unfold wsect. rewrite sect_small, Hroom by (change FSSIZE with 1000; lia). apply wp_modify.
  replace (Z.to_nat 1 + 1 - length (m_img s))%nat with 0%nat by (change FSSIZE with 1000 in Hl; lia). cbn [replicate].
  rewrite app_nil_r. set (sup := splice _ _ _).
  pose proof (λ b, img_insert (m_img s) 1 sup b ltac:(rewrite Hl; by split)) as E. apply HQ; [|done|done]. split; cbn [m_img m_set_img m_sb m_freeblock].
  - by rewrite length_insert.
  - apply Forall_insert; [done|]. apply splice_block; [apply zero_block_ok|exact (proj1 (addrs_bytes _))|apply Nat.leb_le; by vm_compute].
  - done.
  - by rewrite E, decide_True.
  - intros b Hb'. rewrite E, decide_False by lia. apply Hz.
  - by vm_compute.
  - done.
  - intros b Hb'. rewrite E, decide_False; [apply Hz|]. intros ->. by apply Hb'.
Qed.

(** * The image *)

Definition root_size (files : list hostfile) : Z := (Z.of_nat (length (root_data files)) / BSIZE + 1) * BSIZE.
Record built (own : owners) (img : list block) (files : list hostfile) : Prop := {
  bt_blk : Forall is_block img;
  bt_super : img_block img 1 = splice zero_block 0 (sb_bytes mkfs_sb);
  bt_log : ∀ b, 2 ≤ b < 2 + nlog → img_block img b = zero_block;
  bt_map : img_block img (sb_bmapstart mkfs_sb) = mark_used (Z.to_nat (blocks_for files)) zero_block;
  bt_max : nmeta ≤ blocks_for files ≤ FSSIZE;
  bt_own : ∀ b x, own b = Some x → nmeta ≤ b < blocks_for files;
  bt_root : ∃ addrs, let din := Dinode T_DIR 0 0 1 (root_size files) addrs in
    disk_dinode img 1 = din ∧
    file_ok (img_tx img) own 1 (as_inode 1 din) (need (Z.of_nat (length (root_data files)))) (root_data files);
  bt_file : ∀ j f, files !! j = Some f → ∃ addrs,
    let k := 2 + Z.of_nat j in let n := Z.of_nat (length (h_data f)) in let din := Dinode T_FILE 0 0 1 n addrs in
    disk_dinode img k = din ∧ file_ok (img_tx img) own k (as_inode k din) (need n) (h_data f);
}.
Lemma length_mark n d : is_block d → (n ≤ Z.to_nat BPB)%nat → is_block (mark_used n d).
Proof using.
  intros Hd. induction n as [|n IH]; intros Hn; [done|]. apply bit_set_block; [apply IH; lia|lia].
Qed.
Lemma bit_mark n b : (n ≤ Z.to_nat BPB)%nat → 0 ≤ b < BPB → bit (mark_used n zero_block) b = (b <? Z.of_nat n).
Proof using.
  intros Hn Hb. induction n as [|n IH].
  - cbn [mark_used]. rewrite (proj2 (Z.ltb_ge _ _)) by lia. unfold bit. replace (get 1 zero_block (b / 8)) with 0; [done|].
    unfold get, get_bytes, zero_block. rewrite drop_replicate, take_replicate. by destruct (1 `min` _)%nat as [|[]] eqn:E; [..|lia].
  - cbn [mark_used]. rewrite bit_bit_set, IH by first [lia|apply length_mark; [apply zero_block_ok|lia]].
    apply eq_bool_prop_intro. rewrite orb_True, bool_decide_spec, !Is_true_true, !Z.ltb_lt. lia.
Qed.
Lemma fix_root_spec own s files (Q : unit → mkfs → Prop) : img_holds own s files → 2 + Z.of_nat (length files) ≤ NINODES →
  (∀ s' addrs, let din := Dinode T_DIR 0 0 1 (root_size files) addrs in mkinv own s' → m_freeblock s' = m_freeblock s →
     disk_dinode (m_img s') 1 = din →
     file_ok (tx s') own 1 (as_inode 1 din) (need (Z.of_nat (length (root_data files)))) (root_data files) →
     others 1 own s own s' → Q tt s') →
  wp (fix_root room 1) Q s.
Proof using Hroom.
  intros [Hs _ _ (ads & Ed & Hf) _] Hn HQ. unfold fix_root. apply wp_bind. eapply rinode_spec; [done|by vm_compute|].
  pose proof (length_root files) as El. change NINODES with 200 in Hn. assert (fits 32 (root_size files)) as Hsz.
  { unfold root_size, fits. rewrite BSIZE_eq. dlia. }
  rewrite Ed. cbn [d_size]. rewrite (xint_id (Z.of_nat _)) by (unfold fits; lia).
  assert (u32 (u32 (Z.of_nat (length (root_data files)) / BSIZE + 1) * BSIZE) = root_size files) as ->.
  { unfold fits, root_size, u32 in *. rewrite BSIZE_eq in *. rewrite (Z.mod_small (_ / _ + 1)) by dlia. by apply Z.mod_small. }
  rewrite xint_id by done. unfold d_set_size. cbn [d_type d_major d_minor d_nlink d_addrs].
  eapply winode_spec; [done|done|by vm_compute| |].
  { split; cbn; try (done || lia); [apply (fo_len _ _ _ _ _ _ Hf)|apply (fo_fits _ _ _ _ _ _ Hf)]. }
  intros s' Hs' Hp. apply (HQ s' ads Hs'); [apply Hp| | |by apply (put_others _ _ _ _ _ Hs Hp)].
  - by rewrite (ip_inode _ _ _ _ Hp) by (by vm_compute).
  - eapply file_frame; [|exact (put_keeps _ _ _ _ _ 1 Hs Hp)]. destruct Hf as [H1 H2 H3 H4 H5].
    split; [exact H1|exact H2|exact H3|exact H4|exact H5].
Qed.
Lemma balloc_map own s used (Q : unit → mkfs → Prop) : mkinv own s → used = m_freeblock s →
  (∀ img, Forall is_block img → img_block img (sb_bmapstart mkfs_sb) = mark_used (Z.to_nat used) zero_block →
     (∀ b, b ≠ sb_bmapstart mkfs_sb → img_block img b = img_block (m_img s) b) → Q tt (m_set_img img s)) →
  wp (Mkfs.balloc room used) Q s.
Proof using Hroom.
  intros Hs -> HQ. pose proof (mi_free _ _ Hs) as Hf. unfold Mkfs.balloc. change nmeta with 46 in Hf. change FSSIZE with 1000 in Hf.
  rewrite BSIZE_eq. destruct (Z.ltb_spec (m_freeblock s) (1024 * 8)); [|lia]. cbn [negb]. apply wp_bind, wp_gets.
  rewrite (mi_sb _ _ Hs). change (sb_bmapstart mkfs_sb) with 45 in *.
  eapply wp_wsect; [done|done|change FSSIZE with 1000; lia|]. pose proof (λ b buf, img_write own s 45 buf b Hs ltac:(by vm_compute)) as E.
  apply HQ; [|by rewrite E, decide_True|intros b Hb; by rewrite E, decide_False].
  apply Forall_insert; [apply Hs|]. apply length_mark; [apply zero_block_ok|]. change BPB with 8192. lia.
Qed.
Lemma main_built files : mkfs_fits files →
  wp (main room (Some true) files) (λ r s, r = 0 ∧ ∃ own, built own (m_img s) files) mkfs0.
Proof using Hroom.
  intros [Hok Hn Hc]. unfold main. change (BSIZE `mod` sizeof_dinode =? 0) with true. change (BSIZE `mod` sizeof_dirent =? 0) with true.
  cbn [negb orb]. apply wp_bind, start_spec. intros s0 Hs0 Hfb0 Hfi0. apply wp_bind.
  eapply ialloc_spec; [done|done|by rewrite Hfi0|done|]. rewrite Hfi0. intros s1 Hs1 Hr1 _ Hfb1 Hfi1. cbn [Z.eqb ROOTINO Pos.eqb negb].
  assert (∀ nm, bytes nm → length nm = 14%nat → bytes (dirent 1 nm) ∧ length (dirent 1 nm) = 16%nat) as Hde.
  { intros nm ? ?. split; [by apply dirent_bytes|by apply length_dirent]. }
  assert (bytes dot ∧ bytes dotdot) as [Hd1 Hd2] by (split; repeat (constructor; [unfold fits; lia|]); constructor).
  destruct (Hde dot Hd1 eq_refl) as [Hb1 Hl1], (Hde dotdot Hd2 eq_refl) as [Hb2 Hl2].
  apply wp_bind. eapply (iappend_spec room Hroom _ s1 1 T_DIR []); [done|by vm_compute|done|done|done|by rewrite Hl1|rewrite Hl1, Hfb1, Hfb0; by vm_compute|].
  rewrite Hl1. intros own2 s2 Hs2 Hr2 _ Hfb2 Hfi2. rewrite app_nil_l in Hr2.
  apply wp_bind. eapply (iappend_spec room Hroom own2 s2 1 T_DIR (dirent 1 dot)); [done|by vm_compute|done|done|done|by rewrite Hl1, Hl2|
    rewrite Hl1, Hl2, Hfb2, Hfb1, Hfb0; by vm_compute|].
  rewrite Hl1, Hl2. intros own3 s3 Hs3 Hr3 _ Hfb3 Hfi3.
  apply wp_bind. eapply (add_files_spec files own3 s3 []); [|done|done|done|].
  { split; [done|cbn [length]; lia|rewrite Hfb3, Hfb2, Hfb1, Hfb0; by vm_compute|exact Hr3|]. intros j f Hj. done. }
  cbn [app]. intros own4 s4 Hs4. apply wp_bind. eapply fix_root_spec; [done|done|]. intros s5 ads din Hs5 Hfb5 Hi5 Hf5 Ho5.
  apply wp_bind, wp_gets, wp_bind. eapply balloc_map; [exact Hs5|done|]. intros img Hblk Em Ei. apply wp_ret. split; [done|].
  rewrite (hd_block _ _ _ Hs4) in Hfb5. rewrite Hfb5 in Em.
  pose proof (mi_free _ _ Hs5) as Hfree. rewrite Hfb5 in Hfree. change (sb_bmapstart mkfs_sb) with 45 in *.
  assert (∀ k, keeps k (tx s5) (img_tx img) own4 own4) as Hkeep.
  { intros k b j Hb. split; [done|]. apply Ei. apply (mi_own _ _ Hs5) in Hb. change nmeta with 46 in Hb. lia. }
  assert (∀ k, 0 ≤ k < NINODES → disk_dinode img k = disk_dinode (m_img s5) k) as Hino.
  { intros k Hk. unfold disk_dinode. rewrite Ei; [done|]. rewrite mkfs_IBLOCK. change NINODES with 200 in Hk. dlia. }
  exists own4. cbn [m_img m_set_img]. split; [done|rewrite Ei by done; apply Hs5| |done|done|rewrite <- Hfb5; apply Hs5|..].
  - intros b Hb. change (2 + nlog) with 32 in Hb. rewrite Ei by lia. by apply (mi_log _ _ Hs5).
  - exists ads. cbv zeta. split; [by rewrite Hino by (by vm_compute)|]. by eapply file_frame.
  - intros j f Hj. pose proof (lookup_lt_Some _ _ _ Hj). destruct (Ho5 (2 + Z.of_nat j) T_FILE (h_data f)) as (ads' & E' & Hf').
    { lia. } { lia. } { by apply (hd_file _ _ _ Hs4). }
    exists ads'. cbv zeta in *. split; [by rewrite Hino by lia|]. by eapply file_frame.
Qed.
End main.
