(* ===== verification/MkfsBoot.v ===== *)
(** The kernel on the image mkfs builds: fs.c over log.c and bio.c finds every
    file in the root directory and reads the bytes mkfs was given. *)

From S2P Require Import Prelude Riscv Mem Cstring Spinlock Sleeplock Kalloc Vm Bio BioSpec BufCache FsLayout ProcMem.
From S2P Require Import Log LogSpec LogCrash LogOps Fs FsBlocks FsFile FsIo FsInode FsDir FsStore FsProps Mkfs MkfsFile MkfsSpec MkfsMain.

(** * The root directory as a table *)

Definition root_table (files : list hostfile) : list (list Z * Z) :=
  ([46], 1) :: ([46; 46], 1) :: imap (λ j f, (h_name f, 2 + Z.of_nat j)) files.
(** No entry before that of the [j]th file has its name. *)
Definition first_named (files : list hostfile) (j : nat) : Prop := ∀ k e e',
  root_table files !! k = Some e → root_table files !! (2 + j)%nat = Some e' → (k < 2 + j)%nat → name_of e.1 ≠ name_of e'.1.

Lemma dirent_new nm inum : fits 16 inum → dirent inum (strncpy_bytes (at_list nm) DIRSIZ) = new_dirent nm inum.
Proof. intros H. unfold dirent, new_dirent. by rewrite xshort_id. Qed.
Lemma root_entries_table files : 2 + Z.of_nat (length files) ≤ NINODES →
  root_entries files = (λ e, new_dirent e.1 e.2) <$> root_table files.
Proof.
  intros Hn. change NINODES with 200 in Hn. unfold root_entries, root_table. cbn [fmap list_fmap fst snd].
  f_equal. f_equal. apply list_eq. intros k.
  rewrite list_lookup_fmap, !list_lookup_imap. destruct (files !! k) as [f|] eqn:E; [|done]. simpl. f_equal.
  apply lookup_lt_Some in E. apply dirent_new. unfold fits. lia.
Qed.
Lemma table_inum files k e : 2 + Z.of_nat (length files) ≤ NINODES → root_table files !! k = Some e → 0 < e.2 < 2 ^ 16.
Proof.
  intros Hn Hk. change NINODES with 200 in Hn. destruct k as [|[|k]]; [by injection Hk as <-..|].
  unfold root_table in Hk. rewrite !lookup_cons in Hk. rewrite list_lookup_imap in Hk. destruct (files !! k) as [f|] eqn:E; [|done]. injection Hk as <-.
  apply lookup_lt_Some in E. cbn [snd]. lia.
Qed.
Lemma concat_lookup16 (l : list (list Z)) k r : (∀ e, e ∈ l → length e = 16%nat) → (r < 16)%nat →
  concat l !! (16 * k + r)%nat = l !! k ≫= λ e, e !! r.
Proof.
  intros Hl Hr. revert k. induction l as [|e l IH]; intros k; [done|]. cbn [concat].
  assert (length e = 16%nat) as He by (apply Hl; by left). assert (∀ e, e ∈ l → length e = 16%nat) as Hl' by (intros; apply Hl; by right).
  destruct k as [|k].
  - rewrite lookup_app_l by lia. done.
  - rewrite lookup_app_r by lia. cbn [lookup list_lookup]. rewrite <- IH by done. f_equal. lia.
Qed.

(** A name as it is in a path and in the buffer skipelem fills. *)
Lemma name_take nm : Forall (λ c, 0 < c < 256) nm → name_of nm = take 14 nm.
Proof.
  intros Hnz. assert (Forall (λ c, c ≠ 0) (take 14 nm)) as Ht by (apply Forall_take; eapply Forall_impl; [done|]; simpl; lia).
  pose proof (cstr_list 14 [] (take 14 nm) (drop 14 nm) Ht) as H. rewrite app_nil_l, take_drop in H. apply H; [rewrite length_take; lia|].
  destruct (decide (14 ≤ length nm)%nat); [right; rewrite length_take; lia|left]. by rewrite drop_ge by lia.
Qed.
Lemma skipelem_one nm buf : nm ≠ [] → existsb (Z.eqb SLASH) nm = false → Forall (λ c, 0 < c < 256) nm → bytes buf →
  ∃ name, skipelem (SLASH :: nm) buf = Some ([], name) ∧ bytes name ∧ name_of name = name_of nm.
Proof.
  intros Hne Hs Hnz Hb. assert (bytes nm) as Hbn by (eapply Forall_impl; [done|]; unfold fits; simpl; lia).
  assert (path_element nm = (nm, [])) as Ep.
  { clear -Hs. induction nm as [|c nm IH]; [done|]. cbn [existsb] in Hs. apply orb_false_iff in Hs as [Hc Hs].
    cbn [path_element]. by rewrite Z.eqb_sym, Hc, IH. }
  assert (skip_slashes (SLASH :: nm) = nm) as Es.
  { cbn [skip_slashes]. rewrite Z.eqb_refl. destruct nm as [|c nm]; [done|]. cbn [existsb] in Hs. apply orb_false_iff in Hs as [Hc Hs].
    cbn [skip_slashes]. by rewrite Z.eqb_sym, Hc. }
  unfold skipelem. rewrite Es. destruct nm as [|c nm]; [done|]. rewrite Ep. eexists. split; [done|].
  rewrite (name_take (c :: nm)) by done. set (l := c :: nm) in *. clearbody l. change (Z.to_nat DIRSIZ) with 14%nat. change DIRSIZ with 14.
  assert (Forall (λ c, c ≠ 0) l) as Hn0 by (eapply Forall_impl; [exact Hnz|]; simpl; lia).
  destruct (Z.geb_spec (Z.of_nat (length l)) 14) as [Hl|Hl].
  - split; [by apply Forall_take|]. rewrite name_take by (by apply Forall_take). by rewrite take_take.
  - split; [apply Forall_app; split; [done|]; apply Forall_app; split; [constructor; [unfold fits; lia|done]|by apply Forall_drop]|].
    rewrite take_ge by lia. apply (cstr_list 14 [] l); [done|lia|by left].
Qed.

Section boot.
Context {D : Type} `{BS : BlockStore D} {BSok : BlockStoreOk D} {L : Linker}.
Abbreviation state := (fsys (D:=D)).
Implicit Types s : state.
Context (pid pagetable de : Z) (cwd : nat) (Hde : 0 ≤ de) (Hde' : de + sizeof_dirent < 2 ^ 64).
Context (own : owners) (img : list block) (files : list hostfile).
Context (Hbt : built own img files) (Hfits : mkfs_fits files).
(** The transaction reads the image. *)
Context (a : atx) (Ha : ∀ no, 2 + nlog ≤ no < FSSIZE → x_disk a no = img_block img no).
Context (Hx : ∀ no, 2 + nlog ≤ no < FSSIZE → x_block no) (Hbufs : x_bufs a = ∅).

Lemma boot_layout : layout mkfs_sb.
Proof using Hx.
  split; [by vm_compute..|]. intros no Hno. apply Hx. exact Hno.
Qed.
Lemma boot_used b : 0 ≤ b < FSSIZE → used mkfs_sb a b = (b <? blocks_for files).
Proof using Hbt Ha.
  intros Hb. pose proof (bt_max _ _ _ Hbt) as Hm. change nmeta with 46 in Hm. change FSSIZE with 1000 in *. unfold used.
  assert (BBLOCK b mkfs_sb = sb_bmapstart mkfs_sb) as ->.
  { unfold BBLOCK. change BPB with 8192. rewrite Z.div_small; [done|lia]. }
  rewrite Ha by (by vm_compute). rewrite (bt_map _ _ _ Hbt), bit_mark.
  - change BPB with 8192. rewrite Z.mod_small, Z2Nat.id by lia. done.
  - change BPB with 8192. lia.
  - apply BPB_mod.
Qed.
Lemma boot_idle : idle mkfs_sb a.
Proof using Hbt Ha Hbufs.
  split; [done|]. intros b Hb. pose proof (bt_max _ _ _ Hbt) as Hm. change (dstart mkfs_sb) with 46 in Hb.
  change nmeta with 46 in Hm. rewrite boot_used by lia. apply Z.ltb_lt. lia.
Qed.

(** ** Files *)

(** [i] is a copy of the inode [k] of the image. *)
Record copy (k : Z) (i : inode) : Prop := {
  cp_dev : i_dev i = ROOTDEV;
  cp_inum : i_inum i = k;
  cp_fields : dinode_of i = disk_dinode img k;
}.
Lemma boot_file k i din has bs : file_ok (img_tx img) own k (as_inode k din) has bs → i_addrs i = d_addrs din →
  file_ok a own k i has bs.
Proof using Hbt Ha.
  intros Hf E. pose proof (bt_max _ _ _ Hbt) as Hm.
  assert (file_ok (img_tx img) own k i has bs) as Hf'.
  { destruct Hf as [H1 H2 H3 H4 H5]. unfold fbyte, slot, ind in *. cbn [i_addrs as_inode] in *. rewrite <- E in *. by split. }
  eapply file_frame; [done|]. intros b j Hb. split; [done|]. apply (bt_own _ _ _ Hbt) in Hb.
  change nmeta with 46 in Hb. apply Ha. change (2 + nlog) with 32. lia.
Qed.
Lemma boot_iwf k i n bs : file_ok a own k i (need n) bs → copy k i → 0 ≤ k < NINODES → 0 ≤ i_size i ≤ MAXFILE * BSIZE →
  (∀ j, 0 ≤ j → j * BSIZE < i_size i → j * BSIZE < n) → iwf mkfs_sb a i.
Proof using Hbt Ha.
  intros Hf [Hd Hi _] Hk Hsz Hn. pose proof (bt_max _ _ _ Hbt) as Hm. split; [done| |apply Hf|done|..].
  - rewrite Hi. exact Hk.
  - intros j Hj Hs. apply (fo_slot _ _ _ _ _ _ Hf) in Hs; [|done]. pose proof (fo_own _ _ _ _ _ _ Hf j Hj Hs) as Ho.
    apply (bt_own _ _ _ Hbt) in Ho. unfold in_data. change (dstart mkfs_sb) with 46. change (sb_size mkfs_sb) with 1000.
    change nmeta with 46 in *. change FSSIZE with 1000 in *. split; [lia|]. rewrite boot_used by (change FSSIZE with 1000; lia).
    apply Z.ltb_lt. lia.
  - intros j k' Hj Hk' E Hs. pose proof Hs as Hs'. rewrite <- E in Hs'. apply (fo_slot _ _ _ _ _ _ Hf) in Hs, Hs'; [|done..].
    by eapply slot_inj.
  - intros j Hj Hs. specialize (Hn j Hj Hs). rewrite MAXFILE_eq, BSIZE_eq in *. apply (fo_slot _ _ _ _ _ _ Hf); [rewrite MAXFILE_eq; lia|].
    unfold need. rewrite MAXFILE_eq, BSIZE_eq. destruct (Z.eqb_spec j 268); [lia|]. by apply Z.ltb_lt.
Qed.
Lemma boot_bytes k i n bs p m : file_ok a own k i (need n) bs → 0 ≤ p → p + Z.of_nat m ≤ MAXFILE * BSIZE →
  (∀ j, 0 ≤ j → j * BSIZE < p + Z.of_nat m → j * BSIZE < n) →
  fbytes a i p m = (λ r, default 0 (bs !! (Z.to_nat p + r)%nat)) <$> seq 0 m.
Proof using.
  intros Hf Hp Hm Hn. apply list_eq. intros r. destruct (decide (r < m)%nat) as [Hr|Hr].
  - rewrite fbytes_lookup by done. rewrite list_lookup_fmap, lookup_seq_lt by done. cbn. f_equal.
    rewrite (fo_bytes _ _ _ _ _ _ Hf); [f_equal; f_equal; lia|lia|]. rewrite MAXFILE_eq, BSIZE_eq in *.
    specialize (Hn ((p + Z.of_nat r) / 1024)). unfold need. rewrite MAXFILE_eq, BSIZE_eq.
    destruct (Z.eqb_spec ((p + Z.of_nat r) / 1024) 268); [dlia|]. apply Z.ltb_lt. apply Hn; dlia.
  - rewrite !lookup_ge_None_2; [done|rewrite length_fmap, length_seq; lia|rewrite length_fbytes; lia].
Qed.
Lemma boot_locked k i : i_dev i = ROOTDEV → i_inum i = k → i_valid i = false → 0 ≤ k < NINODES →
  copy k (locked pid mkfs_sb a i) ∧ i_ref (locked pid mkfs_sb a i) = i_ref i ∧ i_lock (locked pid mkfs_sb a i) = sl_mine pid.
Proof using Ha.
  intros Hd <- Hv Hk. unfold locked. rewrite Hv. split_and!; [|done|done]. split; [done|done|].
  unfold disk_dinode. rewrite <- Ha; [done|]. rewrite mkfs_IBLOCK. change NINODES with 200 in Hk. change (2 + nlog) with 32.
  change FSSIZE with 1000. dlia.
Qed.
Lemma boot_data j f i : files !! j = Some f → copy (2 + Z.of_nat j) i →
  iwf mkfs_sb a i ∧ i_type i = T_FILE ∧ i_size i = Z.of_nat (length (h_data f)) ∧ fbytes a i 0 (length (h_data f)) = h_data f.
Proof using Hbt Hfits Ha.
  intros Hj Hc. destruct (bt_file _ _ _ Hbt j f Hj) as (ads & Ei & Hf). cbv zeta in *.
  pose proof (cp_fields _ _ Hc) as E. rewrite Ei in E. unfold dinode_of in E. injection E as E1 _ _ _ E5 E6.
  assert (host_ok f) as Hok by (eapply Forall_lookup_1; [apply (mf_ok _ Hfits)|done]). pose proof (ho_size _ Hok) as Hsz.
  pose proof (boot_file _ i _ _ _ Hf E6) as Hf'. pose proof (mf_inodes _ Hfits). apply lookup_lt_Some in Hj.
  split_and!; [eapply boot_iwf; [done|done|lia|lia|by rewrite E5]|done|done|].
  rewrite (boot_bytes _ _ _ _ _ _ Hf') by (done || lia). apply list_eq. intros r. rewrite list_lookup_fmap.
  destruct (decide (r < length (h_data f))%nat) as [Hr|Hr].
  - rewrite lookup_seq_lt by done. destruct (lookup_lt_is_Some_2 _ _ Hr) as [x Ex].
    change (Some (default 0 (h_data f !! r)) = h_data f !! r). by rewrite Ex.
  - rewrite !lookup_ge_None_2; [done|lia|rewrite length_seq; lia].
Qed.

(** ** The root directory *)

Context (Hfull : (2 + Z.of_nat (length files)) `mod` 64 ≠ 0).

Lemma root_bounds : 32 ≤ Z.of_nat (length (root_data files)) ≤ 3200 ∧ root_size files ≤ 4096 ∧ root_size files `mod` 16 = 0 ∧
  ∀ j, 0 ≤ j → j * BSIZE < root_size files → j * BSIZE < Z.of_nat (length (root_data files)).
Proof using Hfits Hfull.
  pose proof (mf_inodes _ Hfits) as Hn. change NINODES with 200 in Hn. unfold root_size. rewrite length_root, BSIZE_eq.
  clear -Hn Hfull. split_and!; [dlia..|]. intros j Hj. dlia.
Qed.
Lemma root_dent i k : copy 1 i → 0 ≤ k < root_size files / 16 →
  dent a i k = default (replicate 16 0) ((λ e, new_dirent e.1 e.2) <$> root_table files !! Z.to_nat k).
Proof using Hbt Ha Hfits Hfull.
  intros Hc Hk. destruct (bt_root _ _ _ Hbt) as (ads & Ei & Hf). cbv zeta in *. destruct root_bounds as (Hb1 & Hb2 & Hb3 & Hb4).
  pose proof (cp_fields _ _ Hc) as E. rewrite Ei in E. unfold dinode_of in E. injection E as _ _ _ _ _ E6.
  pose proof (boot_file _ i _ _ _ Hf E6) as Hf'. unfold dent. change sizeof_dirent with 16. change (Z.to_nat 16) with 16%nat.
  rewrite (boot_bytes _ _ _ _ _ _ Hf'); [|lia|rewrite MAXFILE_eq, BSIZE_eq; clear -Hk Hb2; dlia|].
  2: { intros j Hj Hlt. apply Hb4; [done|]. clear -Hlt Hk Hb3. dlia. }
  rewrite <- list_lookup_fmap, <- root_entries_table by apply Hfits. unfold root_data.
  assert (∀ e, e ∈ root_entries files → length e = 16%nat) as Hl.
  { intros e. rewrite root_entries_table by apply Hfits. intros (x & -> & _)%list_elem_of_fmap_1. apply length_new_dirent. }
  apply list_eq. intros r. rewrite list_lookup_fmap. destruct (decide (r < 16)%nat) as [Hr|Hr].
  - rewrite lookup_seq_lt by done. cbn [fmap option_fmap option_map]. rewrite Nat.add_0_l. replace (Z.to_nat (16 * k) + r)%nat with (16 * Z.to_nat k + r)%nat by lia.
    rewrite concat_lookup16 by done. destruct (root_entries files !! Z.to_nat k) as [e|] eqn:El; cbn [mbind option_bind default].
    + change (Some (default 0 (e !! r)) = e !! r). destruct (lookup_lt_is_Some_2 e r) as [x ->]; [|done]. rewrite (Hl e); [done|]. by eapply list_elem_of_lookup_2.
    + change (Some 0 = replicate 16 0 !! r). by rewrite lookup_replicate_2.
  - rewrite !lookup_ge_None_2; [done| |rewrite length_seq; lia]. destruct (root_entries files !! Z.to_nat k) as [e|] eqn:El; cbn; [|lia].
    rewrite (Hl e); [lia|]. by eapply list_elem_of_lookup_2.
Qed.
Lemma boot_root i : copy 1 i → is_dir mkfs_sb a i ∧ i_nlink i = 1 ∧ dents i = root_size files / 16.
Proof using Hbt Ha Hfits Hfull.
  intros Hc. destruct (bt_root _ _ _ Hbt) as (ads & Ei & Hf). cbv zeta in *. destruct root_bounds as (Hb1 & Hb2 & Hb3 & Hb4).
  pose proof (cp_fields _ _ Hc) as E. rewrite Ei in E. unfold dinode_of in E. injection E as E1 _ _ E4 E5 E6.
  pose proof (boot_file _ i _ _ _ Hf E6) as Hf'. unfold dents. change sizeof_dirent with 16. rewrite E5. split_and!; [|done|done].
  split; [|done|by rewrite E5]. eapply boot_iwf; [done|done|by vm_compute| |by rewrite E5]. rewrite E5, MAXFILE_eq, BSIZE_eq.
  unfold root_size in *. rewrite BSIZE_eq in *. clear -Hb1 Hb2. split; [dlia|lia].
Qed.
(** The entry dirlookup finds. *)
Lemma boot_entry i j f name : copy 1 i → files !! j = Some f → first_named files j → name_of name = name_of (h_name f) →
  ¬ none_before name a i (dents i) ∧
  ∀ k, 0 ≤ k < dents i → none_before name a i k → matches name (dent a i k) → de_inum (dent a i k) = 2 + Z.of_nat j.
Proof using Hbt Ha Hfits Hfull.
  intros Hc Hj Hfirst Hname. destruct (boot_root i Hc) as (_ & _ & Ed). rewrite Ed. pose proof (mf_inodes _ Hfits) as Hn.
  assert (root_table files !! (2 + j)%nat = Some (h_name f, 2 + Z.of_nat j)) as Ht.
  { change (imap (λ j f, (h_name f, 2 + Z.of_nat j)) files !! j = Some (h_name f, 2 + Z.of_nat j)). by rewrite list_lookup_imap, Hj. }
  pose proof (lookup_lt_Some _ _ _ Hj) as Hlt. set (kj := 2 + Z.of_nat j) in *.
  assert (0 ≤ kj < root_size files / 16) as Hkj.
  { unfold root_size. rewrite length_root, BSIZE_eq. unfold kj. clear -Hlt. dlia. }
  assert (∀ k, 0 ≤ k < root_size files / 16 → matches name (dent a i k) →
    ∃ e, root_table files !! Z.to_nat k = Some e ∧ name_of e.1 = name_of name ∧ de_inum (dent a i k) = e.2) as Hm.
  { intros k Hk. rewrite (root_dent i k Hc Hk). destruct (root_table files !! Z.to_nat k) as [e|] eqn:Ee; cbn [fmap option_fmap option_map default from_option].
    - pose proof (table_inum _ _ _ Hn Ee) as He. intros Hm. exists e. split_and!; [done| |apply new_dirent_fields; lia].
      symmetry. by apply (new_matches e.1 e.2).
    - intros [H _]. by destruct H. }
  assert (matches name (dent a i kj)) as Hmj.
  { rewrite (root_dent i kj Hc Hkj). replace (Z.to_nat kj) with (2 + j)%nat by lia. rewrite Ht. cbn.
    pose proof (table_inum _ _ _ Hn Ht). by apply new_matches. }
  split; [intros Hno; by apply (Hno kj)|]. intros k Hk Hb Hmk. destruct (Hm k Hk Hmk) as (e & Ee & En & ->).
  destruct (decide (k < kj)) as [Hlt'|Hge].
  - exfalso. refine (Hfirst (Z.to_nat k) e _ Ee Ht _ _); [lia|]. cbn. congruence.
  - destruct (decide (k = kj)) as [->|Hne]; [|exfalso; apply (Hb kj); [lia|done]].
    replace (Z.to_nat kj) with (2 + j)%nat in Ee by lia. rewrite Ht in Ee. by injection Ee as <-.
Qed.

(** ** Opening a file by its name *)

(** The inode table after iinit. *)
Record fresh_table s : Prop := {
  ft_lock : it_lock s = false;
  ft_free : ∀ i, i ∈ it_inode s → i_ref i = 0 ∧ sl_free (i_lock i);
  ft_two : (2 ≤ length (it_inode s))%nat;
}.
Lemma iput_keep s ip i (Q : unit → state → Prop) : it_lock s = false → it_inode s !! ip = Some i → i_nlink i ≠ 0 →
  Q tt (fs_put s ip (i_set_ref (i_ref i - 1) i) (fs_d s)) → wp (iput pid ip) Q s.
Proof using.
  intros Hl Hip Hn HQ. unfold iput. apply wp_bind, wp_it_acquire; [done|]. apply wp_bind. eapply wp_geti; [done|].
  apply Z.eqb_neq in Hn. rewrite Hn, andb_false_r. apply wp_bind, wp_ret, wp_bind. eapply wp_updi; [done|].
  apply wp_it_release; [done|]. unfold set_it_lock, fs_put in *. cbn in *. rewrite Hl in HQ. exact HQ.
Qed.
(** iget of an inode that is not in the table. *)
Lemma iget_new s inum : table_room s → (∀ i, i ∈ it_inode s → 0 < i_ref i → i_inum i ≠ inum) →
  wp (iget ROOTDEV inum) (λ ip s', ∃ i, it_inode s !! ip = Some i ∧ i_ref i = 0 ∧
    s' = set_it_inode (<[ip := i_set_id ROOTDEV inum 1 false i]> (it_inode s)) s) s.
Proof using.
  intros Hr Hno. eapply wp_mono; [by apply iget_spec|]. intros ip s' (i & Hi & [[(H1 & _ & H2) _]|(_ & H0 & ->)]).
  - by destruct (Hno i (list_elem_of_lookup_2 _ _ _ Hi) H1).
  - by exists i.
Qed.
(** The state once namei has found file [j] at [ip]. *)
Record found s (j ip : nat) : Prop := {
  fd_rep : rep s a;
  fd_sb : fs_sb s = mkfs_sb;
  fd_inode : ∃ i, it_inode s !! ip = Some i ∧ i_dev i = ROOTDEV ∧ i_inum i = 2 + Z.of_nat j ∧ i_ref i = 1 ∧
    i_valid i = false ∧ sl_free (i_lock i);
}.
(** The directory is locked at [dp], the file has an entry of its own. *)
Lemma boot_dirlookup s dp i j f name (Q : option (nat * Z) → state → Prop) :
  rep s a → fs_sb s = mkfs_sb → it_lock s = false → it_inode s !! dp = Some i → copy 1 i → i_ref i = 1 →
  (∀ jp i', it_inode s !! jp = Some i' → jp ≠ dp → i_ref i' = 0 ∧ sl_free (i_lock i')) → (2 ≤ length (it_inode s))%nat →
  files !! j = Some f → first_named files j → bytes name → name_of name = name_of (h_name f) →
  (∀ s' ip off, found s' j ip → it_lock s' = false → it_inode s' !! dp = Some i → ip ≠ dp → Q (Some (ip, off)) s') →
  wp (dirlookup pagetable de dp name) Q s.
Proof using Hde Hde' Hbt Ha Hfits Hfull Hbufs Hx.
  intros Hr Hsb Hlk Hdp Hc Href Hfree Hlen Hj Hfirst Hby Hname HQ. destruct (boot_root i Hc) as (Hdir & _ & _).
  destruct (boot_entry i j f name Hc Hj Hfirst Hname) as [Hsome Hent].
  eapply (dirlookup_spec pagetable de Hde Hde' s a dp i); rewrite ?Hsb; [done|apply boot_layout|apply boot_idle|done|done|done|by intros|].
  intros k d' m' Hd' Hk Hb Hm. rewrite (Hent k Hk Hb Hm). eapply wp_mono; [apply (iget_new (fs_io s d' m'))|].
  - split_and!; [done| |].
    + intros i' (jp & Hjp)%list_elem_of_lookup. cbn in Hjp. destruct (decide (jp = dp)) as [->|Hne]; [|destruct (Hfree jp i' Hjp Hne); lia].
      rewrite Hdp in Hjp. injection Hjp as <-. lia.
    + assert (∃ jp, jp ≠ dp ∧ (jp < length (it_inode s))%nat) as (jp & Hne & Hjp) by (destruct dp; [exists 1%nat|exists 0%nat]; lia).
      apply lookup_lt_is_Some_2 in Hjp as [i' Hi']. exists i'. split; [by eapply list_elem_of_lookup_2|]. by apply (Hfree jp).
  - intros i' (jp & Hjp)%list_elem_of_lookup Hpos. cbn in Hjp. destruct (decide (jp = dp)) as [->|Hne]; [|destruct (Hfree jp i' Hjp Hne); lia].
    rewrite Hdp in Hjp. injection Hjp as <-. rewrite (cp_inum _ _ Hc). lia.
  - intros ip s' (i' & Hi' & H0 & ->). cbn in Hi'. assert (ip ≠ dp) as Hne by (intros ->; congruence).
    destruct (Hfree ip i' Hi' Hne) as [_ Hl]. apply HQ; [split; [done|done|]|done| |done].
    + eexists. split; [cbn; apply list_lookup_insert_eq; by eapply lookup_lt_Some|]. by split_and!.
    + cbn. by rewrite list_lookup_insert_ne.
Qed.
Lemma name_slash f : host_ok f → existsb (Z.eqb SLASH) (h_name f) = false.
Proof using.
  intros Hf. pose proof (ho_slash _ Hf) as Hs. unfold h_name, strip_underscore. case_cmp; [|done].
  destruct (strip_dir (h_arg f)) as [|c l]; [done|]. cbn [existsb] in Hs. by apply orb_false_iff in Hs as [_ Hs].
Qed.
Lemma boot_namei s j f buf (Q : option nat → state → Prop) :
  rep s a → fs_sb s = mkfs_sb → fresh_table s → files !! j = Some f → first_named files j → h_name f ≠ [] → bytes buf →
  (∀ s' ip, found s' j ip → Q (Some ip) s') → wp (namei pid pagetable cwd de (SLASH :: h_name f) buf) Q s.
Proof using Hde Hde' Hbt Ha Hfits Hfull Hbufs Hx.
  intros Hr Hsb [Hlk Hfree Hlen] Hj Hfirst Hne Hbuf HQ.
  assert (host_ok f) as Hok by (eapply Forall_lookup_1; [apply (mf_ok _ Hfits)|done]).
  destruct (skipelem_one (h_name f) buf Hne (name_slash f Hok) (strip_name _ f (ho_arg _ Hok)) Hbuf) as (name & Esk & Hbn & Hnm).
  unfold namei, namex. cbn [lookup list_lookup default from_option]. rewrite Z.eqb_refl. apply wp_bind, wp_bind.
  eapply wp_mono; [apply iget_new; [split_and!; [done|intros i Hi; by rewrite (proj1 (Hfree i Hi))|]|]|].
  { destruct (lookup_lt_is_Some_2 (it_inode s) 0 ltac:(lia)) as [i Hi]. exists i.
    split; [by eapply list_elem_of_lookup_2|]. by apply Hfree; eapply list_elem_of_lookup_2. }
  { intros i Hi. by rewrite (proj1 (Hfree i Hi)). }
  intros dp s1 (i & Hi & Hi0 & ->). set (i1 := i_set_id ROOTDEV ROOTINO 1 false i). set (s1 := set_it_inode _ s).
  destruct (Hfree i (list_elem_of_lookup_2 _ _ _ Hi)) as [_ Hsl]. pose proof (lookup_lt_Some _ _ _ Hi) as Hdp.
  assert (fs_sb s1 = mkfs_sb) as Hsb1 by exact Hsb.
  assert (it_inode s1 !! dp = Some i1) as Hi1 by (by apply list_lookup_insert_eq).
  change (length (SLASH :: h_name f) + 1)%nat with (S (length (h_name f) + 1)). rewrite Nat.add_comm. cbn [loop Nat.add]. apply wp_bind.
  destruct (boot_locked 1 i1 eq_refl eq_refl eq_refl ltac:(by vm_compute)) as (Hc & Href & Hmine).
  destruct (boot_root _ Hc) as (Hdir & Hnl & _). pose proof (dr_type _ _ _ Hdir) as Hty. set (i2 := locked pid mkfs_sb a i1) in *.
  unfold namex_round at 1. rewrite Esk. apply wp_bind.
  eapply (ilock_spec pid s1 a dp i1); [done|rewrite Hsb1; apply boot_layout|rewrite Hsb1; apply boot_idle|done|done|rewrite Hsb1; by vm_compute|done|done| |].
  { intros _. rewrite Hsb1. fold i2. by rewrite Hty. }
  rewrite Hsb1. fold i2. intros d2 Hd2. set (s2 := fs_put s1 dp i2 d2).
  assert (it_inode s2 !! dp = Some i2) as Hi2 by (apply list_lookup_insert_eq; cbn; by rewrite length_insert).
  apply wp_bind. eapply wp_geti; [done|]. rewrite Hty. cbn [Z.eqb Pos.eqb T_DIR negb andb]. apply wp_bind.
  eapply (boot_dirlookup s2 dp i2 j f name); [done|done|done|done|done|done| | |done|done|done|done|].
  { intros jp i' Hjp Hne'. cbn in Hjp. rewrite !list_lookup_insert_ne in Hjp by done. apply Hfree. by eapply list_elem_of_lookup_2. }
  { cbn. by rewrite !length_insert. }
  intros s3 ip off Hfd Hlk3 Hi3 Hipne. apply wp_bind. unfold iunlockput. apply wp_bind.
  eapply iunlock_spec; [done|done|by rewrite Href|]. eapply iput_keep; [done|apply list_lookup_insert_eq; by eapply lookup_lt_Some|change (i_nlink i2 ≠ 0); by rewrite Hnl|].
  apply wp_ret. apply wp_bind. unfold namex_round. apply wp_ret. apply wp_ret. apply wp_ret. apply HQ.
  destruct Hfd as [H1 H2 (i' & Hi' & Hrest)]. split; [done|done|]. exists i'. split; [|done].
  cbn. by rewrite !list_lookup_insert_ne by done.
Qed.

(** namei and ilock, as sys_open and exec call them. *)
Definition open_file (path buf : list Z) : M state (option nat) :=
  let! r := namei pid pagetable cwd de path buf in
  match r with
  | None => ret None
  | Some ip => do! ilock pid ip; ret (Some ip)
  end.
(** readi reads parts of [data], up to its end, from the inode [ip]. *)
Definition reads_as s (ip : nat) (data : list Z) : Prop := ∀ user_dst dst off n W F,
  fits 64 dst → fits 32 off → fits 32 n → off ≤ Z.of_nat (length data) → off + n < 2 ^ 32 →
  sink pagetable user_dst dst n W F → W [] (fs_mem s) →
  wp (readi pagetable ip user_dst dst off n) (λ r s',
    let k := Z.min n (Z.of_nat (length data) - off) in
    r = k ∧ W (take (Z.to_nat k) (drop (Z.to_nat off) data)) (fs_mem s') ∨ r = -1 ∧ F (fs_mem s')) s.
Lemma fbytes_part i data off k : fbytes a i 0 (length data) = data → 0 ≤ off → 0 ≤ k → off + k ≤ Z.of_nat (length data) →
  fbytes a i off (Z.to_nat k) = take (Z.to_nat k) (drop (Z.to_nat off) data).
Proof using.
  intros E Ho Hk Hl. clear -E Ho Hk Hl. apply list_eq. intros r. destruct (decide (r < Z.to_nat k)%nat) as [Hr|Hr].
  - rewrite fbytes_lookup by done. rewrite lookup_take_lt, lookup_drop by done. rewrite <- E, fbytes_lookup by lia. f_equal. f_equal. lia.
  - rewrite !lookup_ge_None_2; [done|rewrite length_take; lia|rewrite length_fbytes; lia].
Qed.
Lemma boot_open s j f buf : rep s a → fs_sb s = mkfs_sb → fresh_table s → files !! j = Some f → first_named files j →
  h_name f ≠ [] → bytes buf →
  wp (open_file (SLASH :: h_name f) buf) (λ r s', ∃ ip, r = Some ip ∧ reads_as s' ip (h_data f)) s.
Proof using Hde Hde' Hbt Ha Hfits Hfull Hbufs Hx.
  intros Hr Hsb Hft Hj Hfirst Hne Hbuf. unfold open_file. apply wp_bind. eapply boot_namei; [done..|].
  intros s1 ip [Hr1 Hsb1 (i & Hi & Hd & Hn & Href & Hv & Hl)]. apply wp_bind.
  pose proof (mf_inodes _ Hfits) as Hmax. pose proof (lookup_lt_Some _ _ _ Hj) as Hlt.
  assert (0 ≤ 2 + Z.of_nat j < NINODES) as Hk by lia.
  destruct (boot_locked _ i Hd Hn Hv Hk) as (Hc & _ & _). destruct (boot_data j f _ Hj Hc) as (Hw & Hty & Hsz & Hby).
  eapply (ilock_spec pid s1 a ip i); rewrite ?Hsb1; [done|apply boot_layout|apply boot_idle|done|done|by rewrite Hn|lia|done| |].
  { intros _. by rewrite Hty. }
  intros d2 Hd2. apply wp_ret. exists ip. split; [done|]. set (i2 := locked pid mkfs_sb a i) in *.
  intros user_dst dst off n W F Hdst Ho Hn' Hoff Hsum Hsink HW.
  eapply wp_mono; [apply (readi_spec pagetable (fs_put s1 ip i2 d2) a ip i2 user_dst dst W F off n); cbn [fs_sb fs_put]; rewrite ?Hsb1, ?Hsz|].
  - done.
  - apply boot_layout.
  - apply boot_idle.
  - apply list_lookup_insert_eq. by eapply lookup_lt_Some.
  - done.
  - done.
  - done.
  - done.
  - done.
  - done.
  - done.
  - done.
  - intros r s' (d' & m' & -> & _ & Hres). rewrite Hsz in Hres. cbv zeta in *. destruct Ho as [Ho _], Hn' as [Hn' _].
    rewrite (fbytes_part _ (h_data f)) in Hres by (done || lia). exact Hres.
Qed.
End boot.

(** * From mkfs to a running kernel *)

Section mkfs_boot.
Context {S : Type} {BC : BufferCache S} {BCok : BufferCacheOk S} {L : Linker}.
Context (pid pagetable de : Z) (cwd : nat) (Hde : 0 ≤ de) (Hde' : de + sizeof_dirent < 2 ^ 64).
#[local] Instance boot_store : BlockStore (log S) := log_store pid.
Implicit Types s : fsys (D:=log S).

(** C8: the kernel reads what mkfs was given.  If the files fit into the
    image, mkfs ends with status 0; the superblock the kernel loads is the
    one mkfs wrote, and its log is empty; and on a disk with this image, a
    process that starts a transaction and looks up a file by the name mkfs
    derives from its argument finds it, and readi from it at any offset gives
    the bytes of the host's file up to its end.  The number of entries of the
    root directory must not fill its last block: mkfs then rounds the size of
    the directory up to a block it has not allocated. *)
Theorem mkfs_readable room files :
  (∀ no, 0 ≤ no < FSSIZE → room no = true) → mkfs_fits files → (2 + Z.of_nat (length files)) `mod` 64 ≠ 0 →
  wp (main room (Some true) files) (λ r m, r = 0 ∧
    ∀ dk, (∀ no, dread dk no = img_block (m_img m) no) →
      let sb := sb_load (dread dk 1) in
      sb = mkfs_sb ∧ (∀ no, is_block (dread dk no)) ∧ hd_n (dread dk (sb_logstart sb)) = 0 ∧
      ∀ s j f buf, fs_sb s = sb → quiet (sb_logstart sb) (sb_nlog sb) dk (fs_d s) → fresh_table s →
        files !! j = Some f → first_named files j → h_name f ≠ [] → bytes buf →
        wp (do! blocks begin_op; open_file pid pagetable de cwd (SLASH :: h_name f) buf)
          (λ r s', ∃ ip, r = Some ip ∧ reads_as pagetable s' ip (h_data f)) s) mkfs0.
Proof using Hde Hde' BCok.
  intros Hroom Hfits Hfull. eapply wp_mono; [by apply main_built|]. intros r m [-> (own & Hbt)]. split; [done|].
  intros dk Hdk. cbv zeta. assert (sb_load (dread dk 1) = mkfs_sb) as ->.
  { rewrite Hdk, (bt_super _ _ _ Hbt). vm_compute. reflexivity. }
  change (sb_logstart mkfs_sb) with 2. change (sb_nlog mkfs_sb) with 30. split_and!; [done|..].
  - intros no. rewrite Hdk. apply img_is_block, (bt_blk _ _ _ Hbt).
  - rewrite Hdk, (bt_log _ _ _ Hbt) by (by vm_compute). by vm_compute.
  - intros s j f buf Hsb Hq Hft Hj Hfirst Hne Hbuf. apply wp_bind, wp_zoom.
    eapply wp_mono; [by apply (store_begin pid 2 30 dk)|]. intros [] d1 Hd1.
    eapply (boot_open (BSok:=log_store_ok pid 2 30 dk) pid pagetable de cwd Hde Hde' own (m_img m) files Hbt Hfits (disk_tx dk)); try done.
    + intros no _. apply Hdk.
    + intros no Hno. change (2 + nlog) with 32 in Hno. change FSSIZE with 1000 in Hno. split; [lia|]. unfold log_area. lia.
    + destruct Hft as [H1 H2 H3]. by split.
Qed.
End mkfs_boot.

(** * One program *)

Section echo.
#[local] Existing Instances ex_linker.
#[local] Instance echo_store : BlockStore (log bcache) := log_store 1.

(** user/_echo, read in two pieces. *)
Definition echo_file : hostfile := HostFile [117; 115; 101; 114; 47; 95; 101; 99; 104; 111] (Some [[104; 105]; [10]]).
Definition img_disk (img : list block) : disk := imap (λ n b, (Z.of_nat n, b)) img.
Lemma dread_img img no : dread (img_disk img) no = img_block img no.
Proof.
  unfold img_disk. assert (∀ k, dread (imap (λ n b, (Z.of_nat (k + n)%nat, b)) img) no =
    if decide (Z.of_nat k ≤ no) then default zero_block (img !! (Z.to_nat no - k)%nat) else zero_block) as H.
  { induction img as [|b img IH]; intros k; [by case_decide|]. rewrite imap_cons, dread_cons, Nat.add_0_r.
    rewrite (imap_ext _ (λ n b, (Z.of_nat (S k + n)%nat, b))) by (intros; unfold compose; f_equal; lia). rewrite IH.
    repeat case_decide; try lia; try done.
    - subst. by rewrite Nat2Z.id, Nat.sub_diag.
    - by replace (Z.to_nat no - k)%nat with (S (Z.to_nat no - S k)) by lia. }
  specialize (H 0%nat). cbn [Nat.add] in H. rewrite Nat.sub_0_r in H. exact H.
Qed.
Definition echo_kernel (b : bcache) : fsys (D:=log bcache) :=
  Fsys (Log false 2 30 0 false ROOTDEV 0 (replicate 30 0) b) mkfs_sb false
    (replicate 3 (Inode 0 0 0 initsleeplock false 0 0 0 0 0 [])) tiny_mem.
Lemma echo_fits : mkfs_fits [echo_file].
Proof.
  split; [|by vm_compute..]. constructor; [|constructor]. split; [by eexists|done| | |by vm_compute].
  - repeat (constructor; [lia|]). constructor.
  - repeat (constructor; [unfold fits; lia|]). constructor.
Qed.
Lemma mkfs_readable_witness :
  wp (main (λ _, true) (Some true) [echo_file]) (λ r m, r = 0 ∧ ∃ b,
    wp (do! blocks begin_op; open_file 1 0 300 0 [47; 101; 99; 104; 111] (replicate 14 0))
      (λ r s', ∃ ip, r = Some ip ∧ reads_as 0 s' ip [104; 105; 10]) (echo_kernel b)) mkfs0.
Proof.
  eapply wp_mono; [refine (mkfs_readable (S:=bcache) 1 0 300 0 _ _ (λ _, true) [echo_file] _ echo_fits _)|].
  - lia.
  - by vm_compute.
  - reflexivity.
  - by vm_compute.
  - intros r m [-> H]. split; [reflexivity|]. destruct (H (img_disk (m_img m)) (dread_img _)) as (Hsb & Hblk & Hclr & Hopen).
    destruct (proj1 (wp_ok binit _ _) (binit_spec (img_disk (m_img m)))) as ([] & b & _ & Hr). exists b. rewrite Hsb in *.
    apply (Hopen (echo_kernel b) 0%nat echo_file (replicate 14 0)).
    + reflexivity.
    + split; [split|..]; try done; by eexists.
    + split; [reflexivity| |cbn; lia]. intros i. cbn. rewrite !elem_of_cons. intros [->|[->|[->|[]%elem_of_nil]]]; done.
    + reflexivity.
    + intros k e e' Hk He' Hlt. injection He' as <-. destruct k as [|[|k]]; [injection Hk as <-..|lia]; discriminate.
    + discriminate.
    + apply Forall_replicate. unfold fits. lia.
Defined.
End echo.
