(* ===== verification/Pipe.v ===== *)
(** kernel/pipe.c: pipes.  The fields of [struct pipe] are a record; the user
    memory behind [copyin] and [copyout] is the memory of vm.c.

    A process that sleeps in [pipewrite] or [piperead] gives up the lock and,
    woken up, goes on from the loop it slept in: [pipewrite_from i] is the
    code from that point with loop counter [i], and its result says whether
    the process went to sleep again on a channel ([inl (chan, i)]) or returned
    ([inr r]).  The calls of [wakeup] are recorded. *)

From S2P Require Import Prelude Riscv Mem Cstring Spinlock Kalloc Vm PageTable Mapping.
From S2P Require Import UserMem UserCopy VmProps.

Definition PIPESIZE : Z := 512.

Record pipe := Pipe {
  p_lock : bool;
  p_data : list Z;       (* data[PIPESIZE] *)
  p_nread : Z;           (* number of bytes read *)
  p_nwrite : Z;          (* number of bytes written *)
  p_readopen : bool;     (* read fd is still open *)
  p_writeopen : bool;    (* write fd is still open *)
}.
(** A pipe and the machine's memory. *)
Record pstate := PState { ps_pipe : pipe; ps_mem : kmem }.

Definition p_set_lock (b : bool) (p : pipe) : pipe :=
  Pipe b (p_data p) (p_nread p) (p_nwrite p) (p_readopen p) (p_writeopen p).
Definition p_set_readopen (b : bool) (p : pipe) : pipe :=
  Pipe (p_lock p) (p_data p) (p_nread p) (p_nwrite p) b (p_writeopen p).
Definition p_set_writeopen (b : bool) (p : pipe) : pipe :=
  Pipe (p_lock p) (p_data p) (p_nread p) (p_nwrite p) (p_readopen p) b.
Definition upd_pipe (f : pipe → pipe) (s : pstate) : pstate := PState (f (ps_pipe s)) (ps_mem s).
Definition set_pmem (m : kmem) (s : pstate) : pstate := PState (ps_pipe s) m.

Definition p_acquire : M pstate unit :=
  zoom (λ s, p_lock (ps_pipe s)) (λ b, upd_pipe (p_set_lock b)) Lock.lk_acquire.
Definition p_release : M pstate unit :=
  zoom (λ s, p_lock (ps_pipe s)) (λ b, upd_pipe (p_set_lock b)) Lock.lk_release.
Definition user {A} (m : M kmem A) : M pstate A := zoom ps_mem set_pmem m.

(** [pi->data[pi->nwrite++ % PIPESIZE] = ch]. *)
Definition p_push (ch : Z) (p : pipe) : pipe :=
  Pipe (p_lock p) (<[Z.to_nat (p_nwrite p `mod` PIPESIZE) := ch]> (p_data p))
    (p_nread p) (u32 (p_nwrite p + 1)) (p_readopen p) (p_writeopen p).
(** [pi->data[pi->nread++ % PIPESIZE]]. *)
Definition p_front (p : pipe) : Z := default 0 (p_data p !! Z.to_nat (p_nread p `mod` PIPESIZE)).
Definition p_pop (p : pipe) : pipe :=
  Pipe (p_lock p) (p_data p) (u32 (p_nread p + 1)) (p_nwrite p) (p_readopen p) (p_writeopen p).

(** [&pi->nread] and [&pi->nwrite], behind the 24 bytes of the lock and the
    data. *)
Definition nread_chan (pi : Z) : Z := pi + 24 + PIPESIZE.
Definition nwrite_chan (pi : Z) : Z := pi + 24 + PIPESIZE + 4.

Section pipe.
Context {L : Linker} (pi : Z).

Definition pipeclose (writable : bool) : M (waking pstate) unit :=
  do! still p_acquire;
  do! (if writable then
         do! still (modify (upd_pipe (p_set_writeopen false)));
         wakeup_on (nread_chan pi)
       else
         do! still (modify (upd_pipe (p_set_readopen false)));
         wakeup_on (nwrite_chan pi));
  let! ro := still (gets (λ s, p_readopen (ps_pipe s))) in
  let! wo := still (gets (λ s, p_writeopen (ps_pipe s))) in
  if negb ro && negb wo then
    do! still p_release;
    still (user (kfree pi))
  else still p_release.

(** [root] is [pr->pagetable]. *)
Context (root : Z).

(** Behind the loop: [wakeup(&pi->nread); release(&pi->lock); return i]. *)
Definition write_done (i : Z) : M (waking pstate) (Z * Z + Z) :=
  do! wakeup_on (nread_chan pi);
  do! still p_release;
  ret (inr i).
(** One round; [killed] is the value of [pr->killed] it finds. *)
Definition write_round (killed : bool) (addr n i : Z) : M (waking pstate) (Z + (Z * Z + Z)) :=
  if i <? n then
    let! ro := still (gets (λ s, p_readopen (ps_pipe s))) in
    if negb ro || killed then do! still p_release; ret (inr (inr (-1)))
    else
      let! nr := still (gets (λ s, p_nread (ps_pipe s))) in
      let! nw := still (gets (λ s, p_nwrite (ps_pipe s))) in
      if nw =? u32 (nr + PIPESIZE) then
        do! wakeup_on (nread_chan pi);
        (* sleep(&pi->nwrite, &pi->lock) *)
        do! still p_release; ret (inr (inl (nwrite_chan pi, i)))
      else
        let! '(r, ch) := still (user (copyin root (u64 (addr + i)) 1)) in
        if r =? -1 then let! r := write_done i in ret (inr r)
        else
          do! still (modify (upd_pipe (p_push (default 0 (ch !! 0%nat)))));
          ret (inl (i + 1))
  else let! r := write_done i in ret (inr r).
(** The loop ends after at most [n] rounds.  Another CPU may kill the process
    at any time: [killed i] is what round [i] finds. *)
Definition pipewrite_from (killed : Z → bool) (addr n i : Z) : M (waking pstate) (Z * Z + Z) :=
  do! still p_acquire;
  loop (Z.to_nat n + 1) (λ i, write_round (killed i) addr n i) i.
Definition pipewrite (killed : Z → bool) (addr n : Z) : M (waking pstate) (Z * Z + Z) :=
  pipewrite_from killed addr n 0.

(** One round of the copying loop. *)
Definition read_round (addr n i : Z) : M pstate (Z + Z) :=
  if i <? n then
    let! nr := gets (λ s, p_nread (ps_pipe s)) in
    let! nw := gets (λ s, p_nwrite (ps_pipe s)) in
    if nr =? nw then ret (inr i)
    else
      let! ch := gets (λ s, p_front (ps_pipe s)) in
      do! modify (upd_pipe p_pop);
      let! r := user (copyout root (u64 (addr + i)) [ch] 1) in
      if r =? -1 then ret (inr i) else ret (inl (i + 1))
  else ret (inr i).
(** [inl chan]: asleep before anything was read. *)
Definition piperead (killed : bool) (addr n : Z) : M (waking pstate) (Z + Z) :=
  do! still p_acquire;
  let! nr := still (gets (λ s, p_nread (ps_pipe s))) in
  let! nw := still (gets (λ s, p_nwrite (ps_pipe s))) in
  let! wo := still (gets (λ s, p_writeopen (ps_pipe s))) in
  if (nr =? nw) && wo then
    if killed then do! still p_release; ret (inr (-1))
    else (* sleep(&pi->nread, &pi->lock) *)
      do! still p_release; ret (inl (nread_chan pi))
  else
    let! i := still (loop (Z.to_nat n + 1) (read_round addr n) 0) in
    do! wakeup_on (nwrite_chan pi);
    do! still p_release;
    ret (inr i).
End pipe.

(** * The queue a pipe holds *)

(** [q] is what was written and not yet read.  [nread] and [nwrite] wrap at
    2^32, which PIPESIZE divides. *)
Record p_ok (p : pipe) (q : list Z) : Prop := {
  po_len : length (p_data p) = Z.to_nat PIPESIZE;
  po_nread : fits 32 (p_nread p);
  po_nwrite : p_nwrite p = u32 (p_nread p + Z.of_nat (length q));
  po_size : Z.of_nat (length q) ≤ PIPESIZE;
  po_bytes : bytes q;
  po_q : ∀ i x, q !! i = Some x →
    p_data p !! Z.to_nat ((p_nread p + Z.of_nat i) `mod` PIPESIZE) = Some x;
}.

Lemma p_empty p q : p_ok p q → p_nread p = p_nwrite p ↔ q = [].
Proof.
  intros [Hl Hr Hw Hs Hb Hq]. rewrite Hw. unfold fits, u32, PIPESIZE in *.
  split; [|intros ->; simpl; dlia].
  intros He. apply nil_length_inv. dlia.
Qed.
Lemma p_full p q : p_ok p q → p_nwrite p = u32 (p_nread p + PIPESIZE) ↔ Z.of_nat (length q) = PIPESIZE.
Proof.
  intros [Hl Hr Hw Hs Hb Hq]. rewrite Hw. unfold fits, u32, PIPESIZE in *. split; [|intros ->; done].
  intros He. dlia.
Qed.

Lemma p_push_ok p q ch :
  p_ok p q → Z.of_nat (length q) < PIPESIZE → fits 8 ch → p_ok (p_push ch p) (q ++ [ch]).
Proof.
  intros [Hl Hr Hw Hs Hb Hq] Hlt Hch. unfold fits, u32, PIPESIZE in *. split; simpl.
  - by rewrite length_insert.
  - done.
  - rewrite Hw, length_app. unfold u32. simpl. dlia.
  - rewrite length_app. unfold PIPESIZE. simpl. lia.
  - apply list.Forall_app. split; [done|]. by apply list.Forall_singleton.
  - intros i x Hi. unfold PIPESIZE. apply lookup_app_Some in Hi as [Hi|[Hge Hi]].
    + pose proof (lookup_lt_Some _ _ _ Hi). rewrite list_lookup_insert_ne; [by apply Hq|].
      rewrite Hw. dlia.
    + apply list_lookup_singleton_Some in Hi as [Hi ->]. rewrite Hw.
      replace (Z.of_nat i) with (Z.of_nat (length q)) by lia.
      replace (((p_nread p + Z.of_nat (length q)) `mod` 2 ^ 32) `mod` 512)
        with ((p_nread p + Z.of_nat (length q)) `mod` 512) by dlia.
      apply list_lookup_insert_eq. dlia.
Qed.
Lemma p_pop_ok p ch q : p_ok p (ch :: q) → p_front p = ch ∧ p_ok (p_pop p) q.
Proof.
  intros [Hl Hr Hw Hs Hb Hq]. unfold p_front. split.
  - pose proof (Hq 0%nat ch eq_refl) as H. rewrite Z.add_0_r in H. by rewrite H.
  - unfold fits, u32, PIPESIZE in *. cbn [length] in *. split; simpl.
    + done.
    + unfold fits, u32. dlia.
    + rewrite Hw. unfold u32. dlia.
    + unfold PIPESIZE. lia.
    + by apply list.Forall_cons in Hb as [_ ?].
    + intros i x Hi. rewrite <- (Hq (S i) x Hi). do 2 f_equal. unfold u32, PIPESIZE. dlia.
Qed.
Lemma p_lock_ok b p q : p_ok p q → p_ok (p_set_lock b p) q.
Proof. intros []. by split. Qed.

(** * What the operations do to the queue and to user memory *)

Section spec.
Context {L : Linker} {Lok : LinkerOk L}.
Context (pi root : Z) (P : gset Z) (l : list Z) (um : gmap Z Z) (Hu : user_ok P l um).
Context (addr n : Z) (Haddr : 0 ≤ addr) (Hn : addr + n < 2 ^ 64).

(** The pipe with queue [q], unlocked or held by the caller. *)
Record pinv (b : bool) (s : pstate) (q : list Z) : Prop := {
  pv_lock : p_lock (ps_pipe s) = b;
  pv_q : p_ok (ps_pipe s) q;
  pv_mem : aspace (ps_mem s) root P l um;
}.

Lemma wp_p_acquire s q Q :
  pinv false s q →
  (∀ s', pinv true s' q → ps_mem s' = ps_mem s → p_nread (ps_pipe s') = p_nread (ps_pipe s) →
     p_readopen (ps_pipe s') = p_readopen (ps_pipe s) →
     p_writeopen (ps_pipe s') = p_writeopen (ps_pipe s) → Q tt s') → wp p_acquire Q s.
Proof.
  intros [Hl Hq Hm] HQ. apply wp_lock_acquire; [done|]. apply HQ; [|done..].
  split; [done|by apply p_lock_ok|done].
Qed.
Lemma wp_p_release s q Q :
  pinv true s q →
  (∀ s', pinv false s' q → ps_mem s' = ps_mem s → p_nread (ps_pipe s') = p_nread (ps_pipe s) →
     p_readopen (ps_pipe s') = p_readopen (ps_pipe s) →
     p_writeopen (ps_pipe s') = p_writeopen (ps_pipe s) → Q tt s') → wp p_release Q s.
Proof.
  intros [Hl Hq Hm] HQ. apply wp_lock_release; [done|]. apply HQ; [|done..].
  split; [done|by apply p_lock_ok|done].
Qed.

(** [copyin] and [copyout] of one character. *)
Lemma copyin_char s q va Q :
  pinv true s q → fits 64 va →
  (∀ ch, uload (k_mem (ps_mem s)) um va = Some ch → Q (0, [ch]) s) →
  (utrans um va = None → Q (-1, []) s) →
  wp (user (copyin root va 1)) Q s.
Proof.
  intros [Hl Hq Hm] Hva H1 H2. apply wp_zoom.
  eapply wp_mono; [by apply (copyin_spec _ root P l um va 1)|].
  intros [r dst] m' (-> & Hst & Hrd). replace (set_pmem (ps_mem s) s) with s by (by destruct s).
  destruct Hst as [[-> Hlen]|(-> & Hlen & Hnone)].
  - destruct dst as [|ch [|]]; simpl in Hlen; try lia. apply H1.
    specialize (Hrd 0%nat ch eq_refl). by rewrite Z.add_0_r in Hrd.
  - destruct dst; simpl in Hlen; [|lia]. apply H2. by rewrite Z.add_0_r in Hnone.
Qed.
Lemma copyout_char s q va ch Q :
  pinv true s q → fits 64 va → fits 8 ch →
  (∀ s', pinv true s' q → ps_pipe s' = ps_pipe s →
     uwrote (k_mem (ps_mem s)) um va [ch] (k_mem (ps_mem s')) → Q 0 s') →
  (∀ s', pinv true s' q → ps_pipe s' = ps_pipe s →
     uwrote (k_mem (ps_mem s)) um va [] (k_mem (ps_mem s')) → utrans um va = None → Q (-1) s') →
  wp (user (copyout root va [ch] 1)) Q s.
Proof.
  intros [Hl Hq Hm] Hva Hch H1 H2. apply wp_zoom.
  eapply wp_mono; [apply (copyout_spec _ root P l um va [ch]); [done|done|done|by apply list.Forall_singleton]|].
  intros r m' (k & Hst & Has & Hw). destruct Hst as [[-> Hlen]|(-> & Hlen & Hnone)]; simpl in Hlen.
  - replace k with 1%nat in Hw by lia. apply H1; done.
  - replace k with 0%nat in Hw, Hnone by lia. rewrite Z.add_0_r in Hnone. apply H2; done.
Qed.

Lemma addr_fits i : 0 ≤ i < n → fits 64 (addr + i).
Proof. intros. unfold fits. lia. Qed.

(** Nothing but the queue and the lock changed; [bs] was copied from the
    user. *)
Definition writing (s : pstate) (q : list Z) (i : Z) (b : bool) (bs : list Z) (s' : pstate) : Prop :=
  pinv b s' (q ++ bs) ∧ ps_mem s' = ps_mem s ∧ p_nread (ps_pipe s') = p_nread (ps_pipe s) ∧
  p_readopen (ps_pipe s') = p_readopen (ps_pipe s) ∧
  p_writeopen (ps_pipe s') = p_writeopen (ps_pipe s) ∧
  uread (k_mem (ps_mem s)) um (addr + i) bs.
(** Why [pipewrite] from loop counter [i] stops after [bs], and the channels
    it has woken. *)
Definition write_stop (killed : Z → bool) (s : pstate) (q : list Z) (i : Z) (bs : list Z) (r : Z * Z + Z) (cs : list Z) : Prop :=
  let j := i + Z.of_nat (length bs) in
  (r = inl (nwrite_chan pi, j) ∧ cs = [nread_chan pi] ∧ j < n ∧ Z.of_nat (length (q ++ bs)) = PIPESIZE ∧
     p_readopen (ps_pipe s) = true) ∨
  (r = inr j ∧ cs = [nread_chan pi] ∧ (j = n ∨ (j < n ∧ utrans um (addr + j) = None))) ∨
  (r = inr (-1) ∧ cs = [] ∧ ((bs = [] ∧ p_readopen (ps_pipe s) = false) ∨ killed j = true)).
Definition wrote (killed : Z → bool) (s : pstate) (q : list Z) (i : Z) (r : Z * Z + Z) (w : waking pstate) : Prop :=
  ∃ bs, writing s q i false bs (wk_st w) ∧ write_stop killed s q i bs r (wk_chans w).

Lemma write_out s q i bs s2 cs r (Q : Z + (Z * Z + Z) → waking pstate → Prop) :
  writing s q i true bs s2 →
  (∀ s3, writing s q i false bs s3 → Q r (Waking s3 cs)) →
  wp (do! still p_release; ret r) Q (Waking s2 cs).
Proof.
  intros (H2 & Hm & Hnr & Hro & Hwo & Hrd) HQ. apply wp_bind, wp_zoom. eapply wp_p_release; [done|].
  intros s3 H3 Hm3 Hn3 Hr3 Hw3. simpl wk_st in *. apply wp_ret, HQ. split_and!; [done|congruence..|done].
Qed.
Lemma write_done_spec s q i bs s2 j (Q : Z + (Z * Z + Z) → waking pstate → Prop) :
  writing s q i true bs s2 →
  (∀ s3, writing s q i false bs s3 → Q (inr (inr j)) (Waking s3 [nread_chan pi])) →
  wp (let! r := write_done pi j in ret (inr r)) Q (Waking s2 []).
Proof.
  intros H2 HQ. apply wp_bind. unfold write_done. apply wp_bind, wp_modify, wp_bind, wp_zoom. destruct H2 as (H2 & Hm & Hnr & Hro & Hwo & Hrd).
  eapply wp_p_release; [done|]. intros s3 H3 Hm3 Hn3 Hr3 Hw3. simpl wk_st in *. apply wp_ret, wp_ret, HQ. split_and!; [done|congruence..|done].
Qed.

Lemma write_round_spec killed s q i bs s2 :
  let j := i + Z.of_nat (length bs) in
  writing s q i true bs s2 → (bs ≠ [] → p_readopen (ps_pipe s) = true) → 0 ≤ i → j ≤ n →
  wp (write_round pi root (killed j) addr n j) (λ r w, match r with
    | inl j' => j' = j + 1 ∧ j' ≤ n ∧ wk_chans w = [] ∧ p_readopen (ps_pipe s) = true ∧
        ∃ ch, writing s q i true (bs ++ [ch]) (wk_st w)
    | inr r => wrote killed s q i r w
    end) (Waking s2 []).
Proof.
  intros j Hwr Hopen Hi Hjn. unfold write_round.
  destruct (Z.ltb_spec j n) as [Hlt|].
  2:{ eapply write_done_spec; [done|]. intros s3 H3. exists bs. split; [done|]. right; left. split_and!; [done..|left; lia]. }
  pose proof Hwr as (H2 & Hm & Hnr & Hro & Hwo & Hrd).
  apply wp_bind, wp_zoom, wp_gets. simpl wk_st. rewrite Hro.
  destruct (negb _ || killed j) eqn:Hstop.
  { eapply write_out; [done|]. intros s3 H3. exists bs. split; [done|]. right; right. split_and!; [done..|].
    destruct (p_readopen (ps_pipe s)); [by right|left]. split; [|done]. destruct bs; [done|]. by specialize (Hopen ltac:(done)). }
  apply orb_false_iff in Hstop as [Hst1%negb_false_iff Hst2].
  apply wp_bind, wp_zoom, wp_gets, wp_bind, wp_zoom, wp_gets. cbn. destruct (Z.eqb_spec (p_nwrite (ps_pipe s2))
    (u32 (p_nread (ps_pipe s2) + PIPESIZE))) as [Hfull|Hfull].
  { apply wp_bind, wp_modify. eapply write_out; [done|]. intros s3 H3. exists bs. split; [done|]. left.
    split_and!; [done|done|done| |done]. by apply (p_full _ _ (pv_q _ _ _ H2)). }
  apply wp_bind, wp_zoom. rewrite u64_id by (apply addr_fits; lia). eapply copyin_char; [done|apply addr_fits; lia| |].
  - intros ch Hch. cbn. split_and!; [done|lia|done|done|]. exists ch.
    cbn in Hch. rewrite Hm in Hch. split_and!; [|done..|].
    + destruct H2 as [H21 H22 H23]. split; [done| |done]. cbn. rewrite app_assoc.
      apply p_push_ok; [done| |].
      * pose proof (po_size _ _ H22). rewrite (p_full _ _ H22) in Hfull. lia.
      * unfold uload in Hch. destruct (utrans um (addr + j)); simplify_eq/=. apply load8_fits.
    + apply uread_app; [done|]. intros k x Hk. destruct k; simplify_eq/=.
      rewrite Z.add_0_r. rewrite <- Hch. f_equal. unfold j. lia.
  - intros Hnone. cbn. eapply write_done_spec; [done|]. intros s3 H3. exists bs. split; [done|]. right; left.
    split_and!; [done..|by right].
Qed.

Lemma pipewrite_from_spec killed s q i :
  pinv false s q → 0 ≤ i ≤ n →
  wp (pipewrite_from pi root killed addr n i) (wrote killed s q i) (Waking s []).
Proof.
  intros Hs Hi. unfold pipewrite_from. apply wp_bind, wp_zoom. eapply wp_p_acquire; [done|].
  intros s1 Hs1 Hmem1 Hnr1 Hro1 Hwo1.
  apply (wp_loop _ (λ j w, wk_chans w = [] ∧ ∃ bs, writing s q i true bs (wk_st w) ∧
      (bs ≠ [] → p_readopen (ps_pipe s) = true) ∧ j = i + Z.of_nat (length bs) ∧ j ≤ n) (λ j _, Z.to_nat (n - j))).
  - intros j [s2 cs] (Hcs & bs & Hwr & Hopen & Hj & Hjn). simpl in Hcs. subst cs j.
    eapply wp_mono; [apply (write_round_spec killed s q i bs s2); (done || lia)|].
    intros [j'|r] w; [|done]. intros (-> & Hj' & Hcs & Hop & ch & Hwr'). split; [|lia]. split; [done|].
    exists (bs ++ [ch]). rewrite length_app. cbn [length]. split_and!; [done|done|lia|done].
  - split; [done|]. exists []. split; [|simpl; split_and!; [done|lia|lia]]. split_and!; [by rewrite app_nil_r|done..|].
    intros k x Hk. done.
  - lia.
Qed.

(** [piperead] took [t] off the queue and delivered its first [i] bytes; when
    the user's buffer ends before [n] the byte after them is lost. *)
Definition took (s : pstate) (q : list Z) (b : bool) (i : Z) (t : list Z) (s' : pstate) : Prop :=
  ∃ q', q = t ++ q' ∧ pinv b s' q' ∧
    p_readopen (ps_pipe s') = p_readopen (ps_pipe s) ∧
    p_writeopen (ps_pipe s') = p_writeopen (ps_pipe s) ∧
    uwrote (k_mem (ps_mem s)) um addr (take (Z.to_nat i) t) (k_mem (ps_mem s')).
Definition read_stop (q : list Z) (i : Z) (t : list Z) : Prop :=
  (i = Z.of_nat (length t) ∧ (i = n ∨ q = t)) ∨
  (Z.of_nat (length t) = i + 1 ∧ 0 ≤ i < n ∧ utrans um (addr + i) = None).

Lemma read_round_spec s q i t s1 :
  took s q true i t s1 → i = Z.of_nat (length t) → 0 ≤ i ≤ n →
  wp (read_round root addr n i) (λ r s', match r with
    | inl j => j = i + 1 ∧ j ≤ n ∧ ∃ t', took s q true j t' s' ∧ j = Z.of_nat (length t')
    | inr j => ∃ t', took s q true j t' s' ∧ read_stop q j t'
    end) s1.
Proof.
  intros Ht Hi Hin. unfold read_round. destruct (Z.ltb_spec i n) as [Hlt|]; last first.
  { apply wp_ret. exists t. split; [done|]. left. split; [done|left; lia]. }
  pose proof Ht as (q' & Hq & Hs1 & Hro & Hwo & Hw).
  rewrite firstn_all2 in Hw by lia. pose proof Hs1 as [Hl Hok Hm].
  apply wp_bind, wp_gets, wp_bind, wp_gets.
  destruct (Z.eqb_spec (p_nread (ps_pipe s1)) (p_nwrite (ps_pipe s1))) as [He|He].
  { apply wp_ret. exists t. split; [done|]. left. split; [done|right].
    apply (p_empty _ _ Hok) in He. by rewrite Hq, He, app_nil_r. }
  destruct q' as [|ch q']; [by destruct He; apply (p_empty _ _ Hok)|].
  destruct (p_pop_ok _ _ _ Hok) as [Hfr Hpop].
  pose proof (proj1 (proj1 (list.Forall_cons _ _ _) (po_bytes _ _ Hok))) as Hch.
  apply wp_bind, wp_gets. rewrite Hfr. apply wp_bind, wp_modify.
  assert (pinv true (upd_pipe p_pop s1) q') as Hs2 by (by split).
  apply wp_bind. rewrite u64_id by (apply addr_fits; lia).
  eapply copyout_char; [done|apply addr_fits; lia|done| |].
  - intros s3 Hs3 Hp3 Hw3. cbn. split_and!; [done|lia|]. exists (t ++ [ch]).
    rewrite length_app. cbn [length]. split; [|lia]. exists q'.
    rewrite Hp3. split_and!; [by rewrite <- app_assoc|done|done|done|].
    rewrite firstn_all2 by (rewrite length_app; simpl; lia).
    eapply uwrote_app; [done|exact Hw|]. rewrite <- Hi. done.
  - intros s3 Hs3 Hp3 Hw3 Hnone. cbn. exists (t ++ [ch]). split.
    + exists q'. rewrite Hp3. split_and!; [by rewrite <- app_assoc|done|done|done|].
      rewrite take_app_length' by lia.
      rewrite Hi in Hw3. rewrite <- (app_nil_r t). by eapply uwrote_app.
    + right. rewrite length_app. simpl. split_and!; [lia|lia|done|done].
Qed.

Definition has_read (killed : bool) (s : pstate) (q : list Z) (r : Z + Z) (w : waking pstate) : Prop :=
  if decide (q = [] ∧ p_writeopen (ps_pipe s) = true)
  then r = (if killed then inr (-1) else inl (nread_chan pi)) ∧ pinv false (wk_st w) q ∧ ps_mem (wk_st w) = ps_mem s ∧
    p_readopen (ps_pipe (wk_st w)) = p_readopen (ps_pipe s) ∧ p_writeopen (ps_pipe (wk_st w)) = true ∧ wk_chans w = []
  else ∃ i t, r = inr i ∧ took s q false i t (wk_st w) ∧ read_stop q i t ∧ wk_chans w = [nwrite_chan pi].
Lemma piperead_spec killed s q :
  pinv false s q → 0 ≤ n → wp (piperead pi root killed addr n) (has_read killed s q) (Waking s []).
Proof.
  intros Hs Hn0. unfold piperead, has_read. apply wp_bind, wp_zoom. eapply wp_p_acquire; [done|].
  intros s1 Hs1 Hmem Hnr Hro Hwo. simpl wk_st in *. do 3 apply wp_bind, wp_zoom, wp_gets. cbn.
  pose proof (p_empty _ _ (pv_q _ _ _ Hs1)) as Hem. rewrite Hwo.
  destruct (decide (q = [] ∧ p_writeopen (ps_pipe s) = true)) as [[-> Hw]|Hd].
  - rewrite Hw, andb_true_r, (proj2 (Z.eqb_eq _ _)) by (by apply Hem).
    destruct killed; apply wp_bind, wp_zoom; (eapply wp_p_release; [done|]);
      intros s2 Hs2 Hm2 Hn2 Hr2 Hw2; apply wp_ret; cbn in *; (split_and!; [done|done|congruence..|done]).
  - assert ((p_nread (ps_pipe s1) =? p_nwrite (ps_pipe s1)) && p_writeopen (ps_pipe s) = false)
      as ->.
    { apply not_true_is_false. intros Hc. bool_facts. apply Hd. split; [by apply Hem|done]. }
    apply wp_bind, wp_zoom.
    apply (wp_loop _ (λ i s', i ≤ n ∧ ∃ t, took s q true i t s' ∧ i = Z.of_nat (length t))
      (λ i _, Z.to_nat (n - i))).
    + intros i s2 (Hin & t & Ht & Hi). eapply wp_mono; [apply (read_round_spec s q i t); (done || lia)|].
      intros [j|j] s3.
      * intros (-> & Hj & Ht'). split; [done|lia].
      * intros (t' & (q' & Hq & Hs3 & Hr3 & Hw3 & Hw) & Hst). apply wp_bind, wp_modify, wp_bind, wp_zoom.
        eapply wp_p_release; [done|]. intros s4 Hs4 Hm4 Hn4 Hr4 Hw4. apply wp_ret. cbn in *.
        exists j, t'. split_and!; [done| |done|done]. exists q'.
        split_and!; [done|done|congruence|congruence|by rewrite Hm4].
    + split; [done|]. exists []. split; [|done]. exists q. cbn. rewrite Hmem.
      split_and!; [done|done|done|done|]. apply uwrote_nil.
    + lia.
Qed.
End spec.

(** * An empty pipe of a process with one page of memory *)

Definition ex_pipe : pipe := Pipe false (replicate (Z.to_nat PIPESIZE) 0) (2 ^ 32 - 5) (2 ^ 32 - 5) true true.
Lemma ex_pipe_ok : p_ok ex_pipe [].
Proof.
  split; [reflexivity|vm_compute; split; [discriminate|reflexivity]|reflexivity|vm_compute; discriminate
    |constructor|]. intros i x H. discriminate H.
Qed.

Section pipe_example.
#[local] Existing Instances ex_linker ex_linker_ok.
#[local] Opaque memset memmove load64 store64.

Lemma ex_utrans_in a : 0 ≤ a < PGSIZE → utrans ex_um a = Some (pg 7 + a).
Proof.
  intros Ha. unfold utrans. pose proof (PGROUNDDOWN_bounds a) as Hb.
  assert (PGROUNDDOWN a = 0) as ->.
  { pose proof (PGROUNDDOWN_aligned a) as Hal. unfold aligned, PGSIZE in *. dlia. }
  change (ex_um !! 0) with (Some (leaf_pte (pg 7) UPERM)). cbn iota.
  change (truth (Z.land (leaf_pte (pg 7) UPERM) PTE_U)) with true.
  change (PTE2PA (leaf_pte (pg 7) UPERM)) with (pg 7). cbn iota. f_equal. lia.
Qed.

End pipe_example.
