(* ===== verification/PipeSpec.v ===== *)
(** Processes that share a pipe: [pipewrite], [piperead] and [pipeclose] of
    kernel/pipe.c as the steps of an interleaving, with every byte that was
    written and read, and with the sleepers that [wakeup] makes runnable. *)

From S2P Require Import Prelude Riscv Mem Cstring Spinlock Kalloc Vm PageTable Mapping.
From S2P Require Import UserMem UserCopy VmProps Pipe.

(** The [k] user bytes from [va] on. *)
Definition ubytes (m : mem) (um : gmap Z Z) (va : Z) (k : nat) : list Z :=
  (λ j, default 0 (uload m um (va + Z.of_nat j))) <$> seq 0 k.
Lemma uread_ubytes m um va bs : uread m um va bs → ubytes m um va (length bs) = bs.
Proof.
  intros H. apply list_eq_same_length with (length bs); [done|by unfold ubytes; rewrite length_fmap, length_seq|].
  intros j x y Hj Hx Hy. unfold ubytes in Hx. rewrite list_lookup_fmap, lookup_seq_lt in Hx by done.
  injection Hx as <-. by rewrite (H j y Hy).
Qed.

Lemma pipeclose_live {L : Linker} pi writable s :
  p_lock (ps_pipe s) = false → (if writable : bool then p_readopen (ps_pipe s) else p_writeopen (ps_pipe s)) = true →
  pipeclose pi writable (Waking s []) =
    Ok tt (Waking (upd_pipe (if writable then p_set_writeopen false else p_set_readopen false) s)
      [if writable then nread_chan pi else nwrite_chan pi]).
Proof.
  destruct s as [[lk d nr nw ro wo] m]. simpl. intros -> H. unfold pipeclose.
  destruct writable; subst; simpl; [done|]. by destruct ro.
Qed.

Module Pipes.
(** A process outside a call, in a call with its arguments and, for a write,
    the number of bytes done, runnable or asleep on a channel. *)
Inductive client :=
| Free
| Writes (addr n i : Z)
| WriteSleeps (chan addr n i : Z)
| Reads (addr n : Z)
| ReadSleeps (chan addr n : Z).

(** The sleepers on the channels [cs] are runnable; [kill] makes a sleeper
    runnable whatever it waits for. *)
Definition wake (cs : list Z) (c : client) : client :=
  match c with
  | WriteSleeps chan addr n i => if decide (chan ∈ cs) then Writes addr n i else c
  | ReadSleeps chan addr n => if decide (chan ∈ cs) then Reads addr n else c
  | _ => c
  end.
Definition rouse (c : client) : client :=
  match c with
  | WriteSleeps _ addr n i => Writes addr n i
  | ReadSleeps _ addr n => Reads addr n
  | _ => c
  end.

(** An address space: page table, the pages of the table, user mappings. *)
Record space := Space { sp_root : Z; sp_tab : gset Z; sp_um : gmap Z Z }.

(** The pipe and the memory, the processes, every byte written and read so
    far, and whether a kill has cut a write short. *)
Record world := World {
  pw_st : pstate;
  pw_procs : gmap nat client;
  pw_sent : list Z;
  pw_got : list Z;
  pw_cut : bool;
}.

Section world.
Context {L : Linker} {Lok : LinkerOk L} (pi : Z) (users : list space) (l : list Z).

(** How many bytes a stretch of a write from [i] that ends with [r] has put
    into the pipe.  The caller learns it from [r] unless it was killed. *)
Definition accepted (s : pstate) (i : Z) (r : Z * Z + Z) (s' : pstate) : nat :=
  Z.to_nat (match r with
            | inl (_, j) => j - i
            | inr j => if j =? -1 then u32 (p_nwrite (ps_pipe s') - p_nwrite (ps_pipe s)) else j - i
            end).
Definition cut_short (s : pstate) (r : Z * Z + Z) (s' : pstate) : bool :=
  match r with
  | inl _ => false
  | inr j => (j =? -1) && negb (p_nwrite (ps_pipe s') =? p_nwrite (ps_pipe s))
  end.

Definition fits_call (addr n : Z) : Prop := 0 ≤ addr ∧ 0 ≤ n ∧ addr + n < 2 ^ 64.
Definition mapped (u : space) (addr n : Z) : Prop := ∀ j, 0 ≤ j < n → utrans (sp_um u) (addr + j) ≠ None.

(** A process computes in its memory, makes a call, runs in a call until it
    sleeps or returns, closes an end of the pipe, or is killed. *)
Inductive pw_step : world → world → Prop :=
| pw_compute s ps sent got cut a u va bs m :
    users !! a = Some u → ps !! a = Some Free → uwrote (k_mem (ps_mem s)) (sp_um u) va bs m →
    pw_step (World s ps sent got cut) (World (set_pmem (set_mem m (ps_mem s)) s) ps sent got cut)
| pw_write_call s ps sent got cut a addr n :
    ps !! a = Some Free → fits_call addr n →
    pw_step (World s ps sent got cut) (World s (<[a := Writes addr n 0]> ps) sent got cut)
| pw_write s s' ps sent got cut a u addr n i killed r cs :
    users !! a = Some u → ps !! a = Some (Writes addr n i) →
    pipewrite_from pi (sp_root u) killed addr n i (Waking s []) = Ok r (Waking s' cs) →
    pw_step (World s ps sent got cut)
      (World s' (wake cs <$> <[a := match r with inl (chan, j) => WriteSleeps chan addr n j | inr _ => Free end]> ps)
         (sent ++ ubytes (k_mem (ps_mem s)) (sp_um u) (addr + i) (accepted s i r s')) got (cut || cut_short s r s'))
| pw_read_call s ps sent got cut a u addr n :
    users !! a = Some u → ps !! a = Some Free → fits_call addr n → mapped u addr n →
    pw_step (World s ps sent got cut) (World s (<[a := Reads addr n]> ps) sent got cut)
| pw_read s s' ps sent got cut a u addr n killed r cs :
    users !! a = Some u → ps !! a = Some (Reads addr n) →
    piperead pi (sp_root u) killed addr n (Waking s []) = Ok r (Waking s' cs) →
    pw_step (World s ps sent got cut)
      (World s' (wake cs <$> <[a := match r with inl chan => ReadSleeps chan addr n | inr _ => Free end]> ps) sent
         (got ++ match r with inl _ => [] | inr k => ubytes (k_mem (ps_mem s')) (sp_um u) addr (Z.to_nat k) end) cut)
| pw_close s s' ps sent got cut writable cs :
    (if writable : bool then p_readopen (ps_pipe s) else p_writeopen (ps_pipe s)) = true →
    pipeclose pi writable (Waking s []) = Ok tt (Waking s' cs) →
    pw_step (World s ps sent got cut) (World s' (wake cs <$> ps) sent got cut)
| pw_kill s ps sent got cut a c :
    ps !! a = Some c → pw_step (World s ps sent got cut) (World s (<[a := rouse c]> ps) sent got cut).

Definition spaces (m : kmem) : Prop :=
  ∀ a u, users !! a = Some u → aspace m (sp_root u) (sp_tab u) l (sp_um u).
(** The frames of one process are neither another's table nor free. *)
Definition separate : Prop :=
  ∀ a b u v, users !! a = Some u → users !! b = Some v → user_ok (sp_tab u ∪ sp_tab v) l (sp_um v).

Definition pw_init (w : world) : Prop :=
  p_lock (ps_pipe (pw_st w)) = false ∧ p_ok (ps_pipe (pw_st w)) [] ∧ spaces (ps_mem (pw_st w)) ∧
  map_Forall (λ _ c, c = Free) (pw_procs w) ∧ pw_sent w = [] ∧ pw_got w = [] ∧ pw_cut w = false.

(** ** The invariant *)

(** What a process in a call may rely on: a sleeper waits for what is not the
    case yet. *)
Definition client_ok (ro wo cut : bool) (q : list Z) (a : nat) (c : client) : Prop :=
  match c with
  | Free => True
  | Writes addr n i => fits_call addr n ∧ 0 ≤ i ≤ n
  | WriteSleeps chan addr n i => fits_call addr n ∧ 0 ≤ i ≤ n ∧ chan = nwrite_chan pi ∧
      Z.of_nat (length q) = PIPESIZE ∧ ro = true
  | Reads addr n => fits_call addr n ∧ ∀ u, users !! a = Some u → mapped u addr n
  | ReadSleeps chan addr n => fits_call addr n ∧ (∀ u, users !! a = Some u → mapped u addr n) ∧ chan = nread_chan pi ∧
      ((q = [] ∧ wo = true) ∨ cut = true)
  end.
Record pw_inv (w : world) (q : list Z) : Prop := {
  pw_lock : p_lock (ps_pipe (pw_st w)) = false;
  pw_ok : p_ok (ps_pipe (pw_st w)) q;
  pw_spaces : spaces (ps_mem (pw_st w));
  pw_hist : pw_sent w = pw_got w ++ q;
  pw_clients : map_Forall (client_ok (p_readopen (ps_pipe (pw_st w))) (p_writeopen (ps_pipe (pw_st w))) (pw_cut w) q) (pw_procs w);
}.

Lemma client_wake ro wo cut q ro' wo' cut' q' cs a c :
  client_ok ro wo cut q a c →
  nwrite_chan pi ∈ cs ∨ (Z.of_nat (length q) = PIPESIZE → ro = true → Z.of_nat (length q') = PIPESIZE ∧ ro' = true) →
  nread_chan pi ∈ cs ∨ ((q = [] ∧ wo = true) ∨ cut = true → (q' = [] ∧ wo' = true) ∨ cut' = true) →
  client_ok ro' wo' cut' q' a (wake cs c).
Proof.
  intros Hc Hw Hr. destruct c; simpl in *; try done; case_decide; simpl; naive_solver.
Qed.
Lemma clients_wake ro wo cut q ro' wo' cut' q' cs (ps : gmap nat client) :
  map_Forall (client_ok ro wo cut q) ps →
  nwrite_chan pi ∈ cs ∨ (Z.of_nat (length q) = PIPESIZE → ro = true → Z.of_nat (length q') = PIPESIZE ∧ ro' = true) →
  nread_chan pi ∈ cs ∨ ((q = [] ∧ wo = true) ∨ cut = true → (q' = [] ∧ wo' = true) ∨ cut' = true) →
  map_Forall (client_ok ro' wo' cut' q') (wake cs <$> ps).
Proof.
  intros Hps Hw Hr a c Hc. rewrite lookup_fmap in Hc. destruct (ps !! a) as [c0|] eqn:E; simplify_eq/=.
  eapply client_wake; [by apply Hps|done|done].
Qed.
(** A step of process [a] to [c], which wakes the sleepers on [cs]. *)
Lemma clients_step ro wo cut q ro' wo' cut' q' cs (ps : gmap nat client) a c :
  map_Forall (client_ok ro wo cut q) ps → client_ok ro' wo' cut' q' a c →
  nwrite_chan pi ∈ cs ∨ (Z.of_nat (length q) = PIPESIZE → ro = true → Z.of_nat (length q') = PIPESIZE ∧ ro' = true) →
  nread_chan pi ∈ cs ∨ ((q = [] ∧ wo = true) ∨ cut = true → (q' = [] ∧ wo' = true) ∨ cut' = true) →
  map_Forall (client_ok ro' wo' cut' q') (wake cs <$> <[a := c]> ps).
Proof.
  intros Hps Hc Hw Hr. rewrite fmap_insert. apply map_Forall_insert_2; [|by eapply clients_wake].
  eapply client_wake; [done|by right|by right].
Qed.
Lemma clients_insert ro wo cut q (ps : gmap nat client) a c :
  map_Forall (client_ok ro wo cut q) ps → client_ok ro wo cut q a c → map_Forall (client_ok ro wo cut q) (<[a := c]> ps).
Proof. intros. by apply map_Forall_insert_2. Qed.

Context (Hsep : separate).

Lemma separate_self a u : users !! a = Some u → user_ok (sp_tab u) l (sp_um u).
Proof. intros Hu. pose proof (Hsep a a u u Hu Hu) as H. by rewrite union_idemp_L in H. Qed.
(** What one process stores leaves all tables and the free list alone. *)
Lemma spaces_wrote m m' a u va bs :
  spaces m → users !! a = Some u → uwrote (k_mem m) (sp_um u) va bs (k_mem m') → free_list m' l → spaces m'.
Proof.
  intros Hm Ha Hw Hfl b v Hb. pose proof (Hm b v Hb) as Hv. eapply aspace_other; [done|done| |].
  - intros p Hp. by eapply aspace_disj.
  - eapply same_on_weaken; [apply (uwrote_same (sp_tab v ∪ sp_tab u) l _ _ _ _ _ (Hsep b a v u Hb Ha) Hw)|].
    intros x (p & Hp & Hx). exists p. split; [left; set_solver|done].
Qed.
Lemma users_pinv w q a u : pw_inv w q → users !! a = Some u →
  pinv (sp_root u) (sp_tab u) l (sp_um u) false (pw_st w) q.
Proof. intros [Hl Hok Hsp _ _] Ha. split; [done|done|by apply (Hsp a)]. Qed.

Lemma pw_compute_inv s ps sent got cut a u va bs m q :
  pw_inv (World s ps sent got cut) q → users !! a = Some u → uwrote (k_mem (ps_mem s)) (sp_um u) va bs m →
  pw_inv (World (set_pmem (set_mem m (ps_mem s)) s) ps sent got cut) q.
Proof.
  intros [Hl Hok Hsp Hh Hc] Ha Hw; simpl in *. split; [done|done| |done|done].
  apply (spaces_wrote (ps_mem s) _ a u va bs Hsp Ha); [done|]. simpl.
  apply (aspace_free _ (sp_root u) (sp_tab u) _ (sp_um u)), aspace_frame; [by apply (Hsp a)|].
  eapply uwrote_same; [by eapply separate_self|done].
Qed.

Lemma accepted_bs s s' q bs i r :
  p_ok (ps_pipe s) q → p_ok (ps_pipe s') (q ++ bs) → p_nread (ps_pipe s') = p_nread (ps_pipe s) → 0 ≤ i →
  (∃ c, r = inl (c, i + Z.of_nat (length bs))) ∨ r = inr (i + Z.of_nat (length bs)) ∨ r = inr (-1) →
  accepted s i r s' = length bs ∧ (cut_short s r s' = true ↔ r = inr (-1) ∧ bs ≠ []).
Proof.
  intros Hok Hok' Hnr Hi Hr. unfold accepted, cut_short. pose proof (po_nwrite _ _ Hok) as H1. pose proof (po_nwrite _ _ Hok') as H2.
  pose proof (po_size _ _ Hok') as H3. pose proof (po_nread _ _ Hok) as H4. rewrite Hnr in H2.
  rewrite length_app in H2, H3. unfold PIPESIZE, u32, fits in *.
  assert (bs = [] ↔ length bs = 0%nat) as Hnil by (destruct bs; simpl; split; (done || lia)).
  destruct Hr as [[c ->]|[->| ->]].
  - split; [lia|]. split; [done|by intros [? _]].
  - destruct (Z.eqb_spec (i + Z.of_nat (length bs)) (-1)); [lia|]. simpl. split; [lia|]. split; [done|].
    intros [[= ?] _]. lia.
  - simpl. rewrite H1, H2. split; [dlia|]. rewrite negb_true_iff, Z.eqb_neq, Hnil. split; [|intros [_ ?]; dlia].
    intros H. split; [done|]. intros E. apply H. rewrite E. f_equal. lia.
Qed.

Lemma pw_write_inv s s' ps sent got cut a u addr n i killed r cs q :
  pw_inv (World s ps sent got cut) q → users !! a = Some u → ps !! a = Some (Writes addr n i) →
  pipewrite_from pi (sp_root u) killed addr n i (Waking s []) = Ok r (Waking s' cs) →
  ∃ q', pw_inv (World s' (wake cs <$> <[a := match r with inl (chan, j) => WriteSleeps chan addr n j | inr _ => Free end]> ps)
    (sent ++ ubytes (k_mem (ps_mem s)) (sp_um u) (addr + i) (accepted s i r s')) got (cut || cut_short s r s')) q'.
Proof.
  intros Hinv Ha Hps Hrun. pose proof (users_pinv _ _ _ _ Hinv Ha) as Hp. destruct Hinv as [Hl Hok Hsp Hh Hc]; simpl in *.
  pose proof (Hc _ _ Hps) as ((Haddr & Hn & Hfit) & Hi).
  pose proof (pipewrite_from_spec pi (sp_root u) (sp_tab u) l (sp_um u) (separate_self a u Ha) addr n Haddr Hfit killed s q i Hp Hi) as Hw.
  unfold wp in Hw. rewrite Hrun in Hw. destruct Hw as (bs & (Hp' & Hm & Hnr & Hro & Hwo & Hrd) & Hst); simpl in *.
  destruct (accepted_bs s s' q bs i r Hok (pv_q _ _ _ _ _ _ _ Hp') Hnr ltac:(lia)) as [Hacc Hcut].
  { unfold write_stop in Hst. naive_solver. }
  rewrite Hacc, (uread_ubytes _ _ _ _ Hrd). exists (q ++ bs). pose proof (po_size _ _ (pv_q _ _ _ _ _ _ _ Hp')) as Hlen.
  rewrite length_app in Hlen.
  split; simpl; [apply Hp'|apply Hp'|by rewrite Hm|by rewrite Hh, app_assoc|].
  rewrite Hro, Hwo. eapply clients_step; [exact Hc| | |].
  - destruct Hst as [(-> & _ & Hj & Hfull & Hop)|[(-> & _)|(-> & _)]]; [|done|done]. simpl. split_and!; (done || lia).
  - right. intros Hfull Hop. split; [|done]. rewrite length_app. lia.
  - destruct Hst as [(_ & -> & _)|[(_ & -> & _)|(-> & -> & _)]]; [left; set_solver|left; set_solver|right].
    intros [[-> Hop]| ->]; [|by right]. destruct bs as [|b bs]; [by left|right].
    rewrite (proj2 Hcut) by done. apply orb_true_r.
Qed.

Lemma pw_read_inv s s' ps sent got cut a u addr n killed r cs q :
  pw_inv (World s ps sent got cut) q → users !! a = Some u → ps !! a = Some (Reads addr n) →
  piperead pi (sp_root u) killed addr n (Waking s []) = Ok r (Waking s' cs) →
  ∃ q', pw_inv (World s' (wake cs <$> <[a := match r with inl chan => ReadSleeps chan addr n | inr _ => Free end]> ps) sent
    (got ++ match r with inl _ => [] | inr k => ubytes (k_mem (ps_mem s')) (sp_um u) addr (Z.to_nat k) end) cut) q'.
Proof.
  intros Hinv Ha Hps Hrun. pose proof (users_pinv _ _ _ _ Hinv Ha) as Hp. destruct Hinv as [Hl Hok Hsp Hh Hc]; simpl in *.
  pose proof (Hc _ _ Hps) as ((Haddr & Hn & Hfit) & Hmap). specialize (Hmap u Ha).
  pose proof (piperead_spec pi (sp_root u) (sp_tab u) l (sp_um u) (separate_self a u Ha) addr n Haddr Hfit killed s q Hp Hn) as Hr.
  unfold wp in Hr. rewrite Hrun in Hr. unfold has_read in Hr. case_decide as Hd; simpl in Hr.
  - destruct Hr as (-> & Hp' & Hm & Hro & Hwo & ->). destruct Hd as [-> Hop]. exists [].
    split; simpl; [apply Hp'|apply Hp'|by rewrite Hm| |].
    + rewrite Hh, !app_nil_r. destruct killed; [simpl; by rewrite app_nil_r|by rewrite app_nil_r].
    + rewrite Hro, Hwo. eapply clients_step; [exact Hc| |by right|right; naive_solver].
      destruct killed; simpl; [done|]. split; [done|]. split; [intros u' Hu'; by simplify_eq|]. split; [done|by left].
  - destruct Hr as (i & t & -> & (q' & -> & Hp' & Hro & Hwo & Hw) & Hst & ->). exists q'.
    destruct Hst as [[Hi _]|(_ & Hi & Hnone)]; [|by destruct (Hmap i)].
    rewrite firstn_all2 in Hw by lia. rewrite Hi, Nat2Z.id.
    split; simpl; [apply Hp'|apply Hp'| | |].
    + eapply spaces_wrote; [exact Hsp|exact Ha|exact Hw|]. eapply aspace_free. apply Hp'.
    + rewrite (uread_ubytes _ _ _ _ (proj1 Hw)). by rewrite Hh, app_assoc.
    + rewrite Hro, Hwo. eapply clients_step; [exact Hc|done|left; set_solver|right].
      intros [[Hnil Hop]| ->]; [|by right]. apply app_eq_nil in Hnil as [_ ->]. by left.
Qed.

Lemma pw_close_inv s s' ps sent got cut writable cs q :
  pw_inv (World s ps sent got cut) q →
  (if writable : bool then p_readopen (ps_pipe s) else p_writeopen (ps_pipe s)) = true →
  pipeclose pi writable (Waking s []) = Ok tt (Waking s' cs) →
  pw_inv (World s' (wake cs <$> ps) sent got cut) q.
Proof.
  intros [Hl Hok Hsp Hh Hc] Hop Hrun; simpl in *. rewrite pipeclose_live in Hrun by done. simplify_eq.
  destruct writable; (split; simpl; [done|destruct Hok; by split|done|done|]);
    (eapply clients_wake; [exact Hc| |]); solve [left; set_solver|right; tauto].
Qed.

Lemma pw_step_inv w w' q : pw_inv w q → pw_step w w' → ∃ q', pw_inv w' q'.
Proof.
  intros Hinv Hstep. destruct Hstep.
  - exists q. by eapply pw_compute_inv.
  - exists q. destruct Hinv as [Hl Hok Hsp Hh Hc]. split; try done. simpl. apply clients_insert; [done|].
    destruct H0 as (? & ? & ?). simpl. split_and!; (done || lia).
  - by eapply pw_write_inv.
  - exists q. destruct Hinv as [Hl Hok Hsp Hh Hc]. split; try done. simpl. apply clients_insert; [done|].
    split; [done|]. intros u' Hu'. by simplify_eq.
  - by eapply pw_read_inv.
  - exists q. by eapply pw_close_inv.
  - exists q. destruct Hinv as [Hl Hok Hsp Hh Hc]. split; try done. simpl. apply clients_insert; [done|].
    pose proof (Hc _ _ H) as Hk. destruct c; simpl in *; naive_solver.
Qed.
Lemma pw_reachable w w' : pw_init w → rtc pw_step w w' → ∃ q, pw_inv w' q.
Proof.
  intros (Hl & Hok & Hsp & Hps & Hs & Hg & Hc) Hsteps.
  assert (∃ q, pw_inv w q) as Hinv.
  { exists []. split; try done; [by rewrite Hs, Hg|]. intros a c Ha. by rewrite (Hps a c Ha). }
  clear Hl Hok Hsp Hps Hs Hg Hc. induction Hsteps as [|w1 w2 w3 Hstep _ IH]; [done|].
  destruct Hinv as [q Hq]. apply IH. by eapply pw_step_inv.
Qed.

(** C27: a pipe is a first-in first-out queue of at most [PIPESIZE] bytes,
    whatever the processes that share it do and however their calls
    interleave, with [nread] and [nwrite] wrapping at 2^32: what was read,
    followed by what is in the ring, is what was written, none lost,
    repeated or overwritten.  Here what was written are the bytes of the
    writers' buffers that [pipewrite] reports and what was read the bytes in
    the readers' buffers that [piperead] reports.  A stretch of a call always
    ends.  No wakeup is lost: a writer sleeps only while the ring is full and
    the read end open; a reader sleeps only while the ring is empty and the
    write end open, unless a kill has cut a write short, whose bytes
    [pipewrite] does not announce. *)
Theorem pipe_fifo w w' :
  pw_init w → rtc pw_step w w' →
  let s := pw_st w' in
  (∃ q, pw_sent w' = pw_got w' ++ q ∧ Z.of_nat (length q) ≤ PIPESIZE ∧ p_ok (ps_pipe s) q) ∧
  (∀ a u addr n, users !! a = Some u →
     (∀ i killed, pw_procs w' !! a = Some (Writes addr n i) →
        ∃ r v, pipewrite_from pi (sp_root u) killed addr n i (Waking s []) = Ok r v) ∧
     (∀ killed, pw_procs w' !! a = Some (Reads addr n) →
        ∃ r v, piperead pi (sp_root u) killed addr n (Waking s []) = Ok r v)) ∧
  (∀ a chan addr n i, pw_procs w' !! a = Some (WriteSleeps chan addr n i) →
     Z.of_nat (length (pw_sent w')) = Z.of_nat (length (pw_got w')) + PIPESIZE ∧ p_readopen (ps_pipe s) = true) ∧
  (∀ a chan addr n, pw_procs w' !! a = Some (ReadSleeps chan addr n) →
     (pw_sent w' = pw_got w' ∧ p_writeopen (ps_pipe s) = true) ∨ pw_cut w' = true).
Proof.
  intros Hi Hs. destruct (pw_reachable _ _ Hi Hs) as [q Hinv]. pose proof Hinv as [Hl Hok Hsp Hh Hc]. cbv zeta. split_and!.
  - exists q. split_and!; [done|by apply po_size in Hok|done].
  - intros a u addr n Ha. pose proof (users_pinv _ _ _ _ Hinv Ha) as Hp. pose proof (separate_self a u Ha) as Hself.
    split; intros; pose proof (Hc _ _ ltac:(eassumption)) as Hk; simpl in Hk.
    + destruct Hk as ((H1 & _ & H3) & H4).
      destruct (proj1 (wp_ok _ _ _) (pipewrite_from_spec pi _ _ _ _ Hself addr n H1 H3 killed _ q i Hp H4)) as (r & v & Hr & _). eauto.
    + destruct Hk as ((H1 & H2 & H3) & _).
      destruct (proj1 (wp_ok _ _ _) (piperead_spec pi _ _ _ _ Hself addr n H1 H3 killed _ q Hp H2)) as (r & v & Hr & _). eauto.
  - intros a chan addr n i Ha. destruct (Hc _ _ Ha) as (_ & _ & _ & Hq & Hro). split; [|done].
    rewrite Hh, length_app. lia.
  - intros a chan addr n Ha. destruct (Hc _ _ Ha) as (_ & _ & _ & [[-> Hwo]|Hcut]); [left|by right].
    by rewrite Hh, app_nil_r.
Qed.
End world.

(** ** A process that writes ten bytes to itself *)

Section pipe_example.
#[local] Existing Instances ex_linker ex_linker_ok.
#[local] Opaque memset memmove load64 store64.

Lemma pipe_fifo_witness : ∃ s s' users r cs,
  rtc (pw_step 0 users) (World s {[0%nat := Free]} [] [] false)
    (World s' (wake cs <$> <[0%nat := Free]> (<[0%nat := Writes 0 10 0]> {[0%nat := Free]}))
      ([] ++ ubytes (k_mem (ps_mem s)) ex_um (0 + 0) (accepted s 0 r s')) [] (false || cut_short s r s')) ∧
  r = inr 10 ∧ ∃ q, ([] ++ ubytes (k_mem (ps_mem s)) ex_um (0 + 0) (accepted s 0 r s')) = [] ++ q ∧ p_ok (ps_pipe s') q.
Proof.
  destruct ex_mapped as (m & P & l & Has & Hg). pose proof (ex_user_ok _ _ _ Hg) as Hu.
  set (s := PState ex_pipe m). set (users := [Space (pg 0) P ex_um]).
  assert (pinv (pg 0) P l ex_um false s []) as Hp by (split; [reflexivity|exact ex_pipe_ok|exact Has]).
  destruct (proj1 (wp_ok _ _ _) (pipewrite_from_spec 0 (pg 0) P l ex_um Hu 0 10 ltac:(lia) ltac:(lia) (λ _, false) s [] 0 Hp ltac:(lia)))
    as (r & [s' cs] & Hrun & bs & (Hp' & _) & Hst).
  assert (r = inr 10) as Hr.
  { simpl in Hst. destruct Hst as [(_ & _ & Hj & Hf & _)|[(-> & _ & [Hj|[Hj Hnone]])|(_ & _ & [[_ ?]|?])]]; [|by rewrite Hj| |discriminate..].
    - unfold PIPESIZE in Hf. simpl in Hf. lia.
    - rewrite ex_utrans_in in Hnone by (unfold PGSIZE; lia). discriminate. }
  exists s, s', users, r, cs.
  assert (rtc (pw_step 0 users) (World s {[0%nat := Free]} [] [] false)
    (World s' (wake cs <$> <[0%nat := Free]> (<[0%nat := Writes 0 10 0]> {[0%nat := Free]}))
      ([] ++ ubytes (k_mem (ps_mem s)) ex_um (0 + 0) (accepted s 0 r s')) [] (false || cut_short s r s'))) as Hs.
  { eapply rtc_l; [apply (pw_write_call _ _ _ _ _ _ _ 0%nat 0 10); [reflexivity|split_and!; lia]|].
    eapply rtc_l; [eapply (pw_write _ _ _ _ _ _ _ _ 0%nat (Space (pg 0) P ex_um) 0 10 0 (λ _, false) r cs); [reflexivity|reflexivity|exact Hrun]|].
    subst r. apply rtc_refl. }
  split; [exact Hs|]. split; [exact Hr|].
  assert (∀ a u, users !! a = Some u → u = Space (pg 0) P ex_um) as Hone.
  { intros [|[|a]] u E; simpl in E; [by injection E as <-|discriminate E..]. }
  assert (separate users l) as Hsep.
  { intros a b u v Ea Eb. rewrite (Hone a u Ea), (Hone b v Eb). simpl. rewrite union_idemp_L. exact Hu. }
  assert (pw_init users l (World s {[0%nat := Free]} [] [] false)) as Hi.
  { split_and!; try reflexivity; [exact ex_pipe_ok| |].
    - intros a u Ea. rewrite (Hone a u Ea). exact Has.
    - apply map_Forall_singleton. reflexivity. }
  destruct (pipe_fifo 0 users l Hsep _ _ Hi Hs) as [(q & Hq & _ & Hqok) _].
  exists q. split; [exact Hq|exact Hqok].
Defined.
End pipe_example.
End Pipes.
