(* ===== verification/File.v ===== *)
(** kernel/file.c: the table of open files, and reading and writing through
    it; [pipealloc] of kernel/pipe.c, which makes two open files.  A
    [struct file *] is the index of the file in [ftable]; a [struct pipe *] is
    the address of its page.  The device switch is an argument. *)

From S2P Require Import Prelude Riscv Mem Cstring Spinlock Sleeplock Kalloc Vm Bio FsLayout ProcMem Pipe Fs.

(** What file.c uses of log.c. *)
Class Transactions (D : Type) := {
  t_begin_op : M D unit;
  t_end_op : M D unit;
}.

Inductive ftype := FD_NONE | FD_PIPE | FD_INODE | FD_DEVICE.
#[export] Instance ftype_eq_dec : EqDecision ftype.
Proof. solve_decision. Defined.
Record file := File {
  f_type : ftype;
  f_ref : Z;            (* reference count *)
  f_readable : bool;
  f_writable : bool;
  f_pipe : Z;           (* FD_PIPE *)
  f_ip : nat;           (* FD_INODE and FD_DEVICE *)
  f_off : Z;            (* FD_INODE *)
  f_major : Z;          (* FD_DEVICE *)
}.
Definition f_set_type x f := File x (f_ref f) (f_readable f) (f_writable f) (f_pipe f) (f_ip f) (f_off f) (f_major f).
Definition f_set_ref x f := File (f_type f) x (f_readable f) (f_writable f) (f_pipe f) (f_ip f) (f_off f) (f_major f).
Definition f_set_mode r w f := File (f_type f) (f_ref f) r w (f_pipe f) (f_ip f) (f_off f) (f_major f).
Definition f_set_pipe x f := File (f_type f) (f_ref f) (f_readable f) (f_writable f) x (f_ip f) (f_off f) (f_major f).
Definition f_set_ip x f := File (f_type f) (f_ref f) (f_readable f) (f_writable f) (f_pipe f) x (f_off f) (f_major f).
Definition f_set_off x f := File (f_type f) (f_ref f) (f_readable f) (f_writable f) (f_pipe f) (f_ip f) x (f_major f).
Definition f_set_major x f := File (f_type f) (f_ref f) (f_readable f) (f_writable f) (f_pipe f) (f_ip f) (f_off f) x.

Section file.
Context {D : Type} `{BS : BlockStore D} {TX : Transactions D} {L : Linker}.

Record fkern := FKern {
  fk_fs : fsys (D:=D);       (* the file system and physical memory *)
  ft_lock : bool;            (* ftable.lock *)
  ft_file : list file;       (* ftable.file *)
  fk_pipes : gmap Z pipe;    (* the pipes, by address *)
}.
Definition set_fk_fs x s := FKern x (ft_lock s) (ft_file s) (fk_pipes s).
Definition set_ft_lock x s := FKern (fk_fs s) x (ft_file s) (fk_pipes s).
Definition set_ft_file x s := FKern (fk_fs s) (ft_lock s) x (fk_pipes s).
Definition set_fk_pipes x s := FKern (fk_fs s) (ft_lock s) (ft_file s) x.

Definition fs {A} (m : M (fsys (D:=D)) A) : M fkern A := zoom fk_fs set_fk_fs m.
Definition op_begin : M fkern unit := fs (blocks t_begin_op).
Definition op_end : M fkern unit := fs (blocks t_end_op).
Definition ram {A} (m : M kmem A) : M fkern A := fs (memory m).
Definition getf (f : nat) : M fkern file := λ s,
  match ft_file s !! f with Some x => Ok x s | None => Stuck end.
Definition updf (f : nat) (g : file → file) : M fkern unit :=
  modify (λ s, set_ft_file (alter g f (ft_file s)) s).
Definition ft_acquire : M fkern unit := zoom ft_lock set_ft_lock Lock.lk_acquire.
Definition ft_release : M fkern unit := zoom ft_lock set_ft_lock Lock.lk_release.
(** An operation on the pipe at [pi]. *)
Definition pipe_op {A} (pi : Z) (m : M pstate A) : M fkern A := λ s,
  match fk_pipes s !! pi with
  | None => Stuck
  | Some p =>
      let put t := FKern (set_fs_mem (ps_mem t) (fk_fs s)) (ft_lock s) (ft_file s) (<[pi := ps_pipe t]> (fk_pipes s)) in
      match m (PState p (fs_mem (fk_fs s))) with
      | Ok a t => Ok a (put t)
      | Panic msg => Panic msg
      | Blocked c t => Blocked c (put t)
      | Stuck => Stuck
      end
  end.

(** [myproc()]: its pid, its page table, whether it is killed. *)
Context (pid pagetable : Z) (killed : bool).
(** The functions of a device; the first argument of each, [user_dst] or
    [user_src], is 1. *)
Context (devsw_read devsw_write : Z → option (Z → Z → M fkern Z)).
(** The bytes between [nlink] and [size] of a [struct stat] on the stack. *)
Context (st_pad : list Z).

Definition fileinit : M fkern unit := modify (set_ft_lock false).

(** [for(f = ftable.file; f < ftable.file + NFILE; f++)], up to a free one. *)
Fixpoint free_file (l : list file) (f : nat) : option nat :=
  match l with
  | [] => None
  | x :: l' => if f_ref x =? 0 then Some f else free_file l' (S f)
  end.
(** Allocate a file structure. *)
Definition filealloc : M fkern (option nat) :=
  do! ft_acquire;
  let! r := gets (λ s, free_file (ft_file s) 0) in
  match r with
  | Some f =>
      do! updf f (f_set_ref 1);
      do! ft_release;
      ret (Some f)
  | None =>
      do! ft_release;
      ret None
  end.

(** Increment ref count for file f. *)
Definition filedup (f : nat) : M fkern nat :=
  do! ft_acquire;
  let! x := getf f in
  if f_ref x <? 1 then panic "filedup"
  else
    do! updf f (f_set_ref (f_ref x + 1));
    do! ft_release;
    ret f.

(** [pipeclose], after which the page may be another's. *)
Definition close_pipe (pi : Z) (writable : bool) : M fkern unit :=
  do! pipe_op pi (alone (pipeclose pi writable));
  modify (λ s, match fk_pipes s !! pi with
               | Some p => if negb (p_readopen p) && negb (p_writeopen p)
                           then set_fk_pipes (delete pi (fk_pipes s)) s else s
               | None => s
               end).

(** Close file f. (Decrement ref count, close when reaches 0.) *)
Definition fileclose (f : nat) : M fkern unit :=
  do! ft_acquire;
  let! x := getf f in
  if f_ref x <? 1 then panic "fileclose"
  else
    do! updf f (f_set_ref (f_ref x - 1));
    if 0 <? f_ref x - 1 then ft_release
    else
      let! ff := getf f in
      do! updf f (λ x, f_set_type FD_NONE (f_set_ref 0 x));
      do! ft_release;
      match f_type ff with
      | FD_PIPE => close_pipe (f_pipe ff) (f_writable ff)
      | FD_INODE | FD_DEVICE =>
          do! op_begin;
          do! fs (iput pid (f_ip ff));
          op_end
      | FD_NONE => ret tt
      end.

(** The bytes of a [struct stat]. *)
Definition stat_bytes (st : stat) : list Z :=
  le_split 4 (u32 (st_dev st)) ++ le_split 4 (st_ino st) ++ le_split 2 (u16 (st_type st)) ++
  le_split 2 (u16 (st_nlink st)) ++ st_pad ++ le_split 8 (st_size st).
(** Get metadata about file f; [addr] is a user virtual address. *)
Definition filestat (f : nat) (addr : Z) : M fkern Z :=
  let! x := getf f in
  match f_type x with
  | FD_INODE | FD_DEVICE =>
      do! fs (ilock pid (f_ip x));
      let! st := fs (stati (f_ip x)) in
      do! fs (iunlock pid (f_ip x));
      let! r := ram (copyout pagetable addr (stat_bytes st) 24) in
      if r <? 0 then ret (-1) else ret 0
  | _ => ret (-1)
  end.

(** [f->major < 0 || f->major >= NDEV || !devsw[f->major].read]. *)
Definition device (devsw : Z → option (Z → Z → M fkern Z)) (major : Z) : option (Z → Z → M fkern Z) :=
  if (major <? 0) || (NDEV <=? major) then None else devsw major.

(** Read from file f. *)
Definition fileread (f : nat) (addr n : Z) : M fkern Z :=
  let! x := getf f in
  if negb (f_readable x) then ret (-1)
  else
    match f_type x with
    | FD_PIPE =>
        let! r := pipe_op (f_pipe x) (alone (piperead (f_pipe x) pagetable killed addr n)) in
        match r with inr r => ret r | inl chan => sleep_on chan end
    | FD_DEVICE =>
        match device devsw_read (f_major x) with None => ret (-1) | Some read => read addr n end
    | FD_INODE =>
        do! fs (ilock pid (f_ip x));
        let! x := getf f in
        let! r := fs (readi pagetable (f_ip x) true addr (f_off x) (u32 n)) in
        do! when (0 <? r) (updf f (f_set_off (u32 (f_off x + r))));
        do! fs (iunlock pid (f_ip x));
        ret r
    | FD_NONE => panic "fileread"
    end.

(** Write to file f: a few blocks at a time to avoid exceeding the maximum log
    transaction size, including i-node, indirect block, allocation blocks, and
    2 blocks of slop for non-aligned writes. *)
Definition write_max : Z := (MAXOPBLOCKS - 1 - 1 - 2) / 2 * BSIZE.
(** The file's part of one transaction: write [n1] bytes at the offset. *)
Definition filewrite_piece (f ip : nat) (addr n1 i : Z) : M fkern Z :=
  do! fs (ilock pid ip);
  let! x := getf f in
  let! r := fs (writei pagetable ip true (u64 (addr + i)) (f_off x) n1) in
  do! when (0 <? r) (updf f (f_set_off (u32 (f_off x + r))));
  do! fs (iunlock pid ip);
  ret r.
Definition filewrite_round (f ip : nat) (addr n : Z) (i : Z) : M fkern (Z + Z) :=
  if i <? n then
    let n1 := if write_max <? n - i then write_max else n - i in
    do! op_begin;
    let! r := filewrite_piece f ip addr n1 i in
    do! op_end;
    if negb (r =? n1) then ret (inr i)   (* error from writei *)
    else ret (inl (i + r))
  else ret (inr i).
Definition filewrite (f : nat) (addr n : Z) : M fkern Z :=
  let! x := getf f in
  if negb (f_writable x) then ret (-1)
  else
    match f_type x with
    | FD_PIPE =>
        let! r := pipe_op (f_pipe x) (alone (pipewrite (f_pipe x) pagetable (λ _, killed) addr n)) in
        match r with inr r => ret r | inl (chan, _) => sleep_on chan end
    | FD_DEVICE =>
        match device devsw_write (f_major x) with None => ret (-1) | Some write => write addr n end
    | FD_INODE =>
        let! i := loop (Z.to_nat (n / write_max) + 2) (filewrite_round f (f_ip x) addr n) 0 in
        ret (if i =? n then n else -1)
    | FD_NONE => panic "filewrite"
    end.

(** * Pipes *)

(** The page of a new pipe; [data] is what the page held. *)
Definition new_pipe (data : list Z) : pipe := Pipe false data 0 0 true true.
Definition pipe_end (pi : Z) (writable : bool) (f : file) : file :=
  f_set_pipe pi (f_set_mode (negb writable) writable (f_set_type FD_PIPE f)).
Definition pipealloc : M fkern (option (nat * nat)) :=
  let! f0 := filealloc in
  match f0 with
  | None => ret None
  | Some f0 =>
      let! f1 := filealloc in
      match f1 with
      | None =>
          do! fileclose f0;
          ret None
      | Some f1 =>
          let! pi := ram kalloc in
          if pi =? 0 then
            do! fileclose f0;
            do! fileclose f1;
            ret None
          else
            (* data[] follows the lock, of 24 bytes *)
            let! data := ram (gets (λ k, load_bytes (k_mem k) (pi + 24) (Z.to_nat PIPESIZE))) in
            do! modify (λ s, set_fk_pipes (<[pi := new_pipe data]> (fk_pipes s)) s);
            do! updf f0 (pipe_end pi false);
            do! updf f1 (pipe_end pi true);
            ret (Some (f0, f1))
      end
  end.
End file.
