(* ===== verification/FileWrite.v ===== *)
(** kernel/file.c: filewrite cuts a write into pieces, each in a call of its own
    that begin_op has reserved MAXOPBLOCKS log blocks for.  A piece fits. *)

From S2P Require Import Prelude Riscv Mem Cstring Spinlock Sleeplock Kalloc Vm PageTable Mapping UserMem UserCopy UserFree VmProps Bio BioSpec BufCache FsLayout Log LogSpec LogCrash LogOps ProcMem Pipe Fs FsBlocks FsFile FsIo FsInode FsDir FsStore FsProps File.

(** * The blocks a piece logs *)

(** A piece of [n] bytes touches at most four data blocks. *)
Lemma piece_blocks off n : 0 ≤ off → 0 ≤ n ≤ write_max → (blocks_left off n 0 ≤ 4)%nat.
Proof.
  intros Ho Hn. change write_max with 3072 in Hn. unfold blocks_left. rewrite BSIZE_eq. rewrite Z.add_0_r. destruct (Z.ltb_spec 0 n); [|lia]. dlia.
Qed.
Lemma bitmap_size sb : 0 ≤ sb_size sb < 4 * BPB → (size (bitmap sb) ≤ 4)%nat.
Proof.
  intros Hs. unfold bitmap. rewrite size_list_to_set.
  - rewrite length_fmap, length_seq. unfold BPB, BSIZE in *. dlia.
  - apply NoDup_fmap_2_strong; [|apply NoDup_seq]. intros x y _ _ E. lia.
Qed.

Section room.
Context {D : Type} `{BS : BlockStore D} {BSok : BlockStoreOk D}.
(** In a transaction of its own, on a disk of up to four map blocks. *)
Lemma piece_room sb a i off n : 0 ≤ sb_size sb < 4 * BPB → x_logged a = ∅ → (Z.to_nat MAXOPBLOCKS ≤ x_cap)%nat → (6 ≤ nfree sb a)%nat →
  0 ≤ off ≤ i_size i → 0 ≤ n ≤ write_max → off + n ≤ MAXFILE * BSIZE → write_room sb a i off n.
Proof.
  intros Hsb Hlog Hcap Hfree Ho Hn Hmax. pose proof (piece_blocks off n ltac:(lia) Hn) as Hb. pose proof (bitmap_size sb Hsb) as Hm.
  split; [done|done|]. split.
  - unfold budget. rewrite Hlog, (left_id_L ∅ (∪)). unfold ind_log. change (Z.to_nat MAXOPBLOCKS) with 10%nat in Hcap. case_decide; lia.
  - unfold ind_new. case_decide; lia.
Qed.
End room.

(** * A piece in its call *)

(** Part of a source of bytes. *)
Lemma source_part {L : Linker} pagetable user src bs m i k : source pagetable user src bs m → 0 ≤ i → 0 ≤ k → i + k ≤ Z.of_nat (length bs) →
  source pagetable user (u64 (src + i)) (take (Z.to_nat k) (drop (Z.to_nat i) bs)) m.
Proof.
  intros Hs Hi Hk Hl tot n Ht Hn Htn. rewrite length_take, length_drop in Htn.
  replace (u64 (u64 (src + i) + tot)) with (u64 (src + (i + tot))).
  2:{ unfold u64. rewrite Zplus_mod_idemp_l. f_equal. lia. }
  eapply wp_mono; [apply (Hs (i + tot) n); lia|]. intros [r b] m' (-> & -> & ->). split_and!; [done|done|].
  rewrite skipn_firstn_comm, drop_drop, take_take. f_equal; [lia|]. f_equal. lia.
Qed.

Section piece.
Context {S : Type} {BC : BufferCache S} {BCok : BufferCacheOk S} {L : Linker} (pid pagetable start z : Z) (dk : disk).
#[local] Instance piece_store : BlockStore (log S) := log_store pid.
#[local] Instance piece_store_ok : BlockStoreOk (log S) := log_store_ok pid start z dk.
#[local] Instance piece_tx : Transactions (log S) := {| t_begin_op := begin_op; t_end_op := end_op pid |}.
Abbreviation fk := (fkern (D:=log S)).

Lemma iwf_lock sb a i l : iwf sb a i → iwf sb a (i_set_lock l i).
Proof. intros []. by split. Qed.

(** The call before its [end_op]. *)
Lemma piece_spec (k : fk) f x i addr bs pos :
  let n := Z.of_nat (length bs) in let m := Z.min write_max (n - pos) in let piece := take (Z.to_nat m) (drop (Z.to_nat pos) bs) in
  let s := fk_fs k in let sb := fs_sb s in let a := disk_tx dk in
  quiet start z dk (fs_d s) → layout sb → sb_size sb < 4 * BPB → map_ok sb a → (6 ≤ nfree sb a)%nat →
  ft_file k !! f = Some x → it_inode s !! f_ip x = Some i → i_valid i = true → sl_free (i_lock i) → 1 ≤ i_ref i → iwf sb a i →
  0 ≤ f_off x ≤ i_size i → f_off x + m ≤ MAXFILE * BSIZE → 0 ≤ pos < n → bytes bs → fits 64 addr → source pagetable true addr bs (fs_mem s) →
  wp (do! op_begin; filewrite_piece pid pagetable f (f_ip x) addr m pos) (λ r k', r = m ∧
    ft_file k' = <[f := f_set_off (f_off x + m) x]> (ft_file k) ∧ ∃ a' i',
    it_inode (fk_fs k') = <[f_ip x := i_set_lock initsleeplock i']> (it_inode s) ∧
    written sb a (locked pid sb a i) (f_off x) piece a' i' ∧ store_rep pid start z dk (fs_d (fk_fs k')) a') k.
Proof.
  intros n m piece s sb a Hq Hly Hsb Hmap Hfree Hx Hip Hval Hsl Href Hi Hoff Hmax Hpos Hbs Haddr Hsrc.
  assert (0 < m ≤ write_max ∧ pos + m ≤ n) as (Hm & Hmn) by (change write_max with 3072 in *; lia).
  assert (Z.of_nat (length piece) = m) as Hpl by (unfold piece; rewrite length_take, length_drop; lia).
  apply wp_bind, wp_zoom, wp_zoom. eapply wp_mono; [by apply (store_begin pid start z dk)|]. intros [] d1 Hd1.
  pose proof (iwf_lock sb a i (sl_mine pid) Hi) as Hil. assert (locked pid sb a i = i_set_lock (sl_mine pid) i) as El by (unfold locked; by rewrite Hval).
  assert (idle sb a) as Hid by by split. unfold filewrite_piece.
  apply wp_bind, wp_zoom. eapply (ilock_spec pid (set_d d1 s) a); [done|done|done|done|apply Hi|apply Hi|done|done|by rewrite Hval|]. intros d2 Hd2.
  change (locked pid (fs_sb (set_d d1 s)) a i) with (locked pid sb a i). rewrite El in *.
  set (s2 := fs_put (set_d d1 s) (f_ip x) (i_set_lock (sl_mine pid) i) d2).
  assert (inode_at s2 a (f_ip x) (i_set_lock (sl_mine pid) i)) as Hat.
  { split; [done|done|done| |done]. simpl. apply list_lookup_insert_eq. by eapply lookup_lt_Some. }
  apply wp_bind. unfold wp at 1, getf. simpl ft_file. rewrite Hx. apply wp_bind, wp_zoom. simpl fk_fs. fold s2.
  assert (write_room sb a (i_set_lock (sl_mine pid) i) (f_off x) m) as Hroom.
  { apply piece_room; try done; [split; [|done]; pose proof (ly_size _ Hly); lia|lia]. }
  assert (source pagetable true (u64 (addr + pos)) piece (fs_mem s2)) as Hsrc' by (apply source_part; try done; lia).
  assert (bytes piece) as Hbp by by apply Forall_take, Forall_drop.
  pose proof (writei_wp pagetable s2 a (f_ip x) (i_set_lock (sl_mine pid) i) true (u64 (addr + pos)) piece (f_off x) Hat) as Hw.
  cbv zeta in Hw. rewrite Hpl in Hw. eapply wp_mono; [apply Hw; try done; apply u64_fits|]. clear Hw.
  intros r s3 (-> & d3 & a3 & i3 & -> & Hr3 & _ & Hwr). pose proof (wn_fields _ _ _ _ _ _ _ Hwr) as Ef.
  assert (i_lock i3 = sl_mine pid ∧ i_ref i3 = i_ref i) as [Hl3 Href3] by (rewrite Ef; done).
  rewrite (proj2 (Z.ltb_lt 0 m)) by lia. apply wp_bind, wp_modify, wp_bind, wp_zoom. simpl fk_fs.
  eapply (iunlock_spec pid _ _ i3); [simpl; apply list_lookup_insert_eq; rewrite length_insert; by eapply lookup_lt_Some|done|lia|].
  apply wp_ret. split_and!; [done| |exists a3, i3; split_and!; [|done|exact Hr3]].
  - simpl. rewrite (alter_lookup _ _ _ _ Hx). do 2 f_equal. rewrite MAXFILE_eq, BSIZE_eq in Hmax. apply Z.mod_small. lia.
  - simpl. by rewrite !list_insert_insert_eq.
Qed.

(** C5: filewrite's pieces fit into the log.  On a disk of up to 4 free-map blocks
    with 6 free blocks, a round of filewrite's loop (any piece of the user's
    buffer, at any offset, through direct and indirect blocks) logs at most
    the MAXOPBLOCKS blocks that its begin_op reserves: so many are in the log
    when it comes to its end_op.  It writes the whole piece, advances the
    file's offset, unlocks the inode and commits, and a crash shows the file
    with all of the piece or with none of it. *)
Theorem filewrite_fits (k : fk) f x i addr bs pos :
  let n := Z.of_nat (length bs) in let m := Z.min write_max (n - pos) in let piece := take (Z.to_nat m) (drop (Z.to_nat pos) bs) in
  let s := fk_fs k in let sb := fs_sb s in let a := disk_tx dk in
  quiet start z dk (fs_d s) → layout sb → sb_size sb < 4 * BPB → map_ok sb a → (6 ≤ nfree sb a)%nat →
  ft_file k !! f = Some x → it_inode s !! f_ip x = Some i → i_valid i = true → sl_free (i_lock i) → 1 ≤ i_ref i → iwf sb a i →
  0 ≤ f_off x ≤ i_size i → f_off x + m ≤ MAXFILE * BSIZE → 0 ≤ pos < n → bytes bs → fits 64 addr → source pagetable true addr bs (fs_mem s) →
  lh_n (fs_d s) = 0 ∧
  wp (do! op_begin; filewrite_piece pid pagetable f (f_ip x) addr m pos) (λ r k', r = m ∧ lh_n (fs_d (fk_fs k')) ≤ MAXOPBLOCKS) k ∧
  wp (filewrite_round pid pagetable f (f_ip x) addr n pos) (λ r k', r = inl (pos + m) ∧
    ft_file k' = <[f := f_set_off (f_off x + m) x]> (ft_file k) ∧ ∃ dk' a' i',
    it_inode (fk_fs k') = <[f_ip x := i_set_lock initsleeplock i']> (it_inode s) ∧
    written sb a (locked pid sb a i) (f_off x) piece a' i' ∧ quiet start z dk' (fs_d (fk_fs k')) ∧
    (∀ no, store_block start z no → dread dk' no = x_disk a' no) ∧ all_or_nothing start z dk dk' (dread dk) (x_disk a')) k.
Proof.
  intros n m piece s sb a Hq Hly Hsb Hmap Hfree Hx Hip Hval Hsl Href Hi Hoff Hmax Hpos Hbs Haddr Hsrc.
  pose proof (piece_spec k f x i addr bs pos Hq Hly Hsb Hmap Hfree Hx Hip Hval Hsl Href Hi Hoff Hmax Hpos Hbs Haddr Hsrc) as Hp.
  cbv zeta in Hp. fold n m piece s sb a in Hp. split_and!.
  - apply Hq.
  - eapply wp_mono; [exact Hp|]. intros r k' (-> & _ & a' & i' & _ & _ & Hr). split; [done|].
    pose proof (sr_cap _ _ _ _ _ _ Hr) as Hc. rewrite length_logged in Hc by apply Hr. unfold store_cap in Hc.
    pose proof (lo_n _ (sr_log _ _ _ _ _ _ Hr)). unfold MAXOPBLOCKS in *. lia.
  - unfold filewrite_round. rewrite (proj2 (Z.ltb_lt pos n)) by lia.
    replace (if write_max <? n - pos then write_max else n - pos) with m by (unfold m; case_cmp; lia).
    apply wp_bind_inv in Hp. apply wp_bind. eapply wp_mono; [exact Hp|]. intros [] k1 Hk1. apply wp_bind. eapply wp_mono; [exact Hk1|].
    intros r k2 (-> & Hft & a' & i' & Hino & Hwr & Hr). apply wp_bind, wp_zoom, wp_zoom.
    eapply wp_mono; [apply (store_end pid start z dk (fs_d (fk_fs k2)) a' Hr)|].
    + apply (id_bufs _ _ (wn_idle _ _ _ _ _ _ _ Hwr)).
    + apply (qt_block _ _ _ _ Hq).
    + apply (qt_clear _ _ _ _ Hq).
    + intros [] d4 (dk' & Hq' & Hread & Hall). rewrite Z.eqb_refl. simpl negb. apply wp_ret. split_and!; [done|done|].
      exists dk', a', i'. split_and!; done.
Qed.
End piece.

(** * Three bytes to the small file system *)
Section three_bytes.
#[local] Existing Instances ex_linker ex_linker_ok.
#[local] Opaque memset memmove load64 store64.
#[local] Instance three_store : BlockStore (log bcache) := log_store 1.
#[local] Instance three_tx : Transactions (log bcache) := {| t_begin_op := begin_op; t_end_op := end_op 1 |}.
Definition three_file : file := File FD_INODE 1 false true 0 0 0 0.
Definition three_kernel (b : bcache) (m : kmem) : fkern (D:=log bcache) :=
  FKern (Fsys (tiny_log b) tiny_sb false [tiny_inode T_FILE 2 1 true] m) false [three_file] ∅.
Lemma three_source : ∃ m bs, length bs = 3%nat ∧ bytes bs ∧ source (pg 0) true 0 bs m.
Proof.
  destruct ex_mapped as (m & P & l & Has & Hg). exists m, (load_bytes (k_mem m) (pg 7) 3). split_and!; [done|apply load_bytes_bytes|].
  apply (user_source (pg 0) 0 _ m P l ex_um Has); [by eapply ex_user_ok|lia|simpl; lia|].
  intros j b Hj. pose proof (lookup_lt_Some _ _ _ Hj) as Hlt. change (j < 3)%nat in Hlt. rewrite load_bytes_lookup in Hj by done.
  unfold uload. by rewrite ex_utrans_in by (unfold PGSIZE; lia).
Qed.
Lemma filewrite_fits_witness : ∃ b m,
  wp (do! op_begin; filewrite_piece 1 (pg 0) 0 0 0 3 0) (λ r k', r = 3 ∧ lh_n (fs_d (fk_fs k')) ≤ MAXOPBLOCKS) (three_kernel b m) ∧
  wp (filewrite_round 1 (pg 0) 0 0 0 3 0) (λ r k', r = inl 3 ∧ ft_file k' = [f_set_off 3 three_file]) (three_kernel b m).
Proof.
  destruct tiny_quiet as [b Hq]. destruct three_source as (m & bs & Hl & Hbs & Hsrc). exists b, m.
  pose proof (filewrite_fits 1 (pg 0) 2 30 tiny_disk (three_kernel b m) 0 three_file (tiny_inode T_FILE 2 1 true) 0 bs 0) as Hw.
  cbv zeta in Hw. rewrite Hl in Hw. destruct Hw as (_ & Hp & Hw); cycle 17;
    [split; [exact Hp|eapply wp_mono; [exact Hw|intros r k' (-> & E & _); split; [reflexivity|exact E]]]|..].
  - exact Hq.
  - apply tiny_layout.
  - vm_compute. reflexivity.
  - apply tiny_map_ok.
  - apply Nat.leb_le. vm_compute. reflexivity.
  - reflexivity.
  - reflexivity.
  - reflexivity.
  - split; reflexivity.
  - simpl. lia.
  - apply tiny_iwf. lia.
  - simpl. lia.
  - apply Z.leb_le. vm_compute. reflexivity.
  - simpl. lia.
  - exact Hbs.
  - split; lia.
  - exact Hsrc.
Defined.
End three_bytes.
