(* ===== verification/Syscall.v ===== *)
(** kernel/syscall.c: the arguments of a system call, which the process's
    trapframe and its user memory hold, and the dispatch on its number.  A
    function that may fail returns [None] where the C code returns -1. *)

From S2P Require Import Prelude Riscv Mem Cstring Spinlock Kalloc Vm ProcMem.

(** * Arguments *)

Section args.
Context {L : Linker}.
(** [myproc()->sz], [myproc()->pagetable] and [myproc()->trapframe]. *)
Context (sz pagetable trapframe : Z).

(** Fetch the uint64 at addr from the current process. *)
Definition fetchaddr (addr : Z) : M kmem (option Z) :=
  if (sz <=? addr) || (sz <? u64 (addr + 8)) then ret None
  else
    let! '(r, ip) := copyin pagetable addr 8 in
    if negb (r =? 0) then ret None else ret (Some (le_combine ip)).

(** The string in a buffer; its length is [strlen(buf)]. *)
Definition string_of (buf : list Z) : list Z := cstr (at_list buf) (Z.of_nat (length buf)).
(** Fetch the nul-terminated string at addr from the current process. *)
Definition fetchstr (addr max : Z) : M kmem (option (list Z)) :=
  let! '(err, buf) := copyinstr pagetable addr max in
  if err <? 0 then ret None else ret (Some (string_of buf)).

(** The offsets of [a0] to [a5] in a trapframe. *)
Definition argraw (n : Z) : M kmem Z :=
  match n with
  | 0 => ld64 (trapframe + 112)
  | 1 => ld64 (trapframe + 120)
  | 2 => ld64 (trapframe + 128)
  | 3 => ld64 (trapframe + 136)
  | 4 => ld64 (trapframe + 144)
  | 5 => ld64 (trapframe + 152)
  | _ => panic "argraw"
  end.
(** Fetch the nth 32-bit system call argument. *)
Definition argint (n : Z) : M kmem Z := let! x := argraw n in ret (s32 x).
(** Retrieve an argument as a pointer. *)
Definition argaddr (n : Z) : M kmem Z := argraw n.
(** Fetch the nth word-sized system call argument as a null-terminated string. *)
Definition argstr (n max : Z) : M kmem (option (list Z)) :=
  let! addr := argaddr n in
  fetchstr addr max.
End args.

(** * Dispatch *)

(** kernel/syscall.h *)
Definition SYS_fork : Z := 1.
Definition SYS_exit : Z := 2.
Definition SYS_wait : Z := 3.
Definition SYS_pipe : Z := 4.
Definition SYS_read : Z := 5.
Definition SYS_kill : Z := 6.
Definition SYS_exec : Z := 7.
Definition SYS_fstat : Z := 8.
Definition SYS_chdir : Z := 9.
Definition SYS_dup : Z := 10.
Definition SYS_getpid : Z := 11.
Definition SYS_sbrk : Z := 12.
Definition SYS_sleep : Z := 13.
Definition SYS_uptime : Z := 14.
Definition SYS_open : Z := 15.
Definition SYS_write : Z := 16.
Definition SYS_mknod : Z := 17.
Definition SYS_unlink : Z := 18.
Definition SYS_link : Z := 19.
Definition SYS_mkdir : Z := 20.
Definition SYS_close : Z := 21.

(** The functions behind the numbers, on the state [K] of the kernel. *)
Record sysfuns (K : Type) := SysFuns {
  c_fork : M K Z; c_exit : M K Z; c_wait : M K Z; c_pipe : M K Z; c_read : M K Z; c_kill : M K Z; c_exec : M K Z;
  c_fstat : M K Z; c_chdir : M K Z; c_dup : M K Z; c_getpid : M K Z; c_sbrk : M K Z; c_sleep : M K Z;
  c_uptime : M K Z; c_open : M K Z; c_write : M K Z; c_mknod : M K Z; c_unlink : M K Z; c_link : M K Z;
  c_mkdir : M K Z; c_close : M K Z;
}.
Section syscall.
Context {K : Type} (f : sysfuns K).

(** The array [syscalls], with its designated initialisers. *)
Definition syscalls_init : list (Z * M K Z) :=
  [(SYS_fork, c_fork K f); (SYS_exit, c_exit K f); (SYS_wait, c_wait K f); (SYS_pipe, c_pipe K f);
   (SYS_read, c_read K f); (SYS_kill, c_kill K f); (SYS_exec, c_exec K f); (SYS_fstat, c_fstat K f);
   (SYS_chdir, c_chdir K f); (SYS_dup, c_dup K f); (SYS_getpid, c_getpid K f); (SYS_sbrk, c_sbrk K f);
   (SYS_sleep, c_sleep K f); (SYS_uptime, c_uptime K f); (SYS_open, c_open K f); (SYS_write, c_write K f);
   (SYS_mknod, c_mknod K f); (SYS_unlink, c_unlink K f); (SYS_link, c_link K f); (SYS_mkdir, c_mkdir K f);
   (SYS_close, c_close K f)].
Definition syscalls : list (option (M K Z)) :=
  foldr (λ '(n, c), <[Z.to_nat n := Some c]>) (replicate (Z.to_nat (SYS_close + 1)) None) syscalls_init.

(** The registers [a7] and [a0] of the trapframe. *)
Context (get_a7 : K → Z) (set_a0 : Z → M K unit).
(** An unknown number is also reported on the console. *)
Definition syscall : M K unit :=
  let! a7 := gets get_a7 in
  let num := s32 a7 in
  if (0 <? num) && (num <? Z.of_nat (length syscalls)) then
    match mjoin (syscalls !! Z.to_nat num) with
    | Some call => let! r := call in set_a0 r
    | None => set_a0 (-1)
    end
  else set_a0 (-1).
End syscall.
