(* ===== verification/SysFile.v ===== *)
(** kernel/sysfile.c: the system calls on files.  The state is that of
    file.c together with what the calling process has of its own: its open
    files, current directory, size, page table and name.  [sys_exec] is with
    exec.c. *)

From S2P Require Import Prelude Riscv Mem Cstring Spinlock Sleeplock Kalloc Vm Bio FsLayout ProcMem Pipe Fs File Syscall.

Section sysfile.
Context {D : Type} `{BS : BlockStore D} {TX : Transactions D} {L : Linker}.

Record ksys := KSys {
  sy_k : fkern (D:=D);
  sy_ofile : list (option nat);   (* p->ofile *)
  sy_cwd : nat;                   (* p->cwd *)
  sy_sz : Z;                      (* p->sz *)
  sy_pagetable : Z;               (* p->pagetable *)
  sy_name : list Z;               (* p->name *)
}.
Definition set_sy_k x s := KSys x (sy_ofile s) (sy_cwd s) (sy_sz s) (sy_pagetable s) (sy_name s).
Definition set_sy_ofile x s := KSys (sy_k s) x (sy_cwd s) (sy_sz s) (sy_pagetable s) (sy_name s).
Definition set_sy_cwd x s := KSys (sy_k s) (sy_ofile s) x (sy_sz s) (sy_pagetable s) (sy_name s).
Definition kf {A} (m : M (fkern (D:=D)) A) : M ksys A := zoom sy_k set_sy_k m.
Definition kfs {A} (m : M (fsys (D:=D)) A) : M ksys A := kf (fs m).
Definition kram {A} (m : M kmem A) : M ksys A := kf (ram m).

(** [myproc()->pid], [->trapframe] and [->killed]; the device switch; the
    address of a local [struct dirent], and the bytes that local variables
    hold before they are set. *)
Context (pid trapframe : Z) (killed : bool).
Context (devsw_read devsw_write : Z → option (Z → Z → M (fkern (D:=D)) Z)).
Context (de : Z) (st_pad name0 : list Z).

Definition sys_argint (n : Z) : M ksys Z := kram (argint trapframe n).
Definition sys_argaddr (n : Z) : M ksys Z := kram (argaddr trapframe n).
Definition sys_argstr (n max : Z) : M ksys (option (list Z)) :=
  let! pagetable := gets sy_pagetable in
  kram (argstr pagetable trapframe n max).
Definition geti_ (ip : nat) : M ksys inode := kfs (geti ip).
Definition sys_namei (path : list Z) : M ksys (option nat) :=
  let! pagetable := gets sy_pagetable in
  let! cwd := gets sy_cwd in
  kfs (namei pid pagetable cwd de path name0).
Definition sys_nameiparent (path : list Z) : M ksys (option (nat * list Z)) :=
  let! pagetable := gets sy_pagetable in
  let! cwd := gets sy_cwd in
  kfs (nameiparent pid pagetable cwd de path name0).
Definition sys_dirlookup (dp : nat) (name : list Z) : M ksys (option (nat * Z)) :=
  let! pagetable := gets sy_pagetable in
  kfs (dirlookup pagetable de dp name).
Definition sys_dirlink (dp : nat) (name : list Z) (inum : Z) : M ksys Z :=
  let! pagetable := gets sy_pagetable in
  kfs (dirlink pid pagetable de dp name inum).
Definition sys_fileclose (f : nat) : M ksys unit := kf (fileclose pid f).

(** * Descriptors *)

(** Fetch the nth word-sized system call argument as a file descriptor and
    return both the descriptor and the corresponding struct file. *)
Definition argfd (n : Z) : M ksys (option (Z * nat)) :=
  let! fd := sys_argint n in
  if (fd <? 0) || (NOFILE <=? fd) then ret None
  else
    let! ofile := gets sy_ofile in
    match ofile !! Z.to_nat fd with
    | None => stuck
    | Some None => ret None
    | Some (Some f) => ret (Some (fd, f))
    end.

(** [for(fd = 0; fd < NOFILE; fd++)], up to a free entry. *)
Fixpoint free_fd (l : list (option nat)) (fd : Z) : option Z :=
  match l with
  | [] => None
  | None :: _ => Some fd
  | Some _ :: l' => free_fd l' (fd + 1)
  end.
(** Allocate a file descriptor for the given file. *)
Definition fdalloc (f : nat) : M ksys Z :=
  let! ofile := gets sy_ofile in
  match free_fd ofile 0 with
  | Some fd =>
      do! modify (set_sy_ofile (<[Z.to_nat fd := Some f]> ofile));
      ret fd
  | None => ret (-1)
  end.
Definition clear_fd (fd : Z) : M ksys unit :=
  modify (λ s, set_sy_ofile (<[Z.to_nat fd := None]> (sy_ofile s)) s).

Definition sys_dup : M ksys Z :=
  let! r := argfd 0 in
  match r with
  | None => ret (-1)
  | Some (_, f) =>
      let! fd := fdalloc f in
      if fd <? 0 then ret (-1)
      else
        do! kf (filedup f);
        ret fd
  end.
Definition sys_read : M ksys Z :=
  let! r := argfd 0 in
  match r with
  | None => ret (-1)
  | Some (_, f) =>
      let! n := sys_argint 2 in
      let! p := sys_argaddr 1 in
      let! pagetable := gets sy_pagetable in
      kf (fileread pid pagetable killed devsw_read f p n)
  end.
Definition sys_write : M ksys Z :=
  let! r := argfd 0 in
  match r with
  | None => ret (-1)
  | Some (_, f) =>
      let! n := sys_argint 2 in
      let! p := sys_argaddr 1 in
      let! pagetable := gets sy_pagetable in
      kf (filewrite pid pagetable killed devsw_write f p n)
  end.
Definition sys_close : M ksys Z :=
  let! r := argfd 0 in
  match r with
  | None => ret (-1)
  | Some (fd, f) =>
      do! clear_fd fd;
      do! sys_fileclose f;
      ret 0
  end.
Definition sys_fstat : M ksys Z :=
  let! r := argfd 0 in
  match r with
  | None => ret (-1)
  | Some (_, f) =>
      let! st := sys_argaddr 1 in
      let! pagetable := gets sy_pagetable in
      kf (filestat pid pagetable st_pad f st)
  end.

(** * Links *)

Definition inc_nlink (k : Z) (i : inode) : inode := Inode (i_dev i) (i_inum i) (i_ref i) (i_lock i) (i_valid i)
  (i_type i) (i_major i) (i_minor i) (s16 (i_nlink i + k)) (i_size i) (i_addrs i).

(** [bad:] of sys_link. *)
Definition link_bad (ip : nat) : M ksys Z :=
  do! kfs (ilock pid ip);
  do! kfs (updi ip (inc_nlink (-1)));
  do! kfs (iupdate ip);
  do! kfs (iunlockput pid ip);
  do! kf op_end;
  ret (-1).
(** Create the path new as a link to the same inode as old. *)
Definition sys_link : M ksys Z :=
  let! old := sys_argstr 0 MAXPATH in
  match old with None => ret (-1) | Some old =>
  let! new := sys_argstr 1 MAXPATH in
  match new with None => ret (-1) | Some new =>
  do! kf op_begin;
  let! ip := sys_namei old in
  match ip with
  | None =>
      do! kf op_end;
      ret (-1)
  | Some ip =>
      do! kfs (ilock pid ip);
      let! i := geti_ ip in
      if i_type i =? T_DIR then
        do! kfs (iunlockput pid ip);
        do! kf op_end;
        ret (-1)
      else
        do! kfs (updi ip (inc_nlink 1));
        do! kfs (iupdate ip);
        do! kfs (iunlock pid ip);
        let! dp := sys_nameiparent new in
        match dp with
        | None => link_bad ip
        | Some (dp, name) =>
            do! kfs (ilock pid dp);
            let! d := geti_ dp in
            let! i := geti_ ip in
            let! r := (if negb (i_dev d =? i_dev i) then ret (-1) else sys_dirlink dp name (i_inum i)) in
            if r <? 0 then
              do! kfs (iunlockput pid dp);
              link_bad ip
            else
              do! kfs (iunlockput pid dp);
              do! kfs (iput pid ip);
              do! kf op_end;
              ret 0
        end
  end end end.

(** Is the directory dp empty except for "." and ".." ? *)
Definition isdirempty (dp : nat) : M ksys bool :=
  let! pagetable := gets sy_pagetable in
  let! i := geti_ dp in
  loop (Z.to_nat (i_size i / sizeof_dirent) + 2) (λ off,
    let! i := geti_ dp in
    if off <? i_size i then
      let! r := kfs (readi pagetable dp false de off sizeof_dirent) in
      if negb (r =? sizeof_dirent) then panic "isdirempty: readi"
      else
        let! e := kfs (read_dirent de) in
        if negb (de_inum e =? 0) then ret (inr false) else ret (inl (off + sizeof_dirent))
    else ret (inr true)) (2 * sizeof_dirent).

(** [bad:] of sys_unlink. *)
Definition unlink_bad (dp : nat) : M ksys Z :=
  do! kfs (iunlockput pid dp);
  do! kf op_end;
  ret (-1).
Definition sys_unlink : M ksys Z :=
  let! path := sys_argstr 0 MAXPATH in
  match path with None => ret (-1) | Some path =>
  do! kf op_begin;
  let! dp := sys_nameiparent path in
  match dp with
  | None =>
      do! kf op_end;
      ret (-1)
  | Some (dp, name) =>
      do! kfs (ilock pid dp);
      (* Cannot unlink "." or "..". *)
      if (namecmp name [46] =? 0) || (namecmp name [46; 46] =? 0) then unlink_bad dp
      else
        let! r := sys_dirlookup dp name in
        match r with
        | None => unlink_bad dp
        | Some (ip, off) =>
            do! kfs (ilock pid ip);
            let! i := geti_ ip in
            if i_nlink i <? 1 then panic "unlink: nlink < 1"
            else
              let! busy := (if i_type i =? T_DIR then let! e := isdirempty ip in ret (negb e) else ret false) in
              if busy : bool then
                do! kfs (iunlockput pid ip);
                unlink_bad dp
              else
                do! kram (modify (upd_mem (λ m, memset m de 0 sizeof_dirent)));
                let! pagetable := gets sy_pagetable in
                let! r := kfs (writei pagetable dp false de off sizeof_dirent) in
                if negb (r =? sizeof_dirent) then panic "unlink: writei"
                else
                  do! when (i_type i =? T_DIR)
                    (do! kfs (updi dp (inc_nlink (-1)));
                     kfs (iupdate dp));
                  do! kfs (iunlockput pid dp);
                  do! kfs (updi ip (inc_nlink (-1)));
                  do! kfs (iupdate ip);
                  do! kfs (iunlockput pid ip);
                  do! kf op_end;
                  ret 0
        end
  end end.

(** * Making and opening files *)

Definition new_inode (major minor : Z) (i : inode) : inode := Inode (i_dev i) (i_inum i) (i_ref i) (i_lock i) (i_valid i)
  (i_type i) major minor 1 (i_size i) (i_addrs i).
Definition create (path : list Z) (type major minor : Z) : M ksys (option nat) :=
  let! r := sys_nameiparent path in
  match r with
  | None => ret None
  | Some (dp, name) =>
      do! kfs (ilock pid dp);
      let! r := sys_dirlookup dp name in
      match r with
      | Some (ip, _) =>
          do! kfs (iunlockput pid dp);
          do! kfs (ilock pid ip);
          let! i := geti_ ip in
          if (type =? T_FILE) && ((i_type i =? T_FILE) || (i_type i =? T_DEVICE)) then ret (Some ip)
          else
            do! kfs (iunlockput pid ip);
            ret None
      | None =>
          let! d := geti_ dp in
          let! ip := kfs (ialloc (i_dev d) type) in
          do! kfs (ilock pid ip);
          do! kfs (updi ip (new_inode major minor));
          do! kfs (iupdate ip);
          let! i := geti_ ip in
          do! when (type =? T_DIR)          (* Create . and .. entries. *)
            (do! kfs (updi dp (inc_nlink 1));   (* for ".." *)
             do! kfs (iupdate dp);
             let! r := sys_dirlink ip [46] (i_inum i) in
             let! r := (if r <? 0 then ret r else sys_dirlink ip [46; 46] (i_inum d)) in
             if r <? 0 then panic "create dots" else ret tt);
          let! r := sys_dirlink dp name (i_inum i) in
          if r <? 0 then panic "create: dirlink"
          else
            do! kfs (iunlockput pid dp);
            ret (Some ip)
      end
  end.

(** Give up an open: unlock and release the inode and end the call. *)
Definition open_fail (ip : nat) : M ksys Z :=
  do! kfs (iunlockput pid ip);
  do! kf op_end;
  ret (-1).
(** The inode to open, locked. *)
Definition open_inode (path : list Z) (omode : Z) : M ksys (option nat) :=
  if truth (Z.land omode O_CREATE) then
    let! ip := create path T_FILE 0 0 in
    match ip with
    | None => do! kf op_end; ret None
    | Some ip => ret (Some ip)
    end
  else
    let! ip := sys_namei path in
    match ip with
    | None => do! kf op_end; ret None
    | Some ip =>
        do! kfs (ilock pid ip);
        let! i := geti_ ip in
        if (i_type i =? T_DIR) && negb (omode =? O_RDONLY) then
          do! open_fail ip;
          ret None
        else ret (Some ip)
    end.
Definition opened (i : inode) (ip : nat) (omode : Z) (f : file) : file :=
  let f := if i_type i =? T_DEVICE then f_set_major (i_major i) (f_set_type FD_DEVICE f)
           else f_set_off 0 (f_set_type FD_INODE f) in
  f_set_mode (negb (truth (Z.land omode O_WRONLY))) (truth (Z.land omode O_WRONLY) || truth (Z.land omode O_RDWR))
    (f_set_ip ip f).
Definition sys_open : M ksys Z :=
  let! path := sys_argstr 0 MAXPATH in
  match path with None => ret (-1) | Some path =>
  let! omode := sys_argint 1 in
  do! kf op_begin;
  let! ip := open_inode path omode in
  match ip with None => ret (-1) | Some ip =>
  let! i := geti_ ip in
  if (i_type i =? T_DEVICE) && ((i_major i <? 0) || (NDEV <=? i_major i)) then open_fail ip
  else
    let! f := kf filealloc in
    match f with
    | None => open_fail ip
    | Some f =>
        let! fd := fdalloc f in
        if fd <? 0 then
          do! sys_fileclose f;
          open_fail ip
        else
          do! kf (updf f (opened i ip omode));
          do! when (truth (Z.land omode O_TRUNC) && (i_type i =? T_FILE)) (kfs (itrunc ip));
          do! kfs (iunlock pid ip);
          do! kf op_end;
          ret fd
    end
  end end.

(** The end of sys_mkdir and sys_mknod. *)
Definition made (ip : option nat) : M ksys Z :=
  match ip with
  | None =>
      do! kf op_end;
      ret (-1)
  | Some ip =>
      do! kfs (iunlockput pid ip);
      do! kf op_end;
      ret 0
  end.
Definition sys_mkdir : M ksys Z :=
  do! kf op_begin;
  let! path := sys_argstr 0 MAXPATH in
  let! ip := match path with None => ret None | Some path => create path T_DIR 0 0 end in
  made ip.
Definition sys_mknod : M ksys Z :=
  do! kf op_begin;
  let! path := sys_argstr 0 MAXPATH in
  let! ip := match path with
             | None => ret None
             | Some path =>
                 let! major := sys_argint 1 in
                 let! minor := sys_argint 2 in
                 create path T_DEVICE (s16 major) (s16 minor)
             end in
  made ip.

Definition sys_chdir : M ksys Z :=
  do! kf op_begin;
  let! path := sys_argstr 0 MAXPATH in
  let! ip := match path with None => ret None | Some path => sys_namei path end in
  match ip with
  | None =>
      do! kf op_end;
      ret (-1)
  | Some ip =>
      do! kfs (ilock pid ip);
      let! i := geti_ ip in
      if negb (i_type i =? T_DIR) then
        do! kfs (iunlockput pid ip);
        do! kf op_end;
        ret (-1)
      else
        do! kfs (iunlock pid ip);
        let! cwd := gets sy_cwd in
        do! kfs (iput pid cwd);
        do! kf op_end;
        do! modify (set_sy_cwd ip);
        ret 0
  end.

(** * Pipes *)

(** Close both ends of a pipe that could not be handed out. *)
Definition pipe_fail (rf wf : nat) : M ksys Z :=
  do! sys_fileclose rf;
  do! sys_fileclose wf;
  ret (-1).
Definition put_int (addr x : Z) : M ksys Z :=
  let! pagetable := gets sy_pagetable in
  kram (copyout pagetable addr (le_split 4 x) 4).
Definition sys_pipe : M ksys Z :=
  let! fdarray := sys_argaddr 0 in
  let! r := kf (pipealloc pid) in
  match r with
  | None => ret (-1)
  | Some (rf, wf) =>
      let! fd0 := fdalloc rf in
      if fd0 <? 0 then pipe_fail rf wf
      else
        let! fd1 := fdalloc wf in
        if fd1 <? 0 then
          do! clear_fd fd0;
          pipe_fail rf wf
        else
          let! r := put_int fdarray fd0 in
          let! r := (if r <? 0 then ret r else put_int (u64 (fdarray + 4)) fd1) in
          if r <? 0 then
            do! clear_fd fd0;
            do! clear_fd fd1;
            pipe_fail rf wf
          else ret 0
  end.
End sysfile.
