(* ===== verification/FileTable.v ===== *)
(** The open files: what fork and exit of kernel/proc.c do with them, and the
    table of file.c under the system calls of all processes.  The reference
    count of a file is the number of descriptors that name it, whatever the
    calls do and however they fail. *)

From S2P Require Import Prelude Riscv Mem Cstring Spinlock Sleeplock Kalloc Vm Bio FsLayout ProcMem Pipe Fs File Syscall SysFile.

(** * fork and exit *)

Section files.
Context {D : Type} `{BS : BlockStore D} {TX : Transactions D} {L : Linker}.
Context (pid : Z).

(** [if(p->ofile[i]) np->ofile[i] = filedup(p->ofile[i])], for the entries [l]. *)
Fixpoint dup_ofile (l : list (option nat)) : M (ksys (D:=D)) (list (option nat)) :=
  match l with
  | [] => ret []
  | None :: l' => let! r := dup_ofile l' in ret (None :: r)
  | Some f :: l' =>
      let! f' := kf (filedup f) in
      let! r := dup_ofile l' in
      ret (Some f' :: r)
  end.
(** The open files and the current directory of the child. *)
Definition fork_files : M (ksys (D:=D)) (list (option nat) * nat) :=
  let! ofile := gets sy_ofile in
  let! o := dup_ofile ofile in
  let! cwd := gets sy_cwd in
  let! cwd' := kfs (idup cwd) in
  ret (o, cwd').

(** Close the descriptors [fds] of a process that exits. *)
Fixpoint close_ofile (fds : list Z) : M (ksys (D:=D)) unit :=
  match fds with
  | [] => ret tt
  | fd :: fds' =>
      let! ofile := gets sy_ofile in
      do! match ofile !! Z.to_nat fd with
          | None => stuck
          | Some None => ret tt
          | Some (Some f) =>
              do! sys_fileclose pid f;
              clear_fd fd
          end;
      close_ofile fds'
  end.
Definition exit_files : M (ksys (D:=D)) unit :=
  do! close_ofile (seqZ 0 NOFILE);
  do! kf op_begin;
  let! cwd := gets sy_cwd in
  do! kfs (iput pid cwd);
  kf op_end.
End files.

(** * Counting *)

(** How often [f] is named. *)
Definition refs (l : list nat) (f : nat) : Z := Z.of_nat (length (filter (λ g, g = f) l)).
Lemma refs_cons l f g : refs (g :: l) f = (if decide (g = f) then 1 else 0) + refs l f.
Proof. unfold refs. rewrite filter_cons. case_decide; simpl; lia. Qed.
Lemma refs_perm l l' f : l ≡ₚ l' → refs l f = refs l' f.
Proof. intros E. unfold refs. by rewrite E. Qed.
Lemma refs_in l f : f ∈ l ↔ 0 < refs l f.
Proof.
  induction l as [|g l IH]; [rewrite elem_of_nil; unfold refs; simpl; lia|]. rewrite elem_of_cons, refs_cons, IH. case_decide; unfold refs in *; naive_solver lia.
Qed.
Lemma refs_nonneg l f : 0 ≤ refs l f.
Proof. unfold refs. lia. Qed.
(** The files a table of descriptors names. *)
Definition named (o : list (option nat)) : list nat := omap id o.
Lemma named_put o i f : o !! i = Some None → named (<[i := Some f]> o) ≡ₚ f :: named o.
Proof.
  intros Hi. rewrite <- (take_drop_middle o i None Hi) at 2. rewrite (insert_take_drop o i (Some f)) by by eapply lookup_lt_Some.
  unfold named. rewrite !omap_app. simpl. solve_Permutation.
Qed.
Lemma named_drop o i f : o !! i = Some (Some f) → f :: named (<[i := None]> o) ≡ₚ named o.
Proof.
  intros Hi. rewrite <- (take_drop_middle o i (Some f) Hi) at 2. rewrite (insert_take_drop o i None) by by eapply lookup_lt_Some.
  unfold named. rewrite !omap_app. simpl. solve_Permutation.
Qed.
Lemma free_fd_some o k fd : SysFile.free_fd o k = Some fd → 0 ≤ fd - k ∧ o !! Z.to_nat (fd - k) = Some None.
Proof.
  revert k. induction o as [|[g|] o IH]; intros k; [done| |]; simpl.
  - intros [H1 H2]%IH. split; [lia|]. by replace (Z.to_nat (fd - k)) with (S (Z.to_nat (fd - (k + 1)))) by lia.
  - intros [= ->]. by rewrite Z.sub_diag.
Qed.

(** * The table *)

Create HintDb files.

Section typed.
Context {D : Type} `{BS : BlockStore D} {TX : Transactions D} {L : Linker}.
Abbreviation fk := (fkern (D:=D)).
Abbreviation ks := (ksys (D:=D)).

(** [l] are the files in use, once for each use; those of [N] have been
    allocated and have no type yet. *)
Record typed (k : fk) (l N : list nat) : Prop := {
  ty_len : length (ft_file k) = Z.to_nat NFILE;
  ty_lock : ft_lock k = false;
  ty_held : ∀ f, f ∈ l → (f < length (ft_file k))%nat;
  ty_ref : ∀ f x, ft_file k !! f = Some x → f_ref x = refs l f ∧ (f_type x = FD_NONE ↔ f_ref x = 0 ∨ f ∈ N);
  ty_new : ∀ f, f ∈ N → refs l f = 1;
}.
Lemma typed_perm k l l' N : l ≡ₚ l' → typed k l N → typed k l' N.
Proof.
  intros E []. split; try done.
  - intros f. rewrite <- E. apply ty_held0.
  - intros f x. rewrite <- (refs_perm _ _ f E). apply ty_ref0.
  - intros f. rewrite <- (refs_perm _ _ f E). apply ty_new0.
Qed.
(** The file table is as it was. *)
Definition same_table (k k' : fk) : Prop := ft_file k' = ft_file k ∧ ft_lock k' = ft_lock k.
Lemma typed_same k k' l N : same_table k k' → typed k l N → typed k' l N.
Proof. intros [E1 E2] []. split; rewrite ?E1, ?E2; done. Qed.
(** One file has changed. *)
Lemma typed_upd k l l' N N' f x y : typed k l N → ft_file k !! f = Some x → f_ref y = refs l' f → (f_type y = FD_NONE ↔ f_ref y = 0 ∨ f ∈ N') →
  (∀ g, g ≠ f → refs l' g = refs l g ∧ (g ∈ N' ↔ g ∈ N)) → (f ∈ N' → refs l' f = 1) →
  typed (set_ft_file (<[f := y]> (ft_file k)) k) l' N'.
Proof.
  intros [] Hx Hr Ht Hg Hn. pose proof (lookup_lt_Some _ _ _ Hx) as Hlt. split; simpl; try done.
  - by rewrite length_insert.
  - intros g Hin. rewrite length_insert. destruct (decide (g = f)) as [->|Hne]; [done|]. apply ty_held0. apply refs_in. rewrite <- (proj1 (Hg g Hne)). by apply refs_in.
  - intros g z [(<- & <- & _)|[Hne Hz]]%list_lookup_insert_Some; [done|]. destruct (Hg g ltac:(done)) as [-> ->]. by apply ty_ref0.
  - intros g Hin. destruct (decide (g = f)) as [->|Hne]; [by apply Hn|]. destruct (Hg g Hne) as [-> ?]. naive_solver.
Qed.

(** [m] does not touch the file table. *)
Definition keeps {A} (m : M fk A) : Prop := ∀ k, wlp m (λ _ k', same_table k k') k.
Lemma wlp_keeps {A} (m : M fk A) (Q : A → fk → Prop) k : keeps m → (∀ a k', same_table k k' → Q a k') → wlp m Q k.
Proof. intros Hm HQ. eapply wlp_mono; [apply Hm|]. auto. Qed.
Lemma keeps_fs {A} (m : M (fsys (D:=D)) A) : keeps (fs m).
Proof. intros k. by apply wlp_zoom_any. Qed.
Lemma keeps_pipe {A} pi (m : M pstate A) : keeps (pipe_op pi m).
Proof. intros k. unfold wlp, pipe_op. destruct (fk_pipes k !! pi) as [p|]; [|done]. by destruct (m _). Qed.
Lemma keeps_close_pipe pi w : keeps (close_pipe pi w).
Proof.
  intros k. apply wlp_bind. eapply wlp_mono; [apply keeps_pipe|]. intros [] k' Hs. apply wlp_modify.
  destruct (fk_pipes k' !! pi) as [p|]; [|done]. by destruct (negb (p_readopen p) && negb (p_writeopen p)).
Qed.

Lemma free_file_some l n f : free_file l n = Some f → ∃ x, (n ≤ f)%nat ∧ l !! (f - n)%nat = Some x ∧ f_ref x = 0.
Proof.
  revert n. induction l as [|x l IH]; intros n; [done|]. simpl. destruct (Z.eqb_spec (f_ref x) 0) as [E|_].
  - intros [= ->]. exists x. by rewrite Nat.sub_diag.
  - intros (y & Hle & Hy & E)%IH. exists y. split_and!; [lia| |done]. by replace (f - n)%nat with (S (f - S n)) by lia.
Qed.
Lemma filealloc_spec k l N : typed k l N → wp filealloc (λ r k', match r with
  | Some f => f ∉ l ∧ typed k' (f :: l) (f :: N)
  | None => typed k' l N
  end) k.
Proof.
  intros Ht. unfold filealloc. apply wp_bind, wp_lock_acquire; [apply Ht|]. apply wp_bind, wp_gets. simpl.
  destruct (free_file (ft_file k) 0) as [f|] eqn:E.
  - apply free_file_some in E as (x & _ & Hx & E0). rewrite Nat.sub_0_r in Hx. destruct (ty_ref _ _ _ Ht f x Hx) as [Er _].
    assert (f ∉ l) as Hf by (rewrite refs_in; lia).
    apply wp_bind, wp_modify, wp_bind, wp_lock_release; [done|]. apply wp_ret. split; [done|]. simpl.
    eapply typed_same; [|eapply (typed_upd k l (f :: l) N (f :: N) f x (f_set_ref 1 x) Ht Hx)].
    + split; simpl; [by rewrite (alter_lookup _ _ _ _ Hx)|]. symmetry. apply Ht.
    + simpl. rewrite refs_cons, decide_True by done. lia.
    + simpl. split; [intros _; right; by left|]. intros _. apply (ty_ref _ _ _ Ht f x Hx). by left.
    + intros g Hne. rewrite refs_cons, decide_False by done. split; [lia|]. rewrite elem_of_cons. naive_solver.
    + intros _. rewrite refs_cons, decide_True by done. lia.
  - apply wp_bind, wp_lock_release; [done|]. apply wp_ret. eapply typed_same; [|exact Ht]. split; [done|]. symmetry. apply Ht.
Qed.
Lemma typed_lookup k l N f : typed k l N → f ∈ l → ∃ x, ft_file k !! f = Some x ∧ f_ref x = refs l f ∧ 1 ≤ f_ref x.
Proof.
  intros Ht Hf. destruct (lookup_lt_is_Some_2 _ _ (ty_held _ _ _ Ht f Hf)) as [x Hx]. destruct (ty_ref _ _ _ Ht f x Hx) as [Er _].
  exists x. split_and!; [done|done|]. apply refs_in in Hf. lia.
Qed.
Lemma filedup_spec k l N f : typed k l N → f ∈ l → f ∉ N → wp (filedup f) (λ r k', r = f ∧ typed k' (f :: l) N) k.
Proof.
  intros Ht Hf HN. destruct (typed_lookup _ _ _ _ Ht Hf) as (x & Hx & Er & H1). destruct (ty_ref _ _ _ Ht f x Hx) as [_ HT].
  unfold filedup. apply wp_bind, wp_lock_acquire; [apply Ht|]. apply wp_bind. unfold getf, wp at 1. simpl. rewrite Hx.
  rewrite (proj2 (Z.ltb_ge _ _)) by lia. apply wp_bind, wp_modify, wp_bind, wp_lock_release; [done|]. apply wp_ret. split; [done|].
  eapply typed_same; [|eapply (typed_upd k l (f :: l) N N f x (f_set_ref (f_ref x + 1) x) Ht Hx)].
  - split; simpl; [by rewrite (alter_lookup _ _ _ _ Hx)|]. symmetry. apply Ht.
  - simpl. rewrite refs_cons, decide_True by done. lia.
  - simpl. rewrite HT. split; intros [?|?]; try done; lia.
  - intros g Hne. rewrite refs_cons, decide_False by done. split; [lia|done].
  - done.
Qed.
(** One use of a file less. *)
Definition minus (f : nat) (N : list nat) : list nat := filter (λ g, g ≠ f) N.
Lemma minus_in f N g : g ∈ minus f N ↔ g ∈ N ∧ g ≠ f.
Proof. unfold minus. rewrite list_elem_of_filter. tauto. Qed.
Lemma wlp_ft_acquire k (Q : unit → fk → Prop) : Q tt (set_ft_lock true k) → wlp ft_acquire Q k.
Proof. intros HQ. apply wlp_zoom. unfold wlp, Lock.lk_acquire. by destruct (ft_lock k). Qed.
Lemma wlp_ft_release k (Q : unit → fk → Prop) : Q tt (set_ft_lock false k) → wlp ft_release Q k.
Proof. intros HQ. apply wlp_zoom. unfold wlp, Lock.lk_release. by destruct (ft_lock k). Qed.
Lemma wlp_getf k f x (Q : file → fk → Prop) : ft_file k !! f = Some x → Q x k → wlp (getf f) Q k.
Proof. intros Hx HQ. unfold wlp, getf. by rewrite Hx. Qed.
Lemma refs_close l f g : g ≠ f → refs l g = refs (f :: l) g.
Proof. intros Hne. rewrite refs_cons, decide_False by done. lia. Qed.
Lemma fileclose_spec pid k l N f : typed k (f :: l) N → wlp (fileclose pid f) (λ _ k', typed k' l (minus f N)) k.
Proof.
  intros Ht. destruct (typed_lookup k (f :: l) N f Ht ltac:(by left)) as (x & Hx & Er & H1). pose proof (ty_lock _ _ _ Ht) as Hl.
  destruct (ty_ref _ _ _ Ht f x Hx) as [_ HT]. assert (f ∈ N → f_ref x = 1) as HN by (intros Hn; rewrite Er; by apply Ht).
  rewrite refs_cons, decide_True in Er by done.
  unfold fileclose. apply wlp_bind, wlp_ft_acquire, wlp_bind. eapply wlp_getf; [exact Hx|]. rewrite (proj2 (Z.ltb_ge _ _)) by lia.
  apply wlp_bind, wlp_modify. simpl. rewrite (alter_lookup _ _ _ _ Hx). destruct (Z.ltb_spec 0 (f_ref x - 1)) as [Hlt|Hle].
  - apply wlp_ft_release. eapply typed_same; [|eapply (typed_upd k (f :: l) l N (minus f N) f x (f_set_ref (f_ref x - 1) x) Ht Hx)].
    + by split.
    + simpl. lia.
    + simpl. rewrite HT, minus_in. split; [intros [?|?%HN]; lia|]. intros [?|[_ []]]; [lia|done].
    + intros g Hne. rewrite (refs_close l f g Hne), minus_in. tauto.
    + intros [_ []]%minus_in. done.
  - assert (typed (set_ft_file (<[f := f_set_type FD_NONE (f_set_ref 0 x)]> (ft_file k)) k) l (minus f N)) as Hk.
    { eapply (typed_upd k (f :: l) l N (minus f N) f x _ Ht Hx).
      - simpl. lia.
      - simpl. split; auto.
      - intros g Hne. rewrite (refs_close l f g Hne), minus_in. tauto.
      - intros [_ []]%minus_in. done. }
    apply wlp_bind. eapply wlp_getf; [apply list_lookup_insert_eq; by eapply lookup_lt_Some|]. apply wlp_bind, wlp_modify, wlp_bind, wlp_ft_release.
    match goal with |- wlp _ _ ?k' => assert (typed k' l (minus f N)) as Hk' end.
    { eapply typed_same; [|exact Hk]. split; simpl; [|done]. by rewrite alter_insert. }
    clear Hk. simpl f_type. destruct (f_type x).
    + by apply wlp_ret.
    + eapply wlp_keeps; [apply keeps_close_pipe|]. intros [] k' Hs. by eapply typed_same.
    + apply wlp_bind. eapply wlp_keeps; [apply keeps_fs|]. intros [] k1 Hs1. apply wlp_bind. eapply wlp_keeps; [apply keeps_fs|]. intros [] k2 Hs2.
      eapply wlp_keeps; [apply keeps_fs|]. intros [] k3 Hs3. do 3 (eapply typed_same; [done|]). done.
    + apply wlp_bind. eapply wlp_keeps; [apply keeps_fs|]. intros [] k1 Hs1. apply wlp_bind. eapply wlp_keeps; [apply keeps_fs|]. intros [] k2 Hs2.
      eapply wlp_keeps; [apply keeps_fs|]. intros [] k3 Hs3. do 3 (eapply typed_same; [done|]). done.
Qed.

(** * Operations that keep the count *)

Definition holds {A} (m : M fk A) : Prop := ∀ k l N, typed k l N → wlp m (λ _ k', typed k' l N) k.
Lemma holds_ret {A} (a : A) : holds (ret a).
Proof. intros k l N Ht. by apply wlp_ret. Qed.
Lemma holds_bind {A B} (m : M fk A) (g : A → M fk B) : holds m → (∀ a, holds (g a)) → holds (bind m g).
Proof. intros Hm Hg k l N Ht. apply wlp_bind. eapply wlp_mono; [by apply Hm|]. intros a k' Ht'. by apply Hg. Qed.
Lemma holds_keeps {A} (m : M fk A) : keeps m → holds m.
Proof. intros Hm k l N Ht. eapply wlp_keeps; [done|]. intros a k' Hs. by eapply typed_same. Qed.
Lemma holds_panic {A} msg : holds (A:=A) (panic msg).
Proof. intros k l N _. apply wlp_panic. Qed.
Lemma holds_sleep {A} c : holds (A:=A) (sleep_on c).
Proof. by intros k l N _. Qed.
Lemma holds_getf f : holds (getf f).
Proof. apply holds_keeps. intros k. unfold wlp, getf. by destruct (ft_file k !! f). Qed.
Lemma holds_when b (m : M fk unit) : holds m → holds (when b m).
Proof. intros Hm. destruct b; [done|apply holds_ret]. Qed.
Lemma holds_loop {A B} (body : A → M fk (A + B)) fuel a : (∀ a, holds (body a)) → holds (loop fuel body a).
Proof.
  intros Hb. revert a. induction fuel as [|fuel IH]; intros a; [by intros k l N _|]. simpl. apply holds_bind; [done|].
  intros [a'|b]; [apply IH|apply holds_ret].
Qed.
Lemma holds_off f x : holds (updf f (f_set_off x)).
Proof.
  intros k l N Ht. apply wlp_modify. destruct (ft_file k !! f) as [y|] eqn:Hy.
  - rewrite (alter_lookup _ _ _ _ Hy). destruct (ty_ref _ _ _ Ht f y Hy). eapply typed_upd; [exact Ht|exact Hy|done|done|done|apply Ht].
  - eapply typed_same; [|exact Ht]. split; [|done]. simpl. apply list_eq. intros j. destruct (decide (f = j)) as [<-|Hne].
    + by rewrite list_lookup_alter_eq, Hy.
    + by rewrite list_lookup_alter_ne.
Qed.
End typed.
#[export] Hint Resolve holds_ret holds_panic holds_sleep holds_getf holds_off holds_keeps keeps_fs keeps_pipe keeps_close_pipe : files.
Ltac holds_step := first
  [ progress intros | apply holds_bind | apply holds_when | apply holds_loop | solve [eauto with files]
  | match goal with |- holds (if ?b then _ else _) => destruct b | |- holds (match ?x with _ => _ end) => destruct x end ].
Ltac solve_holds := repeat holds_step.

Section calls.
Context {D : Type} `{BS : BlockStore D} {TX : Transactions D} {L : Linker}.
Abbreviation fk := (fkern (D:=D)).
Abbreviation ks := (ksys (D:=D)).
(** What the table relies on: the functions of the devices leave it alone. *)
Definition dev_holds (devsw : Z → option (Z → Z → M fk Z)) : Prop := ∀ major g addr n, devsw major = Some g → holds (g addr n).
Lemma holds_device devsw major g addr n : dev_holds devsw → device devsw major = Some g → holds (g addr n).
Proof. intros Hd. unfold device. case_match; [done|]. by apply Hd. Qed.
Lemma fileread_holds pid pagetable killed devsw f addr n : dev_holds devsw → holds (fileread pid pagetable killed devsw f addr n).
Proof.
  intros Hd. unfold fileread, ram. apply holds_bind; [eauto with files|]. intros x. destruct (negb (f_readable x)); [eauto with files|].
  destruct (f_type x); [eauto with files|solve_holds|solve_holds|].
  destruct (device devsw (f_major x)) as [g|] eqn:E; [by eapply holds_device|eauto with files].
Qed.
Lemma filewrite_holds pid pagetable killed devsw f addr n : dev_holds devsw → holds (filewrite pid pagetable killed devsw f addr n).
Proof.
  intros Hd. unfold filewrite, ram. apply holds_bind; [eauto with files|]. intros x. destruct (negb (f_writable x)); [eauto with files|].
  destruct (f_type x); [eauto with files|solve_holds| |].
  - unfold filewrite_round, filewrite_piece, op_begin, op_end. solve_holds.
  - destruct (device devsw (f_major x)) as [g|] eqn:E; [by eapply holds_device|eauto with files].
Qed.
Lemma filestat_holds pid pagetable pad f addr : holds (filestat pid pagetable pad f addr).
Proof. unfold filestat, ram. solve_holds. Qed.

(** System calls that leave descriptors alone. *)
Definition kholds {A} (m : M ks A) : Prop := ∀ s l N, typed (sy_k s) l N → wlp m (λ _ s', typed (sy_k s') l N ∧ sy_ofile s' = sy_ofile s) s.
Lemma kholds_ret {A} (a : A) : kholds (ret a).
Proof. intros s l N Ht. by apply wlp_ret. Qed.
Lemma kholds_gets {A} (g : ks → A) : kholds (gets g).
Proof. intros s l N Ht. by apply wlp_gets. Qed.
Lemma kholds_panic {A} msg : kholds (A:=A) (panic msg).
Proof. intros s l N _. apply wlp_panic. Qed.
Lemma kholds_stuck {A} : kholds (A:=A) stuck.
Proof. intros s l N _. apply wlp_stuck. Qed.
Lemma kholds_cwd x : kholds (modify (set_sy_cwd x)).
Proof. intros s l N Ht. by apply wlp_modify. Qed.
Lemma kholds_bind {A B} (m : M ks A) (g : A → M ks B) : kholds m → (∀ a, kholds (g a)) → kholds (bind m g).
Proof.
  intros Hm Hg s l N Ht. apply wlp_bind. eapply wlp_mono; [by apply Hm|]. intros a s1 [Ht1 E1].
  eapply wlp_mono; [by apply Hg|]. intros b s2 [Ht2 E2]. split; [done|congruence].
Qed.
Lemma kholds_kf {A} (m : M fk A) : holds m → kholds (kf m).
Proof. intros Hm s l N Ht. apply wlp_zoom. eapply wlp_mono; [by apply Hm|]. intros a k' Ht'. done. Qed.
Lemma kholds_when b (m : M ks unit) : kholds m → kholds (when b m).
Proof. intros Hm. destruct b; [done|apply kholds_ret]. Qed.
Lemma kholds_loop {A B} (body : A → M ks (A + B)) fuel a : (∀ a, kholds (body a)) → kholds (loop fuel body a).
Proof.
  intros Hb. revert a. induction fuel as [|fuel IH]; intros a; [by intros s l N _|]. simpl. apply kholds_bind; [done|].
  intros [a'|b]; [apply IH|apply kholds_ret].
Qed.
Lemma kholds_kfs {A} (m : M (fsys (D:=D)) A) : kholds (kfs m).
Proof. apply kholds_kf, holds_keeps, keeps_fs. Qed.
Lemma kholds_kram {A} (m : M kmem A) : kholds (kram m).
Proof. apply kholds_kf, holds_keeps, keeps_fs. Qed.
Lemma kholds_op_begin : kholds (kf op_begin).
Proof. apply kholds_kfs. Qed.
Lemma kholds_op_end : kholds (kf op_end).
Proof. apply kholds_kfs. Qed.
End calls.
#[export] Hint Resolve kholds_ret kholds_gets kholds_panic kholds_stuck kholds_cwd kholds_kfs kholds_kram kholds_op_begin kholds_op_end : files.
Ltac kholds_step := first
  [ progress intros | apply kholds_bind | apply kholds_when | apply kholds_loop | solve [eauto with files]
  | match goal with |- kholds (if ?b then _ else _) => destruct b | |- kholds (match ?x with _ => _ end) => destruct x end ].
Ltac solve_kholds := repeat kholds_step.

Section syscalls.
Context {D : Type} `{BS : BlockStore D} {TX : Transactions D} {L : Linker}.
Abbreviation ks := (ksys (D:=D)).
Context (pid trapframe : Z) (killed : bool) (de : Z) (st_pad name0 : list Z).
Lemma argint_holds n : kholds (D:=D) (sys_argint trapframe n).
Proof using. apply kholds_kram. Qed.
Lemma argaddr_holds n : kholds (D:=D) (sys_argaddr trapframe n).
Proof using. apply kholds_kram. Qed.
Lemma argstr_holds n max : kholds (D:=D) (sys_argstr trapframe n max).
Proof using. unfold sys_argstr. solve_kholds. Qed.
Lemma namei_holds path : kholds (D:=D) (sys_namei pid de name0 path).
Proof using. unfold sys_namei. solve_kholds. Qed.
Lemma nameiparent_holds path : kholds (D:=D) (sys_nameiparent pid de name0 path).
Proof using. unfold sys_nameiparent. solve_kholds. Qed.
Lemma dirlookup_holds dp name : kholds (D:=D) (sys_dirlookup de dp name).
Proof using. unfold sys_dirlookup. solve_kholds. Qed.
Lemma dirlink_holds dp name inum : kholds (D:=D) (sys_dirlink pid de dp name inum).
Proof using. unfold sys_dirlink. solve_kholds. Qed.
Hint Resolve argint_holds argaddr_holds argstr_holds namei_holds nameiparent_holds dirlookup_holds dirlink_holds : files.
Lemma geti_holds ip : kholds (D:=D) (geti_ ip).
Proof using. apply kholds_kfs. Qed.
Hint Resolve geti_holds : files.
Lemma link_holds : kholds (D:=D) (sys_link pid trapframe de name0).
Proof using. unfold sys_link, link_bad. solve_kholds. Qed.
Lemma unlink_holds : kholds (D:=D) (sys_unlink pid trapframe de name0).
Proof using. unfold sys_unlink, unlink_bad, isdirempty. solve_kholds. Qed.
Lemma create_holds path type major minor : kholds (D:=D) (create pid de name0 path type major minor).
Proof using. unfold create. solve_kholds. Qed.
Hint Resolve create_holds : files.
Lemma mkdir_holds : kholds (D:=D) (sys_mkdir pid trapframe de name0).
Proof using. unfold sys_mkdir, made. solve_kholds. Qed.
Lemma mknod_holds : kholds (D:=D) (sys_mknod pid trapframe de name0).
Proof using. unfold sys_mknod, made. solve_kholds. Qed.
Lemma chdir_holds : kholds (D:=D) (sys_chdir pid trapframe de name0).
Proof using. unfold sys_chdir. solve_kholds. Qed.
Lemma open_fail_holds ip : kholds (D:=D) (open_fail pid ip).
Proof using. unfold open_fail. solve_kholds. Qed.
Hint Resolve open_fail_holds : files.
Lemma open_inode_holds path omode : kholds (D:=D) (open_inode pid de name0 path omode).
Proof using. unfold open_inode. solve_kholds. Qed.
Lemma argfd_holds n : kholds (D:=D) (argfd trapframe n).
Proof using. unfold argfd. solve_kholds. Qed.

(** * Descriptors *)

(** [others] are the files the other processes name. *)
Definition tabled (s : ks) (others : list nat) : Prop :=
  typed (sy_k s) (named (sy_ofile s) ++ others) [] ∧ length (sy_ofile s) = Z.to_nat NOFILE.
Lemma tabled_holds (m : M ks Z) s others : kholds m → tabled s others → wlp m (λ _ s', tabled s' others) s.
Proof using. intros Hm [Ht Hl]. eapply wlp_mono; [by apply Hm|]. intros a s' [Ht' E]. unfold tabled. by rewrite E. Qed.
Lemma argfd_spec n s others : tabled s others → wlp (argfd trapframe n) (λ r s', tabled s' others ∧
  match r with Some (fd, f) => 0 ≤ fd ∧ sy_ofile s' !! Z.to_nat fd = Some (Some f) | None => True end) s.
Proof using.
  intros [Ht Hl]. unfold argfd. apply wlp_bind. eapply wlp_mono; [by apply argint_holds|]. intros fd s' [Ht' E].
  assert (tabled s' others) as Hs by (unfold tabled; by rewrite E).
  destruct ((fd <? 0) || (NOFILE <=? fd)) eqn:Hfd; [by apply wlp_ret|]. apply wlp_bind, wlp_gets.
  destruct (sy_ofile s' !! Z.to_nat fd) as [[f|]|] eqn:Hf; [|by apply wlp_ret|apply wlp_stuck]. apply wlp_ret. split; [done|].
  bool_facts. split; [lia|done].
Qed.
Lemma fdalloc_spec f (s : ks) : wlp (fdalloc f) (λ fd s', (fd < 0 ∧ s' = s) ∨
  0 ≤ fd ∧ sy_ofile s !! Z.to_nat fd = Some None ∧ s' = set_sy_ofile (<[Z.to_nat fd := Some f]> (sy_ofile s)) s) s.
Proof using.
  unfold fdalloc. apply wlp_bind, wlp_gets. destruct (SysFile.free_fd (sy_ofile s) 0) as [fd|] eqn:E.
  - apply wlp_bind, wlp_modify, wlp_ret. right. apply free_fd_some in E as [H1 H2]. rewrite Z.sub_0_r in *. done.
  - apply wlp_ret. by left.
Qed.
Lemma named_in o i f : o !! i = Some (Some f) → f ∈ named o.
Proof using. intros Hi. apply list_elem_of_omap. exists (Some f). split; [by eapply list_elem_of_lookup_2|done]. Qed.
Lemma dup_tabled s others : tabled s others → wlp (sys_dup trapframe) (λ _ s', tabled s' others) s.
Proof using.
  intros Hs. unfold sys_dup. apply wlp_bind. eapply wlp_mono; [by apply argfd_spec|]. intros [[fd f]|] s1 [[Ht Hl] Hf]; [|by apply wlp_ret].
  destruct Hf as [H0 Hf]. apply wlp_bind. eapply wlp_mono; [apply fdalloc_spec|]. intros fd' s2 [[Hn ->]|(Hn & Hfree & ->)].
  { rewrite (proj2 (Z.ltb_lt _ _)) by done. by apply wlp_ret. }
  rewrite (proj2 (Z.ltb_ge _ _)) by done. apply wlp_bind, wlp_zoom. eapply wlp_mono.
  { apply wp_wlp. eapply filedup_spec; [exact Ht| |by intros ?%elem_of_nil]. apply elem_of_app. left. by eapply named_in. }
  intros f' k' [-> Ht']. apply wlp_ret. split; simpl; [|by rewrite length_insert].
  eapply typed_perm; [|exact Ht']. by rewrite (named_put _ _ _ Hfree).
Qed.
Lemma close_tabled s others : tabled s others → wlp (sys_close pid trapframe) (λ _ s', tabled s' others) s.
Proof using.
  intros Hs. unfold sys_close. apply wlp_bind. eapply wlp_mono; [by apply argfd_spec|]. intros [[fd f]|] s1 [[Ht Hl] Hf]; [|by apply wlp_ret].
  destruct Hf as [H0 Hf]. apply wlp_bind, wlp_modify, wlp_bind, wlp_zoom. eapply wlp_mono.
  { apply (fileclose_spec pid _ (named (<[Z.to_nat fd := None]> (sy_ofile s1)) ++ others) []).
    eapply typed_perm; [|exact Ht]. by rewrite <- (named_drop _ _ _ Hf). }
  intros [] k' Ht'. apply wlp_ret. split; simpl; [done|by rewrite length_insert].
Qed.

(** A file that has just been allocated gets its type. *)
Lemma typed_init (k : fkern (D:=D)) l N f g : typed k l (f :: N) → f ∉ N → (∀ x, f_ref (g x) = f_ref x ∧ f_type (g x) ≠ FD_NONE) →
  typed (set_ft_file (alter g f (ft_file k)) k) l N.
Proof using.
  intros Ht HN Hg. assert (f ∈ l) as Hl by (apply refs_in; rewrite (ty_new _ _ _ Ht f); [lia|by left]).
  destruct (typed_lookup _ _ _ _ Ht Hl) as (x & Hx & Er & H1). rewrite (alter_lookup _ _ _ _ Hx). destruct (Hg x) as [E1 E2].
  eapply typed_upd; [exact Ht|exact Hx|congruence| | |done].
  - split; [done|]. intros [?|?]; [lia|done].
  - intros h Hne. split; [done|]. rewrite elem_of_cons. naive_solver.
Qed.
Lemma opened_typed i ip omode x : f_ref (opened i ip omode x) = f_ref x ∧ f_type (opened i ip omode x) ≠ FD_NONE.
Proof using. unfold opened. by destruct (i_type i =? T_DEVICE). Qed.
Lemma open_tabled s others : tabled s others → wlp (sys_open pid trapframe de name0) (λ _ s', tabled s' others) s.
Proof using.
  intros Hs. unfold sys_open. apply wlp_bind. destruct Hs as [Ht Hl]. eapply wlp_mono; [by apply argstr_holds|]. intros [path|] s1 [Ht1 E1]; [|apply wlp_ret; unfold tabled; by rewrite E1].
  apply wlp_bind. eapply wlp_mono; [by apply argint_holds|]. intros omode s2 [Ht2 E2].
  apply wlp_bind. eapply wlp_mono; [by apply kholds_op_begin|]. intros [] s3 [Ht3 E3].
  apply wlp_bind. eapply wlp_mono; [by apply open_inode_holds|]. intros [ip|] s4 [Ht4 E4].
  2:{ apply wlp_ret. unfold tabled. by rewrite E4, E3, E2, E1. }
  apply wlp_bind. eapply wlp_mono; [by apply geti_holds|]. intros i s5 [Ht5 E5].
  assert (tabled s5 others) as Hs by (unfold tabled; by rewrite E5, E4, E3, E2, E1). clear -Hs.
  destruct ((i_type i =? T_DEVICE) && _); [apply tabled_holds; [eauto with files|done]|]. destruct Hs as [Ht Hl].
  apply wlp_bind, wlp_zoom, wp_wlp. eapply wp_mono; [by apply filealloc_spec|]. intros [f|] k6 Hf.
  2:{ apply tabled_holds; [eauto with files|]. by split. }
  destruct Hf as [Hf Ht6]. apply wlp_bind. eapply wlp_mono; [apply fdalloc_spec|]. intros fd s7 [[Hn ->]|(Hn & Hfree & ->)].
  - rewrite (proj2 (Z.ltb_lt _ _)) by done. apply wlp_bind, wlp_zoom. eapply wlp_mono; [by eapply fileclose_spec|]. intros [] k8 Ht8.
    apply tabled_holds; [eauto with files|]. split; [|done]. simpl. unfold minus in Ht8. by rewrite filter_cons_False in Ht8 by naive_solver.
  - rewrite (proj2 (Z.ltb_ge _ _)) by done. apply wlp_bind, wlp_zoom, wlp_modify.
    match goal with |- wlp _ _ ?s' => assert (tabled s' others) as Hs end.
    { split; simpl; [|by rewrite length_insert]. apply typed_init; [|by intros ?%elem_of_nil|apply opened_typed].
      eapply typed_perm; [|exact Ht6]. simpl. by rewrite (named_put _ _ _ Hfree). }
    apply tabled_holds; [|done]. solve_kholds.
Qed.

Lemma typed_new (k : fkern (D:=D)) l N N' : (∀ f, f ∈ N ↔ f ∈ N') → typed k l N → typed k l N'.
Proof using.
  intros E []. split; try done.
  - intros f x Hx. rewrite <- E. by apply ty_ref0.
  - intros f. rewrite <- E. apply ty_new0.
Qed.
Lemma pipealloc_spec (k : fkern (D:=D)) l : typed k l [] → wlp (pipealloc pid) (λ r k', match r with
  | None => typed k' l []
  | Some (f0, f1) => typed k' (f0 :: f1 :: l) []
  end) k.
Proof using.
  intros Ht. unfold pipealloc. apply wlp_bind, wp_wlp. eapply wp_mono; [by apply filealloc_spec|]. intros [f0|] k1 H1; [|by apply wlp_ret].
  destruct H1 as [N0 Ht1]. apply wlp_bind, wp_wlp. eapply wp_mono; [by apply filealloc_spec|]. intros [f1|] k2 H2.
  2:{ apply wlp_bind. eapply wlp_mono; [by eapply fileclose_spec|]. intros [] k3 Ht3. apply wlp_ret. unfold minus in Ht3. by rewrite filter_cons_False in Ht3 by naive_solver. }
  destruct H2 as [N1 Ht2]. assert (f0 ≠ f1) as Hne by (intros ->; apply N1; by left).
  apply wlp_bind. eapply wlp_keeps; [apply keeps_fs|]. intros pi k3 Hs3. apply (typed_same _ _ _ _ Hs3) in Ht2.
  apply (typed_perm _ _ (f0 :: f1 :: l)) in Ht2; [|solve_Permutation]. destruct (pi =? 0).
  - apply wlp_bind. eapply wlp_mono; [by eapply fileclose_spec|]. intros [] k4 Ht4. apply wlp_bind. eapply wlp_mono; [by eapply fileclose_spec|]. intros [] k5 Ht5.
    apply wlp_ret. eapply typed_new; [|exact Ht5]. intros f. rewrite !minus_in, !elem_of_cons, elem_of_nil. naive_solver.
  - apply wlp_bind. eapply wlp_keeps; [apply keeps_fs|]. intros data k4 Hs4. apply (typed_same _ _ _ _ Hs4) in Ht2. do 3 apply wlp_bind, wlp_modify. apply wlp_ret.
    apply typed_init; [|by intros ?%elem_of_nil|done]. apply typed_init; [|by intros ?%list_elem_of_singleton|done].
    eapply typed_new; [|eapply typed_same; [|exact Ht2]]; [|done]. intros f. rewrite !elem_of_cons. tauto.
Qed.
Lemma pipe_fail_spec s others rf wf : typed (sy_k s) (rf :: wf :: named (sy_ofile s) ++ others) [] → length (sy_ofile s) = Z.to_nat NOFILE →
  wlp (pipe_fail pid rf wf) (λ _ s', tabled s' others) s.
Proof using.
  intros Ht Hl. unfold pipe_fail. apply wlp_bind, wlp_zoom. eapply wlp_mono; [by eapply fileclose_spec|]. intros [] k1 Ht1.
  apply wlp_bind, wlp_zoom. eapply wlp_mono; [by eapply fileclose_spec|]. intros [] k2 Ht2. by apply wlp_ret.
Qed.
Lemma put_int_holds addr x : kholds (D:=D) (put_int addr x).
Proof using. unfold put_int. solve_kholds. Qed.
Hint Resolve put_int_holds : files.
Lemma clear_put (o : list (option nat)) i x : o !! i = Some None → <[i := None]> (<[i := x]> o) = o.
Proof using. intros Hi. by rewrite list_insert_insert_eq, list_insert_id. Qed.
Lemma pipe_tabled s others : tabled s others → wlp (sys_pipe pid trapframe) (λ _ s', tabled s' others) s.
Proof using.
  intros [Ht Hl]. unfold sys_pipe. apply wlp_bind. eapply wlp_mono; [by apply argaddr_holds|]. intros fdarray s1 [Ht1 E1]. rewrite <- E1 in Ht1, Hl. clear Ht E1 s.
  apply wlp_bind, wlp_zoom. eapply wlp_mono; [by apply pipealloc_spec|]. intros [[rf wf]|] k2 Ht2; [|by apply wlp_ret].
  apply wlp_bind. eapply wlp_mono; [apply fdalloc_spec|]. intros fd0 s3 [[Hn ->]|(Hn0 & Hf0 & ->)].
  { rewrite (proj2 (Z.ltb_lt _ _)) by done. by apply pipe_fail_spec. }
  rewrite (proj2 (Z.ltb_ge _ _)) by done. simpl in Hf0. apply wlp_bind. eapply wlp_mono; [apply fdalloc_spec|]. intros fd1 s4 [[Hn ->]|(Hn1 & Hf1 & ->)].
  { rewrite (proj2 (Z.ltb_lt _ _)) by done. apply wlp_bind, wlp_modify. apply pipe_fail_spec; simpl; by rewrite ?length_insert, ?clear_put. }
  rewrite (proj2 (Z.ltb_ge _ _)) by done. simpl in Hf1.
  match goal with |- wlp _ _ ?s' => assert (tabled s' others) as Hs end.
  { split; simpl; [|by rewrite !length_insert]. eapply typed_perm; [|exact Ht2]. rewrite (named_put _ _ _ Hf1), (named_put _ _ _ Hf0). solve_Permutation. }
  assert (Z.to_nat fd0 ≠ Z.to_nat fd1) as Hne.
  { intros E. rewrite <- E, list_lookup_insert_eq in Hf1; [done|by eapply lookup_lt_Some]. }
  match goal with |- wlp _ _ ?s' => set (s5 := s') in * end. destruct Hs as [Ht5 Hl5]. apply wlp_bind. eapply wlp_mono; [by apply put_int_holds|].
  intros r0 s6 [Ht6 E6]. apply wlp_bind. eapply (wlp_mono _ (λ _ s', typed (sy_k s') (named (sy_ofile s5) ++ others) [] ∧ sy_ofile s' = sy_ofile s6)).
  { destruct (r0 <? 0); [by apply kholds_ret|by apply put_int_holds]. }
  intros r s7 [Ht7 E7]. rewrite E6 in E7. destruct (r <? 0).
  2:{ apply wlp_ret. unfold tabled. by rewrite E7. }
  do 2 apply wlp_bind, wlp_modify. apply pipe_fail_spec; simpl; rewrite E7; [|by rewrite !length_insert].
  eapply typed_perm; [|exact Ht7].
  assert (sy_ofile s5 !! Z.to_nat fd0 = Some (Some rf)) as G0.
  { simpl. rewrite list_lookup_insert_ne by done. apply list_lookup_insert_eq. by eapply lookup_lt_Some. }
  assert (<[Z.to_nat fd0 := None]> (sy_ofile s5) !! Z.to_nat fd1 = Some (Some wf)) as G1.
  { rewrite list_lookup_insert_ne by done. simpl. apply list_lookup_insert_eq. by eapply lookup_lt_Some. }
  rewrite <- (named_drop _ _ _ G0), <- (named_drop _ _ _ G1). solve_Permutation.
Qed.
(** fork and exit. *)
Lemma dup_ofile_spec o (s : ks) l : typed (sy_k s) l [] → (∀ f, f ∈ named o → f ∈ l) →
  wlp (dup_ofile o) (λ r s', r = o ∧ sy_ofile s' = sy_ofile s ∧ typed (sy_k s') (named o ++ l) []) s.
Proof using.
  revert s l. induction o as [|[f|] o IH]; intros s l Ht Hin; simpl.
  - by apply wlp_ret.
  - apply wlp_bind, wlp_zoom, wp_wlp. eapply wp_mono; [eapply filedup_spec; [exact Ht|apply Hin; by left|by intros ?%elem_of_nil]|].
    intros f' k' [-> Ht']. apply wlp_bind. eapply wlp_mono; [apply (IH (set_sy_k k' s) (f :: l) Ht')|].
    { intros g Hg. right. apply Hin. by right. }
    intros r s2 (-> & E & Ht2). apply wlp_ret. split_and!; [done|done|]. eapply typed_perm; [|exact Ht2]. unfold named. simpl. solve_Permutation.
  - apply wlp_bind. eapply wlp_mono; [by apply (IH s l)|]. intros r s2 (-> & E & Ht2). by apply wlp_ret.
Qed.
Lemma fork_tabled s others : tabled s others → wlp fork_files (λ r s', r.1 = sy_ofile s ∧ sy_ofile s' = sy_ofile s ∧ tabled s' (named (r.1) ++ others)) s.
Proof using.
  intros [Ht Hl]. unfold fork_files. apply wlp_bind, wlp_gets, wlp_bind. eapply wlp_mono; [apply (dup_ofile_spec _ s _ Ht)|].
  { intros f Hf. apply elem_of_app. by left. }
  intros o s1 (-> & E1 & Ht1). apply wlp_bind, wlp_gets, wlp_bind. eapply wlp_mono; [by apply kholds_kfs|]. intros cwd s2 [Ht2 E2].
  apply wlp_ret. unfold tabled. simpl. rewrite E2, E1. split_and!; [done|done| |done]. eapply typed_perm; [|exact Ht2]. solve_Permutation.
Qed.
Lemma close_ofile_spec fds (s : ks) others : tabled s others → wlp (close_ofile pid fds) (λ _ s', tabled s' others ∧
  (∀ i, sy_ofile s !! i = Some None → sy_ofile s' !! i = Some None) ∧ ∀ fd, fd ∈ fds → sy_ofile s' !! Z.to_nat fd = Some None) s.
Proof using.
  revert s. induction fds as [|fd fds IH]; intros s Hs; simpl.
  { apply wlp_ret. split_and!; [done|done|]. by intros fd ?%elem_of_nil. }
  apply wlp_bind, wlp_gets, wlp_bind. eapply (wlp_mono _ (λ _ s', tabled s' others ∧ sy_ofile s' !! Z.to_nat fd = Some None ∧
    ∀ i, sy_ofile s !! i = Some None → sy_ofile s' !! i = Some None)).
  - destruct (sy_ofile s !! Z.to_nat fd) as [[f|]|] eqn:Hf; [|by apply wlp_ret|apply wlp_stuck]. destruct Hs as [Ht Hl].
    apply wlp_bind, wlp_zoom. eapply wlp_mono.
    { apply (fileclose_spec pid _ (named (<[Z.to_nat fd := None]> (sy_ofile s)) ++ others) []).
      eapply typed_perm; [|exact Ht]. by rewrite <- (named_drop _ _ _ Hf). }
    intros [] k' Ht'. apply wlp_modify. split_and!; [split; simpl; [done|by rewrite length_insert]| |]; simpl.
    + apply list_lookup_insert_eq. by eapply lookup_lt_Some.
    + intros i Hi. rewrite list_lookup_insert_ne; [done|]. intros <-. congruence.
  - intros [] s1 (Hs1 & Hfd & Hk). eapply wlp_mono; [by apply IH|]. intros [] s2 (Hs2 & Hk2 & Hall). split_and!; [done|auto|].
    intros fd' [->|Hin]%elem_of_cons; auto.
Qed.
Lemma named_none o : (∀ i x, o !! i = Some x → x = None) → named o = [].
Proof using.
  intros Ho. destruct (named o) as [|f l] eqn:E; [done|]. assert (f ∈ named o) as Hf by (rewrite E; by left).
  apply list_elem_of_omap in Hf as (x & Hx & Ex). apply list_elem_of_lookup in Hx as [i Hi]. by rewrite (Ho i x Hi) in Ex.
Qed.
Lemma exit_tabled s others : tabled s others → wlp (exit_files pid) (λ _ s', typed (sy_k s') others []) s.
Proof using.
  intros Hs. unfold exit_files. apply wlp_bind. eapply wlp_mono; [by apply close_ofile_spec|]. intros [] s1 ([Ht Hl] & _ & Hall).
  rewrite named_none in Ht.
  - apply wlp_bind. eapply wlp_mono; [by apply kholds_op_begin|]. intros [] s2 [Ht2 _]. apply wlp_bind, wlp_gets, wlp_bind.
    eapply wlp_mono; [by apply kholds_kfs|]. intros [] s3 [Ht3 _]. eapply wlp_mono; [by apply kholds_op_end|]. by intros [] s4 [Ht4 _].
  - intros i x Hx. pose proof (lookup_lt_Some _ _ _ Hx) as Hlt. specialize (Hall (Z.of_nat i)). rewrite Nat2Z.id in Hall. rewrite Hall in Hx; [by simplify_eq|].
    apply elem_of_seqZ. lia.
Qed.
End syscalls.

(** * All processes *)

(** The calls of sysfile.c. *)
Inductive fcall := CDup | CRead | CWrite | CClose | CFstat | CLink | CUnlink | COpen | CMkdir | CMknod | CChdir | CPipe.
(** What a process has of its own. *)
Record fproc := FProc { fp_ofile : list (option nat); fp_cwd : nat; fp_sz : Z; fp_pagetable : Z; fp_name : list Z }.

Section world.
Context {D : Type} `{BS : BlockStore D} {TX : Transactions D} {L : Linker}.
Context (devsw_read devsw_write : Z → option (Z → Z → M (fkern (D:=D)) Z)).
Abbreviation ks := (ksys (D:=D)).
(** A call with what else it depends on: the registers, the stack. *)
Definition fcall_run (c : fcall) (pid trapframe : Z) (killed : bool) (de : Z) (st_pad name0 : list Z) : M ks Z :=
  match c with
  | CDup => sys_dup trapframe
  | CRead => sys_read pid trapframe killed devsw_read
  | CWrite => sys_write pid trapframe killed devsw_write
  | CClose => sys_close pid trapframe
  | CFstat => sys_fstat pid trapframe st_pad
  | CLink => sys_link pid trapframe de name0
  | CUnlink => sys_unlink pid trapframe de name0
  | COpen => sys_open pid trapframe de name0
  | CMkdir => sys_mkdir pid trapframe de name0
  | CMknod => sys_mknod pid trapframe de name0
  | CChdir => sys_chdir pid trapframe de name0
  | CPipe => sys_pipe pid trapframe
  end.
Record world := World { w_k : fkern (D:=D); w_procs : list fproc }.
Definition enter (w : world) (p : fproc) : ks := KSys (w_k w) (fp_ofile p) (fp_cwd p) (fp_sz p) (fp_pagetable p) (fp_name p).
Definition leave (s : ks) : fproc := FProc (sy_ofile s) (sy_cwd s) (sy_sz s) (sy_pagetable s) (sy_name s).
(** A process runs a call to its end, forks or exits. *)
Inductive wstep : world → world → Prop :=
| w_call w i p c pid trapframe killed de st_pad name0 r s : w_procs w !! i = Some p →
    fcall_run c pid trapframe killed de st_pad name0 (enter w p) = Ok r s →
    wstep w (World (sy_k s) (<[i := leave s]> (w_procs w)))
| w_fork w i p r s sz pagetable name : w_procs w !! i = Some p → fork_files (enter w p) = Ok r s →
    wstep w (World (sy_k s) (<[i := leave s]> (w_procs w) ++ [FProc (r.1) (r.2) sz pagetable name]))
| w_exit w i p pid s : w_procs w !! i = Some p → exit_files pid (enter w p) = Ok tt s →
    wstep w (World (sy_k s) (delete i (w_procs w))).

(** Every descriptor of every process. *)
Definition all_named (l : list fproc) : list nat := l ≫= λ p, named (fp_ofile p).
Lemma all_named_perm l l' : l ≡ₚ l' → all_named l ≡ₚ all_named l'.
Proof using. intros E. unfold all_named. by rewrite E. Qed.
Lemma procs_split (l : list fproc) i p : l !! i = Some p → l ≡ₚ p :: delete i l.
Proof using. apply delete_Permutation. Qed.
Lemma procs_insert (l : list fproc) i p q : l !! i = Some p → <[i := q]> l ≡ₚ q :: delete i l.
Proof using.
  intros Hi. rewrite (insert_take_drop l i q) by by eapply lookup_lt_Some. rewrite delete_take_drop. solve_Permutation.
Qed.
Definition winv (w : world) : Prop := typed (w_k w) (all_named (w_procs w)) [] ∧ ∀ p, p ∈ w_procs w → length (fp_ofile p) = Z.to_nat NOFILE.
Lemma winv_enter w i p : winv w → w_procs w !! i = Some p → tabled (enter w p) (all_named (delete i (w_procs w))).
Proof using.
  intros [Ht Hl] Hi. split; simpl; [|by eapply Hl, list_elem_of_lookup_2]. eapply typed_perm; [|exact Ht]. by rewrite (all_named_perm _ _ (procs_split _ _ _ Hi)).
Qed.
Lemma winv_leave w i p s extra : winv w → w_procs w !! i = Some p → tabled s (all_named extra ++ all_named (delete i (w_procs w))) →
  (∀ q, q ∈ extra → length (fp_ofile q) = Z.to_nat NOFILE) → winv (World (sy_k s) (<[i := leave s]> (w_procs w) ++ extra)).
Proof using.
  intros [_ Hl] Hi [Ht Hs] Hx. split; simpl.
  - eapply typed_perm; [|exact Ht]. unfold all_named. rewrite bind_app, (procs_insert _ _ _ _ Hi). simpl. solve_Permutation.
  - intros q [Hq|Hq]%elem_of_app; [|auto]. rewrite (procs_insert _ _ _ _ Hi) in Hq. apply elem_of_cons in Hq as [->|Hq]; [done|].
    apply Hl. rewrite (procs_split _ _ _ Hi). by right.
Qed.
(** The first process, with the table all zeroes. *)
Lemma boot_winv k p : length (ft_file k) = Z.to_nat NFILE → ft_lock k = false → (∀ f x, ft_file k !! f = Some x → f_ref x = 0 ∧ f_type x = FD_NONE) →
  fp_ofile p = replicate (Z.to_nat NOFILE) None → winv (World k [p]).
Proof using.
  intros Hl Hk Hx Hp. split; simpl; [|intros q ->%list_elem_of_singleton; by rewrite Hp, length_replicate].
  unfold all_named. simpl. rewrite named_none, app_nil_r.
  - split; try done; [by intros f ?%elem_of_nil| |by intros f ?%elem_of_nil]. intros f x E. destruct (Hx f x E) as [-> ->]. split; [done|]. tauto.
  - rewrite Hp. intros i x E. by apply lookup_replicate in E as [-> _].
Qed.
Hypothesis Hread : dev_holds devsw_read.
Hypothesis Hwrite : dev_holds devsw_write.
Lemma fcall_tabled c pid trapframe killed de st_pad name0 s others : tabled s others →
  wlp (fcall_run c pid trapframe killed de st_pad name0) (λ _ s', tabled s' others) s.
Proof using Hread Hwrite.
  intros Hs. destruct c; simpl; [by apply dup_tabled| | |by apply close_tabled| | | |by apply open_tabled| | | |by apply pipe_tabled]; apply tabled_holds; try done.
  - unfold sys_read. apply kholds_bind; [apply argfd_holds|]. intros [[fd f]|]; [|apply kholds_ret]. repeat (apply kholds_bind; [solve_kholds|intros]).
    by apply kholds_kf, fileread_holds.
  - unfold sys_write. apply kholds_bind; [apply argfd_holds|]. intros [[fd f]|]; [|apply kholds_ret]. repeat (apply kholds_bind; [solve_kholds|intros]).
    by apply kholds_kf, filewrite_holds.
  - unfold sys_fstat. apply kholds_bind; [apply argfd_holds|]. intros [[fd f]|]; [|apply kholds_ret]. repeat (apply kholds_bind; [solve_kholds|intros]).
    by apply kholds_kf, filestat_holds.
  - apply link_holds.
  - apply unlink_holds.
  - apply mkdir_holds.
  - apply mknod_holds.
  - apply chdir_holds.
Qed.
Lemma wstep_inv w w' : winv w → wstep w w' → winv w'.
Proof using Hread Hwrite.
  intros Hw Hst. destruct Hst as [w i p c pid tf killed de pad name0 r s Hi Hok|w i p r s sz pt name Hi Hok|w i p pid s Hi Hok]; pose proof (winv_enter _ _ _ Hw Hi) as Hs.
  - pose proof (wlp_elim _ _ _ _ _ (fcall_tabled c pid tf killed de pad name0 _ _ Hs) Hok) as Hs'.
    rewrite <- (app_nil_r (<[i := leave s]> (w_procs w))). eapply winv_leave; [done|done|done|]. by intros q ?%elem_of_nil.
  - destruct (wlp_elim _ _ _ _ _ (fork_tabled _ _ Hs) Hok) as (E1 & E2 & Hs'). eapply winv_leave; [done|done| |].
    + unfold all_named at 1. simpl. by rewrite app_nil_r.
    + intros q ->%list_elem_of_singleton. simpl. rewrite E1. apply Hs.
  - pose proof (wlp_elim _ _ _ _ _ (exit_tabled pid _ _ Hs) Hok) as Ht. split; simpl; [done|]. intros q Hq. apply Hw. rewrite (procs_split _ _ _ Hi). by right.
Qed.
Lemma wsteps_inv w w' : rtc wstep w w' → winv w → winv w'.
Proof using Hread Hwrite. induction 1 as [|w1 w2 w3 H1 _ IH]; [done|]. intros Hw. by apply IH, (wstep_inv w1). Qed.
Lemma free_file_none l n : free_file l n = None → ∀ i x, l !! i = Some x → f_ref x ≠ 0.
Proof using.
  revert n. induction l as [|y l IH]; intros n; simpl; [done|]. destruct (Z.eqb_spec (f_ref y) 0) as [|Hy]; [done|].
  intros Hn [|i] x Hx; [by injection Hx as <-|by eapply IH].
Qed.
Lemma filealloc_full (k : fkern (D:=D)) l : typed k l [] → ∀ k', filealloc k = Ok None k' → ∀ f, (f < Z.to_nat NFILE)%nat → f ∈ l.
Proof using.
  intros Ht k' Hok f Hf. destruct (lookup_lt_is_Some_2 (ft_file k) f) as [x Hx]; [rewrite (ty_len _ _ _ Ht); lia|].
  unfold filealloc, ft_acquire, bind, zoom, gets in Hok. simpl in Hok. rewrite (ty_lock _ _ _ Ht) in Hok. simpl in Hok.
  destruct (free_file (ft_file k) 0) as [g|] eqn:E; [done|]. pose proof (free_file_none _ _ E f x Hx) as H0.
  destruct (ty_ref _ _ _ Ht f x Hx) as [Er _]. apply refs_in. pose proof (refs_nonneg l f). lia.
Qed.

(** C18: Whatever sequence of dup, read, write, close, fstat, link, unlink, open,
    mkdir, mknod, chdir, pipe, fork and exit the processes run, and however
    the calls fail: the reference count of every file structure is the number
    of descriptors that name it, it has a type exactly when some descriptor
    names it, every descriptor names a file that filedup accepts, and
    filealloc fails only when all NFILE files are named. *)
Theorem file_table_typed w w' : winv w → rtc wstep w w' →
  (∀ f x, ft_file (w_k w') !! f = Some x → f_ref x = refs (all_named (w_procs w')) f ∧ (f_type x = FD_NONE ↔ f ∉ all_named (w_procs w'))) ∧
  (∀ p f, p ∈ w_procs w' → Some f ∈ fp_ofile p → ∃ k, filedup f (w_k w') = Ok f k) ∧
  (∀ k, filealloc (w_k w') = Ok None k → ∀ f, (f < Z.to_nat NFILE)%nat → f ∈ all_named (w_procs w')).
Proof using Hread Hwrite.
  intros Hw Hst. destruct (wsteps_inv _ _ Hst Hw) as [Ht _]. split_and!.
  - intros f x Hx. destruct (ty_ref _ _ _ Ht f x Hx) as [Er HT]. split; [done|]. rewrite HT, Er, elem_of_nil, refs_in.
    pose proof (refs_nonneg (all_named (w_procs w')) f). split; [intros [?|[]]; lia|]. intros ?. left. lia.
  - intros p f Hp Hf. assert (f ∈ all_named (w_procs w')) as Hin.
    { apply list_elem_of_bind. exists p. split; [|done]. apply list_elem_of_omap. by exists (Some f). }
    destruct (proj1 (wp_ok _ _ _) (filedup_spec _ _ _ f Ht Hin ltac:(by intros ?%elem_of_nil))) as (r & k & E & -> & _). eauto.
  - by apply filealloc_full.
Qed.
End world.

(** * A process that has the console open duplicates it, forks and exits *)
Module DupForkExit.
#[local] Instance no_blocks : BlockStore unit :=
  {| s_bread _ _ := stuck; s_brelse _ := stuck; s_data _ _ := []; s_set_data _ _ := stuck; s_log_write _ := stuck; s_initlog _ _ := stuck |}.
#[local] Instance no_log : Transactions unit := {| t_begin_op := ret tt; t_end_op := ret tt |}.
#[local] Instance linker : Linker := {| kend := KERNBASE; etext := KERNBASE; trampoline := KERNBASE |}.
Definition cwd : inode := Inode 1 1 1 (Sleeplock false false 0) true T_DIR 0 0 1 1024 [].
Definition console : file := File FD_DEVICE 1 true true 0 1 0 1.
Definition unused : file := File FD_NONE 0 false false 0 0 0 0.
Definition kernel0 : fkern (D:=unit) :=
  FKern (Fsys tt (Superblock 0 0 0 0 0 0 0 0) false [cwd; cwd] (Kmem false 0 ∅)) false (console :: replicate 99 unused) ∅.
Definition init0 : fproc := FProc (Some 0%nat :: replicate 15 None) 0 0 0 [].
Definition start : world := World kernel0 [init0].
Definition no_dev : Z → option (Z → Z → M (fkern (D:=unit)) Z) := λ _, None.
Definition step_of {A} (w : world) (i : nat) (more : A → list fproc) (o : outcome (ksys (D:=unit)) A) : world :=
  match o with Ok a s => World (sy_k s) (<[i := leave s]> (w_procs w) ++ more a) | _ => w end.
Definition dupped : world := Eval vm_compute in
  step_of start 0 (λ _, []) (fcall_run no_dev no_dev CDup 1 0x87f00000 false 0 [] [] (enter start init0)).
Definition init1 : fproc := Eval vm_compute in default init0 (w_procs dupped !! 0%nat).
Definition forked : world := Eval vm_compute in
  step_of dupped 0 (λ r, [FProc (r.1) (r.2) 0 0 []]) (fork_files (enter dupped init1)).
Definition exited : world := Eval vm_compute in
  match exit_files 1 (enter forked init1) with Ok _ s => World (sy_k s) [init1] | _ => forked end.
Lemma start_inv : winv start.
Proof.
  split.
  - split; try done.
    + intros f Hf. simpl in Hf. apply list_elem_of_singleton in Hf as ->. simpl. lia.
    + intros f x Hx. destruct f as [|f].
      * injection Hx as <-. split; [done|]. simpl. split; [done|]. intros [?|?%elem_of_nil]; done.
      * apply (lookup_replicate 99 unused x f) in Hx as [-> _]. split; [done|]. simpl. tauto.
    + by intros f ?%elem_of_nil.
  - intros p ->%list_elem_of_singleton. done.
Qed.
Lemma exited_reach : rtc (wstep no_dev no_dev) start exited.
Proof.
  apply (rtc_l _ _ dupped); [|apply (rtc_l _ _ forked); [|apply rtc_once]].
  - apply (w_call no_dev no_dev start 0 init0 CDup 1 0x87f00000 false 0 [] [] 1 (enter dupped init1)); [reflexivity|vm_compute; reflexivity].
  - apply (w_fork no_dev no_dev dupped 0 init1 (fp_ofile init1, 0%nat) (enter forked init1) 0 0 []); [reflexivity|vm_compute; reflexivity].
  - apply (w_exit no_dev no_dev forked 0 init1 1 (KSys (w_k exited) (replicate 16 None) 0 0 0 [])); [reflexivity|vm_compute; reflexivity].
Qed.
Lemma file_table_typed_witness : ∃ w x, rtc (wstep no_dev no_dev) start w ∧
  ft_file (w_k w) !! 0%nat = Some x ∧ f_ref x = 2 ∧ refs (all_named (w_procs w)) 0 = 2.
Proof.
  destruct (file_table_typed no_dev no_dev) with (w := start) (w' := exited) as (Hr & _ & _);
    [discriminate|discriminate|apply start_inv|apply exited_reach|].
  exists exited. destruct (Hr 0%nat _ eq_refl) as [E _]. eexists. split; [apply exited_reach|].
  split; [reflexivity|]. split; [reflexivity|]. symmetry. exact E.
Defined.
End DupForkExit.
