(* ===== verification/Exec.v ===== *)
(** kernel/exec.c, and [sys_exec] of kernel/sysfile.c.  A [char **argv] is the
    array of its pointers, each to a page that holds a string. *)

From S2P Require Import Prelude Riscv Mem Cstring Spinlock Sleeplock Kalloc Vm Bio FsLayout ProcMem Pipe Fs File Syscall SysFile.

(** * kernel/elf.h *)

Definition ELF_MAGIC : Z := 0x464C457F.
Definition ELF_PROG_LOAD : Z := 1.
(** The fields of [struct elfhdr] and [struct proghdr] that exec uses, at
    their offsets. *)
Record elfhdr := Elfhdr { e_magic : Z; e_entry : Z; e_phoff : Z; e_phnum : Z }.
Definition sizeof_elfhdr : Z := 64.
Definition elfhdr_of (b : list Z) : elfhdr := Elfhdr (get 4 b 0) (get 8 b 24) (get 8 b 32) (get 2 b 56).
Record proghdr := Proghdr { ph_type : Z; ph_off : Z; ph_vaddr : Z; ph_filesz : Z; ph_memsz : Z }.
Definition sizeof_proghdr : Z := 56.
Definition proghdr_of (b : list Z) : proghdr :=
  Proghdr (get 4 b 0) (get 8 b 8) (get 8 b 16) (get 8 b 32) (get 8 b 40).

Section exec.
Context {D : Type} `{BS : BlockStore D} {TX : Transactions D} {L : Linker}.
Abbreviation state := (ksys (D:=D)).

(** [myproc()->pid] and [->trapframe]; the addresses of the local variables
    [de], [elf] and [ph]; what local variables hold before they are set. *)
Context (pid trapframe de elf_addr ph_addr : Z) (name0 ustack0 : list Z).

Definition set_sy_image (sz pagetable : Z) (name : list Z) (s : state) : state :=
  KSys (sy_k s) (sy_ofile s) (sy_cwd s) sz pagetable name.
(** [readi] of a structure into a local variable at [addr]. *)
Definition read_local (ip : nat) (addr off n : Z) : M state (option (list Z)) :=
  let! pagetable := gets sy_pagetable in
  let! r := kfs (readi pagetable ip false addr off n) in
  if negb (r =? n) then ret None
  else
    let! b := kram (gets (λ k, load_bytes (k_mem k) addr (Z.to_nat n))) in
    ret (Some b).

(** Load a program segment into pagetable at virtual address va. *)
Definition loadseg (pagetable va : Z) (ip : nat) (offset sz : Z) : M state Z :=
  let! cur := gets sy_pagetable in
  loop (Z.to_nat (sz / PGSIZE) + 2) (λ i,
    if i <? sz then
      let! pa := kram (walkaddr pagetable (u64 (va + i))) in
      if pa =? 0 then panic "loadseg: address should exist"
      else
        let n := if sz - i <? PGSIZE then sz - i else PGSIZE in
        let! r := kfs (readi cur ip false pa (u32 (offset + i)) n) in
        if negb (r =? n) then ret (inr (-1)) else ret (inl (u32 (i + PGSIZE)))
    else ret (inr 0)) 0.

(** Load program into memory: whether it worked, and the size reached. *)
Definition load_round (ip : nat) (elf : elfhdr) (pagetable : Z) '((i, off, sz) : Z * Z * Z)
    : M state (Z * Z * Z + bool * Z) :=
  if i <? e_phnum elf then
    let next sz := ret (inl (i + 1, s32 (off + sizeof_proghdr), sz)) in
    let! b := read_local ip ph_addr (u32 off) sizeof_proghdr in
    match b with None => ret (inr (false, sz)) | Some b =>
    let ph := proghdr_of b in
    if negb (ph_type ph =? ELF_PROG_LOAD) then next sz
    else if ph_memsz ph <? ph_filesz ph then ret (inr (false, sz))
    else if u64 (ph_vaddr ph + ph_memsz ph) <? ph_vaddr ph then ret (inr (false, sz))
    else
      let! sz1 := kram (uvmalloc pagetable sz (u64 (ph_vaddr ph + ph_memsz ph))) in
      if sz1 =? 0 then ret (inr (false, sz))
      else if negb (ph_vaddr ph `mod` PGSIZE =? 0) then ret (inr (false, sz1))
      else
        let! r := loadseg pagetable (ph_vaddr ph) ip (u32 (ph_off ph)) (u32 (ph_filesz ph)) in
        if r <? 0 then ret (inr (false, sz1)) else next sz1
    end
  else ret (inr (true, sz)).
Definition load_program (ip : nat) (elf : elfhdr) (pagetable : Z) : M state (bool * Z) :=
  loop (Z.to_nat (e_phnum elf) + 1) (load_round ip elf pagetable) (0, s32 (e_phoff elf), 0).

(** The string at [p]; its page ends it. *)
Definition string_at (p : Z) : M kmem (list Z) :=
  let! s := gets (λ k, cstr (λ j, load8 (k_mem k) (p + j)) PGSIZE) in
  if Z.of_nat (length s) <? PGSIZE then ret s else stuck.
(** Push argument strings, prepare rest of stack in ustack: [argc], [sp] and
    [ustack], or failure. *)
Definition push_round (pagetable stackbase : Z) (argv : list Z) '((argc, sp, ustack) : Z * Z * list Z)
    : M kmem (Z * Z * list Z + option (Z * Z * list Z)) :=
  match argv !! Z.to_nat argc with
  | None => stuck
  | Some arg =>
      if arg =? 0 then ret (inr (Some (argc, sp, ustack)))
      else if MAXARG <=? argc then ret (inr None)
      else
        let! s := string_at arg in
        let sp := u64 (sp - (Z.of_nat (length s) + 1)) in
        let sp := sp - sp `mod` 16 in     (* riscv sp must be 16-byte aligned *)
        if sp <? stackbase then ret (inr None)
        else
          let! r := copyout pagetable sp (s ++ [0]) (Z.of_nat (length s) + 1) in
          if r <? 0 then ret (inr None)
          else ret (inl (argc + 1, sp, <[Z.to_nat argc := sp]> ustack))
  end.
Definition push_args (pagetable sz : Z) (argv : list Z) : M kmem (option (Z * Z)) :=
  let sp := sz in
  let stackbase := sp - PGSIZE in
  let! r := loop (Z.to_nat MAXARG + 2) (push_round pagetable stackbase argv) (0, sp, ustack0) in
  match r with
  | None => ret None
  | Some (argc, sp, ustack) =>
      if MAXARG <=? argc then stuck       (* ustack[argc] = 0 *)
      else
        let ustack := <[Z.to_nat argc := 0]> ustack in
        (* push the array of argv[] pointers. *)
        let sp := u64 (sp - (argc + 1) * 8) in
        let sp := sp - sp `mod` 16 in
        if sp <? stackbase then ret None
        else
          let! r := copyout pagetable sp (concat (le_split 8 <$> take (Z.to_nat (argc + 1)) ustack)) ((argc + 1) * 8) in
          if r <? 0 then ret None else ret (Some (argc, sp))
  end.

(** [for(last=s=path; *s; s++) if( *s == '/') last = s+1]. *)
Fixpoint last_element (last s : list Z) : list Z :=
  match s with
  | [] => last
  | c :: s' => last_element (if c =? SLASH then s' else last) s'
  end.
(** [safestrcpy(p->name, last, sizeof(p->name))]. *)
Definition new_name (name last : list Z) : list Z :=
  let s := take 15 last in
  s ++ [0] ++ drop (length s + 1) name.

(** [bad:], before and after the inode is released. *)
Definition exec_bad (pagetable sz : Z) (ip : option nat) : M state Z :=
  do! when (truth pagetable) (kram (proc_freepagetable pagetable sz));
  do! match ip with
      | Some ip => do! kfs (iunlockput pid ip); kf op_end
      | None => ret tt
      end;
  ret (-1).
(** The second half: the stack, and the switch to the new image. *)
Definition exec_image (path : list Z) (argv : list Z) (elf : elfhdr) (pagetable sz : Z) : M state Z :=
  let! oldsz := gets sy_sz in
  (* Allocate two pages at the next page boundary. Use the second as the user stack. *)
  let sz := PGROUNDUP sz in
  let! sz1 := kram (uvmalloc pagetable sz (u64 (sz + 2 * PGSIZE))) in
  if sz1 =? 0 then exec_bad pagetable sz None
  else
    let sz := sz1 in
    do! kram (uvmclear pagetable (sz - 2 * PGSIZE));
    let! r := kram (push_args pagetable sz argv) in
    match r with
    | None => exec_bad pagetable sz None
    | Some (argc, sp) =>
        do! kram (st64 (trapframe + 120) sp);          (* a1 *)
        let! oldpagetable := gets sy_pagetable in
        (* Save program name for debugging; commit to the user image. *)
        do! modify (λ s, set_sy_image sz pagetable (new_name (sy_name s) (last_element path path)) s);
        do! kram (st64 (trapframe + 24) (e_entry elf)); (* epc *)
        do! kram (st64 (trapframe + 48) sp);            (* sp *)
        do! kram (proc_freepagetable oldpagetable oldsz);
        ret argc
    end.
Definition exec (path : list Z) (argv : list Z) : M state Z :=
  do! kf op_begin;
  let! ip := sys_namei pid de name0 path in
  match ip with
  | None =>
      do! kf op_end;
      ret (-1)
  | Some ip =>
      do! kfs (ilock pid ip);
      (* Check ELF header *)
      let! b := read_local ip elf_addr 0 sizeof_elfhdr in
      match b with None => exec_bad 0 0 (Some ip) | Some b =>
      let elf := elfhdr_of b in
      if negb (e_magic elf =? ELF_MAGIC) then exec_bad 0 0 (Some ip)
      else
        let! pagetable := kram (proc_pagetable trapframe) in
        if pagetable =? 0 then exec_bad 0 0 (Some ip)
        else
          let! '(ok, sz) := load_program ip elf pagetable in
          if negb ok then exec_bad pagetable sz (Some ip)
          else
            do! kfs (iunlockput pid ip);
            do! kf op_end;
            exec_image path argv elf pagetable sz
      end
  end.

(** * sys_exec *)

(** [for(i = 0; i < NELEM(argv) && argv[i] != 0; i++) kfree(argv[i])]. *)
Fixpoint free_args (argv : list Z) : M kmem unit :=
  match argv with
  | [] => ret tt
  | p :: argv' => if p =? 0 then ret tt else do! kfree p; free_args argv'
  end.
(** The loop that fetches the arguments: the array, and whether it worked. *)
Definition fetch_round (uargv : Z) '((i, argv) : Z * list Z) : M state (Z * list Z + bool * list Z) :=
  if MAXARG <=? i then ret (inr (false, argv))
  else
    let! sz := gets sy_sz in
    let! pagetable := gets sy_pagetable in
    let! uarg := kram (fetchaddr sz pagetable (u64 (uargv + 8 * i))) in
    match uarg with
    | None => ret (inr (false, argv))
    | Some uarg =>
        if uarg =? 0 then ret (inr (true, <[Z.to_nat i := 0]> argv))
        else
          let! p := kram kalloc in
          let argv := <[Z.to_nat i := p]> argv in
          if p =? 0 then ret (inr (false, argv))
          else
            let! '(err, buf) := kram (copyinstr pagetable uarg PGSIZE) in
            do! kram (modify (upd_mem (λ m, store_bytes m p buf)));
            if err <? 0 then ret (inr (false, argv)) else ret (inl (i + 1, argv))
    end.
Definition sys_exec : M state Z :=
  let! path := sys_argstr trapframe 0 MAXPATH in
  match path with None => ret (-1) | Some path =>
  let! uargv := sys_argaddr trapframe 1 in
  let! '(ok, argv) := loop (Z.to_nat MAXARG + 2) (fetch_round uargv) (0, replicate (Z.to_nat MAXARG) 0) in
  let! r := (if ok : bool then exec path argv else ret (-1)) in
  do! kram (free_args argv);
  ret r
  end.
End exec.
