(* ===== verification/Ulib.v ===== *)
(** user/ulib.c: the user-level library.  Strings that are only read are the
    list of their characters up to the NUL; [s[i]] past the end of the list
    is the NUL.  Functions that write work on the byte memory of Mem.v. *)

From S2P Require Import Prelude Mem Cstring.

(** * Characters *)

(** The characters of a string literal. *)
Definition str (s : string) : list Z :=
  (λ c, Z.of_N (Ascii.N_of_ascii c)) <$> String.list_ascii_of_string s.
Definition chr (s : string) : Z := default 0 (str s !! 0%nat).
Definition NL : Z := 10.
Definition CR : Z := 13.

(** The characters of a buffer up to the NUL. *)
Fixpoint cstring (buf : list Z) : list Z :=
  match buf with
  | c :: buf' => if c =? 0 then [] else c :: cstring buf'
  | [] => []
  end.

(** * Functions that only read *)

Fixpoint strcmp (p q : list Z) : Z :=
  match p, q with
  | a :: p', b :: q' => if a =? b then strcmp p' q' else u8 a - u8 b
  | a :: _, [] => u8 a
  | [], b :: _ => - u8 b
  | [], [] => 0
  end.

Definition ustrlen (s : list Z) : Z := Z.of_nat (length s).

(** The suffix that starts with the first [c], or the null pointer; a NUL
    inside [s] ends the string. *)
Fixpoint strchr (s : list Z) (c : Z) : option (list Z) :=
  match s with
  | [] => None
  | x :: s' => if x =? 0 then None else if x =? c then Some s else strchr s' c
  end.

(** Signed overflow wraps. *)
Fixpoint atoi_from (n : Z) (s : list Z) : Z :=
  match s with
  | c :: s' => if (chr "0" <=? c) && (c <=? chr "9") then atoi_from (s32 (n * 10 + c - chr "0")) s'
               else n
  | [] => n
  end.
Definition atoi (s : list Z) : Z := atoi_from 0 s.

(** * Functions that write *)

(** Copies through the NUL; fuel because the string may have no end. *)
Fixpoint strcpy_from (m : mem) (s t : Z) (fuel : nat) : option mem :=
  match fuel with
  | O => None
  | S fuel' =>
      let c := load8 m t in
      let m' := store8 m s c in
      if c =? 0 then Some m' else strcpy_from m' (s + 1) (t + 1) fuel'
  end.
Definition strcpy (m : mem) (s t : Z) (fuel : nat) : option mem := strcpy_from m s t fuel.

Definition umemset (m : mem) (dst c n : Z) : mem := memset_from m dst c (Z.to_nat n).
(** Unlike the kernel's, this one copies down whenever [src <= dst]. *)
Definition umemmove (m : mem) (dst src n : Z) : mem :=
  if dst <? src then copy_up m dst src (Z.to_nat n)
  else copy_down m (dst + n) (src + n) (Z.to_nat n).
Fixpoint umemcmp_from (m : mem) (p1 p2 : Z) (n : nat) : Z :=
  match n with
  | O => 0
  | S n' => if load8 m p1 =? load8 m p2 then umemcmp_from m (p1 + 1) (p2 + 1) n'
            else load8 m p1 - load8 m p2
  end.
Definition umemcmp (m : mem) (s1 s2 n : Z) : Z := umemcmp_from m s1 s2 (Z.to_nat n).
Definition umemcpy (m : mem) (dst src n : Z) : mem := umemmove m dst src n.

(** [gets]: [input] is what [read(0, &c, 1)] delivers, one character at a
    time, and nothing at its end. Returns the line and the rest. *)
Fixpoint gets_from (input : list Z) (space : nat) : list Z * list Z :=
  match space, input with
  | S k, c :: input' =>
      if (c =? NL) || (c =? CR) then ([c], input')
      else let '(l, rest) := gets_from input' k in (c :: l, rest)
  | _, _ => ([], input)
  end.
Definition ugets (input : list Z) (max : Z) : list Z * list Z :=
  gets_from input (Z.to_nat (max - 1)).

(** [read(fd, buf, k)] on a file, pipe or terminal that still has [input] to
    deliver: at least one byte if there is any and [k > 0]; [want] is the
    number the kernel happens to have ready. *)
Definition read_n (want k : nat) (input : list Z) : nat :=
  Nat.min (Nat.min k (length input)) (Nat.max 1 want).

(** * Lemmas *)

Lemma strcmp_zero p q :
  Forall (λ c, 0 < c < 256) p → Forall (λ c, 0 < c < 256) q → strcmp p q = 0 ↔ p = q.
Proof.
  intros Hp. revert q. induction Hp as [|a p Ha Hp IH]; intros q Hq; destruct Hq as [|b q Hb Hq]; simpl.
  - done.
  - rewrite u8_id by (unfold fits; lia). split; [lia|done].
  - rewrite u8_id by (unfold fits; lia). split; [lia|done].
  - destruct (Z.eqb_spec a b) as [->|Hne].
    + rewrite IH by done. split; [by intros ->|congruence].
    + rewrite !u8_id by (unfold fits; lia). split; [lia|congruence].
Qed.

Lemma strchr_spec s c :
  0 ∉ s →
  match strchr s c with
  | Some s' => ∃ p t, s = p ++ s' ∧ s' = c :: t ∧ c ∉ p
  | None => c ∉ s
  end.
Proof.
  induction s as [|x s IH]; simpl; [intros _; apply not_elem_of_nil|].
  rewrite not_elem_of_cons. intros [H0 Hs].
  destruct (Z.eqb_spec x 0); [congruence|].
  destruct (Z.eqb_spec x c) as [->|Hne].
  - exists [], s. split_and!; [done|done|apply not_elem_of_nil].
  - specialize (IH Hs). destruct (strchr s c) as [s'|].
    + destruct IH as (p & t & -> & -> & Hp). exists (x :: p), t.
      split_and!; [done|done|]. rewrite not_elem_of_cons. auto.
    + rewrite not_elem_of_cons. auto.
Qed.

Lemma gets_from_spec input k line rest :
  gets_from input k = (line, rest) →
  input = line ++ rest ∧ (length line ≤ k)%nat ∧
  (∀ i c, line !! i = Some c → c = NL ∨ c = CR → S i = length line) ∧
  ((length line < k)%nat → rest = [] ∨ ∃ c, last line = Some c ∧ (c = NL ∨ c = CR)).
Proof.
  revert k line rest. induction input as [|c input IH]; intros k line rest; destruct k as [|k]; simpl;
    try by (intros [= <- <-]; split_and!; [done|simpl; lia|done|simpl; auto; lia]).
  destruct ((c =? NL) || (c =? CR)) eqn:Hc.
  - intros [= <- <-]. split_and!; [done|simpl; lia| |].
    + intros [|i] x Hx _; [done|]. simpl in Hx. by rewrite lookup_nil in Hx.
    + intros _. right. exists c. split; [done|]. bool_facts. destruct Hc; bool_facts; auto.
  - destruct (gets_from input k) as [l r] eqn:E. intros [= <- <-].
    destruct (IH _ _ _ E) as (-> & Hl & Hend & Hshort). split_and!; [done|simpl; lia| |].
    + intros [|i] x Hx Hnl; simplify_eq/=.
      * exfalso. bool_facts. destruct Hnl; congruence.
      * f_equal. by eapply Hend.
    + intros Hlt. simpl in Hlt. destruct Hshort as [->|(x & Hx & Hnl)]; [lia|auto|right].
      exists x. split; [|done]. by rewrite last_cons, Hx.
Qed.

(** The user's [memmove] agrees with the kernel's. *)
Lemma umemmove_load8 m dst src n x :
  0 ≤ n →
  load8 (umemmove m dst src n) x =
    if decide (range dst n x) then load8 m (src + (x - dst)) else load8 m x.
Proof.
  intros Hn. unfold umemmove. rewrite <- (Z2Nat.id n Hn) at 2 3.
  destruct (Z.ltb_spec dst src).
  - rewrite copy_up_spec by lia. rewrite Z2Nat.id by done. done.
  - rewrite copy_down_spec by lia. rewrite Z2Nat.id by done. done.
Qed.
