(* ===== verification/Printf.v ===== *)
(** kernel/printf.c and user/printf.c: formatted output, as the list of
    characters given to [consputc] or [putc].  The variable arguments are a
    list; taking one of the wrong kind or past the end is undefined
    behaviour ([None]). *)

From S2P Require Import Prelude Ulib.

(** * Numbers *)

Definition kdigits : list Z := str "0123456789abcdef".
Definition udigits : list Z := str "0123456789ABCDEF".
Definition digit (digits : list Z) (x : Z) : Z := default 0 (digits !! Z.to_nat x).

(** [do { buf[i++] = digits[x % base]; } while((x /= base) != 0)]: the
    characters of [buf], lowest digit first; a [uint] has at most 32 digits. *)
Fixpoint digits_of (digits : list Z) (fuel : nat) (base x : Z) : list Z :=
  match fuel with
  | O => []
  | S fuel' =>
      digit digits (x `mod` base) ::
      (if x / base =? 0 then [] else digits_of digits fuel' base (x / base))
  end.

(** [xx] is an [int]; [-xx] is computed in [int] and stored in a [uint]. *)
Definition printint (digits : list Z) (xx base : Z) (sign : bool) : list Z :=
  let neg := sign && (xx <? 0) in
  let x := if neg then u32 (- xx) else u32 xx in
  let buf := digits_of digits 32 base x ++ (if neg then [chr "-"] else []) in
  reverse buf.

Fixpoint ptr_digits (digits : list Z) (n : nat) (x : Z) : list Z :=
  match n with
  | O => []
  | S n' => digit digits (Z.shiftr x 60) :: ptr_digits digits n' (u64 (Z.shiftl x 4))
  end.
Definition printptr (digits : list Z) (x : Z) : list Z :=
  chr "0" :: chr "x" :: ptr_digits digits 16 x.

(** * Formats *)

Inductive arg := AInt (x : Z) | ALong (x : Z) | AStr (s : option (list Z)).
Definition null_str : list Z := str "(null)".

Definition then_ (out : list Z) (r : option (list Z)) : option (list Z) := (out ++.) <$> r.

(** kernel/printf.c: [printf]. *)
Fixpoint kprintf (fmt : list Z) (ap : list arg) : option (list Z) :=
  match fmt with
  | [] => Some []
  | c :: fmt' =>
      if negb (c =? chr "%") then then_ [c] (kprintf fmt' ap)
      else
        match fmt' with
        | [] => Some []
        | c :: fmt'' =>
            if c =? chr "d" then
              match ap with
              | AInt x :: ap' => then_ (printint kdigits x 10 true) (kprintf fmt'' ap')
              | _ => None
              end
            else if c =? chr "x" then
              match ap with
              | AInt x :: ap' => then_ (printint kdigits x 16 true) (kprintf fmt'' ap')
              | _ => None
              end
            else if c =? chr "p" then
              match ap with
              | ALong x :: ap' => then_ (printptr kdigits x) (kprintf fmt'' ap')
              | _ => None
              end
            else if c =? chr "s" then
              match ap with
              | AStr s :: ap' => then_ (default null_str s) (kprintf fmt'' ap')
              | _ => None
              end
            else if c =? chr "%" then then_ [chr "%"] (kprintf fmt'' ap)
            else then_ [chr "%"; c] (kprintf fmt'' ap)
        end
  end.

(** user/printf.c: [vprintf]; [pct] is [state == '%']. *)
Fixpoint vprintf (fmt : list Z) (pct : bool) (ap : list arg) : option (list Z) :=
  match fmt with
  | [] => Some []
  | c :: fmt' =>
      if negb pct then
        if c =? chr "%" then vprintf fmt' true ap else then_ [c] (vprintf fmt' false ap)
      else if c =? chr "d" then
        match ap with
        | AInt x :: ap' => then_ (printint udigits x 10 true) (vprintf fmt' false ap')
        | _ => None
        end
      else if c =? chr "l" then
        (* printint takes an int: the upper half of the uint64 is lost *)
        match ap with
        | ALong x :: ap' => then_ (printint udigits (s32 x) 10 false) (vprintf fmt' false ap')
        | _ => None
        end
      else if c =? chr "x" then
        match ap with
        | AInt x :: ap' => then_ (printint udigits x 16 false) (vprintf fmt' false ap')
        | _ => None
        end
      else if c =? chr "p" then
        match ap with
        | ALong x :: ap' => then_ (printptr udigits x) (vprintf fmt' false ap')
        | _ => None
        end
      else if c =? chr "s" then
        match ap with
        | AStr s :: ap' => then_ (default null_str s) (vprintf fmt' false ap')
        | _ => None
        end
      else if c =? chr "c" then
        match ap with
        | AInt x :: ap' => then_ [u8 x] (vprintf fmt' false ap')
        | _ => None
        end
      else if c =? chr "%" then then_ [c] (vprintf fmt' false ap)
      else then_ [chr "%"; c] (vprintf fmt' false ap)
  end.
Definition uprintf (fmt : list Z) (ap : list arg) : option (list Z) := vprintf fmt false ap.

(** * Digits *)

(** The number whose digits, lowest first, are [l]. *)
Fixpoint value (base : Z) (l : list Z) : Z :=
  match l with [] => 0 | d :: l' => d + base * value base l' end.
(** Digit values, lowest first. *)
Fixpoint base_digits (fuel : nat) (base x : Z) : list Z :=
  match fuel with
  | O => []
  | S fuel' => x `mod` base :: (if x / base =? 0 then [] else base_digits fuel' base (x / base))
  end.
Lemma digits_of_fmap digits fuel base x :
  digits_of digits fuel base x = digit digits <$> base_digits fuel base x.
Proof.
  revert x. induction fuel as [|fuel IH]; intros x; simpl; [done|]. f_equal.
  case_cmp; [done|]. apply IH.
Qed.

Lemma base_digits_value fuel base x :
  2 ≤ base → 0 ≤ x < 2 ^ Z.of_nat fuel → (0 < fuel)%nat → value base (base_digits fuel base x) = x.
Proof.
  intros Hb. revert x. induction fuel as [|fuel IH]; intros x Hx Hf; [lia|]. simpl.
  assert (0 ≤ x / base) by (apply Z.div_pos; lia).
  pose proof (Z.div_mod x base ltac:(lia)).
  case_cmp; simpl; [lia|]. rewrite IH; [lia| |].
  - split; [done|]. apply Z.div_lt_upper_bound; [lia|].
    rewrite Nat2Z.inj_succ, Z.pow_succ_r in Hx by lia. nia.
  - destruct fuel; [|lia]. simpl in Hx. assert (x / base = 0); [|lia]. apply Z.div_small. lia.
Qed.
Lemma base_digits_bound fuel base x : 2 ≤ base → Forall (λ d, 0 ≤ d < base) (base_digits fuel base x).
Proof.
  intros Hb. revert x. induction fuel as [|fuel IH]; intros x; simpl; [constructor|].
  constructor; [apply Z.mod_pos_bound; lia|]. case_cmp; [constructor|apply IH].
Qed.
Lemma base_digits_length fuel base x n :
  2 ≤ base → 0 ≤ x < base ^ Z.of_nat n → (0 < n)%nat → (length (base_digits fuel base x) ≤ n)%nat.
Proof.
  intros Hb. revert x n. induction fuel as [|fuel IH]; intros x n Hx Hn; simpl; [lia|].
  case_cmp; simpl; [lia|]. destruct n as [|n]; [lia|].
  assert (0 ≤ x / base) by (apply Z.div_pos; lia).
  assert (x / base < base ^ Z.of_nat n).
  { apply Z.div_lt_upper_bound; [lia|]. rewrite Nat2Z.inj_succ, Z.pow_succ_r in Hx by lia. lia. }
  destruct n as [|n]; [simpl in *; lia|]. specialize (IH (x / base) (S n)). lia.
Qed.

(** The highest digit is not zero, except in zero itself. *)
Lemma base_digits_top fuel base x :
  2 ≤ base → 0 ≤ x < 2 ^ Z.of_nat fuel → last (base_digits fuel base x) = Some 0 →
  base_digits fuel base x = [0].
Proof.
  intros Hb. revert x. induction fuel as [|fuel IH]; intros x Hx; [done|]. simpl.
  pose proof (Z.div_mod x base ltac:(lia)). pose proof (Z.mod_pos_bound x base ltac:(lia)).
  destruct (Z.eqb_spec (x / base) 0) as [Hq|Hq].
  - simpl. by intros [= ->].
  - assert (0 ≤ x / base) by (apply Z.div_pos; lia).
    assert (x / base < 2 ^ Z.of_nat fuel).
    { apply Z.div_lt_upper_bound; [lia|].
      rewrite Nat2Z.inj_succ, Z.pow_succ_r in Hx by lia. nia. }
    assert (0 < fuel)%nat by (destruct fuel; [simpl in *; lia|lia]).
    intros Hl. rewrite last_cons in Hl.
    destruct (last (base_digits fuel base (x / base))) as [d|] eqn:Hd.
    + simplify_eq. specialize (IH (x / base) ltac:(lia) Hd).
      pose proof (base_digits_value fuel base (x / base) Hb ltac:(lia) ltac:(lia)) as Hv.
      rewrite IH in Hv. simpl in Hv. lia.
    + apply last_None in Hd. destruct fuel; [lia|done].
Qed.
Lemma value_snoc base l d : value base (l ++ [d]) = value base l + d * base ^ Z.of_nat (length l).
Proof.
  induction l as [|x l IH]; [simpl; lia|].
  cbn [app value length]. rewrite IH, Nat2Z.inj_succ, Z.pow_succ_r by lia. lia.
Qed.
Lemma value_nonneg base l : 0 ≤ base → Forall (λ d, 0 ≤ d < base) l → 0 ≤ value base l.
Proof. intros Hb Hl. induction Hl; simpl; [lia|]. nia. Qed.

(** Both tables have the decimal digits in the same places. *)
Lemma digit_decimal digits d :
  digits = kdigits ∨ digits = udigits → 0 ≤ d < 10 → digit digits d = chr "0" + d.
Proof.
  intros Hd Hr. assert (d = 0 ∨ d = 1 ∨ d = 2 ∨ d = 3 ∨ d = 4 ∨ d = 5 ∨ d = 6 ∨ d = 7 ∨ d = 8 ∨ d = 9)
    by lia. destruct Hd as [->| ->]; naive_solver.
Qed.

Lemma atoi_from_digits digits n ds rest :
  digits = kdigits ∨ digits = udigits → Forall (λ d, 0 ≤ d < 10) ds → 0 ≤ n →
  n * 10 ^ Z.of_nat (length ds) + value 10 (reverse ds) < 2 ^ 31 →
  atoi_from n ((digit digits <$> ds) ++ rest) =
    atoi_from (n * 10 ^ Z.of_nat (length ds) + value 10 (reverse ds)) rest.
Proof.
  intros Hd Hds. revert n. induction Hds as [|d ds Hd0 Hds IH]; intros n Hn Hlt.
  { simpl. f_equal. lia. }
  rewrite reverse_cons, value_snoc, length_reverse in Hlt |- *. cbn [length] in Hlt |- *.
  rewrite Nat2Z.inj_succ, Z.pow_succ_r in Hlt |- * by lia.
  set (p := 10 ^ Z.of_nat (length ds)) in *. assert (0 < p) by (apply Z.pow_pos_nonneg; lia).
  assert (0 ≤ value 10 (reverse ds)).
  { apply value_nonneg; [lia|]. by apply Forall_reverse. }
  cbn [fmap list_fmap app atoi_from]. rewrite digit_decimal by done.
  change (chr "0") with 48 in *. change (chr "9") with 57.
  assert ((48 <=? 48 + d) && (48 + d <=? 57) = true) as -> by lia.
  rewrite s32_id by nia. rewrite IH; [|lia|].
  - fold p. f_equal. lia.
  - fold p. lia.
Qed.

(** The digits of an unsigned number, highest first. *)
Definition number (digits : list Z) (base x : Z) : list Z := reverse (digits_of digits 32 base x).

(** C33: printing a number in decimal and reading it back with [atoi] gives the
    number, for both [printf]s and every non-negative [int]. *)
Theorem printint_atoi digits x rest :
  digits = kdigits ∨ digits = udigits → 0 ≤ x < 2 ^ 31 →
  (∀ c, head rest = Some c → c < chr "0" ∨ chr "9" < c) →
  atoi (printint digits x 10 true ++ rest) = x.
Proof.
  intros Hd Hx Hrest. unfold printint, atoi.
  assert ((x <? 0) = false) as -> by lia. cbn [andb]. rewrite app_nil_r, u32_id by (unfold fits; lia).
  rewrite digits_of_fmap, <- fmap_reverse.
  pose proof (base_digits_value 32 10 x ltac:(lia) ltac:(lia) ltac:(lia)) as Hv.
  rewrite atoi_from_digits; rewrite ?reverse_involutive, ?Hv; [|done| |lia|lia].
  - rewrite Z.mul_0_l, Z.add_0_l. destruct rest as [|c rest]; [done|]. simpl.
    specialize (Hrest c eq_refl).
    assert ((chr "0" <=? c) && (c <=? chr "9") = false) as ->; [|done].
    apply andb_false_iff. destruct Hrest; [left|right]; lia.
  - apply Forall_reverse. by apply base_digits_bound.
Qed.
Lemma printint_atoi_witness :
  printint udigits 2147483647 10 true = str "2147483647" ∧
  atoi (printint udigits 2147483647 10 true ++ str " pages") = 2147483647.
Proof.
  split; [vm_compute; reflexivity|].
  refine (printint_atoi udigits 2147483647 (str " pages") (or_intror eq_refl) _ _).
  - lia.
  - intros c [= <-]. left. reflexivity.
Defined.

(** [printint] prints every [int], the most negative one included, as an
    optional minus sign and the digits of its magnitude without leading
    zeroes, and never overruns its buffer of 16 characters. *)
Theorem printint_digits digits xx base sign :
  - 2 ^ 31 ≤ xx < 2 ^ 31 → base = 10 ∨ base = 16 →
  let x := if sign && (xx <? 0) then - xx else u32 xx in
  ∃ ds, printint digits xx base sign =
      (if sign && (xx <? 0) then [chr "-"] else []) ++ (digit digits <$> ds) ∧
    Forall (λ d, 0 ≤ d < base) ds ∧ value base (reverse ds) = x ∧
    (head ds = Some 0 → ds = [0]) ∧ (length (printint digits xx base sign) ≤ 16)%nat.
Proof.
  intros Hxx Hbase x. assert (0 ≤ x < 2 ^ 32) as Hx.
  { unfold x. destruct (sign && (xx <? 0)) eqn:Hc; [bool_facts; lia|]. unfold u32. dlia. }
  assert ((if sign && (xx <? 0) then u32 (- xx) else u32 xx) = x) as Hu.
  { unfold x in *. destruct (sign && (xx <? 0)); [|done]. apply u32_id. unfold fits. lia. }
  exists (reverse (base_digits 32 base x)). unfold printint. rewrite Hu, digits_of_fmap.
  assert (2 ≤ base) as Hb by lia. split_and!.
  - rewrite reverse_app, fmap_reverse. by destruct (sign && (xx <? 0)).
  - apply Forall_reverse. by apply base_digits_bound.
  - rewrite reverse_involutive. apply base_digits_value; [done|lia|lia].
  - intros Hh. rewrite head_reverse in Hh. by apply base_digits_top in Hh as ->.
  - rewrite length_reverse, length_app, length_fmap.
    assert (length (base_digits 32 base x) ≤ 10)%nat.
    { apply base_digits_length; [done| |lia]. destruct Hbase as [->| ->]; lia. }
    destruct (sign && (xx <? 0)); cbn [length]; lia.
Qed.

