(* ===== verification/Proc.v ===== *)
(** kernel/proc.c: the process table.  A [struct proc *] is the index of the
    process in the array [proc]; a wait channel is a kernel address, that of a
    process among them.  The operations work on the table together with the
    physical memory and with the open files, which file.c and fs.c manage
    (class [FileOps]).  The saved registers of [swtch] are not modelled: a
    function that gives up the CPU is split into the part before [sched] and
    the part after it. *)

From S2P Require Import Prelude Riscv Mem Cstring Spinlock Kalloc Vm ProcMem Ulib.

(** * Data *)

Inductive procstate := UNUSED | USED | SLEEPING | RUNNABLE | RUNNING | ZOMBIE.
#[export] Instance procstate_eq_dec : EqDecision procstate.
Proof. solve_decision. Defined.

(** [NoChan] is the null pointer, [AtProc i] the address of [proc[i]]. *)
Inductive channel := NoChan | AtProc (i : nat) | AtAddr (a : Z).
#[export] Instance channel_eq_dec : EqDecision channel.
Proof. solve_decision. Defined.

Record proc := Proc {
  p_lock : bool;
  p_state : procstate;
  p_chan : channel;
  p_killed : Z;
  p_xstate : Z;
  p_pid : Z;
  p_parent : option nat;
  p_kstack : Z;
  p_sz : Z;
  p_pagetable : Z;
  p_trapframe : Z;
  p_ofile : list Z;     (* pointers to struct file *)
  p_cwd : Z;            (* pointer to struct inode *)
  p_name : list Z;
}.

Definition set_p_lock b p := Proc b (p_state p) (p_chan p) (p_killed p) (p_xstate p) (p_pid p)
  (p_parent p) (p_kstack p) (p_sz p) (p_pagetable p) (p_trapframe p) (p_ofile p) (p_cwd p) (p_name p).
Definition set_p_state x p := Proc (p_lock p) x (p_chan p) (p_killed p) (p_xstate p) (p_pid p)
  (p_parent p) (p_kstack p) (p_sz p) (p_pagetable p) (p_trapframe p) (p_ofile p) (p_cwd p) (p_name p).
Definition set_p_chan x p := Proc (p_lock p) (p_state p) x (p_killed p) (p_xstate p) (p_pid p)
  (p_parent p) (p_kstack p) (p_sz p) (p_pagetable p) (p_trapframe p) (p_ofile p) (p_cwd p) (p_name p).
Definition set_p_killed x p := Proc (p_lock p) (p_state p) (p_chan p) x (p_xstate p) (p_pid p)
  (p_parent p) (p_kstack p) (p_sz p) (p_pagetable p) (p_trapframe p) (p_ofile p) (p_cwd p) (p_name p).
Definition set_p_xstate x p := Proc (p_lock p) (p_state p) (p_chan p) (p_killed p) x (p_pid p)
  (p_parent p) (p_kstack p) (p_sz p) (p_pagetable p) (p_trapframe p) (p_ofile p) (p_cwd p) (p_name p).
Definition set_p_pid x p := Proc (p_lock p) (p_state p) (p_chan p) (p_killed p) (p_xstate p) x
  (p_parent p) (p_kstack p) (p_sz p) (p_pagetable p) (p_trapframe p) (p_ofile p) (p_cwd p) (p_name p).
Definition set_p_parent x p := Proc (p_lock p) (p_state p) (p_chan p) (p_killed p) (p_xstate p)
  (p_pid p) x (p_kstack p) (p_sz p) (p_pagetable p) (p_trapframe p) (p_ofile p) (p_cwd p) (p_name p).
Definition set_p_kstack x p := Proc (p_lock p) (p_state p) (p_chan p) (p_killed p) (p_xstate p)
  (p_pid p) (p_parent p) x (p_sz p) (p_pagetable p) (p_trapframe p) (p_ofile p) (p_cwd p) (p_name p).
Definition set_p_sz x p := Proc (p_lock p) (p_state p) (p_chan p) (p_killed p) (p_xstate p)
  (p_pid p) (p_parent p) (p_kstack p) x (p_pagetable p) (p_trapframe p) (p_ofile p) (p_cwd p) (p_name p).
Definition set_p_pagetable x p := Proc (p_lock p) (p_state p) (p_chan p) (p_killed p) (p_xstate p)
  (p_pid p) (p_parent p) (p_kstack p) (p_sz p) x (p_trapframe p) (p_ofile p) (p_cwd p) (p_name p).
Definition set_p_trapframe x p := Proc (p_lock p) (p_state p) (p_chan p) (p_killed p) (p_xstate p)
  (p_pid p) (p_parent p) (p_kstack p) (p_sz p) (p_pagetable p) x (p_ofile p) (p_cwd p) (p_name p).
Definition set_p_ofile x p := Proc (p_lock p) (p_state p) (p_chan p) (p_killed p) (p_xstate p)
  (p_pid p) (p_parent p) (p_kstack p) (p_sz p) (p_pagetable p) (p_trapframe p) x (p_cwd p) (p_name p).
Definition set_p_cwd x p := Proc (p_lock p) (p_state p) (p_chan p) (p_killed p) (p_xstate p)
  (p_pid p) (p_parent p) (p_kstack p) (p_sz p) (p_pagetable p) (p_trapframe p) (p_ofile p) x (p_name p).
Definition set_p_name x p := Proc (p_lock p) (p_state p) (p_chan p) (p_killed p) (p_xstate p)
  (p_pid p) (p_parent p) (p_kstack p) (p_sz p) (p_pagetable p) (p_trapframe p) (p_ofile p) (p_cwd p) x.

(** What proc.c calls of file.c, fs.c and log.c. *)
Class FileOps (F : Type) := {
  f_filedup : Z → M F Z;
  f_fileclose : Z → M F unit;
  f_idup : Z → M F Z;
  f_iput : Z → M F unit;          (* begin_op(); iput(ip); end_op(); *)
  f_root : M F Z;                 (* namei of the root directory *)
}.

Section proc.
Context {F : Type} {L : Linker} `{FO : FileOps F}.

Record ptable := PTable {
  t_procs : list proc;
  t_nextpid : Z;
  t_pid_lock : bool;
  t_wait_lock : bool;
  t_initproc : option nat;
  t_mem : kmem;
  t_files : F;
}.
Definition set_procs x t := PTable x (t_nextpid t) (t_pid_lock t) (t_wait_lock t) (t_initproc t) (t_mem t) (t_files t).
Definition set_nextpid x t := PTable (t_procs t) x (t_pid_lock t) (t_wait_lock t) (t_initproc t) (t_mem t) (t_files t).
Definition set_pid_lock x t := PTable (t_procs t) (t_nextpid t) x (t_wait_lock t) (t_initproc t) (t_mem t) (t_files t).
Definition set_wait_lock x t := PTable (t_procs t) (t_nextpid t) (t_pid_lock t) x (t_initproc t) (t_mem t) (t_files t).
Definition set_initproc x t := PTable (t_procs t) (t_nextpid t) (t_pid_lock t) (t_wait_lock t) x (t_mem t) (t_files t).
Definition set_tmem x t := PTable (t_procs t) (t_nextpid t) (t_pid_lock t) (t_wait_lock t) (t_initproc t) x (t_files t).
Definition set_files x t := PTable (t_procs t) (t_nextpid t) (t_pid_lock t) (t_wait_lock t) (t_initproc t) (t_mem t) x.

(** ** Access *)

Definition getp (i : nat) : M ptable proc := λ t,
  match t_procs t !! i with Some p => Ok p t | None => Stuck end.
Definition updp (i : nat) (f : proc → proc) : M ptable unit :=
  modify (λ t, set_procs (alter f i (t_procs t)) t).
Definition mem_op {A} (m : M kmem A) : M ptable A := zoom t_mem set_tmem m.
Definition file_op {A} (m : M F A) : M ptable A := zoom t_files set_files m.

(** [acquire(&p->lock)] and [release(&p->lock)]. *)
Definition proc_acquire (i : nat) : M ptable unit :=
  let! p := getp i in
  if p_lock p then panic "acquire" else updp i (set_p_lock true).
Definition proc_release (i : nat) : M ptable unit :=
  let! p := getp i in
  if p_lock p then updp i (set_p_lock false) else panic "release".
Definition wait_acquire : M ptable unit := zoom t_wait_lock set_wait_lock Lock.lk_acquire.
Definition wait_release : M ptable unit := zoom t_wait_lock set_wait_lock Lock.lk_release.

(** [for(p = proc; p < &proc[NPROC]; p++)], left early with a result. *)
Fixpoint for_procs {A} (ix : list nat) (body : nat → M ptable (option A)) : M ptable (option A) :=
  match ix with
  | [] => ret None
  | i :: ix' =>
      let! r := body i in
      match r with Some a => ret (Some a) | None => for_procs ix' body end
  end.
Definition all_procs : list nat := seq 0 (Z.to_nat NPROC).

(** ** Allocation *)

Definition procinit : M ptable unit :=
  do! modify (set_pid_lock false);
  do! modify (set_wait_lock false);
  let! _ := for_procs all_procs (λ i,
    do! updp i (set_p_lock false);
    do! updp i (set_p_kstack (KSTACK (Z.of_nat i)));
    ret (@None unit)) in
  ret tt.

Definition allocpid : M ptable Z :=
  do! zoom t_pid_lock set_pid_lock Lock.lk_acquire;
  let! pid := gets t_nextpid in
  do! modify (set_nextpid (s32 (pid + 1)));
  do! zoom t_pid_lock set_pid_lock Lock.lk_release;
  ret pid.

Definition freeproc (i : nat) : M ptable unit :=
  let! p := getp i in
  do! when (truth (p_trapframe p)) (mem_op (kfree (p_trapframe p)));
  do! updp i (set_p_trapframe 0);
  let! p := getp i in
  do! when (truth (p_pagetable p)) (mem_op (proc_freepagetable (p_pagetable p) (p_sz p)));
  do! updp i (λ p,
    set_p_state UNUSED (set_p_xstate 0 (set_p_killed 0 (set_p_chan NoChan
      (set_p_name (<[0%nat := 0]> (p_name p)) (set_p_parent None (set_p_pid 0
        (set_p_sz 0 (set_p_pagetable 0 p)))))))));
  ret tt.

(** Returns with [p->lock] held. *)
Definition allocproc : M ptable (option nat) :=
  let! found := for_procs all_procs (λ i,
    do! proc_acquire i;
    let! p := getp i in
    if decide (p_state p = UNUSED) then ret (Some i)
    else
      do! proc_release i;
      ret None) in
  match found with
  | None => ret None
  | Some i =>
      let! pid := allocpid in
      do! updp i (λ p, set_p_state USED (set_p_pid pid p));
      let! tf := mem_op kalloc in
      do! updp i (set_p_trapframe tf);
      if tf =? 0 then
        do! freeproc i;
        do! proc_release i;
        ret None
      else
        let! pt := mem_op (proc_pagetable tf) in
        do! updp i (set_p_pagetable pt);
        if pt =? 0 then
          do! freeproc i;
          do! proc_release i;
          ret None
        else ret (Some i)
  end.

(** [safestrcpy(p->name, src, sizeof(p->name))], of the characters [src]. *)
Definition copy_name (src old : list Z) : list Z :=
  let c := take 15 (cstring src) in c ++ [0] ++ drop (length c + 1) old.

Definition userinit (initcode : list Z) : M ptable unit :=
  let! r := allocproc in
  match r with
  | None => stuck          (* a null pointer: there is memory at boot *)
  | Some i =>
      do! modify (set_initproc (Some i));
      let! p := getp i in
      do! mem_op (uvminit (p_pagetable p) initcode (Z.of_nat (length initcode)));
      do! updp i (set_p_sz PGSIZE);
      do! mem_op (st64 (p_trapframe p + 24) 0);         (* epc *)
      do! mem_op (st64 (p_trapframe p + 48) PGSIZE);    (* sp *)
      do! updp i (λ p, set_p_name (copy_name (str "initcode") (p_name p)) p);
      let! cwd := file_op f_root in
      do! updp i (set_p_cwd cwd);
      do! updp i (set_p_state RUNNABLE);
      proc_release i
  end.

(** ** fork *)

(** [for(i = 0; i < NOFILE; i++) if(p->ofile[i]) np->ofile[i] = filedup(p->ofile[i]);] *)
Fixpoint dup_files (fs nfs : list Z) : M ptable (list Z) :=
  match fs, nfs with
  | f :: fs', g :: nfs' =>
      let! g := (if truth f then file_op (f_filedup f) else ret g) in
      let! rest := dup_files fs' nfs' in
      ret (g :: rest)
  | _, _ => ret nfs
  end.

(** Up to the first [release(&np->lock)]. *)
Definition fork_alloc (me : nat) : M ptable (option nat) :=
  let! r := allocproc in
  match r with
  | None => ret None
  | Some np =>
      let! p := getp me in
      let! n := getp np in
      let! r := mem_op (uvmcopy (p_pagetable p) (p_pagetable n) (p_sz p)) in
      if r <? 0 then
        do! freeproc np;
        do! proc_release np;
        ret None
      else
        do! updp np (set_p_sz (p_sz p));
        do! mem_op (m_memmove (p_trapframe n) (p_trapframe p) 288);
        do! mem_op (st64 (p_trapframe n + 112) 0);     (* a0 *)
        let! ofile := dup_files (p_ofile p) (p_ofile n) in
        do! updp np (set_p_ofile ofile);
        let! cwd := file_op (f_idup (p_cwd p)) in
        do! updp np (set_p_cwd cwd);
        do! updp np (λ q, set_p_name (copy_name (p_name p) (p_name q)) q);
        do! proc_release np;
        ret (Some np)
  end.
Definition fork_parent (me np : nat) : M ptable unit :=
  do! wait_acquire;
  do! updp np (set_p_parent (Some me));
  wait_release.
Definition fork_ready (np : nat) : M ptable unit :=
  do! proc_acquire np;
  do! updp np (set_p_state RUNNABLE);
  proc_release np.
Definition fork (me : nat) : M ptable Z :=
  let! r := fork_alloc me in
  match r with
  | None => ret (-1)
  | Some np =>
      let! n := getp np in
      let pid := p_pid n in
      do! fork_parent me np;
      do! fork_ready np;
      ret pid
  end.

(** ** sleep, wakeup, kill *)

Definition wakeup (me : option nat) (chan : channel) : M ptable unit :=
  let! _ := for_procs all_procs (λ i,
    if decide (Some i = me) then ret (@None unit)
    else
      do! proc_acquire i;
      let! p := getp i in
      do! when (bool_decide (p_state p = SLEEPING) && bool_decide (p_chan p = chan))
        (updp i (set_p_state RUNNABLE));
      do! proc_release i;
      ret None) in
  ret tt.

(** The CPU after the caller's calls of [acquire] ([true]) and [release]
    ([false]), which run [push_off] and [pop_off]: it came from user space with
    no lock held and interrupts on. *)
Definition cpu_after (calls : list bool) : cpu :=
  foldl (λ c b, match (if b : bool then push_off else pop_off) (LkState (Spinlock 0 "" None) c) with
                | Ok _ s => Spinlock.me s
                | _ => c
                end) (Cpu 0 0 SSTATUS_SIE) calls.
(** [sched]'s checks; [c] is [mycpu()]. The scheduler it switches to then
    releases [p->lock]. *)
Definition sched (c : cpu) (me : nat) : M ptable unit :=
  let! p := getp me in
  if negb (p_lock p) then panic "sched p->lock"
  else if negb (c_noff c =? 1) then panic "sched locks"
  else if decide (p_state p = RUNNING) then panic "sched running"
  else if intr_get (c_sstatus c) then panic "sched interruptible"
  else proc_release me.
(** One lock is held, the process's own. *)
Definition one_lock : list bool := [true].
(** The same, after another lock was held and released under it. *)
Definition other_released : list bool := [true; true; false].

(** [sleep] up to [sched]; [release] releases the condition's lock. *)
Definition sleep_enter (me : nat) (chan : channel) (release : M ptable unit) : M ptable unit :=
  do! proc_acquire me;
  do! release;
  do! updp me (λ p, set_p_state SLEEPING (set_p_chan chan p));
  sched (cpu_after other_released) me.
(** The rest of it, once the scheduler has made the process RUNNING with its
    lock held: tidy up; the caller takes the condition's lock. *)
Definition sleep_leave (me : nat) : M ptable unit :=
  updp me (set_p_chan NoChan).

Definition yield (me : nat) : M ptable unit :=
  do! proc_acquire me;
  do! updp me (set_p_state RUNNABLE);
  sched (cpu_after one_lock) me.

(** One turn of the scheduler's loop for [proc[i]]: whether it ran. The process
    releases [p->lock] as soon as it runs. *)
Definition scheduler_turn (i : nat) : M ptable bool :=
  do! proc_acquire i;
  let! p := getp i in
  if decide (p_state p = RUNNABLE) then
    do! updp i (set_p_state RUNNING);
    do! proc_release i;
    ret true
  else
    do! proc_release i;
    ret false.

Definition kill (pid : Z) : M ptable Z :=
  let! r := for_procs all_procs (λ i,
    do! proc_acquire i;
    let! p := getp i in
    if p_pid p =? pid then
      do! updp i (set_p_killed 1);
      do! when (bool_decide (p_state p = SLEEPING)) (updp i (set_p_state RUNNABLE));
      do! proc_release i;
      ret (Some 0)
    else
      do! proc_release i;
      ret None) in
  ret (default (-1) r).

(** ** exit and wait *)

Definition reparent (me : nat) : M ptable unit :=
  let! _ := for_procs all_procs (λ i,
    let! pp := getp i in
    if decide (p_parent pp = Some me) then
      let! init := gets t_initproc in
      do! updp i (set_p_parent init);
      do! match init with Some j => wakeup (Some me) (AtProc j) | None => ret tt end;
      ret (@None unit)
    else ret None) in
  ret tt.

Fixpoint close_files (fs : list Z) : M ptable (list Z) :=
  match fs with
  | [] => ret []
  | f :: fs' =>
      do! when (truth f) (file_op (f_fileclose f));
      let! rest := close_files fs' in
      ret (0 :: rest)
  end.
(** Closing the files, which may sleep, comes first. *)
Definition exit_close (me : nat) : M ptable unit :=
  let! init := gets t_initproc in
  if decide (init = Some me) then panic "init exiting"
  else
    let! p := getp me in
    let! ofile := close_files (p_ofile p) in
    do! updp me (set_p_ofile ofile);
    do! file_op (f_iput (p_cwd p));
    updp me (set_p_cwd 0).
(** Then the process becomes a zombie. *)
Definition exit_zombie (me : nat) (status : Z) : M ptable unit :=
  do! wait_acquire;
  do! reparent me;
  let! p := getp me in
  do! match p_parent p with Some q => wakeup (Some me) (AtProc q) | None => ret tt end;
  do! proc_acquire me;
  do! updp me (λ p, set_p_state ZOMBIE (set_p_xstate status p));
  do! wait_release;
  sched (cpu_after other_released) me.
Definition exit (me : nat) (status : Z) : M ptable unit :=
  do! exit_close me;
  exit_zombie me status.

(** One scan of [wait]'s loop, entered with [wait_lock] held: [inr r] when the
    system call returns [r], and then the lock is released; [inl tt] when it
    goes to sleep, with the lock held. *)
Fixpoint wait_loop (ix : list nat) (me : nat) (addr : Z) (havekids : bool)
    : M ptable (unit + Z) :=
  match ix with
  | [] =>
      let! p := getp me in
      if negb havekids || truth (p_killed p) then
        do! wait_release;
        ret (inr (-1))
      else ret (inl tt)
  | i :: ix' =>
      let! np := getp i in
      if decide (p_parent np = Some me) then
        do! proc_acquire i;
        if decide (p_state np = ZOMBIE) then
          let! p := getp me in
          let! r := (if addr =? 0 then ret 0
                     else mem_op (copyout (p_pagetable p) addr (le_split 4 (u32 (p_xstate np))) 4)) in
          if r <? 0 then
            do! proc_release i;
            do! wait_release;
            ret (inr (-1))
          else
            do! freeproc i;
            do! proc_release i;
            do! wait_release;
            ret (inr (p_pid np))
        else
          do! proc_release i;
          wait_loop ix' me addr true
      else wait_loop ix' me addr havekids
  end.
Definition wait_scan (me : nat) (addr : Z) : M ptable (unit + Z) :=
  wait_loop all_procs me addr false.
End proc.
