(* ===== verification/Procdump.v ===== *)
(** kernel/proc.c: [procdump], the process list that ^P prints, as the
    characters it gives to [consputc]. *)

From S2P Require Import Prelude Mem Cstring Ulib Printf Proc.

(** [states[p->state]], or question marks where the array has no string. *)
Definition state_name (s : procstate) : list Z :=
  match s with
  | UNUSED => str "unused"
  | USED => str "???"
  | SLEEPING => str "sleep "
  | RUNNABLE => str "runble"
  | RUNNING => str "run   "
  | ZOMBIE => str "zombie"
  end.
Definition newline_str : list Z := [10].
(** The characters of [p->name] before its NUL. *)
Definition name_str (p : proc) : list Z := cstr (λ i, default 0 (p_name p !! Z.to_nat i)) 16.

Fixpoint procdump_from (ps : list proc) : option (list Z) :=
  match ps with
  | [] => Some []
  | p :: ps' =>
      if decide (p_state p = UNUSED) then procdump_from ps'
      else
        line ← kprintf (str "%d %s %s") [AInt (p_pid p); AStr (Some (state_name (p_state p))); AStr (Some (name_str p))];
        nl ← kprintf newline_str [];
        rest ← procdump_from ps';
        Some (line ++ nl ++ rest)
  end.
(** Runs without the process locks: [ps] is the table as it finds it. *)
Definition procdump (ps : list proc) : option (list Z) :=
  nl ← kprintf newline_str [];
  rest ← procdump_from ps;
  Some (nl ++ rest).

(** It always prints: one line per process. *)
Definition dump_line (p : proc) : list Z :=
  if decide (p_state p = UNUSED) then []
  else printint kdigits (p_pid p) 10 true ++ [32] ++ state_name (p_state p) ++ [32] ++ name_str p ++ [10].
Lemma kprintf_line x s n :
  kprintf (str "%d %s %s") [AInt x; AStr (Some s); AStr (Some n)] = Some (printint kdigits x 10 true ++ [32] ++ s ++ [32] ++ n).
Proof. unfold kprintf, str. simpl. unfold then_. simpl. by rewrite app_nil_r. Qed.
Lemma procdump_lines ps : procdump ps = Some (10 :: concat (dump_line <$> ps)).
Proof.
  assert (procdump_from ps = Some (concat (dump_line <$> ps))) as E; [|unfold procdump; by rewrite E].
  induction ps as [|p ps IH]; [done|]. cbn [procdump_from fmap list_fmap concat]. unfold dump_line at 1. case_decide; [exact IH|].
  rewrite kprintf_line, IH. change (kprintf newline_str []) with (Some newline_str). simpl. f_equal.
  by repeat (rewrite <- app_assoc; simpl).
Qed.
