(* ===== verification/Ring.v ===== *)
(** Ring buffers: an array with a read index that counts modulo a power of two,
    as uart.c, console.c and virtio_disk.c have them. *)

From S2P Require Import Prelude.

(** [q] is in the buffer from index [r] on. *)
Record ring {A} (N : Z) (buf : list A) (r : Z) (q : list A) : Prop := {
  rg_len : length buf = Z.to_nat N;
  rg_size : Z.of_nat (length q) ≤ N;
  rg_q : ∀ i x, q !! i = Some x → buf !! Z.to_nat ((r + Z.of_nat i) `mod` N) = Some x;
}.
Section ring.
Context {A : Type} (N : Z) (HN : 0 < N).
Implicit Types buf q : list A.
Lemma ring_index r i : (Z.to_nat ((r + Z.of_nat i) `mod` N) < Z.to_nat N)%nat.
Proof using HN. pose proof (Z.mod_pos_bound (r + Z.of_nat i) N HN). lia. Qed.
Lemma ring_mod_ne r i j : (i < j)%nat → Z.of_nat j < Z.of_nat i + N →
  Z.to_nat ((r + Z.of_nat i) `mod` N) ≠ Z.to_nat ((r + Z.of_nat j) `mod` N).
Proof using HN.
  intros Hlt Hd E. pose proof (Z.mod_pos_bound (r + Z.of_nat i) N HN). pose proof (Z.mod_pos_bound (r + Z.of_nat j) N HN).
  assert ((r + Z.of_nat j - (r + Z.of_nat i)) `mod` N = 0) as E'.
  { rewrite Zminus_mod. replace ((r + Z.of_nat j) `mod` N) with ((r + Z.of_nat i) `mod` N) by lia. by rewrite Z.sub_diag, Z.mod_0_l by lia. }
  replace (r + Z.of_nat j - (r + Z.of_nat i)) with (Z.of_nat j - Z.of_nat i) in E' by lia.
  rewrite Z.mod_small in E' by lia. lia.
Qed.
Lemma ring_push buf r q c : ring N buf r q → Z.of_nat (length q) < N →
  ring N (<[Z.to_nat ((r + Z.of_nat (length q)) `mod` N) := c]> buf) r (q ++ [c]).
Proof using HN.
  intros [Hl Hs Hq] Hlt. split; [by rewrite length_insert|rewrite length_app; simpl; lia|].
  intros i x Hx. apply lookup_app_Some in Hx as [Hx|[Hge Hx]].
  - pose proof (lookup_lt_Some _ _ _ Hx). rewrite list_lookup_insert_ne; [by apply Hq|].
    apply not_eq_sym, ring_mod_ne; lia.
  - apply list_lookup_singleton_Some in Hx as [Hi ->]. assert (i = length q) as -> by lia.
    apply list_lookup_insert_eq. rewrite Hl. apply ring_index.
Qed.
Lemma ring_front buf r c q : ring N buf r (c :: q) → buf !! Z.to_nat (r `mod` N) = Some c.
Proof using. intros [_ _ Hq]. specialize (Hq 0%nat c eq_refl). by rewrite Z.add_0_r in Hq. Qed.
Lemma ring_pop buf r c q : ring N buf r (c :: q) → ring N buf (r + 1) q.
Proof using.
  intros [Hl Hs Hq]. split; [done|simpl in Hs; lia|]. intros i x Hx. rewrite <- (Hq (S i) x Hx).
  do 3 f_equal. lia.
Qed.
Lemma ring_last buf r q c : ring N buf r (q ++ [c]) → ring N buf r q ∧
  buf !! Z.to_nat ((r + Z.of_nat (length q)) `mod` N) = Some c.
Proof using.
  intros [Hl Hs Hq]. rewrite length_app in Hs. simpl in Hs. split.
  - split; [done|lia|]. intros i x Hx. apply Hq. by apply lookup_app_l_Some.
  - apply Hq. by rewrite lookup_app_r, Nat.sub_diag.
Qed.
(** The index wraps around at a multiple of the size. *)
Lemma ring_wrap W buf r q : (N | W) → 0 < W → ring N buf r q ↔ ring N buf (r `mod` W) q.
Proof using HN.
  intros [k ->] HW. assert (∀ i, (r `mod` (k * N) + i) `mod` N = (r + i) `mod` N) as E.
  { intros i. rewrite <- (Zplus_mod_idemp_l r i N). rewrite <- (Zplus_mod_idemp_l (r `mod` (k * N)) i N). do 2 f_equal.
    apply Z.mod_mod_divide. by exists k. }
  split; intros [Hl Hs Hq]; (split; [done..|]); intros i x Hx; specialize (Hq i x Hx).
  - by rewrite E.
  - by rewrite E in Hq.
Qed.
End ring.
