(* ===== verification/Console.v ===== *)
(** kernel/uart.c and kernel/console.c: the driver of the 16550a UART and the
    console's line discipline.  The device itself is a parameter: reading and
    writing its registers changes its state in ways the driver does not see.
    A process that sleeps in [uartputc] or [consoleread] gives up the lock and
    goes on from the loop it slept in; the result then has the channel.  The
    calls of [wakeup] are recorded. *)

From S2P Require Import Prelude Riscv Mem Spinlock Kalloc Vm FsLayout ProcMem Procdump.

(** * The UART *)

Definition RHR : Z := 0.
Definition THR : Z := 0.
Definition IER : Z := 1.
Definition IER_RX_ENABLE : Z := 1.
Definition IER_TX_ENABLE : Z := 2.
Definition FCR : Z := 2.
Definition FCR_FIFO_ENABLE : Z := 1.
Definition FCR_FIFO_CLEAR : Z := 6.
Definition LCR : Z := 3.
Definition LCR_EIGHT_BITS : Z := 3.
Definition LCR_BAUD_LATCH : Z := 128.
Definition LSR : Z := 5.
Definition LSR_RX_READY : Z := 1.
Definition LSR_TX_IDLE : Z := 32.
Definition UART_TX_BUF_SIZE : Z := 32.

(** [&uart_tx_r] and [&cons.r], as sleep channels. *)
Definition uart_tx_r_chan : Z := -2.
Definition cons_r_chan : Z := -3.

(** The registers of the device, each an [unsigned char]. *)
Class UartRegs (H : Type) := {
  ReadReg : Z → M H Z;
  WriteReg : Z → Z → M H unit;
}.

Section driver.
Context {H : Type} `{UR : UartRegs H}.

Record uart := Uart {
  uart_tx_lock : bool;
  uart_tx_buf : list Z;
  uart_tx_w : Z;       (* write next to uart_tx_buf[uart_tx_w % UART_TX_BUF_SIZE] *)
  uart_tx_r : Z;       (* read next from uart_tx_buf[uart_tx_r % UART_TX_BUF_SIZE] *)
  uart_hw : H;
}.
Definition set_tx_lock x u := Uart x (uart_tx_buf u) (uart_tx_w u) (uart_tx_r u) (uart_hw u).
Definition set_uart_hw x u := Uart (uart_tx_lock u) (uart_tx_buf u) (uart_tx_w u) (uart_tx_r u) x.
Definition set_tx_r x u := Uart (uart_tx_lock u) (uart_tx_buf u) (uart_tx_w u) x (uart_hw u).
Definition reg {A} (m : M H A) : M uart A := zoom uart_hw set_uart_hw m.
Definition tx_acquire : M uart unit := zoom uart_tx_lock set_tx_lock Lock.lk_acquire.
Definition tx_release : M uart unit := zoom uart_tx_lock set_tx_lock Lock.lk_release.

(** [panicked] of printf.c; [for(;;) ;] never returns. *)
Context (panicked : bool).
Definition hang {S A} : M S A := sleep_on 0.

Definition uartinit : M uart unit :=
  do! reg (WriteReg IER 0x00);                                  (* disable interrupts. *)
  do! reg (WriteReg LCR LCR_BAUD_LATCH);                        (* special mode to set baud rate. *)
  do! reg (WriteReg 0 0x03);                                    (* LSB for baud rate of 38.4K. *)
  do! reg (WriteReg 1 0x00);                                    (* MSB for baud rate of 38.4K. *)
  do! reg (WriteReg LCR LCR_EIGHT_BITS);                        (* leave set-baud mode *)
  do! reg (WriteReg FCR (Z.lor FCR_FIFO_ENABLE FCR_FIFO_CLEAR)); (* reset and enable FIFOs. *)
  do! reg (WriteReg IER (Z.lor IER_TX_ENABLE IER_RX_ENABLE));   (* enable transmit and receive interrupts. *)
  modify (set_tx_lock false).

(** If the UART is idle, and a character is waiting in the transmit buffer,
    send it. The buffer holds at most UART_TX_BUF_SIZE characters. *)
Definition uartstart_round (_ : unit) : M (waking uart) (unit + unit) :=
  let! w := still (gets uart_tx_w) in
  let! r := still (gets uart_tx_r) in
  if w =? r then ret (inr tt)         (* transmit buffer is empty. *)
  else
    let! lsr := still (reg (ReadReg LSR)) in
    if Z.land lsr LSR_TX_IDLE =? 0 then ret (inr tt)
    else
      let! c := still (gets (λ u, default 0 (uart_tx_buf u !! Z.to_nat (r `mod` UART_TX_BUF_SIZE)))) in
      do! still (modify (set_tx_r (u64 (r + 1))));
      do! wakeup_on uart_tx_r_chan;   (* maybe uartputc() is waiting for space in the buffer. *)
      do! still (reg (WriteReg THR (u8 c)));
      ret (inl tt).
Definition uartstart : M (waking uart) unit :=
  loop (Z.to_nat UART_TX_BUF_SIZE + 1) uartstart_round tt.

(** [uart_tx_buf] holds [char]s, which are unsigned. *)
Definition tx_put (c : Z) (u : uart) : uart :=
  Uart (uart_tx_lock u) (<[Z.to_nat (uart_tx_w u `mod` UART_TX_BUF_SIZE) := u8 c]> (uart_tx_buf u))
    (u64 (uart_tx_w u + 1)) (uart_tx_r u) (uart_hw u).
(** Add a character to the output buffer and tell the UART to start sending if
    it isn't already: [inl chan] when the process sleeps because it is full. *)
Definition uartputc (c : Z) : M (waking uart) (Z + unit) :=
  do! still tx_acquire;
  if panicked then hang
  else
    let! w := still (gets uart_tx_w) in
    let! r := still (gets uart_tx_r) in
    if w =? u64 (r + UART_TX_BUF_SIZE) then
      (* sleep(&uart_tx_r, &uart_tx_lock) *)
      do! still tx_release;
      ret (inl uart_tx_r_chan)
    else
      do! still (modify (tx_put c));
      do! uartstart;
      do! still tx_release;
      ret (inr tt).
(** What [uartintr] does in the end: send buffered characters. *)
Definition uart_flush : M (waking uart) unit :=
  do! still tx_acquire;
  do! uartstart;
  still tx_release.

(** Wait for Transmit Holding Empty to be set in LSR; [spins] bounds the polls
    of the register. *)
Definition tx_wait (spins : nat) : M H unit :=
  loop spins (λ _ : unit,
    let! lsr := ReadReg LSR in
    if Z.land lsr LSR_TX_IDLE =? 0 then ret (inl tt) else ret (inr tt)) tt.
(** Alternate version of uartputc() that doesn't use interrupts. [push_off] and
    [pop_off] cancel out. *)
Definition uartputc_sync (spins : nat) (c : Z) : M uart unit :=
  if panicked then hang
  else
    do! reg (tx_wait spins);
    reg (WriteReg THR (u8 c)).

(** Read one input character from the UART; -1 if none is waiting. *)
Definition uartgetc : M uart Z :=
  let! lsr := reg (ReadReg LSR) in
  if negb (Z.land lsr 0x01 =? 0) then reg (ReadReg RHR) else ret (-1).
End driver.

(** * The console *)

Definition BACKSPACE : Z := 0x100.
(** Control-x. *)
Definition ctl (x : Z) : Z := x - 64.
Definition INPUT_BUF : Z := 128.

Section console.
Context {H : Type} `{UR : UartRegs H} {L : Linker}.
Abbreviation uart_dev := (uart (H:=H)).

Record cons := Cons {
  cons_lock : bool;
  cons_buf : list Z;
  cons_r : Z;      (* Read index *)
  cons_w : Z;      (* Write index *)
  cons_e : Z;      (* Edit index *)
  cons_uart : uart_dev;
  cons_mem : kmem;
}.
Definition set_cons_lock x c := Cons x (cons_buf c) (cons_r c) (cons_w c) (cons_e c) (cons_uart c) (cons_mem c).
Definition set_cons_r x c := Cons (cons_lock c) (cons_buf c) x (cons_w c) (cons_e c) (cons_uart c) (cons_mem c).
Definition set_cons_w x c := Cons (cons_lock c) (cons_buf c) (cons_r c) x (cons_e c) (cons_uart c) (cons_mem c).
Definition set_cons_e x c := Cons (cons_lock c) (cons_buf c) (cons_r c) (cons_w c) x (cons_uart c) (cons_mem c).
Definition set_cons_uart x c := Cons (cons_lock c) (cons_buf c) (cons_r c) (cons_w c) (cons_e c) x (cons_mem c).
Definition set_cons_mem x c := Cons (cons_lock c) (cons_buf c) (cons_r c) (cons_w c) (cons_e c) (cons_uart c) x.
Definition uart_op {A} (m : M uart_dev A) : M cons A := zoom cons_uart set_cons_uart m.
Definition cons_acquire : M cons unit := zoom cons_lock set_cons_lock Lock.lk_acquire.
Definition cons_release : M cons unit := zoom cons_lock set_cons_lock Lock.lk_release.

Definition uart_opw {A} (m : M (waking uart_dev) A) : M (waking cons) A := zoomw cons_uart set_cons_uart m.

Context (panicked : bool) (spins : nat).
(** [myproc()->pagetable] and [myproc()->killed]. *)
Context (pagetable : Z) (killed : bool).

(** Send one character to the uart. *)
Definition consputc (c : Z) : M cons unit :=
  if c =? BACKSPACE then
    (* if the user typed backspace, overwrite with a space. *)
    do! uart_op (uartputc_sync panicked spins 8);
    do! uart_op (uartputc_sync panicked spins 32);
    uart_op (uartputc_sync panicked spins 8)
  else uart_op (uartputc_sync panicked spins c).

(** User write()s to the console go here; [inl (chan, i)] when the process
    sleeps in uartputc with [i] characters written. *)
Definition consolewrite_from (user_src : bool) (src n i : Z) : M (waking cons) (Z * Z + Z) :=
  loop (Z.to_nat n + 1) (λ i,
    if i <? n then
      let! '(r, c) := still (zoom cons_mem set_cons_mem (either_copyin pagetable user_src (u64 (src + i)) 1)) in
      if r =? -1 then ret (inr (inr i))
      else
        let! done := uart_opw (uartputc panicked (default 0 (c !! 0%nat))) in
        match done with inr _ => ret (inl (i + 1)) | inl chan => ret (inr (inl (chan, i))) end
    else ret (inr (inr i))) i.
Definition consolewrite (user_src : bool) (src n : Z) : M (waking cons) (Z * Z + Z) := consolewrite_from user_src src n 0.

(** One round of consoleread's loop: [inl] to go on; [inr (inl _)] when the
    process sleeps, [inr (inr None)] when it is killed, [inr (inr (Some n))] at
    the end with [n] bytes not read. *)
Definition consoleread_round (user_dst : bool) (target : Z) '((dst, n) : Z * Z)
    : M cons (Z * Z + (Z * Z + option Z)) :=
  if 0 <? n then
    let! r := gets cons_r in
    let! w := gets cons_w in
    if r =? w then
      if killed then ret (inr (inr None)) else ret (inr (inl (dst, n)))
    else
      let! c := gets (λ s, default 0 (cons_buf s !! Z.to_nat (r `mod` INPUT_BUF))) in
      do! modify (set_cons_r (u32 (r + 1)));
      if c =? ctl 68 then                 (* end-of-file *)
        (* Save ^D for next time, to make sure caller gets a 0-byte result. *)
        do! when (n <? target) (modify (λ s, set_cons_r (u32 (cons_r s - 1)) s));
        ret (inr (inr (Some n)))
      else
        let! e := zoom cons_mem set_cons_mem (either_copyout pagetable user_dst dst [c]) in
        if e =? -1 then ret (inr (inr (Some n)))
        else if c =? 10 then ret (inr (inr (Some (n - 1))))
        else ret (inl (u64 (dst + 1), n - 1))
  else ret (inr (inr (Some n))).
(** User read()s from the console go here: [inl] when the process sleeps on a
    channel, with [dst] and [n] as they are then. *)
Definition consoleread_from (user_dst : bool) (target dst n : Z) : M cons (Z * (Z * Z) + Z) :=
  do! cons_acquire;
  let! r := loop (Z.to_nat n + 1) (consoleread_round user_dst target) (dst, n) in
  do! cons_release;
  match r with
  | inl later => ret (inl (cons_r_chan, later))   (* sleep(&cons.r, &cons.lock) *)
  | inr None => ret (inr (-1))
  | inr (Some n) => ret (inr (target - n))
  end.
Definition consoleread (user_dst : bool) (dst n : Z) : M cons (Z * (Z * Z) + Z) := consoleread_from user_dst n dst n.

(** The console input interrupt handler: do erase/kill processing, append to
    cons.buf, wake up consoleread() if a whole line has arrived. *)
Definition kill_line : M cons unit :=
  loop (Z.to_nat INPUT_BUF + 1) (λ _ : unit,
    let! e := gets cons_e in
    let! w := gets cons_w in
    let! buf := gets cons_buf in
    if negb (e =? w) && negb (default 0 (buf !! Z.to_nat (u32 (e - 1) `mod` INPUT_BUF)) =? 10) then
      do! modify (set_cons_e (u32 (e - 1)));
      do! consputc BACKSPACE;
      ret (inl tt)
    else ret (inr tt)) tt.
Definition cons_put (c : Z) (s : cons) : cons :=
  Cons (cons_lock s) (<[Z.to_nat (cons_e s `mod` INPUT_BUF) := u8 c]> (cons_buf s)) (cons_r s) (cons_w s)
    (u32 (cons_e s + 1)) (cons_uart s) (cons_mem s).
(** [procdump()]: its characters for the process table [procs]. *)
Fixpoint put_chars (l : list Z) : M cons unit :=
  match l with [] => ret tt | c :: l' => do! consputc c; put_chars l' end.
Definition dump (procs : list Proc.proc) : M cons unit :=
  match procdump procs with Some text => put_chars text | None => stuck end.
Definition consoleintr (procs : list Proc.proc) (c : Z) : M (waking cons) unit :=
  do! still cons_acquire;
  do! (if c =? ctl 80 then still (dump procs)       (* Print process list. *)
       else if c =? ctl 85 then still kill_line     (* Kill line. *)
       else if (c =? ctl 72) || (c =? 127) then     (* Backspace *)
         let! e := still (gets cons_e) in
         let! w := still (gets cons_w) in
         when (negb (e =? w))
           (do! still (modify (set_cons_e (u32 (e - 1))));
            still (consputc BACKSPACE))
       else
         let! e := still (gets cons_e) in
         let! r := still (gets cons_r) in
         when (negb (c =? 0) && (u32 (e - r) <? INPUT_BUF))
           (let c := if c =? 13 then 10 else c in
            do! still (consputc c);                 (* echo back to the user. *)
            do! still (modify (cons_put c));        (* store for consumption by consoleread(). *)
            let! e := still (gets cons_e) in
            when ((c =? 10) || (c =? ctl 68) || (e =? u32 (r + INPUT_BUF)))
              (* wake up consoleread() if a whole line (or end-of-file) has arrived. *)
              (do! still (modify (set_cons_w e));
               wakeup_on cons_r_chan)));
  still cons_release.

Definition consoleinit : M cons unit :=
  do! modify (set_cons_lock false);
  uart_op uartinit.

(** Handle a uart interrupt; the device holds at most [chars] characters. *)
Definition uartintr (procs : list Proc.proc) (chars : nat) : M (waking cons) unit :=
  do! loop (chars + 1) (λ _ : unit,
    let! c := still (uart_op uartgetc) in
    if c =? -1 then ret (inr tt)
    else
      do! consoleintr procs c;
      ret (inl tt)) tt;
  uart_opw uart_flush.
End console.
