(* ===== verification/ConsoleSpec.v ===== *)
(** The UART driver and the console as queues: what uartputc accepts is sent in
    order, and consoleread delivers the lines that the line discipline makes of
    what is typed. *)

From S2P Require Import Prelude Riscv Mem Spinlock Kalloc Vm FsLayout ProcMem Bio Fs FsBlocks FsFile FsIo Ring Procdump Console.

(** * The UART *)

(** What the driver relies on: in its normal mode the device hands a byte
    written to THR to its transmitter when the holding register is empty, which
    LSR_TX_IDLE tells.  Nothing is known about a byte written at another
    time. *)
Class UartLaws (H : Type) `{UartRegs H} := {
  hw_ready : H → Prop;
  hw_idle : H → Prop;
  hw_out : H → list Z;
  hw_lsr_ok : ∀ h, hw_ready h → wp (ReadReg LSR) (λ lsr h', hw_ready h' ∧ hw_out h' = hw_out h ∧
    (Z.land lsr LSR_TX_IDLE ≠ 0 → hw_idle h')) h;
  hw_send_ok : ∀ h c, hw_ready h → hw_idle h → fits 8 c →
    wp (WriteReg THR c) (λ _ h', hw_ready h' ∧ hw_out h' = hw_out h ++ [c]) h;
}.

Section uart.
Context {H : Type} `{UR : UartRegs H} {UL : UartLaws H}.
Implicit Types u : uart (H:=H).

(** [q] waits in the buffer. *)
Record uart_rep u (q : list Z) : Prop := {
  ur_ready : hw_ready (uart_hw u);
  ur_r : fits 64 (uart_tx_r u);
  ur_w : uart_tx_w u = u64 (uart_tx_r u + Z.of_nat (length q));
  ur_ring : ring UART_TX_BUF_SIZE (uart_tx_buf u) (uart_tx_r u) q;
  ur_bytes : bytes q;
}.
Definition u_out u : list Z := hw_out (uart_hw u).
Lemma uart_empty u q : uart_rep u q → uart_tx_w u = uart_tx_r u ↔ q = [].
Proof.
  intros [_ Hr Hw [_ Hs _] _]. rewrite Hw. unfold fits, u64, UART_TX_BUF_SIZE in *. split; [|intros ->; simpl; dlia].
  intros E. apply nil_length_inv. dlia.
Qed.
Lemma uart_full u q : uart_rep u q → uart_tx_w u = u64 (uart_tx_r u + UART_TX_BUF_SIZE) ↔ Z.of_nat (length q) = UART_TX_BUF_SIZE.
Proof.
  intros [_ Hr Hw [_ Hs _] _]. rewrite Hw. unfold fits, u64, UART_TX_BUF_SIZE in *. split; [|by intros ->]. intros E. dlia.
Qed.
Lemma tx_wrap (buf : list Z) r q : ring UART_TX_BUF_SIZE buf r q ↔ ring UART_TX_BUF_SIZE buf (u64 r) q.
Proof. apply ring_wrap; [done|by exists (2 ^ 59)|done]. Qed.
Lemma uart_pop u c q h : uart_rep u (c :: q) → hw_ready h →
  uart_rep (set_uart_hw h (set_tx_r (u64 (uart_tx_r u + 1)) u)) q.
Proof.
  intros [_ Hr Hw Hg Hb] Hh. split; simpl; [done|apply u64_fits| | |by apply Forall_cons in Hb as [_ ?]].
  - rewrite Hw. unfold u64. simpl length. dlia.
  - apply (tx_wrap _ (uart_tx_r u + 1)). by eapply ring_pop.
Qed.
Lemma uart_push u q c : uart_rep u q → Z.of_nat (length q) < UART_TX_BUF_SIZE → uart_rep (tx_put c u) (q ++ [u8 c]).
Proof.
  intros [Hh Hr Hw Hg Hb] Hlt. split; simpl; [done|done| | |].
  - rewrite Hw, length_app. unfold u64. simpl. dlia.
  - rewrite Hw. replace (u64 (uart_tx_r u + Z.of_nat (length q)) `mod` UART_TX_BUF_SIZE)
      with ((uart_tx_r u + Z.of_nat (length q)) `mod` UART_TX_BUF_SIZE) by (unfold u64, UART_TX_BUF_SIZE; dlia).
    by apply ring_push.
  - apply Forall_app. split; [done|]. apply Forall_singleton, u8_fits.
Qed.

(** Sending moves characters from the buffer to the device, and wakes those who
    wait for room in the buffer. *)
Definition sending u q (cs : list Z) (w : waking (uart (H:=H))) : Prop := uart_tx_lock (wk_st w) = uart_tx_lock u ∧
  cs ⊆ wk_chans w ∧ ∃ q', uart_rep (wk_st w) q' ∧ u_out (wk_st w) ++ q' = u_out u ++ q ∧ (length q' ≤ length q)%nat ∧
  ((length q' < length q)%nat → uart_tx_r_chan ∈ wk_chans w).
Lemma sending_refl u q cs : uart_rep u q → sending u q cs (Waking u cs).
Proof. intros H0. split_and!; [done|done|]. exists q. split_and!; [done|done|done|simpl; lia]. Qed.
Lemma wp_reg {A} u (m : M H A) (Q : A → uart → Prop) : wp m (λ a h, Q a (set_uart_hw h u)) (uart_hw u) → wp (reg m) Q u.
Proof. apply wp_zoom. Qed.
Lemma uart_rep_hw u q h : uart_rep u q → hw_ready h → uart_rep (set_uart_hw h u) q.
Proof. intros []. by split. Qed.
Lemma uartstart_loop fuel u q cs : uart_rep u q → (length q < fuel)%nat →
  wp (loop fuel uartstart_round tt) (λ _, sending u q cs) (Waking u cs).
Proof.
  revert u q cs. induction fuel as [|fuel IH]; intros u q cs Hu Hf; [lia|]. simpl. apply wp_bind. unfold uartstart_round.
  apply wp_bind, wp_zoom, wp_gets, wp_bind, wp_zoom, wp_gets. cbn [wk_set_st wk_st wk_chans].
  destruct (Z.eqb_spec (uart_tx_w u) (uart_tx_r u)) as [E|E].
  { apply wp_ret, wp_ret. by apply sending_refl. }
  destruct q as [|c q]; [by destruct E; apply (uart_empty u [])|]. apply wp_bind, wp_zoom, wp_reg. cbn [wk_set_st wk_st wk_chans].
  eapply wp_mono; [apply hw_lsr_ok, (ur_ready _ _ Hu)|]. intros lsr h1 (Hr1 & Ho1 & Hid).
  destruct (Z.eqb_spec (Z.land lsr LSR_TX_IDLE) 0) as [_|Hl].
  { apply wp_ret, wp_ret. split_and!; [done|done|]. exists (c :: q).
    split_and!; [by apply uart_rep_hw|unfold u_out; simpl; by rewrite Ho1|done|simpl; lia]. }
  apply wp_bind, wp_zoom, wp_gets. cbn [wk_set_st wk_st wk_chans uart_tx_buf set_uart_hw].
  rewrite (ring_front _ _ _ _ _ (ur_ring _ _ Hu)). simpl default.
  pose proof (proj1 (proj1 (Forall_cons _ _ _) (ur_bytes _ _ Hu))) as Hc. rewrite (u8_id c) by done.
  apply wp_bind, wp_zoom, wp_modify, wp_bind, wp_modify, wp_bind, wp_zoom, wp_reg.
  eapply wp_mono; [by apply hw_send_ok; [|apply Hid|]|]. intros [] h2 [Hr2 Ho2]. apply wp_ret. cbn [wk_set_st wk_st wk_chans].
  pose proof (uart_pop u c q h2 Hu Hr2) as Hu2. eapply wp_mono; [apply (IH _ q _ Hu2); simpl in Hf; lia|].
  intros [] w (Hlk & Hcs & q' & Hu' & Hout & Hle & Hwk). split_and!; [done|set_solver|]. exists q'. split_and!; [done| |simpl; lia|set_solver].
  rewrite Hout. unfold u_out. simpl. rewrite Ho2. cbn. rewrite Ho1. by rewrite <- app_assoc.
Qed.
Lemma uartstart_spec u q cs : uart_rep u q → wp uartstart (λ _, sending u q cs) (Waking u cs).
Proof.
  intros Hu. apply uartstart_loop; [done|]. pose proof (rg_size _ _ _ _ (ur_ring _ _ Hu)). unfold UART_TX_BUF_SIZE in *. lia.
Qed.
Lemma uart_rep_lock u q b : uart_rep u q → uart_rep (set_tx_lock b u) q.
Proof. intros []. by split. Qed.

(** C24: the characters uartputc accepts leave through the device in the order
    they came, none lost or repeated, though the device loses what it is given
    while its holding register is full: what was sent and what is waiting is
    what was sent and waiting before and the new character.  The interrupt
    handler sends more of what is waiting.  A process waits in uartputc only
    when UART_TX_BUF_SIZE characters are waiting, and then nothing changes;
    whoever makes room in the buffer wakes it. *)
Theorem uartputc_fifo u q c : uart_rep u q → uart_tx_lock u = false →
  wp (uartputc false c) (λ r w, uart_tx_lock (wk_st w) = false ∧
    match r with
    | inr _ => ∃ q', uart_rep (wk_st w) q' ∧ u_out (wk_st w) ++ q' = u_out u ++ q ++ [u8 c] ∧
        ((length q' ≤ length q)%nat → uart_tx_r_chan ∈ wk_chans w)
    | inl chan => chan = uart_tx_r_chan ∧ Z.of_nat (length q) = UART_TX_BUF_SIZE ∧ w = Waking u []
    end) (Waking u []) ∧
  wp uart_flush (λ _ w, uart_tx_lock (wk_st w) = false ∧ ∃ q', uart_rep (wk_st w) q' ∧
    u_out (wk_st w) ++ q' = u_out u ++ q ∧ ((length q' < length q)%nat → uart_tx_r_chan ∈ wk_chans w)) (Waking u []).
Proof.
  intros Hu Hl. split.
  - unfold uartputc. apply wp_bind, wp_zoom, wp_lock_acquire; [done|]. do 2 apply wp_bind, wp_zoom, wp_gets.
    cbn [wk_set_st wk_st wk_chans uart_tx_w uart_tx_r set_tx_lock].
    destruct (Z.eqb_spec (uart_tx_w u) (u64 (uart_tx_r u + UART_TX_BUF_SIZE))) as [E|E].
    + apply wp_bind, wp_zoom, wp_lock_release; [done|]. apply wp_ret. split_and!; [done|done|by apply (uart_full u)|].
      destruct u; simpl in *; by subst.
    + assert (Z.of_nat (length q) < UART_TX_BUF_SIZE) as Hlt.
      { pose proof (rg_size _ _ _ _ (ur_ring _ _ Hu)). rewrite (uart_full u q Hu) in E. lia. }
      apply wp_bind, wp_zoom, wp_modify, wp_bind. cbn [wk_set_st wk_st wk_chans].
      eapply wp_mono; [apply uartstart_spec, (uart_push _ _ c (uart_rep_lock u q true Hu) Hlt)|]. intros [] w (Hlk & _ & q' & Hu' & Hout & _ & Hwk).
      apply wp_bind, wp_zoom, wp_lock_release; [done|]. apply wp_ret. split; [done|]. exists q'.
      split_and!; [by apply uart_rep_lock|done|]. intros Hle. apply Hwk. rewrite length_app. simpl. lia.
  - unfold uart_flush. apply wp_bind, wp_zoom, wp_lock_acquire; [done|]. apply wp_bind. cbn [wk_set_st wk_st wk_chans].
    eapply wp_mono; [by apply uartstart_spec, uart_rep_lock|]. intros [] w (Hlk & _ & q' & Hu' & Hout & _ & Hwk).
    apply wp_zoom, wp_lock_release; [done|]. split; [done|]. exists q'. split_and!; [by apply uart_rep_lock|done|done].
Qed.

(** ** Echo *)

Context (spins : nat).
(** The transmitter is idle at one of any [spins] polls. *)
Definition idles : Prop := ∀ h, hw_ready h → wp (tx_wait spins) (λ _ _, True) h.
Lemma tx_wait_idle n h : hw_ready h → wp (tx_wait n) (λ _ _, True) h →
  wp (tx_wait n) (λ _ h', hw_ready h' ∧ hw_idle h' ∧ hw_out h' = hw_out h) h.
Proof.
  revert h. induction n as [|n IH]; intros h Hr Hw; [done|].
  destruct (proj1 (wp_ok _ _ _) (hw_lsr_ok h Hr)) as (lsr & h1 & E & Hr1 & Ho1 & Hid).
  revert Hw. unfold tx_wait. simpl loop. unfold wp, bind. rewrite E. destruct (Z.eqb_spec (Z.land lsr LSR_TX_IDLE) 0) as [_|Hl]; simpl.
  - intros Hw. rewrite <- Ho1. by apply IH.
  - intros _. split_and!; [done|by apply Hid|done].
Qed.
Lemma uartputc_sync_spec u c : idles → hw_ready (uart_hw u) →
  wp (uartputc_sync false spins c) (λ _ u', ∃ h, u' = set_uart_hw h u ∧ hw_ready h ∧ hw_out h = u_out u ++ [u8 c]) u.
Proof.
  intros Hid Hr. unfold uartputc_sync. apply wp_bind, wp_reg. eapply wp_mono; [by apply tx_wait_idle, Hid|]. intros [] h1 (H1 & I1 & O1).
  apply wp_reg. eapply wp_mono; [apply hw_send_ok; [done|done|apply u8_fits]|]. intros [] h2 [H2 O2]. exists h2. split_and!; [done|done|].
  rewrite O2. cbn [uart_hw set_uart_hw]. by rewrite O1.
Qed.
End uart.

(** * The line discipline *)

(** What is typed makes lines: those that are complete, and the line that is
    being edited. *)
Definition input : Type := list Z * list Z.
Definition erase : list Z := [8; 32; 8].
(** What consputc sends. *)
Definition shown (c : Z) : list Z := if c =? BACKSPACE then erase else [u8 c].
(** A key, and the processes there are when it is typed. *)
Definition stroke : Type := list Proc.proc * Z.
(** The effect of a key and what is echoed. *)
Definition key '((procs, c) : stroke) '((ready, line) : input) : input * list Z :=
  if c =? ctl 80 then ((ready, line), concat (shown <$> 10 :: concat (dump_line <$> procs)))
  else if c =? ctl 85 then ((ready, []), concat (replicate (length line) erase))
  else if (c =? ctl 72) || (c =? 127) then
    match line with [] => ((ready, line), []) | _ => ((ready, take (length line - 1) line), erase) end
  else if negb (c =? 0) && (Z.of_nat (length ready + length line) <? INPUT_BUF) then
    let c := if c =? 13 then 10 else c in
    if (c =? 10) || (c =? ctl 68) || (Z.of_nat (length ready + length line) + 1 =? INPUT_BUF)
    then ((ready ++ line ++ [c], []), [c]) else ((ready, line ++ [c]), [c])
  else ((ready, line), []).
(** What one read of [n] bytes takes from the complete lines: the bytes, what is
    left, and whether the read is over. [got]: something was read before. *)
Fixpoint read_line (got : bool) (q : list Z) (n : nat) {struct n} : list Z * list Z * bool :=
  match n with
  | O => ([], q, true)
  | S n' =>
      match q with
      | [] => ([], [], false)
      | c :: q' =>
          if c =? ctl 68 then ([], if got then q else q', true)
          else if c =? 10 then ([c], q', true)
          else let '(bs, r, over) := read_line true q' n' in (c :: bs, r, over)
      end
  end.

Lemma read_line_more got q n out rest : read_line got q n = (out, rest, false) → rest = [].
Proof.
  revert got q out rest. induction n as [|n IH]; intros got q out rest; simpl; [done|]. destruct q as [|c q]; [by intros [= _ <-]|].
  destruct (c =? ctl 68); [done|]. destruct (c =? 10); [done|]. destruct (read_line true q n) as [[bs r] o] eqn:E.
  intros [= _ <- ->]. by eapply IH.
Qed.

Section console.
Context {H : Type} `{UR : UartRegs H} {UL : UartLaws H} {L : Linker}.
Context (spins : nat) (Hidle : idles (H:=H) spins) (pagetable : Z).
Implicit Types c : cons (H:=H).

Record cons_in c (ready line : list Z) : Prop := {
  cn_hw : hw_ready (uart_hw (cons_uart c));
  cn_r : fits 32 (cons_r c);
  cn_w : cons_w c = u32 (cons_r c + Z.of_nat (length ready));
  cn_e : cons_e c = u32 (cons_r c + Z.of_nat (length ready) + Z.of_nat (length line));
  cn_ring : ring INPUT_BUF (cons_buf c) (cons_r c) (ready ++ line);
  cn_bytes : bytes (ready ++ line);
  cn_line : 10 ∉ line;
}.
Definition c_out c : list Z := u_out (cons_uart c).

Lemma wp_uart_op {A} c (m : M uart A) (Q : A → cons → Prop) :
  wp m (λ a u, Q a (set_cons_uart u c)) (cons_uart c) → wp (uart_op m) Q c.
Proof. apply wp_zoom. Qed.
Definition echoed c (s : list Z) c' : Prop :=
  ∃ u, c' = set_cons_uart u c ∧ hw_ready (uart_hw u) ∧ u_out u = c_out c ++ s.
Lemma sync_echo c k : hw_ready (uart_hw (cons_uart c)) →
  wp (uart_op (uartputc_sync false spins k)) (λ _, echoed c [u8 k]) c.
Proof using Hidle.
  intros Hr. apply wp_uart_op. eapply wp_mono; [by apply uartputc_sync_spec|]. intros [] u (h & -> & Hh & Ho).
  by exists (set_uart_hw h (cons_uart c)).
Qed.
Lemma echoed_ready c s c' : echoed c s c' → hw_ready (uart_hw (cons_uart c')).
Proof. by intros (u & -> & ? & _). Qed.
Lemma echoed_app c s c1 t c2 : echoed c s c1 → echoed c1 t c2 → echoed c (s ++ t) c2.
Proof.
  intros (u & -> & H1 & O1) (u2 & -> & H2 & O2). exists u2. split_and!; [done|done|]. unfold c_out in *. simpl in *.
  by rewrite O2, O1, app_assoc.
Qed.
Lemma consputc_spec c k : hw_ready (uart_hw (cons_uart c)) →
  wp (consputc false spins k) (λ _, echoed c (shown k)) c.
Proof using Hidle.
  intros Hr. unfold consputc, shown. destruct (k =? BACKSPACE); [|by apply sync_echo].
  apply wp_bind. eapply wp_mono; [by apply sync_echo|]. intros [] c1 E1. apply wp_bind.
  eapply wp_mono; [by apply sync_echo, (echoed_ready _ _ _ E1)|]. intros [] c2 E2.
  eapply wp_mono; [by apply sync_echo, (echoed_ready _ _ _ E2)|]. intros [] c3 E3.
  by apply (echoed_app _ [8; 32] c2), E3; apply (echoed_app _ [8] c1).
Qed.
Lemma put_chars_spec l c : hw_ready (uart_hw (cons_uart c)) →
  wp (put_chars false spins l) (λ _, echoed c (concat (shown <$> l))) c.
Proof using Hidle.
  revert c. induction l as [|k l IH]; intros c Hr; cbn [put_chars fmap list_fmap concat].
  - apply wp_ret. exists (cons_uart c). split_and!; [by destruct c|done|by rewrite app_nil_r].
  - apply wp_bind. eapply wp_mono; [by apply consputc_spec|]. intros [] c1 E1.
    eapply wp_mono; [by apply IH, (echoed_ready _ _ _ E1)|]. intros [] c2 E2. by eapply echoed_app.
Qed.
Lemma dump_spec procs c : hw_ready (uart_hw (cons_uart c)) →
  wp (dump false spins procs) (λ _, echoed c (concat (shown <$> 10 :: concat (dump_line <$> procs)))) c.
Proof using Hidle. intros Hr. unfold dump. rewrite procdump_lines. by apply put_chars_spec. Qed.
Lemma cons_echo c s c' ready line : echoed c s c' → cons_in c ready line →
  cons_in c' ready line ∧ c_out c' = c_out c ++ s ∧ cons_lock c' = cons_lock c ∧ cons_mem c' = cons_mem c.
Proof. intros (u & -> & Hu & Ho) []. by split_and!. Qed.

(** ** Keys *)

Lemma cons_wrap (buf : list Z) r q : ring INPUT_BUF buf r q ↔ ring INPUT_BUF buf (u32 r) q.
Proof. apply ring_wrap; [done|by exists (2 ^ 25)|done]. Qed.
Lemma cons_sizes c ready line : cons_in c ready line → Z.of_nat (length ready) + Z.of_nat (length line) ≤ 128.
Proof. intros [_ _ _ _ [_ Hs _] _ _]. rewrite length_app in Hs. unfold INPUT_BUF in Hs. lia. Qed.
Lemma cons_editing c ready line : cons_in c ready line → cons_e c = cons_w c ↔ line = [].
Proof.
  intros Hc. pose proof (cons_sizes _ _ _ Hc). destruct Hc as [_ Hr Hw He _ _ _]. rewrite Hw, He.
  unfold fits, u32 in *. split; [|intros ->; simpl; f_equal; lia]. intros E. apply nil_length_inv. dlia.
Qed.
Lemma cons_erase c ready line x : cons_in c ready (line ++ [x]) → cons_in (set_cons_e (u32 (cons_e c - 1)) c) ready line ∧
  cons_buf c !! Z.to_nat (u32 (cons_e c - 1) `mod` INPUT_BUF) = Some x ∧ x ≠ 10.
Proof.
  intros [Hh Hr Hw He Hg Hb Hl]. rewrite app_assoc in Hg. destruct (ring_last _ _ _ _ _ Hg) as [Hg' Hx].
  assert (u32 (cons_e c - 1) = u32 (cons_r c + Z.of_nat (length ready) + Z.of_nat (length line))) as Ee.
  { rewrite He, length_app. unfold u32. simpl. dlia. }
  split_and!; [split; simpl; try done|..].
  - by rewrite app_assoc, Forall_app in Hb; apply Hb.
  - set_solver.
  - rewrite Ee. rewrite <- Hx. do 2 f_equal. rewrite length_app. unfold u32, INPUT_BUF. dlia.
  - intros ->. apply Hl. set_solver.
Qed.
Lemma kill_loop fuel c ready line : cons_in c ready line → (length line < fuel)%nat →
  wp (loop fuel (λ _ : unit,
    let! e := gets cons_e in
    let! w := gets cons_w in
    let! buf := gets cons_buf in
    if negb (e =? w) && negb (default 0 (buf !! Z.to_nat (u32 (e - 1) `mod` INPUT_BUF)) =? 10) then
      do! modify (set_cons_e (u32 (e - 1)));
      do! consputc false spins BACKSPACE;
      ret (inl tt)
    else ret (inr tt)) tt)
  (λ _ c', cons_in c' ready [] ∧ c_out c' = c_out c ++ concat (replicate (length line) erase) ∧
    cons_lock c' = cons_lock c ∧ cons_mem c' = cons_mem c) c.
Proof using Hidle.
  revert fuel c. induction line as [|x line IH] using rev_ind; intros [|fuel] c Hc Hf; try lia; simpl loop.
  - apply wp_bind, wp_bind, wp_gets, wp_bind, wp_gets, wp_bind, wp_gets.
    rewrite (proj2 (cons_editing _ _ _ Hc) eq_refl), Z.eqb_refl. simpl. apply wp_ret, wp_ret. by rewrite app_nil_r.
  - rewrite length_app in Hf. simpl in Hf. destruct (cons_erase _ _ _ _ Hc) as (Hc1 & Hx & Hne).
    apply wp_bind, wp_bind, wp_gets, wp_bind, wp_gets, wp_bind, wp_gets. rewrite Hx. simpl default.
    assert (cons_e c ≠ cons_w c) as En. { rewrite (cons_editing _ _ _ Hc). by destruct line. }
    apply Z.eqb_neq in En, Hne. rewrite En, Hne. simpl. apply wp_bind, wp_modify, wp_bind.
    eapply wp_mono; [apply consputc_spec, (cn_hw _ _ _ Hc1)|]. intros [] c2 E2.
    destruct (cons_echo _ _ _ _ _ E2 Hc1) as (Hc2 & O2 & L2 & M2). apply wp_ret.
    eapply wp_mono; [apply IH; [exact Hc2|lia]|]. intros [] c' (Hc' & O' & L' & M'). split_and!; [done| |by rewrite L', L2|by rewrite M', M2].
    rewrite O', O2. rewrite length_app, Nat.add_comm. simpl. by rewrite <- app_assoc.
Qed.

Lemma cons_add c ready line k : cons_in c ready line → Z.of_nat (length ready + length line) < INPUT_BUF → fits 8 k →
  let c' := cons_put k c in
  ring INPUT_BUF (cons_buf c') (cons_r c') (ready ++ line ++ [k]) ∧ bytes (ready ++ line ++ [k]) ∧
  cons_e c' = u32 (cons_r c + Z.of_nat (length ready + length line) + 1).
Proof.
  intros [Hh Hr Hw He Hg Hb Hl] Hlt Hk c'. split_and!.
  - simpl. rewrite u8_id, He by done. replace (u32 (cons_r c + Z.of_nat (length ready) + Z.of_nat (length line)) `mod` INPUT_BUF)
      with ((cons_r c + Z.of_nat (length (ready ++ line))) `mod` INPUT_BUF) by (rewrite length_app; unfold u32, INPUT_BUF; dlia).
    rewrite (app_assoc ready). apply ring_push; [done|done|]. rewrite length_app. lia.
  - rewrite (app_assoc ready). apply Forall_app. split; [done|]. by apply Forall_singleton.
  - simpl. rewrite He. unfold u32. dlia.
Qed.
Lemma cons_room c ready line : cons_in c ready line →
  (u32 (cons_e c - cons_r c) <? INPUT_BUF) = (Z.of_nat (length ready + length line) <? INPUT_BUF) ∧
  (Z.of_nat (length ready + length line) < INPUT_BUF →
   (u32 (cons_r c + Z.of_nat (length ready + length line) + 1) =? u32 (cons_r c + INPUT_BUF)) =
   (Z.of_nat (length ready + length line) + 1 =? INPUT_BUF)).
Proof.
  intros Hc. pose proof (cons_sizes _ _ _ Hc). destruct Hc as [_ Hr Hw He _ _ _]. rewrite He. unfold fits, u32, INPUT_BUF in *.
  split; [|intros Hlt]; [f_equal; dlia|]. destruct (Z.eqb_spec (Z.of_nat (length ready + length line) + 1) 128) as [Heq|Hne].
  - apply Z.eqb_eq. f_equal. lia.
  - apply Z.eqb_neq. dlia.
Qed.
(** What a key does to a console with woken channels [cs]: a new complete line
    is announced. *)
Definition keyed c cs k (st : input) (w : waking (cons (H:=H))) : Prop :=
  let '((ready, line), echo) := key k st in
  cons_in (wk_st w) ready line ∧ c_out (wk_st w) = c_out c ++ echo ∧ cons_lock (wk_st w) = false ∧
  cons_mem (wk_st w) = cons_mem c ∧ wk_chans w = cs ++ (if decide (ready = st.1) then [] else [cons_r_chan]).
Lemma cons_in_lock c b ready line : cons_in c ready line → cons_in (set_cons_lock b c) ready line.
Proof. intros []. by split. Qed.
Definition newline (k : Z) : Z := if k =? 13 then 10 else k.
Lemma stored_key c ready line k u : cons_in c ready line → fits 8 k → k ≠ 10 →
  Z.of_nat (length ready + length line) < INPUT_BUF → hw_ready (uart_hw u) →
  cons_in (cons_put k (set_cons_uart u c)) ready (line ++ [k]).
Proof.
  intros Hc Hk Hne Hlt Hu. destruct (cons_add _ _ _ k Hc Hlt Hk) as (Hg & Hb & He). destruct Hc as [_ Hr Hw _ _ _ Hl].
  split; [done|done|done| |done|done|set_solver]. etrans; [exact He|]. rewrite length_app. simpl. f_equal. lia.
Qed.
Lemma ended_line c ready line k u e : cons_in c ready line → fits 8 k →
  Z.of_nat (length ready + length line) < INPUT_BUF → hw_ready (uart_hw u) →
  e = cons_e (cons_put k (set_cons_uart u c)) →
  cons_in (set_cons_w e (cons_put k (set_cons_uart u c))) (ready ++ line ++ [k]) [].
Proof.
  intros Hc Hk Hlt Hu ->. destruct (cons_add _ _ _ k Hc Hlt Hk) as (Hg & Hb & He). destruct Hc as [_ Hr _ _ _ _ _].
  split; [done|done| | |by rewrite app_nil_r|by rewrite app_nil_r|set_solver].
  - etrans; [exact He|]. simpl. f_equal. rewrite !length_app. simpl. lia.
  - etrans; [exact He|]. simpl. f_equal. rewrite !length_app. simpl. lia.
Qed.
Lemma keyed_same c c' cs k ready line line' echo :
  key k (ready, line) = ((ready, line'), echo) → cons_in c' ready line' → c_out c' = c_out c ++ echo →
  cons_lock c' = true → cons_mem c' = cons_mem c →
  wp (still cons_release) (λ _, keyed c cs k (ready, line)) (Waking c' cs).
Proof.
  intros Hk Hc Ho Hl Hm. apply wp_zoom, wp_lock_release; [done|]. unfold keyed. rewrite Hk.
  split_and!; [by apply cons_in_lock|done|done|done|]. rewrite decide_True by done. by rewrite app_nil_r.
Qed.
Lemma erase_key c cs procs k ready line : cons_in c ready line → cons_lock c = true → (k =? ctl 80) = false → (k =? ctl 85) = false →
  (k =? ctl 72) || (k =? 127) = true →
  wp (let! e := still (gets cons_e) in
      let! w := still (gets cons_w) in
      when (negb (e =? w)) (do! still (modify (set_cons_e (u32 (e - 1)))); still (consputc false spins BACKSPACE)))
    (λ _, wp (still cons_release) (λ _, keyed c cs (procs, k) (ready, line))) (Waking c cs).
Proof using Hidle.
  intros Hc Hl EP EU EH. do 2 apply wp_bind, wp_zoom, wp_gets. cbn [wk_set_st wk_st wk_chans].
  destruct line as [|x line _] using rev_ind.
  - rewrite (proj2 (cons_editing _ _ _ Hc) eq_refl), Z.eqb_refl. apply wp_ret.
    apply (keyed_same c c _ _ ready [] [] []); [unfold key; by rewrite EP, EU, EH|done|by rewrite app_nil_r|done|done].
  - destruct (cons_erase _ _ _ _ Hc) as (Hc1 & _ & _).
    assert (cons_e c ≠ cons_w c) as En. { rewrite (cons_editing _ _ _ Hc). by destruct line. }
    apply Z.eqb_neq in En. rewrite En. simpl when. apply wp_bind, wp_zoom, wp_modify, wp_zoom.
    eapply wp_mono; [apply consputc_spec, (cn_hw _ _ _ Hc1)|]. intros [] c2 E2.
    destruct (cons_echo _ _ _ _ _ E2 Hc1) as (Hc2 & O2 & L2 & M2).
    apply (keyed_same c c2 _ _ ready _ line erase); [|done|done|by rewrite L2|by rewrite M2].
    unfold key. rewrite EP, EU, EH. destruct (line ++ [x]) as [|y l] eqn:El; [by destruct line|]. rewrite <- El.
    by rewrite length_app, Nat.add_sub, take_app_length.
Qed.
Lemma store_key c cs procs k ready line : cons_in c ready line → cons_lock c = true → fits 8 k → (k =? ctl 80) = false → (k =? ctl 85) = false →
  (k =? ctl 72) || (k =? 127) = false → negb (k =? 0) && (Z.of_nat (length ready + length line) <? INPUT_BUF) = true →
  wp (do! still (consputc false spins (newline k));
      do! still (modify (cons_put (newline k)));
      let! e := still (gets cons_e) in
      when ((newline k =? 10) || (newline k =? ctl 68) || (e =? u32 (cons_r c + INPUT_BUF)))
        (do! still (modify (set_cons_w e)); wakeup_on cons_r_chan))
    (λ _, wp (still cons_release) (λ _, keyed c cs (procs, k) (ready, line))) (Waking c cs).
Proof using Hidle.
  intros Hc Hl Hk EP EU EH ES. destruct (cons_room _ _ _ Hc) as [_ Hfull]. pose proof ES as ES'.
  apply andb_true_iff in ES as [_ ES%Z.ltb_lt]. specialize (Hfull ES). apply wp_bind.
  assert (fits 8 (newline k)) as Hn. { unfold newline. destruct (k =? 13); [split; simpl; lia|done]. }
  apply wp_zoom. eapply wp_mono; [apply consputc_spec, (cn_hw _ _ _ Hc)|]. intros [] c1 (u & -> & Hu & Ou).
  assert (shown (newline k) = [newline k]) as Es.
  { unfold shown. rewrite (u8_id (newline k)) by done. destruct (Z.eqb_spec (newline k) BACKSPACE) as [E|]; [|done]. rewrite E in Hn. by destruct Hn. }
  rewrite Es in Ou. apply wp_bind, wp_zoom, wp_modify, wp_bind, wp_zoom, wp_gets. cbn [wk_set_st wk_st wk_chans].
  destruct (cons_add _ _ _ (newline k) Hc ES Hn) as (_ & _ & He).
  set (e := cons_e (cons_put (newline k) (set_cons_uart u c))).
  assert ((e =? u32 (cons_r c + INPUT_BUF)) = (Z.of_nat (length ready + length line) + 1 =? INPUT_BUF)) as ->.
  { etrans; [|exact Hfull]. f_equal. exact He. }
  destruct ((newline k =? 10) || _ || _) eqn:EC; simpl when.
  - apply wp_bind, wp_zoom, wp_modify, wp_modify, wp_zoom, wp_lock_release; [done|]. unfold keyed, key. rewrite EP, EU, EH, ES'.
    cbv zeta. fold (newline k). rewrite EC. split_and!; [by apply cons_in_lock, ended_line|exact Ou|done|done|].
    rewrite decide_False; [done|]. simpl. intros E%(f_equal length). rewrite !length_app in E. simpl in E. lia.
  - apply wp_ret. apply (keyed_same c _ _ _ ready line (line ++ [newline k]) [newline k]); [|apply stored_key; try done|exact Ou|done|done].
    + unfold key. rewrite EP, EU, EH, ES'. cbv zeta. fold (newline k). by rewrite EC.
    + intros E. rewrite E in EC. done.
Qed.
Lemma consoleintr_spec c cs procs ready line k : cons_in c ready line → cons_lock c = false → fits 8 k →
  wp (consoleintr false spins procs k) (λ _, keyed c cs (procs, k) (ready, line)) (Waking c cs).
Proof using Hidle.
  intros Hc Hlk Hk. unfold consoleintr. apply wp_bind, wp_zoom, wp_lock_acquire; [done|]. cbn [wk_set_st wk_st wk_chans].
  set (c0 := set_cons_lock true c). assert (cons_in c0 ready line) as Hc0 by (by apply cons_in_lock).
  change (keyed c) with (keyed c0). apply wp_bind.
  destruct (k =? ctl 80) eqn:EP.
  { apply wp_zoom. eapply wp_mono; [apply dump_spec, (cn_hw _ _ _ Hc0)|]. intros [] c' E'.
    destruct (cons_echo _ _ _ _ _ E' Hc0) as (Hc' & O' & L' & M').
    eapply keyed_same; [unfold key; by rewrite EP|done|done|by rewrite L'|done]. }
  destruct (k =? ctl 85) eqn:EU.
  { apply wp_zoom. eapply wp_mono; [apply kill_loop; [exact Hc0|pose proof (cons_sizes _ _ _ Hc); unfold INPUT_BUF; lia]|].
    intros [] c' (Hc' & O' & L' & M'). eapply keyed_same; [unfold key; by rewrite EP, EU|done|done|by rewrite L'|done]. }
  destruct ((k =? ctl 72) || (k =? 127)) eqn:EH; [by apply erase_key|].
  do 2 apply wp_bind, wp_zoom, wp_gets. cbn [wk_set_st wk_st wk_chans]. destruct (cons_room _ _ _ Hc0) as [-> _].
  destruct (negb (k =? 0) && (Z.of_nat (length ready + length line) <? INPUT_BUF)) eqn:ES; simpl when.
  - fold (newline k). by apply (store_key c0).
  - apply wp_ret. eapply keyed_same; [unfold key; by rewrite EP, EU, EH, ES|done|by rewrite app_nil_r|done|done].
Qed.

Fixpoint type_keys (ks : list stroke) : M (waking (cons (H:=H))) unit :=
  match ks with [] => ret tt | (procs, k) :: ks' => do! consoleintr false spins procs k; type_keys ks' end.
Fixpoint typed (ks : list stroke) (st : input) : input * list Z :=
  match ks with
  | [] => (st, [])
  | k :: ks' => let '(st, echo) := key k st in let '(st, echo') := typed ks' st in (st, echo ++ echo')
  end.
Lemma key_grows k st : ∃ l, (key k st).1.1 = st.1 ++ l.
Proof.
  destruct k as [procs k], st as [ready line]. unfold key. repeat case_match; simplify_eq/=; first [exists []; by rewrite app_nil_r|by eexists].
Qed.
Lemma typed_grows ks st : ∃ l, (typed ks st).1.1 = st.1 ++ l.
Proof.
  revert st. induction ks as [|k ks IH]; intros st; simpl; [exists []; by rewrite app_nil_r|].
  destruct (key_grows k st) as [l1 E1]. destruct (key k st) as [st1 echo]. simpl in E1.
  destruct (IH st1) as [l2 E2]. destruct (typed ks st1) as [st2 echo2]. simpl in *. rewrite E2, E1, <- app_assoc. eauto.
Qed.
Lemma type_keys_spec ks c cs st : cons_in c st.1 st.2 → cons_lock c = false → Forall (λ k, fits 8 k.2) ks →
  wp (type_keys ks) (λ _ w, cons_in (wk_st w) (typed ks st).1.1 (typed ks st).1.2 ∧ c_out (wk_st w) = c_out c ++ (typed ks st).2 ∧
    cons_lock (wk_st w) = false ∧ cons_mem (wk_st w) = cons_mem c ∧
    cs ⊆ wk_chans w ∧ ((typed ks st).1.1 ≠ st.1 → cons_r_chan ∈ wk_chans w)) (Waking c cs).
Proof using Hidle.
  revert c cs st. induction ks as [|[procs k] ks IH]; intros c cs [ready line] Hc Hl Hb; cbn [type_keys typed].
  - apply wp_ret. simpl. by rewrite app_nil_r.
  - apply Forall_cons in Hb as [Hk Hb]. apply wp_bind. eapply wp_mono; [by apply (consoleintr_spec c cs procs ready line)|]. intros [] [c1 cs1] H1.
    unfold keyed in H1. destruct (key (procs, k) (ready, line)) as [[ready1 line1] echo1] eqn:Ek. cbv beta iota in H1. simpl in H1.
    destruct H1 as (Hc1 & O1 & L1 & M1 & ->).
    eapply wp_mono; [by apply (IH c1 _ (ready1, line1))|]. intros [] w (Hc2 & O2 & L2 & M2 & S2 & W2).
    pose proof (typed_grows ks (ready1, line1)) as [l2 E2].
    destruct (typed ks (ready1, line1)) as [[ready2 line2] echo2]. simpl in *.
    split_and!; [done|by rewrite O2, O1, app_assoc|done|congruence|set_solver|].
    intros Hne. destruct (decide (ready1 = ready)) as [->|]; [by apply W2|set_solver].
Qed.

(** ** Reading *)

Section read.
Context (user_dst : bool) (dst target : Z) (W : list Z → kmem → Prop).
Context (Hsink : sink pagetable user_dst dst target W (λ _, False)).

Lemma cons_pop c x ready line : cons_in c (x :: ready) line →
  cons_in (set_cons_r (u32 (cons_r c + 1)) c) ready line ∧ fits 8 x ∧
  cons_buf c !! Z.to_nat (cons_r c `mod` INPUT_BUF) = Some x ∧ cons_r c ≠ cons_w c.
Proof using.
  intros Hc. pose proof (cons_sizes _ _ _ Hc) as Hs. destruct Hc as [Hh Hr Hw He Hg Hb Hl]. simpl app in *. simpl length in *.
  apply Forall_cons in Hb as [Hx Hb]. split_and!; [|done|by eapply ring_front|].
  - split; simpl; try done.
    + unfold fits, u32. dlia.
    + rewrite Hw. unfold u32. dlia.
    + rewrite He. unfold u32. dlia.
    + apply (cons_wrap _ (cons_r c + 1)). by eapply ring_pop.
  - rewrite Hw. unfold fits, u32 in *. dlia.
Qed.
Lemma cons_none c line : cons_in c [] line → cons_r c = cons_w c.
Proof using. intros [_ Hr Hw _ _ _ _]. rewrite Hw. simpl. unfold fits, u32 in *. dlia. Qed.
Lemma cons_in_mem c ready line m : cons_in c ready line → cons_in (set_cons_mem m c) ready line.
Proof using. intros []. by split. Qed.
Definition read_post c line (bs : list Z) (n : nat) (o : list Z * list Z * bool) (r : Z * Z + option Z) c' : Prop :=
  let '(out, rest, over) := o in
  cons_in c' rest line ∧ W (bs ++ out) (cons_mem c') ∧ c_out c' = c_out c ∧ cons_lock c' = cons_lock c ∧
  r = if over then inr (Some (Z.of_nat n - Z.of_nat (length out)))
      else inl (u64 (dst + Z.of_nat (length (bs ++ out))), Z.of_nat n - Z.of_nat (length out)).
Lemma read_loop fuel n c ready line bs : (n < fuel)%nat → cons_in c ready line → W bs (cons_mem c) →
  Z.of_nat n + Z.of_nat (length bs) = target →
  wp (loop fuel (consoleread_round pagetable false user_dst target) (u64 (dst + Z.of_nat (length bs)), Z.of_nat n))
    (read_post c line bs n (read_line (bool_decide (bs ≠ [])) ready n)) c.
Proof using Hsink.
  revert n c ready bs. induction fuel as [|fuel IH]; intros n c ready bs Hf Hc HW Hn; [lia|].
  simpl loop. apply wp_bind. destruct n as [|n].
  { apply wp_ret, wp_ret. unfold read_post. cbn [read_line]. by rewrite app_nil_r. }
  unfold consoleread_round at 1. destruct (Z.ltb_spec 0 (Z.of_nat (S n))) as [_|?]; [|lia].
  apply wp_bind, wp_gets, wp_bind, wp_gets. destruct ready as [|x ready].
  { rewrite (cons_none _ _ Hc), Z.eqb_refl. apply wp_ret, wp_ret. unfold read_post. cbn [read_line]. rewrite app_nil_r. split_and!; try done. }
  destruct (cons_pop _ _ _ _ Hc) as (Hc1 & Hx & Ex & Hne). apply Z.eqb_neq in Hne. rewrite Hne.
  apply wp_bind, wp_gets. rewrite Ex. simpl default. apply wp_bind, wp_modify. cbn [read_line].
  destruct (x =? ctl 68) eqn:ED.
  { apply wp_bind. destruct bs as [|b0 bs0].
    - rewrite bool_decide_eq_false_2 by (intros E; by apply E). destruct (Z.ltb_spec (Z.of_nat (S n)) target) as [?|_]; [simpl in Hn; lia|].
      apply wp_ret, wp_ret, wp_ret. by split_and!.
    - rewrite bool_decide_eq_true_2 by done. destruct (Z.ltb_spec (Z.of_nat (S n)) target) as [_|?]; [|simpl in Hn; lia].
      apply wp_modify, wp_ret, wp_ret. unfold read_post. rewrite app_nil_r.
      assert (set_cons_r (u32 (cons_r (set_cons_r (u32 (cons_r c + 1)) c) - 1)) (set_cons_r (u32 (cons_r c + 1)) c) = c) as ->; [|done].
      destruct (cn_r _ _ _ Hc). destruct c. unfold set_cons_r. simpl in *. f_equal. unfold u32. dlia. }
  apply wp_bind, wp_zoom. eapply wp_mono; [apply (Hsink bs [x]); [done|by apply Forall_singleton|simpl; lia]|].
  intros e m [[-> HW']|[_ []]]. simpl (0 =? -1). cbv iota. pose proof (cons_in_mem _ _ _ m Hc1) as Hc2.
  destruct (x =? 10) eqn:EN.
  { apply wp_ret, wp_ret. unfold read_post. cbn [length]. split_and!; try done. }
  apply wp_ret. replace (u64 (u64 (dst + Z.of_nat (length bs)) + 1)) with (u64 (dst + Z.of_nat (length (bs ++ [x]))))
    by (rewrite length_app; unfold u64; simpl; dlia).
  replace (Z.of_nat (S n) - 1) with (Z.of_nat n) by lia.
  eapply wp_mono; [apply (IH n _ ready (bs ++ [x])); [lia|exact Hc2|done|rewrite length_app; simpl; lia]|].
  rewrite bool_decide_eq_true_2 by (by destruct bs). intros r c'. unfold read_post.
  destruct (read_line true ready n) as [[out rest] over]. intros (H1 & H2 & H3 & H4 & ->).
  rewrite <- app_assoc in H2. split_and!; [done|done|done|done|]. rewrite <- app_assoc. simpl app. simpl length.
  destruct over; do 2 f_equal; lia.
Qed.
End read.

(** C23: the console's line discipline.  Typed keys make complete lines and a
    line that is edited, as [key] says: backspace and ^U erase only what is
    not complete, a newline, ^D or a full buffer completes a line, and all of
    it is echoed; ^P shows the process list.  Readers are woken as soon as
    another line is complete.  A read then delivers the complete input up to
    a newline, a ^D or the size asked for, and no more; a ^D that ends a read
    which has delivered bytes stays for the next read.  It sleeps only when
    no complete line is left. *)
Theorem console_lines c ready line ks user_dst dst n W :
  cons_in c ready line → cons_lock c = false → Forall (λ k, fits 8 k.2) ks → fits 64 dst → 0 ≤ n →
  sink pagetable user_dst dst n W (λ _, False) → W [] (cons_mem c) →
  wp (do! type_keys ks; still (consoleread pagetable false user_dst dst n)) (λ r w,
    let '((ready', line'), echo) := typed ks (ready, line) in
    let '(out, rest, over) := read_line false ready' (Z.to_nat n) in
    let c' := wk_st w in
    cons_in c' rest line' ∧ cons_lock c' = false ∧ c_out c' = c_out c ++ echo ∧ W out (cons_mem c') ∧
    (ready' ≠ ready → cons_r_chan ∈ wk_chans w) ∧
    (if over then r = inr (Z.of_nat (length out))
     else rest = [] ∧ r = inl (cons_r_chan, (u64 (dst + Z.of_nat (length out)), n - Z.of_nat (length out))))) (Waking c []).
Proof using Hidle.
  intros Hc Hl Hb Hd Hn Hs HW. apply wp_bind. eapply wp_mono; [by apply (type_keys_spec ks c [] (ready, line))|].
  intros [] [c1 cs1] H1. destruct (typed ks (ready, line)) as [[ready1 line1] echo]. simpl in H1. destruct H1 as (Hc1 & O1 & L1 & M1 & _ & W1).
  apply wp_zoom. unfold consoleread, consoleread_from. apply wp_bind, wp_lock_acquire; [done|]. apply wp_bind.
  pose proof (read_loop user_dst dst n W Hs (Z.to_nat n + 1) (Z.to_nat n) (set_cons_lock true c1) ready1 line1 []) as Hrl.
  rewrite Z2Nat.id, Z.add_0_r in Hrl by done. change (Z.of_nat (length (@nil Z))) with 0 in Hrl. rewrite Z.add_0_r in Hrl.
  rewrite (u64_small dst) in Hrl by done.
  eapply wp_mono; [apply Hrl; [lia|by apply cons_in_lock|by rewrite <- M1 in HW|lia]|].
  rewrite bool_decide_eq_false_2 by (intros E; by apply E). intros r c2. unfold read_post.
  destruct (read_line false ready1 (Z.to_nat n)) as [[out rest] over] eqn:Erl. intros (Hc2 & HW2 & O2 & L2 & ->).
  apply wp_bind, wp_lock_release; [by rewrite L2|].
  assert (cons_in (set_cons_lock false c2) rest line1 ∧ c_out (set_cons_lock false c2) = c_out c ++ echo) as [Hc3 O3].
  { split; [by apply cons_in_lock|]. change (c_out c2 = c_out c ++ echo). rewrite O2. exact O1. }
  destruct over; simpl; apply wp_ret.
  - split_and!; try done. f_equal. lia.
  - split_and!; try done; [by eapply read_line_more|]. by rewrite Z2Nat.id.
Qed.
End console.

(** * A device that is busy until it is asked again *)

(** A byte written while the holding register is full is lost. *)
Record slow_dev := SlowDev { sd_full : bool; sd_out : list Z }.
#[export] Instance slow_uart : UartRegs slow_dev := {
  ReadReg r := λ h, Ok (if (r =? LSR) && negb (sd_full h) then LSR_TX_IDLE else 0)
                       (if r =? LSR then SlowDev false (sd_out h) else h);
  WriteReg r c := modify (λ h, if (r =? THR) && negb (sd_full h) then SlowDev true (sd_out h ++ [c]) else h);
}.
#[export] Instance slow_uart_laws : UartLaws slow_dev.
Proof.
  refine {| hw_ready _ := True; hw_idle h := sd_full h = false; hw_out h := sd_out h |}.
  - done.
  - intros [f o] c _ E _. simpl in E. by subst f.
Defined.
Definition slow_tx : uart (H:=slow_dev) := Uart false (replicate 32 0) 0 0 (SlowDev true []).
Definition slow_cons : cons (H:=slow_dev) := Cons false (replicate 128 0) 0 0 0 slow_tx (Kmem false 0 ∅).

Lemma empty_ring N (n : nat) : N = Z.of_nat n → ring N (replicate n 0) 0 [].
Proof. intros ->. split; [rewrite length_replicate; lia|simpl; lia|done]. Qed.
Lemma uartputc_fifo_witness :
  wp (uartputc false 104) (λ r w, uart_tx_lock (wk_st w) = false ∧
    match r with
    | inr _ => ∃ q', uart_rep (wk_st w) q' ∧ u_out (wk_st w) ++ q' = u_out slow_tx ++ [] ++ [u8 104] ∧
        ((length q' ≤ 0)%nat → uart_tx_r_chan ∈ wk_chans w)
    | inl chan => chan = uart_tx_r_chan ∧ Z.of_nat (length (@nil Z)) = UART_TX_BUF_SIZE ∧ w = Waking slow_tx []
    end) (Waking slow_tx []).
Proof.
  refine (proj1 (uartputc_fifo slow_tx [] 104 _ _)); [|reflexivity].
  split; [exact I|split; simpl; lia|reflexivity|by apply empty_ring|apply Forall_nil_2].
Defined.
(** Typing an a, a b, a backspace, ^P, a c and a newline and reading ten bytes. *)
Lemma console_lines_witness :
  wp (do! type_keys 2 [([], 97); ([], 98); ([], 8); ([], 16); ([], 99); ([], 13)]; still (consoleread 0 false false 500 10)) (λ r w,
    cons_in (wk_st w) [] [] ∧ cons_lock (wk_st w) = false ∧ c_out (wk_st w) = [97; 98; 8; 32; 8; 10; 99; 10] ∧
    kernel_dst 500 (Kmem false 0 ∅) [97; 99; 10] (cons_mem (wk_st w)) ∧
    ([97; 99; 10] ≠ [] → cons_r_chan ∈ wk_chans w) ∧ r = inr 3) (Waking slow_cons []).
Proof.
  refine (console_lines 2 _ 0 slow_cons [] [] [([], 97); ([], 98); ([], 8); ([], 16); ([], 99); ([], 13)] false 500 10
    (kernel_dst 500 (Kmem false 0 ∅)) _ _ _ _ _ (kernel_sink 0 500 10 (Kmem false 0 ∅) _ _) _); try lia; try reflexivity.
  - intros [[] o] _; exact I.
  - split; [exact I|split; simpl; lia|reflexivity|reflexivity|by apply empty_ring|apply Forall_nil_2|set_solver].
  - repeat (apply Forall_cons; split; [split; simpl; lia|]). apply Forall_nil_2.
  - split; lia.
Defined.
