(* ===== verification/Virtio.v ===== *)
(** kernel/virtio_disk.c: the driver of the virtio disk.  The descriptors, the
    avail ring and the used ring are memory that the driver and the device
    share.  An address that the driver gives to the device is that of a
    request header, of the data of a buffer or of a status byte ([vaddr]).  A
    [struct buf *] is the index of the buffer.  A function that sleeps is
    split where it gives up [vdisk_lock]; wakeup records the channel. *)

From S2P Require Import Prelude Riscv Spinlock Sleeplock Bio.

(** * kernel/virtio.h *)

Definition VIRTIO_MMIO_MAGIC_VALUE : Z := 0x000.
Definition VIRTIO_MMIO_VERSION : Z := 0x004.
Definition VIRTIO_MMIO_DEVICE_ID : Z := 0x008.
Definition VIRTIO_MMIO_VENDOR_ID : Z := 0x00c.
Definition VIRTIO_MMIO_DEVICE_FEATURES : Z := 0x010.
Definition VIRTIO_MMIO_DRIVER_FEATURES : Z := 0x020.
Definition VIRTIO_MMIO_GUEST_PAGE_SIZE : Z := 0x028.
Definition VIRTIO_MMIO_QUEUE_SEL : Z := 0x030.
Definition VIRTIO_MMIO_QUEUE_NUM_MAX : Z := 0x034.
Definition VIRTIO_MMIO_QUEUE_NUM : Z := 0x038.
Definition VIRTIO_MMIO_QUEUE_PFN : Z := 0x040.
Definition VIRTIO_MMIO_QUEUE_NOTIFY : Z := 0x050.
Definition VIRTIO_MMIO_INTERRUPT_STATUS : Z := 0x060.
Definition VIRTIO_MMIO_INTERRUPT_ACK : Z := 0x064.
Definition VIRTIO_MMIO_STATUS : Z := 0x070.

Definition VIRTIO_CONFIG_S_ACKNOWLEDGE : Z := 1.
Definition VIRTIO_CONFIG_S_DRIVER : Z := 2.
Definition VIRTIO_CONFIG_S_DRIVER_OK : Z := 4.
Definition VIRTIO_CONFIG_S_FEATURES_OK : Z := 8.

Definition VIRTIO_BLK_F_RO : Z := 5.
Definition VIRTIO_BLK_F_SCSI : Z := 7.
Definition VIRTIO_BLK_F_CONFIG_WCE : Z := 11.
Definition VIRTIO_BLK_F_MQ : Z := 12.
Definition VIRTIO_F_ANY_LAYOUT : Z := 27.
Definition VIRTIO_RING_F_INDIRECT_DESC : Z := 28.
Definition VIRTIO_RING_F_EVENT_IDX : Z := 29.

Definition NUM : Z := 8.
Definition VRING_DESC_F_NEXT : Z := 1.
Definition VRING_DESC_F_WRITE : Z := 2.
Definition VIRTIO_BLK_T_IN : Z := 0.
Definition VIRTIO_BLK_T_OUT : Z := 1.

(** [&disk.ops[i]], [b->data] and [&disk.info[i].status]. *)
Inductive vaddr := VNull | VOp (i : Z) | VData (b : nat) | VStatus (i : Z).
Record virtq_desc := Desc { d_addr : vaddr; d_len : Z; d_flags : Z; d_next : Z }.
Definition desc0 : virtq_desc := Desc VNull 0 0 0.
Record virtio_blk_req := Req { q_type : Z; q_reserved : Z; q_sector : Z }.
Definition sizeof_virtio_blk_req : Z := 16.

(** The registers of the device. *)
Class VirtioRegs (H : Type) := {
  vr_read : Z → M H Z;
  vr_write : Z → Z → M H unit;
}.

(** * State *)

Section virtio.
Context {H : Type} `{VirtioRegs H}.

(** What a process sleeps on: [&disk.free[0]] and a buffer. *)
Inductive vchan := CFree | CBuf (b : nat).
#[export] Instance vchan_eq_dec : EqDecision vchan.
Proof. solve_decision. Defined.
Record vinfo := Info { in_b : option nat; in_status : Z }.
(** What the driver uses of a [struct buf]. *)
Record vbuf := VBuf { vb_disk : bool; vb_blockno : Z; vb_data : Bio.block }.
Record vdisk := VDisk {
  v_desc : list virtq_desc;
  v_avail_idx : Z;                 (* avail->idx *)
  v_avail_ring : list Z;           (* avail->ring *)
  v_dev_idx : Z;                   (* used->idx *)
  v_used_ring : list (Z * Z);      (* used->ring: id and len *)
  v_free : list bool;
  v_used_idx : Z;
  v_info : list vinfo;
  v_ops : list virtio_blk_req;
  v_lock : bool;
  v_bufs : list vbuf;
  v_hw : H;
  v_woken : list vchan;            (* the channels woken *)
}.
Definition set_desc x s := VDisk x (v_avail_idx s) (v_avail_ring s) (v_dev_idx s) (v_used_ring s) (v_free s) (v_used_idx s) (v_info s) (v_ops s) (v_lock s) (v_bufs s) (v_hw s) (v_woken s).
Definition set_avail i r s := VDisk (v_desc s) i r (v_dev_idx s) (v_used_ring s) (v_free s) (v_used_idx s) (v_info s) (v_ops s) (v_lock s) (v_bufs s) (v_hw s) (v_woken s).
Definition set_used i r s := VDisk (v_desc s) (v_avail_idx s) (v_avail_ring s) i r (v_free s) (v_used_idx s) (v_info s) (v_ops s) (v_lock s) (v_bufs s) (v_hw s) (v_woken s).
Definition set_free x s := VDisk (v_desc s) (v_avail_idx s) (v_avail_ring s) (v_dev_idx s) (v_used_ring s) x (v_used_idx s) (v_info s) (v_ops s) (v_lock s) (v_bufs s) (v_hw s) (v_woken s).
Definition set_used_idx x s := VDisk (v_desc s) (v_avail_idx s) (v_avail_ring s) (v_dev_idx s) (v_used_ring s) (v_free s) x (v_info s) (v_ops s) (v_lock s) (v_bufs s) (v_hw s) (v_woken s).
Definition set_info x s := VDisk (v_desc s) (v_avail_idx s) (v_avail_ring s) (v_dev_idx s) (v_used_ring s) (v_free s) (v_used_idx s) x (v_ops s) (v_lock s) (v_bufs s) (v_hw s) (v_woken s).
Definition set_ops x s := VDisk (v_desc s) (v_avail_idx s) (v_avail_ring s) (v_dev_idx s) (v_used_ring s) (v_free s) (v_used_idx s) (v_info s) x (v_lock s) (v_bufs s) (v_hw s) (v_woken s).
Definition set_vlock x s := VDisk (v_desc s) (v_avail_idx s) (v_avail_ring s) (v_dev_idx s) (v_used_ring s) (v_free s) (v_used_idx s) (v_info s) (v_ops s) x (v_bufs s) (v_hw s) (v_woken s).
Definition set_vbufs x s := VDisk (v_desc s) (v_avail_idx s) (v_avail_ring s) (v_dev_idx s) (v_used_ring s) (v_free s) (v_used_idx s) (v_info s) (v_ops s) (v_lock s) x (v_hw s) (v_woken s).
Definition set_vhw x s := VDisk (v_desc s) (v_avail_idx s) (v_avail_ring s) (v_dev_idx s) (v_used_ring s) (v_free s) (v_used_idx s) (v_info s) (v_ops s) (v_lock s) (v_bufs s) x (v_woken s).

Definition set_woken x s := VDisk (v_desc s) (v_avail_idx s) (v_avail_ring s) (v_dev_idx s) (v_used_ring s) (v_free s) (v_used_idx s) (v_info s) (v_ops s) (v_lock s) (v_bufs s) (v_hw s) x.

Definition vreg {A} (m : M H A) : M vdisk A := zoom v_hw set_vhw m.
Definition v_acquire : M vdisk unit := zoom v_lock set_vlock Lock.lk_acquire.
Definition v_release : M vdisk unit := zoom v_lock set_vlock Lock.lk_release.
Definition v_wakeup (c : vchan) : M vdisk unit := modify (λ s, set_woken (c :: v_woken s) s).
(** An array element; [stuck] outside the array. *)
Definition elem {A} (l : vdisk → list A) (i : Z) : M vdisk A := λ s,
  if 0 <=? i then match l s !! Z.to_nat i with Some x => Ok x s | None => Stuck end else Stuck.
Definition put_desc (i : Z) (f : virtq_desc → virtq_desc) : M vdisk unit :=
  modify (λ s, set_desc (alter f (Z.to_nat i) (v_desc s)) s).
Definition put_info (i : Z) (f : vinfo → vinfo) : M vdisk unit :=
  modify (λ s, set_info (alter f (Z.to_nat i) (v_info s)) s).
Definition put_op (i : Z) (x : virtio_blk_req) : M vdisk unit :=
  modify (λ s, set_ops (<[Z.to_nat i := x]> (v_ops s)) s).
Definition put_buf_disk (b : nat) (x : bool) : M vdisk unit :=
  modify (λ s, set_vbufs (alter (λ v, VBuf x (vb_blockno v) (vb_data v)) b (v_bufs s)) s).

(** * The driver *)

(** [features &= ~(1 << k)] *)
Definition clear_feature (k f : Z) : Z := Z.land f (Z.lnot (Z.shiftl 1 k)).
(** [pages] is the address of [disk.pages]. *)
Definition virtio_disk_init (pages : Z) : M vdisk unit :=
  do! modify (set_vlock false);
  let! magic := vreg (vr_read VIRTIO_MMIO_MAGIC_VALUE) in
  let! version := vreg (vr_read VIRTIO_MMIO_VERSION) in
  let! device := vreg (vr_read VIRTIO_MMIO_DEVICE_ID) in
  let! vendor := vreg (vr_read VIRTIO_MMIO_VENDOR_ID) in
  if negb (magic =? 0x74726976) || negb (version =? 1) || negb (device =? 2) || negb (vendor =? 0x554d4551)
  then panic "could not find virtio disk"
  else
    let status := VIRTIO_CONFIG_S_ACKNOWLEDGE in
    do! vreg (vr_write VIRTIO_MMIO_STATUS status);
    let status := Z.lor status VIRTIO_CONFIG_S_DRIVER in
    do! vreg (vr_write VIRTIO_MMIO_STATUS status);
    let! features := vreg (vr_read VIRTIO_MMIO_DEVICE_FEATURES) in
    let features := foldr clear_feature features
      [VIRTIO_RING_F_INDIRECT_DESC; VIRTIO_RING_F_EVENT_IDX; VIRTIO_F_ANY_LAYOUT; VIRTIO_BLK_F_MQ;
       VIRTIO_BLK_F_CONFIG_WCE; VIRTIO_BLK_F_SCSI; VIRTIO_BLK_F_RO] in
    do! vreg (vr_write VIRTIO_MMIO_DRIVER_FEATURES (u32 features));
    let status := Z.lor status VIRTIO_CONFIG_S_FEATURES_OK in
    do! vreg (vr_write VIRTIO_MMIO_STATUS status);
    let status := Z.lor status VIRTIO_CONFIG_S_DRIVER_OK in
    do! vreg (vr_write VIRTIO_MMIO_STATUS status);
    do! vreg (vr_write VIRTIO_MMIO_GUEST_PAGE_SIZE PGSIZE);
    do! vreg (vr_write VIRTIO_MMIO_QUEUE_SEL 0);
    let! max := vreg (vr_read VIRTIO_MMIO_QUEUE_NUM_MAX) in
    if max =? 0 then panic "virtio disk has no queue 0"
    else if max <? NUM then panic "virtio disk max queue too short"
    else
      do! vreg (vr_write VIRTIO_MMIO_QUEUE_NUM NUM);
      (* memset(disk.pages, 0, sizeof(disk.pages)) *)
      do! modify (set_desc (replicate (Z.to_nat NUM) desc0));
      do! modify (set_avail 0 (replicate (Z.to_nat NUM) 0));
      do! modify (set_used 0 (replicate (Z.to_nat NUM) (0, 0)));
      do! vreg (vr_write VIRTIO_MMIO_QUEUE_PFN (u32 (Z.shiftr pages PGSHIFT)));
      modify (set_free (replicate (Z.to_nat NUM) true)).

(** The first free descriptor, from index [i] on. *)
Fixpoint first_free (l : list bool) (i : Z) : option Z :=
  match l with
  | [] => None
  | true :: _ => Some i
  | false :: l' => first_free l' (i + 1)
  end.
(** find a free descriptor, mark it non-free, return its index. *)
Definition alloc_desc : M vdisk Z :=
  let! free := gets v_free in
  match first_free free 0 with
  | Some i =>
      do! modify (set_free (<[Z.to_nat i := false]> free));
      ret i
  | None => ret (-1)
  end.

(** mark a descriptor as free. *)
Definition free_desc (i : Z) : M vdisk unit :=
  if NUM <=? i then panic "free_desc 1"
  else
    let! f := elem v_free i in
    if f : bool then panic "free_desc 2"
    else
      do! put_desc i (λ _, desc0);
      do! modify (λ s, set_free (<[Z.to_nat i := true]> (v_free s)) s);
      v_wakeup CFree.

(** free a chain of descriptors. *)
Definition free_chain (i : Z) : M vdisk unit :=
  loop (Z.to_nat NUM + 1) (λ i,
    let! d := elem v_desc i in
    do! free_desc i;
    if truth (Z.land (d_flags d) VRING_DESC_F_NEXT) then ret (inl (d_next d)) else ret (inr tt)) i.

(** allocate three descriptors (they need not be contiguous). *)
Definition alloc3_desc : M vdisk (option (Z * Z * Z)) :=
  let! i0 := alloc_desc in
  if i0 <? 0 then ret None
  else
    let! i1 := alloc_desc in
    if i1 <? 0 then
      do! free_desc i0;
      ret None
    else
      let! i2 := alloc_desc in
      if i2 <? 0 then
        do! free_desc i0;
        do! free_desc i1;
        ret None
      else ret (Some (i0, i1, i2)).

(** Format the three descriptors, record the buffer for the interrupt handler,
    and hand the chain to the device. *)
Definition rw_format (b : nat) (write : bool) (sector : Z) '((i0, i1, i2) : Z * Z * Z) : M vdisk unit :=
  do! put_op i0 (Req (if write then VIRTIO_BLK_T_OUT else VIRTIO_BLK_T_IN) 0 sector);
  do! put_desc i0 (λ _, Desc (VOp i0) sizeof_virtio_blk_req VRING_DESC_F_NEXT i1);
  do! put_desc i1 (λ _, Desc (VData b) BSIZE (Z.lor (if write then 0 else VRING_DESC_F_WRITE) VRING_DESC_F_NEXT) i2);
  do! put_info i0 (λ x, Info (in_b x) 0xff);
  do! put_desc i2 (λ _, Desc (VStatus i0) 1 VRING_DESC_F_WRITE 0);
  do! put_buf_disk b true;
  do! put_info i0 (λ x, Info (Some b) (in_status x));
  do! modify (λ s, set_avail (v_avail_idx s) (<[Z.to_nat (v_avail_idx s `mod` NUM) := i0]> (v_avail_ring s)) s);
  do! modify (λ s, set_avail (u16 (v_avail_idx s + 1)) (v_avail_ring s) s);
  vreg (vr_write VIRTIO_MMIO_QUEUE_NOTIFY 0).

(** [while(b->disk == 1) sleep(b, &disk.vdisk_lock)] and what follows it, with
    the lock held: [false] when the process has gone to sleep. *)
Definition rw_wait (b : nat) (i0 : Z) : M vdisk bool :=
  let! bufs := gets v_bufs in
  if from_option vb_disk false (bufs !! b) then
    do! v_release;
    ret false
  else
    do! put_info i0 (λ x, Info None (in_status x));
    do! free_chain i0;
    do! v_release;
    ret true.

(** virtio_disk_rw up to its first sleep: [inl tt] in the loop that waits for
    descriptors, which begins anew when the process runs again, [inr i0] in
    the loop that waits for the device. *)
Definition rw_submit (b : nat) (write : bool) : M vdisk (unit + Z * bool) :=
  let! v := elem v_bufs (Z.of_nat b) in
  let sector := u32 (vb_blockno v * (BSIZE / 512)) in
  do! v_acquire;
  let! r := alloc3_desc in
  match r with
  | None =>
      do! v_release;
      ret (inl tt)
  | Some (i0, i1, i2) =>
      do! rw_format b write sector (i0, i1, i2);
      let! fin := rw_wait b i0 in
      ret (inr (i0, fin))
  end.
(** The process runs again in the second loop: whether virtio_disk_rw returns. *)
Definition rw_again (b : nat) (i0 : Z) : M vdisk bool :=
  do! v_acquire;
  rw_wait b i0.

Definition intr_round (_ : unit) : M vdisk (unit + unit) :=
  let! mine := gets v_used_idx in
  let! dev := gets v_dev_idx in
  if mine =? dev then ret (inr tt)
  else
    let! e := elem v_used_ring (mine `mod` NUM) in
    let id := s32 e.1 in
    let! info := elem v_info id in
    if negb (in_status info =? 0) then panic "virtio_disk_intr status"
    else
      match in_b info with
      | None => stuck                    (* a null pointer *)
      | Some b =>
          do! put_buf_disk b false;      (* disk is done with buf *)
          do! v_wakeup (CBuf b);
          do! modify (set_used_idx (u16 (mine + 1)));
          ret (inl tt)
      end.
(** The device completes at most [NUM] requests before the driver looks. *)
Definition virtio_disk_intr : M vdisk unit :=
  do! v_acquire;
  let! st := vreg (vr_read VIRTIO_MMIO_INTERRUPT_STATUS) in
  do! vreg (vr_write VIRTIO_MMIO_INTERRUPT_ACK (Z.land st 0x3));
  do! loop (Z.to_nat NUM + 1) intr_round tt;
  v_release.
End virtio.
