(* ===== verification/VirtioSpec.v ===== *)
(** kernel/virtio_disk.c: the driver and the device together carry out each
    transfer exactly once and at one instant, as bio.c relies on.  The
    device is the one of the virtio specification (sections 2.6 and 5.2): it
    takes the chains from the avail ring, carries them out in any order, and
    reports them in the used ring. *)

From S2P Require Import Prelude Riscv Spinlock Sleeplock Bio Ring Virtio.

(** What the driver relies on: reading and writing a register returns. *)
Class VirtioLaws (H : Type) `{VirtioRegs H} := {
  vr_read_ok : ∀ r h, wp (vr_read r) (λ _ _, True) h;
  vr_write_ok : ∀ r x h, wp (vr_write r x) (λ _ _, True) h;
}.

(** * Descriptors *)

Section desc.
Context {H : Type} {VR : VirtioRegs H} {VL : VirtioLaws H}.
Implicit Types s : vdisk (H:=H).

Lemma wp_vreg {A} (m : M H A) (Q : A → vdisk → Prop) s :
  wp m (λ _ _, True) (v_hw s) → (∀ a h, Q a (set_vhw h s)) → wp (vreg m) Q s.
Proof. intros Hm HQ. apply wp_zoom. eapply wp_mono; [exact Hm|]. auto. Qed.
Lemma wp_elem {A} (l : vdisk (H:=H) → list A) i x (Q : A → vdisk → Prop) s :
  0 ≤ i → l s !! Z.to_nat i = Some x → Q x s → wp (elem l i) Q s.
Proof. intros Hi Hx HQ. unfold wp, elem. rewrite (proj2 (Z.leb_le _ _) Hi). by rewrite Hx. Qed.

Lemma first_free_some l k i : first_free l k = Some i → 0 ≤ i - k ∧ l !! Z.to_nat (i - k) = Some true.
Proof.
  revert k. induction l as [|[] l IH]; intros k; [done| |]; simpl.
  - intros [= ->]. rewrite Z.sub_diag. done.
  - intros [H1 H2]%IH. split; [lia|]. replace (Z.to_nat (i - k)) with (S (Z.to_nat (i - (k + 1)))) by lia. done.
Qed.
Lemma first_free_none l k i : first_free l k = None → l !! i ≠ Some true.
Proof.
  revert k i. induction l as [|[] l IH]; intros k i; [done|done|]. simpl. intros Hn. destruct i; [done|]. by apply (IH (k + 1)).
Qed.

(** A free descriptor of [s]. *)
Definition is_free s (i : Z) : Prop := 0 ≤ i ∧ v_free s !! Z.to_nat i = Some true.
Definition use (i : Z) s : vdisk := set_free (<[Z.to_nat i := false]> (v_free s)) s.
(** Freeing clears the descriptor and wakes those who wait for one. *)
Definition unuse (i : Z) s : vdisk := set_woken (CFree :: v_woken s) (set_free (<[Z.to_nat i := true]> (v_free s)) (set_desc (alter (λ _, desc0) (Z.to_nat i) (v_desc s)) s)).

Lemma alloc_desc_spec s : wp alloc_desc (λ i s', (i = -1 ∧ s' = s ∧ ∀ j, ¬ is_free s j) ∨ (is_free s i ∧ s' = use i s)) s.
Proof.
  unfold alloc_desc. apply wp_bind, wp_gets. destruct (first_free (v_free s) 0) as [i|] eqn:E.
  - apply wp_bind, wp_modify, wp_ret. right. apply first_free_some in E as [E1 E2]. rewrite Z.sub_0_r in *. done.
  - apply wp_ret. left. split_and!; [done|done|]. intros j [_ Hj]. by eapply first_free_none.
Qed.
Lemma free_desc_spec s i : 0 ≤ i < NUM → v_free s !! Z.to_nat i = Some false → wp (free_desc i) (λ _ s', s' = unuse i s) s.
Proof.
  intros Hi Hf. unfold free_desc. rewrite (proj2 (Z.leb_gt _ _)) by lia. apply wp_bind. eapply wp_elem; [lia|done|].
  apply wp_bind, wp_modify, wp_bind, wp_modify, wp_modify. done.
Qed.

Lemma is_free_use s i j : is_free (use i s) j ↔ is_free s j ∧ Z.to_nat i ≠ Z.to_nat j.
Proof.
  unfold is_free, use. simpl. rewrite list_lookup_insert_Some. naive_solver.
Qed.
Lemma is_free_lt s i : length (v_free s) = Z.to_nat NUM → is_free s i → 0 ≤ i < NUM.
Proof. intros Hl [H0 H1]. apply lookup_lt_Some in H1. lia. Qed.
Lemma unuse_use s i : is_free s i → v_free (unuse i (use i s)) = v_free s.
Proof. intros [_ Hf]. unfold unuse, use. simpl. rewrite list_insert_insert_eq. by apply list_insert_id. Qed.

(** Only the contents of free descriptors differ, and somebody may be awake. *)
Definition same_desc s s' : Prop := set_woken [] (set_desc [] s') = set_woken [] (set_desc [] s) ∧ length (v_desc s') = length (v_desc s) ∧
  ∀ i, v_free s !! i ≠ Some true → v_desc s' !! i = v_desc s !! i.
Lemma same_desc_eq s s' : same_desc s s' → s' = set_woken (v_woken s') (set_desc (v_desc s') s).
Proof. intros [E _]. destruct s, s'. unfold set_woken, set_desc in *. simpl in *. injection E. intros. by subst. Qed.
Lemma same_desc_unuse s s' i : same_desc s (set_free (v_free s) s') → is_free s i → v_free s' = <[Z.to_nat i := false]> (v_free s) →
  same_desc s (unuse i s').
Proof.
  intros (E & Hl & Hd) [Hi Hf] Ef. split_and!.
  - change (set_free (<[Z.to_nat i := true]> (v_free s')) (set_woken [] (set_desc [] (set_free (v_free s) s'))) = set_woken [] (set_desc [] s)).
    rewrite E, Ef, list_insert_insert_eq, list_insert_id by done. reflexivity.
  - simpl. by rewrite length_alter.
  - intros j Hj. simpl. rewrite list_lookup_alter_ne by congruence. by apply Hd.
Qed.
Lemma same_desc_used s i : is_free s i → same_desc s (unuse i (use i s)).
Proof. intros Hi. by apply same_desc_unuse. Qed.

Definition three (i0 i1 i2 : Z) : Prop := i0 ≠ i1 ∧ i0 ≠ i2 ∧ i1 ≠ i2.
Lemma alloc3_spec s : length (v_free s) = Z.to_nat NUM → wp alloc3_desc (λ r s', match r with
  | Some (i0, i1, i2) => is_free s i0 ∧ is_free s i1 ∧ is_free s i2 ∧ three i0 i1 i2 ∧ s' = use i2 (use i1 (use i0 s))
  | None => same_desc s s' ∧ ∀ i0 i1 i2, is_free s i0 → is_free s i1 → is_free s i2 → ¬ three i0 i1 i2
  end) s.
Proof.
  intros Hlen. unfold alloc3_desc. apply wp_bind. eapply wp_mono; [apply alloc_desc_spec|].
  intros i0 s0 [(-> & -> & Hno)|[H0 ->]].
  { simpl. apply wp_ret. split; [done|]. intros i0 ? ? Hf. by apply Hno in Hf. }
  pose proof (is_free_lt _ _ Hlen H0) as L0. rewrite (proj2 (Z.ltb_ge _ _)) by lia.
  apply wp_bind. eapply wp_mono; [apply alloc_desc_spec|]. intros i1 s1 [(-> & -> & Hno)|[H1 ->]].
  { simpl. apply wp_bind. eapply wp_mono; [apply free_desc_spec; [done|]|].
    { simpl. apply list_lookup_insert_eq. lia. }
    intros [] s2 ->. apply wp_ret. split.
    - by apply same_desc_used.
    - intros j0 j1 j2 Hj0 Hj1 Hj2 (? & ? & ?). destruct (decide (j0 = i0)) as [->|].
      + apply (Hno j1). apply is_free_use. split; [done|]. destruct Hj1. lia.
      + apply (Hno j0). apply is_free_use. split; [done|]. destruct Hj0. lia. }
  apply is_free_use in H1 as [H1 N1]. pose proof (is_free_lt _ _ Hlen H1) as L1. rewrite (proj2 (Z.ltb_ge _ _)) by lia.
  apply wp_bind. eapply wp_mono; [apply alloc_desc_spec|]. intros i2 s2 [(-> & -> & Hno)|[H2 ->]].
  { simpl. apply wp_bind. eapply wp_mono; [apply free_desc_spec; [done|]|].
    { simpl. rewrite list_lookup_insert_ne by done. apply list_lookup_insert_eq. lia. }
    intros [] s2 ->. apply wp_bind. eapply wp_mono; [apply free_desc_spec; [done|]|].
    { simpl. rewrite list_lookup_insert_ne by done. apply list_lookup_insert_eq. rewrite length_insert. lia. }
    intros [] s3 ->. apply wp_ret. split.
    - apply same_desc_unuse; [|done|].
      + destruct (same_desc_used s i0 H0) as (_ & Hl & Hd). split_and!; [done|exact Hl|exact Hd].
      + simpl. rewrite (list_insert_insert_ne _ (Z.to_nat i0) (Z.to_nat i1)) by done. f_equal. rewrite list_insert_insert_eq. apply list_insert_id, H0.
    - intros j0 j1 j2 Hj0 Hj1 Hj2 (? & ? & ?). assert (∃ j, is_free s j ∧ j ≠ i0 ∧ j ≠ i1) as (j & Hj & ? & ?).
      { destruct (decide (j0 = i0 ∨ j0 = i1)); [|exists j0; naive_solver]. destruct (decide (j1 = i0 ∨ j1 = i1)); [|exists j1; naive_solver].
        exists j2. split; [done|]. naive_solver. }
      apply (Hno j). rewrite !is_free_use. split_and!; [done|..]; destruct Hj, H1; lia. }
  apply is_free_use in H2 as [H2 N2]. apply is_free_use in H2 as [H2 N3]. pose proof (is_free_lt _ _ Hlen H2) as L2.
  rewrite (proj2 (Z.ltb_ge _ _)) by lia. apply wp_ret. split_and!; try done. unfold three. lia.
Qed.
End desc.

(** * The device *)

(** How far it has read the avail ring, the chains it has taken, and the disk. *)
Record vdevice := Device { dv_seen : Z; dv_pending : list Z; dv_disk : disk }.

(** A call of virtio_disk_rw: not made, without descriptors, or with the chain
    [i0] in the hands of the device. *)
Inductive call := Idle | Want (b : nat) (w : bool) | Wait (b : nat) (w : bool) (i0 : Z).
Definition uses (c : call) (b : nat) : Prop :=
  match c with Idle => False | Want b' _ | Wait b' _ _ => b' = b end.

Section machine.
Context {H : Type} {VR : VirtioRegs H}.

Record system := Sys { y_v : vdisk (H:=H); y_dev : vdevice; y_pc : list call }.

(** The device reads the next entry of the avail ring. *)
Definition dev_take (y : system) : option system :=
  let d := y_dev y in
  if dv_seen d =? v_avail_idx (y_v y) then None
  else
    match v_avail_ring (y_v y) !! Z.to_nat (dv_seen d `mod` NUM) with
    | Some h => Some (Sys (y_v y) (Device (u16 (dv_seen d + 1)) (dv_pending d ++ [h]) (dv_disk d)) (y_pc y))
    | None => None
    end.

(** The transfer that a chain asks for: header, data and status; [None] when the
    chain does not have the form that section 5.2 asks for. *)
Record transfer := Transfer { x_b : nat; x_write : bool; x_no : Z; x_status : Z }.
Definition flagged (d : virtq_desc) (f : Z) : bool := truth (Z.land (d_flags d) f).
Definition chain_of (v : vdisk (H:=H)) (h : Z) : option transfer :=
  match v_desc v !! Z.to_nat h with
  | Some d0 =>
      match v_desc v !! Z.to_nat (d_next d0) with
      | Some d1 =>
          match v_desc v !! Z.to_nat (d_next d1), d_addr d0, d_addr d1 with
          | Some d2, VOp k, VData b =>
              match d_addr d2, v_ops v !! Z.to_nat k with
              | VStatus j, Some op =>
                  if flagged d0 VRING_DESC_F_NEXT && flagged d1 VRING_DESC_F_NEXT && negb (flagged d2 VRING_DESC_F_NEXT) &&
                     flagged d2 VRING_DESC_F_WRITE && (d_len d0 =? sizeof_virtio_blk_req) && (d_len d1 =? BSIZE) && (d_len d2 =? 1)
                  then
                    if (q_type op =? VIRTIO_BLK_T_IN) && flagged d1 VRING_DESC_F_WRITE
                    then Some (Transfer b false (q_sector op / (BSIZE / 512)) j)
                    else if (q_type op =? VIRTIO_BLK_T_OUT) && negb (flagged d1 VRING_DESC_F_WRITE)
                    then Some (Transfer b true (q_sector op / (BSIZE / 512)) j)
                    else None
                  else None
              | _, _ => None
              end
          | _, _, _ => None
          end
      | None => None
      end
  | None => None
  end.
(** The device carries out the chain [h] and reports it. *)
Definition dev_do (h : Z) (y : system) : option system :=
  let v := y_v y in let d := y_dev y in
  match chain_of v h with
  | Some x =>
      match v_bufs v !! x_b x with
      | Some b =>
          let bufs := if x_write x then v_bufs v
            else <[x_b x := VBuf (vb_disk b) (vb_blockno b) (dread (dv_disk d) (x_no x))]> (v_bufs v) in
          let dsk := if x_write x then (x_no x, vb_data b) :: dv_disk d else dv_disk d in
          let info := alter (λ i, Info (in_b i) 0) (Z.to_nat (x_status x)) (v_info v) in
          let used := <[Z.to_nat (v_dev_idx v `mod` NUM) := (h, BSIZE)]> (v_used_ring v) in
          Some (Sys (set_used (u16 (v_dev_idx v + 1)) used (set_info info (set_vbufs bufs v)))
                    (Device (dv_seen d) (filter (λ k, k ≠ h) (dv_pending d)) dsk) (y_pc y))
      | None => None
      end
  | None => None
  end.

(** * The system *)

(** The processes, the interrupt handler and the device take turns; [m_sleep]
    are the processes that sleep in virtio_disk_rw.  What a process sleeps on: *)
Definition chan_at (pc : list call) (p : nat) : vchan := match pc !! p with Some (Wait b _ _) => CBuf b | _ => CFree end.
Record machine := Machine { m_y : system; m_sleep : gset nat }.
(** Who still sleeps after a step of the driver. *)
Definition still (v : vdisk (H:=H)) (m : machine) : gset nat := filter (λ q, chan_at (y_pc (m_y m)) q ∉ v_woken v) (m_sleep m).
Definition fresh (m : machine) : vdisk := set_woken [] (y_v (m_y m)).

(** A process calls virtio_disk_rw with a buffer it has locked; a process that
    has a buffer locked, and no call under way, may do with it what it likes.
    A sleeping process may also be woken by kill. *)
Inductive vstep : machine → machine → Prop :=
| v_call y sl p b w vb : y_pc y !! p = Some Idle → (∀ c, c ∈ y_pc y → ¬ uses c b) →
    v_bufs (y_v y) !! b = Some vb → 0 ≤ vb_blockno vb < 2 ^ 31 →
    vstep (Machine y sl) (Machine (Sys (y_v y) (y_dev y) (<[p := Want b w]> (y_pc y))) sl)
| v_submit m y p b w r v' : m_y m = y → y_pc y !! p = Some (Want b w) → p ∉ m_sleep m → rw_submit b w (fresh m) = Ok r v' →
    vstep m (Machine (Sys v' (y_dev y) (<[p := match r with
      | inl _ => Want b w | inr (i0, fin) => if fin : bool then Idle else Wait b w i0 end]> (y_pc y)))
      (match r with inr (_, true) => still v' m | _ => {[p]} ∪ still v' m end))
| v_again m y p b w i0 fin v' : m_y m = y → y_pc y !! p = Some (Wait b w i0) → p ∉ m_sleep m → rw_again b i0 (fresh m) = Ok fin v' →
    vstep m (Machine (Sys v' (y_dev y) (<[p := if fin : bool then Idle else Wait b w i0]> (y_pc y)))
      (if fin then still v' m else {[p]} ∪ still v' m))
| v_intr m y v' : m_y m = y → virtio_disk_intr (fresh m) = Ok tt v' → vstep m (Machine (Sys v' (y_dev y) (y_pc y)) (still v' m))
| v_take y y' sl : dev_take y = Some y' → vstep (Machine y sl) (Machine y' sl)
| v_do y h y' sl : h ∈ dv_pending (y_dev y) → dev_do h y = Some y' → vstep (Machine y sl) (Machine y' sl)
| v_owner y sl b vb no data : (∀ c, c ∈ y_pc y → ¬ uses c b) → v_bufs (y_v y) !! b = Some vb →
    vstep (Machine y sl) (Machine (Sys (set_vbufs (<[b := VBuf (vb_disk vb) no data]> (v_bufs (y_v y))) (y_v y)) (y_dev y) (y_pc y)) sl)
| v_kill y sl p : vstep (Machine y sl) (Machine y (sl ∖ {[p]})).

(** The steps of the device and of the interrupt handler alone. *)
Inductive served : machine → machine → Prop :=
| s_intr m y v' : m_y m = y → virtio_disk_intr (fresh m) = Ok tt v' → served m (Machine (Sys v' (y_dev y) (y_pc y)) (still v' m))
| s_take y y' sl : dev_take y = Some y' → served (Machine y sl) (Machine y' sl)
| s_do y h y' sl : h ∈ dv_pending (y_dev y) → dev_do h y = Some y' → served (Machine y sl) (Machine y' sl).
Lemma served_vstep m m' : served m m' → vstep m m'.
Proof. destruct 1; [by eapply v_intr|by apply v_take|by eapply v_do]. Qed.

(** * What bio.c sees *)

(** The disk, the buffers, and for each process its call: not made, made, or
    carried out. *)
Inductive acall := AIdle | ACall (b : nat) (w : bool) | ADone (b : nat) (w : bool).
Definition auses (c : acall) (b : nat) : Prop :=
  match c with AIdle => False | ACall b' _ | ADone b' _ => b' = b end.
Record aspec := ASpec { a_disk : disk; a_bufs : list (Z * Bio.block); a_pc : list acall }.
Inductive astep : aspec → aspec → Prop :=
| a_call a p b w : a_pc a !! p = Some AIdle → astep a (ASpec (a_disk a) (a_bufs a) (<[p := ACall b w]> (a_pc a)))
| a_write a p b no data : a_pc a !! p = Some (ACall b true) → a_bufs a !! b = Some (no, data) →
    astep a (ASpec ((no, data) :: a_disk a) (a_bufs a) (<[p := ADone b true]> (a_pc a)))
| a_read a p b no data : a_pc a !! p = Some (ACall b false) → a_bufs a !! b = Some (no, data) →
    astep a (ASpec (a_disk a) (<[b := (no, dread (a_disk a) no)]> (a_bufs a)) (<[p := ADone b false]> (a_pc a)))
| a_return a p b w : a_pc a !! p = Some (ADone b w) → astep a (ASpec (a_disk a) (a_bufs a) (<[p := AIdle]> (a_pc a)))
| a_owner a b x : (∀ c, c ∈ a_pc a → ¬ auses c b) → astep a (ASpec (a_disk a) (<[b := x]> (a_bufs a)) (a_pc a)).

Definition abs_call (v : vdisk (H:=H)) (c : call) : acall :=
  match c with
  | Idle => AIdle
  | Want b w => ACall b w
  | Wait b w i0 =>
      match v_info v !! Z.to_nat i0 with
      | Some i => if in_status i =? 0 then ADone b w else ACall b w
      | None => ACall b w
      end
  end.
Definition abs (y : system) : aspec :=
  ASpec (dv_disk (y_dev y)) ((λ b, (vb_blockno b, vb_data b)) <$> v_bufs (y_v y)) (abs_call (y_v y) <$> y_pc y).
End machine.

(** * The invariant *)

(** A request in flight: the buffer, the direction, and the second and third
    descriptor of its chain. *)
Record req := Rq { r_b : nat; r_w : bool; r_1 : Z; r_2 : Z }.
Definition members (h : Z) (r : req) : list Z := [h; r_1 r; r_2 r].

Section inv.
Context {H : Type} {VR : VirtioRegs H} {VL : VirtioLaws H}.
Implicit Types s : vdisk (H:=H).

Record chain s (h : Z) (r : req) : Prop := {
  ch_three : three h (r_1 r) (r_2 r);
  ch_range : ∀ i, i ∈ members h r → 0 ≤ i < NUM ∧ v_free s !! Z.to_nat i = Some false;
  ch_0 : v_desc s !! Z.to_nat h = Some (Desc (VOp h) sizeof_virtio_blk_req VRING_DESC_F_NEXT (r_1 r));
  ch_1 : v_desc s !! Z.to_nat (r_1 r) =
    Some (Desc (VData (r_b r)) BSIZE (Z.lor (if r_w r then 0 else VRING_DESC_F_WRITE) VRING_DESC_F_NEXT) (r_2 r));
  ch_2 : v_desc s !! Z.to_nat (r_2 r) = Some (Desc (VStatus h) 1 VRING_DESC_F_WRITE 0);
  ch_buf : ∃ vb, v_bufs s !! r_b r = Some vb ∧ 0 ≤ vb_blockno vb < 2 ^ 31 ∧
    v_ops s !! Z.to_nat h = Some (Req (if r_w r then VIRTIO_BLK_T_OUT else VIRTIO_BLK_T_IN) 0 (2 * vb_blockno vb));
}.

(** [Q] are the chains in the avail ring from index [seen] on, [P] those the
    device has taken, [U] those in the used ring. *)
Record vinv s (R : gmap Z req) (seen : Z) (Q P : list Z) (U : list (Z * Z)) : Prop := {
  vi_free : length (v_free s) = Z.to_nat NUM;
  vi_desc : length (v_desc s) = Z.to_nat NUM;
  vi_ops : length (v_ops s) = Z.to_nat NUM;
  vi_info : length (v_info s) = Z.to_nat NUM;
  vi_chain : ∀ h r, R !! h = Some r → chain s h r;
  vi_apart : ∀ h r h' r' i, R !! h = Some r → R !! h' = Some r' → i ∈ members h r → i ∈ members h' r' → h = h';
  vi_used : ∀ i, 0 ≤ i → v_free s !! Z.to_nat i = Some false → ∃ h r, R !! h = Some r ∧ i ∈ members h r;
  vi_avail : ring NUM (v_avail_ring s) seen Q;
  vi_aidx : v_avail_idx s = u16 (seen + Z.of_nat (length Q)) ∧ fits 16 seen;
  vi_uring : ring NUM (v_used_ring s) (v_used_idx s) U;
  vi_uidx : v_dev_idx s = u16 (v_used_idx s + Z.of_nat (length U)) ∧ fits 16 (v_used_idx s);
  vi_nodup : NoDup (Q ++ P ++ U.*1);
  vi_heads : ∀ h, h ∈ Q ++ P ++ U.*1 → is_Some (R !! h);
  vi_status : ∀ h r, R !! h = Some r → ∃ st, v_info s !! Z.to_nat h = Some (Info (Some (r_b r)) st) ∧ (st ≠ 0 ↔ h ∈ Q ++ P);
  vi_disk : ∀ b vb, v_bufs s !! b = Some vb → vb_disk vb = true ↔ ∃ h r, R !! h = Some r ∧ r_b r = b ∧ h ∈ Q ++ P ++ U.*1;
  vi_bufs : ∀ h r h' r', R !! h = Some r → R !! h' = Some r' → r_b r = r_b r' → h = h';
}.

(** The processes and the requests. *)
Record pinv s (R : gmap Z req) (pc : list call) : Prop := {
  pi_wait : ∀ p b w h, pc !! p = Some (Wait b w h) → ∃ i1 i2, R !! h = Some (Rq b w i1 i2);
  pi_req : ∀ h r, R !! h = Some r → ∃ p, pc !! p = Some (Wait (r_b r) (r_w r) h);
  pi_want : ∀ p b w, pc !! p = Some (Want b w) → ∃ vb, v_bufs s !! b = Some vb ∧ 0 ≤ vb_blockno vb < 2 ^ 31;
  pi_excl : ∀ p q c d b, p ≠ q → pc !! p = Some c → pc !! q = Some d → uses c b → ¬ uses d b;
}.
Definition sinv (y : system (H:=H)) : Prop := v_lock (y_v y) = false ∧ ∃ R Q U,
  vinv (y_v y) R (dv_seen (y_dev y)) Q (dv_pending (y_dev y)) U ∧ pinv (y_v y) R (y_pc y).

(** There are fewer chains than descriptors. *)
Lemma nodup_NUM (l : list Z) : NoDup l → (∀ h, h ∈ l → 0 ≤ h < NUM) → (length l ≤ Z.to_nat NUM)%nat.
Proof.
  intros Hnd Hr. assert (NoDup (Z.to_nat <$> l)) as Hnd'.
  { apply NoDup_fmap_2_strong; [|done]. intros x y Hx%Hr Hy%Hr E. lia. }
  rewrite <- (length_fmap Z.to_nat l). rewrite <- (length_seq (Z.to_nat NUM) 0). apply submseteq_length, NoDup_submseteq; [done|].
  intros x Hx. apply list_elem_of_fmap in Hx as (h & -> & Hh%Hr). apply elem_of_seq. lia.
Qed.
Lemma head_range s R seen Q P U h : vinv s R seen Q P U → h ∈ Q ++ P ++ U.*1 → 0 ≤ h < NUM ∧ v_free s !! Z.to_nat h = Some false.
Proof.
  intros Hv Hh. destruct (vi_heads _ _ _ _ _ _ Hv h Hh) as [r Hr]. by apply (ch_range _ _ _ (vi_chain _ _ _ _ _ _ Hv _ _ Hr)); left.
Qed.
Lemma heads_length s R seen Q P U : vinv s R seen Q P U → (length (Q ++ P ++ U.*1) ≤ Z.to_nat NUM)%nat.
Proof. intros Hv. apply nodup_NUM; [apply Hv|]. intros h Hh. by eapply head_range. Qed.

Lemma u16_ring {A} (buf : list A) r q : ring NUM buf r q ↔ ring NUM buf (u16 r) q.
Proof. apply ring_wrap; [done|by exists (2 ^ 13)|done]. Qed.
Lemma u16_next r n : u16 (u16 (r + 1) + n) = u16 (r + (n + 1)).
Proof. unfold u16. rewrite Zplus_mod_idemp_l. f_equal. lia. Qed.

Lemma take_inv y y' : sinv y → dev_take y = Some y' → sinv y' ∧ abs y' = abs y.
Proof.
  intros (Hlk & R & Q & U & Hv & Hp) Ht. unfold dev_take in Ht. destruct (Z.eqb_spec (dv_seen (y_dev y)) (v_avail_idx (y_v y))) as [|Hne]; [done|].
  destruct (vi_aidx _ _ _ _ _ _ Hv) as [Ha Hf]. destruct Q as [|h Q].
  { simpl in Ha. rewrite Z.add_0_r, u16_id in Ha by done. done. }
  rewrite (ring_front _ _ _ _ _ (vi_avail _ _ _ _ _ _ Hv)) in Ht. injection Ht as <-. split; [|done]. split; [done|].
  exists R, Q, U. simpl. split; [|done]. destruct Hv. split; try done.
  - apply (u16_ring _ (dv_seen (y_dev y) + 1)). by eapply ring_pop.
  - split; [|apply u16_fits]. rewrite Ha, u16_next. f_equal. simpl. lia.
  - eapply NoDup_Permutation_proper; [|exact vi_nodup0]. solve_Permutation.
  - intros k Hk. apply vi_heads0. rewrite !elem_of_app, !elem_of_cons, ?elem_of_nil in *. tauto.
  - intros k r Hr. destruct (vi_status0 k r Hr) as (st & E & Hst). exists st. split; [done|]. rewrite Hst, !elem_of_app, elem_of_cons, list_elem_of_singleton. tauto.
  - intros b vb Hb. rewrite (vi_disk0 b vb Hb). split; intros (k & r & ? & ? & Hk); exists k, r; (split_and!; [done|done|]);
      rewrite !elem_of_app, !elem_of_cons, ?elem_of_nil in *; tauto.
Qed.

(** The device finds the transfer that the request is about. *)
Lemma chain_transfer s h r : chain s h r →
  ∃ vb, v_bufs s !! r_b r = Some vb ∧ chain_of s h = Some (Transfer (r_b r) (r_w r) (vb_blockno vb) h).
Proof.
  intros [_ _ H0 H1 H2 (vb & Hb & Hno & Hop)]. exists vb. split; [done|]. unfold chain_of. rewrite H0. cbn [d_next]. rewrite H1. cbn [d_next].
  rewrite H2. cbn [d_addr]. rewrite Hop. destruct (r_w r); cbn; do 2 f_equal; rewrite Z.mul_comm; by apply Z.div_mul.
Qed.

(** What of the state the invariant of the requests looks at. *)
Lemma vchain_frame s s' h r : chain s h r →
  (∀ i, i ∈ members h r → v_free s' !! Z.to_nat i = v_free s !! Z.to_nat i ∧ v_desc s' !! Z.to_nat i = v_desc s !! Z.to_nat i) →
  v_ops s' !! Z.to_nat h = v_ops s !! Z.to_nat h → vb_blockno <$> v_bufs s' !! r_b r = vb_blockno <$> v_bufs s !! r_b r → chain s' h r.
Proof.
  intros [H1 H2 H3 H4 H5 (vb & Hb & Hno & Hop)] E1 E2 E3. rewrite Hb in E3. destruct (v_bufs s' !! r_b r) as [vb'|] eqn:Hb'; [|done]. injection E3 as E3.
  pose proof (E1 h ltac:(by left)) as [_ D0]. pose proof (E1 (r_1 r) ltac:(by right; left)) as [_ D1]. pose proof (E1 (r_2 r) ltac:(by do 2 right; left)) as [_ D2].
  split; rewrite ?D0, ?D1, ?D2, ?E2; try done.
  - intros i Hi. rewrite (proj1 (E1 i Hi)). by apply H2.
  - exists vb'. by rewrite E3.
Qed.
Lemma chain_ext s s' h r : chain s h r → v_free s' = v_free s → v_desc s' = v_desc s → v_ops s' = v_ops s →
  vb_blockno <$> v_bufs s' !! r_b r = vb_blockno <$> v_bufs s !! r_b r → chain s' h r.
Proof. intros Hc E1 E2 E3 E4. apply (vchain_frame s); rewrite ?E1, ?E2, ?E3; done. Qed.
(** Between the request of a process and the others. *)
Lemma pinv_unique s R pc p q b w b' w' h : pinv s R pc → pc !! p = Some (Wait b w h) → pc !! q = Some (Wait b' w' h) → p = q.
Proof.
  intros Hp H1 H2. destruct (pi_wait _ _ _ Hp _ _ _ _ H1) as (? & ? & E1), (pi_wait _ _ _ Hp _ _ _ _ H2) as (? & ? & E2).
  simplify_eq. destruct (decide (p = q)) as [|Hne]; [done|]. by destruct (pi_excl _ _ _ Hp _ _ _ _ b Hne H1 H2).
Qed.
Lemma head_eq s R seen Q P U h r h' r' : vinv s R seen Q P U → R !! h = Some r → R !! h' = Some r' → Z.to_nat h = Z.to_nat h' → h = h'.
Proof.
  intros Hv Hr Hr' E. destruct (ch_range _ _ _ (vi_chain _ _ _ _ _ _ Hv _ _ Hr) h ltac:(by left)),
    (ch_range _ _ _ (vi_chain _ _ _ _ _ _ Hv _ _ Hr') h' ltac:(by left)). lia.
Qed.

(** ** The device carries out a chain *)
Section carry.
Context (y : system (H:=H)) (R : gmap Z req) (Q : list Z) (U : list (Z * Z)) (h : Z) (r : req) (vb : vbuf).
Let P := dv_pending (y_dev y).
Let P' := filter (λ k, k ≠ h) P.
Let U' := U ++ [(h, BSIZE)].
Hypothesis Hv : vinv (y_v y) R (dv_seen (y_dev y)) Q P U.
Hypothesis Hp : pinv (y_v y) R (y_pc y).
Hypothesis Hh : h ∈ P.
Hypothesis Hr : R !! h = Some r.
Hypothesis Hb : v_bufs (y_v y) !! r_b r = Some vb.
Let bufs' := if r_w r then v_bufs (y_v y)
  else <[r_b r := VBuf (vb_disk vb) (vb_blockno vb) (dread (dv_disk (y_dev y)) (vb_blockno vb))]> (v_bufs (y_v y)).
Let v' := set_used (u16 (v_dev_idx (y_v y) + 1)) (<[Z.to_nat (v_dev_idx (y_v y) `mod` NUM) := (h, BSIZE)]> (v_used_ring (y_v y)))
  (set_info (alter (λ i, Info (in_b i) 0) (Z.to_nat h) (v_info (y_v y))) (set_vbufs bufs' (y_v y))).
Lemma carry_same b : ((λ v, (vb_disk v, vb_blockno v)) <$> (bufs' !! b)) = ((λ v, (vb_disk v, vb_blockno v)) <$> (v_bufs (y_v y) !! b)).
Proof using Hv Hp Hh Hr Hb.
  unfold bufs'. destruct (r_w r); [done|]. destruct (decide (r_b r = b)) as [<-|Hne]; [|by rewrite list_lookup_insert_ne].
  rewrite list_lookup_insert_eq by (by eapply lookup_lt_Some). by rewrite Hb.
Qed.
Lemma carry_apart : h ∉ Q ∧ h ∉ U.*1.
Proof using Hv Hp Hh Hr Hb.
  pose proof (vi_nodup _ _ _ _ _ _ Hv) as Hnd. apply NoDup_app in Hnd as (_ & H1 & Hnd). apply NoDup_app in Hnd as (_ & H2 & _).
  split; [intros Hq; apply (H1 h Hq), elem_of_app; by left|by apply H2].
Qed.
Lemma carry_live k : k ∈ Q ++ P' ↔ k ∈ Q ++ P ∧ k ≠ h.
Proof using Hv Hp Hh Hr Hb.
  destruct carry_apart as [HnQ _]. clear -HnQ. unfold P'. rewrite !elem_of_app, list_elem_of_filter. split; [|tauto].
  intros [?|[? ?]]; [|tauto]. split; [tauto|]. by intros ->.
Qed.
Lemma carry_heads k : k ∈ Q ++ P' ++ U'.*1 ↔ k ∈ Q ++ P ++ U.*1.
Proof using Hv Hp Hh Hr Hb.
  clear -Hh. unfold P', U'. rewrite fmap_app, !elem_of_app, list_elem_of_filter. simpl. rewrite list_elem_of_singleton.
  destruct (decide (k = h)) as [->|]; tauto.
Qed.
Lemma carry_nodup : NoDup (Q ++ P' ++ U'.*1).
Proof using Hv Hp Hh Hr Hb.
  destruct carry_apart as [HnQ HnU]. pose proof (vi_nodup _ _ _ _ _ _ Hv) as Hnd. clear -Hh HnQ HnU Hnd.
  apply NoDup_app in Hnd as (N1 & N2 & N3). apply NoDup_app in N3 as (N3 & N4 & N5). unfold U'. rewrite fmap_app. simpl.
  apply NoDup_app. split_and!; [done| |apply NoDup_app; split_and!].
  - intros k Hk Hin. apply (N2 k Hk). unfold P' in Hin. rewrite !elem_of_app, list_elem_of_filter, list_elem_of_singleton in Hin.
    rewrite elem_of_app. destruct Hin as [[_ ?]|[?| ->]]; tauto.
  - by apply NoDup_filter.
  - intros k Hk Hin. apply list_elem_of_filter in Hk as [Hk1 Hk2]. rewrite elem_of_app, list_elem_of_singleton in Hin.
    destruct Hin as [?| ->]; [by apply (N4 k)|done].
  - apply NoDup_app. split_and!; [done| |apply NoDup_singleton]. by intros k Hk ->%list_elem_of_singleton.
Qed.
Lemma carry_room : Z.of_nat (length U) < NUM.
Proof using Hv Hp Hh Hr Hb.
  pose proof (heads_length _ _ _ _ _ _ Hv) as Hlen. rewrite !length_app, length_fmap in Hlen.
  assert (0 < length P)%nat by (destruct P; [by apply elem_of_nil in Hh|simpl; lia]). unfold NUM in *. lia.
Qed.
Lemma carry_vinv : vinv v' R (dv_seen (y_dev y)) Q P' U'.
Proof using Hv Hp Hh Hr Hb.
  pose proof Hv as []. split; try done; simpl.
  - by rewrite length_alter.
  - intros k r' Hr'. eapply chain_ext; [by apply vi_chain0|done..|]. simpl. pose proof (carry_same (r_b r')) as E.
    destruct (bufs' !! r_b r'), (v_bufs (y_v y) !! r_b r'); [injection E as _ E; simpl; by rewrite E|done..].
  - rewrite (proj1 vi_uidx0). unfold u16. rewrite (Z.mod_mod_divide _ (2 ^ 16) NUM) by by exists (2 ^ 13).
    apply ring_push; [done|done|apply carry_room].
  - split; [|apply vi_uidx0]. rewrite (proj1 vi_uidx0). unfold U', u16. rewrite length_app, Zplus_mod_idemp_l. f_equal. simpl. lia.
  - apply carry_nodup.
  - intros k Hk. by apply vi_heads0, carry_heads.
  - intros k r' Hr'. destruct (vi_status0 k r' Hr') as (st' & E' & Hst'). pose proof (carry_live k) as Hl. destruct (decide (k = h)) as [->|Hne].
    + exists 0. rewrite list_lookup_alter_eq, E'. split; [done|]. tauto.
    + exists st'. rewrite list_lookup_alter_ne by (intros E; apply Hne; symmetry; by eapply head_eq). split; [done|]. tauto.
  - intros b vb' Hvb. pose proof (carry_same b) as E. rewrite Hvb in E. destruct (v_bufs (y_v y) !! b) as [v0|] eqn:E0; [|done].
    injection E as Hd _. rewrite Hd, (vi_disk0 b v0 E0). setoid_rewrite carry_heads. done.
Qed.
Lemma carry_pinv : pinv v' R (y_pc y).
Proof using Hv Hp Hh Hr Hb.
  pose proof Hp as []. split; try done. simpl. intros q b w Hq. destruct (pi_want0 q b w Hq) as (v0 & E0 & Hno).
  pose proof (carry_same b) as E. rewrite E0 in E. destruct (bufs' !! b) as [v1|]; [|done]. injection E as _ E. exists v1. by rewrite E.
Qed.
Lemma carry_calls p : y_pc y !! p = Some (Wait (r_b r) (r_w r) h) →
  abs_call v' <$> y_pc y = <[p := ADone (r_b r) (r_w r)]> (abs_call (y_v y) <$> y_pc y).
Proof using Hv Hp Hh Hr Hb.
  intros Hpc. destruct (vi_status _ _ _ _ _ _ Hv h r Hr) as (st & Hst & _). apply list_eq. intros q. rewrite list_lookup_fmap. destruct (decide (p = q)) as [<-|Hne].
  - rewrite list_lookup_insert_eq by (rewrite length_fmap; by eapply lookup_lt_Some). rewrite Hpc. simpl. by rewrite list_lookup_alter_eq, Hst.
  - rewrite list_lookup_insert_ne, list_lookup_fmap by done. destruct (y_pc y !! q) as [[| |b w k]|] eqn:Eq; try done. simpl. do 2 f_equal.
    destruct (pi_wait _ _ _ Hp _ _ _ _ Eq) as (i1 & i2 & Ek). rewrite list_lookup_alter_ne; [done|]. intros E.
    apply Hne. assert (h = k) as <- by (by eapply head_eq). by eapply pinv_unique.
Qed.
Lemma carry_astep : astep (abs y) (abs (Sys v' (Device (dv_seen (y_dev y)) P'
  (if r_w r then (vb_blockno vb, vb_data vb) :: dv_disk (y_dev y) else dv_disk (y_dev y))) (y_pc y))).
Proof using Hv Hp Hh Hr Hb.
  destruct (pi_req _ _ _ Hp h r Hr) as [p Hpc]. destruct (vi_status _ _ _ _ _ _ Hv h r Hr) as (st & Hst & Hstq).
  assert (a_bufs (abs y) !! r_b r = Some (vb_blockno vb, vb_data vb)) as Eb by (simpl; by rewrite list_lookup_fmap, Hb).
  assert (a_pc (abs y) !! p = Some (ACall (r_b r) (r_w r))) as Ep.
  { simpl. rewrite list_lookup_fmap, Hpc. simpl. rewrite Hst. simpl. rewrite (proj2 (Z.eqb_neq _ _)); [done|]. apply Hstq, elem_of_app. by right. }
  unfold abs at 2. simpl. rewrite (carry_calls p Hpc). unfold bufs'. destruct (r_w r).
  - by apply (a_write (abs y) p (r_b r)).
  - rewrite list_fmap_insert. by apply (a_read (abs y) p (r_b r) _ (vb_data vb)).
Qed.
End carry.
Lemma do_inv y h : sinv y → h ∈ dv_pending (y_dev y) → ∃ y', dev_do h y = Some y' ∧ sinv y' ∧ astep (abs y) (abs y').
Proof.
  intros (Hlk & R & Q & U & Hv & Hp) Hh. destruct (vi_heads _ _ _ _ _ _ Hv h) as [r Hr]; [rewrite !elem_of_app; auto|].
  destruct (chain_transfer _ _ _ (vi_chain _ _ _ _ _ _ Hv _ _ Hr)) as (vb & Hb & Ex).
  unfold dev_do. rewrite Ex. cbn [x_b x_write x_no x_status]. rewrite Hb. eexists. split; [done|]. split; [|by apply (carry_astep y R Q U)].
  split; [done|]. exists R, Q, (U ++ [(h, BSIZE)]). simpl. split; [by apply carry_vinv|by apply (carry_pinv y R Q U)].
Qed.

(** Nothing that bio.c sees has changed. *)
Definition seen_same s s' : Prop := v_info s' = v_info s ∧
  ((λ b, (vb_blockno b, vb_data b)) <$> v_bufs s') = ((λ b, (vb_blockno b, vb_data b)) <$> v_bufs s).
Lemma vlock_same s x : seen_same s (set_vlock x s).
Proof. done. Qed.
Lemma seen_same_trans s1 s2 s3 : seen_same s1 s2 → seen_same s2 s3 → seen_same s1 s3.
Proof. intros [E1 E2] [E3 E4]. split; congruence. Qed.
Lemma seen_same_no s s' b vb : seen_same s s' → v_bufs s !! b = Some vb → ∃ vb', v_bufs s' !! b = Some vb' ∧ vb_blockno vb' = vb_blockno vb.
Proof.
  intros [_ E] Hb. apply (f_equal (lookup b)) in E. rewrite !list_lookup_fmap, Hb in E. destruct (v_bufs s' !! b) as [vb'|]; [|done].
  injection E as E _. by exists vb'.
Qed.
Lemma seen_same_pinv s s' R pc : seen_same s s' → pinv s R pc → pinv s' R pc.
Proof.
  intros Hs []. split; try done. intros p b w Hpc. destruct (pi_want0 p b w Hpc) as (vb & Hb & Hno).
  destruct (seen_same_no _ _ _ _ Hs Hb) as (vb' & Hb' & E). exists vb'. by rewrite E.
Qed.
Lemma seen_same_abs y s' : seen_same (y_v y) s' → abs (Sys s' (y_dev y) (y_pc y)) = abs y.
Proof. intros [E1 E2]. unfold abs. simpl. rewrite E2. f_equal. apply list_fmap_ext. intros _ [] _; simpl; try done. by rewrite E1. Qed.
Lemma put_disk_same s b x : seen_same s (set_vbufs (alter (λ v, VBuf x (vb_blockno v) (vb_data v)) b (v_bufs s)) s).
Proof.
  split; [done|]. simpl. apply list_eq. intros i. rewrite !list_lookup_fmap. destruct (decide (b = i)) as [<-|Hne].
  - rewrite list_lookup_alter_eq. by destruct (v_bufs s !! b).
  - by rewrite list_lookup_alter_ne.
Qed.

(** The handler reports the first chain of the used ring. *)
Lemma report_inv s R seen Q P h len U r : vinv s R seen Q P ((h, len) :: U) → R !! h = Some r →
  vinv (set_used_idx (u16 (v_used_idx s + 1)) (set_vbufs (alter (λ v, VBuf false (vb_blockno v) (vb_data v)) (r_b r) (v_bufs s)) s)) R seen Q P U.
Proof.
  intros Hv Hr. pose proof Hv as []. pose proof (put_disk_same s (r_b r) false) as Hs.
  assert (h ∉ Q ++ P ++ U.*1) as Hh.
  { apply NoDup_app in vi_nodup0 as (_ & N1 & N2). apply NoDup_app in N2 as (_ & N2 & N3). simpl in *. apply NoDup_cons in N3 as [N3 _].
    rewrite !elem_of_app. intros [Hx|[Hx|?]]; [|by apply (N2 h Hx); left|done]. apply (N1 h Hx). rewrite elem_of_app. right. by left. }
  assert (∀ k, k ∈ Q ++ P ++ ((h, len) :: U).*1 ↔ k = h ∨ k ∈ Q ++ P ++ U.*1) as Hk.
  { intros k. simpl. rewrite !elem_of_app, elem_of_cons. tauto. }
  split; try done; simpl.
  - intros k r' Hr'. eapply chain_ext; [by apply vi_chain0|done..|]. simpl. destruct (decide (r_b r = r_b r')) as [<-|Hne].
    + rewrite list_lookup_alter_eq. by destruct (v_bufs s !! _).
    + by rewrite list_lookup_alter_ne.
  - apply (u16_ring _ (v_used_idx s + 1)). by eapply ring_pop.
  - split; [|apply u16_fits]. rewrite (proj1 vi_uidx0), u16_next. f_equal. simpl. lia.
  - eapply (NoDup_cons_1_2 h). eapply NoDup_Permutation_proper; [|exact vi_nodup0]. simpl. solve_Permutation.
  - intros k Hin. apply vi_heads0, Hk. by right.
  - intros b vb Hb. destruct (decide (r_b r = b)) as [<-|Hne].
    + rewrite list_lookup_alter_eq in Hb. destruct (v_bufs s !! r_b r); [|done]. injection Hb as <-. simpl. split; [done|].
      intros (k & r' & Hr' & Eb & Hin). destruct Hh. by rewrite (vi_bufs0 h r k r').
    + rewrite list_lookup_alter_ne in Hb by done. rewrite (vi_disk0 b vb Hb). split; intros (k & r' & Hr' & Eb & Hin); exists k, r'; (split_and!; [done|done|]).
      * apply Hk in Hin as [->|?]; [|done]. simplify_eq.
      * apply Hk. by right.
Qed.
Lemma u16_dist a n : 0 ≤ n < 2 ^ 16 → (u16 (a + n) - a) `mod` 2 ^ 16 = n.
Proof. intros. unfold u16. rewrite Zminus_mod_idemp_l, (Z.add_comm a), Z.add_simpl_r. by apply Z.mod_small. Qed.
(** How far the handler is behind the device. *)
Definition behind s : nat := Z.to_nat ((v_dev_idx s - v_used_idx s) `mod` 2 ^ 16).
Lemma behind_used s R seen Q P U : vinv s R seen Q P U → behind s = length U ∧ (length U ≤ 8)%nat.
Proof.
  intros Hv. pose proof (heads_length _ _ _ _ _ _ Hv) as HU. rewrite !length_app, length_fmap in HU. unfold behind.
  rewrite (proj1 (vi_uidx _ _ _ _ _ _ Hv)), u16_dist; unfold NUM in *; lia.
Qed.
Lemma vinv_frame s s' R seen Q P U : vinv s R seen Q P U → s' = set_woken (v_woken s') (set_vlock (v_lock s') (set_vhw (v_hw s') s)) → vinv s' R seen Q P U.
Proof. intros Hv ->. destruct Hv. split; try done. intros k r Hr. eapply chain_ext; [by apply vi_chain0|done..]. Qed.
(** Whether the device and the handler are done with a buffer. *)
Definition finished s (b : nat) : bool := negb (from_option vb_disk false (v_bufs s !! b)).
(** Whoever sleeps on a buffer that has become ready is awake. *)
Definition woke s s' : Prop := v_woken s ⊆ v_woken s' ∧ ∀ b, finished s' b = true → finished s b = true ∨ CBuf b ∈ v_woken s'.
Lemma woke_trans s1 s2 s3 : woke s1 s2 → woke s2 s3 → woke s1 s3.
Proof. intros [S1 F1] [S2 F2]. split; [by etrans|]. intros b [Hb|Hb]%F2; [|auto]. destruct (F1 b Hb); auto. Qed.
Lemma woke_report s b : woke s (set_woken (CBuf b :: v_woken s) (set_vbufs (alter (λ v, VBuf false (vb_blockno v) (vb_data v)) b (v_bufs s)) s)).
Proof.
  split; [intros c Hc; by right|]. intros c. unfold finished. simpl. destruct (decide (b = c)) as [<-|Hne]; [by right; left|].
  rewrite list_lookup_alter_ne by done. auto.
Qed.
Lemma intr_round_spec s R seen Q P U : vinv s R seen Q P U →
  wp (intr_round tt) (λ r s', seen_same s s' ∧ woke s s' ∧ v_lock s' = v_lock s ∧
    match r with inl _ => ∃ U', vinv s' R seen Q P U' ∧ (length U' < length U)%nat | inr _ => U = [] ∧ s' = s end) s.
Proof.
  intros Hv. destruct (vi_uidx _ _ _ _ _ _ Hv) as [Ed Ef]. pose proof (behind_used _ _ _ _ _ _ Hv) as [Hb HU].
  unfold intr_round. apply wp_bind, wp_gets, wp_bind, wp_gets. destruct U as [|[h len] U].
  { simpl in Ed. rewrite Z.add_0_r, u16_id in Ed by done. rewrite Ed, Z.eqb_refl. apply wp_ret. split_and!; try done. split; auto. }
  simpl length in *. rewrite (proj2 (Z.eqb_neq _ _)).
  2:{ intros E. unfold behind in Hb. rewrite <- E, Z.sub_diag in Hb. by vm_compute in Hb. }
  destruct (vi_heads _ _ _ _ _ _ Hv h) as [r Hr]; [simpl; rewrite !elem_of_app, elem_of_cons; auto|].
  destruct (vi_status _ _ _ _ _ _ Hv h r Hr) as (st' & Hst & Hz). assert (st' = 0) as ->.
  { destruct (decide (st' = 0)) as [|Hn]; [done|]. apply Hz in Hn. pose proof (vi_nodup _ _ _ _ _ _ Hv) as Hnd.
    rewrite app_assoc in Hnd. apply NoDup_app in Hnd as (_ & Hd & _). destruct (Hd h Hn). simpl. by left. }
  destruct (ch_range _ _ _ (vi_chain _ _ _ _ _ _ Hv _ _ Hr) h ltac:(by left)) as [Hrange _].
  apply wp_bind. eapply wp_elem; [by apply Z.mod_pos_bound|by eapply ring_front, Hv|]. cbn [fst]. rewrite s32_id by (unfold NUM in *; lia).
  apply wp_bind. eapply wp_elem; [lia|exact Hst|]. cbn [in_status in_b negb]. do 3 apply wp_bind, wp_modify. apply wp_ret.
  split_and!; [apply put_disk_same|split; apply (woke_report s (r_b r))|done|]. exists U. split; [|lia]. by eapply vinv_frame; [eapply report_inv|].
Qed.
Lemma intr_spec s R seen Q P U : vinv s R seen Q P U → v_lock s = false →
  wp virtio_disk_intr (λ _ s', vinv s' R seen Q P [] ∧ seen_same s s' ∧ woke s s' ∧ v_lock s' = false) s.
Proof using VL.
  intros Hv Hlk. unfold virtio_disk_intr. apply wp_bind, wp_lock_acquire; [done|]. apply wp_bind, wp_vreg; [apply vr_read_ok|]. intros st h1.
  apply wp_bind, wp_vreg; [apply vr_write_ok|]. intros [] h2. apply wp_bind.
  apply (wp_loop intr_round (λ _ s', ∃ U', vinv s' R seen Q P U' ∧ seen_same s s' ∧ woke s s' ∧ v_lock s' = true) (λ _ s', behind s')).
  - intros [] s' (U' & Hv' & Hs & Hw & Hl). pose proof (behind_used _ _ _ _ _ _ Hv') as [Hb _]. eapply wp_mono; [by eapply intr_round_spec|].
    intros [?|[]] s'' (Hs' & Hw' & Hl' & HR).
    + destruct HR as (U'' & Hv'' & Hlt). pose proof (behind_used _ _ _ _ _ _ Hv'') as [Hb' _].
      split; [|lia]. exists U''. split_and!; [done|by eapply seen_same_trans|by eapply woke_trans|by rewrite Hl'].
    + destruct HR as [-> ->]. apply wp_lock_release; [done|]. split_and!; [|done|done|done]. by eapply vinv_frame.
  - exists U. split_and!; [|done|split; auto|done]. by eapply vinv_frame.
  - assert (vinv (set_vhw h2 (set_vhw h1 (set_vlock true s))) R seen Q P U) as Hv' by by eapply vinv_frame.
    pose proof (behind_used _ _ _ _ _ _ Hv') as [-> ?]. unfold NUM. lia.
Qed.

(** ** Submitting *)

(** [s'] is [s] with a request for the buffer [b] in the descriptors [i0], [i1]
    and [i2]. *)
Definition req_desc (b : nat) (w : bool) (i0 i1 i2 : Z) (i : nat) (d : option virtq_desc) : option virtq_desc :=
  if decide (i = Z.to_nat i0) then Some (Desc (VOp i0) sizeof_virtio_blk_req VRING_DESC_F_NEXT i1)
  else if decide (i = Z.to_nat i1) then Some (Desc (VData b) BSIZE (Z.lor (if w then 0 else VRING_DESC_F_WRITE) VRING_DESC_F_NEXT) i2)
  else if decide (i = Z.to_nat i2) then Some (Desc (VStatus i0) 1 VRING_DESC_F_WRITE 0)
  else d.
Record posted s (b : nat) (w : bool) (no i0 i1 i2 : Z) s' : Prop := {
  po_free : v_free s' = <[Z.to_nat i2 := false]> (<[Z.to_nat i1 := false]> (<[Z.to_nat i0 := false]> (v_free s)));
  po_desc : ∀ i, v_desc s' !! i = req_desc b w i0 i1 i2 i (v_desc s !! i);
  po_dlen : length (v_desc s') = length (v_desc s);
  po_ops : v_ops s' = <[Z.to_nat i0 := Req (if w then VIRTIO_BLK_T_OUT else VIRTIO_BLK_T_IN) 0 (2 * no)]> (v_ops s);
  po_info : v_info s' = <[Z.to_nat i0 := Info (Some b) 0xff]> (v_info s);
  po_bufs : v_bufs s' = alter (λ v, VBuf true (vb_blockno v) (vb_data v)) b (v_bufs s);
  po_ring : v_avail_ring s' = <[Z.to_nat (v_avail_idx s `mod` NUM) := i0]> (v_avail_ring s);
  po_idx : v_avail_idx s' = u16 (v_avail_idx s + 1);
  po_used : v_dev_idx s' = v_dev_idx s ∧ v_used_ring s' = v_used_ring s ∧ v_used_idx s' = v_used_idx s;
  po_lock : v_lock s' = v_lock s;
}.
Lemma rw_format_spec s b w no i0 i1 i2 : length (v_desc s) = Z.to_nat NUM → length (v_info s) = Z.to_nat NUM →
  0 ≤ i0 < NUM → 0 ≤ i1 < NUM → 0 ≤ i2 < NUM → three i0 i1 i2 →
  wp (rw_format b w (2 * no) (i0, i1, i2)) (λ _ s', posted s b w no i0 i1 i2 s') (use i2 (use i1 (use i0 s))).
Proof using VL.
  intros Hd Hi R0 R1 R2 (N1 & N2 & N3). unfold rw_format. do 9 (apply wp_bind, wp_modify). apply wp_vreg; [apply vr_write_ok|]. intros _ h.
  destruct (lookup_lt_is_Some_2 (v_info s) (Z.to_nat i0)) as [x Hx]; [lia|].
  split; try done; simpl.
  - intros i. unfold req_desc. repeat case_decide; subst.
    + rewrite !list_lookup_alter_ne by lia. rewrite list_lookup_alter_eq. by destruct (lookup_lt_is_Some_2 (v_desc s) (Z.to_nat i0)) as [? ->]; [lia|].
    + rewrite list_lookup_alter_ne, list_lookup_alter_eq, list_lookup_alter_ne by lia. by destruct (lookup_lt_is_Some_2 (v_desc s) (Z.to_nat i1)) as [? ->]; [lia|].
    + rewrite list_lookup_alter_eq, !list_lookup_alter_ne by lia. by destruct (lookup_lt_is_Some_2 (v_desc s) (Z.to_nat i2)) as [? ->]; [lia|].
    + by rewrite !list_lookup_alter_ne by lia.
  - by rewrite !length_alter.
  - rewrite (alter_lookup _ _ _ _ Hx). erewrite alter_lookup by (apply list_lookup_insert_eq; lia). by rewrite list_insert_insert_eq.
Qed.

(** The new chain is apart from the others. *)
Lemma free_not_member s R seen Q P U h r i : vinv s R seen Q P U → R !! h = Some r → i ∈ members h r → ∀ j, is_free s j → Z.to_nat i ≠ Z.to_nat j.
Proof. intros Hv Hr Hi j [_ Hj] E. destruct (ch_range _ _ _ (vi_chain _ _ _ _ _ _ Hv _ _ Hr) i Hi) as [_ Hf]. rewrite E in Hf. congruence. Qed.

Section post.
Context (s : vdisk (H:=H)) (R : gmap Z req) (seen : Z) (Q P : list Z) (U : list (Z * Z)).
Context (b : nat) (w : bool) (vb : vbuf) (i0 i1 i2 : Z) (s' : vdisk (H:=H)).
Hypothesis Hv : vinv s R seen Q P U.
Hypothesis Hb : v_bufs s !! b = Some vb.
Hypothesis Hno : 0 ≤ vb_blockno vb < 2 ^ 31.
Hypothesis HR : ∀ h r, R !! h = Some r → r_b r ≠ b.
Hypothesis F0 : is_free s i0.
Hypothesis F1 : is_free s i1.
Hypothesis F2 : is_free s i2.
Hypothesis H3 : three i0 i1 i2.
Hypothesis Hpo : posted s b w (vb_blockno vb) i0 i1 i2 s'.
Let r0 := Rq b w i1 i2.
Lemma post_range i : is_free s i → 0 ≤ i < NUM.
Proof using Hv. apply is_free_lt, Hv. Qed.
Lemma post_blockno c : vb_blockno <$> v_bufs s' !! c = vb_blockno <$> v_bufs s !! c.
Proof using Hpo Hb.
  rewrite (po_bufs _ _ _ _ _ _ _ _ Hpo). destruct (decide (b = c)) as [<-|]; [|by rewrite list_lookup_alter_ne].
  rewrite list_lookup_alter_eq. by destruct (v_bufs s !! b).
Qed.
Lemma post_chain h r : <[i0 := r0]> R !! h = Some r → chain s' h r.
Proof using Hv Hb Hno F0 F1 F2 H3 Hpo.
  pose proof (post_range _ F0) as R0. pose proof (post_range _ F1) as R1. pose proof (post_range _ F2) as R2. destruct H3 as (N1 & N2 & N3).
  pose proof (vi_free _ _ _ _ _ _ Hv) as Lf. pose proof (vi_ops _ _ _ _ _ _ Hv) as Lo.
  intros [[<- <-]|[Hne Hr]]%lookup_insert_Some.
  - split; [done|..]; rewrite ?(po_desc _ _ _ _ _ _ _ _ Hpo); unfold req_desc; cbn [r_1 r_2 r_b r_w r0].
    + intros i Hi. rewrite (po_free _ _ _ _ _ _ _ _ Hpo). unfold members in Hi. cbn [r_1 r_2 r0] in Hi. rewrite !elem_of_cons, elem_of_nil in Hi.
      split; [destruct Hi as [->|[->|[->|[]]]]; lia|]. destruct Hi as [->|[->|[->|[]]]].
      * do 2 rewrite list_lookup_insert_ne by lia. apply list_lookup_insert_eq. lia.
      * rewrite list_lookup_insert_ne by lia. apply list_lookup_insert_eq. rewrite length_insert. lia.
      * apply list_lookup_insert_eq. rewrite !length_insert. lia.
    + by rewrite decide_True.
    + rewrite decide_False, decide_True by lia. done.
    + rewrite !decide_False, decide_True by lia. done.
    + pose proof (post_blockno b) as E. rewrite Hb in E. destruct (v_bufs s' !! b) as [vb'|]; [|done]. injection E as E. exists vb'. rewrite E.
      split_and!; [done|lia|lia|]. rewrite (po_ops _ _ _ _ _ _ _ _ Hpo). apply list_lookup_insert_eq. lia.
  - pose proof (vi_chain _ _ _ _ _ _ Hv _ _ Hr) as Hc. apply (vchain_frame s); [done| | |apply post_blockno].
    + intros i Hi. pose proof (free_not_member _ _ _ _ _ _ _ _ _ Hv Hr Hi) as Hf.
      rewrite (po_free _ _ _ _ _ _ _ _ Hpo), (po_desc _ _ _ _ _ _ _ _ Hpo). unfold req_desc.
      rewrite !list_lookup_insert_ne by (apply not_eq_sym; by apply Hf). by rewrite !decide_False by by apply Hf.
    + rewrite (po_ops _ _ _ _ _ _ _ _ Hpo). apply list_lookup_insert_ne. apply not_eq_sym.
      by eapply free_not_member; [|exact Hr|left|].
Qed.
Lemma post_fresh : i0 ∉ Q ++ P ++ U.*1 ∧ R !! i0 = None.
Proof using Hv F0.
  assert (R !! i0 = None) as HN.
  { destruct (R !! i0) as [r|] eqn:Hr; [|done]. by destruct (free_not_member _ _ _ _ _ _ i0 r i0 Hv Hr ltac:(by left) i0 F0). }
  split; [|done]. intros [r Hr]%(vi_heads _ _ _ _ _ _ Hv). congruence.
Qed.
Lemma post_apart h r i : R !! h = Some r → i ∈ members h r → i ∉ members i0 r0.
Proof using Hv F0 F1 F2.
  intros Hr Hi Hin. pose proof (free_not_member _ _ _ _ _ _ _ _ _ Hv Hr Hi) as Hf.
  unfold members in Hin. cbn [r_1 r_2 r0] in Hin. rewrite !elem_of_cons, elem_of_nil in Hin. destruct Hin as [->|[->|[->|[]]]]; [apply (Hf i0)|apply (Hf i1)|apply (Hf i2)]; done.
Qed.
Lemma post_room : Z.of_nat (length Q) < NUM.
Proof using Hv F0.
  destruct post_fresh as [Hn _]. assert (length (i0 :: Q ++ P ++ U.*1) ≤ Z.to_nat NUM)%nat as Hl.
  { apply nodup_NUM; [apply NoDup_cons; split; [done|apply Hv]|]. intros h [->|Hh]%elem_of_cons; [by apply post_range|by eapply head_range]. }
  simpl in Hl. rewrite length_app in Hl. unfold NUM in *. lia.
Qed.
Lemma post_heads k : k ∈ (Q ++ [i0]) ++ P ++ U.*1 ↔ k = i0 ∨ k ∈ Q ++ P ++ U.*1.
Proof using. clear -i0. rewrite !elem_of_app, list_elem_of_singleton. tauto. Qed.
Lemma post_vinv : vinv s' (<[i0 := r0]> R) seen (Q ++ [i0]) P U.
Proof using Hv Hb Hno HR F0 F1 F2 H3 Hpo.
  pose proof (post_range _ F0) as R0. destruct post_fresh as [Hfresh HRi]. destruct (vi_aidx _ _ _ _ _ _ Hv) as [Ea Hf].
  pose proof (vi_info _ _ _ _ _ _ Hv) as Hli. destruct (po_used _ _ _ _ _ _ _ _ Hpo) as (E1 & E2 & E3).
  split; rewrite ?(po_free _ _ _ _ _ _ _ _ Hpo), ?(po_dlen _ _ _ _ _ _ _ _ Hpo), ?(po_ops _ _ _ _ _ _ _ _ Hpo), ?(po_info _ _ _ _ _ _ _ _ Hpo),
    ?(po_ring _ _ _ _ _ _ _ _ Hpo), ?(po_idx _ _ _ _ _ _ _ _ Hpo), ?E1, ?E2, ?E3, ?length_insert; try by apply Hv.
  - apply post_chain.
  - intros h r h' r' i [[<- <-]|[_ Hr]]%lookup_insert_Some [[<- <-]|[_ Hr']]%lookup_insert_Some Hi Hi'; [done| | |by eapply Hv].
    + by destruct (post_apart h' r' i).
    + by destruct (post_apart h r i).
  - intros i Hi. destruct (decide (i ∈ members i0 r0)) as [Hin|Hin].
    { intros _. exists i0, r0. by rewrite lookup_insert_eq. }
    unfold members in Hin. cbn [r_1 r_2 r0] in Hin. rewrite !elem_of_cons, elem_of_nil in Hin. destruct F0, F1, F2.
    rewrite !list_lookup_insert_ne by (intros E; apply Hin; lia). intros Hx. destruct (vi_used _ _ _ _ _ _ Hv i Hi Hx) as (h & r & Hr & Hm).
    exists h, r. rewrite lookup_insert_ne; [done|congruence].
  - rewrite Ea. unfold u16. rewrite (Z.mod_mod_divide _ (2 ^ 16) NUM) by by exists (2 ^ 13). apply ring_push; [done|apply Hv|apply post_room].
  - split; [|done]. rewrite Ea. unfold u16. rewrite Zplus_mod_idemp_l, length_app. f_equal. simpl. lia.
  - eapply (NoDup_Permutation_proper _ (i0 :: Q ++ P ++ U.*1)); [solve_Permutation|]. apply NoDup_cons. split; [done|apply Hv].
  - intros h [->|Hh]%post_heads; [by rewrite lookup_insert_eq|]. destruct (vi_heads _ _ _ _ _ _ Hv h Hh) as [r Hr].
    exists r. rewrite lookup_insert_ne; [done|congruence].
  - intros h r [[<- <-]|[Hne Hr]]%lookup_insert_Some.
    + exists 0xff. rewrite list_lookup_insert_eq by lia. split; [done|]. rewrite !elem_of_app, list_elem_of_singleton. naive_solver lia.
    + destruct (vi_status _ _ _ _ _ _ Hv h r Hr) as (st & E & Hst). exists st. rewrite list_lookup_insert_ne by
        (apply not_eq_sym; by eapply free_not_member; [|exact Hr|left|]).
      split; [done|]. rewrite Hst, !elem_of_app, list_elem_of_singleton. naive_solver.
  - intros c vc. rewrite (po_bufs _ _ _ _ _ _ _ _ Hpo). destruct (decide (b = c)) as [<-|Hne].
    + rewrite list_lookup_alter_eq, Hb. intros [= <-]. simpl. split; [|done]. intros _. exists i0, r0. rewrite lookup_insert_eq.
      split_and!; [done|done|]. apply post_heads. by left.
    + rewrite list_lookup_alter_ne by done. intros Hc. rewrite (vi_disk _ _ _ _ _ _ Hv c vc Hc). split; intros (h & r & Hr & Eb & Hh).
      * exists h, r. rewrite lookup_insert_ne by congruence. split_and!; [done|done|]. apply post_heads. by right.
      * apply lookup_insert_Some in Hr as [[<- <-]|[? Hr]]; [done|]. exists h, r. split_and!; [done|done|]. by apply post_heads in Hh as [->|?].
  - intros h r h' r' [[<- <-]|[_ Hr]]%lookup_insert_Some [[<- <-]|[_ Hr']]%lookup_insert_Some E; [done| | |by eapply (vi_bufs _ _ _ _ _ _ Hv)].
    + by destruct (HR h' r').
    + by destruct (HR h r).
Qed.
Lemma post_pinv pc p : pinv s R pc → pc !! p = Some (Want b w) → pinv s' (<[i0 := r0]> R) (<[p := Wait b w i0]> pc).
Proof using Hv Hb F0 Hpo.
  intros Hp Hpc. destruct post_fresh as [_ HRi]. pose proof (lookup_lt_Some _ _ _ Hpc) as Hlt. split.
  - intros q b' w' h [(<- & [= <- <- <-] & _)|[Hne Hq]]%list_lookup_insert_Some; [rewrite lookup_insert_eq; eauto|].
    destruct (pi_wait _ _ _ Hp _ _ _ _ Hq) as (j1 & j2 & E). exists j1, j2. rewrite lookup_insert_ne; [done|congruence].
  - intros h r [[<- <-]|[Hne Hr]]%lookup_insert_Some; [exists p; by apply list_lookup_insert_eq|].
    destruct (pi_req _ _ _ Hp h r Hr) as [q Hq]. exists q. rewrite list_lookup_insert_ne; [done|congruence].
  - intros q b' w' [(<- & [=] & _)|[Hne Hq]]%list_lookup_insert_Some. destruct (pi_want _ _ _ Hp _ _ _ Hq) as (vc & Hc & Hn).
    pose proof (post_blockno b') as E. rewrite Hc in E. destruct (v_bufs s' !! b') as [vc'|]; [|done]. injection E as E. exists vc'. by rewrite E.
  - assert (∀ q c, <[p := Wait b w i0]> pc !! q = Some c → ∃ c', pc !! q = Some c' ∧ ∀ b', uses c b' → uses c' b') as Hu.
    { intros q c [(<- & <- & _)|[Hne Hq]]%list_lookup_insert_Some; eauto. }
    intros q q' c d b' Hne (c' & Hc & Hc')%Hu (d' & Hd & Hd')%Hu U1 U2. by eapply (pi_excl _ _ _ Hp q q' c' d' b' Hne); auto.
Qed.
End post.

(** A request is seen only when the device has carried it out. *)
Lemma post_abs y s1 R Q U b w vb i0 i1 i2 s3 p : vinv s1 R (dv_seen (y_dev y)) Q (dv_pending (y_dev y)) U → pinv s1 R (y_pc y) →
  y_pc y !! p = Some (Want b w) → is_free s1 i0 → posted s1 b w (vb_blockno vb) i0 i1 i2 s3 → s1 = set_vlock true (y_v y) →
  abs (Sys (set_vlock false s3) (y_dev y) (<[p := Wait b w i0]> (y_pc y))) = abs y.
Proof.
  intros Hv Hp Hpc F0 Hpo Es. unfold abs. simpl. f_equal.
  - rewrite (po_bufs _ _ _ _ _ _ _ _ Hpo). subst s1. apply (put_disk_same (y_v y) b true).
  - apply list_eq. intros q. rewrite !list_lookup_fmap. destruct (decide (p = q)) as [<-|Hne].
    + rewrite list_lookup_insert_eq by by eapply lookup_lt_Some. rewrite Hpc. simpl. rewrite (po_info _ _ _ _ _ _ _ _ Hpo).
      rewrite list_lookup_insert_eq; [done|]. rewrite (vi_info _ _ _ _ _ _ Hv). pose proof (is_free_lt _ _ (vi_free _ _ _ _ _ _ Hv) F0). lia.
    + rewrite list_lookup_insert_ne by done. destruct (y_pc y !! q) as [[| |b' w' h]|] eqn:Hq; try done. simpl.
      destruct (pi_wait _ _ _ Hp _ _ _ _ Hq) as (j1 & j2 & Hr). rewrite (po_info _ _ _ _ _ _ _ _ Hpo), list_lookup_insert_ne; [by subst s1|].
      apply not_eq_sym. by eapply free_not_member; [|exact Hr|left|].
Qed.
(** The buffer of a call without descriptors is in no chain. *)
Lemma want_fresh s R pc p b w h r : pinv s R pc → pc !! p = Some (Want b w) → R !! h = Some r → r_b r ≠ b.
Proof.
  intros Hp Hpc Hr E. destruct (pi_req _ _ _ Hp h r Hr) as [q Hq]. destruct (decide (p = q)) as [<-|Hne]; [congruence|].
  by apply (pi_excl _ _ _ Hp p q _ _ b Hne Hpc Hq).
Qed.
Lemma same_desc_vinv s s' R seen Q P U : same_desc s s' → vinv s R seen Q P U → vinv s' R seen Q P U.
Proof.
  intros Hs []. pose proof Hs as (_ & Hl & Hd). rewrite (same_desc_eq _ _ Hs). split; try done; [by rewrite <- vi_desc0|]. intros h r Hr. pose proof (vi_chain0 h r Hr) as Hc.
  apply (vchain_frame s); try done. intros i Hi. split; [done|]. apply Hd. destruct (ch_range _ _ _ Hc i Hi) as [_ ->]. done.
Qed.
(** All descriptors are free when no request is in flight. *)
Lemma no_room s R seen Q P U : vinv s R seen Q P U → (∀ i0 i1 i2, is_free s i0 → is_free s i1 → is_free s i2 → ¬ three i0 i1 i2) → ∃ h r, R !! h = Some r.
Proof.
  intros Hv Hno. assert (∀ i, 0 ≤ i < NUM → is_free s i ∨ ∃ h r, R !! h = Some r) as Hi.
  { intros i Hi. destruct (lookup_lt_is_Some_2 (v_free s) (Z.to_nat i)) as [[] Hf]; [rewrite (vi_free _ _ _ _ _ _ Hv); lia|left; split; [lia|done]|right].
    destruct (vi_used _ _ _ _ _ _ Hv i) as (h & r & ? & _); [lia|done|]. eauto. }
  destruct (Hi 0) as [F0|?]; [done| |done]. destruct (Hi 1) as [F1|?]; [done| |done]. destruct (Hi 2) as [F2|?]; [done| |done].
  by destruct (Hno 0 1 2 F0 F1 F2).
Qed.
Lemma submit_step y p b w : sinv y → y_pc y !! p = Some (Want b w) →
  wp (rw_submit b w) (λ r v', ∃ c, c = match r with inl _ => Want b w | inr (i0, fin) => if fin : bool then Idle else Wait b w i0 end ∧
    sinv (Sys v' (y_dev y) (<[p := c]> (y_pc y))) ∧ abs (Sys v' (y_dev y) (<[p := c]> (y_pc y))) = abs y ∧
    match r with inl _ => ∃ q b' w' h, y_pc y !! q = Some (Wait b' w' h) | inr (_, fin) => fin = false ∧ finished v' b = false end ∧
    ∀ c, finished v' c = true → finished (y_v y) c = true) (y_v y).
Proof using VL.
  intros (Hlk & R & Q & U & Hv & Hp) Hpc. set (s := y_v y) in *. destruct (pi_want _ _ _ Hp _ _ _ Hpc) as (vb & Hb & Hno).
  unfold rw_submit. apply wp_bind. eapply wp_elem; [lia|rewrite Nat2Z.id; exact Hb|]. apply wp_bind, wp_lock_acquire; [done|].
  set (s1 := set_vlock true s). assert (vinv s1 R (dv_seen (y_dev y)) Q (dv_pending (y_dev y)) U) as Hv1 by by eapply vinv_frame.
  assert (pinv s1 R (y_pc y)) as Hp1 by by apply (seen_same_pinv s).
  apply wp_bind. eapply wp_mono; [apply alloc3_spec, Hv1|]. intros [[[i0 i1] i2]|] s2.
  - intros (F0 & F1 & F2 & H3 & ->). apply wp_bind. replace (u32 _) with (2 * vb_blockno vb).
    2:{ change (BSIZE / 512) with 2. unfold u32. rewrite Z.mod_small; lia. }
    eapply wp_mono; [apply rw_format_spec; try (by eapply post_range); try done; apply Hv1|]. intros [] s3 Hpo.
    pose proof (post_vinv s1 _ _ _ _ _ b w vb i0 i1 i2 s3 Hv1 Hb Hno (λ h r, want_fresh _ _ _ _ _ _ _ _ Hp1 Hpc) F0 F1 F2 H3 Hpo) as Hv3.
    pose proof (post_pinv s1 _ _ _ _ _ b w vb i0 i1 i2 s3 Hv1 Hb F0 Hpo (y_pc y) p Hp1 Hpc) as Hp3.
    assert (v_bufs s3 !! b = Some (VBuf true (vb_blockno vb) (vb_data vb))) as Hb3.
    { rewrite (po_bufs _ _ _ _ _ _ _ _ Hpo), list_lookup_alter_eq. unfold s1. simpl. by rewrite Hb. }
    apply wp_bind. unfold rw_wait. apply wp_bind, wp_gets. rewrite Hb3. cbn [from_option vb_disk]. apply wp_bind, wp_lock_release.
    { by rewrite (po_lock _ _ _ _ _ _ _ _ Hpo). }
    apply wp_ret, wp_ret. eexists. split; [done|]. split_and!; [| |done|unfold finished; simpl; by rewrite Hb3|].
    + split; [done|]. exists (<[i0 := Rq b w i1 i2]> R), (Q ++ [i0]), U. simpl. split; [by eapply vinv_frame|by apply (seen_same_pinv s3)].
    + by apply (post_abs y s1 R Q U b w vb i0 i1 i2 s3).
    + intros c. unfold finished. simpl. rewrite (po_bufs _ _ _ _ _ _ _ _ Hpo). destruct (decide (b = c)) as [<-|Hne]; [|by rewrite list_lookup_alter_ne].
      rewrite list_lookup_alter_eq. unfold s1. simpl. by rewrite Hb.
  - intros [Hs Hroom]. pose proof (same_desc_vinv _ _ _ _ _ _ _ Hs Hv1) as Hv2. rewrite (same_desc_eq _ _ Hs) in Hv2 |- *.
    apply wp_bind, wp_lock_release; [done|]. apply wp_ret. eexists. split; [done|]. rewrite list_insert_id by done. split_and!.
    + split; [done|]. exists R, Q, U. split; [by eapply vinv_frame|by apply (seen_same_pinv s1)].
    + by apply (seen_same_abs y).
    + destruct (no_room _ _ _ _ _ _ Hv1 Hroom) as (h & r & Hr). destruct (pi_req _ _ _ Hp h r Hr) as [q Hq]. eauto.
    + done.
Qed.

(** ** Completion *)

Definition unchain (h : Z) (r : req) s : vdisk := unuse (r_2 r) (unuse (r_1 r) (unuse h s)).
Lemma free_chain_spec s h r : chain s h r → wp (free_chain h) (λ _ s', s' = unchain h r s) s.
Proof.
  intros [(N1 & N2 & N3) Hr D0 D1 D2 _]. destruct (Hr h ltac:(by left)) as [R0 F0]. destruct (Hr (r_1 r) ltac:(by right; left)) as [R1 F1].
  destruct (Hr (r_2 r) ltac:(by do 2 right; left)) as [R2 F2]. unfold free_chain. change (Z.to_nat NUM + 1)%nat with 9%nat. cbn [loop].
  apply wp_bind, wp_bind. eapply wp_elem; [lia|exact D0|]. apply wp_bind. eapply wp_mono; [by apply free_desc_spec|]. intros [] s1 ->.
  apply wp_ret. cbn [d_next].
  apply wp_bind, wp_bind. eapply wp_elem; [lia| |]. { simpl. rewrite list_lookup_alter_ne by lia. exact D1. }
  apply wp_bind. eapply wp_mono; [apply free_desc_spec; [done|]|]. { simpl. by rewrite list_lookup_insert_ne by lia. }
  intros [] s1 ->. cbn [d_flags d_next]. assert (truth (Z.land (Z.lor (if r_w r then 0 else VRING_DESC_F_WRITE) VRING_DESC_F_NEXT) VRING_DESC_F_NEXT) = true) as -> by by destruct (r_w r). apply wp_ret.
  apply wp_bind, wp_bind. eapply wp_elem; [lia| |]. { simpl. rewrite !list_lookup_alter_ne by lia. exact D2. }
  apply wp_bind. eapply wp_mono; [apply free_desc_spec; [done|]|]. { simpl. by rewrite !list_lookup_insert_ne by lia. }
  intros [] s1 ->. apply wp_ret. by apply wp_ret.
Qed.

Section done.
Context (s : vdisk (H:=H)) (R : gmap Z req) (seen : Z) (Q P : list Z) (U : list (Z * Z)) (h : Z) (r : req).
Hypothesis Hv : vinv s R seen Q P U.
Hypothesis Hr : R !! h = Some r.
Hypothesis Hh : h ∉ Q ++ P ++ U.*1.
Let s' := unchain h r (set_info (alter (λ x, Info None (in_status x)) (Z.to_nat h) (v_info s)) s).
Lemma done_apart k r' i : R !! k = Some r' → k ≠ h → 0 ≤ i → i ∈ members k r' →
  Z.to_nat h ≠ Z.to_nat i ∧ Z.to_nat (r_1 r) ≠ Z.to_nat i ∧ Z.to_nat (r_2 r) ≠ Z.to_nat i.
Proof using Hv Hr.
  intros Hr' Hne Hi Hin. assert (∀ j, j ∈ members h r → Z.to_nat j ≠ Z.to_nat i) as Hx.
  { intros j Hj E. apply Hne. apply (vi_apart _ _ _ _ _ _ Hv k r' h r i); try done.
    destruct (ch_range _ _ _ (vi_chain _ _ _ _ _ _ Hv _ _ Hr) j Hj). by replace i with j by lia. }
  split_and!; apply Hx; [by left|by right; left|by do 2 right; left].
Qed.
Lemma done_chain k r' : delete h R !! k = Some r' → chain s' k r'.
Proof using Hv Hr.
  intros [Hne Hr']%lookup_delete_Some. pose proof (vi_chain _ _ _ _ _ _ Hv _ _ Hr') as Hc. apply (vchain_frame s); try done.
  intros i Hi. destruct (ch_range _ _ _ Hc i Hi) as [Hi0 _]. destruct (done_apart k r' i) as (A0 & A1 & A2); [done|done|lia|done|].
  unfold s', unchain, unuse. simpl. by rewrite !list_lookup_insert_ne, !list_lookup_alter_ne by done.
Qed.
Lemma done_vinv : vinv s' (delete h R) seen Q P U.
Proof using Hv Hr Hh.
  pose proof (vi_chain _ _ _ _ _ _ Hv _ _ Hr) as Hc. split; try (by apply Hv); try exact done_chain; unfold s', unchain, unuse; simpl; rewrite ?length_insert, ?length_alter; try (by apply Hv).
  - intros k r1 k' r2 i [_ H1]%lookup_delete_Some [_ H2]%lookup_delete_Some. by apply (vi_apart _ _ _ _ _ _ Hv).
  - intros i Hi. rewrite !list_lookup_insert_Some. intros [(_ & [=] & _)|[A2 [(_ & [=] & _)|[A1 [(_ & [=] & _)|[A0 Hf]]]]]].
    destruct (vi_used _ _ _ _ _ _ Hv i Hi Hf) as (k & r' & Hk & Hin). exists k, r'. split; [|done]. apply lookup_delete_Some. split; [|done].
    intros <-. assert (r' = r) as -> by congruence. unfold members in Hin. rewrite !elem_of_cons, elem_of_nil in Hin. naive_solver.
  - intros k Hk. destruct (vi_heads _ _ _ _ _ _ Hv k Hk) as [r' Hr']. exists r'. apply lookup_delete_Some. split; [congruence|done].
  - intros k r' [Hne Hk]%lookup_delete_Some. rewrite list_lookup_alter_ne; [by apply Hv|]. intros E. by apply Hne, (head_eq _ _ _ _ _ _ _ _ _ _ Hv Hr Hk).
  - intros b vb Hb. rewrite (vi_disk _ _ _ _ _ _ Hv b vb Hb). split; intros (k & r' & Hk & Eb & Hin); exists k, r'; (split_and!; [|done|done]).
    + apply lookup_delete_Some. split; [congruence|done].
    + by apply lookup_delete_Some in Hk as [_ ?].
  - intros k r1 k' r2 [_ H1]%lookup_delete_Some [_ H2]%lookup_delete_Some. by apply (vi_bufs _ _ _ _ _ _ Hv).
Qed.
Lemma done_pinv pc p : pinv s R pc → pc !! p = Some (Wait (r_b r) (r_w r) h) → pinv s' (delete h R) (<[p := Idle]> pc).
Proof using.
  intros Hp Hpc. split.
  - intros q b w k [(_ & [=] & _)|[Hne Hq]]%list_lookup_insert_Some. destruct (pi_wait _ _ _ Hp _ _ _ _ Hq) as (j1 & j2 & E).
    exists j1, j2. apply lookup_delete_Some. split; [|done]. intros <-. by destruct Hne, (pinv_unique _ _ _ _ _ _ _ _ _ _ Hp Hpc Hq).
  - intros k r' [Hne Hk]%lookup_delete_Some. destruct (pi_req _ _ _ Hp k r' Hk) as [q Hq]. exists q. rewrite list_lookup_insert_ne; [done|congruence].
  - intros q b w [(_ & [=] & _)|[Hne Hq]]%list_lookup_insert_Some. by apply (pi_want _ _ _ Hp _ _ _ Hq).
  - intros q q' c d b Hne [(_ & <- & _)|[_ Hq]]%list_lookup_insert_Some; [done|]. intros [(_ & <- & _)|[_ Hq']]%list_lookup_insert_Some; [by intros _ []|].
    by apply (pi_excl _ _ _ Hp q q').
Qed.
End done.

Lemma done_abs (y : system (H:=H)) h s' pc : v_bufs s' = v_bufs (y_v y) → v_info s' = alter (λ x, Info None (in_status x)) (Z.to_nat h) (v_info (y_v y)) →
  abs (Sys s' (y_dev y) pc) = ASpec (a_disk (abs y)) (a_bufs (abs y)) (abs_call (y_v y) <$> pc).
Proof.
  intros E1 E2. unfold abs. simpl. rewrite E1. f_equal. apply list_fmap_ext. intros _ [| |b w k] _; try done. simpl.
  rewrite E2. destruct (decide (Z.to_nat h = Z.to_nat k)) as [<-|Hne]; [|by rewrite list_lookup_alter_ne].
  rewrite list_lookup_alter_eq. by destruct (v_info (y_v y) !! Z.to_nat h).
Qed.
Lemma finished_heads s R seen Q P U h r : vinv s R seen Q P U → R !! h = Some r → finished s (r_b r) = true ↔ h ∉ Q ++ P ++ U.*1.
Proof.
  intros Hv Hr. destruct (ch_buf _ _ _ (vi_chain _ _ _ _ _ _ Hv _ _ Hr)) as (vb & Hb & _). unfold finished. rewrite Hb. simpl.
  pose proof (vi_disk _ _ _ _ _ _ Hv _ _ Hb) as Hd. destruct (vb_disk vb); simpl; (split; [intros E|intros Hh]); try done.
  - destruct (proj1 Hd eq_refl) as (k & r' & Hk & Eb & Hin). by rewrite (vi_bufs _ _ _ _ _ _ Hv _ _ _ _ Hr Hk) in Hh.
  - intros Hin. enough (false = true) by done. apply Hd. eauto.
Qed.
Lemma again_step y p b w h : sinv y → y_pc y !! p = Some (Wait b w h) →
  wp (rw_again b h) (λ fin v', fin = finished (y_v y) b ∧ ∃ y', y' = Sys v' (y_dev y) (<[p := if fin : bool then Idle else Wait b w h]> (y_pc y)) ∧
    sinv y' ∧ (if fin then astep (abs y) (abs y') else abs y' = abs y) ∧
    v_bufs v' = v_bufs (y_v y) ∧ (fin = true → CFree ∈ v_woken v')) (y_v y).
Proof using VL.
  intros (Hlk & R & Q & U & Hv & Hp) Hpc. set (s := y_v y) in *. destruct (pi_wait _ _ _ Hp _ _ _ _ Hpc) as (i1 & i2 & Hr). set (r := Rq b w i1 i2) in *.
  set (s1 := set_vlock true s). assert (vinv s1 R (dv_seen (y_dev y)) Q (dv_pending (y_dev y)) U) as Hv1 by by eapply vinv_frame.
  pose proof (finished_heads _ _ _ _ _ _ _ _ Hv1 Hr) as Hf. change (r_b r) with b in Hf.
  unfold rw_again, rw_wait. apply wp_bind, wp_lock_acquire; [done|]. apply wp_bind, wp_gets. change (finished s1 b) with (finished s b) in Hf.
  change (v_bufs (set_vlock true s)) with (v_bufs s). unfold finished in *. destruct (from_option vb_disk false (v_bufs s !! b)); simpl.
  - apply wp_bind, wp_lock_release; [done|]. apply wp_ret. split; [done|]. eexists. split; [done|]. rewrite list_insert_id by done. split_and!; [|by apply (seen_same_abs y)|done|done].
    split; [done|]. exists R, Q, U. split; [by eapply vinv_frame|by apply (seen_same_pinv s)].
  - assert (h ∉ Q ++ dv_pending (y_dev y) ++ U.*1) as Hh by by apply Hf. apply wp_bind, wp_modify, wp_bind.
    eapply wp_mono; [apply (free_chain_spec _ h r); eapply chain_ext; [by apply Hv|done..]|]. intros [] s2 ->. fold s1.
    pose proof (done_vinv s1 _ _ _ _ _ h r Hv1 Hr Hh) as Hv2. pose proof (done_pinv s1 _ h r _ p (seen_same_pinv s s1 _ _ ltac:(done) Hp) Hpc) as Hp2.
    apply wp_bind, wp_lock_release; [done|]. apply wp_ret. split; [done|]. eexists. split; [done|]. split_and!; [| |reflexivity|intros _; by left].
    + split; [done|]. exists (delete h R), Q, U. split; [by eapply vinv_frame|]. eapply seen_same_pinv; [apply vlock_same|exact Hp2].
    + erewrite done_abs by done. rewrite list_fmap_insert. apply (a_return (abs y) p b w). simpl. rewrite list_lookup_fmap, Hpc. simpl. fold s.
      destruct (vi_status _ _ _ _ _ _ Hv _ _ Hr) as (st & -> & Hst). simpl. destruct (Z.eqb_spec st 0) as [|Hne]; [done|].
      destruct Hh. apply Hst in Hne. rewrite app_assoc. apply elem_of_app. by left.
Qed.
Lemma intr_step y : sinv y → wp virtio_disk_intr (λ _ v', ∃ y', y' = Sys v' (y_dev y) (y_pc y) ∧ sinv y' ∧ abs y' = abs y ∧ woke (y_v y) v') (y_v y).
Proof using VL.
  intros (Hlk & R & Q & U & Hv & Hp). eapply wp_mono; [by eapply intr_spec|]. intros [] s' (Hv' & Hs & Hw & Hl). eexists. split; [done|]. split_and!; [|by apply seen_same_abs|done].
  split; [done|]. exists R, Q, []. split; [done|by eapply seen_same_pinv].
Qed.
Lemma call_step y p b w vb : sinv y → y_pc y !! p = Some Idle → (∀ c, c ∈ y_pc y → ¬ uses c b) →
  v_bufs (y_v y) !! b = Some vb → 0 ≤ vb_blockno vb < 2 ^ 31 →
  ∃ y', y' = Sys (y_v y) (y_dev y) (<[p := Want b w]> (y_pc y)) ∧ sinv y' ∧ astep (abs y) (abs y').
Proof.
  intros (Hlk & R & Q & U & Hv & Hp) Hpc Hun Hb Hno. eexists. split; [done|]. split.
  - split; [done|]. exists R, Q, U. split; [done|]. simpl. split.
    + intros q b' w' h [(_ & [=] & _)|[_ Hq]]%list_lookup_insert_Some. by eapply (pi_wait _ _ _ Hp).
    + intros h r Hr. destruct (pi_req _ _ _ Hp h r Hr) as [q Hq]. exists q. rewrite list_lookup_insert_ne; [done|congruence].
    + intros q b' w' [(_ & [= <- <-] & _)|[_ Hq]]%list_lookup_insert_Some; [eauto|]. by eapply (pi_want _ _ _ Hp).
    + intros q q' c d b' Hne [(<- & <- & _)|[_ Hq]]%list_lookup_insert_Some [(<- & <- & _)|[_ Hq']]%list_lookup_insert_Some; simpl; [done| | |].
      * intros <-. by eapply Hun, list_elem_of_lookup_2.
      * intros Hu <-. by eapply Hun; [eapply list_elem_of_lookup_2|].
      * by apply (pi_excl _ _ _ Hp q q').
  - unfold abs at 2. simpl. rewrite list_fmap_insert. apply (a_call (abs y)). simpl. by rewrite list_lookup_fmap, Hpc.
Qed.
Lemma owner_step y b vb no data : sinv y → (∀ c, c ∈ y_pc y → ¬ uses c b) → v_bufs (y_v y) !! b = Some vb →
  ∃ y', y' = Sys (set_vbufs (<[b := VBuf (vb_disk vb) no data]> (v_bufs (y_v y))) (y_v y)) (y_dev y) (y_pc y) ∧ sinv y' ∧ astep (abs y) (abs y').
Proof.
  intros (Hlk & R & Q & U & Hv & Hp) Hun Hb. eexists. split; [done|]. split.
  - split; [done|]. exists R, Q, U. simpl. split.
    + split; try (by apply Hv); simpl.
      * intros h r Hr. eapply chain_ext; [by apply Hv|done..|]. simpl. destruct (pi_req _ _ _ Hp h r Hr) as [q Hq].
        rewrite list_lookup_insert_ne; [done|]. intros ->. by eapply Hun; [eapply list_elem_of_lookup_2, Hq|].
      * intros c vc [(<- & <- & _)|[_ Hc]]%list_lookup_insert_Some; [by apply (vi_disk _ _ _ _ _ _ Hv b vb Hb)|by apply Hv].
    + split; try (by apply Hp). intros q c w Hq. destruct (pi_want _ _ _ Hp _ _ _ Hq) as (vc & Hc & Hn). exists vc. simpl.
      rewrite list_lookup_insert_ne; [done|]. intros ->. by eapply Hun; [eapply list_elem_of_lookup_2, Hq|].
  - unfold abs at 2. simpl. rewrite list_fmap_insert. apply (a_owner (abs y)). simpl. intros c (c' & -> & Hc)%list_elem_of_fmap Hu.
    apply (Hun c' Hc). destruct c' as [| |? ? k]; try done. simpl in Hu. destruct (v_info (y_v y) !! Z.to_nat k) as [i|]; [|done]. by destruct (in_status i =? 0).
Qed.

(** ** No wakeup is lost *)

(** Whoever sleeps has something to wait for. *)
Definition sleepers (m : machine (H:=H)) : Prop := ∀ p, p ∈ m_sleep m →
  match y_pc (m_y m) !! p with
  | Some (Wait b _ _) => finished (y_v (m_y m)) b = false
  | Some (Want _ _) => ∃ q b w h, y_pc (m_y m) !! q = Some (Wait b w h)
  | _ => False
  end.
Definition minv (m : machine (H:=H)) : Prop := sinv (m_y m) ∧ sleepers m.
Lemma fresh_inv (m : machine (H:=H)) : sinv (m_y m) → sinv (Sys (fresh m) (y_dev (m_y m)) (y_pc (m_y m))).
Proof. intros (Hlk & R & Q & U & Hv & Hp). split; [done|]. exists R, Q, U. split; [by eapply vinv_frame|by apply (seen_same_pinv (y_v (m_y m)))]. Qed.
Lemma sleepers_submit m p b w (r : unit + Z * bool) v' : sleepers m → y_pc (m_y m) !! p = Some (Want b w) → p ∉ m_sleep m →
  match r with inl _ => ∃ q b' w' h, y_pc (m_y m) !! q = Some (Wait b' w' h) | inr (_, fin) => fin = false ∧ finished v' b = false end →
  (∀ c, finished v' c = true → finished (y_v (m_y m)) c = true) →
  sleepers (Machine (Sys v' (y_dev (m_y m)) (<[p := match r with
      | inl _ => Want b w | inr (i0, fin) => if fin : bool then Idle else Wait b w i0 end]> (y_pc (m_y m))))
      (match r with inr (_, true) => still v' m | _ => {[p]} ∪ still v' m end)).
Proof.
  intros Hs Hpc Hp Hr Hf. set (c := match r with inl _ => _ | inr _ => _ end).
  assert (∀ q b' w' h, y_pc (m_y m) !! q = Some (Wait b' w' h) → <[p := c]> (y_pc (m_y m)) !! q = Some (Wait b' w' h)) as Hw.
  { intros q b' w' h Hq. rewrite list_lookup_insert_ne; [done|congruence]. }
  assert (∀ q, q ∈ still v' m → q ∈ m_sleep m) as Hst by (intros q; by apply elem_of_filter).
  intros q Hq. simpl in *. destruct (decide (q = p)) as [->|Hne].
  - rewrite list_lookup_insert_eq by by eapply lookup_lt_Some. unfold c. destruct r as [?|[i0 fin]]; [naive_solver|]. by destruct Hr as [-> ?].
  - assert (q ∈ m_sleep m) as Hin. { apply Hst. destruct r as [?|[? []]]; set_solver. }
    rewrite list_lookup_insert_ne by done. specialize (Hs q Hin). destruct (y_pc (m_y m) !! q) as [[| |b' w' h]|]; [done|naive_solver| |done].
    destruct (finished v' b') eqn:E; [|done]. rewrite <- Hs. symmetry. by apply Hf.
Qed.
Lemma sleepers_again m p b w h v' fin : sleepers m → y_pc (m_y m) !! p = Some (Wait b w h) → p ∉ m_sleep m → fin = finished (y_v (m_y m)) b →
  v_bufs v' = v_bufs (y_v (m_y m)) → (fin = true → CFree ∈ v_woken v') →
  sleepers (Machine (Sys v' (y_dev (m_y m)) (<[p := if fin : bool then Idle else Wait b w h]> (y_pc (m_y m)))) (if fin then still v' m else {[p]} ∪ still v' m)).
Proof.
  intros Hs Hpc Hp Hfin Eb Hc q Hq. simpl in *. assert (∀ c, finished v' c = finished (y_v (m_y m)) c) as Ef by (intros c; unfold finished; by rewrite Eb).
  destruct (decide (q = p)) as [->|Hne].
  - rewrite list_lookup_insert_eq by by eapply lookup_lt_Some. destruct fin; [|by rewrite Ef]. apply elem_of_filter in Hq as [_ ?]. done.
  - rewrite list_lookup_insert_ne by done. assert (q ∈ still v' m) as [Hch Hin]%elem_of_filter by (destruct fin; set_solver).
    specialize (Hs q Hin). unfold chan_at in Hch. destruct (y_pc (m_y m) !! q) as [[| |b' w' k]|]; [done| |by rewrite Ef|done].
    destruct fin; [destruct Hch; by apply Hc|]. destruct Hs as (q' & b1 & w1 & h1 & Hq'). rewrite list_insert_id by done. eauto.
Qed.
Lemma sleepers_intr m v' : sleepers m → woke (fresh m) v' → sleepers (Machine (Sys v' (y_dev (m_y m)) (y_pc (m_y m))) (still v' m)).
Proof.
  intros Hs [_ Hw] q Hq. apply elem_of_filter in Hq as [Hch Hin]. specialize (Hs q Hin). simpl in *. unfold chan_at in Hch.
  destruct (y_pc (m_y m) !! q) as [[| |b w h]|]; try done. destruct (finished v' b) eqn:E; [|done]. destruct (Hw b E) as [Hf|?]; [|done].
  change (finished (y_v (m_y m)) b = true) in Hf. congruence.
Qed.
Lemma sleepers_frame y y' sl sl' : sleepers (Machine y sl) → y_pc y' = y_pc y → (∀ c, finished (y_v y') c = finished (y_v y) c) → sl' ⊆ sl → sleepers (Machine y' sl').
Proof.
  intros Hs Epc Ef Hsl p Hp. specialize (Hs p (Hsl p Hp)). simpl in *. rewrite Epc. destruct (y_pc y !! p) as [[| |]|]; try done. by rewrite Ef.
Qed.
Lemma take_frame (y y' : system (H:=H)) : dev_take y = Some y' → y_pc y' = y_pc y ∧ y_v y' = y_v y.
Proof. unfold dev_take. intros Ht. case_match; [done|]. case_match; [|done]. by injection Ht as <-. Qed.
Lemma do_frame h (y y' : system (H:=H)) : dev_do h y = Some y' → y_pc y' = y_pc y ∧ ∀ c, finished (y_v y') c = finished (y_v y) c.
Proof.
  unfold dev_do. intros Hd. destruct (chain_of (y_v y) h) as [x|]; [|done]. destruct (v_bufs (y_v y) !! x_b x) as [vb|] eqn:Hb; [|done].
  injection Hd as <-. split; [done|]. intros c. unfold finished. simpl. destruct (x_write x); [done|].
  destruct (decide (x_b x = c)) as [<-|Hne]; [|by rewrite list_lookup_insert_ne]. rewrite list_lookup_insert_eq by by eapply lookup_lt_Some. by rewrite Hb.
Qed.
Lemma vstep_inv m m' : minv m → vstep m m' → minv m' ∧ (abs (m_y m') = abs (m_y m) ∨ astep (abs (m_y m)) (abs (m_y m'))).
Proof using VL.
  intros [Hs Hsl] Hst. destruct Hst as [y sl p b w vb Hpc Hun Hb Hno|m y p b w r v' <- Hpc Hp Hok|m y p b w i0 fin v' <- Hpc Hp Hok|m y v' <- Hok|y y' sl Ht|y h y' sl Hh Hd|y sl b vb no data Hun Hb|y sl p].
  - destruct (call_step y p b w vb) as (y' & -> & ? & ?); auto. split; [|auto]. split; [done|]. intros q Hq. specialize (Hsl q Hq). simpl in *.
    assert (q ≠ p) by (intros ->; by rewrite Hpc in Hsl). rewrite list_lookup_insert_ne by done. destruct (y_pc y !! q) as [[| |]|]; try done.
    destruct Hsl as (q' & b' & w' & h & Hq'). exists q', b', w', h. rewrite list_lookup_insert_ne; [done|congruence].
  - destruct (wp_elim _ _ _ _ _ (submit_step _ p b w (fresh_inv m Hs) Hpc) Hok) as (c & Ec & ? & ? & Hr & Hf). subst c. split; [|auto]. split; [done|].
    by apply sleepers_submit.
  - destruct (wp_elim _ _ _ _ _ (again_step _ p b w i0 (fresh_inv m Hs) Hpc) Hok) as (Hfin & y' & -> & ? & Ha & Eb & Hc). split; [|destruct fin; auto]. split; [done|].
    by apply sleepers_again.
  - destruct (wp_elim _ _ _ _ _ (intr_step _ (fresh_inv m Hs)) Hok) as (y' & -> & ? & ? & Hw). split; [|auto]. split; [done|]. by apply sleepers_intr.
  - destruct (take_inv y y' Hs Ht). destruct (take_frame _ _ Ht) as [E1 E2]. split; [|auto]. split; [done|]. apply (sleepers_frame y y' sl); auto. by rewrite E2.
  - destruct (do_inv y h Hs Hh) as (y1 & E & ? & ?). simplify_eq. destruct (do_frame _ _ _ Hd). split; [|auto]. split; [done|]. by apply (sleepers_frame y y' sl).
  - destruct (owner_step y b vb no data Hs Hun Hb) as (y' & -> & ? & ?). split; [|auto]. split; [done|]. apply (sleepers_frame y _ sl); [done..| |done].
    intros c. unfold finished. simpl. destruct (decide (b = c)) as [<-|Hne]; [|by rewrite list_lookup_insert_ne].
    rewrite list_lookup_insert_eq by by eapply lookup_lt_Some. by rewrite Hb.
  - split; [|by left]. split; [done|]. apply (sleepers_frame y y sl); [done..|set_solver].
Qed.

(** * The system at boot *)

(** The static data: zeroes. *)
Record vzeroed s : Prop := {
  vz_info : length (v_info s) = Z.to_nat NUM;
  vz_ops : length (v_ops s) = Z.to_nat NUM;
  vz_used : v_used_idx s = 0;
  vz_bufs : ∀ b vb, v_bufs s !! b = Some vb → vb_disk vb = false;
}.
Lemma wlp_vreg {A} (m : M H A) (Q : A → vdisk → Prop) s : (∀ a h, Q a (set_vhw h s)) → wlp (vreg m) Q s.
Proof. intros HQ. unfold wlp, vreg, zoom. by destruct (m (v_hw s)). Qed.
Lemma init_spec pages s : vzeroed s → wlp (virtio_disk_init pages) (λ _ s', vinv s' ∅ 0 [] [] [] ∧ v_lock s' = false) s.
Proof.
  intros [Hi Ho Hu Hb]. unfold virtio_disk_init. apply wlp_bind, wlp_modify. do 4 (apply wlp_bind, wlp_vreg; intros).
  case_match; [apply wlp_panic|]. do 2 (apply wlp_bind, wlp_vreg; intros). apply wlp_bind, wlp_vreg; intros. do 6 (apply wlp_bind, wlp_vreg; intros).
  case_match; [apply wlp_panic|]. case_match; [apply wlp_panic|]. apply wlp_bind, wlp_vreg; intros. do 3 apply wlp_bind, wlp_modify.
  apply wlp_bind, wlp_vreg; intros. apply wlp_modify. split; [|done]. split; simpl; try done; rewrite ?Hu; try done.
  - intros i _ E. by apply (lookup_replicate 8 true false) in E as [? _].
  - apply NoDup_nil_2.
  - by intros ? ?%elem_of_nil.
  - intros b vb E. rewrite (Hb b vb E). split; [done|]. by intros (? & ? & ? & _).
Qed.

Definition booted (v : vdisk (H:=H)) : Prop := ∃ pages s0, vzeroed s0 ∧ virtio_disk_init pages s0 = Ok tt v.
Lemma vsteps_inv m m' : rtc vstep m m' → minv m → minv m'.
Proof using VL. induction 1 as [|m1 m2 m3 H1 _ IH]; [done|]. intros Hm. by apply IH, (vstep_inv m1). Qed.
Definition vreach (dk : disk) (n : nat) (m : machine (H:=H)) : Prop :=
  ∃ v, booted v ∧ rtc vstep (Machine (Sys v (Device 0 [] dk) (replicate n Idle)) ∅) m.
Lemma vreach_inv dk n m : vreach dk n m → minv m.
Proof using VL.
  intros (v & (pages & s0 & Hz & Hok) & Hst). pose proof (wlp_elim _ _ _ _ _ (init_spec pages s0 Hz) Hok) as [Hv Hl].
  assert (minv (Machine (Sys v (Device 0 [] dk) (replicate n Idle)) ∅)) as Hs.
  { split; [|by intros p ?%not_elem_of_empty]. split; [done|]. exists ∅, [], []. split; [done|].
    split; simpl; try (by intros * [? ?]%lookup_replicate); [done|]. by intros ? ? ? ? ? _ [-> _]%lookup_replicate. }
  by apply (vsteps_inv _ _ Hst).
Qed.

(** ** Progress *)
Definition ahead (y : system (H:=H)) : nat := Z.to_nat ((v_avail_idx (y_v y) - dv_seen (y_dev y)) `mod` 2 ^ 16).
Lemma dev_take_some y : sinv y → ahead y ≠ 0%nat → ∃ y', dev_take y = Some y' ∧ (ahead y' < ahead y)%nat ∧ y_pc y' = y_pc y.
Proof.
  intros (_ & R & Q & U & Hv & _) Ha. destruct (vi_aidx _ _ _ _ _ _ Hv) as [Ea Hf]. unfold dev_take. destruct Q as [|h Q].
  { destruct Ha. unfold ahead. rewrite Ea. simpl. rewrite Z.add_0_r, u16_id by done. by rewrite Z.sub_diag. }
  pose proof (Z.mod_pos_bound (v_avail_idx (y_v y) - dv_seen (y_dev y)) (2 ^ 16) ltac:(done)) as Hb.
  destruct (Z.eqb_spec (dv_seen (y_dev y)) (v_avail_idx (y_v y))) as [E|Hne].
  { destruct Ha. unfold ahead. rewrite E. by rewrite Z.sub_diag. }
  rewrite (ring_front _ _ _ _ _ (vi_avail _ _ _ _ _ _ Hv)). eexists. split; [done|]. split; [|done]. unfold ahead in *. simpl.
  unfold u16. rewrite Zminus_mod_idemp_r. replace (_ - (_ + 1)) with (v_avail_idx (y_v y) - dv_seen (y_dev y) - 1) by lia.
  rewrite <- Zminus_mod_idemp_l. rewrite (Z.mod_small (_ - 1)); lia.
Qed.
Lemma drain_avail y sl : sinv y → ∃ y', rtc served (Machine y sl) (Machine y' sl) ∧ sinv y' ∧ y_pc y' = y_pc y ∧ ahead y' = 0%nat.
Proof using VL.
  remember (ahead y) as n eqn:En. revert y En. induction (lt_wf n) as [n _ IH]. intros y -> Hs.
  destruct (decide (ahead y = 0%nat)) as [E|Hne]; [by exists y|].
  destruct (dev_take_some y Hs Hne) as (y1 & Ht & Hlt & Epc). destruct (take_inv y y1 Hs Ht) as [Hs1 _].
  destruct (IH _ Hlt y1 eq_refl Hs1) as (y2 & Hst & ? & E & ?). exists y2. split_and!; [|done|congruence|done].
  eapply rtc_l; [|exact Hst]. by apply s_take.
Qed.
Lemma drain_pending y sl : sinv y → ahead y = 0%nat →
  ∃ y', rtc served (Machine y sl) (Machine y' sl) ∧ sinv y' ∧ y_pc y' = y_pc y ∧ ahead y' = 0%nat ∧ dv_pending (y_dev y') = [].
Proof using VL.
  remember (length (dv_pending (y_dev y))) as n eqn:En. revert y En. induction (lt_wf n) as [n _ IH]. intros y -> Hs Ha.
  destruct (dv_pending (y_dev y)) as [|h l] eqn:EP; [by exists y|]. assert (h ∈ dv_pending (y_dev y)) as Hh by (rewrite EP; by left).
  destruct (do_inv y h Hs Hh) as (y1 & Hd & Hs1 & _). assert (y_pc y1 = y_pc y ∧ ahead y1 = ahead y ∧ dv_pending (y_dev y1) = filter (λ k, k ≠ h) (h :: l)) as (E1 & E2 & E3).
  { unfold dev_do in Hd. destruct (chain_of (y_v y) h) as [x|]; [|done]. destruct (v_bufs (y_v y) !! x_b x); [|done]. injection Hd as <-. by rewrite <- EP. }
  destruct (IH (length (dv_pending (y_dev y1)))) with (y := y1) as (y2 & Hst & ? & E & ? & ?); [|done|done|congruence|].
  - rewrite E3, filter_cons_False by naive_solver. simpl. pose proof (length_filter (λ k, k ≠ h) l). lia.
  - exists y2. split_and!; [|done|congruence|done|done]. eapply rtc_l; [|exact Hst]. by eapply s_do.
Qed.
(** The device and the handler finish with every request. *)
Lemma drain m : minv m → ∃ m', rtc served m m' ∧ minv m' ∧ y_pc (m_y m') = y_pc (m_y m) ∧
  ∀ p b w h, y_pc (m_y m) !! p = Some (Wait b w h) → finished (y_v (m_y m')) b = true.
Proof using VL.
  intros [Hs Hsl]. destruct m as [y sl]. destruct (drain_avail y sl Hs) as (y1 & Hst1 & Hs1 & E1 & Ha1).
  destruct (drain_pending y1 sl Hs1 Ha1) as (y2 & Hst2 & Hs2 & E2 & Ha2 & Hp2). set (m2 := Machine y2 sl) in *.
  destruct (fresh_inv m2 Hs2) as (Hlk & R & Q & U & Hv & Hp). assert (Q = []) as ->.
  { pose proof (heads_length _ _ _ _ _ _ Hv) as Hl. rewrite !length_app in Hl. change (ahead (Sys (fresh m2) (y_dev (m_y m2)) (y_pc (m_y m2))) = 0%nat) in Ha2. unfold ahead in Ha2.
    rewrite (proj1 (vi_aidx _ _ _ _ _ _ Hv)), u16_dist in Ha2 by (unfold NUM in *; lia). apply length_zero_iff_nil. lia. }
  destruct (proj1 (wp_ok _ _ _) (intr_spec _ _ _ _ _ _ Hv Hlk)) as ([] & v3 & Hi & Hv3 & Hs3 & Hw3 & Hl3). simpl in Hv3. rewrite Hp2 in Hv3.
  assert (rtc served (Machine y sl) (Machine (Sys v3 (y_dev y2) (y_pc y2)) (still v3 m2))) as Hst.
  { etrans; [exact Hst1|]. etrans; [exact Hst2|]. by apply rtc_once, (s_intr m2). }
  exists (Machine (Sys v3 (y_dev y2) (y_pc y2)) (still v3 m2)). split_and!; [done| |simpl; congruence|].
  - by apply (vsteps_inv _ _ (rtc_subrel _ _ _ _ served_vstep Hst)).
  - intros p b w h Hpc. simpl in Hpc. rewrite <- E1, <- E2 in Hpc. destruct (pi_wait _ _ _ Hp _ _ _ _ Hpc) as (i1 & i2 & Hr).
    apply (finished_heads _ _ _ _ _ _ _ _ Hv3 Hr). by intros ?%elem_of_nil.
Qed.

(** * The properties *)

(** C16: In every system of processes, interrupt handler and device that starts
    from virtio_disk_init, each step is a step of the specification or is not
    seen: the device reads or writes the block of a call exactly once, at one
    instant between the call and its return, with the data of the locked
    buffer; no call returns before; no call of virtio_disk_rw or of the
    interrupt handler panics, deadlocks on the lock or leaves its arrays; and
    the device finds every chain well formed. *)
Theorem virtio_refines dk n m : vreach dk n m →
  (∀ m', vstep m m' → abs (m_y m') = abs (m_y m) ∨ astep (abs (m_y m)) (abs (m_y m'))) ∧
  (∀ p b w, y_pc (m_y m) !! p = Some (Want b w) → ∃ r v', rw_submit b w (fresh m) = Ok r v') ∧
  (∀ p b w h, y_pc (m_y m) !! p = Some (Wait b w h) → ∃ fin v', rw_again b h (fresh m) = Ok fin v') ∧
  (∃ v', virtio_disk_intr (fresh m) = Ok tt v') ∧
  (∀ h, h ∈ dv_pending (y_dev (m_y m)) → is_Some (dev_do h (m_y m))).
Proof using VL.
  intros Hm%vreach_inv. pose proof (fresh_inv m (proj1 Hm)) as Hs. split_and!.
  - intros m' Hst. by apply (vstep_inv m m').
  - intros p b w Hpc. destruct (proj1 (wp_ok _ _ _) (submit_step _ p b w Hs Hpc)) as (r & v' & E & _). eauto.
  - intros p b w h Hpc. destruct (proj1 (wp_ok _ _ _) (again_step _ p b w h Hs Hpc)) as (r & v' & E & _). eauto.
  - destruct (proj1 (wp_ok _ _ _) (intr_step _ Hs)) as ([] & v' & E & _). eauto.
  - intros h Hh. destruct (do_inv (m_y m) h (proj1 Hm) Hh) as (y' & E & _). eauto.
Qed.

(** C17: A call of virtio_disk_rw can always complete and no wakeup is lost:
    after steps of the device and the interrupt handler alone every call that
    waits for the device is awake, woken by the handler, and returns when it
    runs; and a call waits for descriptors, asleep or not, only while another
    waits for the device. *)
Theorem virtio_completes dk n m : vreach dk n m →
  (∃ m', rtc served m m' ∧ y_pc (m_y m') = y_pc (m_y m) ∧
    ∀ p b w h, y_pc (m_y m) !! p = Some (Wait b w h) → p ∉ m_sleep m' ∧ ∃ v', rw_again b h (fresh m') = Ok true v') ∧
  (∀ p b w, y_pc (m_y m) !! p = Some (Want b w) →
    (p ∉ m_sleep m ∧ ∃ h v', rw_submit b w (fresh m) = Ok (inr (h, false)) v') ∨ ∃ q b' w' h, y_pc (m_y m) !! q = Some (Wait b' w' h)).
Proof using VL.
  intros Hm%vreach_inv. split.
  - destruct (drain m Hm) as (m' & Hst & [Hs' Hsl] & E & Hf). exists m'. split_and!; [done|done|]. intros p b w h Hpc. pose proof (Hf _ _ _ _ Hpc) as Hb.
    rewrite <- E in Hpc. split.
    + intros Hp. specialize (Hsl p Hp). rewrite Hpc in Hsl. congruence.
    + destruct (proj1 (wp_ok _ _ _) (again_step _ p b w h (fresh_inv m' Hs') Hpc)) as (r & v' & Hok & Er & _). exists v'.
      change (r = finished (y_v (m_y m')) b) in Er. rewrite Hb in Er. subst r. exact Hok.
  - intros p b w Hpc. destruct (proj1 (wp_ok _ _ _) (submit_step _ p b w (fresh_inv m (proj1 Hm)) Hpc)) as ([?|[h fin]] & v' & E & c & _ & _ & _ & Hc & _); [by right|].
    destruct Hc as [-> _]. destruct (decide (p ∈ m_sleep m)) as [Hp|]; [|left; eauto]. right. pose proof (proj2 Hm p Hp) as Hsl. by rewrite Hpc in Hsl.
Qed.
End inv.

(** * One write: a disk that identifies itself, two processes, one write *)
Module OneWrite.
#[local] Instance regs : VirtioRegs unit := {
  vr_read r := ret (if r =? VIRTIO_MMIO_MAGIC_VALUE then 0x74726976 else if r =? VIRTIO_MMIO_VERSION then 1
    else if r =? VIRTIO_MMIO_DEVICE_ID then 2 else if r =? VIRTIO_MMIO_VENDOR_ID then 0x554d4551
    else if r =? VIRTIO_MMIO_QUEUE_NUM_MAX then 1024 else 0);
  vr_write _ _ := ret tt }.
#[local] Instance laws : VirtioLaws unit.
Proof. split; intros; by apply wp_ret. Qed.
Definition static : vdisk (H:=unit) :=
  VDisk [] 0 [] 0 [] [] 0 (replicate 8 (Info None 0)) (replicate 8 (Req 0 0 0)) false [VBuf false 5 []; VBuf false 6 []] tt [].
Definition state_of {A} (o : outcome (vdisk (H:=unit)) A) : vdisk := match o with Ok _ v => v | _ => static end.
Definition boot : vdisk := Eval vm_compute in state_of (virtio_disk_init 0x80010000 static).
Definition submitted : vdisk := Eval vm_compute in state_of (rw_submit 0 true boot).
Definition taken : machine := Machine (Sys submitted (Device 1 [0] []) [Wait 0 true 0; Idle]) {[0%nat]}.
Lemma taken_reach : vreach [] 2 taken.
Proof.
  exists boot. split.
  - exists 0x80010000, static. split; [|vm_compute; reflexivity]. split; [done..|].
    intros [|[|b]] vb E; [by injection E as <-|by injection E as <-|done].
  - apply (rtc_l _ _ (Machine (Sys boot (Device 0 [] []) [Want 0 true; Idle]) ∅)).
    { apply (v_call (Sys boot (Device 0 [] []) [Idle; Idle]) ∅ 0 0 true (VBuf false 5 [])); [done| |vm_compute; reflexivity|simpl; lia].
      intros c Hc. simpl in Hc. rewrite !elem_of_cons, elem_of_nil in Hc. destruct Hc as [->|[->|[]]]; by intros []. }
    apply (rtc_l _ _ (Machine (Sys submitted (Device 0 [] []) [Wait 0 true 0; Idle]) {[0%nat]})).
    { eapply eq_ind_r; [eapply (v_submit (Machine (Sys boot (Device 0 [] []) [Want 0 true; Idle]) ∅) _ 0 0 true (inr (0, false)) submitted); [done..|vm_compute; reflexivity]|].
      simpl. f_equal. }
    apply rtc_once, v_take. vm_compute. reflexivity.
Qed.
End OneWrite.
Lemma virtio_refines_witness : ∃ m, vreach (VR:=OneWrite.regs) [] 2 m ∧ y_pc (m_y m) = [Wait 0 true 0; Idle] ∧
  (∃ fin v', rw_again 0 0 (fresh m) = Ok fin v') ∧ is_Some (dev_do 0 (m_y m)).
Proof.
  exists OneWrite.taken. split; [apply OneWrite.taken_reach|]. split; [reflexivity|].
  destruct (virtio_refines (VL:=OneWrite.laws) [] 2 OneWrite.taken OneWrite.taken_reach) as (_ & _ & Ha & _ & Hd).
  split; [apply (Ha 0%nat 0%nat true 0); reflexivity|apply Hd; left].
Defined.
Lemma virtio_completes_witness : ∃ m m' v', vreach (VR:=OneWrite.regs) [] 2 m ∧ m_sleep m = {[0%nat]} ∧
  rtc (served (VR:=OneWrite.regs)) m m' ∧ 0%nat ∉ m_sleep m' ∧ rw_again 0 0 (fresh m') = Ok true v'.
Proof.
  destruct (virtio_completes (VL:=OneWrite.laws) [] 2 OneWrite.taken OneWrite.taken_reach) as [(m' & Hst & _ & Ha) _].
  destruct (Ha 0%nat 0%nat true 0 eq_refl) as [Hp [v' E]]. exists OneWrite.taken, m', v'. split; [apply OneWrite.taken_reach|].
  split; [reflexivity|]. split; [exact Hst|]. split; [exact Hp|exact E].
Defined.
