(* ===== verification/Umalloc.v ===== *)
(** user/umalloc.c: the allocator of user programs, over the bytes of the
    process's memory.  The kernel's part is the system call [sbrk], as
    [growproc] of kernel/proc.c implements it: [room] says whether there is
    memory to grow by. *)

From S2P Require Import Prelude Mem.

Record uheap := UHeap {
  u_mem : mem;
  u_freep : Z;      (* freep, 0 for the null pointer *)
  u_brk : Z;        (* the size of the process *)
}.
Definition set_u_mem x s := UHeap x (u_freep s) (u_brk s).
Definition set_freep x s := UHeap (u_mem s) x (u_brk s).
Definition set_brk x s := UHeap (u_mem s) (u_freep s) x.

(** [sizeof(Header)]; [ptr] is at offset 0 and [size] at offset 8. *)
Definition sizeof_Header : Z := 16.
Definition h_ptr (m : mem) (p : Z) : Z := load64 m p.
Definition h_size (m : mem) (p : Z) : Z := le_combine (load_bytes m (p + 8) 4).
Definition put_ptr (p x : Z) (s : uheap) : uheap := set_u_mem (store64 (u_mem s) p x) s.
Definition put_size (p x : Z) (s : uheap) : uheap := set_u_mem (store_bytes (u_mem s) (p + 8) (le_split 4 (u32 x))) s.

Section umalloc.
(** The address of [base], the memory the kernel has, and a bound on the number
    of blocks on the free list. *)
Context (base : Z) (room : Z → Z → bool) (fuel : nat).

Definition ptr (p : Z) : M uheap Z := gets (λ s, h_ptr (u_mem s) p).
Definition size (p : Z) : M uheap Z := gets (λ s, h_size (u_mem s) p).
Definition set_ptr (p x : Z) : M uheap unit := modify (put_ptr p x).
Definition set_size (p x : Z) : M uheap unit := modify (put_size p x).
(** [p + n] for a [Header *]. *)
Definition hdr_add (p n : Z) : Z := u64 (p + sizeof_Header * n).

(** [sbrk(n)] for an [int]; the old size comes back as an [int]. *)
Definition sbrk (n : Z) : M uheap Z :=
  let! brk := gets u_brk in
  if 0 <? n then
    if room brk n then
      do! modify (set_brk (brk + n));
      ret (u64 (s32 brk))
    else ret (u64 (-1))
  else
    do! modify (set_brk (Z.min brk (u32 (brk + n))));
    ret (u64 (s32 brk)).

(** The loop of [free] that looks for the place of [bp]. *)
Definition free_round (bp p : Z) : M uheap (Z + Z) :=
  let! q := ptr p in
  if (p <? bp) && (bp <? q) then ret (inr p)
  else if (q <=? p) && ((p <? bp) || (bp <? q)) then ret (inr p)
  else ret (inl q).
Definition free (ap : Z) : M uheap unit :=
  let bp := u64 (ap - sizeof_Header) in
  let! freep := gets u_freep in
  let! p := loop fuel (free_round bp) freep in
  let! q := ptr p in
  let! n := size bp in
  do! (if hdr_add bp n =? q then
         let! k := size q in
         do! set_size bp (n + k);
         let! q' := ptr q in
         set_ptr bp q'
       else set_ptr bp q);
  let! k := size p in
  do! (if hdr_add p k =? bp then
         let! n := size bp in
         do! set_size p (k + n);
         let! q := ptr bp in
         set_ptr p q
       else set_ptr p bp);
  modify (set_freep p).

Definition morecore (nu : Z) : M uheap Z :=
  let nu := if nu <? 4096 then 4096 else nu in
  let! p := sbrk (s32 (nu * sizeof_Header)) in
  if p =? u64 (-1) then ret 0
  else
    do! set_size p nu;
    do! free (hdr_add p 1);
    gets u_freep.

Definition nunits (nbytes : Z) : Z := u32 ((nbytes + sizeof_Header - 1) / sizeof_Header + 1).
(** One round of the loop of [malloc]. *)
Definition malloc_round (nunits : Z) '((prevp, p) : Z * Z) : M uheap (Z * Z + Z) :=
  let! k := size p in
  if nunits <=? k then
    let! p :=
      (if k =? nunits then
         let! q := ptr p in
         do! set_ptr prevp q;
         ret p
       else
         do! set_size p (k - nunits);
         let! k := size p in
         let p := hdr_add p k in
         do! set_size p nunits;
         ret p) in
    do! modify (set_freep prevp);
    ret (inr (hdr_add p 1))
  else
    let! freep := gets u_freep in
    if p =? freep then
      let! p := morecore nunits in
      if p =? 0 then ret (inr 0)
      else
        let! q := ptr p in
        ret (inl (p, q))
    else
      let! q := ptr p in
      ret (inl (p, q)).
Definition malloc (nbytes : Z) : M uheap Z :=
  let nunits := nunits nbytes in
  let! freep := gets u_freep in
  let! prevp :=
    (if freep =? 0 then
       do! set_ptr base base;
       do! modify (set_freep base);
       do! set_size base 0;
       ret base
     else ret freep) in
  let! p := ptr prevp in
  loop fuel (malloc_round nunits) (prevp, p).
End umalloc.
