(* ===== verification/UmallocSpec.v ===== *)
(** user/umalloc.c: what [malloc] and [free] promise to the program.  The free
    list is a ring of blocks in the order of their addresses that begins with
    [base], no two of them adjacent; the blocks of the program and those of
    the ring make up the heap. *)

From stdpp Require Import sorting.
From S2P Require Import Prelude Mem Umalloc.

(** * Headers *)


(** A block is its address and its size in headers. *)
Abbreviation block := (Z * Z)%type.
Definition apart (p q : Z) : Prop := p + 16 ≤ q ∨ q + 16 ≤ p.

Section headers.
Implicit Types s : uheap.

Lemma ptr_put_ptr_eq p x s : fits 64 x → h_ptr (u_mem (put_ptr p x s)) p = x.
Proof. apply load64_store64_eq. Qed.
Lemma ptr_put_ptr_ne p x s q : apart p q → h_ptr (u_mem (put_ptr p x s)) q = h_ptr (u_mem s) q.
Proof. intros H. apply load64_store64_ne. unfold apart in H. lia. Qed.
Lemma size_put_ptr p x s q : p = q ∨ apart p q → h_size (u_mem (put_ptr p x s)) q = h_size (u_mem s) q.
Proof.
  intros H. unfold h_size. f_equal. apply load_store_bytes_out. rewrite length_le_split. unfold apart in H. lia.
Qed.
Lemma size_put_size_eq p x s : fits 32 x → h_size (u_mem (put_size p x s)) p = x.
Proof.
  intros H. unfold h_size, put_size, set_u_mem. cbn [u_mem].
  pose proof (load_store_bytes (u_mem s) (p + 8) (le_split 4 (u32 x)) ltac:(auto with kernel)) as E.
  rewrite length_le_split in E. rewrite E, le_combine_split, u32_id by done. by apply Z.mod_small.
Qed.
Lemma size_put_size_ne p x s q : apart p q → h_size (u_mem (put_size p x s)) q = h_size (u_mem s) q.
Proof.
  intros H. unfold h_size. f_equal. apply load_store_bytes_out. rewrite length_le_split. unfold apart in H. lia.
Qed.
Lemma ptr_put_size p x s q : p = q ∨ apart p q → h_ptr (u_mem (put_size p x s)) q = h_ptr (u_mem s) q.
Proof.
  intros H. unfold h_ptr, load64. f_equal. apply load_store_bytes_out. rewrite length_le_split. unfold apart in H. lia.
Qed.
(** A header is 16 bytes. *)
Lemma put_ptr_same p x s : same_on (λ a, ¬ range p 16 a) (u_mem s) (u_mem (put_ptr p x s)).
Proof. intros a Ha. apply store64_same. unfold range in *. lia. Qed.
Lemma put_size_same p x s : same_on (λ a, ¬ range p 16 a) (u_mem s) (u_mem (put_size p x s)).
Proof. intros a Ha. apply load8_store_bytes_out. rewrite length_le_split. unfold range in *. lia. Qed.
End headers.

(** * The ring *)

Definition hd_addr (l : list block) (z : Z) : Z := match l with [] => z | b :: _ => b.1 end.
Fixpoint links (m : mem) (l : list block) (z : Z) : Prop :=
  match l with
  | [] => True
  | (a, n) :: l' => h_size m a = n ∧ h_ptr m a = hd_addr l' z ∧ links m l' z
  end.
(** The bytes from the header of [a] to its end, which for [base] is the header. *)
Definition before (a b : block) : Prop := a.1 + 16 * Z.max 1 a.2 ≤ b.1 ∧ a.1 + 16 * a.2 < b.1.
Definition nx (l : list block) (i : nat) : nat := if decide (S i < length l)%nat then S i else 0%nat.

Lemma hd_addr_app l1 l2 z : hd_addr (l1 ++ l2) z = hd_addr l1 (hd_addr l2 z).
Proof. by destruct l1. Qed.
Lemma links_app m l1 l2 z : links m (l1 ++ l2) z ↔ links m l1 (hd_addr l2 z) ∧ links m l2 z.
Proof.
  induction l1 as [|[a n] l1 IH]; simpl; [tauto|]. rewrite IH, hd_addr_app. tauto.
Qed.
Lemma links_frame m m' l z : links m l z →
  (∀ b, b ∈ l → h_ptr m' b.1 = h_ptr m b.1 ∧ h_size m' b.1 = h_size m b.1) → links m' l z.
Proof.
  induction l as [|[a n] l IH]; [done|]. intros (H1 & H2 & H3) Hb. destruct (Hb (a, n)) as [E1 E2]; [by left|].
  simpl in *. rewrite E1, E2. split_and!; [done|done|]. apply IH; [done|]. intros b Hin. apply Hb. by right.
Qed.
Lemma links_lookup m l i a n z : links m l z → l !! i = Some (a, n) →
  h_size m a = n ∧ h_ptr m a = hd_addr (drop (S i) l) z.
Proof.
  intros Hl Hi. rewrite <- (take_drop_middle _ _ _ Hi) in Hl. apply links_app in Hl as [_ (H1 & H2 & _)]. done.
Qed.
Lemma links_next m l i a n : links m l (hd_addr l 0) → l !! i = Some (a, n) →
  h_size m a = n ∧ ∃ b, l !! nx l i = Some b ∧ h_ptr m a = b.1.
Proof.
  intros Hl Hi. destruct (links_lookup _ _ _ _ _ _ Hl Hi) as [H1 H2]. split; [done|]. rewrite H2. unfold nx. case_decide as E.
  - destruct (lookup_lt_is_Some_2 _ _ E) as [b Hb]. exists b. split; [done|]. by rewrite (drop_S _ _ _ Hb).
  - rewrite drop_ge by lia. destruct l as [|b l]; [done|]. by exists b.
Qed.

(** Only the header at [p] has changed. *)
Record touched (p : Z) (s s' : uheap) : Prop := {
  to_freep : u_freep s' = u_freep s;
  to_brk : u_brk s' = u_brk s;
  to_same : same_on (λ a, ¬ range p 16 a) (u_mem s) (u_mem s');
}.
Lemma touched_put_ptr p x s : touched p s (put_ptr p x s).
Proof. split; [done|done|apply put_ptr_same]. Qed.
Lemma touched_put_size p x s : touched p s (put_size p x s).
Proof. split; [done|done|apply put_size_same]. Qed.
Lemma touched_trans p s s1 s2 : touched p s s1 → touched p s1 s2 → touched p s s2.
Proof. intros [] []. split; [congruence|congruence|]. intros a Ha. by rewrite to_same1, to_same0. Qed.
Lemma touched_header p s s' q : touched p s s' → apart p q →
  h_ptr (u_mem s') q = h_ptr (u_mem s) q ∧ h_size (u_mem s') q = h_size (u_mem s) q.
Proof.
  intros [_ _ Hs] Hq. unfold apart in Hq. split.
  - apply load64_ext. eapply same_on_weaken; [done|]. unfold range. intros a Ha. lia.
  - unfold h_size. f_equal. apply load_bytes_ext. eapply same_on_weaken; [done|]. unfold range. intros a Ha. lia.
Qed.
Lemma links_touched p s s' l z : touched p s s' → links (u_mem s) l z → (∀ b, b ∈ l → apart p b.1) → links (u_mem s') l z.
Proof. intros Ht Hl Hb. eapply links_frame; [done|]. intros b Hin. by eapply touched_header, Hb. Qed.

(** The extents of two blocks do not meet. *)
Definition off (b c : block) : Prop := b.1 + 16 * Z.max 1 b.2 ≤ c.1 ∨ c.1 + 16 * Z.max 1 c.2 ≤ b.1.
Lemma off_apart b c : off b c → apart b.1 c.1.
Proof. unfold off, apart. lia. Qed.
Lemma off_sym b c : off b c → off c b.
Proof. unfold off. lia. Qed.
Lemma before_off b c : before b c → off b c.
Proof. intros [H _]. by left. Qed.

(** Freeing [b] between [p] and the blocks [l2] above it. *)
Definition join_next (b : block) (l2 : list block) : list block :=
  match l2 with
  | (q, k) :: l2' => if b.1 + 16 * b.2 =? q then (b.1, b.2 + k) :: l2' else b :: l2
  | [] => [b]
  end.
Definition join_prev (p : block) (l : list block) : list block :=
  match l with
  | b :: l' => if p.1 + 16 * p.2 =? b.1 then (p.1, p.2 + b.2) :: l' else p :: l
  | [] => [p]
  end.

(** The bytes of the blocks. *)
Definition covers (l : list block) (x : Z) : Prop := ∃ b, b ∈ l ∧ range b.1 (16 * b.2) x.
Lemma covers_app l1 l2 x : covers (l1 ++ l2) x ↔ covers l1 x ∨ covers l2 x.
Proof. unfold covers. setoid_rewrite elem_of_app. naive_solver. Qed.
Lemma covers_cons b l x : covers (b :: l) x ↔ range b.1 (16 * b.2) x ∨ covers l x.
Proof. unfold covers. setoid_rewrite elem_of_cons. naive_solver. Qed.
Lemma covers_nil x : covers [] x ↔ False.
Proof. unfold covers. setoid_rewrite elem_of_nil. naive_solver. Qed.
Lemma join_next_covers b l x : 0 ≤ b.2 → (∀ c, c ∈ l → 0 ≤ c.2) →
  covers (join_next b l) x ↔ range b.1 (16 * b.2) x ∨ covers l x.
Proof.
  intros Hb Hl. destruct l as [|[q k] l]; simpl; [by rewrite covers_cons|].
  assert (0 ≤ k) by (apply (Hl (q, k)); by left).
  case_cmp; rewrite !covers_cons; simpl; unfold range; [|done]. split; [|intros [?|[?|?]]; [left; lia|left; lia|by right]].
  intros [?|?]; [|auto]. destruct (decide (x < q)); [left|right; left]; lia.
Qed.
Lemma join_prev_covers p l x : 0 ≤ p.2 → (∀ c, c ∈ l → 0 ≤ c.2) →
  covers (join_prev p l) x ↔ range p.1 (16 * p.2) x ∨ covers l x.
Proof.
  intros Hb Hl. destruct l as [|[q k] l]; simpl; [by rewrite covers_cons|].
  assert (0 ≤ k) by (apply (Hl (q, k)); by left).
  case_cmp; rewrite !covers_cons; simpl; unfold range; [|done]. split; [|intros [?|[?|?]]; [left; lia|left; lia|by right]].
  intros [?|?]; [|auto]. destruct (decide (x < q)); [left|right; left]; lia.
Qed.

Lemma join_next_sorted b l : 1 ≤ b.2 → (∀ c, c ∈ l → 1 ≤ c.2 ∧ b.1 + 16 * b.2 ≤ c.1) →
  StronglySorted before l → StronglySorted before (join_next b l).
Proof.
  intros Hb Hl Hs. destruct l as [|[q k] l]; simpl; [by repeat constructor|].
  destruct (Hl (q, k) ltac:(by left)) as [Hk Hq]. simpl in *. apply StronglySorted_inv in Hs as [Hs Hf].
  rewrite Forall_forall in Hf. case_cmp.
  - constructor; [done|]. apply Forall_forall. intros c Hc. pose proof (Hf c Hc) as []. unfold before. simpl in *. lia.
  - constructor; [by constructor; [|by apply Forall_forall]|]. apply Forall_forall. intros c Hc.
    apply elem_of_cons in Hc as [->|Hc]; unfold before; simpl; [lia|]. pose proof (Hf c Hc) as []. simpl in *. lia.
Qed.
Lemma join_prev_sorted p l : 0 ≤ p.2 → (∀ c, c ∈ l → 1 ≤ c.2 ∧ p.1 + 16 * Z.max 1 p.2 ≤ c.1) →
  StronglySorted before l → StronglySorted before (join_prev p l).
Proof.
  intros Hb Hl Hs. destruct l as [|[q k] l]; simpl; [by repeat constructor|].
  destruct (Hl (q, k) ltac:(by left)) as [Hk Hq]. simpl in *. apply StronglySorted_inv in Hs as [Hs Hf].
  rewrite Forall_forall in Hf. case_cmp.
  - constructor; [done|]. apply Forall_forall. intros c Hc. pose proof (Hf c Hc) as []. unfold before. simpl in *. lia.
  - constructor; [by constructor; [|by apply Forall_forall]|]. apply Forall_forall. intros c Hc.
    apply elem_of_cons in Hc as [->|Hc]; unfold before; simpl; [lia|]. pose proof (Hf c Hc) as []. simpl in *. lia.
Qed.

Lemma sorted_lookup l i j b c : StronglySorted before l → l !! i = Some b → l !! j = Some c → (i < j)%nat → before b c.
Proof.
  intros Hs Hi Hj Hlt. rewrite <- (take_drop_middle _ _ _ Hi) in Hs. apply StronglySorted_app_1_r in Hs.
  apply StronglySorted_inv in Hs as [_ Hf]. rewrite Forall_forall in Hf. apply Hf.
  apply list_elem_of_lookup. exists (j - S i)%nat. rewrite lookup_drop. rewrite <- Hj. f_equal. lia.
Qed.

(** * Freeing a block *)

Section umalloc.
Context (base : Z) (fuel : nat) (limit : Z).
(** The memory of the process ends at [limit]; the fuel covers every block that
    fits into it. *)
Hypothesis Hbase : 0 < base.
Hypothesis Hlimit : limit < 2 ^ 31.
Hypothesis Hfuel : limit / 8 + 4 ≤ Z.of_nat fuel.
Implicit Types s : uheap.

Record free_ring s (l : list block) : Prop := {
  fr_base : ∃ bs, l = (base, 0) :: bs ∧ ∀ b, b ∈ bs → 1 ≤ b.2;
  fr_sorted : StronglySorted before l;
  fr_links : links (u_mem s) l base;
  fr_freep : u_freep s ∈ l.*1;
  fr_bound : ∀ b, b ∈ l → b.1 + 16 * Z.max 1 b.2 ≤ limit;
}.

Lemma sorted_length l a : StronglySorted before l → (∀ b, b ∈ l → a ≤ b.1 ∧ b.1 + 16 * Z.max 1 b.2 ≤ limit) →
  l ≠ [] → a + 16 * Z.of_nat (length l) ≤ limit.
Proof.
  intros Hs. revert a. induction Hs as [|b l Hs IH Hf]; intros a Hb Hne; [done|]. clear Hne. simpl length.
  rewrite Forall_forall in Hf. destruct (Hb b ltac:(by left)) as [Ha He]. destruct l as [|c l]; [simpl; lia|].
  assert (b.1 + 16 + 16 * Z.of_nat (length (c :: l)) ≤ limit); [|lia]. apply IH; [|done]. intros d Hd.
  destruct (Hf d Hd). destruct (Hb d); [by right|]. lia.
Qed.
Lemma ring_length s l : free_ring s l → (length l ≤ Z.to_nat (limit / 16))%nat.
Proof using All.
  intros [(bs & -> & Hbs) Hs Hl Hf Hb]. assert (base + 16 * Z.of_nat (length ((base, 0) :: bs)) ≤ limit).
  { apply sorted_length; [done| |done]. intros b Hin. split; [|by apply Hb]. apply elem_of_cons in Hin as [->|Hin]; [done|].
    apply StronglySorted_inv in Hs as [_ Hs]. rewrite Forall_forall in Hs. destruct (Hs b Hin). simpl in *. lia. }
  dlia.
Qed.
Lemma ring_fuel s l : free_ring s l → (2 * Z.to_nat (limit / 16) + 3 < fuel)%nat.
Proof using All.
  intros [(bs & -> & _) _ _ _ Hb]. pose proof (Hb (base, 0) ltac:(by left)) as H. simpl in H. dlia.
Qed.
Lemma ring_above s l b : free_ring s l → b ∈ l → base ≤ b.1 ∧ 0 ≤ b.2 ∧ (b.1 = base → b = (base, 0)) ∧ (b.1 ≠ base → 1 ≤ b.2).
Proof.
  intros [(bs & -> & Hbs) Hs _ _ _] Hin. apply StronglySorted_inv in Hs as [_ Hs]. rewrite Forall_forall in Hs.
  apply elem_of_cons in Hin as [->|Hin]; [simpl; split_and!; [lia|lia|done|done]|]. pose proof (Hbs b Hin). destruct (Hs b Hin). simpl in *.
  split_and!; lia.
Qed.
Lemma ring_order s l i j b c : free_ring s l → l !! i = Some b → l !! j = Some c → (i < j)%nat → before b c.
Proof. intros Hr Hi Hj Hlt. eapply sorted_lookup; [apply (fr_sorted _ _ Hr)|done..]. Qed.
Lemma ring_inj s l i j b c : free_ring s l → l !! i = Some b → l !! j = Some c → b.1 = c.1 → i = j.
Proof.
  intros Hr Hi Hj E. assert (0 ≤ b.2 ∧ 0 ≤ c.2) by (split; eapply ring_above; try done; by eapply list_elem_of_lookup_2).
  destruct (lt_eq_lt_dec i j) as [[L| ->]|L]; [|done|].
  - destruct (ring_order _ _ _ _ _ _ Hr Hi Hj L). lia.
  - destruct (ring_order _ _ _ _ _ _ Hr Hj Hi L). lia.
Qed.
Lemma ring_next s l i b : free_ring s l → l !! i = Some b →
  h_size (u_mem s) b.1 = b.2 ∧ ∃ c, l !! nx l i = Some c ∧ h_ptr (u_mem s) b.1 = c.1.
Proof.
  intros Hr Hi. destruct b as [a n]. apply links_next; [|done]. destruct (fr_base _ _ Hr) as (bs & -> & _). apply (fr_links _ _ Hr).
Qed.

(** The place of [bp]: behind the last block below it. *)
Lemma ring_place s l bp : free_ring s l → base < bp → (∀ b, b ∈ l → b.1 ≠ bp) →
  ∃ l1 p l2, l = l1 ++ p :: l2 ∧ p.1 < bp ∧ (∀ c, c ∈ l2 → bp < c.1).
Proof.
  intros Hr Hlt Hne. pose proof (fr_sorted _ _ Hr) as Hs. destruct (fr_base _ _ Hr) as (bs & -> & _).
  set (a := (base, 0)) in *. assert (a.1 < bp) as Ha by done. clearbody a. clear Hr Hlt. revert a Ha Hs Hne.
  induction bs as [|c bs IH]; intros a Ha Hs Hne.
  - exists [], a, []. split_and!; [done|done|]. by intros c ?%elem_of_nil.
  - apply StronglySorted_inv in Hs as [Hs Hf]. destruct (decide (c.1 < bp)) as [Hc|Hc].
    + destruct (IH c Hc Hs) as (l1 & p & l2 & E & Hp & H2); [intros b Hb; apply Hne; by right|].
      exists (a :: l1), p, l2. by rewrite E.
    + exists [], a, (c :: bs). split_and!; [done|done|]. assert (bp < c.1).
      { pose proof (Hne c ltac:(right; by left)). lia. }
      intros d Hd. apply elem_of_cons in Hd as [->|Hd]; [done|]. apply StronglySorted_inv in Hs as [_ Hs].
      rewrite Forall_forall in Hs. destruct (Hs d Hd). lia.
Qed.

(** The blocks above an address. *)
Lemma ring_upper s l b a : free_ring s l → b ∈ l → base < a → a ≤ b.1 → 1 ≤ b.2 ∧ a ≤ b.1 ∧ b.1 + 16 * b.2 ≤ limit.
Proof.
  intros Hr Hin Ha Hb. pose proof (fr_bound _ _ Hr b Hin). destruct (ring_above _ _ b Hr Hin) as (_ & _ & _ & Hne).
  assert (1 ≤ b.2) by (apply Hne; lia). lia.
Qed.

(** Steps along the ring from [i] to [k]. *)
Definition dist (n i k : nat) : nat := if decide (i ≤ k)%nat then (k - i)%nat else (n - i + k)%nat.
Lemma dist_next l i k : (i < length l)%nat → (k < length l)%nat → i ≠ k →
  (nx l i < length l)%nat ∧ (dist (length l) (nx l i) k < dist (length l) i k)%nat.
Proof. intros. unfold nx, dist. repeat case_decide; lia. Qed.

Lemma free_find s l1 p l2 bp : free_ring s (l1 ++ p :: l2) → p.1 < bp → (∀ c, c ∈ l2 → bp < c.1) →
  wp (loop fuel (free_round bp) (u_freep s)) (λ r s', r = p.1 ∧ s' = s) s.
Proof using All.
  intros Hr Hp H2. set (l := l1 ++ p :: l2) in *. pose proof (ring_length _ _ Hr). pose proof (ring_fuel _ _ Hr).
  assert (l !! length l1 = Some p) as Hk by (unfold l; by rewrite list_lookup_middle).
  assert (length l1 < length l)%nat as Hkl by (by eapply lookup_lt_Some).
  apply (wp_loop _ (λ x s', s' = s ∧ ∃ i b, l !! i = Some b ∧ x = b.1)
    (λ x _, match list_find (λ b : block, b.1 = x) l with Some (i, _) => dist (length l) i (length l1) | None => 0%nat end)).
  - assert (∀ i b, l !! i = Some b → list_find (λ c : block, c.1 = b.1) l = Some (i, b)) as Hfind.
    { intros i b Hi. apply list_find_Some. split_and!; [done|done|]. intros j c Hj Hlt E.
      destruct (ring_order _ _ _ _ _ _ Hr Hj Hi Hlt). destruct (ring_above _ _ c Hr) as (? & ? & _); [by eapply list_elem_of_lookup_2|]. lia. }
    intros x s' (-> & i & b & Hi & ->). rewrite (Hfind i b Hi). unfold free_round. apply wp_bind, wp_gets.
    destruct (ring_next _ _ _ _ Hr Hi) as [_ (c & Hc & ->)]. pose proof (lookup_lt_Some _ _ _ Hi) as Hil.
    destruct (decide (i = length l1)) as [->|Hne].
    + rewrite Hk in Hi. injection Hi as <-. unfold nx in Hc. case_decide as E.
      * assert (c ∈ l2) as Hin.
        { apply list_elem_of_lookup. exists 0%nat. unfold l in Hc. rewrite lookup_app_r in Hc by lia.
          by replace (S (length l1) - length l1)%nat with 1%nat in Hc by lia. }
        pose proof (H2 c Hin). by rewrite (proj2 (Z.ltb_lt _ _) Hp), (proj2 (Z.ltb_lt bp c.1)) by lia.
      * destruct (fr_base _ _ Hr) as (bs & El & _). rewrite El in Hc. injection Hc as <-. simpl.
        destruct (ring_above _ _ p Hr) as [Hge _]; [by eapply list_elem_of_lookup_2|].
        destruct (_ && _); [by apply wp_ret|]. rewrite (proj2 (Z.leb_le base p.1)), (proj2 (Z.ltb_lt _ _) Hp) by lia. by apply wp_ret.
    + assert ((p.1 < bp ∧ (i < length l1)%nat ∧ b.1 < c.1 ≤ p.1) ∨ (bp < b.1 ∧ (b.1 < c.1 ∨ c.1 = base))) as Hcase.
      { destruct (decide (i < length l1)%nat) as [Hlt|Hge]; [left|right].
        - unfold nx in Hc. rewrite decide_True in Hc by lia. split_and!; [done|done| |].
          + destruct (ring_order _ _ _ _ _ _ Hr Hi Hc); [lia|]. destruct (ring_above _ _ b Hr) as (_ & ? & _); [by eapply list_elem_of_lookup_2|]. lia.
          + destruct (decide (S i = length l1)) as [E|E]; [rewrite E, Hk in Hc; injection Hc as <-; lia|].
            destruct (ring_order _ _ _ _ _ _ Hr Hc Hk); [lia|]. destruct (ring_above _ _ c Hr) as (_ & ? & _); [by eapply list_elem_of_lookup_2|]. lia.
        - split.
          + apply H2. apply list_elem_of_lookup. exists (i - S (length l1))%nat. unfold l in Hi.
            rewrite lookup_app_r in Hi by lia. rewrite lookup_cons_ne_0 in Hi by lia. rewrite <- Hi. f_equal. lia.
          + unfold nx in Hc. case_decide.
            * left. destruct (ring_order _ _ _ _ _ _ Hr Hi Hc); [lia|]. destruct (ring_above _ _ b Hr) as (_ & ? & _); [by eapply list_elem_of_lookup_2|]. lia.
            * right. destruct (fr_base _ _ Hr) as (bs & El & _). rewrite El in Hc. by injection Hc as <-. }
      destruct (ring_above _ _ b Hr) as [Hgb _]; [by eapply list_elem_of_lookup_2|].
      assert (base ≤ p.1) by (apply (ring_above s l p Hr); by eapply list_elem_of_lookup_2).
      replace (_ && _) with false by (symmetry; apply andb_false_iff; rewrite !Z.ltb_ge; lia).
      replace (_ && _) with false by (symmetry; rewrite andb_false_iff, orb_false_iff, Z.leb_gt, !Z.ltb_ge; lia).
      apply wp_ret. split; [split; [done|]; by exists (nx l i), c|]. rewrite (Hfind _ _ Hc). by apply dist_next.
  - split; [done|]. pose proof (fr_freep _ _ Hr) as Hf. apply list_elem_of_fmap in Hf as (b & -> & Hb).
    apply list_elem_of_lookup in Hb as [i Hi]. by exists i, b.
  - destruct (list_find _ _) as [[i b]|] eqn:E; [|lia]. apply list_find_Some in E as (Hi & _ & _).
    apply lookup_lt_Some in Hi. unfold dist. case_decide; lia.
Qed.

Lemma hdr_add_eq p n : 0 ≤ p → 0 ≤ n → p + 16 * n ≤ limit → hdr_add p n = p + 16 * n.
Proof using All. intros. unfold hdr_add, sizeof_Header. apply u64_id. unfold fits. lia. Qed.

(** The block [bp], before the blocks [l2], which may be adjacent. *)
Lemma join_next_run s l2 bp n :
  h_size (u_mem s) bp = n → links (u_mem s) l2 base → base < bp → 1 ≤ n → bp + 16 * n ≤ limit →
  (∀ c, c ∈ l2 → 1 ≤ c.2 ∧ bp + 16 * n ≤ c.1 ∧ c.1 + 16 * c.2 ≤ limit) → StronglySorted before l2 →
  wp (if hdr_add bp n =? hd_addr l2 base then
        let! k := size (hd_addr l2 base) in
        do! set_size bp (n + k);
        let! q' := ptr (hd_addr l2 base) in
        set_ptr bp q'
      else set_ptr bp (hd_addr l2 base)) (λ _ s',
    touched bp s s' ∧ links (u_mem s') (join_next (bp, n) l2) base) s.
Proof using All.
  intros Hn Hl Hb H1 Hend H2 Hs. rewrite hdr_add_eq by lia. destruct l2 as [|[q k] l2]; simpl hd_addr.
  - rewrite (proj2 (Z.eqb_neq _ _)) by lia. apply wp_modify. split; [apply touched_put_ptr|]. cbn [links hd_addr]. split_and!; [|apply ptr_put_ptr_eq; unfold fits; simpl; lia|done].
    rewrite <- Hn. apply size_put_ptr. by left.
  - destruct (H2 (q, k) ltac:(by left)) as (Hk & Hq & Hqe). simpl in Hk, Hq, Hqe. destruct Hl as (Lk & Lq & Ll).
    apply StronglySorted_inv in Hs as [Hs Hf]. rewrite Forall_forall in Hf.
    assert (∀ c, c ∈ l2 → apart bp c.1) as Hap.
    { intros c Hc. destruct (H2 c ltac:(by right)). left. lia. }
    assert (fits 64 (hd_addr l2 base)) as Hhd.
    { destruct l2 as [|c l2]; simpl; [unfold fits; lia|]. destruct (H2 c ltac:(right; by left)). unfold fits. lia. }
    simpl join_next. case_cmp.
    + apply wp_bind, wp_gets, wp_bind, wp_modify, wp_bind, wp_gets, wp_modify. rewrite Lk.
      rewrite (ptr_put_size _ _ _ q) by (right; left; lia). rewrite Lq.
      assert (touched bp s (put_ptr bp (hd_addr l2 base) (put_size bp (n + k) s))) as Ht.
      { eapply touched_trans; [apply touched_put_size|apply touched_put_ptr]. }
      split; [done|]. cbn [links hd_addr]. split_and!; [|by apply ptr_put_ptr_eq|by eapply links_touched].
      rewrite size_put_ptr by (by left). apply size_put_size_eq. unfold fits. lia.
    + apply wp_modify. split; [apply touched_put_ptr|]. cbn [links hd_addr].
      assert (apart bp q) by (left; lia). pose proof (touched_put_ptr bp q s) as Ht.
      destruct (touched_header _ _ _ _ Ht ltac:(done)) as [E1 E2].
      split_and!; [rewrite <- Hn; apply size_put_ptr; by left|apply ptr_put_ptr_eq; unfold fits; simpl; lia|by rewrite E2|by rewrite E1|by eapply links_touched].
Qed.

(** The block below, which may be adjacent. *)
Lemma join_prev_run s l1 p np bp n t :
  links (u_mem s) l1 p → h_size (u_mem s) p = np → links (u_mem s) ((bp, n) :: t) base →
  base ≤ p → 0 ≤ np → 1 ≤ n → p + 16 * Z.max 1 np ≤ bp → bp + 16 * n ≤ limit →
  (∀ c, c ∈ l1 → apart p c.1) → (∀ c, c ∈ t → bp + 16 * n ≤ c.1 ∧ c.1 ≤ limit) →
  wp (if hdr_add p np =? bp then
        let! n := size bp in
        do! set_size p (np + n);
        let! q := ptr bp in
        set_ptr p q
      else set_ptr p bp) (λ _ s',
    touched p s s' ∧ links (u_mem s') (l1 ++ join_prev (p, np) ((bp, n) :: t)) base) s.
Proof using All.
  intros L1 Hnp L2 Hp H0 H1 Hpb Hend A1 A2. rewrite hdr_add_eq by lia. pose proof L2 as (Sn & Pq & Lt).
  assert (∀ c, c ∈ (bp, n) :: t → apart p c.1) as At.
  { intros c Hc. left. apply elem_of_cons in Hc as [->|Hc]; simpl; [lia|]. destruct (A2 c Hc). lia. }
  assert (fits 64 (hd_addr t base)) as Hhd.
  { destruct t as [|c t]; simpl; [unfold fits; lia|]. destruct (A2 c ltac:(by left)). unfold fits. lia. }
  simpl join_prev. case_cmp.
  - apply wp_bind, wp_gets, wp_bind, wp_modify, wp_bind, wp_gets, wp_modify. rewrite Sn.
    rewrite (ptr_put_size _ _ _ bp) by (right; left; lia). rewrite Pq.
    assert (touched p s (put_ptr p (hd_addr t base) (put_size p (np + n) s))) as Ht.
    { eapply touched_trans; [apply touched_put_size|apply touched_put_ptr]. }
    split; [done|]. apply links_app. split; [by eapply links_touched|]. cbn [links hd_addr fst]. split_and!.
    + rewrite size_put_ptr by (by left). apply size_put_size_eq. unfold fits. lia.
    + by apply ptr_put_ptr_eq.
    + eapply links_touched; [done|done|]. intros c Hc. apply At. by right.
  - apply wp_modify. pose proof (touched_put_ptr p bp s) as Ht. split; [done|]. apply links_app.
    split; [by eapply links_touched|]. pose proof (links_touched _ _ _ _ _ Ht L2 At) as L2'. cbn [links hd_addr fst] in *. split_and!; [| |apply L2'..].
    + rewrite size_put_ptr by (by left). done.
    + apply ptr_put_ptr_eq. unfold fits. lia.
Qed.

Lemma join_next_form bp n l2 : 1 ≤ n → bp + 16 * n ≤ limit →
  (∀ c, c ∈ l2 → 1 ≤ c.2 ∧ bp + 16 * n ≤ c.1 ∧ c.1 + 16 * c.2 ≤ limit) → StronglySorted before l2 →
  ∃ n' t, join_next (bp, n) l2 = (bp, n') :: t ∧ n ≤ n' ∧ bp + 16 * n' ≤ limit ∧
    ∀ c, c ∈ t → c ∈ l2 ∧ 1 ≤ c.2 ∧ bp + 16 * n' ≤ c.1.
Proof.
  intros Hn He H2 Hs. destruct l2 as [|[q k] l2]; simpl.
  - exists n, []. split_and!; [done|lia|done|]. by intros c ?%elem_of_nil.
  - destruct (H2 (q, k) ltac:(by left)) as (Hk & Hq & Hqe). simpl in *. apply StronglySorted_inv in Hs as [_ Hf].
    rewrite Forall_forall in Hf. case_cmp.
    + exists (n + k), l2. split_and!; [done|lia|lia|]. intros c Hc. destruct (Hf c Hc). simpl in *.
      split_and!; [by right|apply H2; by right|lia].
    + exists n, ((q, k) :: l2). split_and!; [done|lia|lia|]. intros c Hc. split_and!; [done|by apply H2|by apply H2].
Qed.
(** The ring with the block in its place. *)
Lemma join_ring s s' l1 p l2 bp n :
  free_ring s (l1 ++ p :: l2) → base < bp → 1 ≤ n → bp + 16 * n ≤ limit →
  p.1 + 16 * Z.max 1 p.2 ≤ bp → (∀ c, c ∈ l2 → bp + 16 * n ≤ c.1) →
  links (u_mem s') (l1 ++ join_prev p (join_next (bp, n) l2)) base → u_freep s' = p.1 →
  free_ring s' (l1 ++ join_prev p (join_next (bp, n) l2)) ∧
  (∃ b, b ∈ l1 ++ join_prev p (join_next (bp, n) l2) ∧ n ≤ b.2).
Proof using All.
  intros Hr Hb Hn He Hp H2 Hl Hf. assert (∀ c, c ∈ l2 → 1 ≤ c.2 ∧ bp + 16 * n ≤ c.1 ∧ c.1 + 16 * c.2 ≤ limit) as H2'.
  { intros c Hc. eapply ring_upper; [done|set_solver|lia|by apply H2]. }
  destruct (ring_above _ _ p Hr) as (Hp0 & Hp1 & Hp2 & _); [set_solver|].
  pose proof (fr_sorted _ _ Hr) as Hs. apply StronglySorted_app in Hs as (Hx & Hs1 & Hs2).
  apply StronglySorted_inv in Hs2 as [Hs2 Hs3]. rewrite Forall_forall in Hs3.
  pose proof (join_next_sorted (bp, n) l2 Hn ltac:(intros c Hc; destruct (H2' c Hc); auto) Hs2) as Hs4.
  destruct (join_next_form bp n l2) as (n' & t & E & Hn' & He' & Ht); [done..|]. rewrite E in *.
  pose proof (join_prev_sorted p ((bp, n') :: t) Hp1) as Hs5.
  assert (∀ c, c ∈ (bp, n') :: t → 1 ≤ c.2 ∧ p.1 + 16 * Z.max 1 p.2 ≤ c.1) as Hc1.
  { intros c Hc. apply elem_of_cons in Hc as [->|Hc]; simpl; [lia|]. destruct (Ht c Hc) as (_ & ? & ?). lia. }
  specialize (Hs5 Hc1 Hs4).
  assert (∀ c, c ∈ join_prev p ((bp, n') :: t) → p.1 ≤ c.1 ∧ (p.1 ≠ base ∨ c ≠ p → 1 ≤ c.2) ∧ c.1 + 16 * Z.max 1 c.2 ≤ limit) as Hj.
  { intros c Hc. simpl in Hc. pose proof (fr_bound _ _ Hr p ltac:(set_solver)).
    assert (p.1 ≠ base → 1 ≤ p.2) by (intros; by apply (ring_above s _ p Hr); [set_solver|]).
    assert (∀ d, d ∈ t → p.1 ≤ d.1 ∧ 1 ≤ d.2 ∧ d.1 + 16 * Z.max 1 d.2 ≤ limit) as Hd.
    { intros d Hd. destruct (Ht d Hd) as (Hd2 & ? & ?). destruct (H2' d Hd2) as (? & ? & ?). lia. }
    destruct (p.1 + 16 * p.2 =? bp); set_unfold in Hc; destruct Hc as [->|Hc]; simpl; try (split_and!; [lia| |lia]; intros; try lia).
    - destruct (Hd c Hc) as (? & ? & ?). auto.
    - naive_solver.
    - destruct Hc as [->|Hc]; simpl; [split_and!; lia|]. destruct (Hd c Hc) as (? & ? & ?). auto. }
  split.
  - split; [| |done| |].
    + destruct (fr_base _ _ Hr) as (bs & El & Hbs). destruct l1 as [|a l1].
      * injection El as -> ->. simpl. simpl in Hp. rewrite (proj2 (Z.eqb_neq _ _)) by lia. exists ((bp, n') :: t). split; [done|].
        intros c Hc. by apply Hc1.
      * injection El as -> <-. exists (l1 ++ join_prev p ((bp, n') :: t)). split; [done|]. intros c Hc.
        apply elem_of_app in Hc as [Hc|Hc]; [apply Hbs; set_solver|]. apply Hj; [done|].
        left. destruct (Hx (base, 0) p) as [? _]; [by left|by left|]. simpl in *. lia.
    + apply StronglySorted_app. split_and!; [|done|done]. intros a c Ha Hc. destruct (Hj c Hc) as [? _].
      destruct (Hx a p Ha ltac:(by left)). unfold before. lia.
    + rewrite Hf, fmap_app. apply elem_of_app. right. simpl. destruct (_ =? _); simpl; set_solver.
    + intros c Hc. apply elem_of_app in Hc as [Hc|Hc]; [apply (fr_bound _ _ Hr); set_solver|]. by apply Hj.
  - simpl. destruct (_ =? _).
    + exists (p.1, p.2 + n'). split; [set_solver|]. simpl. lia.
    + exists (bp, n'). split; [set_solver|done].
Qed.

(** What [free] does to the ring: it covers the bytes of the block as well. *)
Definition freed s l bp n s' : Prop := ∃ l', free_ring s' l' ∧
  (∀ x, covers l' x ↔ range bp (16 * n) x ∨ covers l x) ∧ (∃ b, b ∈ l' ∧ n ≤ b.2) ∧ u_brk s' = u_brk s ∧
  same_on (λ x, ¬ range bp 16 x ∧ ∀ b, b ∈ l → ¬ range b.1 16 x) (u_mem s) (u_mem s').

Lemma free_spec s l bp n :
  free_ring s l → h_size (u_mem s) bp = n → base < bp → 1 ≤ n → bp + 16 * n ≤ limit →
  (∀ b, b ∈ l → off (bp, n) b) → wp (free fuel (bp + 16)) (λ _ s', freed s l bp n s') s.
Proof using All.
  intros Hr Hsz Hb Hn He Hoff. destruct (ring_place _ _ bp Hr Hb) as (l1 & p & l2 & -> & Hp & H2).
  { intros b Hin E. pose proof (Hoff b Hin) as Ho. unfold off in Ho. simpl in Ho. lia. }
  assert (p ∈ l1 ++ p :: l2) as Hpin by set_solver. destruct (ring_above _ _ p Hr Hpin) as (Hp0 & Hp1 & _).
  assert (p.1 + 16 * Z.max 1 p.2 ≤ bp) as Hpe.
  { pose proof (Hoff p Hpin) as Ho. unfold off in Ho. simpl in Ho. lia. }
  assert (∀ c, c ∈ l2 → bp + 16 * n ≤ c.1) as H2e.
  { intros c Hc. pose proof (Hoff c ltac:(set_solver)) as Ho. unfold off in Ho. simpl in Ho. pose proof (H2 c Hc). lia. }
  assert (∀ c, c ∈ l2 → 1 ≤ c.2 ∧ bp + 16 * n ≤ c.1 ∧ c.1 + 16 * c.2 ≤ limit) as H2'.
  { intros c Hc. eapply ring_upper; [done|set_solver|lia|by apply H2e]. }
  pose proof (fr_links _ _ Hr) as Hl. apply links_app in Hl as [L1 Lp]. destruct p as [p np]. destruct Lp as (Sp & Pp & L2).
  pose proof (fr_sorted _ _ Hr) as Hs. apply StronglySorted_app in Hs as (Hx & Hs1 & Hs2). apply StronglySorted_inv in Hs2 as [Hs2 _].
  simpl fst in *. simpl snd in *.
  unfold free. unfold sizeof_Header. rewrite Z.add_simpl_r, (u64_id bp) by (unfold fits; lia). apply wp_bind, wp_gets, wp_bind.
  eapply wp_mono; [by apply (free_find s l1 (p, np) l2)|]. intros r s0 [-> ->]. simpl fst. apply wp_bind, wp_gets, wp_bind, wp_gets.
  rewrite Pp, Hsz. apply wp_bind. eapply wp_mono; [by apply (join_next_run s l2 bp n)|]. intros [] s1 [T1 L1'].
  assert (apart bp p) as Ap by (right; lia).
  assert (∀ c, c ∈ l1 → apart bp c.1 ∧ apart p c.1) as Ac.
  { intros c Hc. destruct (Hx c (p, np) Hc ltac:(by left)). simpl in *. unfold apart. lia. }
  destruct (touched_header _ _ _ _ T1 Ap) as [_ Sp1].
  destruct (join_next_form bp n l2) as (n' & t & E & Hn' & He' & Ht); [done..|]. rewrite E in L1'.
  apply wp_bind, wp_gets. rewrite Sp1, Sp. apply wp_bind. eapply wp_mono.
  { apply (join_prev_run s1 l1 p np bp n' t); [| |done|lia|lia|lia|lia|lia| |].
    - eapply links_touched; [done|done|]. intros c Hc. by apply Ac.
    - by rewrite Sp1.
    - intros c Hc. by apply Ac.
    - intros c Hc. destruct (Ht c Hc) as (Hin & _ & ?). destruct (H2' c Hin). lia. }
  intros [] s2 [T2 L2']. apply wp_modify. rewrite <- E in L2'.
  destruct (join_ring s (set_freep p s2) l1 (p, np) l2 bp n) as [R1 R2]; try done; [].
  eexists. split_and!; [exact R1| |exact R2|simpl; by rewrite (to_brk _ _ _ T2), (to_brk _ _ _ T1)|].
  - intros x. rewrite !covers_app, covers_cons. rewrite join_prev_covers; simpl; [|lia|].
    + rewrite join_next_covers; simpl; [tauto|lia|]. intros c Hc. destruct (H2' c Hc). lia.
    + rewrite E. intros c Hc. apply elem_of_cons in Hc as [->|Hc]; simpl; [lia|]. destruct (Ht c Hc) as (_ & ? & _). lia.
  - intros x [X1 X2]. simpl. rewrite (to_same _ _ _ T2), (to_same _ _ _ T1); [done|done|]. by apply (X2 (p, np)).
Qed.

(** * Taking a block *)

(** [nu] headers have left the ring, and the program gets the address behind
    the first of them. *)
Definition took s l nu r s' : Prop := ∃ l' a, r = a + 16 ∧ free_ring s' l' ∧ h_size (u_mem s') a = nu ∧ base < a ∧
  (∀ x, range a (16 * nu) x → covers l x) ∧ (∀ x, covers l' x ↔ covers l x ∧ ¬ range a (16 * nu) x) ∧
  a + 16 * nu ≤ limit ∧ u_brk s' = u_brk s ∧ same_on (λ x, ¬ covers l x ∧ ¬ range base 16 x) (u_mem s) (u_mem s').

(** No byte is in two blocks. *)
Lemma sorted_covers l1 b l2 x : (∀ c, c ∈ l1 ++ b :: l2 → 0 ≤ c.2) → StronglySorted before (l1 ++ b :: l2) →
  range b.1 (16 * b.2) x → ¬ covers (l1 ++ l2) x.
Proof.
  intros Hp Hs Hx [c [Hc Hr]]. apply StronglySorted_app in Hs as (H1 & _ & H2). apply StronglySorted_inv in H2 as [_ H2].
  rewrite Forall_forall in H2. unfold range in *. pose proof (Hp b ltac:(set_solver)). pose proof (Hp c ltac:(set_solver)).
  apply elem_of_app in Hc as [Hc|Hc].
  - destruct (H1 c b Hc ltac:(by left)). lia.
  - destruct (H2 c Hc). lia.
Qed.
Lemma header_covered s l b x : free_ring s l → b ∈ l → range b.1 16 x → covers l x ∨ range base 16 x.
Proof.
  intros Hr Hb Hx. destruct (ring_above _ _ b Hr Hb) as (_ & _ & H1 & H2). destruct (decide (b.1 = base)) as [E|E].
  - right. by rewrite E in Hx.
  - left. exists b. split; [done|]. specialize (H2 E). unfold range in *. lia.
Qed.

(** The whole block [p], which follows [prev]. *)
Lemma take_all s l1 prev p l2 q : free_ring s (l1 ++ prev :: p :: l2) → q = hd_addr l2 base →
  took s (l1 ++ prev :: p :: l2) p.2 (p.1 + 16) (set_freep prev.1 (put_ptr prev.1 q s)).
Proof using All.
  intros Hr ->. pose proof Hr as [Hb Hs Hl Hf Hbd]. assert (∀ c, c ∈ l1 ++ prev :: p :: l2 → 0 ≤ c.2) as Hpos by (intros; by eapply ring_above).
  pose proof Hs as Hs'. apply StronglySorted_app in Hs' as (H1 & Hs1 & Hs2). apply StronglySorted_inv in Hs2 as [Hs2 Hs3].
  rewrite Forall_forall in Hs3. pose proof Hs2 as Hs4. apply StronglySorted_inv in Hs4 as [Hs4 Hs5]. rewrite Forall_forall in Hs5.
  destruct prev as [a k], p as [b n]. simpl fst in *. simpl snd in *.
  destruct (Hs3 (b, n) ltac:(by left)) as [Hab _]. simpl in Hab.
  destruct (ring_above _ _ (a, k) Hr ltac:(set_solver)) as (Ha0 & Ha1 & _). simpl in Ha0, Ha1.
  destruct (ring_upper _ _ (b, n) b Hr ltac:(set_solver)) as (Hn & _ & Hbe); [simpl; lia|simpl; lia|]. simpl in Hn, Hbe.
  apply links_app in Hl as [L1 (Sa & Pa & Sb & Pb & L2)].
  pose proof (touched_put_ptr a (hd_addr l2 base) s) as Ht.
  assert (∀ x, covers (l1 ++ (a, k) :: l2) x ↔ covers (l1 ++ (a, k) :: (b, n) :: l2) x ∧ ¬ range b (16 * n) x) as Hcov.
  { intros x. pose proof (sorted_covers (l1 ++ [(a, k)]) (b, n) l2 x) as Hnc. rewrite <- !app_assoc in Hnc. simpl in Hnc.
    specialize (Hnc Hpos Hs). rewrite !covers_app, !covers_cons in *. simpl in *. tauto. }
  exists (l1 ++ (a, k) :: l2), b. split_and!; try done.
  - split.
    + destruct Hb as (bs & E & Hbs). destruct l1 as [|c l1].
      * injection E as Ea Ek <-. exists l2. split; [by rewrite Ea, Ek|]. intros c Hc. apply Hbs. by right.
      * injection E as -> <-. exists (l1 ++ (a, k) :: l2). split; [done|]. intros c Hc. apply Hbs. set_solver.
    + apply StronglySorted_app. split_and!; [|done|].
      * intros c d Hc Hd. apply H1; [done|]. set_solver.
      * constructor; [done|]. apply Forall_forall. intros c Hc. apply Hs3. by right.
    + cbn [set_freep u_mem]. apply links_app. split.
      * eapply links_touched; [done|done|]. intros c Hc. destruct (H1 c (a, k) Hc ltac:(by left)). simpl in *. right. lia.
      * cbn [links]. split_and!; [rewrite <- Sa; apply size_put_ptr; by left| |].
        -- apply ptr_put_ptr_eq. destruct l2 as [|c l2]; simpl; [unfold fits; lia|].
           destruct (ring_upper _ _ c b Hr ltac:(set_solver)) as (? & ? & ?); [lia| |unfold fits; lia].
           destruct (Hs5 c ltac:(by left)). simpl in *. lia.
        -- eapply links_touched; [done|done|]. intros c Hc. destruct (Hs3 c ltac:(by right)). simpl in *. left. lia.
    + simpl. rewrite fmap_app. apply elem_of_app. right. by left.
    + intros c Hc. apply Hbd. set_solver.
  - cbn [set_freep u_mem]. rewrite <- Sb. apply (touched_header _ _ _ b Ht). left. lia.
  - lia.
  - intros x Hx. exists (b, n). split; [set_solver|done].
  - intros x [X1 X2]. apply (to_same _ _ _ Ht). intros Hx.
    destruct (header_covered _ _ (a, k) x Hr ltac:(set_solver) Hx); done.
Qed.

(** The last [nu] headers of the larger block [p]. *)
Lemma take_some s l1 p l2 nu prevp : free_ring s (l1 ++ p :: l2) → prevp ∈ (l1 ++ p :: l2).*1 → 1 ≤ nu < p.2 →
  took s (l1 ++ p :: l2) nu (p.1 + 16 * (p.2 - nu) + 16)
    (set_freep prevp (put_size (p.1 + 16 * (p.2 - nu)) nu (put_size p.1 (p.2 - nu) s))).
Proof using All.
  intros Hr Hprev Hnu. pose proof Hr as [Hb Hs Hl Hf Hbd]. assert (∀ c, c ∈ l1 ++ p :: l2 → 0 ≤ c.2) as Hpos by (intros; by eapply ring_above).
  pose proof Hs as Hs'. apply StronglySorted_app in Hs' as (H1 & Hs1 & Hs2). apply StronglySorted_inv in Hs2 as [Hs2 Hs3].
  rewrite Forall_forall in Hs3. destruct p as [p k]. simpl fst in *. simpl snd in *. set (a := p + 16 * (k - nu)).
  destruct (ring_above _ _ (p, k) Hr ltac:(set_solver)) as (Hp0 & _ & Hp1 & _). simpl in Hp0, Hp1.
  assert (p ≠ base) as Hpb by (intros E; specialize (Hp1 E); simplify_eq; lia).
  pose proof (Hbd (p, k) ltac:(set_solver)) as Hpe. simpl in Hpe.
  apply links_app in Hl as [L1 (Sp & Pp & L2)].
  pose proof (touched_put_size p (k - nu) s) as Ht1. pose proof (touched_put_size a nu (put_size p (k - nu) s)) as Ht2.
  assert (∀ c, c ∈ l1 → apart p c.1 ∧ apart a c.1) as A1.
  { intros c Hc. destruct (H1 c (p, k) Hc ltac:(by left)). simpl in *. unfold apart. lia. }
  assert (∀ c, c ∈ l2 → apart p c.1 ∧ apart a c.1) as A2.
  { intros c Hc. destruct (Hs3 c Hc). simpl in *. unfold apart. lia. }
  assert (apart a p) as Ap by (right; lia).
  assert (∀ x, covers (l1 ++ (p, k - nu) :: l2) x ↔ covers (l1 ++ (p, k) :: l2) x ∧ ¬ range a (16 * nu) x) as Hcov.
  { intros x. pose proof (sorted_covers l1 (p, k) l2 x Hpos Hs) as Hnc. rewrite !covers_app, !covers_cons in *. simpl in *. unfold range in *.
    destruct (decide (p ≤ x < p + 16 * k)).
    - specialize (Hnc ltac:(done)). assert (¬ covers l1 x ∧ ¬ covers l2 x) by tauto. split; [intros [?|[?|?]]; [tauto| |tauto]|]; [split; [tauto|lia]|].
      intros [_ ?]. right. left. lia.
    - split; [intros [?|[?|?]]|intros [[?|[?|?]] ?]]; try tauto; try lia; (split; [tauto|lia]). }
  exists (l1 ++ (p, k - nu) :: l2), a. split_and!; try done; try lia.
  - split.
    + destruct Hb as (bs & E & Hbs). destruct l1 as [|c l1].
      * injection E as Ea Ek <-. done.
      * injection E as -> <-. exists (l1 ++ (p, k - nu) :: l2). split; [done|]. intros c Hc.
        apply elem_of_app in Hc as [Hc|Hc]; [apply Hbs; set_solver|]. apply elem_of_cons in Hc as [->|Hc]; [simpl; lia|apply Hbs; set_solver].
    + apply StronglySorted_app. split_and!; [|done|].
      * intros c d Hc Hd. apply elem_of_cons in Hd as [->|Hd]; [|apply H1; [done|by right]].
        destruct (H1 c (p, k) Hc ltac:(by left)). by split.
      * constructor; [done|]. apply Forall_forall. intros c Hc. destruct (Hs3 c Hc). unfold before. simpl in *. lia.
    + cbn [set_freep u_mem]. apply links_app. split; [|cbn [links]; split_and!].
      * eapply links_touched; [done| |intros c Hc; by apply A1]. eapply links_touched; [done|done|intros c Hc; by apply A1].
      * rewrite size_put_size_ne by done. apply size_put_size_eq. unfold fits. lia.
      * rewrite ptr_put_size by (by right). by rewrite ptr_put_size by (by left).
      * eapply links_touched; [done| |intros c Hc; by apply A2]. eapply links_touched; [done|done|intros c Hc; by apply A2].
    + simpl. rewrite fmap_app in *. done.
    + intros c Hc. apply elem_of_app in Hc as [Hc|Hc]; [apply Hbd; set_solver|].
      apply elem_of_cons in Hc as [->|Hc]; [simpl; lia|apply Hbd; set_solver].
  - cbn [set_freep u_mem]. apply size_put_size_eq. unfold fits. lia.
  - intros x Hx. exists (p, k). split; [set_solver|]. unfold range in *. simpl. lia.
  - intros x [X1 X2]. cbn [set_freep u_mem]. rewrite (to_same _ _ _ Ht2), (to_same _ _ _ Ht1); [done| |]; intros Hx; apply X1;
      exists (p, k); (split; [set_solver|]); unfold range in *; simpl; lia.
Qed.

Context (room : Z → Z → bool).
(** The kernel's promise: the process never grows beyond [limit]. *)
Hypothesis Hroom : ∀ brk n, room brk n = true → brk + n ≤ limit.

Lemma round_take s l j prev p nu : free_ring s l → l !! j = Some prev → l !! nx l j = Some p → 1 ≤ nu ≤ p.2 →
  wp (malloc_round room fuel nu (prev.1, p.1)) (λ r s', ∃ a, r = inr a ∧ took s l nu a s') s.
Proof using All.
  intros Hr Hj Hp Hnu. assert (nx l j = S j) as E.
  { unfold nx in *. case_decide; [done|]. destruct (fr_base _ _ Hr) as (bs & -> & _). injection Hp as <-. simpl in *. lia. }
  rewrite E in Hp. assert (l = take j l ++ prev :: p :: drop (S (S j)) l) as El.
  { rewrite <- (take_drop_middle _ _ _ Hj) at 1. f_equal. f_equal. by apply drop_S. }
  set (l1 := take j l) in *. set (l2 := drop (S (S j)) l) in *. clearbody l1 l2. subst l. clear Hj Hp E.
  pose proof (fr_links _ _ Hr) as Hl. apply links_app in Hl as [_ Hl]. destruct prev as [a k], p as [p n].
  destruct Hl as (Sa & Pa & Sp & Pp & L2). simpl fst in *. simpl snd in *.
  pose proof (fr_bound _ _ Hr (p, n) ltac:(set_solver)) as Hbd. simpl in Hbd.
  destruct (ring_above _ _ (p, n) Hr ltac:(set_solver)) as (Hp0 & _). simpl in Hp0.
  unfold malloc_round. apply wp_bind, wp_gets. rewrite Sp, (proj2 (Z.leb_le _ _)) by lia. apply wp_bind.
  destruct (Z.eqb_spec n nu) as [<-|Hne].
  - apply wp_bind, wp_gets, wp_bind, wp_modify, wp_ret, wp_bind, wp_modify, wp_ret. eexists. split; [done|].
    rewrite hdr_add_eq by lia. by apply (take_all s l1 (a, k) (p, n) l2).
  - apply wp_bind, wp_modify, wp_bind, wp_gets, wp_bind, wp_modify, wp_ret, wp_bind, wp_modify, wp_ret. eexists. split; [done|].
    rewrite size_put_size_eq by (unfold fits; lia). rewrite (hdr_add_eq p (n - nu)) by lia. rewrite hdr_add_eq by lia. rewrite Z.mul_1_r.
    change (l1 ++ (a, k) :: (p, n) :: l2) with (l1 ++ [(a, k)] ++ (p, n) :: l2) in *. rewrite app_assoc in *.
    apply (take_some s (l1 ++ [(a, k)]) (p, n) l2 nu a); [done| |simpl; lia].
    rewrite !fmap_app. simpl. set_solver.
Qed.

(** The search when there is a block that is large enough. *)
Lemma search_fit nu k fit s l j prev p f bf fuel' : free_ring s l → l !! f = Some bf → u_freep s = bf.1 →
  l !! k = Some fit → 1 ≤ nu ≤ fit.2 → l !! j = Some prev → l !! nx l j = Some p →
  (dist (length l) (nx l j) k ≤ dist (length l) (nx l j) f)%nat → (dist (length l) (nx l j) k < fuel')%nat →
  wp (loop fuel' (malloc_round room fuel nu) (prev.1, p.1)) (took s l nu) s.
Proof using All.
  intros Hr Ef Hf Hk Hnu. revert j prev p. induction fuel' as [|fuel' IH]; intros j prev p Hj Hp Hd Hlt; [lia|].
  cbn [loop]. apply wp_bind. destruct (decide (nu ≤ p.2)) as [Hfit|Hno].
  - eapply wp_mono; [apply (round_take s l j); [done..|lia]|]. intros r s' (a & -> & Ht). by apply wp_ret.
  - assert (nx l j ≠ k) as Hne by (intros E; rewrite E in Hp; simplify_eq; lia).
    pose proof (lookup_lt_Some _ _ _ Hp). pose proof (lookup_lt_Some _ _ _ Hk).
    pose proof (lookup_lt_Some _ _ _ Ef).
    assert (nx l j ≠ f) as Hnf by (intros E; unfold dist in Hd; repeat case_decide; lia).
    destruct (ring_next _ _ _ _ Hr Hp) as [Sp (q & Hq & Pq)].
    unfold malloc_round at 1. apply wp_bind, wp_gets. rewrite Sp, (proj2 (Z.leb_gt _ _)) by lia. apply wp_bind, wp_gets.
    rewrite (proj2 (Z.eqb_neq _ _)).
    2:{ intros E. apply Hnf. eapply ring_inj; [done..|]. congruence. }
    apply wp_bind, wp_gets, wp_ret. rewrite Pq. apply (IH (nx l j) p q Hp Hq).
    + destruct (dist_next l (nx l j) k), (dist_next l (nx l j) f); try done. unfold dist, nx in *. repeat case_decide; lia.
    + destruct (dist_next l (nx l j) k); try done. lia.
Qed.

(** The blocks lie below the end of the process's memory. *)
Definition below s (l : list block) : Prop := (∀ b, b ∈ l → b.1 + 16 * Z.max 1 b.2 ≤ u_brk s) ∧ u_brk s ≤ limit.
Lemma below_covers s l x : free_ring s l → below s l → covers l x → x < u_brk s.
Proof. intros Hr [Hb _] (b & Hin & Hx). pose proof (Hb b Hin). unfold range in Hx. lia. Qed.
(** How much [morecore] asks for. *)
Definition core (nu : Z) : Z := Z.max nu 4096.
(** The heap has grown by [n] headers, which are free. *)
Definition grew s l n s' l' : Prop := u_brk s' = u_brk s + 16 * n ∧ u_brk s' ≤ limit ∧ free_ring s' l' ∧
  (∀ x, covers l' x ↔ range (u_brk s) (16 * n) x ∨ covers l x) ∧
  same_on (λ x, x < u_brk s ∧ ¬ covers l x ∧ ¬ range base 16 x) (u_mem s) (u_mem s').

Lemma ring_ext s s' l : free_ring s l → u_freep s' = u_freep s →
  same_on (λ x, x < u_brk s) (u_mem s) (u_mem s') → below s l → free_ring s' l.
Proof.
  intros [Hb Hs Hl Hf Hbd] Ef Hm [Hbk _]. split; [done|done| |by rewrite Ef|done]. eapply links_frame; [done|].
  intros b Hin. pose proof (Hbk b Hin). split.
  - apply load64_ext. eapply same_on_weaken; [done|]. unfold range. intros a Ha. lia.
  - unfold h_size. f_equal. apply load_bytes_ext. eapply same_on_weaken; [done|]. unfold range. intros a Ha. lia.
Qed.

Lemma morecore_spec s l nu : free_ring s l → below s l → 1 ≤ nu → 16 * core nu < 2 ^ 31 →
  wp (morecore room fuel nu) (λ r s', r = 0 ∧ s' = s ∧ room (u_brk s) (16 * core nu) = false ∨
    ∃ l', r = u_freep s' ∧ grew s l (core nu) s' l' ∧ ∃ b, b ∈ l' ∧ nu ≤ b.2) s.
Proof using All.
  intros Hr Hbl Hnu Hc. pose proof Hbl as [Hb Hbk]. assert (base + 16 ≤ u_brk s) as Hlo.
  { destruct (fr_base _ _ Hr) as (bs & -> & _). apply (Hb (base, 0)). by left. }
  unfold morecore. replace (if nu <? 4096 then 4096 else nu) with (core nu) by (unfold core; case_cmp; lia).
  assert (1 ≤ core nu) as Hc1 by (unfold core; lia). unfold sizeof_Header. rewrite (Z.mul_comm (core nu) 16).
  rewrite (s32_id (16 * core nu)) by lia. apply wp_bind. unfold sbrk. apply wp_bind, wp_gets.
  rewrite (proj2 (Z.ltb_lt _ _)) by lia. destruct (room (u_brk s) (16 * core nu)) eqn:Er.
  2:{ apply wp_ret. simpl. apply wp_ret. by left. }
  pose proof (Hroom _ _ Er) as Hle. apply wp_bind, wp_modify, wp_ret. rewrite (s32_id (u_brk s)), (u64_id (u_brk s)) by (unfold fits; lia).
  rewrite (proj2 (Z.eqb_neq _ _)) by (vm_compute (u64 (-1)); lia). apply wp_bind, wp_modify.
  set (s1 := put_size (u_brk s) (core nu) (set_brk (u_brk s + 16 * core nu) s)).
  assert (same_on (λ x, ¬ range (u_brk s) 16 x) (u_mem s) (u_mem s1)) as Hm1 by (apply (put_size_same _ _ (set_brk _ s))).
  assert (free_ring s1 l) as Hr1.
  { eapply ring_ext; [done|done| |done]. eapply same_on_weaken; [done|]. unfold range. intros x Hx. lia. }
  rewrite hdr_add_eq, Z.mul_1_r by lia. apply wp_bind. eapply wp_mono.
  { apply (free_spec s1 l (u_brk s) (core nu)); [done|apply size_put_size_eq; unfold fits; lia|lia|done|lia|].
    intros b Hin. right. simpl. by apply Hb. }
  intros [] s2 (l' & Hr2 & Hcov & (b & Hb1 & Hb2) & Hbrk & Hm2). apply wp_gets. right. exists l'. split; [done|]. split.
  - split_and!; [by rewrite Hbrk|rewrite Hbrk; simpl; lia|done|done|]. intros x (X1 & X2 & X3). rewrite Hm2, Hm1; [done|unfold range; lia|].
    split; [unfold range; lia|]. intros c Hin Hx. destruct (header_covered _ _ c x Hr Hin Hx); done.
  - exists b. split; [done|]. unfold core in *. lia.
Qed.

(** * Allocation *)

(** A block of [nu] headers from the free bytes of the heap, which grows only
    when no free block is large enough. *)
Definition got s (l : list block) nu r s' : Prop := ∃ l' a, r = a + 16 ∧ free_ring s' l' ∧ h_size (u_mem s') a = nu ∧ base < a ∧
  u_brk s ≤ u_brk s' ≤ limit ∧ (u_brk s < u_brk s' → ∀ b, b ∈ l → b.2 < nu) ∧
  (∀ x, range a (16 * nu) x → covers l x ∨ u_brk s ≤ x < u_brk s') ∧
  (∀ x, covers l' x ↔ (covers l x ∨ u_brk s ≤ x < u_brk s') ∧ ¬ range a (16 * nu) x) ∧
  same_on (λ x, x < u_brk s ∧ ¬ covers l x ∧ ¬ range base 16 x) (u_mem s) (u_mem s').
Definition refused s (l : list block) nu r s' : Prop :=
  r = 0 ∧ s' = s ∧ room (u_brk s) (16 * core nu) = false ∧ ∀ b, b ∈ l → b.2 < nu.

Lemma took_got s l nu r s' : below s l → took s l nu r s' → got s l nu r s'.
Proof.
  intros Hb (l' & a & -> & Hr & Hs & Ha & Hin & Hcov & Hl & Hbrk & Hm). exists l', a. rewrite Hbrk. destruct Hb.
  split_and!; try done; try lia.
  - intros x Hx. left. by apply Hin.
  - intros x. rewrite Hcov. split; [tauto|]. intros [[?|?] ?]; [done|lia].
  - intros x (? & ? & ?). by apply Hm.
Qed.
Lemma grew_took_got s l n s1 l1 nu r s' : 0 ≤ n → (∀ b, b ∈ l → b.2 < nu) →
  grew s l n s1 l1 → took s1 l1 nu r s' → got s l nu r s'.
Proof.
  intros Hn Hno (B1 & B2 & R1 & C1 & M1) (l' & a & -> & Hr & Hs & Ha & Hin & Hcov & Hl & Hbrk & Hm).
  exists l', a. assert (∀ x, covers l1 x ↔ covers l x ∨ u_brk s ≤ x < u_brk s') as C2.
  { intros x. rewrite C1, Hbrk, B1. unfold range. tauto. }
  split_and!; try done; try lia.
  - intros x Hx. by apply C2, Hin.
  - intros x. rewrite Hcov, C2. done.
  - intros x (X1 & X2 & X3). rewrite Hm, M1; [done|done|]. split; [|done]. rewrite C1. unfold range. intros [?|?]; [lia|done].
Qed.

Lemma search_any nu s l j prev p f bf fuel' : free_ring s l → below s l → l !! f = Some bf → u_freep s = bf.1 →
  1 ≤ nu → 16 * core nu < 2 ^ 31 → l !! j = Some prev → l !! nx l j = Some p →
  (∀ i b, l !! i = Some b → (dist (length l) (nx l j) f < dist (length l) i f)%nat → b.2 < nu) →
  (dist (length l) (nx l j) f + Z.to_nat (limit / 16) + 1 < fuel')%nat →
  wp (loop fuel' (malloc_round room fuel nu) (prev.1, p.1)) (λ r s', refused s l nu r s' ∨ got s l nu r s') s.
Proof using All.
  intros Hr Hbl Ef Hf Hnu Hc. revert j prev p. induction fuel' as [|fuel' IH]; intros j prev p Hj Hp Hsm Hlt; [lia|].
  cbn [loop]. apply wp_bind. destruct (decide (nu ≤ p.2)) as [Hfit|Hno].
  { eapply wp_mono; [apply (round_take s l j); [done..|lia]|]. intros r s' (a & -> & Ht). apply wp_ret. right. by apply took_got. }
  pose proof (lookup_lt_Some _ _ _ Hp) as Lp. pose proof (lookup_lt_Some _ _ _ Ef) as Lf.
  destruct (ring_next _ _ _ _ Hr Hp) as [Sp (q & Hq & Pq)].
  unfold malloc_round at 1. apply wp_bind, wp_gets. rewrite Sp, (proj2 (Z.leb_gt _ _)) by lia. apply wp_bind, wp_gets.
  destruct (Z.eqb_spec p.1 (u_freep s)) as [E|E].
  - assert (nx l j = f) as Ejf by (eapply ring_inj; [done..|congruence]).
    assert (∀ b, b ∈ l → b.2 < nu) as Hall.
    { intros b Hin. apply list_elem_of_lookup in Hin as [i Hi]. destruct (decide (i = f)) as [->|Hne].
      - rewrite Ejf in Hp. simplify_eq. lia.
      - apply (Hsm i b Hi). rewrite Ejf. pose proof (lookup_lt_Some _ _ _ Hi). unfold dist. repeat case_decide; lia. }
    apply wp_bind. eapply wp_mono; [by apply morecore_spec|]. intros r s1 [(-> & -> & Er)|(l1 & -> & Hg & b & Hb & Hbn)].
    { simpl. apply wp_ret, wp_ret. left. by split_and!. }
    pose proof Hg as (_ & _ & Hr1 & _). pose proof (ring_length _ _ Hr1). clear Hsm IH.
    pose proof (fr_freep _ _ Hr1) as Hf1. apply list_elem_of_fmap in Hf1 as (bf1 & Ef1 & Hin1).
    destruct (ring_above _ _ bf1 Hr1 Hin1) as [? _]. rewrite (proj2 (Z.eqb_neq _ _)) by lia.
    apply list_elem_of_lookup in Hin1 as [f1 Hf1]. apply list_elem_of_lookup in Hb as [k Hk].
    destruct (ring_next _ _ _ _ Hr1 Hf1) as [_ (q1 & Hq1 & Pq1)].
    apply wp_bind, wp_gets, wp_ret. rewrite Ef1, Pq1.
    pose proof (lookup_lt_Some _ _ _ Hf1). pose proof (lookup_lt_Some _ _ _ Hk).
    eapply wp_mono; [apply (search_fit nu k b s1 l1 f1 bf1 q1 f1 bf1)|]; try done.
    + unfold dist, nx. repeat case_decide; lia.
    + unfold dist, nx. repeat case_decide; lia.
    + intros r s' Ht. right. eapply grew_took_got; [|done..]. unfold core. lia.
  - apply wp_bind, wp_gets, wp_ret. rewrite Pq. assert (nx l j ≠ f) as Hne by (intros E'; rewrite E' in Hp; simplify_eq; congruence).
    destruct (dist_next l (nx l j) f) as [D1 D2]; [done..|]. apply (IH (nx l j) p q Hp Hq); [|lia].
    intros i b Hi Hd. destruct (decide (i = nx l j)) as [->|Hi2]; [simplify_eq; lia|]. apply (Hsm i b Hi).
    pose proof (lookup_lt_Some _ _ _ Hi). unfold dist, nx in *. repeat case_decide; lia.
Qed.

(** The first call of [malloc] makes the ring. *)
Definition start s : uheap := if u_freep s =? 0 then put_size base 0 (set_freep base (put_ptr base base s)) else s.

Lemma nunits_bound nbytes : 0 ≤ nbytes < 2 ^ 31 - 32 →
  1 ≤ nunits nbytes ∧ nbytes + 16 ≤ 16 * nunits nbytes ∧ 16 * core (nunits nbytes) < 2 ^ 31.
Proof. intros H. unfold nunits, sizeof_Header, core. rewrite u32_id by (unfold fits; dlia). dlia. Qed.

Lemma malloc_spec s l nbytes : free_ring (start s) l → below (start s) l → 0 ≤ nbytes < 2 ^ 31 - 32 →
  wp (malloc base room fuel nbytes) (λ r s',
    refused (start s) l (nunits nbytes) r s' ∨ got (start s) l (nunits nbytes) r s') s.
Proof using All.
  intros Hr Hb Hn. destruct (nunits_bound _ Hn) as (H1 & H2 & H3). unfold malloc. apply wp_bind, wp_gets, wp_bind.
  assert (wp (loop fuel (malloc_round room fuel (nunits nbytes)) (u_freep (start s), h_ptr (u_mem (start s)) (u_freep (start s))))
    (λ r s', refused (start s) l (nunits nbytes) r s' ∨ got (start s) l (nunits nbytes) r s') (start s)) as Hloop.
  { pose proof (fr_freep _ _ Hr) as Hf. apply list_elem_of_fmap in Hf as (bf & Ef & Hin). apply list_elem_of_lookup in Hin as [f Hf].
    destruct (ring_next _ _ _ _ Hr Hf) as [_ (q & Hq & Pq)]. rewrite Ef, Pq. pose proof (ring_length _ _ Hr). pose proof (ring_fuel _ _ Hr).
    pose proof (lookup_lt_Some _ _ _ Hf). apply (search_any (nunits nbytes) (start s) l f bf q f bf); try done.
    - intros i b Hi Hd. pose proof (lookup_lt_Some _ _ _ Hi). unfold dist, nx in Hd. repeat case_decide; lia.
    - unfold dist, nx. repeat case_decide; lia. }
  destruct (u_freep s =? 0) eqn:E.
  - assert (start s = put_size base 0 (set_freep base (put_ptr base base s))) as Es by (unfold start; by rewrite E).
    apply wp_bind, wp_modify, wp_bind, wp_modify, wp_bind, wp_modify, wp_ret. apply wp_bind, wp_gets. rewrite Es in *. exact Hloop.
  - assert (start s = s) as Es by (unfold start; by rewrite E). apply wp_ret, wp_bind, wp_gets. rewrite Es in *. exact Hloop.
Qed.

(** * The heap *)

(** The heap begins at [lo]. *)
Context (lo : Z).
(** [live] are the blocks of the program: the address of the header and the
    size. They and the free blocks make up the heap. *)
Record heap s (l : list block) (live : gmap Z Z) : Prop := {
  hp_ring : free_ring (start s) l;
  hp_below : below (start s) l;
  hp_lo : base + 16 ≤ lo ≤ u_brk s;
  hp_live : ∀ a n, live !! a = Some n → 1 ≤ n ∧ h_size (u_mem s) a = n ∧ lo ≤ a ∧ a + 16 * n ≤ u_brk s;
  hp_apart : ∀ a n b k, live !! a = Some n → live !! b = Some k → a ≠ b → a + 16 * n ≤ b ∨ b + 16 * k ≤ a;
  hp_free : ∀ a n x, live !! a = Some n → range a (16 * n) x → ¬ covers l x;
  hp_above : ∀ x, covers l x → lo ≤ x;
  hp_all : ∀ x, lo ≤ x < u_brk s → covers l x ∨ ∃ a n, live !! a = Some n ∧ range a (16 * n) x;
  hp_init : u_freep s = 0 → live = ∅;
}.
(** The blocks of the program keep their bytes. *)
Definition kept (live : gmap Z Z) s s' : Prop := ∀ a n, live !! a = Some n → same_on (range a (16 * n)) (u_mem s) (u_mem s').

Lemma start_same s : same_on (λ x, ¬ range base 16 x) (u_mem s) (u_mem (start s)).
Proof.
  unfold start. destruct (_ =? _); [|done]. intros x Hx. rewrite (put_size_same _ _ _ _ Hx). by apply (put_ptr_same base base s).
Qed.
Lemma start_brk s : u_brk (start s) = u_brk s.
Proof. unfold start. by destruct (_ =? _). Qed.
Lemma start_freep s : u_freep (start s) ≠ 0.
Proof using All. unfold start. destruct (Z.eqb_spec (u_freep s) 0); [simpl; lia|done]. Qed.
Lemma start_started s : u_freep s ≠ 0 → start s = s.
Proof. intros H. unfold start. by rewrite (proj2 (Z.eqb_neq _ _)). Qed.
Lemma header_same s s' a : same_on (range a 16) (u_mem s) (u_mem s') → h_size (u_mem s') a = h_size (u_mem s) a.
Proof. intros H. unfold h_size. f_equal. apply load_bytes_ext. eapply same_on_weaken; [done|]. unfold range. intros x Hx. lia. Qed.

Lemma ring_started s l : free_ring s l → u_freep s ≠ 0.
Proof using All.
  intros Hr. pose proof (fr_freep _ _ Hr) as Hin. apply list_elem_of_fmap in Hin as (c & -> & Hc).
  destruct (ring_above _ _ c Hr Hc) as [? _]. lia.
Qed.
Lemma ring_below s l : free_ring s l → base + 16 ≤ u_brk s ≤ limit → (∀ x, covers l x → x < u_brk s) → below s l.
Proof.
  intros Hr Hlo Hcov. split; [|lia]. intros c Hc. destruct (ring_above _ _ c Hr Hc) as (? & ? & He & Hne).
  destruct (decide (c.1 = base)) as [E|E]; [rewrite (He E); simpl; lia|]. specialize (Hne E).
  assert (c.1 + 16 * c.2 - 1 < u_brk s); [|lia]. apply Hcov. exists c. split; [done|]. unfold range. lia.
Qed.
Lemma heap_start s l live : heap s l live → heap (start s) l live ∧ kept live s (start s).
Proof using All.
  intros [Hr Hb Hlo Hl Ha Hf Hab Hall Hi]. assert (kept live s (start s)) as Hk.
  { intros a n Hn x Hx. apply start_same. destruct (Hl a n Hn) as (_ & _ & ? & _). unfold range in *. lia. }
  split; [|done]. assert (start (start s) = start s) as Es by (apply start_started, start_freep).
  split; rewrite ?Es, ?start_brk; try done.
  - intros a n Hn. destruct (Hl a n Hn) as (? & Hs & ? & ?). split_and!; [done| |done|done].
    rewrite <- Hs. apply header_same. eapply same_on_weaken; [by apply (Hk a n)|]. unfold range. intros x. lia.
  - intros E. by apply start_freep in E.
Qed.

(** A new block. *)
Lemma heap_got s l live nu r s' : heap s l live → u_freep s ≠ 0 → 1 ≤ nu → got s l nu r s' →
  ∃ l', heap s' l' (<[r - 16 := nu]> live) ∧ live !! (r - 16) = None ∧ kept live s s'.
Proof using All.
  intros Hh Hfp Hnu (l' & a & -> & Hr' & Hs & Ha & Hbrk & _ & Hin & Hcov & Hm).
  destruct Hh as [Hr Hb Hlo Hl Hap Hf Hab Hall Hi]. rewrite (start_started s Hfp) in *.
  replace (a + 16 - 16) with a by lia. assert (∀ x, range a (16 * nu) x → lo ≤ x < u_brk s') as Hrg.
  { intros x Hx. destruct (Hin x Hx) as [Hc|?]; [|lia]. pose proof (Hab x Hc). pose proof (below_covers _ _ _ Hr Hb Hc). lia. }
  pose proof (Hrg a ltac:(unfold range; lia)) as H0. pose proof (Hrg (a + 16 * nu - 1) ltac:(unfold range; lia)) as H1.
  assert (∀ b k, live !! b = Some k → a + 16 * nu ≤ b ∨ b + 16 * k ≤ a) as Hoff.
  { intros b k Hk. destruct (Hl b k Hk) as (? & _ & ? & ?). destruct (decide (a + 16 * nu ≤ b)); [by left|]. destruct (decide (b + 16 * k ≤ a)); [by right|].
    exfalso. assert (∃ x, range a (16 * nu) x ∧ range b (16 * k) x) as (x & X1 & X2) by (exists (Z.max a b); unfold range; lia).
    destruct (Hin x X1) as [Hc|?]; [by apply (Hf b k x)|]. unfold range in *. lia. }
  assert (kept live s s') as Hk.
  { intros b k Hb2 x Hx. destruct (Hl b k Hb2) as (? & _ & ? & ?). apply Hm. split_and!; [unfold range in *; lia|by apply (Hf b k)|unfold range in *; lia]. }
  pose proof (ring_started _ _ Hr') as Hfp'.
  exists l'. split_and!; [|destruct (live !! a) as [k|] eqn:E; [|done]; destruct (Hl _ _ E); destruct (Hoff a k E); lia|done].
  assert (∀ x, covers l' x → x < u_brk s') as Hbl'.
  { intros x Hx. apply Hcov in Hx as [[Hx|?] _]; [|lia]. pose proof (below_covers _ _ _ Hr Hb Hx). lia. }
  split; rewrite ?(start_started s' Hfp'); try done; try lia.
  - apply ring_below; [done|lia|done].
  - intros b k. rewrite lookup_insert_Some. intros [[<- <-]|[Hne Hk2]]; [split_and!; [done|done|lia|lia]|].
    destruct (Hl b k Hk2) as (? & <- & ? & ?). split_and!; [done| |done|lia]. apply header_same.
    eapply same_on_weaken; [by apply (Hk b _ Hk2)|]. unfold range. intros x. lia.
  - intros b k c j. rewrite !lookup_insert_Some. intros [[<- <-]|[? Hb1]] [[<- <-]|[? Hb2]] Hne; [done|by apply Hoff| |by eapply Hap].
    destruct (Hoff b k Hb1); [by right|by left].
  - intros b k x. rewrite lookup_insert_Some. intros [[<- <-]|[? Hb1]] Hx; rewrite Hcov; [tauto|].
    intros [[?|?] _]; [by apply (Hf b k x)|]. destruct (Hl b k Hb1) as (_ & _ & _ & ?). unfold range in *. lia.
  - intros x. rewrite Hcov. intros [[?|?] _]; [by apply Hab|lia].
  - intros x Hx. destruct (decide (range a (16 * nu) x)) as [Hin2|Hout]; [right; exists a, nu; by rewrite lookup_insert_eq|].
    destruct (decide (x < u_brk s)) as [Hlt|Hge]; [|left; apply Hcov; split; [right; lia|done]].
    destruct (Hall x ltac:(lia)) as [Hc|(b & k & Hb1 & Hx1)]; [left; apply Hcov; auto|]. right. exists b, k. split; [|done].
    rewrite lookup_insert_ne; [done|]. intros <-. destruct (Hl _ _ Hb1). destruct (Hoff a k Hb1); lia.
Qed.

(** A block that the program gives back. *)
Lemma heap_freed s l live a n : heap s l live → live !! a = Some n →
  wp (free fuel (a + 16)) (λ _ s', ∃ l', heap s' l' (delete a live) ∧ kept (delete a live) s s' ∧ u_brk s' = u_brk s) s.
Proof using All.
  intros [Hr Hb Hlo Hl Hap Hf Hab Hall Hi] Ha. assert (u_freep s ≠ 0) as Hfp by (intros E; rewrite (Hi E) in Ha; done).
  rewrite (start_started s Hfp) in *. destruct (Hl a n Ha) as (Hn & Hs & Ha1 & Ha2). destruct Hb as [Hb1 Hb2].
  assert (∀ b, b ∈ l → off (a, n) b) as Hoff.
  { intros b Hin. unfold off. simpl. destruct (ring_above _ _ b Hr Hin) as (? & ? & He & Hne). destruct (decide (b.1 = base)) as [E|E].
    - right. rewrite (He E). simpl. lia.
    - specialize (Hne E). destruct (decide (a + 16 * n ≤ b.1)); [left; lia|]. destruct (decide (b.1 + 16 * b.2 ≤ a)); [right; lia|].
      exfalso. apply (Hf a n (Z.max a b.1) Ha); [unfold range; lia|]. exists b. split; [done|]. unfold range. lia. }
  eapply wp_mono; [apply (free_spec s l a n); [done|done|lia|done|lia|done]|].
  intros [] s' (l' & Hr' & Hcov & _ & Hbrk & Hm). exists l'.
  pose proof (ring_started _ _ Hr') as Hfp'.
  assert (kept (delete a live) s s') as Hk.
  { intros b k Hbk x Hx. apply lookup_delete_Some in Hbk as [Hne Hbk]. apply Hm. destruct (Hl b k Hbk) as (? & _ & ? & _). split.
    - destruct (Hap a n b k Ha Hbk Hne); unfold range in *; lia.
    - intros c Hc Hx2. destruct (header_covered _ _ c x Hr Hc Hx2) as [?|?]; [by apply (Hf b k x)|unfold range in *; lia]. }
  split_and!; [|done|done]. assert (∀ x, covers l' x → x < u_brk s') as Hbl'.
  { intros x Hx. rewrite Hbrk. apply Hcov in Hx as [?|Hx]; [unfold range in *; lia|]. by apply (below_covers s l x Hr). }
  split; rewrite ?(start_started s' Hfp'), ?Hbrk; try done.
  - apply ring_below; [done|lia|done].
  - intros b k Hbk. pose proof (Hk b k Hbk) as Hsame. apply lookup_delete_Some in Hbk as [Hne Hbk]. destruct (Hl b k Hbk) as (? & <- & ? & ?).
    split_and!; [done| |done|lia]. apply header_same. eapply same_on_weaken; [done|]. unfold range. intros x. lia.
  - intros b k c j. rewrite !lookup_delete_Some. intros [_ ?] [_ ?]. by eapply Hap.
  - intros b k x. rewrite lookup_delete_Some. intros [Hne Hbk] Hx. rewrite Hcov. intros [?|?]; [|by apply (Hf b k x)].
    destruct (Hap a n b k Ha Hbk Hne); unfold range in *; lia.
  - intros x. rewrite Hcov. intros [?|?]; [unfold range in *; lia|by apply Hab].
  - intros x Hx. rewrite Hcov. destruct (Hall x Hx) as [?|(b & k & Hbk & Hx2)]; [auto|]. destruct (decide (a = b)) as [<-|Hne].
    + simplify_eq. auto.
    + right. exists b, k. by rewrite lookup_delete_ne.
Qed.

(** A write of the program into one of its blocks. *)
Lemma heap_write s l live a n x v : heap s l live → live !! a = Some n → a + 16 ≤ x < a + 16 * n →
  heap (set_u_mem (store8 (u_mem s) x v) s) l live.
Proof using All.
  intros [Hr Hb Hlo Hl Hap Hf Hab Hall Hi] Ha Hx. assert (u_freep s ≠ 0) as Hfp by (intros E; rewrite (Hi E) in Ha; done).
  rewrite (start_started s Hfp) in *. destruct (Hl a n Ha) as (Hn & _ & Ha1 & Ha2).
  assert (∀ y, y ≠ x → load8 (store8 (u_mem s) x v) y = load8 (u_mem s) y) as Hs by (intros; by rewrite load8_store8_ne).
  split; try done; rewrite ?(start_started (set_u_mem _ s) Hfp); try done.
  - destruct Hr as [R1 R2 R3 R4 R5]. split; try done. eapply links_frame; [done|]. intros b Hin.
    assert (∀ y, range b.1 16 y → y ≠ x) as Hne.
    { intros y Hy ->. destruct (header_covered s l b x ltac:(by split) Hin Hy) as [Hc|?]; [|unfold range in *; lia].
      apply (Hf a n x Ha); [unfold range; lia|done]. }
    split; [apply load64_ext|unfold h_size; f_equal; apply load_bytes_ext]; intros y Hy; apply Hs, Hne; unfold range in *; lia.
  - intros b k Hbk. destruct (Hl b k Hbk) as (? & Hsz & ? & ?). split_and!; [done| |done|done]. rewrite <- Hsz.
    apply header_same. intros y Hy. apply Hs. intros ->. destruct (decide (a = b)) as [<-|Hne]; [unfold range in *; lia|].
    destruct (Hap a n b k Ha Hbk Hne); unfold range in *; lia.
Qed.

(** When nothing is allocated the heap is a single free block. *)
Lemma heap_whole s l : heap s l ∅ → u_freep s ≠ 0 → lo < u_brk s → 16 * h_size (u_mem s) lo = u_brk s - lo.
Proof using All.
  intros [Hr Hb Hlo _ _ _ Hab Hall _] Hfp Hlt. rewrite (start_started s Hfp) in *.
  assert (∀ x, lo ≤ x < u_brk s → covers l x) as Hcov.
  { intros x Hx. destruct (Hall x Hx) as [?|(? & ? & ? & _)]; [done|]. by rewrite lookup_empty in *. }
  destruct (Hcov lo ltac:(lia)) as (b & Hin & Hbx). unfold range in Hbx.
  assert (b.1 = lo) as Eb. { assert (lo ≤ b.1); [|lia]. apply Hab. exists b. split; [done|]. unfold range. lia. }
  pose proof (below_covers _ _ (b.1 + 16 * b.2 - 1) Hr Hb ltac:(exists b; split; [done|unfold range; lia])) as Hend.
  apply list_elem_of_lookup in Hin as [i Hi]. destruct (ring_next _ _ _ _ Hr Hi) as [Hs _]. rewrite <- Eb, Hs.
  destruct (decide (b.1 + 16 * b.2 < u_brk s)) as [Hgap|]; [|lia]. exfalso.
  destruct (Hcov (b.1 + 16 * b.2) ltac:(lia)) as (c & Hc & Hcx). unfold range in Hcx.
  apply list_elem_of_lookup in Hc as [j Hj]. destruct (lt_eq_lt_dec i j) as [[L| ->]|L].
  - destruct (ring_order _ _ _ _ _ _ Hr Hi Hj L). lia.
  - simplify_eq. lia.
  - destruct (ring_order _ _ _ _ _ _ Hr Hj Hi L). lia.
Qed.

(** * The program that uses the allocator *)

(** The program knows its objects by their addresses and the bytes it has put
    there; a new object holds what is there. *)
Inductive cstep : uheap * gmap Z (list Z) → uheap * gmap Z (list Z) → Prop :=
| cs_malloc nbytes r s s' C : 0 ≤ nbytes < 2 ^ 31 - 32 → malloc base room fuel nbytes s = Ok r s' →
    cstep (s, C) (s', if r =? 0 then C else <[r := load_bytes (u_mem s') r (Z.to_nat nbytes)]> C)
| cs_free p bs s s' C : C !! p = Some bs → free fuel p s = Ok tt s' → cstep (s, C) (s', delete p C)
| cs_write p bs i v s C : C !! p = Some bs → (i < length bs)%nat →
    cstep (s, C) (set_u_mem (store8 (u_mem s) (p + Z.of_nat i) v) s, <[p := <[i := u8 v]> bs]> C).

Record client (st : uheap * gmap Z (list Z)) : Prop := {
  cl_heap : ∃ l live, heap st.1 l live ∧
    (∀ p bs, st.2 !! p = Some bs → ∃ n, live !! (p - 16) = Some n ∧ 16 + Z.of_nat (length bs) ≤ 16 * n) ∧
    (∀ a n, live !! a = Some n → is_Some (st.2 !! (a + 16)));
  cl_bytes : ∀ p bs, st.2 !! p = Some bs → load_bytes (u_mem st.1) p (length bs) = bs;
}.

Lemma kept_bytes live s s' (C : gmap Z (list Z)) p bs n : kept live s s' → live !! (p - 16) = Some n →
  16 + Z.of_nat (length bs) ≤ 16 * n → load_bytes (u_mem s) p (length bs) = bs → load_bytes (u_mem s') p (length bs) = bs.
Proof.
  intros Hk Hn Hlen <-. rewrite length_load_bytes. apply load_bytes_ext. eapply same_on_weaken; [by apply (Hk _ _ Hn)|].
  unfold range. intros x Hx. lia.
Qed.

Lemma client_malloc nbytes s C : client (s, C) → 0 ≤ nbytes < 2 ^ 31 - 32 →
  wp (malloc base room fuel nbytes) (λ r s', client (s', if r =? 0 then C else <[r := load_bytes (u_mem s') r (Z.to_nat nbytes)]> C) ∧
    (r = 0 → room (u_brk s) (16 * core (nunits nbytes)) = false) ∧ (r ≠ 0 → C !! r = None)) s.
Proof using All.
  intros [(l & live & Hh & Hlive & Hback) Hby] Hn. simpl in *. destruct (heap_start _ _ _ Hh) as [Hs Hk0].
  destruct (nunits_bound _ Hn) as (H1 & H2 & H3).
  eapply wp_mono; [apply (malloc_spec s l nbytes); [apply Hh|apply Hh|done]|]. intros r s' [(-> & -> & Hr & _)|Hg].
  - rewrite start_brk in Hr. split_and!; [|done|done]. simpl. split; simpl; [by exists l, live|].
    intros p bs Hp. destruct (Hlive p bs Hp) as (n & Hln & Hlen). eapply kept_bytes; [done..|by apply Hby].
  - destruct (heap_got _ _ _ _ _ _ Hs (start_freep s) H1 Hg) as (l' & Hh' & Hnew & Hk).
    destruct (hp_live _ _ _ Hh' (r - 16) (nunits nbytes)) as (_ & _ & Hlo & _); [by rewrite lookup_insert_eq|].
    pose proof (hp_lo _ _ _ Hh') as Hlo'. rewrite (proj2 (Z.eqb_neq r 0)) by lia.
    split_and!; [|lia|intros _; destruct (C !! r) eqn:E; [|done]; destruct (Hlive _ _ E) as (? & ? & _); congruence]. split; simpl.
    + exists l', (<[r - 16 := nunits nbytes]> live). split_and!; [done| |].
      * intros p bs. rewrite lookup_insert_Some. intros [[<- <-]|[Hne Hp]].
        -- exists (nunits nbytes). rewrite lookup_insert_eq, length_load_bytes. split; [done|lia].
        -- destruct (Hlive p bs Hp) as (n & Hln & Hlen). exists n. rewrite lookup_insert_ne by lia. done.
      * intros a n. rewrite lookup_insert_Some. intros [[<- <-]|[Hne Ha]].
        -- replace (r - 16 + 16) with r by lia. by rewrite lookup_insert_eq.
        -- rewrite lookup_insert_ne by lia. by eapply Hback.
    + intros p bs. rewrite lookup_insert_Some. intros [[<- <-]|[Hne Hp]]; [by rewrite length_load_bytes|].
      destruct (Hlive p bs Hp) as (n & Hln & Hlen). eapply (kept_bytes live (start s)); [done..|].
      eapply kept_bytes; [done..|by apply Hby].
Qed.
Lemma client_free p bs s C : client (s, C) → C !! p = Some bs → wp (free fuel p) (λ _ s', client (s', delete p C)) s.
Proof using All.
  intros [(l & live & Hh & Hlive & Hback) Hby] Hp. simpl in *. destruct (Hlive p bs Hp) as (n & Hn & Hlen).
  pose proof (heap_freed _ _ _ _ _ Hh Hn) as Hf. replace (p - 16 + 16) with p in Hf by lia. eapply wp_mono; [exact Hf|].
  intros [] s' (l' & Hh' & Hk & _). split; simpl.
  - exists l', (delete (p - 16) live). split_and!; [done| |].
    + intros q cs. rewrite lookup_delete_Some. intros [Hne Hq]. destruct (Hlive q cs Hq) as (k & Hk2 & ?). exists k.
      rewrite lookup_delete_ne by lia. done.
    + intros a k. rewrite lookup_delete_Some. intros [Hne Ha]. rewrite lookup_delete_ne by lia. by eapply Hback.
  - intros q cs. rewrite lookup_delete_Some. intros [Hne Hq]. destruct (Hlive q cs Hq) as (k & Hk2 & ?).
    eapply (kept_bytes (delete (p - 16) live)); [done|done|rewrite lookup_delete_ne by lia; done|done|by apply Hby].
Qed.
Lemma client_write p bs i v s C : client (s, C) → C !! p = Some bs → (i < length bs)%nat →
  client (set_u_mem (store8 (u_mem s) (p + Z.of_nat i) v) s, <[p := <[i := u8 v]> bs]> C).
Proof using All.
  intros [(l & live & Hh & Hlive & Hback) Hby] Hp Hi. simpl in *. destruct (Hlive p bs Hp) as (n & Hn & Hlen). split; simpl.
  - exists l, live. split_and!.
    + apply (heap_write _ _ _ (p - 16) n); [done|done|lia].
    + intros q cs. rewrite lookup_insert_Some. intros [[<- <-]|[Hne Hq]]; [|by apply Hlive]. rewrite length_insert. by exists n.
    + intros a k Ha. destruct (decide (p = a + 16)) as [->|]; [by rewrite lookup_insert_eq|]. rewrite lookup_insert_ne by done. by eapply Hback.
  - intros q cs. rewrite lookup_insert_Some. intros [[<- <-]|[Hne Hq]].
    + rewrite length_insert. apply list_eq. intros j. destruct (decide (j < length bs)%nat) as [Hj|Hj].
      * rewrite load_bytes_lookup, load8_store8 by done. rewrite <- (Hby p bs Hp). destruct (decide (i = j)) as [<-|Hij].
        -- rewrite decide_True by done. rewrite list_lookup_insert_eq; [done|]. by rewrite length_load_bytes.
        -- rewrite decide_False by lia. rewrite list_lookup_insert_ne by done. by rewrite load_bytes_lookup.
      * rewrite !lookup_ge_None_2; [done|rewrite length_insert; lia|rewrite length_load_bytes; lia].
    + rewrite <- (Hby q cs Hq) at 2. apply load_bytes_ext. intros x Hx. apply load8_store8_ne.
      destruct (Hlive q cs Hq) as (k & Hk & Hlk). destruct (hp_apart _ _ _ Hh _ _ _ _ Hn Hk); unfold range in *; lia.
Qed.

(** A process that has not called [malloc] yet. *)
Lemma client_init s : u_freep s = 0 → u_brk s = lo → base + 16 ≤ lo ≤ limit → client (s, ∅).
Proof using All.
  intros Hf Hb Hlo. split; simpl; [|by intros p bs ?%lookup_empty_Some]. exists [(base, 0)], ∅. split_and!; [|set_solver|set_solver].
  assert (free_ring (start s) [(base, 0)]) as Hr.
  { unfold start. rewrite Hf. simpl (0 =? 0). cbv iota. split.
    - exists []. split; [done|]. set_solver.
    - by repeat constructor.
    - cbn [links hd_addr]. split_and!; [apply size_put_size_eq; unfold fits; lia| |done].
      rewrite ptr_put_size by (by left). apply (ptr_put_ptr_eq base base s). unfold fits. lia.
    - simpl. by left.
    - intros b Hin. apply list_elem_of_singleton in Hin as ->. simpl. lia. }
  assert (∀ x, ¬ covers [(base, 0)] x) as Hno.
  { intros x (b & Hin & Hx). apply list_elem_of_singleton in Hin as ->. unfold range in Hx. simpl in Hx. lia. }
  split; [done| |rewrite Hb; lia| | | | | |done].
  - split; rewrite start_brk, ?Hb; [|lia]. intros b Hin. apply list_elem_of_singleton in Hin as ->. simpl. lia.
  - by intros a n ?%lookup_empty_Some.
  - by intros a n b k ?%lookup_empty_Some.
  - by intros a n x ?%lookup_empty_Some.
  - intros x Hx. by apply Hno in Hx.
  - intros x Hx. lia.
Qed.

(** C25: malloc and free, in any order and for as many objects as the program
    likes.  The objects do not overlap and keep the bytes the program has
    written: neither the allocator nor a write to another object changes them.
    Every object can be freed, malloc always returns, and it returns 0 only
    when it has asked the kernel for more memory in vain.  When all objects
    are freed the whole heap is one free block again. *)
Theorem malloc_objects s0 s C : u_freep s0 = 0 → u_brk s0 = lo → base + 16 ≤ lo ≤ limit → rtc cstep (s0, ∅) (s, C) →
  (∀ p bs, C !! p = Some bs → load_bytes (u_mem s) p (length bs) = bs ∧ ∃ s', free fuel p s = Ok tt s') ∧
  (∀ p bs q cs, C !! p = Some bs → C !! q = Some cs → p ≠ q → p + Z.of_nat (length bs) ≤ q ∨ q + Z.of_nat (length cs) ≤ p) ∧
  (∀ nbytes, 0 ≤ nbytes < 2 ^ 31 - 32 → ∃ r s', malloc base room fuel nbytes s = Ok r s' ∧
     if r =? 0 then room (u_brk s) (16 * core (nunits nbytes)) = false else C !! r = None) ∧
  (C = ∅ → u_freep s ≠ 0 → lo < u_brk s → 16 * h_size (u_mem s) lo = u_brk s - lo).
Proof using All.
  intros Hf Hb Hlo Hrtc. assert (client (s, C)) as Hc.
  { remember (s0, ∅) as st0 eqn:E0. remember (s, C) as st1 eqn:E1.
    assert (client st0) as H0 by (subst; by apply client_init). clear - Hrtc H0 Hbase Hlimit Hfuel Hroom.
    induction Hrtc as [|x y z Hxy _ IH]; [done|]. apply IH. destruct Hxy as [nbytes r s s' C Hn Hm|p bs s s' C Hp Hm|p bs i v s C Hp Hi].
    - by eapply (wp_elim _ _ _ _ _ (client_malloc nbytes s C H0 Hn)) in Hm as [? _].
    - by eapply (wp_elim _ _ _ _ _ (client_free p bs s C H0 Hp)) in Hm.
    - by apply client_write. }
  pose proof Hc as [(l & live & Hh & Hlive & Hback) Hby]. simpl in *. split_and!.
  - intros p bs Hp. split; [by apply Hby|]. pose proof (client_free p bs s C Hc Hp) as Hw.
    apply wp_ok in Hw as ([] & s' & E & _). by exists s'.
  - intros p bs q cs Hp Hq Hne. destruct (Hlive p bs Hp) as (n & Hn & ?), (Hlive q cs Hq) as (k & Hk & ?).
    destruct (hp_apart _ _ _ Hh _ _ _ _ Hn Hk); lia.
  - intros nbytes Hn. pose proof (client_malloc nbytes s C Hc Hn) as Hw. apply wp_ok in Hw as (r & s' & E & _ & H0 & H1).
    exists r, s'. split; [done|]. destruct (Z.eqb_spec r 0); auto.
  - intros -> Hfp Hlt. apply (heap_whole s l); [|done|done]. replace ∅ with live; [done|]. apply map_empty. intros a.
    destruct (live !! a) as [n|] eqn:E; [|done]. destruct (Hback a n E) as [? HE]. by rewrite lookup_empty in HE.
Qed.
End umalloc.

(** * A small heap *)

Definition small_room (brk n : Z) : bool := brk + n <=? 200000.
Definition small_fuel : nat := Z.to_nat 25100.
Definition small_heap : uheap := UHeap ∅ 0 4096.
Definition small_malloc : Z → M uheap Z := malloc 32 small_room small_fuel.
Definition after {A} (o : outcome uheap A) : uheap := match o with Ok _ s => s | _ => small_heap end.
Definition gives (o : outcome uheap Z) (r : Z) : bool := match o with Ok r' _ => r' =? r | _ => false end.
Definition small_1 : uheap := after (small_malloc 100 small_heap).
Definition small_2 : uheap := after (small_malloc 200 small_1).

Lemma gives_ok o r : gives o r = true → o = Ok r (after o).
Proof. destruct o as [r' s| | |]; try done. simpl. by intros ->%Z.eqb_eq. Qed.
Lemma small_ok_1 : small_malloc 100 small_heap = Ok 69520 small_1.
Proof. apply gives_ok. by vm_compute. Qed.
Lemma small_ok_2 : small_malloc 200 small_1 = Ok 69296 small_2.
Proof. apply gives_ok. by vm_compute. Qed.

(** Two objects, one of them written and then freed. *)
Lemma malloc_objects_witness : ∃ s C, rtc (cstep 32 small_fuel small_room) (small_heap, ∅) (s, C) ∧
  C !! 69520 = Some (<[3%nat := 7]> (load_bytes (u_mem small_1) 69520 100)) ∧
  load_bytes (u_mem s) 69520 100 = <[3%nat := 7]> (load_bytes (u_mem small_1) 69520 100) ∧
  ∃ r s', small_malloc 5000 s = Ok r s'.
Proof.
  eexists _, _. match goal with |- ?X ∧ _ => assert X as Hr end.
  { eapply rtc_l; [eapply (cs_malloc _ _ _ 100 69520); [lia|apply small_ok_1]|]. simpl (_ =? 0). cbv iota.
    eapply rtc_l; [eapply (cs_write _ _ _ 69520 _ 3 7); [by rewrite lookup_insert_eq|by vm_compute; lia]|].
    apply rtc_refl. }
  destruct (malloc_objects 32 small_fuel 200000 ltac:(lia) ltac:(lia) ltac:(vm_compute; discriminate) small_room
    ltac:(unfold small_room; intros; lia) 4096 small_heap _ _ eq_refl eq_refl ltac:(lia) Hr) as (H1 & _ & H3 & _).
  split; [exact Hr|]. split; [apply lookup_insert_eq|]. split.
  - pose proof (proj1 (H1 69520 _ (lookup_insert_eq _ _ _))) as E. rewrite length_insert, length_load_bytes in E. exact E.
  - destruct (H3 5000 ltac:(lia)) as (r & s' & E & _). by exists r, s'.
Defined.

(** C35: malloc multiplies the number of headers by 16 in 64 bits, but sbrk
    takes an int: for 2^32 - 1 bytes the product is 2^32 + 16, the process
    grows by 16 bytes, and malloc returns the block as if it had the size
    asked for; the object begins where the memory of the process ends. *)
Theorem malloc_overflow : ∃ r s', small_malloc (2 ^ 32 - 1) small_heap = Ok r s' ∧
  r ≠ 0 ∧ u_brk s' = u_brk small_heap + 16 ∧ r = u_brk s'.
Proof.
  assert (gives (small_malloc (2 ^ 32 - 1) small_heap) 4112 = true) as H by (by vm_compute).
  apply gives_ok in H. eexists _, _. split; [exact H|].
  split_and!; [discriminate|apply Z.eqb_eq; vm_compute; reflexivity..].
Qed.
