(* ===== verification/ProcSpec.v ===== *)
(** kernel/proc.c: what each critical section does to the part of the process
    table that scheduling depends on: state, channel, pid and parent of every
    process.  Memory and files are left out of this view, and so are the
    processes' own locks: a section runs with them free and leaves them free. *)

From S2P Require Import Prelude Riscv Mem Spinlock Kalloc Vm ProcMem Proc.

Record pview := PV {
  v_state : procstate;
  v_chan : channel;
  v_killed : Z;
  v_xstate : Z;
  v_pid : Z;
  v_parent : option nat;
}.
Definition view (p : proc) : pview :=
  PV (p_state p) (p_chan p) (p_killed p) (p_xstate p) (p_pid p) (p_parent p).
Definition v_set_state x v := PV x (v_chan v) (v_killed v) (v_xstate v) (v_pid v) (v_parent v).
Definition v_set_chan x v := PV (v_state v) x (v_killed v) (v_xstate v) (v_pid v) (v_parent v).
Definition v_set_killed x v := PV (v_state v) (v_chan v) x (v_xstate v) (v_pid v) (v_parent v).
Definition v_set_xstate x v := PV (v_state v) (v_chan v) (v_killed v) x (v_pid v) (v_parent v).
Definition v_set_pid x v := PV (v_state v) (v_chan v) (v_killed v) (v_xstate v) x (v_parent v).
Definition v_set_parent x v := PV (v_state v) (v_chan v) (v_killed v) (v_xstate v) (v_pid v) x.
(** A slot of the table that is free. *)
Definition unused : pview := PV UNUSED NoChan 0 0 0 None.

(** The table as the sections see it. *)
Record tview := TV { tv_procs : list pview; tv_nextpid : Z; tv_wait : bool; tv_init : option nat }.
Definition tv_set x v := TV x (tv_nextpid v) (tv_wait v) (tv_init v).

Section spec.
Context {F : Type} {L : Linker} `{FO : FileOps F}.
Implicit Types t : ptable (F:=F).
Implicit Types ps : list proc.
Implicit Types i me : nat.

Definition tview_of t : tview :=
  TV (view <$> t_procs t) (t_nextpid t) (t_wait_lock t) (t_initproc t).

Lemma view_alter ps i (f : proc → proc) (g : pview → pview) :
  (∀ p, view (f p) = g (view p)) → view <$> alter f i ps = alter g i (view <$> ps).
Proof.
  intros H. apply list_eq. intros j. rewrite list_lookup_fmap. destruct (decide (i = j)) as [<-|].
  - rewrite !list_lookup_alter_eq, list_lookup_fmap. destruct (ps !! i); simpl; [by rewrite H|done].
  - by rewrite !list_lookup_alter_ne, list_lookup_fmap by done.
Qed.
Lemma view_alter_id ps i (f : proc → proc) :
  (∀ p, view (f p) = view p) → view <$> alter f i ps = view <$> ps.
Proof.
  intros H. rewrite (view_alter _ _ _ id) by done. apply list_eq. intros j.
  destruct (decide (i = j)) as [<-|]; [|by rewrite list_lookup_alter_ne].
  rewrite list_lookup_alter_eq. by destruct (_ !! i).
Qed.

(** ** Rules *)

Lemma wlp_getp i (Q : proc → ptable → Prop) t :
  (∀ p, t_procs t !! i = Some p → Q p t) → wlp (getp i) Q t.
Proof. intros H. unfold wlp, getp. destruct (t_procs t !! i); auto. Qed.
Lemma wlp_updp i f (Q : unit → ptable → Prop) t :
  Q tt (set_procs (alter f i (t_procs t)) t) → wlp (updp i f) Q t.
Proof. apply wlp_modify. Qed.

(** An operation that leaves the view alone. *)
Definition silent {A} (m : M ptable A) : Prop := ∀ t, wlp m (λ _ t', tview_of t' = tview_of t) t.
Lemma silent_bind {A B} (m : M ptable A) (k : A → M ptable B) :
  silent m → (∀ a, silent (k a)) → silent (bind m k).
Proof.
  intros Hm Hk t. apply wlp_bind. eapply wlp_mono; [apply Hm|]. intros a t' E.
  eapply wlp_mono; [apply Hk|]. simpl. intros _ t2 ->. done.
Qed.
Lemma silent_ret {A} (a : A) : silent (ret a).
Proof. by intros t. Qed.
Lemma silent_getp i : silent (getp i).
Proof. intros t. by apply wlp_getp. Qed.
Lemma silent_mem {A} (m : M kmem A) : silent (mem_op m).
Proof. intros t. by apply wlp_zoom_any. Qed.
Lemma silent_file {A} (m : M F A) : silent (file_op m).
Proof. intros t. by apply wlp_zoom_any. Qed.
Lemma silent_when b m : silent m → silent (when b m).
Proof. intros H t. apply wlp_when; intros _; [apply H|done]. Qed.
Lemma silent_updp i f : (∀ p, view (f p) = view p) → silent (updp i f).
Proof.
  intros H t. apply wlp_updp. unfold tview_of. simpl. by rewrite view_alter_id.
Qed.
Lemma silent_panic {A} msg : silent (@panic ptable A msg).
Proof. done. Qed.
Lemma silent_acquire i : silent (proc_acquire i).
Proof.
  apply silent_bind; [apply silent_getp|]. intros p.
  destruct (p_lock p); [apply silent_panic|by apply silent_updp].
Qed.
Lemma silent_release i : silent (proc_release i).
Proof.
  apply silent_bind; [apply silent_getp|]. intros p.
  destruct (p_lock p); [by apply silent_updp|apply silent_panic].
Qed.
Lemma silent_dup_files fs nfs : silent (dup_files fs nfs).
Proof.
  revert nfs. induction fs as [|f fs IH]; intros [|g nfs]; simpl; try apply silent_ret.
  apply silent_bind.
  - destruct (truth f); [apply silent_file|apply silent_ret].
  - intros a. apply silent_bind; [apply IH|]. intros. apply silent_ret.
Qed.
Lemma silent_close_files fs : silent (close_files fs).
Proof.
  induction fs as [|f fs IH]; simpl; [apply silent_ret|].
  apply silent_bind; [apply silent_when, silent_file|]. intros _.
  apply silent_bind; [apply IH|]. intros. apply silent_ret.
Qed.
End spec.

Create HintDb silent.
#[export] Hint Resolve silent_ret silent_getp silent_mem silent_file silent_when silent_panic
  silent_acquire silent_release silent_dup_files silent_close_files : silent.
#[export] Hint Extern 1 (silent (updp _ _)) => by apply silent_updp : silent.
#[export] Hint Extern 2 (silent (bind _ _)) => apply silent_bind; [|intros ?] : silent.
#[export] Hint Extern 2 (silent (if ?b then _ else _)) => destruct b : silent.

Section sections.
Context {F : Type} {L : Linker} `{FO : FileOps F}.
Implicit Types t : ptable (F:=F).
Implicit Types i me : nat.

Lemma wlp_silent {A B} (m : M ptable A) (k : A → M ptable B) Q t :
  silent m → (∀ a t', tview_of t' = tview_of t → wlp (k a) Q t') → wlp (bind m k) Q t.
Proof. intros Hm Hk. apply wlp_bind. eapply wlp_mono; [apply Hm|]. auto. Qed.
Lemma wlp_get {B} i (k : proc → M ptable B) Q t :
  (∀ p, tv_procs (tview_of t) !! i = Some (view p) → wlp (k p) Q t) → wlp (bind (getp i) k) Q t.
Proof.
  intros H. apply wlp_bind, wlp_getp. intros p Hp. apply H. simpl. by rewrite list_lookup_fmap, Hp.
Qed.
Lemma wlp_upd i (f : proc → proc) (g : pview → pview) (Q : unit → ptable → Prop) t :
  (∀ p, view (f p) = g (view p)) →
  (∀ t', tview_of t' = tv_set (alter g i (tv_procs (tview_of t))) (tview_of t) → Q tt t') →
  wlp (updp i f) Q t.
Proof.
  intros Hf HQ. apply wlp_updp, HQ. unfold tview_of, tv_set. simpl. by rewrite (view_alter _ _ _ g).
Qed.
Lemma wlp_wait_acquire (Q : unit → ptable → Prop) t :
  (tv_wait (tview_of t) = false → ∀ t', tview_of t' = TV (tv_procs (tview_of t))
     (tv_nextpid (tview_of t)) true (tv_init (tview_of t)) → Q tt t') →
  wlp wait_acquire Q t.
Proof.
  intros H. unfold wlp, wait_acquire, zoom. simpl in *. unfold Lock.lk_acquire, bind, gets, modify.
  destruct (t_wait_lock t); [done|]. by apply H.
Qed.
Lemma wlp_wait_release (Q : unit → ptable → Prop) t :
  (tv_wait (tview_of t) = true → ∀ t', tview_of t' = TV (tv_procs (tview_of t))
     (tv_nextpid (tview_of t)) false (tv_init (tview_of t)) → Q tt t') →
  wlp wait_release Q t.
Proof.
  intros H. unfold wlp, wait_release, zoom. simpl in *. unfold Lock.lk_release, bind, gets, modify.
  destruct (t_wait_lock t); [|done]. by apply H.
Qed.

(** A loop whose turn for [i] changes the view of [i] alone, by [f i]. *)
Lemma for_procs_map {A} (f : nat → pview → pview) (body : nat → M ptable (option A)) a n t :
  (∀ i t, wlp (body i) (λ r t', r = None ∧
     tview_of t' = tv_set (alter (f i) i (tv_procs (tview_of t))) (tview_of t)) t) →
  wlp (for_procs (seq a n) body) (λ r t', r = None ∧
    tview_of t' = tv_set (imap (λ j w, if decide (a ≤ j < a + n)%nat then f j w else w)
                            (tv_procs (tview_of t))) (tview_of t)) t.
Proof.
  intros Hbody. revert a t. induction n as [|n IH]; intros a t; cbn [seq for_procs].
  { apply wlp_ret. split; [done|]. unfold tv_set. destruct (tview_of t) as [ps np wt it]. simpl.
    f_equal. symmetry. apply list_eq. intros j. rewrite list_lookup_imap.
    destruct (ps !! j); simpl; [|done]. by rewrite decide_False by lia. }
  apply wlp_bind. eapply wlp_mono; [apply Hbody|]. intros r t1 [-> E1]. cbv beta iota.
  eapply wlp_mono; [apply IH|]. intros r t2 [-> E2]. split; [done|]. rewrite E2, E1.
  unfold tv_set. simpl. f_equal. apply list_eq. intros j. rewrite !list_lookup_imap.
  destruct (decide (a = j)) as [<-|Hne].
  - rewrite list_lookup_alter_eq. destruct (_ !! a); simpl; [|done].
    by rewrite decide_False, decide_True by lia.
  - rewrite list_lookup_alter_ne by done. destruct (_ !! j); simpl; [|done].
    f_equal.
    apply decide_ext. lia.
Qed.
(** A loop that looks for the one process it works on. *)
Lemma for_procs_search {A} (R : nat → A → tview → tview → Prop) (body : nat → M ptable (option A)) ix t :
  (∀ i t, wlp (body i) (λ r t', match r with
     | Some a => R i a (tview_of t) (tview_of t')
     | None => tview_of t' = tview_of t
     end) t) →
  wlp (for_procs ix body) (λ r t', match r with
    | Some a => ∃ i, i ∈ ix ∧ R i a (tview_of t) (tview_of t')
    | None => tview_of t' = tview_of t
    end) t.
Proof.
  intros Hbody. revert t. induction ix as [|i ix IH]; intros t; cbn [for_procs]; [done|].
  apply wlp_bind. eapply wlp_mono; [apply Hbody|]. intros [a|] t1 H1.
  - apply wlp_ret. exists i. split; [by left|done].
  - eapply wlp_mono; [apply IH|]. rewrite H1. intros [a|] t2 H2; [|done].
    destruct H2 as (j & Hj & HR'). exists j. split; [by right|done].
Qed.

(** ** Allocation *)

Lemma freeproc_view i t :
  wlp (freeproc i) (λ _ t', tview_of t' =
    tv_set (alter (λ _, unused) i (tv_procs (tview_of t))) (tview_of t)) t.
Proof.
  unfold freeproc. apply wlp_silent; [apply silent_getp|]. intros p t1 E1.
  apply wlp_silent; [auto with silent|]. intros _ t2 E2.
  apply wlp_silent; [auto with silent|]. intros _ t3 E3.
  apply wlp_silent; [apply silent_getp|]. intros q t4 E4.
  apply wlp_silent; [auto with silent|]. intros _ t5 E5.
  apply wlp_bind. apply (wlp_upd _ _ (λ _, unused)); [done|]. intros t6 E6.
  apply wlp_ret. by rewrite E6, E5, E4, E3, E2, E1.
Qed.

(** A new process in a free slot, or none; a failed allocation may have used
    up a pid and cleaned the slot. *)
Definition allocated (v : tview) (r : option nat) (v' : tview) : Prop :=
  match r with
  | Some i => ∃ w, tv_procs v !! i = Some w ∧ v_state w = UNUSED ∧ (i < Z.to_nat NPROC)%nat ∧
      v' = TV (<[i := v_set_state USED (v_set_pid (tv_nextpid v) w)]> (tv_procs v))
             (s32 (tv_nextpid v + 1)) (tv_wait v) (tv_init v)
  | None => v' = v ∨ ∃ i w, tv_procs v !! i = Some w ∧ v_state w = UNUSED ∧
      v' = TV (<[i := unused]> (tv_procs v)) (s32 (tv_nextpid v + 1)) (tv_wait v) (tv_init v)
  end.

Lemma allocpid_view t :
  wlp allocpid (λ r t', r = tv_nextpid (tview_of t) ∧
    tview_of t' = TV (tv_procs (tview_of t)) (s32 (tv_nextpid (tview_of t) + 1))
                    (tv_wait (tview_of t)) (tv_init (tview_of t))) t.
Proof.
  unfold allocpid. apply wlp_bind, wlp_zoom_any. intros _ b. apply wlp_bind, wlp_gets.
  apply wlp_bind, wlp_modify. apply wlp_bind, wlp_zoom_any. intros _ b'. apply wlp_ret. done.
Qed.

(** Cleaning up after a failed allocation. *)
Lemma abandon_view i t :
  wlp (do! freeproc i; do! proc_release i; ret (@None nat)) (λ r t', r = None ∧ tview_of t' =
    tv_set (alter (λ _, unused) i (tv_procs (tview_of t))) (tview_of t)) t.
Proof.
  apply wlp_bind. eapply wlp_mono; [apply freeproc_view|]. intros [] t1 E1.
  apply wlp_silent; [auto with silent|]. intros _ t2 E2. apply wlp_ret. by rewrite E2, E1.
Qed.
Lemma allocproc_view t : wlp allocproc (λ r t', allocated (tview_of t) r (tview_of t')) t.
Proof.
  unfold allocproc. apply wlp_bind.
  eapply wlp_mono; [apply (for_procs_search (λ i (a : nat) v v', a = i ∧ v' = v ∧
    ∃ w, tv_procs v !! i = Some w ∧ v_state w = UNUSED))|].
  { intros i t1. apply wlp_silent; [auto with silent|]. intros _ t2 E2. apply wlp_get. intros p Hp.
    rewrite E2 in Hp. case_decide.
    - apply wlp_ret. eauto.
    - apply wlp_silent; [auto with silent|]. intros _ t3 E3. apply wlp_ret. by rewrite E3, E2. }
  intros [j|] t1 H1; [|apply wlp_ret; by left].
  destruct H1 as (i & Hi & -> & E1 & w & Hw & Hu). apply elem_of_seq in Hi.
  apply wlp_bind. eapply wlp_mono; [apply allocpid_view|]. intros pid t2 [-> E2]. rewrite E1 in E2.
  apply wlp_bind. apply (wlp_upd _ _ (λ w, v_set_state USED (v_set_pid (tv_nextpid (tview_of t)) w))).
  { intros p. by rewrite E1. }
  intros t3 E3. rewrite E2 in E3. simpl in E3. rewrite (alter_lookup _ _ _ _ Hw) in E3.
  assert (Hfail : ∀ t4, tview_of t4 = tview_of t3 →
    wlp (do! freeproc i; do! proc_release i; ret None) (λ r t', allocated (tview_of t) r (tview_of t')) t4).
  { intros t4 E4. eapply wlp_mono; [apply abandon_view|]. intros r t5 [-> E5].
    right. exists i, w. split_and!; [done..|]. rewrite E5, E4, E3. unfold tv_set. simpl.
    by rewrite alter_insert. }
  apply wlp_silent; [auto with silent|]. intros tf t4 E4.
  apply wlp_silent; [auto with silent|]. intros _ t5 E5.
  destruct (tf =? 0); [apply Hfail; by rewrite E5|].
  apply wlp_silent; [auto with silent|]. intros pt t6 E6.
  apply wlp_silent; [auto with silent|]. intros _ t7 E7.
  destruct (pt =? 0); [apply Hfail; by rewrite E7, E6, E5|].
  apply wlp_ret. exists w. split_and!; [done|done|lia|]. by rewrite E7, E6, E5, E4, E3.
Qed.

Lemma fork_alloc_view me t : wlp (fork_alloc me) (λ r t', allocated (tview_of t) r (tview_of t')) t.
Proof.
  unfold fork_alloc. apply wlp_bind. eapply wlp_mono; [apply allocproc_view|].
  intros [np|] t1 Ha; [|by apply wlp_ret].
  apply wlp_silent; [auto with silent|]. intros p t2 E2.
  apply wlp_silent; [auto with silent|]. intros n t3 E3.
  apply wlp_silent; [auto with silent|]. intros r t4 E4. destruct (r <? 0).
  - eapply wlp_mono; [apply abandon_view|]. intros r' t5 [-> E5].
    destruct Ha as (w & Hw & Hu & _ & Ha). right. exists np, w. split_and!; [done..|].
    rewrite E5, E4, E3, E2, Ha. unfold tv_set. simpl. by rewrite alter_insert.
  - eapply (wlp_mono _ (λ r t', r = Some np ∧ tview_of t' = tview_of t4)).
    2: { intros r' t5 [-> E5]. by rewrite E5, E4, E3, E2. }
    do 9 (apply wlp_silent; [auto with silent|]; intros ???). apply wlp_ret. split; [done|]. congruence.
Qed.

Lemma fork_parent_view me np t :
  wlp (fork_parent me np) (λ _ t', tv_wait (tview_of t) = false ∧ tview_of t' =
    tv_set (alter (v_set_parent (Some me)) np (tv_procs (tview_of t))) (tview_of t)) t.
Proof.
  unfold fork_parent. apply wlp_bind, wlp_wait_acquire. intros Hw t1 E1. apply wlp_bind.
  apply (wlp_upd _ _ (v_set_parent (Some me))); [done|]. intros t2 E2.
  apply wlp_wait_release. intros _ t3 E3. split; [done|]. rewrite E3, E2, E1. unfold tv_set. simpl.
  simpl in Hw. by rewrite Hw.
Qed.
Lemma fork_ready_view np t :
  wlp (fork_ready np) (λ _ t', tview_of t' =
    tv_set (alter (v_set_state RUNNABLE) np (tv_procs (tview_of t))) (tview_of t)) t.
Proof.
  unfold fork_ready. apply wlp_silent; [auto with silent|]. intros _ t1 E1. apply wlp_bind.
  apply (wlp_upd _ _ (v_set_state RUNNABLE)); [done|]. intros t2 E2.
  eapply wlp_mono; [apply silent_release|]. intros [] t3 E3. by rewrite E3, E2, E1.
Qed.

(** ** Sleeping and waking *)

Definition wake (c : channel) (w : pview) : pview :=
  if decide (v_state w = SLEEPING ∧ v_chan w = c) then v_set_state RUNNABLE w else w.
Definition woken (me : option nat) (c : channel) (ws : list pview) : list pview :=
  imap (λ j w, if decide ((j < Z.to_nat NPROC)%nat ∧ Some j ≠ me) then wake c w else w) ws.

Lemma wakeup_view (self : option nat) c t :
  wlp (wakeup self c) (λ _ t', tview_of t' = tv_set (woken self c (tv_procs (tview_of t))) (tview_of t)) t.
Proof.
  unfold wakeup. apply wlp_bind. eapply wlp_mono.
  { apply (for_procs_map (λ i w, if decide (Some i ≠ self) then wake c w else w)). intros i t1.
    case_decide as Hme; case_decide as Hme'; try done.
    - apply wlp_ret. split; [done|]. unfold tv_set. destruct (tview_of t1). simpl. f_equal.
      apply list_eq. intros j. destruct (decide (i = j)) as [<-|]; [|by rewrite list_lookup_alter_ne].
      rewrite list_lookup_alter_eq. by destruct (_ !! i).
    - apply wlp_silent; [auto with silent|]. intros _ t2 E2. apply wlp_get. intros p Hp.
      apply wlp_bind. eapply (wlp_mono _ (λ _ t', tview_of t' =
        tv_set (alter (wake c) i (tv_procs (tview_of t2))) (tview_of t2))).
      + rewrite (alter_lookup _ _ _ _ Hp). unfold wake. simpl.
        apply wlp_when; intros Hb.
        * apply andb_true_iff in Hb as [Hs%bool_decide_eq_true Hc%bool_decide_eq_true].
          apply (wlp_upd _ _ (v_set_state RUNNABLE)); [done|]. intros t3 E3. rewrite E3.
          rewrite (alter_lookup _ _ _ _ Hp), decide_True by done. done.
        * rewrite decide_False.
          -- rewrite list_insert_id by done. done.
          -- apply andb_false_iff in Hb. rewrite !bool_decide_eq_false in Hb. tauto.
      + intros [] t3 E3. apply wlp_silent; [auto with silent|]. intros _ t4 E4.
        apply wlp_ret. split; [done|]. by rewrite E4, E3, E2. }
  intros r t1 [-> E1]. apply wlp_ret. rewrite E1. unfold tv_set. f_equal. apply list_eq. intros j.
  unfold woken, all_procs. rewrite !list_lookup_imap. destruct (_ !! j); simpl; [|done]. f_equal.
  destruct (decide (0 ≤ j < Z.to_nat NPROC)%nat).
  - apply decide_ext. split; [intros; split; [lia|done]|by intros [_ ?]].
  - by rewrite decide_False by lia.
Qed.

Lemma sched_silent c me : silent (F:=F) (sched c me).
Proof. unfold sched. auto 10 with silent. Qed.

Lemma sleep_enter_view me c (rel : M ptable unit) v t :
  (∀ t1, tview_of t1 = tview_of t → wlp rel (λ _ t', tview_of t' = v) t1) →
  wlp (sleep_enter me c rel) (λ _ t', tview_of t' =
    tv_set (alter (λ w, v_set_state SLEEPING (v_set_chan c w)) me (tv_procs v)) v) t.
Proof.
  intros Hrel. unfold sleep_enter. apply wlp_silent; [auto with silent|]. intros _ t1 E1.
  apply wlp_bind. eapply wlp_mono; [by apply Hrel|]. intros [] t2 E2. apply wlp_bind.
  apply (wlp_upd _ _ (λ w, v_set_state SLEEPING (v_set_chan c w))); [done|]. intros t3 E3.
  eapply wlp_mono; [apply sched_silent|]. intros [] t4 E4. by rewrite E4, E3, E2.
Qed.
Lemma sleep_leave_view me t :
  wlp (sleep_leave me) (λ _ t', tview_of t' =
    tv_set (alter (v_set_chan NoChan) me (tv_procs (tview_of t))) (tview_of t)) t.
Proof. by apply (wlp_upd _ _ (v_set_chan NoChan)). Qed.
Lemma yield_view me t :
  wlp (yield me) (λ _ t', tview_of t' =
    tv_set (alter (v_set_state RUNNABLE) me (tv_procs (tview_of t))) (tview_of t)) t.
Proof.
  unfold yield. apply wlp_silent; [auto with silent|]. intros _ t1 E1. apply wlp_bind.
  apply (wlp_upd _ _ (v_set_state RUNNABLE)); [done|]. intros t2 E2.
  eapply wlp_mono; [apply sched_silent|]. intros [] t3 E3. by rewrite E3, E2, E1.
Qed.
Lemma scheduler_turn_view i t :
  wlp (scheduler_turn i) (λ r t', if r
    then (∃ w, tv_procs (tview_of t) !! i = Some w ∧ v_state w = RUNNABLE) ∧
         tview_of t' = tv_set (alter (v_set_state RUNNING) i (tv_procs (tview_of t))) (tview_of t)
    else tview_of t' = tview_of t) t.
Proof.
  unfold scheduler_turn. apply wlp_silent; [auto with silent|]. intros _ t1 E1. apply wlp_get.
  intros p Hp. rewrite E1 in Hp. case_decide as Hs.
  - apply wlp_bind. apply (wlp_upd _ _ (v_set_state RUNNING)); [done|]. intros t2 E2.
    apply wlp_silent; [auto with silent|]. intros _ t3 E3. apply wlp_ret. split; [by eauto|].
    by rewrite E3, E2, E1.
  - apply wlp_silent; [auto with silent|]. intros _ t3 E3. apply wlp_ret. by rewrite E3, E1.
Qed.

Definition kill_mark (w : pview) : pview :=
  v_set_killed 1 (if decide (v_state w = SLEEPING) then v_set_state RUNNABLE w else w).
Lemma kill_view pid t :
  wlp (kill pid) (λ r t', r = -1 ∧ tview_of t' = tview_of t ∨
    r = 0 ∧ ∃ i w, tv_procs (tview_of t) !! i = Some w ∧ v_pid w = pid ∧
      tview_of t' = tv_set (<[i := kill_mark w]> (tv_procs (tview_of t))) (tview_of t)) t.
Proof.
  unfold kill. apply wlp_bind. eapply wlp_mono.
  { apply (for_procs_search (λ i a v v', a = 0 ∧ ∃ w, tv_procs v !! i = Some w ∧ v_pid w = pid ∧
      v' = tv_set (<[i := kill_mark w]> (tv_procs v)) v)). intros i t1.
    apply wlp_silent; [auto with silent|]. intros _ t2 E2. apply wlp_get. intros p Hp.
    destruct (Z.eqb_spec (p_pid p) pid).
    2: { apply wlp_silent; [auto with silent|]. intros _ t3 E3. apply wlp_ret. by rewrite E3, E2. }
    apply wlp_bind. apply (wlp_upd _ _ (v_set_killed 1)); [done|]. intros t3 E3.
    rewrite (alter_lookup _ _ _ _ Hp) in E3. apply wlp_bind.
    eapply (wlp_mono _ (λ _ t', tview_of t' =
      tv_set (<[i := kill_mark (view p)]> (tv_procs (tview_of t2))) (tview_of t2))).
    - unfold kill_mark. simpl. apply wlp_when; intros Hb; [apply bool_decide_eq_true in Hb|apply bool_decide_eq_false in Hb].
      + apply (wlp_upd _ _ (v_set_state RUNNABLE)); [done|]. intros t4 E4.
        rewrite E4, E3. unfold tv_set. simpl. by rewrite alter_insert, decide_True.
      + rewrite decide_False by done. exact E3.
    - intros [] t4 E4. apply wlp_silent; [auto with silent|]. intros _ t5 E5. apply wlp_ret.
      split; [done|]. exists (view p). rewrite <- E2. split_and!; [done..|]. by rewrite E5, E4. }
  intros [a|] t1 H1; apply wlp_ret; [right|left; done].
  destruct H1 as (i & _ & -> & w & ? & ? & ?). eauto 6.
Qed.

(** ** exit and wait *)

Definition adopt (me : nat) (init : option nat) (ws : list pview) (i : nat) : list pview :=
  match ws !! i with
  | Some w =>
      if decide (v_parent w = Some me) then
        let ws := <[i := v_set_parent init w]> ws in
        match init with Some j => woken (Some me) (AtProc j) ws | None => ws end
      else ws
  | None => ws
  end.
Lemma reparent_view me t :
  wlp (reparent me) (λ _ t', tview_of t' =
    tv_set (foldl (adopt me (tv_init (tview_of t))) (tv_procs (tview_of t)) all_procs) (tview_of t)) t.
Proof.
  unfold reparent. apply wlp_bind. generalize all_procs as ix. intros ix. revert t.
  induction ix as [|i ix IH]; intros t; cbn [for_procs foldl].
  { apply wlp_ret, wlp_ret. by destruct (tview_of t). }
  apply wlp_bind. eapply (wlp_mono _ (λ r t', r = None ∧ tview_of t' =
    tv_set (adopt me (tv_init (tview_of t)) (tv_procs (tview_of t)) i) (tview_of t))).
  - apply wlp_get. intros p Hp. unfold adopt. rewrite Hp. simpl. case_decide.
    2: { apply wlp_ret. done. }
    apply wlp_bind, wlp_gets, wlp_bind.
    apply (wlp_upd _ _ (v_set_parent (t_initproc t))); [done|]. intros t1 E1.
    rewrite (alter_lookup _ _ _ _ Hp) in E1. apply wlp_bind. destruct (t_initproc t) as [j|].
    + eapply wlp_mono; [apply wakeup_view|]. intros [] t2 E2. apply wlp_ret. split; [done|].
      rewrite E2, E1. done.
    + apply wlp_ret, wlp_ret. split; [done|]. rewrite E1. done.
  - intros r t1 [-> E1]. eapply wlp_mono; [apply IH|]. intros r t2 H. revert H. rewrite E1. done.
Qed.

Lemma exit_zombie_view me status t :
  wlp (exit_zombie me status) (λ _ t', let v := tview_of t in tv_wait v = false ∧
    let ws := foldl (adopt me (tv_init v)) (tv_procs v) all_procs in
    ∃ w, ws !! me = Some w ∧
    let ws' := match v_parent w with Some q => woken (Some me) (AtProc q) ws | None => ws end in
    tview_of t' = tv_set (alter (λ w, v_set_state ZOMBIE (v_set_xstate status w)) me ws') v) t.
Proof.
  unfold exit_zombie. apply wlp_bind, wlp_wait_acquire. intros Hw t1 E1.
  apply wlp_bind. eapply wlp_mono; [apply reparent_view|]. intros [] t2 E2. rewrite E1 in E2.
  cbn [tv_init tv_procs] in E2. revert E2. cbv zeta.
  generalize (foldl (adopt me (tv_init (tview_of t))) (tv_procs (tview_of t)) all_procs). intros ws E2.
  apply wlp_get. intros p Hp. rewrite E2 in Hp. cbn [tv_procs tv_set] in Hp. apply wlp_bind.
  eapply (wlp_mono _ (λ _ t', tview_of t' = tv_set (match p_parent p with
    | Some q => woken (Some me) (AtProc q) (tv_procs (tview_of t2))
    | None => tv_procs (tview_of t2) end) (tview_of t2))).
  { destruct (p_parent p); [apply wakeup_view|]. apply wlp_ret. by destruct (tview_of t2). }
  intros [] t3 E3. apply wlp_silent; [auto with silent|]. intros _ t4 E4. apply wlp_bind.
  apply (wlp_upd _ _ (λ w, v_set_state ZOMBIE (v_set_xstate status w))); [done|]. intros t5 E5.
  apply wlp_bind, wlp_wait_release. intros _ t6 E6.
  eapply wlp_mono; [apply sched_silent|]. intros [] t7 E7. split; [done|].
  exists (view p). split; [done|]. rewrite E7, E6, E5, E4, E3, E2. unfold tv_set. simpl.
  simpl in Hw. by rewrite Hw.
Qed.

(** What a scan of [wait] finds. *)
Definition scanned (me : nat) (v : tview) (r : unit + Z) (v' : tview) : Prop :=
  match r with
  | inl _ => v' = v ∧
      (∀ i w, (i < Z.to_nat NPROC)%nat → tv_procs v !! i = Some w → v_parent w = Some me →
         v_state w ≠ ZOMBIE) ∧
      ∃ i w, tv_procs v !! i = Some w ∧ v_parent w = Some me
  | inr r => ∃ ws', v' = TV ws' (tv_nextpid v) false (tv_init v) ∧
      (r = -1 ∧ ws' = tv_procs v ∨
       ∃ i w, tv_procs v !! i = Some w ∧ v_parent w = Some me ∧ v_state w = ZOMBIE ∧
         r = v_pid w ∧ ws' = <[i := unused]> (tv_procs v))
  end.

Lemma wait_loop_view ix me addr havekids t :
  wlp (wait_loop ix me addr havekids) (λ r t', let v := tview_of t in let v' := tview_of t' in
    match r with
    | inl _ => v' = v ∧
        (∀ i w, i ∈ ix → tv_procs v !! i = Some w → v_parent w = Some me → v_state w ≠ ZOMBIE) ∧
        (havekids = true ∨ ∃ i w, tv_procs v !! i = Some w ∧ v_parent w = Some me)
    | inr r => scanned me v (inr r) v'
    end) t.
Proof.
  revert havekids t. induction ix as [|i ix IH]; intros havekids t; cbn [wait_loop].
  - apply wlp_get. intros p Hp. destruct (negb havekids || truth (p_killed p)) eqn:Hk.
    + apply wlp_bind, wlp_wait_release. intros Hw t1 E1. apply wlp_ret. simpl in *.
      eexists. split; [done|]. left. done.
    + apply wlp_ret. split_and!; [done|by intros ?? ?%not_elem_of_nil|left].
      by apply orb_false_iff in Hk as [?%negb_false_iff _].
  - apply wlp_get. intros p Hp. case_decide as Hpar.
    2: { eapply wlp_mono; [apply IH|]. intros [[]|r] t1; [|done]. intros (E & Hz & Hh).
         split_and!; [done| |done]. intros j w [->|Hj]%elem_of_cons Hw Hme; [|eauto].
         rewrite Hp in Hw. injection Hw as <-. done. }
    apply wlp_silent; [auto with silent|]. intros _ t1 E1. case_decide as Hz.
    + apply wlp_silent; [auto with silent|]. intros q t2 E2.
      apply wlp_silent; [auto with silent|]. intros r t3 E3. destruct (r <? 0).
      * apply wlp_silent; [auto with silent|]. intros _ t4 E4.
        apply wlp_bind, wlp_wait_release. intros _ t5 E5. apply wlp_ret.
        rewrite E5, E4, E3, E2, E1. eexists. split; [done|]. by left.
      * apply wlp_bind. eapply wlp_mono; [apply freeproc_view|]. intros [] t4 E4.
        apply wlp_silent; [auto with silent|]. intros _ t5 E5.
        apply wlp_bind, wlp_wait_release. intros _ t6 E6. apply wlp_ret.
        rewrite E6, E5, E4, E3, E2, E1. simpl tv_procs at 1. eexists. split; [done|]. right.
        exists i, (view p). split_and!; [done..|]. by rewrite (alter_lookup _ _ _ _ Hp).
    + apply wlp_silent; [auto with silent|]. intros _ t2 E2. eapply wlp_mono; [apply IH|].
      rewrite E2, E1. intros [[]|r] t3; [|done]. intros (E & Hall & _). split_and!; [done| |].
      * intros j w [->|Hj]%elem_of_cons Hw Hme; [|eauto]. rewrite Hp in Hw. injection Hw as <-. done.
      * right. eauto.
Qed.
Lemma wait_scan_view me addr t :
  wlp (wait_scan me addr) (λ r t', scanned me (tview_of t) r (tview_of t')) t.
Proof.
  eapply wlp_mono; [apply wait_loop_view|]. intros [[]|r] t'; [|done].
  intros (E & Hz & [?|H]); [done|]. split_and!; [done| |done].
  intros i w Hi. apply Hz. apply elem_of_seq. lia.
Qed.
End sections.
