(* ===== verification/ProcInv.v ===== *)
(** kernel/proc.c under concurrency: processes that fork, exit, wait, sleep,
    wake each other, kill and are preempted, in every interleaving of their
    critical sections.  A section runs from one acquisition of its outermost
    lock to the release; [wait] holds [wait_lock] from its scan to its sleep,
    so that these are two steps and other processes can run between them. *)

From S2P Require Import Prelude Riscv Mem Spinlock Kalloc Vm ProcMem Proc ProcSpec.

(** Where a process is in its system calls. *)
Inductive thread :=
| TRun                   (* user code, or the kernel between critical sections *)
| TFork1 (np : nat)      (* in fork, the child allocated *)
| TFork2 (np : nat)      (* in fork, the child's parent set *)
| TExit                  (* in exit, the files closed *)
| TWait1                 (* in wait, holding wait_lock, about to sleep *)
| TWait2                 (* in wait's sleep *)
| TSleep                 (* in sleep elsewhere *)
| TGone.                 (* exited *)
#[export] Instance thread_eq_dec : EqDecision thread.
Proof. solve_decision. Defined.

Definition upd (pc : nat → thread) (i : nat) (x : thread) : nat → thread :=
  λ j, if decide (j = i) then x else pc j.

Section machine.
Context {F : Type} {L : Linker} `{FO : FileOps F}.
Abbreviation table := (ptable (F:=F)).
Implicit Types t : table.

Definition running t (i : nat) : Prop := ∃ p, t_procs t !! i = Some p ∧ p_state p = RUNNING.
Definition wait_again (i : nat) (addr : Z) : M table (unit + Z) :=
  do! sleep_leave i;
  do! wait_acquire;
  wait_scan i addr.
Definition after_scan (r : unit + Z) : thread := match r with inl _ => TWait1 | inr _ => TRun end.

(** Pids are 31 bits wide: fewer than [2 ^ 31 - 1] processes are ever made. *)
Inductive step : table * (nat → thread) → table * (nat → thread) → Prop :=
| step_fork t pc i np t' :
    running t i → pc i = TRun → t_nextpid t < 2 ^ 31 - 1 → fork_alloc i t = Ok (Some np) t' →
    step (t, pc) (t', upd (upd pc np TRun) i (TFork1 np))
| step_nofork t pc i t' :
    running t i → pc i = TRun → t_nextpid t < 2 ^ 31 - 1 → fork_alloc i t = Ok None t' →
    step (t, pc) (t', pc)
| step_parent t pc i np t' :
    running t i → pc i = TFork1 np → fork_parent i np t = Ok tt t' →
    step (t, pc) (t', upd pc i (TFork2 np))
| step_ready t pc i np t' :
    running t i → pc i = TFork2 np → fork_ready np t = Ok tt t' →
    step (t, pc) (t', upd pc i TRun)
| step_close t pc i t' :
    running t i → pc i = TRun → exit_close i t = Ok tt t' →
    step (t, pc) (t', upd pc i TExit)
| step_zombie t pc i status t' :
    running t i → pc i = TExit → exit_zombie i status t = Ok tt t' →
    step (t, pc) (t', upd pc i TGone)
| step_wait t pc i addr r t' :
    running t i → pc i = TRun → bind wait_acquire (λ _, wait_scan i addr) t = Ok r t' →
    step (t, pc) (t', upd pc i (after_scan r))
| step_wait_sleep t pc i t' :
    running t i → pc i = TWait1 → sleep_enter i (AtProc i) wait_release t = Ok tt t' →
    step (t, pc) (t', upd pc i TWait2)
| step_wait_again t pc i addr r t' :
    running t i → pc i = TWait2 → wait_again i addr t = Ok r t' →
    step (t, pc) (t', upd pc i (after_scan r))
| step_sleep t pc i a t' :
    running t i → pc i = TRun → sleep_enter i (AtAddr a) (ret tt) t = Ok tt t' →
    step (t, pc) (t', upd pc i TSleep)
| step_resume t pc i t' :
    running t i → pc i = TSleep → sleep_leave i t = Ok tt t' →
    step (t, pc) (t', upd pc i TRun)
| step_wakeup t pc self a t' :           (* by a process or an interrupt *)
    wakeup self (AtAddr a) t = Ok tt t' →
    step (t, pc) (t', pc)
| step_kill t pc i pid r t' :
    running t i → pc i = TRun → kill pid t = Ok r t' →
    step (t, pc) (t', pc)
| step_yield t pc i t' :                 (* a timer interrupt, with no lock held *)
    running t i → pc i ≠ TWait1 → yield i t = Ok tt t' →
    step (t, pc) (t', pc)
| step_sched t pc i b t' :
    scheduler_turn i t = Ok b t' →
    step (t, pc) (t', pc).

(** ** The invariant *)

Definition alive (w : pview) : Prop := v_state w ∉ [UNUSED; USED; ZOMBIE].

(** The table by itself. *)
Record table_inv (v : tview) : Prop := {
  in_len : length (tv_procs v) = Z.to_nat NPROC;
  in_unused : ∀ i w, tv_procs v !! i = Some w → v_state w = UNUSED → v_pid w = 0 ∧ v_parent w = None;
  in_next : tv_nextpid v < 2 ^ 31;
  in_pid : ∀ i w, tv_procs v !! i = Some w → v_state w ≠ UNUSED → 1 ≤ v_pid w < tv_nextpid v;
  in_pids : ∀ i j w w', tv_procs v !! i = Some w → tv_procs v !! j = Some w' →
    v_state w ≠ UNUSED → v_pid w = v_pid w' → i = j;
  in_init : ∃ i w, tv_init v = Some i ∧ tv_procs v !! i = Some w ∧ v_parent w = None ∧ alive w;
  in_parent : ∀ i w q, tv_procs v !! i = Some w → v_parent w = Some q →
    ∃ wq, tv_procs v !! q = Some wq ∧ alive wq;
}.
(** The processes' progress: one that has no parent is init or has not been
    given one yet; a child being forked belongs to one forking process; init
    does not exit;
    [wait_lock] is held by the process about to sleep in [wait]. And no wakeup
    is lost: a process that sleeps in [wait], or is about to, has a child, and
    none of its children is a zombie. *)
Record thread_inv (v : tview) (pc : nat → thread) : Prop := {
  in_orphan : ∀ i w, tv_procs v !! i = Some w → v_state w ≠ UNUSED → v_parent w = None →
    tv_init v = Some i ∨ ∃ f, pc f = TFork1 i;
  in_fork1 : ∀ f np, pc f = TFork1 np →
    ∃ w, tv_procs v !! np = Some w ∧ v_state w = USED ∧ v_parent w = None;
  in_fork2 : ∀ f np, pc f = TFork2 np →
    ∃ w, tv_procs v !! np = Some w ∧ v_state w = USED ∧ v_parent w = Some f;
  in_forks : ∀ f g np, pc f = TFork1 np ∨ pc f = TFork2 np → pc g = TFork1 np ∨ pc g = TFork2 np → f = g;
  in_state : ∀ i w, tv_procs v !! i = Some w →
    match v_state w with
    | UNUSED | ZOMBIE => pc i = TGone
    | USED => pc i = TRun ∧ ∃ f, pc f = TFork1 i ∨ pc f = TFork2 i
    | SLEEPING => pc i = TWait2 ∧ v_chan w = AtProc i ∨ pc i = TSleep ∧ ∃ a, v_chan w = AtAddr a
    | RUNNABLE => pc i ≠ TGone ∧ pc i ≠ TWait1
    | RUNNING => pc i ≠ TGone
    end;
  in_lock : ∀ i, pc i = TWait1 → tv_wait v = true ∧ ∀ j, pc j = TWait1 → j = i;
  in_locked : tv_wait v = true → ∃ i, pc i = TWait1;
  in_out : ∀ i, (Z.to_nat NPROC ≤ i)%nat → pc i = TGone;
  in_wait : ∀ i w, tv_procs v !! i = Some w →
    pc i = TWait1 ∨ pc i = TWait2 ∧ v_state w = SLEEPING →
    (∃ j wj, tv_procs v !! j = Some wj ∧ v_parent wj = Some i) ∧
    ∀ j wj, tv_procs v !! j = Some wj → v_parent wj = Some i → v_state wj ≠ ZOMBIE;
  in_exit : ∀ i, pc i = TExit → tv_init v ≠ Some i;
}.
Definition inv (v : tview) (pc : nat → thread) : Prop := table_inv v ∧ thread_inv v pc.

Lemma alive_spec w : alive w ↔ v_state w = SLEEPING ∨ v_state w = RUNNABLE ∨ v_state w = RUNNING.
Proof. unfold alive. destruct (v_state w); set_solver. Qed.

Lemma alive_ne w : alive w → v_state w ≠ UNUSED ∧ v_state w ≠ USED ∧ v_state w ≠ ZOMBIE.
Proof. rewrite alive_spec. intros [E|[E|E]]; rewrite E; done. Qed.

(** The threads that hold something. *)
Definition holds (x : thread) : bool :=
  match x with TFork1 _ | TFork2 _ | TWait1 | TExit | TGone => true | _ => false end.
Definition state_ok (i : nat) (w : pview) (x : thread) : Prop :=
  match v_state w with
  | SLEEPING => x = TWait2 ∧ v_chan w = AtProc i ∨ x = TSleep ∧ ∃ a, v_chan w = AtAddr a
  | RUNNABLE => x ≠ TGone ∧ x ≠ TWait1
  | RUNNING => x ≠ TGone
  | _ => False
  end.

Lemma lookup_insert_cases {A} (l : list A) i x j y :
  <[i := x]> l !! j = Some y → j = i ∧ y = x ∨ j ≠ i ∧ l !! j = Some y.
Proof.
  destruct (decide (j = i)) as [->|Hne]; [|rewrite list_lookup_insert_ne by done; by right].
  intros H. left. split; [done|]. pose proof (lookup_lt_Some _ _ _ H) as Hlt.
  rewrite length_insert in Hlt. rewrite list_lookup_insert_eq in H by done. by injection H.
Qed.

(** What a process may do to itself, and wakeups to others: it stays alive, or
    stays as it is; it keeps its pid and parent and what it holds; and nobody
    starts to sleep in [wait]. *)
Definition moves (pc pc' : nat → thread) (j : nat) (w w' : pview) : Prop :=
  v_pid w' = v_pid w ∧ v_parent w' = v_parent w ∧
  (pc' j = pc j ∨ holds (pc j) = false ∧ holds (pc' j) = false) ∧
  (v_state w' = v_state w ∧ (v_state w = SLEEPING → v_chan w' = v_chan w) ∧ pc' j = pc j ∨ alive w ∧ alive w' ∧ state_ok j w' (pc' j) ∧
    (pc' j = TWait2 → v_state w' = SLEEPING → pc j = TWait2 ∧ v_state w = SLEEPING)).
Lemma moves_state pc pc' j w w' x : moves pc pc' j w w' →
  x = UNUSED ∨ x = USED ∨ x = ZOMBIE → v_state w' = x ↔ v_state w = x.
Proof.
  intros (_ & _ & _ & [[-> _]|(Ha & Ha' & _)]) Hx; [done|].
  destruct (alive_ne _ Ha) as (? & ? & ?), (alive_ne _ Ha') as (? & ? & ?).
  split; intros E; destruct Hx as [->|[->| ->]]; congruence.
Qed.

(** What a step may do to the table: a process that was there keeps its pid,
    or its slot becomes free; parents stay alive. *)
Definition remains (w w' : pview) : Prop :=
  v_state w' = UNUSED ∧ v_pid w' = 0 ∧ v_parent w' = None ∨
  v_state w' ≠ UNUSED ∧ v_state w ≠ UNUSED ∧ v_pid w' = v_pid w.
Lemma table_many v ws' wt :
  table_inv v → length ws' = length (tv_procs v) →
  (∀ j w w', tv_procs v !! j = Some w → ws' !! j = Some w' → remains w w') →
  (∀ j w' q, ws' !! j = Some w' → v_parent w' = Some q → ∃ wq, ws' !! q = Some wq ∧ alive wq) →
  (∀ i w, tv_init v = Some i → tv_procs v !! i = Some w → v_parent w = None → alive w →
     ∃ w', ws' !! i = Some w' ∧ v_parent w' = None ∧ alive w') →
  table_inv (TV ws' (tv_nextpid v) wt (tv_init v)).
Proof.
  intros [Hlen Hun Hnext Hpid Hpids Hinit Hpar] Hlen' Hrem Hpar' Hinit'.
  assert (Hold : ∀ j w', ws' !! j = Some w' → ∃ w, tv_procs v !! j = Some w ∧ remains w w').
  { intros j w' Hj. destruct (lookup_lt_is_Some_2 (tv_procs v) j) as [w Hw]; [|eauto].
    rewrite <- Hlen'. by eapply lookup_lt_Some. }
  split; cbn [tv_procs tv_nextpid tv_wait tv_init].
  - by rewrite Hlen'.
  - intros j w' Hj Hu. destruct (Hold _ _ Hj) as (w & Hw & [(_ & ? & ?)|(? & _)]); done.
  - done.
  - intros j w' Hj Hu. destruct (Hold _ _ Hj) as (w & Hw & [[? _]|(_ & Hu0 & ->)]); [done|eauto].
  - intros j k wj wk Hj Hk Hu E.
    destruct (Hold _ _ Hj) as (w1 & Hw1 & [[? _]|(_ & Hu1 & E1)]); [done|].
    destruct (Hold _ _ Hk) as (w2 & Hw2 & [(_ & E2 & _)|(_ & Hu2 & E2)]).
    + pose proof (Hpid _ _ Hw1 Hu1). lia.
    + apply (Hpids _ _ _ _ Hw1 Hw2 Hu1). congruence.
  - destruct Hinit as (i & w & E & Hi & Hp & Ha). destruct (Hinit' i w) as (w' & ? & ? & ?); eauto 6.
  - done.
Qed.

Section many.
Context (v : tview) (pc pc' : nat → thread) (ws' : list pview).
Context (Hinv : inv v pc) (Hlen' : length ws' = length (tv_procs v)).
Context (Hmv : ∀ j w w', tv_procs v !! j = Some w → ws' !! j = Some w' → moves pc pc' j w w').
Context (Hout' : ∀ j, (Z.to_nat NPROC ≤ j)%nat → pc' j = pc j).

Lemma many_old j w' : ws' !! j = Some w' → ∃ w, tv_procs v !! j = Some w ∧ moves pc pc' j w w'.
Proof using Hlen' Hmv.
  intros Hj. destruct (lookup_lt_is_Some_2 (tv_procs v) j) as [w Hw].
  { rewrite <- Hlen'. by eapply lookup_lt_Some. }
  eauto.
Qed.
Lemma many_new j w : tv_procs v !! j = Some w → ∃ w', ws' !! j = Some w' ∧ moves pc pc' j w w'.
Proof using Hlen' Hmv.
  intros Hj. destruct (lookup_lt_is_Some_2 ws' j) as [w' Hw].
  { rewrite Hlen'. by eapply lookup_lt_Some. }
  eauto.
Qed.
Lemma moves_alive j w w' : moves pc pc' j w w' → alive w → alive w'.
Proof. intros (_ & _ & _ & [[E _]|(_ & Ha & _)]) H; [|done]. unfold alive. by rewrite E. Qed.
Lemma many_table : table_inv (tv_set ws' v).
Proof using Hinv Hlen' Hmv.
  destruct Hinv as [Ht _]. apply table_many; [done|done| | |].
  - intros j w w' Hj Hj'. pose proof (Hmv _ _ _ Hj Hj') as Hm. pose proof Hm as (E1 & E2 & _).
    destruct (decide (v_state w' = UNUSED)) as [Hu|Hu].
    + left. pose proof (proj1 (moves_state _ _ _ _ _ _ Hm (or_introl eq_refl)) Hu) as Hu0.
      destruct (in_unused _ Ht _ _ Hj Hu0). split_and!; congruence.
    + right. split_and!; [done| |done]. intros Hu0. by apply Hu, (moves_state _ _ _ _ _ _ Hm); [left|].
  - intros j w' q Hj Hq. destruct (many_old _ _ Hj) as (w & Hw & Hm). rewrite (proj1 (proj2 Hm)) in Hq.
    destruct (in_parent _ Ht _ _ _ Hw Hq) as (wq & Hwq & Ha).
    destruct (many_new _ _ Hwq) as (wq' & Hwq' & Hm'). eauto using moves_alive.
  - intros i w _ Hi Hp Ha. destruct (many_new _ _ Hi) as (w' & Hi' & Hm). exists w'.
    split_and!; [done| |by eapply moves_alive]. by rewrite (proj1 (proj2 Hm)).
Qed.
Lemma many_pc f x : holds x = true → pc' f = x ↔ pc f = x.
Proof using Hinv Hlen' Hmv Hout'.
  intros Hx. destruct (decide (f < length (tv_procs v))%nat) as [Hlt|Hge].
  - destruct (lookup_lt_is_Some_2 _ _ Hlt) as [w Hw].
    destruct (many_new _ _ Hw) as (w' & _ & _ & _ & [->|[H1 H2]] & _); [done|].
    split; intros E; rewrite E in *; congruence.
  - rewrite Hout'; [done|]. rewrite <- (in_len _ (proj1 Hinv)). lia.
Qed.
Lemma many_fork np par : v_state par = USED → tv_procs v !! np = Some par →
  ∃ w', ws' !! np = Some w' ∧ v_state w' = USED ∧ v_parent w' = v_parent par.
Proof using Hlen' Hmv.
  intros Hs Hn. destruct (many_new _ _ Hn) as (w' & Hw' & Hm). exists w'. split_and!; [done| |apply Hm].
  apply (moves_state _ _ _ _ _ _ Hm); auto.
Qed.
Lemma many_threads : thread_inv (tv_set ws' v) pc'.
Proof using Hinv Hlen' Hmv Hout'.
  pose proof many_old as Hold. pose proof many_new as Hnew. pose proof many_pc as Hpc.
  pose proof many_fork as Hfork. destruct Hinv as [_ [Horph Hf1 Hf2 Hff Hst Hlk Hlkd Hout Hw Hex]].
  split; cbn [tv_set tv_procs tv_nextpid tv_wait tv_init].
  - intros j w' Hj Hu Hp. destruct (Hold _ _ Hj) as (w & Hw0 & Hm). rewrite (proj1 (proj2 Hm)) in Hp.
    destruct (Horph _ _ Hw0) as [?|[f Hf]]; [|done|by left|right; exists f; by apply Hpc].
    intros E. apply Hu, (moves_state _ _ _ _ _ _ Hm); auto.
  - intros f np Hf%Hpc; [|done]. destruct (Hf1 _ _ Hf) as (wn & Hn & Hs & Hp).
    destruct (Hfork np wn Hs Hn) as (w' & ? & ? & ?). exists w'. split_and!; congruence.
  - intros f np Hf%Hpc; [|done]. destruct (Hf2 _ _ Hf) as (wn & Hn & Hs & Hp).
    destruct (Hfork np wn Hs Hn) as (w' & ? & ? & ?). exists w'. split_and!; congruence.
  - intros f g np Hf Hg. rewrite !Hpc in Hf, Hg by done. eauto.
  - intros j w' Hj. destruct (Hold _ _ Hj) as (w & Hw0 & Hm). specialize (Hst _ _ Hw0).
    destruct Hm as (_ & _ & _ & [(-> & Hc & ->)|(_ & Ha & Hok & _)]).
    + destruct (v_state w); try done; [|by rewrite Hc]. destruct Hst as [? [f Hf]]. split; [done|]. exists f.
      by rewrite !Hpc.
    + revert Hok. unfold state_ok. by destruct (v_state w').
  - intros j Hj%Hpc; [|done]. destruct (Hlk _ Hj) as [Hl Huq]. split; [done|].
    intros k Hk%Hpc; [auto|done].
  - intros Hl. destruct (Hlkd Hl) as [j Hj]. exists j. by apply Hpc.
  - intros j Hj. apply Hpc; [done|]. by apply Hout.
  - intros j w' Hj Hwait. destruct (Hold _ _ Hj) as (w & Hw0 & Hm).
    destruct (Hw j w Hw0) as [(k & wk & Hk & Hpk) Hz].
    { destruct Hwait as [E|[E Es]]; [left; by apply Hpc|right].
      destruct Hm as (_ & _ & _ & [(E1 & _ & E2)|(_ & _ & _ & H)]); [|auto]. by rewrite <- E1, <- E2. }
    split.
    + destruct (Hnew _ _ Hk) as (wk' & Hk' & Hmk). exists k, wk'. split; [done|]. by rewrite (proj1 (proj2 Hmk)).
    + intros m wm Hm' Hpm Ez. destruct (Hold _ _ Hm') as (wm0 & Hm0 & Hmm).
      rewrite (proj1 (proj2 Hmm)) in Hpm. apply (Hz _ _ Hm0 Hpm), (moves_state _ _ _ _ _ _ Hmm); auto.
  - intros j Hj%Hpc; [by apply Hex|done].
Qed.
Lemma inv_many : inv (tv_set ws' v) pc'.
Proof using Hinv Hlen' Hmv Hout'. split; [apply many_table|apply many_threads]. Qed.
End many.

(** ** Steps of one process *)

Lemma moves_refl pc pc' j w : pc' j = pc j → moves pc pc' j w w.
Proof. intros E. unfold moves. auto 8. Qed.

Lemma inv_lt v pc i w : inv v pc → tv_procs v !! i = Some w → (i < Z.to_nat NPROC)%nat.
Proof. intros Hinv Hi. rewrite <- (in_len _ (proj1 Hinv)). by eapply lookup_lt_Some. Qed.

Lemma inv_self v pc pc' i w w' :
  inv v pc → tv_procs v !! i = Some w → (∀ j, j ≠ i → pc' j = pc j) → moves pc pc' i w w' →
  inv (tv_set (<[i := w']> (tv_procs v)) v) pc'.
Proof.
  intros Hinv Hi Hoth Hm. pose proof (inv_lt _ _ _ _ Hinv Hi) as Hlt.
  apply (inv_many v pc); [done|by rewrite length_insert| |].
  - intros j wj wj' Hj [[-> ->]|[Hne Hj']]%lookup_insert_cases.
    + rewrite Hi in Hj. by injection Hj as <-.
    + rewrite Hj in Hj'. injection Hj' as <-. by apply moves_refl, Hoth.
  - intros j Hj. apply Hoth. lia.
Qed.
Lemma inv_woken v pc self c : inv v pc → inv (tv_set (woken self c (tv_procs v)) v) pc.
Proof.
  intros Hinv. apply (inv_many v pc); [done|by apply length_imap| |done].
  intros j w w' Hj. unfold woken. rewrite list_lookup_imap, Hj. intros [= <-].
  case_decide; [|by apply moves_refl]. unfold wake. case_decide as Hs; [|by apply moves_refl].
  pose proof (in_state _ _ (proj2 Hinv) _ _ Hj) as Hst. rewrite (proj1 Hs) in Hst.
  assert (pc j ≠ TGone ∧ pc j ≠ TWait1) by (destruct Hst as [[-> _]|[-> _]]; done).
  split_and!; [done|done|by left|right]. split_and!.
  - apply alive_spec. tauto.
  - apply alive_spec. simpl. tauto.
  - done.
  - done.
Qed.

Definition same_table t t' : Prop := tview_of t' = tview_of t.
Lemma running_view t i : running t i →
  ∃ w, tv_procs (tview_of t) !! i = Some w ∧ v_state w = RUNNING.
Proof. intros (p & Hp & Hs). exists (view p). simpl. by rewrite list_lookup_fmap, Hp. Qed.

Lemma upd_eq pc i x : upd pc i x i = x.
Proof. unfold upd. by rewrite decide_True. Qed.
Lemma upd_ne pc i x j : j ≠ i → upd pc i x j = pc j.
Proof. intros. unfold upd. by rewrite decide_False. Qed.

(** The running process goes on, elsewhere or in another state. *)
Lemma inv_goes v pc i w w' x :
  inv v pc → tv_procs v !! i = Some w → v_state w = RUNNING → alive w' →
  v_pid w' = v_pid w → v_parent w' = v_parent w →
  x = pc i ∨ holds (pc i) = false ∧ holds x = false → state_ok i w' x →
  (x = TWait2 → v_state w' = SLEEPING → False) →
  inv (tv_set (<[i := w']> (tv_procs v)) v) (upd pc i x).
Proof.
  intros Hinv Hi Hr Ha E1 E2 Hh Hok Hn. apply (inv_self _ pc _ _ w); [done..|by intros; apply upd_ne|].
  unfold moves. rewrite !upd_eq. split_and!; [done|done|by destruct Hh; auto|right].
  split_and!; [apply alive_spec; auto|done|done|]. intros Hx Hs. by destruct (Hn Hx Hs).
Qed.


(** ** The steps of fork *)

Section fork.
Context (v : tview) (pc : nat → thread) (i np : nat) (w wn : pview).
Context (Hinv : inv v pc) (Hi : tv_procs v !! i = Some w) (Hr : v_state w = RUNNING).
Context (Hn : tv_procs v !! np = Some wn).
Abbreviation ws := (tv_procs v).

Lemma running_alive : alive w.
Proof using Hr. apply alive_spec. auto. Qed.
(** Only living processes are parents. *)
Lemma not_parent j wj : ¬ alive wn → ws !! j = Some wj → v_parent wj ≠ Some np.
Proof using Hinv Hn.
  intros Ha Hj E. destruct (in_parent _ (proj1 Hinv) _ _ _ Hj E) as (wn' & Hn' & Ha').
  rewrite Hn in Hn'. by injection Hn' as <-.
Qed.
Lemma dead_ne : ¬ alive wn → np ≠ i.
Proof using Hi Hr Hn. intros Ha ->. rewrite Hi in Hn. injection Hn as <-. by apply Ha, running_alive. Qed.
Lemma not_init : ¬ alive wn → tv_init v ≠ Some np.
Proof using Hinv Hn.
  intros Ha E. destruct (in_init _ (proj1 Hinv)) as (j & wj & E' & Hj & _ & Ha').
  rewrite E in E'. injection E' as <-. rewrite Hn in Hj. by injection Hj as <-.
Qed.

(** The slot [np] becomes [wn'], with another pid or state. *)
Abbreviation ws' wn' := (<[np := wn']> ws).
Lemma new_lookup wn' : ws' wn' !! np = Some wn'.
Proof using Hn. apply list_lookup_insert_eq. by eapply lookup_lt_Some. Qed.
Lemma other_lookup wn' j : j ≠ np → ws' wn' !! j = ws !! j.
Proof using. intros. by apply list_lookup_insert_ne. Qed.

Lemma fork_table :
  v_state wn = UNUSED → tv_nextpid v < 2 ^ 31 - 1 →
  table_inv (TV (ws' (v_set_state USED (v_set_pid (tv_nextpid v) wn))) (tv_nextpid v + 1)
               (tv_wait v) (tv_init v)).
Proof using Hinv Hi Hr Hn.
  intros Hu Hnp. assert (Ha : ¬ alive wn) by (intros Ha; by apply alive_ne in Ha as [? _]).
  pose proof (dead_ne Ha) as Hne. pose proof (not_init Ha) as Hnin.
  pose proof (λ j wj, not_parent j wj Ha) as Hnp'.
  destruct (proj1 Hinv) as [Hlen Hun Hnext Hpid Hpids Hinit Hpar].
  destruct (Hun _ _ Hn Hu) as [_ Hpn]. pose proof (Hpid _ _ Hi ltac:(congruence)) as Hpi.
  split; cbn [tv_procs tv_nextpid tv_wait tv_init].
  - by rewrite length_insert.
  - intros j wj [[-> ->]|[_ Hj]]%lookup_insert_cases; [done|eauto].
  - lia.
  - intros j wj [[-> ->]|[_ Hj]]%lookup_insert_cases Hs; [simpl; lia|]. pose proof (Hpid _ _ Hj Hs). lia.
  - intros j k wj wk [[-> ->]|[? Hj]]%lookup_insert_cases [[-> ->]|[? Hk]]%lookup_insert_cases Hs E;
      [done|..|eauto]; simpl in E; exfalso.
    + destruct (decide (v_state wk = UNUSED)) as [Hk0|Hk0].
      * destruct (Hun _ _ Hk Hk0) as [E0 _]. lia.
      * pose proof (Hpid _ _ Hk Hk0). lia.
    + pose proof (Hpid _ _ Hj Hs). lia.
  - destruct Hinit as (i0 & w0 & E0 & Hi0 & ? & ?). exists i0, w0.
    rewrite other_lookup by congruence. done.
  - intros j wj q [[-> ->]|[_ Hj]]%lookup_insert_cases Hq; [simpl in Hq; congruence|].
    destruct (Hpar _ _ _ Hj Hq) as (wq & Hwq & Hsq). exists wq.
    rewrite other_lookup; [done|]. intros ->. by apply (Hnp' _ _ Hj).
Qed.

(** A change of the slot that no thread but [i] and the child notices. *)
Lemma in_wait_child wn' pc' :
  ¬ alive wn → v_state wn' ≠ ZOMBIE → (∀ q, v_parent wn = Some q → v_parent wn' = Some q) →
  (∀ f, pc' f = TWait1 ∨ pc' f = TWait2 → pc' f = pc f) → pc' np ≠ TWait1 → pc' np ≠ TWait2 →
  ∀ j wj, ws' wn' !! j = Some wj → pc' j = TWait1 ∨ pc' j = TWait2 ∧ v_state wj = SLEEPING →
  (∃ k wk, ws' wn' !! k = Some wk ∧ v_parent wk = Some j) ∧
  ∀ k wk, ws' wn' !! k = Some wk → v_parent wk = Some j → v_state wk ≠ ZOMBIE.
Proof using Hinv Hn.
  intros Ha Hz Hq Hpc Hn1 Hn2 j wj [[-> ->]|[Hne Hj]]%lookup_insert_cases Hwait; [tauto|].
  assert (pc' j = pc j) as E by (apply Hpc; tauto). rewrite E in Hwait.
  destruct (in_wait _ _ (proj2 Hinv) _ _ Hj Hwait) as [(k & wk & Hk & Hpk) Hall]. split.
  - destruct (decide (k = np)) as [->|Hk'].
    + exists np, wn'. split; [apply new_lookup|]. apply Hq. congruence.
    + exists k, wk. by rewrite other_lookup.
  - intros m wm [[-> ->]|[_ Hm]]%lookup_insert_cases; [done|eauto].
Qed.

(** A step of [i] in the fork of [np]. *)
Definition forking (x : thread) : Prop := x = TRun ∨ x = TFork1 np ∨ x = TFork2 np.
Definition child_ok (x : thread) (wn' : pview) : Prop :=
  (v_state wn' = USED ∧ (x = TFork1 np ∧ v_parent wn' = None ∨ x = TFork2 np ∧ v_parent wn' = Some i)) ∨
  (v_state wn' = RUNNABLE ∧ x = TRun ∧ v_parent wn' = Some i).
Lemma child_table wn' :
  v_state wn = USED → v_state wn' ≠ UNUSED → v_pid wn' = v_pid wn → v_parent wn' = Some i →
  table_inv (tv_set (ws' wn') v).
Proof using Hinv Hi Hr Hn.
  intros Hu Hu' Hp Hq. assert (Ha : ¬ alive wn) by (intros Ha; by apply alive_ne in Ha as (_ & ? & _)).
  pose proof (dead_ne Ha) as Hne. pose proof (not_init Ha) as Hnin.
  pose proof (λ j wj, not_parent j wj Ha) as Hnp.
  apply table_many; [apply Hinv|by rewrite length_insert|..].
  - intros j wj wj' Hj [[-> ->]|[Hjn Hj']]%lookup_insert_cases.
    + right. rewrite Hn in Hj. injection Hj as <-. split_and!; [done|congruence|done].
    + rewrite Hj in Hj'. injection Hj' as <-. destruct (decide (v_state wj = UNUSED)); [left|by right].
      split; [done|]. by apply (in_unused _ (proj1 Hinv) j).
  - intros j wj q [[-> ->]|[Hjn Hj]]%lookup_insert_cases Hjq.
    + exists w. rewrite Hq in Hjq. injection Hjq as <-. rewrite other_lookup by done.
      split; [done|apply running_alive].
    + destruct (in_parent _ (proj1 Hinv) _ _ _ Hj Hjq) as (wq & Hwq & Haq). exists wq.
      rewrite other_lookup; [done|]. intros ->. by apply (Hnp j wj).
  - intros k wk Hk Hwk Hpk Hak. exists wk. rewrite other_lookup by congruence. done.
Qed.
Lemma fork_threads wn' pc' n' :
  ¬ alive wn → forking (pc i) → forking (pc' i) → child_ok (pc' i) wn' → pc' np = TRun →
  (∀ f, f ≠ i → f ≠ np → pc' f = pc f) →
  (∀ f, f ≠ i → pc f ≠ TFork1 np ∧ pc f ≠ TFork2 np) →
  (∀ q, v_parent wn = Some q → v_parent wn' = Some q) →
  pc np = TRun ∨ pc np = TGone →
  thread_inv (TV (ws' wn') n' (tv_wait v) (tv_init v)) pc'.
Proof using Hinv Hi Hr Hn.
  intros Ha Hfi Hfi' Hch Hnr Hoth Hfresh Hq Hpn. pose proof (dead_ne Ha) as Hne.
  assert (Hz : v_state wn' ≠ ZOMBIE) by (destruct Hch as [[-> _]|[-> _]]; done).
  assert (Hpc : ∀ f x, (∀ k, x ≠ TFork1 k) → (∀ k, x ≠ TFork2 k) → x ≠ TRun → x ≠ TGone →
    pc' f = x ↔ pc f = x).
  { intros f x Hx1 Hx2 Hx3 Hx4. destruct (decide (f = i)) as [->|Hf];
      [|destruct (decide (f = np)) as [->|Hf']; [|by rewrite Hoth]].
    - destruct Hfi as [->|[->| ->]], Hfi' as [->|[->| ->]]; split; intros <-;
        first [done|by destruct (Hx1 np)|by destruct (Hx2 np)].
    - rewrite Hnr. destruct Hpn as [->| ->]; split; congruence. }
  assert (Hf1 : ∀ f k, pc' f = TFork1 k ↔ f = i ∧ k = np ∧ pc' i = TFork1 np ∨ f ≠ i ∧ pc f = TFork1 k).
  { intros f k. destruct (decide (f = i)) as [->|Hf]; [destruct Hfi' as [->|[->| ->]]; naive_solver|].
    destruct (decide (f = np)) as [->|Hf']; [rewrite Hnr; destruct Hpn as [->| ->]; naive_solver|].
    rewrite Hoth by done. naive_solver. }
  assert (Hf2 : ∀ f k, pc' f = TFork2 k ↔ f = i ∧ k = np ∧ pc' i = TFork2 np ∨ f ≠ i ∧ pc f = TFork2 k).
  { intros f k. destruct (decide (f = i)) as [->|Hf]; [destruct Hfi' as [->|[->| ->]]; naive_solver|].
    destruct (decide (f = np)) as [->|Hf']; [rewrite Hnr; destruct Hpn as [->| ->]; naive_solver|].
    rewrite Hoth by done. naive_solver. }
  assert (Hcl : ∀ f k, pc' f = TFork1 k ∨ pc' f = TFork2 k →
    f = i ∧ k = np ∨ f ≠ i ∧ k ≠ np ∧ (pc f = TFork1 k ∨ pc f = TFork2 k)).
  { intros f k [[(-> & -> & _)|[Hf Hk]]%Hf1|[(-> & -> & _)|[Hf Hk]]%Hf2]; [by left| |by left|];
      right; (split_and!; [done| |auto]); intros ->; by destruct (Hfresh f Hf). }
  pose proof (in_wait_child wn' pc' Ha Hz Hq) as Hwait.
  destruct (proj2 Hinv) as [Horph HF1 HF2 Hff Hst Hlk Hlkd Hout _ Hex].
  split; cbn [tv_procs tv_nextpid tv_wait tv_init].
  - intros j wj [[-> ->]|[Hj' Hj]]%lookup_insert_cases Hs Hp.
    + right. exists i. apply Hf1. destruct Hch as [[_ [[? ?]|[? ?]]]|(_ & _ & ?)]; [by left|congruence..].
    + destruct (Horph _ _ Hj Hs Hp) as [?|[f Hf]]; [by left|right]. exists f. apply Hf1. right.
      split; [|done]. intros ->. destruct Hfi as [E|[E|E]]; congruence.
  - intros f k [(-> & -> & E)|[Hf Hk]]%Hf1.
    + exists wn'. split; [apply new_lookup|]. destruct Hch as [[? [[_ ?]|[? _]]]|(_ & ? & _)]; [done|congruence..].
    + destruct (HF1 _ _ Hk) as (wk & ? & ? & ?). exists wk. rewrite other_lookup; [done|].
      intros ->. by destruct (Hfresh f Hf).
  - intros f k [(-> & -> & E)|[Hf Hk]]%Hf2.
    + exists wn'. split; [apply new_lookup|]. destruct Hch as [[? [[? _]|[_ ?]]]|(_ & ? & _)]; [congruence|done|congruence].
    + destruct (HF2 _ _ Hk) as (wk & ? & ? & ?). exists wk. rewrite other_lookup; [done|].
      intros ->. by destruct (Hfresh f Hf).
  - intros f g k Hf%Hcl Hg%Hcl.
    destruct Hf as [[-> ->]|(_ & ? & Hf)], Hg as [[-> ?]|(_ & ? & Hg)]; [done..|]. by apply (Hff f g k).
  - intros j wj [[-> ->]|[Hj' Hj]]%lookup_insert_cases.
    + rewrite Hnr. destruct Hch as [[-> Hc]|(-> & _)]; [|done]. split; [done|]. exists i.
      destruct Hc as [[E _]|[E _]]; auto.
    + destruct (decide (j = i)) as [->|Hji].
      { rewrite Hi in Hj. injection Hj as <-. rewrite Hr. destruct Hfi' as [->|[->| ->]]; done. }
      rewrite Hoth by done. specialize (Hst _ _ Hj). destruct (v_state wj); try done.
      destruct Hst as [? [f Hf]]. split; [done|]. exists f.
      assert (f ≠ i) as Hfi0 by (intros ->; destruct Hfi as [E|[E|E]]; destruct Hf; congruence).
      destruct Hf; [left; apply Hf1|right; apply Hf2]; auto.
  - intros j Hj%Hpc; [|done..]. destruct (Hlk _ Hj) as [Hl Huq]. split; [done|].
    intros k Hk%Hpc; [auto|done..].
  - intros Hl. destruct (Hlkd Hl) as [j Hj]. exists j. by apply Hpc.
  - intros j Hj. pose proof (inv_lt _ _ _ _ Hinv Hi). pose proof (inv_lt _ _ _ _ Hinv Hn).
    rewrite Hoth by lia. by apply Hout.
  - apply Hwait; [|congruence..]. intros f Hf. destruct (decide (f = i)) as [->|Hfi0].
    { destruct Hfi' as [E|[E|E]]; destruct Hf; congruence. }
    apply Hoth; [done|]. intros ->. destruct Hf; congruence.
  - intros j Hj%Hpc; [by apply Hex|done..].
Qed.

Lemma inv_fork1 :
  pc i = TRun → v_state wn = UNUSED → tv_nextpid v < 2 ^ 31 - 1 →
  inv (TV (ws' (v_set_state USED (v_set_pid (tv_nextpid v) wn))) (tv_nextpid v + 1) (tv_wait v) (tv_init v))
    (upd (upd pc np TRun) i (TFork1 np)).
Proof using Hinv Hi Hr Hn.
  intros Hpc Hu Hnx. split; [by apply fork_table|].
  assert (Ha : ¬ alive wn) by (intros Ha; by apply alive_ne in Ha as [? _]).
  pose proof (dead_ne Ha) as Hne. pose proof (in_state _ _ (proj2 Hinv) _ _ Hn) as Hst. rewrite Hu in Hst.
  destruct (in_unused _ (proj1 Hinv) _ _ Hn Hu) as [_ Hp]. apply fork_threads.
  - done.
  - by left.
  - rewrite upd_eq. by right; left.
  - rewrite upd_eq. left. split; [done|by left].
  - by rewrite upd_ne, upd_eq.
  - intros f Hf Hf'. by rewrite !upd_ne.
  - intros f Hf. split; intros E.
    + destruct (in_fork1 _ _ (proj2 Hinv) _ _ E) as (w0 & Hw0 & Hs & _). congruence.
    + destruct (in_fork2 _ _ (proj2 Hinv) _ _ E) as (w0 & Hw0 & Hs & _). congruence.
  - congruence.
  - by right.
Qed.
Lemma inv_fork_next x wn' :
  pc i = TFork1 np ∨ pc i = TFork2 np → v_state wn = USED → v_pid wn' = v_pid wn → v_parent wn' = Some i →
  (v_parent wn = None ∨ v_parent wn = Some i) → v_state wn' = USED ∧ x = TFork2 np ∨ v_state wn' = RUNNABLE ∧ x = TRun →
  inv (tv_set (ws' wn') v) (upd pc i x).
Proof using Hinv Hi Hr Hn.
  intros Hpc Hu Hpid Hp Hp0 Hx. split; [apply child_table; [done| |done..]; by destruct Hx as [[-> _]|[-> _]]|].
  assert (Ha : ¬ alive wn) by (intros Ha; by apply alive_ne in Ha as (_ & ? & _)).
  pose proof (dead_ne Ha) as Hne. pose proof (in_state _ _ (proj2 Hinv) _ _ Hn) as Hst. rewrite Hu in Hst.
  apply fork_threads.
  - done.
  - destruct Hpc; unfold forking; auto.
  - rewrite upd_eq. unfold forking. destruct Hx as [[_ ->]|[_ ->]]; auto.
  - rewrite upd_eq. unfold child_ok. destruct Hx as [[? ->]|[? ->]]; auto.
  - rewrite upd_ne by done. apply Hst.
  - intros f Hf Hf'. by apply upd_ne.
  - intros f Hf. split; intros E; apply Hf, (in_forks _ _ (proj2 Hinv) f i np); auto.
  - destruct Hp0; congruence.
  - left. apply Hst.
Qed.
End fork.

(** ** The steps of wait *)

Lemma inv_nextpid v pc : inv v pc → tv_nextpid v < 2 ^ 31 - 1 →
  inv (TV (tv_procs v) (tv_nextpid v + 1) (tv_wait v) (tv_init v)) pc.
Proof.
  intros [[Hlen Hun Hnext Hpid Hpids Hinit Hpar] [Horph Hf1 Hf2 Hff Hst Hlk Hlkd Hout Hw Hex]] Hn.
  split; split; cbn [tv_procs tv_nextpid tv_wait tv_init]; try done; [lia|].
  intros i w Hi Hs. pose proof (Hpid _ _ Hi Hs). lia.
Qed.

Lemma table_self v i w w' b :
  table_inv v → tv_procs v !! i = Some w → alive w → alive w' → v_pid w' = v_pid w → v_parent w' = v_parent w →
  table_inv (TV (<[i := w']> (tv_procs v)) (tv_nextpid v) b (tv_init v)).
Proof.
  intros Hinv Hi Ha Ha' Hp Hq. pose proof (lookup_lt_Some _ _ _ Hi) as Hlt.
  apply table_many; [done|by rewrite length_insert|..].
  - intros j wj wj' Hj [[-> ->]|[Hjn Hj']]%lookup_insert_cases.
    + right. rewrite Hi in Hj. injection Hj as <-. split_and!; [by apply alive_ne..|done].
    + rewrite Hj in Hj'. injection Hj' as <-. destruct (decide (v_state wj = UNUSED)); [left|by right].
      split; [done|]. by apply (in_unused _ Hinv j).
  - assert (∀ q wq, tv_procs v !! q = Some wq → alive wq →
      ∃ wq', <[i := w']> (tv_procs v) !! q = Some wq' ∧ alive wq') as Hal.
    { intros q wq Hwq Haq. destruct (decide (q = i)) as [->|Hne].
      - exists w'. by rewrite list_lookup_insert_eq.
      - exists wq. by rewrite list_lookup_insert_ne. }
    intros j wj q [[-> ->]|[Hjn Hj]]%lookup_insert_cases Hjq.
    + rewrite Hq in Hjq. destruct (in_parent _ Hinv _ _ _ Hi Hjq) as (wq & ? & ?). eauto.
    + destruct (in_parent _ Hinv _ _ _ Hj Hjq) as (wq & ? & ?). eauto.
  - intros k wk Hk Hwk Hpk Hak. destruct (decide (k = i)) as [->|Hne].
    + exists w'. rewrite list_lookup_insert_eq by done. split_and!; [done|congruence|done].
    + exists wk. by rewrite list_lookup_insert_ne.
Qed.

Section wait.
Context (v : tview) (pc : nat → thread) (i : nat) (w : pview).
Context (Hinv : inv v pc) (Hi : tv_procs v !! i = Some w) (Hr : v_state w = RUNNING).
Abbreviation ws := (tv_procs v).

(** Going to sleep in two steps: [x] is the first or the second. *)
Definition dozing (w' : pview) (x : thread) (b : bool) : Prop :=
  (w' = w ∧ x = TWait1 ∧ b = true ∧ tv_wait v = false ∧ (pc i = TRun ∨ pc i = TWait2)) ∨
  (w' = v_set_state SLEEPING (v_set_chan (AtProc i) w) ∧ x = TWait2 ∧ b = false ∧ pc i = TWait1).
Lemma doze_pc w' x b : dozing w' x b →
  ∀ f y, y ≠ TWait1 → y ≠ TWait2 → y ≠ TRun → upd pc i x f = y ↔ pc f = y.
Proof using.
  intros Hd f y ???. destruct (decide (f = i)) as [->|Hf]; [|by rewrite upd_ne]. rewrite upd_eq.
  destruct Hd as [(_ & -> & _ & _ & [E|E])|(_ & -> & _ & E)]; rewrite E; split; congruence.
Qed.
Lemma doze_lookup w' x b j wj : dozing w' x b → <[i := w']> ws !! j = Some wj →
  ∃ w0, ws !! j = Some w0 ∧ v_pid wj = v_pid w0 ∧ v_parent wj = v_parent w0 ∧
    (v_state wj = v_state w0 ∧ v_chan wj = v_chan w0 ∨ j = i ∧ v_state wj = SLEEPING ∧ v_state w0 = RUNNING).
Proof using Hi Hr.
  intros Hd [[-> ->]|[Hjn Hj]]%lookup_insert_cases; [|by eauto 8]. exists w.
  destruct Hd as [(-> & _)|(-> & _)]; auto 8.
Qed.
Lemma doze_other w' x b j wj : dozing w' x b → ws !! j = Some wj → v_state wj ≠ RUNNING →
  <[i := w']> ws !! j = Some wj.
Proof using Hi Hr. intros Hd Hj Hs. rewrite list_lookup_insert_ne; [done|]. intros ->. congruence. Qed.
Lemma doze_wait w' x b j : dozing w' x b →
  (∃ k wk, ws !! k = Some wk ∧ v_parent wk = Some j) →
  (∀ k wk, ws !! k = Some wk → v_parent wk = Some j → v_state wk ≠ ZOMBIE) →
  (∃ k wk, <[i := w']> ws !! k = Some wk ∧ v_parent wk = Some j) ∧
  ∀ k wk, <[i := w']> ws !! k = Some wk → v_parent wk = Some j → v_state wk ≠ ZOMBIE.
Proof using Hi Hr.
  intros Hd (k & wk & Hk & Hp) Hz. split.
  - destruct (decide (k = i)) as [->|Hki].
    + exists i, w'. rewrite list_lookup_insert_eq by (by eapply lookup_lt_Some). split; [done|].
      rewrite Hi in Hk. injection Hk as <-. by destruct Hd as [(-> & _)|(-> & _)].
    + exists k, wk. by rewrite list_lookup_insert_ne.
  - intros m wm Hm Hpm. destruct (doze_lookup _ _ _ _ _ Hd Hm) as (w0 & Hw0 & _ & E & Hs).
    rewrite E in Hpm. specialize (Hz _ _ Hw0 Hpm).
    destruct Hs as [[-> _]|(_ & -> & _)]; done.
Qed.
Lemma inv_doze w' x b : dozing w' x b →
  (∃ k wk, ws !! k = Some wk ∧ v_parent wk = Some i) →
  (∀ k wk, ws !! k = Some wk → v_parent wk = Some i → v_state wk ≠ ZOMBIE) →
  inv (TV (<[i := w']> ws) (tv_nextpid v) b (tv_init v)) (upd pc i x).
Proof using Hinv Hi Hr.
  intros Hd Hkid Hz. pose proof (doze_pc _ _ _ Hd) as Hpc. pose proof (λ j wj, doze_lookup _ _ _ j wj Hd) as Hlook.
  pose proof (λ j wj, doze_other _ _ _ j wj Hd) as Hoth. pose proof (λ j, doze_wait _ _ _ j Hd) as Hwt.
  split.
  { apply (table_self _ _ w); [apply Hinv|done|apply alive_spec; auto|apply alive_spec|..];
      destruct Hd as [(-> & _)|(-> & _)]; simpl; auto. }
  destruct (proj2 Hinv) as [Horph HF1 HF2 Hff Hst Hlk Hlkd Hout Hw Hex].
  split; cbn [tv_procs tv_nextpid tv_wait tv_init].
  - intros j wj Hj Hs Hp. destruct (Hlook _ _ Hj) as (w0 & Hw0 & _ & Ep & Es). rewrite Ep in Hp.
    destruct (Horph _ _ Hw0) as [?|[f Hf]]; [|done|by left|right; exists f; by apply Hpc].
    destruct Es as [[<- _]|(_ & _ & ->)]; done.
  - intros f k Hf%Hpc; [|done..]. destruct (HF1 _ _ Hf) as (wk & Hk & Hs & ?). exists wk.
    split; [apply Hoth; [done|congruence]|done].
  - intros f k Hf%Hpc; [|done..]. destruct (HF2 _ _ Hf) as (wk & Hk & Hs & ?). exists wk.
    split; [apply Hoth; [done|congruence]|done].
  - intros f g k Hf Hg. rewrite !Hpc in Hf, Hg by done. eauto.
  - intros j wj [[-> ->]|[Hjn Hj]]%lookup_insert_cases.
    + rewrite upd_eq. destruct Hd as [(-> & -> & _)|(-> & -> & _)]; simpl; [by rewrite Hr|auto].
    + rewrite upd_ne by done. specialize (Hst _ _ Hj). destruct (v_state wj); try done.
      destruct Hst as [? [f Hf]]. split; [done|]. exists f. by rewrite !Hpc.
  - intros j Hj. destruct Hd as [(_ & -> & -> & Hl & _)|(_ & -> & -> & Hp)].
    + assert (∀ k, pc k ≠ TWait1) as Hno by (intros k Hk; destruct (Hlk _ Hk); congruence).
      split; [done|]. intros k Hk. destruct (decide (j = i)), (decide (k = i)); subst; try done;
        rewrite upd_ne in * by done; edestruct Hno; eauto.
    + exfalso. unfold upd in Hj. case_decide; [done|]. destruct (Hlk _ Hp) as [_ Huq]. auto.
  - intros ->. exists i. rewrite upd_eq. by destruct Hd as [(_ & -> & _)|(_ & _ & ? & _)].
  - intros j Hj. pose proof (inv_lt _ _ _ _ Hinv Hi). rewrite upd_ne by lia. by apply Hout.
  - intros j wj Hj Hwait. destruct (decide (j = i)) as [->|Hji]; [by apply Hwt|].
    rewrite upd_ne in Hwait by done. rewrite list_lookup_insert_ne in Hj by done.
    destruct (Hw _ _ Hj Hwait). by apply Hwt.
  - intros j Hj%Hpc; [by apply Hex|done..].
Qed.
End wait.

Lemma inv_reap v pc i w j wj :
  inv v pc → tv_procs v !! i = Some w → v_state w = RUNNING → pc i ≠ TWait1 →
  tv_procs v !! j = Some wj → v_state wj = ZOMBIE → v_parent wj = Some i →
  inv (tv_set (<[j := unused]> (tv_procs v)) v) pc.
Proof.
  intros Hinv Hi Hr Hpci Hj Hz Hp.
  assert (Ha : ¬ alive wj) by (intros Ha; by apply alive_ne in Ha as (_ & _ & ?)).
  pose proof (λ k wk, not_parent _ _ j wj Hinv Hj k wk Ha) as Hnp.
  pose proof (not_init _ _ j wj Hinv Hj Ha) as Hnin.
  destruct Hinv as [Ht [Horph HF1 HF2 Hff Hst Hlk Hlkd Hout Hw Hex]]. split.
  - apply table_many; [done|by rewrite length_insert|..].
    + intros k wk wk' Hk [[-> ->]|[Hkn Hk']]%lookup_insert_cases; [by left|].
      rewrite Hk in Hk'. injection Hk' as <-. destruct (decide (v_state wk = UNUSED)); [left|by right].
      split; [done|]. by apply (in_unused _ Ht k).
    + intros k wk q [[-> ->]|[Hkn Hk]]%lookup_insert_cases Hkq; [done|].
      destruct (in_parent _ Ht _ _ _ Hk Hkq) as (wq & Hwq & Haq). exists wq.
      rewrite list_lookup_insert_ne; [done|]. intros <-. by apply (Hnp k wk).
    + intros k wk Hk Hwk Hpk Hak. exists wk. rewrite list_lookup_insert_ne by congruence. done.
  - split; cbn [tv_set tv_procs tv_nextpid tv_wait tv_init]; try done.
    + intros k wk [[-> ->]|[Hkn Hk]]%lookup_insert_cases Hs; [done|by apply Horph].
    + intros f k Hf. destruct (HF1 _ _ Hf) as (wk & Hk & Hs & ?). exists wk.
      rewrite list_lookup_insert_ne; [done|congruence].
    + intros f k Hf. destruct (HF2 _ _ Hf) as (wk & Hk & Hs & ?). exists wk.
      rewrite list_lookup_insert_ne; [done|congruence].
    + intros k wk [[-> ->]|[Hkn Hk]]%lookup_insert_cases; [|by apply Hst].
      specialize (Hst _ _ Hj). by rewrite Hz in Hst.
    + intros k wk [[-> ->]|[Hkn Hk]]%lookup_insert_cases Hwait.
      { specialize (Hst _ _ Hj). rewrite Hz in Hst. destruct Hwait as [?|[? _]]; congruence. }
      destruct (Hw _ _ Hk Hwait) as [(m & wm & Hm & Hpm) Hall]. split.
      * exists m, wm. rewrite list_lookup_insert_ne; [done|]. intros <-.
        apply (Hall _ _ Hm Hpm). congruence.
      * intros m' wm' [[-> ->]|[_ Hm']]%lookup_insert_cases; [done|eauto].
Qed.

(** ** The steps of exit *)

Lemma inv_close v pc i w :
  inv v pc → tv_procs v !! i = Some w → v_state w = RUNNING → pc i = TRun → tv_init v ≠ Some i →
  inv v (upd pc i TExit).
Proof.
  intros [Ht [Horph HF1 HF2 Hff Hst Hlk Hlkd Hout Hw Hex]] Hi Hr Hpci Hne.
  assert (Hpc : ∀ f y, y ≠ TRun → y ≠ TExit → upd pc i TExit f = y ↔ pc f = y).
  { intros f y ??. unfold upd. case_decide as Hf; [subst f|done]. rewrite Hpci. split; congruence. }
  split; [done|]. split.
  - intros j wj Hj Hs Hp. destruct (Horph _ _ Hj Hs Hp) as [?|[f Hf]]; [by left|right; exists f; by apply Hpc].
  - intros f k Hf%Hpc; eauto.
  - intros f k Hf%Hpc; eauto.
  - intros f g k Hf Hg. rewrite !Hpc in Hf, Hg by done. eauto.
  - intros j wj Hj. specialize (Hst _ _ Hj). destruct (decide (j = i)) as [->|Hji].
    + rewrite upd_eq. rewrite Hi in Hj. injection Hj as <-. by rewrite Hr.
    + rewrite upd_ne by done. destruct (v_state wj); try done. destruct Hst as [? [f Hf]].
      split; [done|]. exists f. by rewrite !Hpc.
  - intros j Hj%Hpc; [|done..]. destruct (Hlk _ Hj) as [? Hu]. split; [done|]. intros k Hk%Hpc; auto.
  - intros Hl. destruct (Hlkd Hl) as [j Hj]. exists j. by apply Hpc.
  - intros j Hj. apply Hpc; auto.
  - intros j wj Hj Hwait. apply (Hw _ _ Hj). by rewrite !Hpc in Hwait by done.
  - intros j. unfold upd. case_decide as E; [by subst j|apply Hex].
Qed.

Lemma woken_lookup self c (ws : list pview) k w : ws !! k = Some w → (k < Z.to_nat NPROC)%nat →
  woken self c ws !! k = Some (if decide (Some k ≠ self) then wake c w else w).
Proof.
  intros Hk Hlt. unfold woken. rewrite list_lookup_imap, Hk. simpl. f_equal.
  destruct (decide (Some k ≠ self)); [rewrite decide_True|rewrite decide_False]; tauto.
Qed.
Lemma wake_fields c w : v_pid (wake c w) = v_pid w ∧ v_parent (wake c w) = v_parent w ∧ v_chan (wake c w) = v_chan w.
Proof. unfold wake. by case_decide. Qed.

(** A process that sleeps may have been woken, and nothing else. *)
Definition stirred (me : nat) (k : nat) (w w' : pview) : Prop :=
  v_pid w' = v_pid w ∧ v_chan w' = v_chan w ∧
  (v_state w' = v_state w ∨ v_state w = SLEEPING ∧ k ≠ me ∧ v_state w' = RUNNABLE).
Lemma stirred_wake me k c w w' : stirred me k w w' →
  stirred me k w (if decide (Some k ≠ Some me) then wake c w' else w').
Proof.
  intros (E1 & E2 & Hs). destruct (decide (Some k ≠ Some me)) as [Hk|_]; [|done].
  unfold wake. case_decide as Hw; [|done]. split_and!; [done..|right]. simpl.
  split_and!; [|congruence|done]. destruct Hs as [<-|(? & _ & ?)]; [apply Hw|congruence].
Qed.
Lemma wake_state c w : v_chan w = c → v_state (wake c w) ≠ SLEEPING.
Proof. intros E. unfold wake. case_decide as H; [done|]. intros E'. by apply H. Qed.

Definition adopting (me j : nat) (ix : list nat) (ws ws' : list pview) : Prop :=
  length ws' = length ws ∧
  ∀ k w, ws !! k = Some w → ∃ w', ws' !! k = Some w' ∧ stirred me k w w' ∧
    v_parent w' = (if decide (v_parent w = Some me ∧ k ∈ ix) then Some j else v_parent w) ∧
    ((∃ c wc, c ∈ ix ∧ ws !! c = Some wc ∧ v_parent wc = Some me) →
       k = j → v_chan w = AtProc j → v_state w' ≠ SLEEPING).
Lemma adopting_step me j ix x ws ws' :
  j ≠ me → length ws = Z.to_nat NPROC → adopting me j ix ws ws' →
  adopting me j (ix ++ [x]) ws (adopt me (Some j) ws' x).
Proof.
  intros Hj Hlen [Hl Had]. unfold adopt.
  destruct (ws' !! x) as [wx'|] eqn:Hx'; [case_decide as Hp|].
  - destruct (lookup_lt_is_Some_2 ws x) as [wx Hx]; [rewrite <- Hl; by eapply lookup_lt_Some|].
    destruct (Had _ _ Hx) as (wx1 & Hx1 & Hsx & Hpx & _). rewrite Hx' in Hx1. injection Hx1 as <-.
    rewrite Hp in Hpx. case_decide as Hix; [congruence|].
    split; [unfold woken; by rewrite length_imap, length_insert|].
    intros k w Hk. destruct (Had _ _ Hk) as (w1 & Hk1 & Hs1 & Hp1 & Hw1).
    assert (k < Z.to_nat NPROC)%nat as Hlt by (rewrite <- Hlen; by eapply lookup_lt_Some).
    set (w2 := if decide (k = x) then v_set_parent (Some j) w1 else w1).
    assert (<[x := v_set_parent (Some j) wx']> ws' !! k = Some w2) as Hk2.
    { subst w2. destruct (decide (k = x)) as [->|]; [|by rewrite list_lookup_insert_ne].
      rewrite list_lookup_insert_eq by (by eapply lookup_lt_Some). congruence. }
    rewrite (woken_lookup _ _ _ _ _ Hk2 Hlt). eexists. split; [done|]. split_and!.
    + apply stirred_wake. subst w2. by destruct (decide (k = x)).
    + transitivity (v_parent w2); [destruct (decide (Some k ≠ _)); [apply wake_fields|done]|]. subst w2.
      destruct (decide (k = x)) as [->|Hkx].
      * rewrite decide_True; [done|]. rewrite Hx in Hk. injection Hk as <-. rewrite elem_of_app. set_solver.
      * rewrite Hp1. apply decide_ext. set_solver.
    + intros _ -> Hc. rewrite decide_True by congruence. apply wake_state. subst w2.
      rewrite <- Hc. destruct (decide (j = x)); apply Hs1.
  - split; [done|]. intros k w Hk. destruct (Had _ _ Hk) as (w1 & Hk1 & Hs1 & Hp1 & Hw1).
    exists w1. split_and!; [done..| |].
    + rewrite Hp1. apply decide_ext. split; [set_solver|]. intros [E Hi]. split; [done|].
      apply elem_of_app in Hi as [?|Hx0%list_elem_of_singleton]; [done|]. subst. rewrite Hx' in Hk1. injection Hk1 as <-.
      rewrite E in Hp1. case_decide; [tauto|done].
    + intros (c & wc & Hc & Hwc & Hpc). apply Hw1. exists c, wc. split; [|done].
      apply elem_of_app in Hc as [?|Hx0%list_elem_of_singleton]; [done|]. subst.
      destruct (Had _ _ Hwc) as (wc' & Hwc' & _ & Hpc' & _). rewrite Hx' in Hwc'. injection Hwc' as <-.
      rewrite Hpc in Hpc'. case_decide; [tauto|done].
  - split; [done|]. intros k w Hk. destruct (Had _ _ Hk) as (w1 & Hk1 & Hs1 & Hp1 & Hw1).
    assert (x ≠ k) by congruence. exists w1. split_and!; [done..| |].
    + rewrite Hp1. apply decide_ext. set_solver.
    + intros (c & wc & Hc & Hwc & Hpc). apply Hw1. exists c, wc. split; [|done].
      apply elem_of_app in Hc as [?|Hx0%list_elem_of_singleton]; [done|]. subst.
      apply lookup_lt_Some in Hwc. apply lookup_ge_None_1 in Hx'. lia.
Qed.
Lemma adopting_all me j ix ws : j ≠ me → length ws = Z.to_nat NPROC →
  adopting me j ix ws (foldl (adopt me (Some j)) ws ix).
Proof.
  intros Hj Hlen. induction ix as [|x ix IH] using rev_ind.
  - split; [done|]. intros k w Hk. exists w. split_and!; [done|by split_and!; try left|..].
    + rewrite decide_False; [done|]. set_solver.
    + intros (c & _ & Hc & _). set_solver.
  - rewrite foldl_app. by apply adopting_step.
Qed.

(** The parent a child of [me] gets, and what else [exit] does. *)
Definition foster (me j : nat) (w : pview) : option nat :=
  if decide (v_parent w = Some me) then Some j else v_parent w.
Definition exited (me j : nat) (ws ws' : list pview) : Prop :=
  length ws' = length ws ∧
  ∀ k w, ws !! k = Some w → ∃ w', ws' !! k = Some w' ∧ v_pid w' = v_pid w ∧ v_parent w' = foster me j w ∧
    (k = me ∧ v_state w' = ZOMBIE ∨
     k ≠ me ∧ stirred me k w w' ∧
     (v_chan w = AtProc k →
      (k = j ∧ ∃ c wc, ws !! c = Some wc ∧ v_parent wc = Some me) ∨
      (∃ wm, ws !! me = Some wm ∧ foster me j wm = Some k) → v_state w' ≠ SLEEPING)).
Lemma stirred_awake me k w w1 c : stirred me k w w1 → v_state w1 ≠ SLEEPING →
  v_state (if decide (Some k ≠ Some me) then wake c w1 else w1) ≠ SLEEPING.
Proof. intros _ H. case_decide; [|done]. unfold wake. by case_decide. Qed.
Lemma exited_all me j status ws w :
  j ≠ me → length ws = Z.to_nat NPROC →
  foldl (adopt me (Some j)) ws all_procs !! me = Some w →
  exited me j ws (alter (λ w, v_set_state ZOMBIE (v_set_xstate status w)) me
    (match v_parent w with
     | Some q => woken (Some me) (AtProc q) (foldl (adopt me (Some j)) ws all_procs)
     | None => foldl (adopt me (Some j)) ws all_procs
     end)).
Proof.
  intros Hj Hlen. pose proof (adopting_all me j all_procs ws Hj Hlen) as [Hl Had].
  revert Hl Had. generalize (foldl (adopt me (Some j)) ws all_procs). intros ws1 Hl Had Hme.
  destruct (lookup_lt_is_Some_2 ws me) as [wm Hwm]; [rewrite <- Hl; by eapply lookup_lt_Some|].
  assert (∀ k w, ws !! k = Some w → (k < Z.to_nat NPROC)%nat ∧ k ∈ all_procs) as Hix.
  { intros k wk Hk%lookup_lt_Some. rewrite Hlen in Hk. split; [done|]. apply elem_of_seq. lia. }
  assert (∀ k w, ws !! k = Some w → (if decide (v_parent w = Some me ∧ k ∈ all_procs) then Some j else v_parent w)
    = foster me j w) as Hfo.
  { intros k wk Hk. unfold foster. apply decide_ext. destruct (Hix _ _ Hk). tauto. }
  destruct (Had _ _ Hwm) as (w0 & Hw0 & _ & Hp0 & _). rewrite Hme in Hw0. injection Hw0 as <-.
  rewrite (Hfo _ _ Hwm) in Hp0. split.
  { rewrite length_alter. destruct (v_parent w); [unfold woken; by rewrite length_imap|done]. }
  intros k wk Hk. destruct (Hix _ _ Hk) as [Hlt Hkx]. destruct (Had _ _ Hk) as (w1 & Hk1 & Hs1 & Hp1 & Hw1).
  rewrite (Hfo _ _ Hk) in Hp1.
  assert (∃ w2, (match v_parent w with Some q => woken (Some me) (AtProc q) ws1 | None => ws1 end) !! k = Some w2 ∧
    v_pid w2 = v_pid wk ∧ v_parent w2 = foster me j wk ∧ stirred me k wk w2 ∧
    (v_state w1 ≠ SLEEPING → v_state w2 ≠ SLEEPING) ∧
    (k ≠ me → v_chan wk = AtProc k → v_parent w = Some k → v_state w2 ≠ SLEEPING)) as (w2 & Hk2 & E1 & E2 & Hs2 & H1 & H2).
  { destruct (v_parent w) as [q|]; [|exists w1; split_and!; [done|apply Hs1|done..]].
    rewrite (woken_lookup _ _ _ _ _ Hk1 Hlt). eexists. split; [done|].
    pose proof (stirred_wake me k (AtProc q) wk w1 Hs1) as Hs2. split_and!; [apply Hs2| |done|..].
    - rewrite <- Hp1. case_decide; [apply wake_fields|done].
    - by apply (stirred_awake _ _ wk).
    - intros Hne Hc [= ->]. rewrite decide_True by congruence. apply wake_state. rewrite <- Hc. apply Hs1. }
  destruct (decide (k = me)) as [->|Hne].
  - rewrite list_lookup_alter_eq, Hk2. eexists. split; [done|]. auto.
  - rewrite list_lookup_alter_ne by done. exists w2. split_and!; [done..|right]. split_and!; [done..|].
    intros Hc [[-> (c & wc & Hwc & Hpc)]|(wm' & Hwm' & Hf)].
    + apply H1, Hw1; [|done..]. exists c, wc. by destruct (Hix _ _ Hwc).
    + apply H2; [done..|]. rewrite Hwm in Hwm'. injection Hwm' as <-. congruence.
Qed.

Section exit.
Context (v : tview) (pc : nat → thread) (me j : nat) (w : pview) (ws' : list pview).
Context (Hinv : inv v pc) (Hme : tv_procs v !! me = Some w) (Hr : v_state w = RUNNING).
Context (Hpcm : pc me = TExit) (Hj : tv_init v = Some j) (Hfree : tv_wait v = false).
Context (Hex : exited me j (tv_procs v) ws').
Abbreviation ws := (tv_procs v).

Lemma exit_ne : j ≠ me.
Proof using Hinv Hpcm Hj. intros E. apply (in_exit _ _ (proj2 Hinv) me Hpcm). congruence. Qed.
Lemma exit_old k w' : ws' !! k = Some w' → ∃ w0, ws !! k = Some w0.
Proof using Hex.
  intros Hk%lookup_lt_Some. apply lookup_lt_is_Some_2. by rewrite <- (proj1 Hex).
Qed.
Lemma exit_alive k w0 : ws !! k = Some w0 → k ≠ me → alive w0 →
  ∃ w', ws' !! k = Some w' ∧ v_parent w' = foster me j w0 ∧ alive w'.
Proof using Hex.
  intros Hk Hne Ha. destruct (proj2 Hex _ _ Hk) as (w' & Hk' & _ & Hp & [[? _]|(_ & (_ & _ & Hs) & _)]); [done|].
  exists w'. split_and!; [done..|]. apply alive_spec. apply alive_spec in Ha.
  destruct Hs as [->|(_ & _ & ->)]; auto.
Qed.
Lemma exit_table : table_inv (tv_set ws' v).
Proof using Hinv Hme Hr Hpcm Hj Hex.
  pose proof exit_ne as Hne. pose proof (proj1 Hinv) as Ht.
  apply table_many; [done|apply Hex|..].
  - intros k w0 w' Hk Hk'. destruct (proj2 Hex _ _ Hk) as (w1 & Hk1 & Ep & Eq & Hs).
    rewrite Hk' in Hk1. injection Hk1 as <-. destruct Hs as [[-> Hz]|(Hkm & (_ & _ & Hs) & _)].
    { right. rewrite Hme in Hk. injection Hk as <-. split_and!; congruence. }
    destruct (decide (v_state w0 = UNUSED)) as [Hu|Hu].
    + left. destruct (in_unused _ Ht _ _ Hk Hu) as [E1 E2]. rewrite Ep, Eq. unfold foster. rewrite E2.
      split_and!; [destruct Hs as [->|(? & _)]; congruence|done|done].
    + right. destruct Hs as [->|(_ & _ & ->)]; done.
  - intros k w' q Hk' Hq. destruct (exit_old _ _ Hk') as [w0 Hk].
    destruct (proj2 Hex _ _ Hk) as (w1 & Hk1 & _ & Eq & _). rewrite Hk' in Hk1. injection Hk1 as <-.
    rewrite Hq in Eq. unfold foster in Eq. case_decide as Hp.
    + injection Eq as ->. destruct (in_init _ Ht) as (j' & wj & E & Hwj & _ & Ha).
      rewrite Hj in E. injection E as <-. destruct (exit_alive _ _ Hwj Hne Ha) as (w1 & ? & _ & ?). eauto.
    + destruct (in_parent _ Ht _ _ _ Hk (eq_sym Eq)) as (wq & Hwq & Ha).
      assert (q ≠ me) by congruence. destruct (exit_alive _ _ Hwq ltac:(done) Ha) as (w1 & ? & _ & ?). eauto.
  - intros k wk Hk Hwk Hpk Ha. assert (k ≠ me) as Hkm by congruence.
    destruct (exit_alive _ _ Hwk Hkm Ha) as (w' & ? & E & ?). exists w'. split_and!; [done| |done].
    rewrite E. unfold foster. by rewrite Hpk.
Qed.
Lemma exit_pc f y : y ≠ TExit → y ≠ TGone → upd pc me TGone f = y ↔ pc f = y.
Proof using Hpcm. intros ??. unfold upd. case_decide as E; [subst f|done]. rewrite Hpcm. split; congruence. Qed.
Lemma exit_used k w0 : ws !! k = Some w0 → v_state w0 = USED →
  ∃ w', ws' !! k = Some w' ∧ v_state w' = USED ∧ v_parent w' = foster me j w0.
Proof using Hme Hr Hex.
  intros Hk Hu. destruct (proj2 Hex _ _ Hk) as (w' & Hk' & _ & Hp & [[-> _]|(_ & (_ & _ & Hs) & _)]); [congruence|].
  exists w'. split_and!; [done| |done]. destruct Hs as [->|(? & _)]; congruence.
Qed.
Lemma exit_wait k w' : ws' !! k = Some w' → pc k = TWait2 → v_state w' = SLEEPING →
  (∃ c wc, ws' !! c = Some wc ∧ v_parent wc = Some k) ∧
  ∀ c wc, ws' !! c = Some wc → v_parent wc = Some k → v_state wc ≠ ZOMBIE.
Proof using Hinv Hme Hr Hpcm Hj Hex.
  intros Hk' Hpk Hsl. destruct (exit_old _ _ Hk') as [w0 Hk].
  destruct (proj2 Hex _ _ Hk) as (w1 & Hk1 & _ & _ & Hs). rewrite Hk' in Hk1. injection Hk1 as <-.
  destruct Hs as [[-> _]|(Hkm & (_ & _ & Hs) & Hwake)]; [congruence|].
  assert (v_state w0 = SLEEPING) as Hs0 by (destruct Hs as [<-|(? & _)]; done).
  pose proof (in_state _ _ (proj2 Hinv) _ _ Hk) as Hst. rewrite Hs0, Hpk in Hst.
  destruct Hst as [[_ Hc]|[? _]]; [|done].
  assert (Hnow : ¬ ((k = j ∧ ∃ c wc, ws !! c = Some wc ∧ v_parent wc = Some me) ∨
      (∃ wm, ws !! me = Some wm ∧ foster me j wm = Some k))) by (intros H; by apply (Hwake Hc H)).
  destruct (in_wait _ _ (proj2 Hinv) _ _ Hk) as [(c & wc & Hwc & Hpc) Hz]; [by right|]. split.
  - destruct (proj2 Hex _ _ Hwc) as (wc' & Hwc' & _ & Hpc' & _). exists c, wc'. split; [done|].
    rewrite Hpc'. unfold foster. rewrite Hpc, decide_False; congruence.
  - intros m wm' Hm' Hpm Hzm. destruct (exit_old _ _ Hm') as [wm Hm].
    destruct (proj2 Hex _ _ Hm) as (w1 & Hm1 & _ & Hp1 & Hs1). rewrite Hm' in Hm1. injection Hm1 as <-.
    rewrite Hpm in Hp1. destruct Hs1 as [[-> _]|(Hmm & (_ & _ & Hs1) & _)].
    + apply Hnow. right. eauto.
    + assert (v_state wm = ZOMBIE) as Hz0 by (destruct Hs1 as [<-|(_ & _ & ?)]; congruence).
      unfold foster in Hp1. case_decide as E.
      * injection Hp1 as ->. apply Hnow. left. eauto.
      * by apply (Hz _ _ Hm (eq_sym Hp1)).
Qed.
Lemma inv_zombie : inv (tv_set ws' v) (upd pc me TGone).
Proof using Hinv Hme Hr Hpcm Hj Hfree Hex.
  split; [apply exit_table|]. pose proof exit_pc as Hpc. pose proof exit_ne as Hne. pose proof exit_wait as Hwt.
  destruct (proj2 Hinv) as [Horph HF1 HF2 Hff Hst Hlk Hlkd Hout Hw Hexit].
  assert (Hno : ∀ k, pc k ≠ TWait1) by (intros k Hk; destruct (Hlk _ Hk); congruence).
  split; cbn [tv_set tv_procs tv_nextpid tv_wait tv_init].
  - intros k w' Hk' Hu Hp. destruct (exit_old _ _ Hk') as [w0 Hk].
    destruct (proj2 Hex _ _ Hk) as (w1 & Hk1 & _ & Hp1 & Hs). rewrite Hk' in Hk1. injection Hk1 as <-.
    rewrite Hp in Hp1. unfold foster in Hp1. case_decide; [done|].
    destruct (Horph _ _ Hk) as [?|[f Hf]]; [|done|by left|right; exists f; by apply Hpc].
    destruct Hs as [[-> _]|(_ & (_ & _ & [<-|(E & _)]) & _)]; congruence.
  - intros f k Hf%Hpc; [|done..]. destruct (HF1 _ _ Hf) as (wk & Hk & Hs & Hp).
    destruct (exit_used _ _ Hk Hs) as (w' & ? & ? & E). exists w'. unfold foster in E. by rewrite Hp in E.
  - intros f k Hf%Hpc; [|done..]. destruct (HF2 _ _ Hf) as (wk & Hk & Hs & Hp).
    destruct (exit_used _ _ Hk Hs) as (w' & ? & ? & E). exists w'. unfold foster in E. rewrite Hp in E.
    rewrite decide_False in E; [done|]. intros [= ->]. congruence.
  - intros f g k Hf Hg. rewrite !Hpc in Hf, Hg by done. eauto.
  - intros k w' Hk'. destruct (exit_old _ _ Hk') as [w0 Hk]. specialize (Hst _ _ Hk).
    destruct (proj2 Hex _ _ Hk) as (w1 & Hk1 & _ & Hp1 & Hs). rewrite Hk' in Hk1. injection Hk1 as <-.
    destruct Hs as [[-> ->]|(Hkm & (_ & Ec & Hs) & _)]; [by rewrite upd_eq|]. rewrite upd_ne by done.
    destruct Hs as [->|(E & _ & ->)].
    + rewrite Ec. destruct (v_state w0); try done. destruct Hst as [? [f Hf]]. split; [done|].
      exists f. by rewrite !Hpc.
    + rewrite E in Hst. split; [|done]. by destruct Hst as [[-> _]|[-> _]].
  - intros k Hk%Hpc; [|done..]. by destruct (Hno k).
  - congruence.
  - intros k Hk. unfold upd. case_decide; [done|]. by apply Hout.
  - intros k w' Hk' Hwait. rewrite !Hpc in Hwait by done.
    destruct Hwait as [?|[? ?]]; [by destruct (Hno k)|by eapply Hwt].
  - intros k. unfold upd. case_decide; [done|]. apply Hexit.
Qed.
End exit.
End machine.
