(* ===== verification/ProcSafe.v ===== *)
(** kernel/proc.c: what holds of the process table after boot, whatever the
    processes do and in whatever order. *)

From S2P Require Import Prelude Riscv Mem Spinlock Kalloc Vm VmProps ProcMem Proc ProcSpec ProcInv.

Section safe.
Context {F : Type} {L : Linker} `{FO : FileOps F}.
Abbreviation table := (ptable (F:=F)).
Implicit Types t : table.

(** ** Every step keeps the invariant *)

Lemma tv_set_id v : tv_set (tv_procs v) v = v.
Proof. by destruct v. Qed.
Lemma tv_set_insert_id v i w : tv_procs v !! i = Some w → tv_set (<[i := w]> (tv_procs v)) v = v.
Proof. intros H. by rewrite list_insert_id, tv_set_id. Qed.

Lemma allocated_s32 v pc i w : inv v pc → tv_procs v !! i = Some w → v_state w = RUNNING →
  tv_nextpid v < 2 ^ 31 - 1 → s32 (tv_nextpid v + 1) = tv_nextpid v + 1.
Proof.
  intros Hinv Hi Hr Hn. pose proof (in_pid _ (proj1 Hinv) _ _ Hi ltac:(congruence)).
  apply s32_id. lia.
Qed.

Lemma fork_inv t pc i r t' :
  inv (tview_of t) pc → running t i → pc i = TRun → t_nextpid t < 2 ^ 31 - 1 →
  fork_alloc i t = Ok r t' →
  inv (tview_of t') match r with Some np => upd (upd pc np TRun) i (TFork1 np) | None => pc end.
Proof.
  intros Hinv (w & Hi & Hr)%running_view Hpc Hn Hf. apply (wlp_elim _ _ _ _ _ (fork_alloc_view i t)) in Hf.
  pose proof (allocated_s32 _ _ _ _ Hinv Hi Hr Hn) as Hs. destruct r as [np|]; unfold allocated in Hf.
  - destruct Hf as (wn & Hnp & Hu & _ & ->). rewrite Hs. by apply (inv_fork1 _ _ _ _ w).
  - destruct Hf as [->|(k & wk & Hk & Hu & ->)]; [done|]. rewrite Hs.
    apply (inv_nextpid _ pc) in Hinv; [|done]. eapply (inv_self _ _ pc k wk unused) in Hinv; [exact Hinv|done|done|].
    destruct (in_unused _ (proj1 Hinv) _ _ Hk Hu) as [E1 E2]. split_and!; [done|done|by left|left].
    rewrite Hu. done.
Qed.

Lemma scan_inv t pc i w addr r t' :
  inv (tview_of t) pc → tv_procs (tview_of t) !! i = Some w → v_state w = RUNNING →
  pc i = TRun ∨ pc i = TWait2 → bind wait_acquire (λ _, wait_scan i addr) t = Ok r t' →
  inv (tview_of t') (upd pc i (after_scan r)).
Proof.
  intros Hinv Hi Hr Hpc Hscan.
  assert (Hgo : ∀ v, inv v pc → tv_procs v !! i = Some w → inv v (upd pc i TRun)).
  { intros v Hv Hvi. rewrite <- (tv_set_insert_id _ _ _ Hvi). apply (inv_goes _ _ _ w); try done.
    - apply alive_spec. auto.
    - right. by destruct Hpc as [-> | ->].
    - unfold state_ok. by rewrite Hr. }
  eapply (wlp_elim _ (λ r t', tv_wait (tview_of t) = false ∧
    scanned i (TV (tv_procs (tview_of t)) (tv_nextpid (tview_of t)) true (tv_init (tview_of t))) r (tview_of t')))
    in Hscan as [Hw Hscan].
  2: { apply wlp_bind, wlp_wait_acquire. intros Hw t1 E1. eapply wlp_mono; [apply wait_scan_view|].
       intros r0 t2 Hs. by rewrite E1 in Hs. }
  revert Hi Hinv Hgo Hw Hscan. generalize (tview_of t). intros v Hi Hinv Hgo Hw Hscan.
  unfold scanned in Hscan. destruct r as [[]|r]; cbn [tv_procs tv_nextpid tv_init tv_wait] in Hscan.
  - destruct Hscan as (-> & Hz & Hkid). rewrite <- (list_insert_id _ _ _ Hi) at 1.
    apply (inv_doze _ _ _ w); [done..| |done|].
    + left. auto.
    + intros k wk Hk. eapply Hz; [|done]. by eapply inv_lt.
  - assert (∀ ws, TV ws (tv_nextpid v) false (tv_init v) = tv_set ws v) as Etv
      by (intros ws; unfold tv_set; by rewrite Hw).
    destruct Hscan as (ws' & -> & [[_ ->]|(k & wk & Hk & Hp & Hz & _ & ->)]); rewrite Etv.
    + apply Hgo; [by rewrite tv_set_id|done].
    + apply Hgo.
      * apply (inv_reap _ _ i w _ wk); try done. by destruct Hpc as [-> | ->].
      * simpl. rewrite list_lookup_insert_ne; [done|]. congruence.
Qed.

(** A running process that changes its own state or channel. *)
Lemma goes_inv v pc i w f x v' :
  inv v pc → tv_procs v !! i = Some w → v_state w = RUNNING →
  v' = tv_set (alter f i (tv_procs v)) v → v_pid (f w) = v_pid w → v_parent (f w) = v_parent w →
  alive (f w) → holds (pc i) = false ∧ holds x = false ∨ x = pc i → state_ok i (f w) x →
  (x = TWait2 → v_state (f w) ≠ SLEEPING) →
  inv v' (upd pc i x).
Proof.
  intros Hinv Hi Hr -> ??? Hh Hok Hn. rewrite (alter_lookup _ _ _ _ Hi).
  apply (inv_goes _ _ _ w); [done..|tauto|done|]. intros Hx Hs. by apply Hn.
Qed.
Lemma stays_inv v pc i w f v' :
  inv v pc → tv_procs v !! i = Some w → v' = tv_set (alter f i (tv_procs v)) v →
  moves pc pc i w (f w) → inv v' pc.
Proof. intros Hinv Hi -> Hm. rewrite (alter_lookup _ _ _ _ Hi). by apply (inv_self _ pc _ _ w). Qed.

Lemma kill_inv v pc i w : inv v pc → tv_procs v !! i = Some w →
  inv (tv_set (<[i := kill_mark w]> (tv_procs v)) v) pc.
Proof.
  intros Hinv Hi. apply (inv_self _ pc _ _ w); [done..|]. unfold kill_mark.
  case_decide as Hs; (split_and!; [done|done|by left|]).
  - pose proof (in_state _ _ (proj2 Hinv) _ _ Hi) as Hst. rewrite Hs in Hst. right.
    split_and!; [apply alive_spec; auto|apply alive_spec; simpl; auto| |done].
    unfold state_ok. simpl. destruct Hst as [[-> _]|[-> _]]; done.
  - by left.
Qed.

Lemma wait_again_inv t pc i w addr r t' :
  inv (tview_of t) pc → tv_procs (tview_of t) !! i = Some w → v_state w = RUNNING → pc i = TWait2 →
  wait_again i addr t = Ok r t' → inv (tview_of t') (upd pc i (after_scan r)).
Proof.
  intros Hinv Hi Hr Hpc Hstep. unfold wait_again, bind at 1 in Hstep.
  destruct (sleep_leave i t) as [[] t1| | |] eqn:E1; [|done..].
  apply (wlp_elim _ _ _ _ _ (sleep_leave_view i t)) in E1.
  apply (scan_inv t1 pc i (v_set_chan NoChan w) addr r); [..|by right|exact Hstep].
  - apply (stays_inv _ _ _ _ _ _ Hinv Hi E1). split_and!; [done|done|by left|right].
    split_and!; [apply alive_spec; auto..| |].
    + unfold state_ok. simpl. by rewrite Hr, Hpc.
    + simpl. congruence.
  - rewrite E1. simpl tv_procs. by rewrite (alter_lookup _ _ _ _ Hi), list_lookup_insert_eq by (by eapply lookup_lt_Some).
  - done.
Qed.
Lemma wait_sleep_inv t pc i w t' :
  inv (tview_of t) pc → tv_procs (tview_of t) !! i = Some w → v_state w = RUNNING → pc i = TWait1 →
  sleep_enter i (AtProc i) wait_release t = Ok tt t' → inv (tview_of t') (upd pc i TWait2).
Proof.
  intros Hinv Hi Hr Hpc Hstep.
  eapply (wlp_elim _ (λ _ t', tview_of t' = _)) in Hstep.
  2: { apply (sleep_enter_view _ _ _
         (TV (tv_procs (tview_of t)) (tv_nextpid (tview_of t)) false (tv_init (tview_of t)))).
       intros t1 E1. apply wlp_wait_release. intros _ t2 E2. by rewrite E2, E1. }
  rewrite Hstep. clear Hstep. unfold tv_set. cbn [tv_procs tv_nextpid tv_wait tv_init]. rewrite (alter_lookup _ _ _ _ Hi).
  destruct (in_wait _ _ (proj2 Hinv) _ _ Hi (or_introl Hpc)) as [Hkid Hz].
  apply (inv_doze (tview_of t) pc i w); [done..|by right|done|done].
Qed.
Lemma zombie_inv t pc i w status t' :
  inv (tview_of t) pc → tv_procs (tview_of t) !! i = Some w → v_state w = RUNNING → pc i = TExit →
  exit_zombie i status t = Ok tt t' → inv (tview_of t') (upd pc i TGone).
Proof.
  intros Hinv Hi Hr Hpc Hstep. apply (wlp_elim _ _ _ _ _ (exit_zombie_view i status t)) in Hstep.
  destruct (in_init _ (proj1 Hinv)) as (j & wj & Hj & _). revert Hstep. cbv zeta. rewrite Hj.
  intros (Hw & w1 & Hw1 & ->). apply (inv_zombie _ _ _ j w); try done. apply exited_all; [|apply (in_len _ (proj1 Hinv))|done].
  intros ->. by apply (in_exit _ _ (proj2 Hinv) i).
Qed.
Lemma fork_next_inv t pc i w np t' x :
  inv (tview_of t) pc → tv_procs (tview_of t) !! i = Some w → v_state w = RUNNING →
  pc i = TFork1 np ∧ x = TFork2 np ∧ fork_parent i np t = Ok tt t' ∨
  pc i = TFork2 np ∧ x = TRun ∧ fork_ready np t = Ok tt t' →
  inv (tview_of t') (upd pc i x).
Proof.
  intros Hinv Hi Hr [(Hpc & -> & Hstep)|(Hpc & -> & Hstep)].
  - apply (wlp_elim _ _ _ _ _ (fork_parent_view i np t)) in Hstep as [_ ->].
    destruct (in_fork1 _ _ (proj2 Hinv) _ _ Hpc) as (wn & Hn & Hs & Hp).
    rewrite (alter_lookup _ _ _ _ Hn). apply (inv_fork_next _ _ _ _ w wn); auto.
  - apply (wlp_elim _ _ _ _ _ (fork_ready_view np t)) in Hstep as ->.
    destruct (in_fork2 _ _ (proj2 Hinv) _ _ Hpc) as (wn & Hn & Hs & Hp).
    rewrite (alter_lookup _ _ _ _ Hn). apply (inv_fork_next _ _ _ _ w wn); auto.
Qed.

Lemma proc_step_inv c c' : step c c' → inv (tview_of c.1) c.2 → inv (tview_of c'.1) c'.2.
Proof.
  intros Hstep Hinv. destruct Hstep; simpl fst in *; simpl snd in *;
    try (match goal with H : running _ _ |- _ => destruct (running_view _ _ H) as (w & Hi & Hr) end).
  - by apply (fork_inv t pc i (Some np)).
  - by apply (fork_inv t pc i None).
  - apply (fork_next_inv t pc i w np); auto.
  - apply (fork_next_inv t pc i w np); auto.
  - eapply (wlp_elim _ (λ _ t', tv_init (tview_of t) ≠ Some i ∧ tview_of t' = tview_of t)) in H1 as [Hni ->].
    + by apply (inv_close _ _ _ w).
    + apply wlp_bind, wlp_gets. case_decide as Hd; [done|].
      match goal with |- wlp ?m _ _ => assert (silent m) as Hs by auto 12 with silent end.
      eapply wlp_mono; [apply Hs|]. by intros ?? E.
  - by apply (zombie_inv t pc i w status).
  - apply (scan_inv t pc i w addr); auto.
  - by apply (wait_sleep_inv t pc i w).
  - by apply (wait_again_inv t pc i w addr).
  - eapply (wlp_elim _ (λ _ t', tview_of t' = _)) in H1; [|by apply sleep_enter_view; intros t1 E1; apply wlp_ret].
    apply (goes_inv _ _ _ _ _ _ _ Hinv Hi Hr H1); simpl; try done.
    + apply alive_spec. simpl. auto.
    + left. by rewrite H0.
    + right. eauto.
  - apply (wlp_elim _ _ _ _ _ (sleep_leave_view i t)) in H1.
    apply (goes_inv _ _ _ _ _ _ _ Hinv Hi Hr H1); simpl; try done.
    + apply alive_spec. simpl. auto.
    + left. by rewrite H0.
    + unfold state_ok. simpl. by rewrite Hr.
  - apply (wlp_elim _ _ _ _ _ (wakeup_view self (AtAddr a) t)) in H as ->. by apply inv_woken.
  - apply (wlp_elim _ _ _ _ _ (kill_view pid t)) in H1 as [[_ ->]|(_ & k & wk & Hk & _ & ->)]; [done|].
    by apply kill_inv.
  - apply (wlp_elim _ _ _ _ _ (yield_view i t)) in H1.
    apply (stays_inv _ _ _ _ _ _ Hinv Hi H1). split_and!; [done|done|by left|right].
    split_and!; [apply alive_spec; simpl; auto..| |done].
    pose proof (in_state _ _ (proj2 Hinv) _ _ Hi) as Hst. by rewrite Hr in Hst.
  - apply (wlp_elim _ _ _ _ _ (scheduler_turn_view i t)) in H. destruct b; [|by rewrite H].
    destruct H as [(w & Hi & Hr) E]. apply (stays_inv _ _ _ _ _ _ Hinv Hi E). split_and!; [done|done|by left|right].
    split_and!; [apply alive_spec; simpl; auto..| |done].
    pose proof (in_state _ _ (proj2 Hinv) _ _ Hi) as Hst. rewrite Hr in Hst. apply Hst.
Qed.

(** ** Booting *)

(** main's [procinit] and [userinit], on the table as the loader leaves it. *)
Definition boot (initcode : list Z) : M table unit :=
  do! procinit;
  userinit initcode.
Definition fresh (t : table) : Prop :=
  length (t_procs t) = Z.to_nat NPROC ∧ t_nextpid t = 1 ∧
  ∀ i p, t_procs t !! i = Some p → p_state p = UNUSED ∧ p_pid p = 0 ∧ p_parent p = None.
Definition boot_threads (t : table) : nat → thread :=
  λ i, if decide (t_initproc t = Some i) then TRun else TGone.

Lemma for_procs_silent {A} ix (body : nat → M table (option A)) :
  (∀ i, silent (body i)) → silent (for_procs ix body).
Proof.
  intros Hb. induction ix as [|i ix IH]; simpl; [auto with silent|]. apply silent_bind; [done|].
  intros [a|]; [auto with silent|done].
Qed.
Lemma procinit_view t : wlp procinit (λ _ t', tview_of t' =
  TV (tv_procs (tview_of t)) (tv_nextpid (tview_of t)) false (tv_init (tview_of t))) t.
Proof.
  unfold procinit. apply wlp_bind, wlp_modify, wlp_bind, wlp_modify, wlp_silent.
  { apply for_procs_silent. auto with silent. }
  intros _ t1 E1. apply wlp_ret. by rewrite E1.
Qed.
Lemma userinit_view initcode t : wlp (userinit initcode) (λ _ t',
  ∃ i w, let v := tview_of t in tv_procs v !! i = Some w ∧ v_state w = UNUSED ∧
    tview_of t' = TV (<[i := v_set_state RUNNABLE (v_set_pid (tv_nextpid v) w)]> (tv_procs v))
                     (s32 (tv_nextpid v + 1)) (tv_wait v) (Some i)) t.
Proof.
  unfold userinit. apply wlp_bind. eapply wlp_mono; [apply allocproc_view|]. intros [i|] t1 Ha; [|done].
  destruct Ha as (w & Hi & Hu & _ & E1). apply wlp_bind, wlp_modify.
  set (t1' := set_initproc (Some i) t1).
  assert (tview_of t1' = TV (tv_procs (tview_of t1)) (tv_nextpid (tview_of t1)) (tv_wait (tview_of t1)) (Some i))
    as E1' by done. clearbody t1'. rewrite E1 in E1'. cbn [tv_procs tv_nextpid tv_wait] in E1'.
  apply wlp_get. intros p _.
  do 7 (apply wlp_silent; [auto with silent|]; intros ???).
  apply wlp_bind. apply (wlp_upd _ _ (v_set_state RUNNABLE)); [done|]. intros t9 E9.
  eapply wlp_mono; [apply silent_release|]. intros [] t10 E10. exists i, w. cbv zeta. split_and!; [done..|].
  rewrite E10, E9. do 7 (match goal with H : tview_of ?a = tview_of _ |- context [tview_of ?a] => rewrite H; clear H end).
  rewrite E1'. unfold tv_set. cbn [tv_procs tv_nextpid tv_wait tv_init]. by rewrite alter_insert.
Qed.

Lemma boot_view initcode t t' : fresh t → boot initcode t = Ok tt t' →
  ∃ i w ws, tview_of t' = TV (<[i := w]> ws) 2 false (Some i) ∧ length ws = Z.to_nat NPROC ∧
    (i < length ws)%nat ∧ v_state w = RUNNABLE ∧ v_pid w = 1 ∧ v_parent w = None ∧
    ∀ j wj, ws !! j = Some wj → v_state wj = UNUSED ∧ v_pid wj = 0 ∧ v_parent wj = None.
Proof.
  intros (Hlen & Hn & Hall) Hb.
  eapply (wlp_elim _ (λ _ t', ∃ i w, tv_procs (tview_of t) !! i = Some w ∧ v_state w = UNUSED ∧
    tview_of t' = TV (<[i := v_set_state RUNNABLE (v_set_pid (t_nextpid t) w)]> (tv_procs (tview_of t)))
      (s32 (t_nextpid t + 1)) false (Some i))) in Hb as (i & w & Hi & Hu & ->).
  - assert (∀ j wj, tv_procs (tview_of t) !! j = Some wj → v_state wj = UNUSED ∧ v_pid wj = 0 ∧ v_parent wj = None)
      as Hall'.
    { intros j wj. simpl. rewrite list_lookup_fmap. destruct (t_procs t !! j) as [p|] eqn:Hp; [|done].
      intros [= <-]. by apply (Hall j). }
    rewrite Hn. eexists i, _, _. split; [reflexivity|]. split_and!; try done.
    + simpl. by rewrite length_fmap.
    + by eapply lookup_lt_Some.
    + apply (Hall' i w Hi).
  - unfold boot. apply wlp_bind. eapply wlp_mono; [apply procinit_view|]. intros [] t1 E1.
    eapply wlp_mono; [apply userinit_view|]. intros [] t2 (i & w & Hi & Hu & E2). exists i, w.
    cbv zeta in E2. rewrite E1 in Hi, E2. done.
Qed.
Lemma boot_inv initcode t t' : fresh t → boot initcode t = Ok tt t' → inv (tview_of t') (boot_threads t').
Proof.
  intros Hf Hb. destruct (boot_view _ _ _ Hf Hb) as (i & w & ws & E & Hlen & Hi & Hs & Hp & Hq & Hall).
  assert (Hpc : boot_threads t' = λ j, if decide (Some i = Some j) then TRun else TGone).
  { unfold boot_threads. change (t_initproc t') with (tv_init (tview_of t')). by rewrite E. }
  rewrite E, Hpc. clear E Hpc Hf Hb.
  assert (Hcase : ∀ j wj, <[i := w]> ws !! j = Some wj →
    j = i ∧ wj = w ∨ j ≠ i ∧ v_state wj = UNUSED ∧ v_pid wj = 0 ∧ v_parent wj = None).
  { intros j wj [?|[? ?]]%lookup_insert_cases; [by left|right]. split; [done|eauto]. }
  assert (Hiw : <[i := w]> ws !! i = Some w) by (by apply list_lookup_insert_eq).
  split; split; cbn [tv_procs tv_nextpid tv_wait tv_init].
  - by rewrite length_insert.
  - intros j wj [[-> ->]|(_ & _ & ? & ?)]%Hcase; [congruence|done].
  - lia.
  - intros j wj [[-> ->]|(_ & ? & _)]%Hcase; [lia|congruence].
  - intros j k wj wk [[-> ->]|(_ & ? & _)]%Hcase [[-> ->]|(_ & ? & ? & _)]%Hcase; try done. lia.
  - exists i, w. split_and!; [done..|]. apply alive_spec. auto.
  - intros j wj q [[-> ->]|(_ & _ & _ & ?)]%Hcase; congruence.
  - intros j wj [[-> ->]|(_ & ? & _)]%Hcase; [by left|congruence].
  - intros f np. by case_decide.
  - intros f np. by case_decide.
  - intros f g np [Hf|Hf]; by case_decide.
  - intros j wj [[-> ->]|(Hj & -> & _)]%Hcase.
    + rewrite Hs. by rewrite decide_True.
    + rewrite decide_False; congruence.
  - intros j. by case_decide.
  - done.
  - intros j Hj. rewrite decide_False; [done|]. intros [= ->]. lia.
  - intros j wj _ [Hf|[Hf _]]; by case_decide.
  - intros j. by case_decide.
Qed.
Lemma proc_reachable_inv initcode t0 t t' pc' :
  fresh t0 → boot initcode t0 = Ok tt t → rtc step (t, boot_threads t) (t', pc') →
  inv (tview_of t') pc'.
Proof.
  intros Hf Hb Hr. apply (boot_inv _ _ _ Hf) in Hb.
  change (inv (tview_of (t', pc').1) (t', pc').2). change (inv (tview_of (t, boot_threads t).1) (t, boot_threads t).2) in Hb.
  revert Hb. induction Hr as [|x y z Hxy _ IH]; [done|]. intros Hx. apply IH. by eapply proc_step_inv.
Qed.

(** ** What the table promises *)

Definition used (p : proc) : Prop := p_state p ≠ UNUSED.
Definition living (p : proc) : Prop := p_state p ∈ [SLEEPING; RUNNABLE; RUNNING].
Record table_safe (t : table) : Prop := {
  (* pids are unique, and 0 is the pid of free slots *)
  safe_pid : ∀ i p, t_procs t !! i = Some p → used p → 1 ≤ p_pid p < t_nextpid t;
  safe_pids : ∀ i j p q, t_procs t !! i = Some p → t_procs t !! j = Some q →
    used p → p_pid p = p_pid q → i = j;
  (* init lives, and so does the parent of every process *)
  safe_init : ∃ i p, t_initproc t = Some i ∧ t_procs t !! i = Some p ∧ living p;
  safe_parent : ∀ i p q, t_procs t !! i = Some p → p_parent p = Some q →
    ∃ pq, t_procs t !! q = Some pq ∧ living pq;
  (* a zombie has a parent that can wait for it *)
  safe_zombie : ∀ i p, t_procs t !! i = Some p → p_state p = ZOMBIE → is_Some (p_parent p);
  (* a process that sleeps in wait has a child, and none to reap *)
  safe_wait : ∀ i p, t_procs t !! i = Some p → p_state p = SLEEPING → p_chan p = AtProc i →
    (∃ j q, t_procs t !! j = Some q ∧ p_parent q = Some i) ∧
    ∀ j q, t_procs t !! j = Some q → p_parent q = Some i → p_state q ≠ ZOMBIE;
}.
Lemma view_lookup t i p : t_procs t !! i = Some p → tv_procs (tview_of t) !! i = Some (view p).
Proof. intros H. simpl. by rewrite list_lookup_fmap, H. Qed.
Lemma view_lookup_inv t i w : tv_procs (tview_of t) !! i = Some w → ∃ p, t_procs t !! i = Some p ∧ w = view p.
Proof. simpl. rewrite list_lookup_fmap. destruct (t_procs t !! i); [|done]. intros [= <-]. eauto. Qed.
Lemma living_view p : alive (view p) → living p.
Proof. intros [E|[E|E]]%alive_spec; unfold living; simpl in E; rewrite E; set_solver. Qed.
Lemma inv_safe t pc : inv (tview_of t) pc → table_safe t.
Proof.
  intros [Ht Hth]. split.
  - intros i p Hi Hu. apply (in_pid _ Ht i (view p)); [by apply view_lookup|done].
  - intros i j p q Hi Hj Hu E. apply (in_pids _ Ht i j (view p) (view q)); [by apply view_lookup..|done|done].
  - destruct (in_init _ Ht) as (i & w & ? & (p & Hp & ->)%view_lookup_inv & _ & Ha).
    exists i, p. split_and!; [done..|by apply living_view].
  - intros i p q Hi Hq. destruct (in_parent _ Ht i (view p) q) as (wq & (pq & ? & ->)%view_lookup_inv & Ha);
      [by apply view_lookup|done|]. exists pq. split; [done|by apply living_view].
  - intros i p Hi Hz. destruct (p_parent p) as [q|] eqn:Hq; [done|exfalso].
    apply view_lookup in Hi. destruct (in_orphan _ _ Hth i (view p)) as [E|[f Hf]]; [done|simpl; congruence|done|..].
    + destruct (in_init _ Ht) as (k & w & E' & Hk & _ & Ha). rewrite E in E'. injection E' as <-.
      rewrite Hi in Hk. injection Hk as <-. by apply alive_ne in Ha as (_ & _ & ?).
    + destruct (in_fork1 _ _ Hth _ _ Hf) as (w & Hw & Hs & _). rewrite Hi in Hw. injection Hw as <-. simpl in Hs. congruence.
  - intros i p Hi Hs Hc. apply view_lookup in Hi. pose proof (in_state _ _ Hth _ _ Hi) as Hst. simpl in Hst.
    rewrite Hs, Hc in Hst. destruct Hst as [[Hpc _]|[_ [a ?]]]; [|done].
    destruct (in_wait _ _ Hth i (view p)) as [(j & w & (q & ? & ->)%view_lookup_inv & ?) Hz]; [done|by right|].
    split; [by exists j, q|]. intros k q' Hk Hq'. apply (Hz k (view q')); [by apply view_lookup|done].
Qed.

(** C11: after boot, in every interleaving of the processes' critical sections
    in fork, exit, wait, sleep, wakeup, kill, yield and the scheduler: pids are
    unique, init and the parent of every process are alive, every zombie has
    such a parent, and no wakeup is lost: a process that sleeps in wait has a
    child and no zombie among its children. *)
Theorem proc_table_safe initcode t0 t t' pc' :
  fresh t0 → boot initcode t0 = Ok tt t → rtc step (t, boot_threads t) (t', pc') → table_safe t'.
Proof. intros Hf Hb Hr. apply (inv_safe _ pc'). by apply (proc_reachable_inv initcode t0 t). Qed.
End safe.

(** * Witnesses *)

Section witness.
(** A machine with 24 free pages, and without files. *)
#[local] Instance boot_linker : Linker :=
  {| kend := PHYSTOP - 24 * PGSIZE; etext := KERNBASE + 8 * PGSIZE; trampoline := KERNBASE + 7 * PGSIZE |}.
#[local] Instance no_files : FileOps unit :=
  {| f_filedup f := ret f; f_fileclose _ := ret tt; f_idup i := ret i; f_iput _ := ret tt; f_root := ret 1 |}.
Definition ran {A S} (o : outcome S A) (s : S) : S := match o with Ok _ s' => s' | _ => s end.
Definition ex_proc : proc := Proc false UNUSED NoChan 0 0 0 None 0 0 0 0 (replicate 16 0) 0 (replicate 16 0).
Definition ex_ram : kmem := ran (kinit ex_kmem) ex_kmem.
Definition ex_table : ptable := PTable (replicate 64 ex_proc) 1 false false None ex_ram tt.
Definition ex_boot : ptable := ran (boot [1; 2; 3] ex_table) ex_table.
Definition ex_run : ptable := ran (scheduler_turn 0 ex_boot) ex_boot.
Definition result {A S} (o : outcome S A) (a : A) : A := match o with Ok a' _ => a' | _ => a end.
Definition is_ok {A S} (o : outcome S A) : bool := match o with Ok _ _ => true | _ => false end.
Lemma ran_ok {A S} (o : outcome S A) a0 a s : is_ok o = true → result o a0 = a → o = Ok a (ran o s).
Proof. intros H <-. by destruct o. Qed.

Lemma ex_fresh : fresh ex_table.
Proof.
  split_and!; [reflexivity..|]. cbn [t_procs ex_table]. intros i p [-> _]%lookup_replicate. done.
Qed.
Lemma ex_boot_ok : boot [1; 2; 3] ex_table = Ok tt ex_boot.
Proof. apply (ran_ok _ tt); vm_compute; reflexivity. Qed.
(** Init runs and forks. *)
Lemma ex_steps : ∃ t', rtc step (ex_boot, boot_threads ex_boot)
  (t', upd (upd (boot_threads ex_boot) 1 TRun) 0 (TFork1 1)).
Proof.
  exists (ran (fork_alloc 0 ex_run) ex_run). eapply rtc_l; [|apply rtc_once].
  - apply (step_sched _ _ 0 true ex_run). apply (ran_ok _ true); vm_compute; reflexivity.
  - apply step_fork.
    + assert (match t_procs ex_run !! 0%nat with Some p => bool_decide (p_state p = RUNNING) | None => false end = true)
        as H by (vm_compute; reflexivity). unfold running.
      destruct (t_procs ex_run !! 0%nat) as [p|]; [|discriminate H]. exists p. by apply bool_decide_eq_true in H.
    + vm_compute. reflexivity.
    + apply Z.ltb_lt. vm_compute. reflexivity.
    + apply (ran_ok _ None); vm_compute; reflexivity.
Qed.
Lemma proc_table_safe_witness :
  ∃ t', rtc step (ex_boot, boot_threads ex_boot) (t', upd (upd (boot_threads ex_boot) 1 TRun) 0 (TFork1 1)) ∧
    table_safe t'.
Proof.
  destruct ex_steps as [t' Hs]. exists t'. split; [exact Hs|].
  apply (proc_table_safe [1; 2; 3] ex_table ex_boot t' _ ex_fresh ex_boot_ok Hs).
Defined.
End witness.
