(* ===== verification/SysProc.v ===== *)
(** kernel/sysproc.c, with the clock of kernel/trap.c that [sys_sleep] waits
    for: the system calls on processes, by the process [proc[me]].  A call
    that sleeps is split where it gives up the CPU. *)

From S2P Require Import Prelude Riscv Mem Cstring Spinlock Kalloc Vm ProcMem Proc Syscall.

Section sysproc.
Context {F : Type} {L : Linker} `{FO : FileOps F}.

(** The processes, and [tickslock] and [ticks] of trap.c. *)
Record clocked := Clocked { ck_procs : ptable (F:=F); tickslock : bool; ticks : Z }.
Definition set_ck_procs x s := Clocked x (tickslock s) (ticks s).
Definition set_tickslock x s := Clocked (ck_procs s) x (ticks s).
Definition set_ticks x s := Clocked (ck_procs s) (tickslock s) x.
Definition on_procs {A} (m : M ptable A) : M clocked A := zoom ck_procs set_ck_procs m.
Definition ticks_acquire : M clocked unit := zoom tickslock set_tickslock Lock.lk_acquire.
Definition ticks_release : M clocked unit := zoom tickslock set_tickslock Lock.lk_release.

(** [&ticks], the channel on which the sleepers wait. *)
Context (ticks_addr : Z).

(** ** kernel/trap.c: the clock *)

Definition trapinit : M clocked unit := modify (set_tickslock false).

(** [self] is the process that the interrupt stopped, if any. *)
Definition clockintr (self : option nat) : M clocked unit :=
  do! ticks_acquire;
  do! modify (λ s, set_ticks (u32 (ticks s + 1)) s);
  do! on_procs (wakeup self (AtAddr ticks_addr));
  ticks_release.

(** ** kernel/sysproc.c *)

Definition proc_arg {A} (me : nat) (arg : Z → M kmem A) : M clocked A :=
  on_procs (let! p := getp me in mem_op (arg (p_trapframe p))).
Definition proc_argint (me : nat) (n : Z) : M clocked Z := proc_arg me (λ tf, argint tf n).
Definition proc_argaddr (me : nat) (n : Z) : M clocked Z := proc_arg me (λ tf, argaddr tf n).

(** [exit] does not return. *)
Definition sys_exit (me : nat) : M clocked unit :=
  let! n := proc_argint me 0 in
  on_procs (exit me n).

Definition sys_getpid (me : nat) : M clocked Z :=
  on_procs (let! p := getp me in ret (u64 (p_pid p))).

Definition sys_fork (me : nat) : M clocked Z :=
  on_procs (let! r := fork me in ret (u64 r)).

(** Up to the first [sleep]: [inr r] when the call returns [r]. *)
Definition sys_wait (me : nat) : M clocked (unit + Z) :=
  let! p := proc_argaddr me 0 in
  on_procs (
    do! wait_acquire;
    let! r := wait_scan me p in
    ret (match r with inl _ => inl tt | inr x => inr (u64 x) end)).

Definition sys_sbrk (me : nat) : M clocked Z :=
  let! n := proc_argint me 0 in
  on_procs (
    let! p := getp me in
    let addr := s32 (p_sz p) in
    let! '(r, sz) := mem_op (growproc (p_pagetable p) (p_sz p) n) in
    do! updp me (set_p_sz sz);
    if r <? 0 then ret (u64 (-1)) else ret (u64 addr)).

(** The test of the loop in [sys_sleep] and the round after it, with
    [tickslock] held.  [ticks - ticks0] is unsigned, and so is [n] in the
    comparison.  [inl tt] when the process has gone to sleep. *)
Definition sleep_round (me : nat) (n ticks0 : Z) : M clocked (unit + Z) :=
  let! t := gets ticks in
  if u32 (t - ticks0) <? u32 n then
    let! p := on_procs (getp me) in
    if truth (p_killed p) then
      do! ticks_release;
      ret (inr (u64 (-1)))
    else
      (* sleep(&ticks, &tickslock) up to sched *)
      do! on_procs (proc_acquire me);
      do! ticks_release;
      do! on_procs (updp me (λ p, set_p_state SLEEPING (set_p_chan (AtAddr ticks_addr) p)));
      do! on_procs (sched (cpu_after other_released) me);
      ret (inl tt)
  else
    do! ticks_release;
    ret (inr 0).
(** The call up to its first sleep, with the [ticks0] it starts at. *)
Definition sys_sleep (me : nat) : M clocked (Z * Z * (unit + Z)) :=
  let! n := proc_argint me 0 in
  do! ticks_acquire;
  let! ticks0 := gets ticks in
  let! r := sleep_round me n ticks0 in
  ret (n, ticks0, r).
(** What the call does when the scheduler runs the process again. *)
Definition sleep_again (me : nat) (n ticks0 : Z) : M clocked (unit + Z) :=
  do! on_procs (sleep_leave me);
  do! ticks_acquire;
  sleep_round me n ticks0.

Definition sys_kill (me : nat) : M clocked Z :=
  let! pid := proc_argint me 0 in
  on_procs (let! r := kill pid in ret (u64 r)).

Definition sys_uptime : M clocked Z :=
  do! ticks_acquire;
  let! xticks := gets ticks in
  do! ticks_release;
  ret xticks.
End sysproc.
