(* ===== verification/SleepSpec.v ===== *)
(** kernel/sysproc.c and kernel/trap.c: [sys_sleep] returns.  The sleeper runs
    against any sequence of clock interrupts, wakeups, kills and turns of the
    scheduler. *)

From S2P Require Import Prelude Riscv Mem Cstring Spinlock Kalloc Vm ProcMem Proc Syscall SysProc.

(** * Process-table operations between which no lock is held *)

Section calm.
Context {F : Type} {L : Linker} `{FO : FileOps F}.
Implicit Types t : ptable (F:=F).

(** Every slot is there and no process lock is held. *)
Record calm (ps : list proc) : Prop := {
  cm_len : length ps = Z.to_nat NPROC;
  cm_free : ∀ i p, ps !! i = Some p → p_lock p = false;
}.

Lemma calm_insert ps i p : calm ps → p_lock p = false → calm (<[i := p]> ps).
Proof.
  intros [Hlen Hf] Hp. split; [by rewrite length_insert|]. intros j q Hj.
  destruct (decide (i = j)) as [<-|]; [|rewrite list_lookup_insert_ne in Hj by done; by eapply Hf].
  apply list_lookup_insert_Some in Hj as [(_ & <- & _)|[? _]]; done.
Qed.
Lemma wp_getp i p (Q : proc → ptable (F:=F) → Prop) t : t_procs t !! i = Some p → Q p t → wp (getp i) Q t.
Proof. intros H HQ. unfold wp, getp. by rewrite H. Qed.
Lemma set_procs_twice x y t : set_procs x (set_procs y t) = set_procs x t.
Proof. done. Qed.
Lemma set_procs_same t : set_procs (t_procs t) t = t.
Proof. by destruct t. Qed.
Lemma set_p_lock_same p : p_lock p = false → set_p_lock false (set_p_lock true p) = p.
Proof. destruct p; simpl. by intros ->. Qed.

Lemma wp_updp i p f (Q : unit → ptable (F:=F) → Prop) t : t_procs t !! i = Some p →
  Q tt (set_procs (<[i := f p]> (t_procs t)) t) → wp (updp i f) Q t.
Proof.
  intros H HQ. unfold updp. apply wp_modify. by rewrite (alter_lookup _ _ _ p).
Qed.
Lemma wp_proc_acquire i p (Q : unit → ptable (F:=F) → Prop) t :
  t_procs t !! i = Some p → p_lock p = false →
  Q tt (set_procs (<[i := set_p_lock true p]> (t_procs t)) t) → wp (proc_acquire i) Q t.
Proof.
  intros H Hl HQ. unfold proc_acquire. apply wp_bind. eapply wp_getp; [done|]. rewrite Hl. by eapply wp_updp.
Qed.
Lemma wp_proc_release i p (Q : unit → ptable (F:=F) → Prop) t :
  t_procs t !! i = Some p → p_lock p = true →
  Q tt (set_procs (<[i := set_p_lock false p]> (t_procs t)) t) → wp (proc_release i) Q t.
Proof.
  intros H Hl HQ. unfold proc_release. apply wp_bind. eapply wp_getp; [done|]. rewrite Hl. by eapply wp_updp.
Qed.

(** A loop over all processes that changes each of them by [f]. *)
Lemma for_procs_each {A} (f : nat → proc → proc) (body : nat → M (ptable (F:=F)) (option A)) a n t :
  calm (t_procs t) → (∀ i p, p_lock p = false → p_lock (f i p) = false) → (a + n)%nat = Z.to_nat NPROC →
  (∀ i p t, t_procs t !! i = Some p → p_lock p = false →
     wp (body i) (λ r t', r = None ∧ t' = set_procs (<[i := f i p]> (t_procs t)) t) t) →
  wp (for_procs (seq a n) body) (λ r t', r = None ∧
    t' = set_procs (imap (λ j p, if decide (a ≤ j)%nat then f j p else p) (t_procs t)) t) t.
Proof.
  intros Hc Hf Hn Hbody. revert a t Hc Hn. induction n as [|n IH]; intros a t Hc Hn; cbn [seq for_procs].
  { apply wp_ret. split; [done|]. rewrite <- (set_procs_same t) at 1. f_equal. apply list_eq. intros j.
    rewrite list_lookup_imap. destruct (t_procs t !! j) eqn:E; simpl; [|done].
    apply lookup_lt_Some in E. rewrite (cm_len _ Hc) in E. by rewrite decide_False by lia. }
  destruct (lookup_lt_is_Some_2 (t_procs t) a) as [p Hp]; [rewrite (cm_len _ Hc); lia|].
  pose proof (cm_free _ Hc _ _ Hp) as Hl.
  apply wp_bind. eapply wp_mono; [by apply Hbody|]. intros r t1 [-> ->]. cbv beta iota.
  eapply wp_mono; [apply IH; [by apply calm_insert, Hf|lia]|]. intros r t2 [-> ->]. split; [done|].
  rewrite set_procs_twice. f_equal. apply list_eq. intros j. simpl. rewrite !list_lookup_imap.
  destruct (decide (a = j)) as [<-|Hne].
  - rewrite list_lookup_insert_eq, Hp by (by eapply lookup_lt_Some). simpl. by rewrite decide_False, decide_True by lia.
  - rewrite list_lookup_insert_ne by done. destruct (_ !! j); simpl; [|done]. f_equal. apply decide_ext. lia.
Qed.

Definition wake_proc (self : option nat) (c : channel) (i : nat) (p : proc) : proc :=
  if decide (Some i = self) then p
  else if bool_decide (p_state p = SLEEPING) && bool_decide (p_chan p = c) then set_p_state RUNNABLE p else p.
Lemma wake_proc_lock self c i p : p_lock (wake_proc self c i p) = p_lock p.
Proof. unfold wake_proc. case_decide; [done|]. by destruct (_ && _). Qed.

Lemma wakeup_total self c t : calm (t_procs t) →
  wp (wakeup self c) (λ _ t', t' = set_procs (imap (wake_proc self c) (t_procs t)) t) t.
Proof.
  intros Hc. unfold wakeup. apply wp_bind. eapply wp_mono.
  { apply (for_procs_each (wake_proc self c)); [done| |done|].
    - intros i p Hp. by rewrite wake_proc_lock.
    - clear t Hc. intros i p t Hp Hl. unfold wake_proc. destruct (decide (Some i = self)).
      { apply wp_ret. split; [done|]. by rewrite list_insert_id, set_procs_same. }
      assert (i < length (t_procs t))%nat as Hi by (by eapply lookup_lt_Some).
      apply wp_bind. eapply wp_proc_acquire; [done..|]. apply wp_bind.
      eapply wp_getp; [by apply list_lookup_insert_eq|]. cbn [p_state p_chan set_p_lock].
      apply wp_bind, wp_when; intros E; rewrite E; [eapply wp_updp; [by apply list_lookup_insert_eq|]|];
        (apply wp_bind; eapply wp_proc_release; [simpl; rewrite ?list_insert_insert_eq; apply list_lookup_insert_eq; by rewrite ?length_insert|done|]);
        apply wp_ret; (split; [done|]); rewrite !set_procs_twice; f_equal; simpl;
        rewrite !list_insert_insert_eq; f_equal; destruct p; simpl in *; by subst. }
  intros r t' [-> ->]. by apply wp_ret.
Qed.

Definition kill_proc (p : proc) : proc :=
  set_p_killed 1 (if decide (p_state p = SLEEPING) then set_p_state RUNNABLE p else p).

Lemma kill_total pid t : calm (t_procs t) →
  wp (kill pid) (λ r t', (r = -1 ∧ t' = t ∧ ∀ i p, t_procs t !! i = Some p → p_pid p ≠ pid) ∨
    (r = 0 ∧ ∃ i p, t_procs t !! i = Some p ∧ p_pid p = pid ∧ t' = set_procs (<[i := kill_proc p]> (t_procs t)) t ∧
       ∀ j q, (j < i)%nat → t_procs t !! j = Some q → p_pid q ≠ pid)) t.
Proof.
  intros Hc. unfold kill. apply wp_bind.
  assert (∀ n a, (a + n)%nat = Z.to_nat NPROC → (∀ i p, (i < a)%nat → t_procs t !! i = Some p → p_pid p ≠ pid) →
    wp (for_procs (seq a n) (λ i, do! proc_acquire i; let! p := getp i in
      if p_pid p =? pid then
        do! updp i (set_p_killed 1);
        do! when (bool_decide (p_state p = SLEEPING)) (updp i (set_p_state RUNNABLE));
        do! proc_release i; ret (Some 0)
      else do! proc_release i; ret None))
    (λ r t', (r = None ∧ t' = t ∧ ∀ i p, t_procs t !! i = Some p → p_pid p ≠ pid) ∨
      (r = Some 0 ∧ ∃ i p, t_procs t !! i = Some p ∧ p_pid p = pid ∧ t' = set_procs (<[i := kill_proc p]> (t_procs t)) t ∧
         ∀ j q, (j < i)%nat → t_procs t !! j = Some q → p_pid q ≠ pid)) t) as H.
  { intros n. induction n as [|n IH]; intros a Hn Hno; cbn [seq for_procs].
    { apply wp_ret. left. split_and!; [done|done|]. intros i p Hp. apply (Hno i); [|done].
      apply lookup_lt_Some in Hp. rewrite (cm_len _ Hc) in Hp. lia. }
    destruct (lookup_lt_is_Some_2 (t_procs t) a) as [p Hp]; [rewrite (cm_len _ Hc); lia|].
    assert (a < length (t_procs t))%nat as Hi by (by eapply lookup_lt_Some).
    pose proof (cm_free _ Hc _ _ Hp) as Hl. apply wp_bind.
    apply wp_bind. eapply wp_proc_acquire; [done..|]. apply wp_bind.
    eapply wp_getp; [by apply list_lookup_insert_eq|]. cbn [p_pid p_state set_p_lock].
    destruct (Z.eqb_spec (p_pid p) pid) as [E|E].
    - apply wp_bind. eapply wp_updp; [by apply list_lookup_insert_eq|]. simpl. rewrite list_insert_insert_eq.
      apply wp_bind, wp_when; intros Hs; [eapply wp_updp; [by apply list_lookup_insert_eq|]|];
        (apply wp_bind; eapply wp_proc_release; [simpl; rewrite ?list_insert_insert_eq; by apply list_lookup_insert_eq|done|]);
        apply wp_ret; cbv beta iota; apply wp_ret; right; (split; [done|]); exists a, p; (split_and!; [done|done| |exact Hno]);
        rewrite !set_procs_twice; f_equal; simpl; rewrite !list_insert_insert_eq; f_equal; unfold kill_proc;
        [rewrite decide_True by (by apply bool_decide_eq_true in Hs)|rewrite decide_False by (by apply bool_decide_eq_false in Hs)];
        destruct p; simpl in *; by subst.
    - apply wp_bind. eapply wp_proc_release; [by apply list_lookup_insert_eq|done|]. apply wp_ret. cbv beta iota.
      rewrite set_procs_twice. simpl. rewrite list_insert_insert_eq, set_p_lock_same, list_insert_id, set_procs_same by done.
      apply IH; [lia|]. intros i q Hlt Hq. destruct (decide (i = a)) as [->|]; [by simplify_eq|]. apply (Hno i); [lia|done]. }
  eapply wp_mono; [by apply (H _ 0%nat); [|intros; lia]|]. intros r t' [(-> & -> & Hno)|(-> & Hk)]; apply wp_ret; auto.
Qed.

Lemma turn_total i p t : calm (t_procs t) → t_procs t !! i = Some p →
  wp (scheduler_turn i) (λ r t', if r : bool
    then p_state p = RUNNABLE ∧ t' = set_procs (<[i := set_p_state RUNNING p]> (t_procs t)) t
    else p_state p ≠ RUNNABLE ∧ t' = t) t.
Proof.
  intros Hc Hp. assert (i < length (t_procs t))%nat as Hi by (by eapply lookup_lt_Some).
  pose proof (cm_free _ Hc _ _ Hp) as Hl. unfold scheduler_turn. apply wp_bind. eapply wp_proc_acquire; [done..|].
  apply wp_bind. eapply wp_getp; [by apply list_lookup_insert_eq|]. cbn [p_state set_p_lock].
  destruct (decide (p_state p = RUNNABLE)) as [E|E].
  - apply wp_bind. eapply wp_updp; [by apply list_lookup_insert_eq|]. simpl. rewrite list_insert_insert_eq.
    apply wp_bind. eapply wp_proc_release; [by apply list_lookup_insert_eq|done|]. apply wp_ret. split; [done|].
    rewrite !set_procs_twice. f_equal. simpl. rewrite !list_insert_insert_eq. f_equal. destruct p; simpl in *; by subst.
  - apply wp_bind. eapply wp_proc_release; [by apply list_lookup_insert_eq|done|]. apply wp_ret. split; [done|].
    rewrite set_procs_twice. simpl. by rewrite list_insert_insert_eq, set_p_lock_same, list_insert_id, set_procs_same by done.
Qed.
End calm.

(** * The sleeper among the others *)

(** What the rest of the machine does: a clock interrupt that stops [self], a
    wakeup or a kill by another process, the scheduler's turn for the sleeper. *)
Inductive event := Tick (self : option nat) | Wake (self : option nat) (c : channel) | Kill (pid : Z) | Turn.
(** The sleeper itself is not on a CPU. *)
Definition others (me : nat) (e : event) : Prop :=
  match e with Tick self | Wake self _ => self ≠ Some me | _ => True end.
Definition tick (e : event) : Z := match e with Tick _ => 1 | _ => 0 end.
Definition ticked (evs : list event) : Z := foldr (λ e k, tick e + k) 0 evs.

Section sleeper.
Context {F : Type} {L : Linker} `{FO : FileOps F}.
Context (ticks_addr : Z) (me : nat).
Implicit Types s : clocked (F:=F).

(** An event, while the call has come to [r]. *)
Definition happens (n ticks0 : Z) (e : event) (r : unit + Z) : M (clocked (F:=F)) (unit + Z) :=
  match e with
  | Tick self => do! clockintr ticks_addr self; ret r
  | Wake self c => do! on_procs (wakeup self c); ret r
  | Kill pid => do! on_procs (kill pid); ret r
  | Turn =>
      match r with
      | inr _ => ret r
      | inl _ =>
          let! ran := on_procs (scheduler_turn me) in
          if ran : bool then sleep_again ticks_addr me n ticks0 else ret r
      end
  end.
Fixpoint happen (n ticks0 : Z) (evs : list event) (r : unit + Z) : M (clocked (F:=F)) (unit + Z) :=
  match evs with
  | [] => ret r
  | e :: evs' => let! r := happens n ticks0 e r in happen n ticks0 evs' r
  end.

(** When the call has not returned by the end of [past]: no turn came after
    the time was up, or after a kill. *)
Definition waiting (n pid : Z) (past : list event) : Prop := ∀ evs1 evs2, past = evs1 ++ Turn :: evs2 →
  ticked evs1 < u32 n ∧ Kill pid ∉ evs1.
(** How it came to [r]. *)
Definition came_to (n pid : Z) (past : list event) (r : unit + Z) : Prop :=
  match r with
  | inl _ => waiting n pid past
  | inr x => x = 0 ∧ u32 n ≤ ticked past ∨ x = u64 (-1) ∧ Kill pid ∈ past
  end.

Record sleeping (n ticks0 pid : Z) (past : list event) (r : unit + Z) (s : clocked (F:=F)) : Prop := {
  sl_calm : calm (t_procs (ck_procs s));
  sl_lock : tickslock s = false;
  sl_ticks : ticks s = u32 (ticks0 + ticked past);
  sl_past : came_to n pid past r;
  sl_me : ∃ p, t_procs (ck_procs s) !! me = Some p ∧ p_pid p = pid ∧
    (r = inl tt → (truth (p_killed p) = true ↔ Kill pid ∈ past) ∧
      (p_state p = RUNNABLE ∨ p_state p = SLEEPING ∧ p_chan p = AtAddr ticks_addr ∧ ticked past < u32 n ∧ Kill pid ∉ past));
  sl_pid : ∀ i p, t_procs (ck_procs s) !! i = Some p → p_pid p = pid → i = me;
}.

Lemma ticked_app a b : ticked (a ++ b) = ticked a + ticked b.
Proof. induction a as [|e a IH]; simpl; lia. Qed.
Lemma ticked_nonneg a : 0 ≤ ticked a.
Proof. induction a as [|[] a IH]; simpl; lia. Qed.
Lemma came_to_snoc n pid past e r : came_to n pid past r →
  (r = inl tt → e = Turn → ticked past < u32 n ∧ Kill pid ∉ past) → came_to n pid (past ++ [e]) r.
Proof.
  intros H He. destruct r as [[]|x]; simpl in *.
  - intros evs1 evs2 E. destruct evs2 as [|e2 evs2 _] using rev_ind.
    + apply app_inj_tail in E as [<- ->]. auto.
    + rewrite app_comm_cons, app_assoc in E. apply app_inj_tail in E as [E _]. by apply (H evs1 evs2).
  - rewrite ticked_app. pose proof (ticked_nonneg [e]). rewrite elem_of_app. intuition lia.
Qed.

Lemma elapsed ticks0 k : 0 ≤ k < 2 ^ 32 → u32 (u32 (ticks0 + k) - ticks0) = k.
Proof. intros H. unfold u32. rewrite Zminus_mod_idemp_l, (Z.add_comm ticks0), Z.add_simpl_r. by apply Z.mod_small. Qed.

(** One test of the loop, with the lock held. *)
Lemma sleep_round_spec n ticks0 pid past p s :
  calm (t_procs (ck_procs s)) → tickslock s = true → ticks s = u32 (ticks0 + ticked past) → ticked past < 2 ^ 32 →
  t_procs (ck_procs s) !! me = Some p → p_pid p = pid → (truth (p_killed p) = true ↔ Kill pid ∈ past) →
  (∀ i p, t_procs (ck_procs s) !! i = Some p → p_pid p = pid → i = me) → waiting n pid past →
  wp (sleep_round ticks_addr me n ticks0) (λ r s', sleeping n ticks0 pid past r s' ∧
    (r = inl tt → ticked past < u32 n ∧ Kill pid ∉ past)) s.
Proof.
  intros Hc Hl Ht Hk Hp Hpid Hkd Hun Hw. pose proof (ticked_nonneg past).
  assert (me < length (t_procs (ck_procs s)))%nat as Hi by (by eapply lookup_lt_Some).
  unfold sleep_round. apply wp_bind, wp_gets. rewrite Ht, elapsed by lia.
  destruct (Z.ltb_spec (ticked past) (u32 n)) as [Hlt|Hge].
  - apply wp_bind, wp_zoom. eapply wp_getp; [done|]. destruct (truth (p_killed p)) eqn:Ekd.
    + apply wp_bind, wp_lock_release; [done|]. apply wp_ret. split; [|done].
      split; simpl; [done|done|done|by right; split; [|apply Hkd]| |done]. exists p. by split_and!.
    + pose proof (cm_free _ Hc _ _ Hp) as Hfree.
      assert (Kill pid ∉ past) as Hnk by (intros Hx%Hkd; congruence).
      apply wp_bind, wp_zoom. eapply wp_proc_acquire; [done..|]. apply wp_bind, wp_lock_release; [done|].
      apply wp_bind, wp_zoom. eapply wp_updp; [by apply list_lookup_insert_eq|].
      apply wp_bind, wp_zoom. unfold sched. change (cpu_after other_released) with (Cpu 1 1 0). simpl. rewrite list_insert_insert_eq. apply wp_bind.
      eapply wp_getp; [by apply list_lookup_insert_eq|]. simpl.
      eapply wp_proc_release; [by apply list_lookup_insert_eq|done|]. apply wp_ret. simpl. rewrite list_insert_insert_eq.
      split; [|done]. split; simpl; [|done|done|done| |].
      * apply calm_insert; [done|]. by destruct p.
      * eexists. split; [by apply list_lookup_insert_eq|]. destruct p; simpl in *. rewrite Ekd. auto 10.
      * intros i q Hq Hqp. apply list_lookup_insert_Some in Hq as [(-> & <- & _)|[? Hq]]; [done|by eapply Hun].
  - apply wp_bind, wp_lock_release; [done|]. apply wp_ret. split; [|done].
    split; simpl; [done|done|done|by left| |done]. exists p. by split_and!.
Qed.

(** The others change a process at most in its state and its killed mark. *)
Lemma sleeping_step n ticks0 pid past r e (f : nat → proc → proc) s s' :
  sleeping n ticks0 pid past r s → e ≠ Turn →
  (∀ i p, p_lock (f i p) = p_lock p ∧ p_pid (f i p) = p_pid p) →
  t_procs (ck_procs s') = imap f (t_procs (ck_procs s)) → tickslock s' = false → ticks s' = u32 (ticks s + tick e) →
  (∀ p, p_pid p = pid → (truth (p_killed p) = true ↔ Kill pid ∈ past) → (truth (p_killed (f me p)) = true ↔ Kill pid ∈ past ++ [e])) →
  (∀ p, p_pid p = pid → p_state p = RUNNABLE → p_state (f me p) = RUNNABLE) →
  (∀ p, p_pid p = pid → p_state p = SLEEPING → p_chan p = AtAddr ticks_addr → p_state (f me p) = RUNNABLE ∨
     p_state (f me p) = SLEEPING ∧ p_chan (f me p) = AtAddr ticks_addr ∧ tick e = 0 ∧ e ≠ Kill pid) →
  sleeping n ticks0 pid (past ++ [e]) r s'.
Proof.
  intros [Hc Hl Ht Hpast (p & Hp & Hpid & Hme) Hun] Hne Hf Hps Hl' Ht' Hkd Hr Hs.
  split; [|done| | | |].
  - rewrite Hps. split; [rewrite length_imap; apply Hc|]. intros i q. rewrite list_lookup_imap.
    destruct (t_procs _ !! i) as [q0|] eqn:E; [|done]. intros [= <-]. rewrite (proj1 (Hf i q0)). by eapply cm_free.
  - rewrite Ht', Ht, ticked_app. simpl. unfold u32. rewrite Zplus_mod_idemp_l. f_equal. lia.
  - by apply came_to_snoc.
  - rewrite Hps. exists (f me p). rewrite list_lookup_imap, Hp. split_and!; [done|by rewrite (proj2 (Hf me p))|].
    intros ->. destruct (Hme eq_refl) as [Hk Hst]. split; [by apply Hkd|].
    destruct Hst as [E|(E1 & E2 & E3 & E4)]; [left; by apply Hr|].
    destruct (Hs p Hpid E1 E2) as [?|(? & ? & ? & ?)]; [by left|right]. split_and!; [done|done| |].
    + rewrite ticked_app. simpl. lia.
    + rewrite elem_of_app, list_elem_of_singleton. intros [?|?]; [done|]. by subst e.
  - rewrite Hps. intros i q. rewrite list_lookup_imap. destruct (t_procs _ !! i) as [q0|] eqn:E; [|done].
    intros [= <-] Hq. rewrite (proj2 (Hf i q0)) in Hq. by eapply Hun.
Qed.

Lemma wake_step n ticks0 pid past r e self c s s' :
  sleeping n ticks0 pid past r s → self ≠ Some me → e = Tick self ∧ c = AtAddr ticks_addr ∨ e = Wake self c →
  ck_procs s' = set_procs (imap (wake_proc self c) (t_procs (ck_procs s))) (ck_procs s) →
  tickslock s' = false → ticks s' = u32 (ticks s + tick e) → sleeping n ticks0 pid (past ++ [e]) r s'.
Proof.
  intros Hs Hne He Hps Hl Ht. eapply (sleeping_step _ _ _ _ _ _ (wake_proc self c)); [done| | |by rewrite Hps|done|done| | |].
  - by destruct He as [[-> _]| ->].
  - intros i p. unfold wake_proc. case_decide; [done|]. by destruct (_ && _).
  - intros p Hp Hk. assert (p_killed (wake_proc self c me p) = p_killed p) as ->.
    { unfold wake_proc. case_decide; [done|]. by destruct (_ && _). }
    rewrite Hk, elem_of_app, list_elem_of_singleton. split; [auto|]. intros [?|E]; [done|]. destruct He as [[-> _]| ->]; done.
  - intros p _ E. unfold wake_proc. case_decide; [done|]. by rewrite E.
  - intros p _ E1 E2. unfold wake_proc. rewrite decide_False by congruence. rewrite (bool_decide_eq_true_2 _ E1).
    destruct (bool_decide_reflect (p_chan p = c)) as [E|E]; [by left|right]. simpl. split_and!; [done|done| |].
    + destruct He as [[_ ->]| ->]; [by rewrite E2 in E|done].
    + destruct He as [[-> _]| ->]; done.
Qed.
Lemma kill_step n ticks0 pid past r x s s' :
  sleeping n ticks0 pid past r s → tickslock s' = false → ticks s' = ticks s →
  (ck_procs s' = ck_procs s ∧ ∀ i p, t_procs (ck_procs s) !! i = Some p → p_pid p ≠ x) ∨
  (∃ i p, t_procs (ck_procs s) !! i = Some p ∧ p_pid p = x ∧
     ck_procs s' = set_procs (<[i := kill_proc p]> (t_procs (ck_procs s))) (ck_procs s)) →
  sleeping n ticks0 pid (past ++ [Kill x]) r s'.
Proof.
  intros Hs Hl Ht Hk. pose proof (sl_ticks _ _ _ _ _ _ Hs) as Ht0.
  assert (∃ b : nat → bool, b me = bool_decide (x = pid) ∧
    t_procs (ck_procs s') = imap (λ j q, if b j then kill_proc q else q) (t_procs (ck_procs s))) as (b & Hb & Hps).
  { destruct (sl_me _ _ _ _ _ _ Hs) as (p & Hp & Hpid & _). destruct Hk as [[-> Hno]|(i & q & Hi & Hq & ->)].
    - exists (λ _, false). split; [|apply list_eq; intros j; rewrite list_lookup_imap; by destruct (_ !! j)].
      rewrite bool_decide_eq_false_2; [done|]. intros ->. by apply (Hno me p).
    - exists (λ j, bool_decide (j = i)). split.
      + apply bool_decide_ext. split; [intros E; rewrite E in Hp; congruence|]. intros E. symmetry. eapply (sl_pid _ _ _ _ _ _ Hs); [done|congruence].
      + simpl. apply list_eq. intros j. rewrite list_lookup_imap. destruct (decide (j = i)) as [->|Hne].
        * rewrite list_lookup_insert_eq, Hi by (by eapply lookup_lt_Some). simpl. by rewrite bool_decide_eq_true_2.
        * rewrite list_lookup_insert_ne by done. destruct (_ !! j); simpl; [|done]. by rewrite bool_decide_eq_false_2. }
  eapply (sleeping_step _ _ _ _ _ _ _ s); [done|done| |exact Hps|done| | | |]; simpl; rewrite ?Hb.
  - intros i p. destruct (b i); [|done]. unfold kill_proc. by destruct (decide (p_state p = SLEEPING)).
  - rewrite Ht, Z.add_0_r, Ht0. unfold u32. by rewrite Zmod_mod.
  - intros p _ Hkd. rewrite elem_of_app, list_elem_of_singleton. case_bool_decide as E; subst.
    + unfold kill_proc. simpl. split; auto.
    + rewrite Hkd. split; [auto|]. intros [?|[= ->]]; done.
  - intros p _ E. case_bool_decide; [|done]. unfold kill_proc. by rewrite decide_False by congruence.
  - intros p _ E1 E2. case_bool_decide; [left; unfold kill_proc; by rewrite decide_True|right]. split_and!; [done..|].
    congruence.
Qed.

Lemma turn_past n ticks0 pid past r s : sleeping n ticks0 pid past r s →
  (r = inl tt → ticked past < u32 n ∧ Kill pid ∉ past) → sleeping n ticks0 pid (past ++ [Turn]) r s.
Proof.
  intros [Hc Hl Ht Hpast (p & Hp & Hpid & Hme) Hun] Hr. split; [done|done| | | |done].
  - rewrite Ht, ticked_app. simpl. by rewrite Z.add_0_r.
  - apply came_to_snoc; auto.
  - exists p. split_and!; [done|done|]. intros E. specialize (Hme E). rewrite ticked_app. simpl. rewrite Z.add_0_r.
    rewrite elem_of_app, list_elem_of_singleton. naive_solver.
Qed.

Lemma sleep_turn n ticks0 pid past s : sleeping n ticks0 pid past (inl tt) s → ticked past < 2 ^ 32 →
  wp (happens n ticks0 Turn (inl tt)) (sleeping n ticks0 pid (past ++ [Turn])) s.
Proof.
  intros Hs Hk. pose proof Hs as [Hc Hl Ht Hpast (p & Hp & Hpid & Hme) Hun]. destruct (Hme eq_refl) as [Hkd Hst].
  assert (me < length (t_procs (ck_procs s)))%nat as Hi by (by eapply lookup_lt_Some).
  unfold happens. apply wp_bind, wp_zoom. eapply wp_mono; [by apply turn_total|]. intros [|] t' H.
  - destruct H as [E ->]. unfold sleep_again. apply wp_bind, wp_zoom. unfold sleep_leave.
    eapply wp_updp; [by apply list_lookup_insert_eq|]. simpl. rewrite list_insert_insert_eq.
    apply wp_bind, wp_lock_acquire; [done|]. eapply wp_mono.
    { apply (sleep_round_spec n ticks0 pid past (set_p_chan NoChan (set_p_state RUNNING p))); simpl.
      - apply calm_insert; [done|]. by apply (cm_free _ Hc me p).
      - done.
      - done.
      - done.
      - by apply list_lookup_insert_eq.
      - done.
      - done.
      - intros i q Hq Hqp. apply list_lookup_insert_Some in Hq as [(-> & _ & _)|[? Hq]]; [done|by eapply Hun].
      - done. }
    intros r s' [Hs' Hr]. by apply turn_past.
  - destruct H as [E ->]. destruct Hst as [?|(_ & _ & ? & ?)]; [done|]. apply wp_ret.
    destruct s. by apply turn_past.
Qed.

Lemma happens_spec n ticks0 pid past e r s : sleeping n ticks0 pid past r s → others me e → ticked past < 2 ^ 32 →
  wp (happens n ticks0 e r) (sleeping n ticks0 pid (past ++ [e])) s.
Proof.
  intros Hs He Hk. pose proof Hs as [Hc Hl Ht Hpast Hme Hun]. destruct e as [self|self c|x|]; simpl in He.
  - unfold happens, clockintr. apply wp_bind, wp_bind, wp_lock_acquire; [done|]. apply wp_bind, wp_modify.
    apply wp_bind, wp_zoom. eapply wp_mono; [by apply wakeup_total|]. intros [] t' ->. apply wp_lock_release; [done|].
    apply wp_ret. eapply wake_step; [done|done|by left|done..].
  - unfold happens. apply wp_bind, wp_zoom. eapply wp_mono; [by apply wakeup_total|]. intros [] t' ->. apply wp_ret.
    eapply wake_step; [done|done|by right|done|done|]. simpl. rewrite Z.add_0_r, Ht. unfold u32. by rewrite Zmod_mod.
  - unfold happens. apply wp_bind, wp_zoom. eapply wp_mono; [by apply kill_total|]. intros y t' Hy. apply wp_ret.
    eapply kill_step; [done|done|done|]. destruct Hy as [(_ & -> & H)|(_ & i & p & H1 & H2 & H3 & _)]; [by left|right]. by exists i, p.
  - destruct r as [[]|x]; [by apply sleep_turn|]. apply wp_ret. by apply turn_past.
Qed.
Lemma happen_spec n ticks0 pid evs past r s : sleeping n ticks0 pid past r s → Forall (others me) evs →
  ticked past + ticked evs < 2 ^ 32 → wp (happen n ticks0 evs r) (sleeping n ticks0 pid (past ++ evs)) s.
Proof.
  intros Hs He. revert past r s Hs. induction He as [|e evs He _ IH]; intros past r s Hs Hk; simpl in *.
  { apply wp_ret. by rewrite app_nil_r. }
  pose proof (ticked_nonneg evs). assert (0 ≤ tick e) by (by destruct e).
  apply wp_bind. eapply wp_mono; [apply happens_spec; [done|done|lia]|]. intros r' s' Hs'.
  replace (past ++ e :: evs) with ((past ++ [e]) ++ evs) by (by rewrite <- app_assoc). apply IH; [done|]. rewrite ticked_app. simpl. lia.
Qed.

(** C12: sys_sleep(n) returns, whatever the clock, the scheduler and the other
    processes do meanwhile.  It returns 0 only when [n] ticks have passed
    since the call, and -1 only when the process has been killed; and no
    wakeup is lost: as long as it has not returned, the scheduler has given
    the process no turn at which [n] ticks had passed or the process had been
    killed.  The number of ticks is [n] as an unsigned number, so a negative
    [n] stands for at least 2^31 ticks. *)
Theorem sleep_returns n p evs s :
  calm (t_procs (ck_procs s)) → tickslock s = false → fits 32 (ticks s) →
  t_procs (ck_procs s) !! me = Some p → p_killed p = 0 →
  (∀ i q, t_procs (ck_procs s) !! i = Some q → p_pid q = p_pid p → i = me) →
  argint (p_trapframe p) 0 (t_mem (ck_procs s)) = Ok n (t_mem (ck_procs s)) →
  Forall (others me) evs → ticked evs < 2 ^ 32 →
  wp (let! '(n, ticks0, r) := sys_sleep ticks_addr me in happen n ticks0 evs r) (λ r _,
    match r with
    | inr x => x = 0 ∧ u32 n ≤ ticked evs ∨ x = u64 (-1) ∧ Kill (p_pid p) ∈ evs
    | inl _ => ∀ evs1 evs2, evs = evs1 ++ Turn :: evs2 → ticked evs1 < u32 n ∧ Kill (p_pid p) ∉ evs1
    end) s.
Proof.
  intros Hc Hl Ht Hp Hkd Hun Harg He Hk. apply wp_bind. unfold sys_sleep. apply wp_bind. unfold proc_argint, proc_arg.
  apply wp_zoom, wp_bind. eapply wp_getp; [done|]. apply wp_zoom. apply wp_ok. exists n, (t_mem (ck_procs s)). split; [done|].
  replace (set_ck_procs (set_tmem (t_mem (ck_procs s)) (ck_procs s)) s) with s by (by destruct s as [[]]).
  apply wp_bind, wp_lock_acquire; [done|]. apply wp_bind, wp_gets, wp_bind. eapply wp_mono.
  { apply (sleep_round_spec n (ticks s) (p_pid p) [] p); simpl; [done|done| |lia|done|done| |done|].
    - rewrite Z.add_0_r. symmetry. by apply Z.mod_small.
    - rewrite Hkd. split; [done|]. by intros ?%elem_of_nil.
    - intros evs1 evs2 E. by destruct evs1. }
  intros r s1 [Hs1 _]. apply wp_ret. eapply wp_mono; [by apply (happen_spec n (ticks s) (p_pid p) evs [])|].
  intros r' s2 Hs2. exact (sl_past _ _ _ _ _ _ Hs2).
Qed.
End sleeper.

Section witness.
(** Process 1 in slot 0 asks for 3 ticks. *)
#[local] Instance nap_linker : Linker := {| kend := KERNBASE; etext := KERNBASE; trampoline := KERNBASE |}.
#[local] Instance nap_files : FileOps unit :=
  {| f_filedup f := ret f; f_fileclose _ := ret tt; f_idup i := ret i; f_iput _ := ret tt; f_root := ret 1 |}.
Definition nap_proc (pid : Z) (st : procstate) : proc :=
  Proc false st NoChan 0 0 pid None 0 0 0 KERNBASE (replicate 16 0) 0 (replicate 16 0).
Definition nap_mem : kmem := Kmem false 0 (store64 ∅ (KERNBASE + 112) 3).
Definition nap_state : clocked :=
  Clocked (PTable (nap_proc 1 RUNNING :: replicate 63 (nap_proc 0 UNUSED)) 2 false false (Some 0%nat) nap_mem tt) false (2 ^ 32 - 2).
Definition nap : list event := [Tick None; Turn; Tick (Some 5%nat); Tick None; Wake None (AtAddr 8); Turn].

Lemma nap_calm : calm (t_procs (ck_procs nap_state)).
Proof.
  split; [done|]. intros [|i] p H; [by injection H as <-|].
  change (replicate 63 (nap_proc 0 UNUSED) !! i = Some p) in H. by apply lookup_replicate in H as [-> _].
Qed.
Lemma nap_pid i q : t_procs (ck_procs nap_state) !! i = Some q → p_pid q = 1 → i = 0%nat.
Proof. destruct i as [|i]; [done|]. change (_ !! S i) with (replicate 63 (nap_proc 0 UNUSED) !! i). by intros [-> _]%lookup_replicate. Qed.

(** The clock wraps while the process sleeps; it returns at the last turn. *)
Lemma sleep_returns_witness :
  wp (let! '(n, ticks0, r) := sys_sleep 8 0 in happen 8 0 n ticks0 nap r) (λ r _, r = inr 0) nap_state.
Proof.
  eapply wp_mono.
  - refine (sleep_returns 8 0 3 (nap_proc 1 RUNNING) nap nap_state nap_calm eq_refl _ eq_refl eq_refl nap_pid _ _ _).
    + by vm_compute.
    + by vm_compute.
    + by repeat constructor.
    + by vm_compute.
  - intros [[]|x] s H.
    + destruct (H [Tick None; Turn; Tick (Some 5%nat); Tick None; Wake None (AtAddr 8)] [] eq_refl) as [H1 _].
      by vm_compute in H1.
    + destruct H as [[-> _]|[_ H]]; [done|]. exfalso. revert H. unfold nap. rewrite !elem_of_cons, elem_of_nil. naive_solver.
Defined.
End witness.
