(* ===== verification/KillZero.v ===== *)
(** kernel/proc.c: [kill] does not look at the state of the slots it searches,
    and a free slot has pid 0. *)

From S2P Require Import Prelude Riscv Mem Spinlock Kalloc Vm ProcMem Proc ProcSpec ProcInv ProcSafe Syscall SysProc SleepSpec.

Section first_free.
Context {F : Type} {L : Linker} `{FO : FileOps F}.
Implicit Types t : ptable (F:=F).

Lemma wlp_skip {A B} (m : M (ptable (F:=F)) A) (k : A → M ptable B) (Q : B → ptable → Prop) t :
  (∀ a t', wlp (k a) Q t') → wlp (bind m k) Q t.
Proof. intros H. apply wlp_bind. unfold wlp at 1. by destruct (m t). Qed.

(** A search finds the first process it looks for. *)
Lemma for_procs_first (P : pview → Prop) (body : nat → M ptable (option nat)) a n t :
  (∀ i t, wlp (body i) (λ r t', tview_of t' = tview_of t ∧ match r with
     | Some x => x = i
     | None => ∀ w, tv_procs (tview_of t) !! i = Some w → ¬ P w
     end) t) →
  wlp (for_procs (seq a n) body) (λ r _, ∀ x, r = Some x →
    ∀ j w, (a ≤ j < x)%nat → tv_procs (tview_of t) !! j = Some w → ¬ P w) t.
Proof.
  intros Hbody. revert a t. induction n as [|n IH]; intros a t; cbn [seq for_procs]; [by apply wlp_ret|].
  apply wlp_bind. eapply wlp_mono; [apply Hbody|]. intros [x|] t1 [E H1].
  - apply wlp_ret. intros y [= <-] j w Hj. lia.
  - eapply wlp_mono; [apply IH|]. intros r t2 H2 x Hx j w Hj Hw.
    destruct (decide (j = a)) as [->|]; [by apply H1|]. rewrite E in H2. eapply H2; [done| |done]. lia.
Qed.
Definition before (x : nat) (v : tview) : Prop := ∀ j w, (j < x)%nat → tv_procs v !! j = Some w → v_state w ≠ UNUSED.
Lemma allocproc_first t : wlp allocproc (λ r _, ∀ x, r = Some x → before x (tview_of t)) t.
Proof.
  unfold allocproc. apply wlp_bind. eapply wlp_mono; [apply (for_procs_first (λ w, v_state w = UNUSED))|].
  { intros i t1. apply wlp_silent; [auto with silent|]. intros _ t2 E2. apply wlp_get. intros p Hp. rewrite E2 in Hp.
    case_decide as Hu; [by apply wlp_ret|]. apply wlp_silent; [auto with silent|]. intros _ t3 E3. apply wlp_ret.
    split; [by rewrite E3, E2|]. intros w Hw. rewrite Hw in Hp. by injection Hp as ->. }
  intros [i|] t1 H1; [|by apply wlp_ret]. do 4 (apply wlp_skip; intros).
  match goal with |- context [if ?b then _ else _] => destruct b end; [do 2 (apply wlp_skip; intros); by apply wlp_ret|].
  do 2 (apply wlp_skip; intros).
  match goal with |- context [if ?b then _ else _] => destruct b end; [do 2 (apply wlp_skip; intros); by apply wlp_ret|].
  apply wlp_ret. intros x [= <-] j w Hj. apply (H1 i eq_refl). lia.
Qed.
Lemma fork_alloc_first me t : wlp (fork_alloc me) (λ r _, ∀ x, r = Some x → before x (tview_of t)) t.
Proof.
  unfold fork_alloc. apply wlp_bind. eapply wlp_mono; [apply allocproc_first|]. intros [np|] t1 H1; [|by apply wlp_ret].
  do 3 (apply wlp_skip; intros). match goal with |- context [if ?b then _ else _] => destruct b end.
  - do 2 (apply wlp_skip; intros). by apply wlp_ret.
  - do 9 (apply wlp_skip; intros). apply wlp_ret. intros x [= <-]. by apply H1.
Qed.

(** The child that [fork] makes in the slot it has found. *)
Definition born t (r : Z) t' : Prop := r = -1 ∨
  ∃ f w q, before f (tview_of t) ∧ tv_procs (tview_of t) !! f = Some w ∧ v_state w = UNUSED ∧
    t_procs t' !! f = Some q ∧ p_pid q = r ∧ p_state q = RUNNABLE ∧ p_killed q = v_killed w.
Lemma fork_slot me r t t' : fork me t = Ok r t' → born t r t'.
Proof.
  apply (wlp_elim (fork me) (born t)). unfold fork. apply wlp_bind. unfold wlp at 1. destruct (fork_alloc me t) as [[f|] t1| | |] eqn:E; try done.
  2: { apply wlp_ret. by left. }
  pose proof (wlp_elim _ _ _ _ _ (fork_alloc_first me t) E f eq_refl) as Hb.
  pose proof (wlp_elim _ _ _ _ _ (fork_alloc_view me t) E) as (w & Hw & Hu & _ & E1).
  apply wlp_get. intros p Hp. rewrite E1 in Hp. cbn [tv_procs] in Hp. rewrite list_lookup_insert_eq in Hp by (by eapply lookup_lt_Some).
  apply (inj Some) in Hp. apply wlp_bind. eapply wlp_mono; [apply fork_parent_view|]. intros [] t2 [_ E2].
  apply wlp_bind. eapply wlp_mono; [apply fork_ready_view|]. intros [] t3 E3. apply wlp_ret. right.
  assert (tv_procs (tview_of t3) !! f = Some (v_set_state RUNNABLE (v_set_parent (Some me) (view p)))) as Hv.
  { rewrite E3, E2, E1. cbn [tv_procs tv_set]. rewrite !list_lookup_alter_eq, list_lookup_insert_eq by (by eapply lookup_lt_Some). by rewrite Hp. }
  cbn [tv_procs tview_of] in Hv. rewrite list_lookup_fmap in Hv. destruct (t_procs t3 !! f) as [q|] eqn:Eq; [|done]. injection Hv as H31 _ H33 _ H35 _.
  exists f, w, q. split_and!; [done|done|done|done|done|done|]. rewrite H33. change (v_killed (view p) = v_killed w). by rewrite <- Hp.
Qed.

(** C40: [kill(0)] reports success whenever there is a free slot: it marks the
    first one as killed, and nothing else; and when [fork] makes the next
    child, it is that slot, and the child is born killed. *)
Theorem kill_zero_marks_next_child me t :
  calm (t_procs t) → (∀ i p, t_procs t !! i = Some p → p_pid p = 0 ↔ p_state p = UNUSED) →
  (∃ i p, t_procs t !! i = Some p ∧ p_state p = UNUSED) →
  ∃ f p t1, t_procs t !! f = Some p ∧ p_state p = UNUSED ∧ t1 = set_procs (<[f := set_p_killed 1 p]> (t_procs t)) t ∧
    kill 0 t = Ok 0 t1 ∧
    ∀ r t2, fork me t1 = Ok r t2 → r = -1 ∨
      ∃ q, t_procs t2 !! f = Some q ∧ p_pid q = r ∧ p_state q = RUNNABLE ∧ p_killed q = 1.
Proof.
  intros Hc Hpid (i & p0 & Hi & Hu0).
  destruct (proj1 (wp_ok _ _ _) (kill_total 0 t Hc)) as (r & t1 & Hk & [(_ & _ & Hno)|(-> & f & p & Hf & Hp0 & E1 & Hfirst)]).
  { exfalso. apply (Hno i p0 Hi). by apply (Hpid i). }
  pose proof (proj1 (Hpid f p Hf) Hp0) as Hu. exists f, p, t1.
  assert (kill_proc p = set_p_killed 1 p) as Ek by (unfold kill_proc; by rewrite decide_False by congruence). rewrite Ek in E1.
  split_and!; [done..|]. intros r t2 [->|(g & w & q & Hb & Hw & Hwu & Hq & Hr & Hs & Hkd)]%fork_slot; [by left|right].
  subst t1. simpl in Hw. rewrite list_lookup_fmap in Hw. assert (g = f) as ->.
  { destruct (Nat.lt_trichotomy g f) as [Hlt|[|Hlt]]; [|done|].
    - rewrite list_lookup_insert_ne in Hw by lia. destruct (t_procs t !! g) as [pg|] eqn:Eg; [|done]. injection Hw as <-.
      exfalso. apply (Hfirst g pg Hlt Eg). by apply (Hpid g).
    - exfalso. apply (Hb f (view (set_p_killed 1 p)) Hlt); [|done]. simpl. rewrite list_lookup_fmap, list_lookup_insert_eq by (by eapply lookup_lt_Some). done. }
  rewrite list_lookup_insert_eq in Hw by (by eapply lookup_lt_Some). injection Hw as <-. exists q. by split_and!.
Qed.
End first_free.

(** After boot: slot 1 is free. *)
Section witness.
#[local] Existing Instances boot_linker no_files.
Definition slot_ok (p : proc) : bool := negb (p_lock p) && Bool.eqb (p_pid p =? 0) (bool_decide (p_state p = UNUSED)).
Lemma ex_slots i p : t_procs ex_boot !! i = Some p → p_lock p = false ∧ (p_pid p = 0 ↔ p_state p = UNUSED).
Proof.
  intros Hp. assert (forallb slot_ok (t_procs ex_boot) = true) as H by (vm_compute; reflexivity).
  pose proof (proj1 (forallb_forall _ _) H p (proj1 (list_elem_of_In _ _) (list_elem_of_lookup_2 _ _ _ Hp))) as Hs.
  apply andb_true_iff in Hs as [Hl He]. apply negb_true_iff in Hl. apply eqb_prop in He. split; [done|].
  rewrite <- Z.eqb_eq, He. apply bool_decide_eq_true.
Qed.
Lemma kill_zero_marks_next_child_witness : ∃ f t1 t2 q, kill 0 ex_boot = Ok 0 t1 ∧ fork 0 t1 = Ok 2 t2 ∧
  t_procs t2 !! f = Some q ∧ p_pid q = 2 ∧ p_killed q = 1.
Proof.
  destruct (kill_zero_marks_next_child 0 ex_boot) as (f & p & t1 & _ & _ & _ & Hk & Hf).
  - split; [vm_compute; reflexivity|]. intros i p Hp. apply (ex_slots i p Hp).
  - intros i p Hp. apply (ex_slots i p Hp).
  - assert (match t_procs ex_boot !! 1%nat with Some p => bool_decide (p_state p = UNUSED) | None => false end = true) as H by (vm_compute; reflexivity).
    destruct (t_procs ex_boot !! 1%nat) as [p|] eqn:E; [|discriminate H]. exists 1%nat, p. split; [exact E|]. by apply bool_decide_eq_true in H.
  - assert (result (fork 0 (ran (kill 0 ex_boot) ex_boot)) 0 = 2) as H2 by (vm_compute; reflexivity). rewrite Hk in H2. simpl ran in H2.
    destruct (fork 0 t1) as [r t2| | |] eqn:Ef; try discriminate H2. simpl in H2. subst r.
    destruct (Hf 2 t2 eq_refl) as [?|(q & Hq & Hp & _ & Hkd)]; [discriminate|]. exists f, t1, t2, q.
    split; [exact Hk|]. split; [exact Ef|]. split; [exact Hq|]. split; [exact Hp|exact Hkd].
Defined.
End witness.
