(* ===== verification/Trap.v ===== *)
(** kernel/trap.c and kernel/plic.c: traps from user space and from the kernel,
    device interrupts, and the return to user space.  The machine is the
    control registers of the hart, the process that runs on it, physical
    memory and the devices.  The system calls, the drivers and the scheduler
    are functions on the whole machine: they may change every register. *)

From S2P Require Import Prelude Riscv Mem Spinlock Kalloc Vm ProcMem Proc.

(** The control registers that trap.c reads and writes, and [tp]. *)
Record hart := Hart {
  r_sstatus : Z;
  r_sepc : Z;
  r_scause : Z;
  r_stvec : Z;
  r_satp : Z;
  r_tp : Z;
  r_sip : Z;
}.
Definition w_sstatus x h := Hart x (r_sepc h) (r_scause h) (r_stvec h) (r_satp h) (r_tp h) (r_sip h).
Definition w_sepc x h := Hart (r_sstatus h) x (r_scause h) (r_stvec h) (r_satp h) (r_tp h) (r_sip h).
Definition w_stvec x h := Hart (r_sstatus h) (r_sepc h) (r_scause h) x (r_satp h) (r_tp h) (r_sip h).
Definition w_sip x h := Hart (r_sstatus h) (r_sepc h) (r_scause h) (r_stvec h) (r_satp h) (r_tp h) x.

(** The words of the interrupt controller. *)
Class PlicRegs (K : Type) := {
  plic_read : Z → M K Z;
  plic_write : Z → Z → M K unit;
}.

Section trap.
Context {K : Type} `{PlicRegs K}.

Record machine := Machine {
  mc_hart : hart;
  mc_proc : option proc;     (* myproc() *)
  mc_mem : kmem;
  mc_dev : K;
}.
Definition set_hart x m := Machine x (mc_proc m) (mc_mem m) (mc_dev m).
Definition set_proc x m := Machine (mc_hart m) x (mc_mem m) (mc_dev m).
Definition set_mem x m := Machine (mc_hart m) (mc_proc m) x (mc_dev m).
Definition set_dev x m := Machine (mc_hart m) (mc_proc m) (mc_mem m) x.
Definition csr {A} (f : hart → A) : M machine A := gets (λ m, f (mc_hart m)).
Definition w_csr (f : hart → hart) : M machine unit := modify (λ m, set_hart (f (mc_hart m)) m).
Definition on_mem {A} (m : M kmem A) : M machine A := zoom mc_mem set_mem m.
Definition on_dev {A} (m : M K A) : M machine A := zoom mc_dev set_dev m.
(** [myproc()], dereferenced. *)
Definition myproc : M machine proc := λ m, match mc_proc m with Some p => Ok p m | None => Stuck end.

(** ** kernel/plic.c *)

Definition plicinit : M machine unit :=
  do! on_dev (plic_write (PLIC + UART0_IRQ * 4) 1);
  on_dev (plic_write (PLIC + VIRTIO0_IRQ * 4) 1).
Definition cpuid : M machine Z := csr (λ h, s32 (r_tp h)).
Definition plicinithart : M machine unit :=
  let! hart := cpuid in
  do! on_dev (plic_write (PLIC_SENABLE hart) (Z.lor (Z.shiftl 1 UART0_IRQ) (Z.shiftl 1 VIRTIO0_IRQ)));
  on_dev (plic_write (PLIC_SPRIORITY hart) 0).
Definition plic_claim : M machine Z :=
  let! hart := cpuid in
  let! irq := on_dev (plic_read (PLIC_SCLAIM hart)) in
  ret (s32 irq).
Definition plic_complete (irq : Z) : M machine unit :=
  let! hart := cpuid in
  on_dev (plic_write (PLIC_SCLAIM hart) (u32 irq)).

(** ** kernel/trap.c *)

(** The code that trap.c calls; [exit] does not return. *)
Record kernel := Kernel {
  kn_syscall : M machine unit;
  kn_exit : Z → M machine Empty_set;
  kn_yield : M machine unit;
  kn_uartintr : M machine unit;
  kn_virtio_disk_intr : M machine unit;
  kn_clockintr : M machine unit;
}.
(** The addresses of the code in trampoline.S and kernelvec.S, and of [usertrap]. *)
Context (kn : kernel) (trampoline uservec kernelvec usertrap_addr : Z).

Definition trapinithart : M machine unit := w_csr (w_stvec kernelvec).

(** 2 for a timer interrupt, 1 for another device, 0 if not recognized. *)
Definition devintr : M machine Z :=
  let! scause := csr r_scause in
  if truth (Z.land scause 0x8000000000000000) && (Z.land scause 0xff =? 9) then
    let! irq := plic_claim in
    do! (if irq =? UART0_IRQ then kn_uartintr kn
         else if irq =? VIRTIO0_IRQ then kn_virtio_disk_intr kn
         else ret tt);
    do! when (truth irq) (plic_complete irq);
    ret 1
  else if scause =? 0x8000000000000001 then
    let! id := cpuid in
    do! when (id =? 0) (kn_clockintr kn);
    do! w_csr (λ h, w_sip (Z.land (r_sip h) (Z.lnot 2)) h);
    ret 2
  else ret 0.

(** The result is the pair of arguments of [userret]. *)
Definition usertrapret : M machine (Z * Z) :=
  let! p := myproc in
  do! w_csr (λ h, w_sstatus (intr_off (r_sstatus h)) h);
  do! w_csr (w_stvec (TRAMPOLINE + (uservec - trampoline)));
  let tf := p_trapframe p in
  let! satp := csr r_satp in
  do! on_mem (st64 tf satp);                        (* kernel_satp *)
  do! on_mem (st64 (tf + 8) (p_kstack p + PGSIZE)); (* kernel_sp *)
  do! on_mem (st64 (tf + 16) usertrap_addr);        (* kernel_trap *)
  let! tp := csr r_tp in
  do! on_mem (st64 (tf + 32) tp);                   (* kernel_hartid *)
  do! w_csr (λ h, w_sstatus (Z.lor (Z.land (r_sstatus h) (Z.lnot SSTATUS_SPP)) SSTATUS_SPIE) h);
  let! epc := on_mem (ld64 (tf + 24)) in
  do! w_csr (w_sepc epc);
  ret (TRAPFRAME, MAKE_SATP (p_pagetable p)).

(** [if(p->killed) exit(-1);] *)
Definition exit_if_killed : M machine unit :=
  let! p := myproc in
  if truth (p_killed p) then
    let! gone := kn_exit kn (-1) in
    match gone with end
  else ret tt.
Definition usertrap : M machine (Z * Z) :=
  let! sstatus := csr r_sstatus in
  if truth (Z.land sstatus SSTATUS_SPP) then panic "usertrap: not from user mode"
  else
    do! w_csr (w_stvec kernelvec);
    let! p := myproc in
    let! sepc := csr r_sepc in
    do! on_mem (st64 (p_trapframe p + 24) sepc);
    let! scause := csr r_scause in
    let! which_dev :=
      (if scause =? 8 then
         do! exit_if_killed;
         let! epc := on_mem (ld64 (p_trapframe p + 24)) in
         do! on_mem (st64 (p_trapframe p + 24) (u64 (epc + 4)));
         do! w_csr (λ h, w_sstatus (intr_on (r_sstatus h)) h);
         do! kn_syscall kn;
         ret 0
       else
         let! which_dev := devintr in
         do! when (which_dev =? 0)
           (modify (λ m, set_proc (set_p_killed 1 <$> mc_proc m) m));
         ret which_dev) in
    do! exit_if_killed;
    do! when (which_dev =? 2) (kn_yield kn);
    usertrapret.

Definition kerneltrap : M machine unit :=
  let! sepc := csr r_sepc in
  let! sstatus := csr r_sstatus in
  if negb (truth (Z.land sstatus SSTATUS_SPP)) then panic "kerneltrap: not from supervisor mode"
  else if intr_get sstatus then panic "kerneltrap: interrupts enabled"
  else
    let! which_dev := devintr in
    if which_dev =? 0 then panic "kerneltrap"
    else
      let! p := gets mc_proc in
      do! when ((which_dev =? 2) &&
                match p with Some p => bool_decide (p_state p = RUNNING) | None => false end) (kn_yield kn);
      do! w_csr (w_sepc sepc);
      w_csr (w_sstatus sstatus).
End trap.

(** * What a trap leaves behind *)

Section resume.
Context {K : Type} `{PlicRegs K}.
Context (kn : kernel (K:=K)) (trampoline uservec kernelvec usertrap_addr : Z).
Implicit Types m : machine (K:=K).
Abbreviation utrap := (usertrap kn trampoline uservec kernelvec usertrap_addr).
Abbreviation utrapret := (usertrapret trampoline uservec usertrap_addr).

Definition word m (a : Z) : Z := load64 (k_mem (mc_mem m)) a.

(** The hart is about to enter user mode, at the saved program counter and
    with interrupts on, and finds the kernel again at the next trap. *)
Record user_entry (p : proc) m (r : Z * Z) : Prop := {
  ue_proc : mc_proc m = Some p;
  ue_args : r = (TRAPFRAME, MAKE_SATP (p_pagetable p));
  ue_intr : intr_get (r_sstatus (mc_hart m)) = false;
  ue_user : truth (Z.land (r_sstatus (mc_hart m)) SSTATUS_SPP) = false;
  ue_spie : truth (Z.land (r_sstatus (mc_hart m)) SSTATUS_SPIE) = true;
  ue_vec : r_stvec (mc_hart m) = TRAMPOLINE + (uservec - trampoline);
  ue_pc : r_sepc (mc_hart m) = word m (p_trapframe p + 24);
  ue_satp : word m (p_trapframe p) = u64 (r_satp (mc_hart m));
  ue_sp : word m (p_trapframe p + 8) = u64 (p_kstack p + PGSIZE);
  ue_trap : word m (p_trapframe p + 16) = u64 usertrap_addr;
  ue_hart : word m (p_trapframe p + 32) = u64 (r_tp (mc_hart m));
}.
(** Only the kernel's words of the trapframe have changed. *)
Definition user_kept (p : proc) m m' : Prop :=
  mc_dev m' = mc_dev m ∧ r_satp (mc_hart m') = r_satp (mc_hart m) ∧ r_tp (mc_hart m') = r_tp (mc_hart m) ∧
  same_on (λ a, ¬ (range (p_trapframe p) 24 a ∨ range (p_trapframe p + 32) 8 a)) (k_mem (mc_mem m)) (k_mem (mc_mem m')).

Lemma word_store (m : mem) a v : load64 (store64 m a v) a = u64 v.
Proof.
  unfold load64, store64. rewrite <- (length_le_split 8 v) at 1.
  rewrite load_store_bytes by auto with kernel. apply le_combine_split.
Qed.
Lemma return_status x : let y := Z.lor (Z.land (intr_off x) (Z.lnot SSTATUS_SPP)) SSTATUS_SPIE in
  intr_get y = false ∧ truth (Z.land y SSTATUS_SPP) = false ∧ truth (Z.land y SSTATUS_SPIE) = true.
Proof.
  unfold intr_get, intr_off, SSTATUS_SIE, SSTATUS_SPP, SSTATUS_SPIE. rewrite !PTE_bit_eq by lia.
  rewrite !Z.lor_spec, !Z.land_spec, !Z.lnot_spec by lia. by rewrite !Z.shiftl_spec, !andb_false_r, !orb_true_r by lia.
Qed.

Lemma usertrapret_spec p m : mc_proc m = Some p →
  wp utrapret (λ r m', user_entry p m' r ∧ user_kept p m m') m.
Proof.
  intros Hp. unfold usertrapret. apply wp_bind. unfold wp at 1, myproc. rewrite Hp.
  do 2 apply wp_bind, wp_modify. apply wp_bind, wp_gets. do 3 apply wp_bind, wp_zoom, wp_modify.
  apply wp_bind, wp_gets, wp_bind, wp_zoom, wp_modify, wp_bind, wp_modify, wp_bind, wp_zoom, wp_gets, wp_bind, wp_modify, wp_ret.
  destruct (return_status (r_sstatus (mc_hart m))) as (S1 & S2 & S3).
  split.
  - split; try done; unfold word; simpl;
      rewrite ?(word_store _ (p_trapframe p + 32)), ?load64_store64_ne by lia;
      rewrite ?(word_store _ (p_trapframe p + 16)), ?load64_store64_ne by lia;
      rewrite ?(word_store _ (p_trapframe p + 8)), ?load64_store64_ne by lia; rewrite ?word_store; done.
  - split_and!; [done..|]. simpl. intros a Ha. unfold range in *.
    rewrite !(store64_same _ _ _ a); unfold range; try done; lia.
Qed.

(** The machine in which a system call of [p] starts. *)
Record syscall_entry (p : proc) m m1 : Prop := {
  sy_proc : mc_proc m1 = Some p;
  sy_intr : intr_get (r_sstatus (mc_hart m1)) = true;
  sy_vec : r_stvec (mc_hart m1) = kernelvec;
  sy_pc : word m1 (p_trapframe p + 24) = u64 (u64 (r_sepc (mc_hart m)) + 4);
  sy_mem : same_on (λ a, ¬ range (p_trapframe p + 24) 8 a) (k_mem (mc_mem m)) (k_mem (mc_mem m1));
  sy_dev : mc_dev m1 = mc_dev m;
}.
Lemma wlp_myproc (Q : proc → machine → Prop) m : (∀ p, mc_proc m = Some p → Q p m) → wlp myproc Q m.
Proof. intros HQ. unfold wlp, myproc. destruct (mc_proc m); auto. Qed.
Lemma wlp_exit_if_killed (Q : unit → machine → Prop) m :
  (∀ p, mc_proc m = Some p → p_killed p = 0 → Q tt m) → wlp (exit_if_killed kn) Q m.
Proof.
  intros HQ. unfold exit_if_killed. apply wlp_bind, wlp_myproc. intros p Hp. destruct (truth (p_killed p)) eqn:E.
  - apply wlp_bind. unfold wlp. by destruct (kn_exit kn (-1) m) as [[]| | |].
  - apply wlp_ret, (HQ p Hp). by apply negb_false_iff, Z.eqb_eq in E.
Qed.

(** [usertrap] has saved the program counter and set the kernel's vector. *)
Definition trapped (p : proc) m : machine :=
  set_mem (upd_mem (λ x, store64 x (p_trapframe p + 24) (r_sepc (mc_hart m))) (mc_mem m))
    (set_hart (w_stvec kernelvec (mc_hart m)) m).
(** A supervisor external interrupt, and one from the machine-mode timer. *)
Definition external (scause : Z) : Prop := truth (Z.land scause 0x8000000000000000) = true ∧ Z.land scause 0xff = 9.
Definition timer_cause : Z := 0x8000000000000001.
(** The handler of the device that the PLIC names has run, and the PLIC was
    told so. *)
Definition device_served m m' : Prop := ∃ irq m1 m2,
  plic_claim m = Ok irq m1 ∧
  (if irq =? UART0_IRQ then kn_uartintr kn m1 = Ok tt m2
   else if irq =? VIRTIO0_IRQ then kn_virtio_disk_intr kn m1 = Ok tt m2 else m2 = m1) ∧
  (if irq =? 0 then m' = m2 else plic_complete irq m2 = Ok tt m').
(** The clock has been advanced, by CPU 0, and the interrupt acknowledged. *)
Definition timer_served m m' : Prop := ∃ m1,
  (if s32 (r_tp (mc_hart m)) =? 0 then kn_clockintr kn m = Ok tt m1 else m1 = m) ∧
  m' = set_hart (w_sip (Z.land (r_sip (mc_hart m1)) (Z.lnot 2)) (mc_hart m1)) m1.
Definition devintr_post m (d : Z) m' : Prop :=
  (external (r_scause (mc_hart m)) ∧ d = 1 ∧ device_served m m') ∨
  (r_scause (mc_hart m) = timer_cause ∧ d = 2 ∧ timer_served m m') ∨
  (d = 0 ∧ m' = m ∧ ¬ external (r_scause (mc_hart m)) ∧ r_scause (mc_hart m) ≠ timer_cause).
Lemma wlp_run {A} (x : M (machine (K:=K)) A) (Q : A → machine → Prop) m : (∀ a m', x m = Ok a m' → Q a m') → wlp x Q m.
Proof. unfold wlp. destruct (x m); auto. Qed.
Lemma devintr_spec m : wlp (devintr kn) (devintr_post m) m.
Proof.
  unfold devintr. apply wlp_bind, wlp_gets. destruct (_ && _) eqn:E.
  - apply andb_true_iff in E as [E1 E2%Z.eqb_eq]. apply wlp_bind, wlp_run. intros irq m1 Hr1. apply wlp_bind, wlp_run. intros [] m2 Hr2. apply wlp_bind, wlp_run. intros [] m3 Hr3.
    apply wlp_ret. left. split_and!; [by split|done|]. exists irq, m1, m2. split_and!; [done| |].
    + destruct (irq =? UART0_IRQ); [done|]. destruct (irq =? VIRTIO0_IRQ); [done|]. by injection Hr2 as <-.
    + unfold truth in Hr3. destruct (irq =? 0); [by injection Hr3 as <-|done].
  - destruct (Z.eqb_spec (r_scause (mc_hart m)) 0x8000000000000001) as [Et|Et].
    + apply wlp_bind, wlp_gets, wlp_bind, wlp_run. intros [] m1 Hr1. apply wlp_bind, wlp_modify, wlp_ret. right; left.
      split_and!; [done|done|]. exists m1. split; [|done]. destruct (s32 _ =? 0); [done|]. by injection Hr1 as <-.
    + apply wlp_ret. right; right. split_and!; [done|done| |done]. intros [E1 E2]. rewrite E1, E2 in E. done.
Qed.

(** Why a trap of process [p] came back, as process [p'] in machine [m']. *)
Definition came_back (p : proc) m (p' : proc) m' : Prop :=
  (* a system call of a process that is not killed, before or after *)
  (r_scause (mc_hart m) = 8 ∧ p_killed p = 0 ∧ p_killed p' = 0 ∧
     ∃ m1 m2, syscall_entry p m m1 ∧ kn_syscall kn m1 = Ok tt m2 ∧ user_kept p' m2 m') ∨
  (* a device's interrupt *)
  (external (r_scause (mc_hart m)) ∧ p_killed p' = 0 ∧
     ∃ m1, device_served (trapped p m) m1 ∧ mc_proc m1 = Some p' ∧ user_kept p' m1 m') ∨
  (* the end of a time slice *)
  (r_scause (mc_hart m) = timer_cause ∧
     ∃ p1 m1 m2, timer_served (trapped p m) m1 ∧ mc_proc m1 = Some p1 ∧ p_killed p1 = 0 ∧
       kn_yield kn m1 = Ok tt m2 ∧ mc_proc m2 = Some p' ∧ user_kept p' m2 m').

Lemma syscall_resumes p m : mc_proc m = Some p → r_scause (mc_hart m) = 8 →
  wlp (do! exit_if_killed kn;
       let! epc := on_mem (ld64 (p_trapframe p + 24)) in
       do! on_mem (st64 (p_trapframe p + 24) (u64 (epc + 4)));
       do! w_csr (λ h, w_sstatus (intr_on (r_sstatus h)) h);
       do! kn_syscall kn;
       ret 0)
    (λ which_dev, wlp (do! exit_if_killed kn; do! when (which_dev =? 2) (kn_yield kn); utrapret)
       (λ r m', ∃ p', user_entry p' m' r ∧ came_back p m p' m')) (trapped p m).
Proof.
  intros Hp Ec. apply wlp_bind, wlp_exit_if_killed. intros p1. simpl. rewrite Hp. intros [= <-] Hk.
  apply wlp_bind, wlp_zoom, wlp_gets, wlp_bind, wlp_zoom, wlp_modify, wlp_bind, wlp_modify, wlp_bind.
  match goal with |- wlp _ _ ?x => set (m1 := x) end.
  assert (syscall_entry p m m1) as H1.
  { split; try done.
    - apply intr_get_on.
    - unfold word, m1. simpl. rewrite !word_store. unfold u64. by rewrite Zmod_mod.
    - intros a Ha. unfold m1. simpl. by rewrite !(store64_same _ _ _ a). }
  apply wlp_run. intros [] m2 Es. apply wlp_ret, wlp_bind, wlp_exit_if_killed. intros p' Hp' Hk'. cbn. apply wlp_bind, wlp_ret.
  apply wp_wlp. eapply wp_mono; [by apply usertrapret_spec|]. intros r' m3 [He Hu]. exists p'. split; [done|].
  left. split_and!; [done..|]. by exists m1, m2.
Qed.
Lemma interrupt_resumes p m : mc_proc m = Some p →
  wlp (let! which_dev := devintr kn in
       do! when (which_dev =? 0) (modify (λ m, set_proc (set_p_killed 1 <$> mc_proc m) m));
       ret which_dev)
    (λ which_dev, wlp (do! exit_if_killed kn; do! when (which_dev =? 2) (kn_yield kn); utrapret)
       (λ r m', ∃ p', user_entry p' m' r ∧ came_back p m p' m')) (trapped p m).
Proof.
  intros Hp. apply wlp_bind. eapply wlp_mono; [apply devintr_spec|].
  intros d m1 [(Hc & -> & Hs)|[(Hc & -> & Hs)|(-> & -> & Hn1 & Hn2)]]; simpl in *.
  - apply wlp_bind, wlp_ret, wlp_ret, wlp_bind, wlp_exit_if_killed. intros p' Hp' Hk. cbn. apply wlp_bind, wlp_ret.
    apply wp_wlp. eapply wp_mono; [by apply usertrapret_spec|]. intros r' m3 [He Hu]. exists p'. split; [done|].
    right; left. split_and!; [done..|]. by exists m1.
  - apply wlp_bind, wlp_ret, wlp_ret, wlp_bind, wlp_exit_if_killed. intros p1 Hp1 Hk. cbn. apply wlp_bind, wlp_run. intros [] m2 Hy.
    apply wlp_run. intros r m' Hr. destruct (mc_proc m2) as [p'|] eqn:E2; [|unfold usertrapret, bind, myproc in Hr; by rewrite E2 in Hr].
    pose proof (wp_wlp _ _ _ (usertrapret_spec p' m2 E2)) as Hw. unfold wlp in Hw. rewrite Hr in Hw. destruct Hw as [He Hu].
    exists p'. split; [done|]. right; right. split; [done|]. by exists p1, m1, m2.
  - apply wlp_bind, wlp_modify, wlp_ret, wlp_bind, wlp_exit_if_killed. intros p1. simpl. rewrite Hp. intros [= <-] Hk. done.
Qed.

(** The machine in which the system call starts. *)
Definition called (p : proc) m : machine :=
  let m1 := trapped p m in
  let epc := load64 (k_mem (mc_mem m1)) (p_trapframe p + 24) in
  let m2 := set_mem (upd_mem (λ x, store64 x (p_trapframe p + 24) (u64 (epc + 4))) (mc_mem m1)) m1 in
  set_hart (w_sstatus (intr_on (r_sstatus (mc_hart m2))) (mc_hart m2)) m2.
Definition alive m : Prop := ∃ p, mc_proc m = Some p ∧ p_killed p = 0.
(** What [usertrap] calls returns, and nobody has killed the process. *)
Definition returns (p : proc) m : Prop :=
  (r_scause (mc_hart m) = 8 ∧ p_killed p = 0 ∧ ∃ m1, kn_syscall kn (called p m) = Ok tt m1 ∧ alive m1) ∨
  (external (r_scause (mc_hart m)) ∧ ∃ m1, device_served (trapped p m) m1 ∧ alive m1) ∨
  (r_scause (mc_hart m) = timer_cause ∧
     ∃ m1 m2, timer_served (trapped p m) m1 ∧ alive m1 ∧ kn_yield kn m1 = Ok tt m2 ∧ is_Some (mc_proc m2)).
Lemma wp_exit_if_killed (Q : unit → machine → Prop) m : alive m → Q tt m → wp (exit_if_killed kn) Q m.
Proof. intros (p & Hp & Hk) HQ. unfold exit_if_killed, wp, bind, myproc. by rewrite Hp, Hk. Qed.
Lemma wp_usertrapret m : is_Some (mc_proc m) → wp utrapret (λ _ _, True) m.
Proof. intros [p Hp]. eapply wp_mono; [by apply (usertrapret_spec p)|done]. Qed.
Lemma wp_step {A} (x : M (machine (K:=K)) A) a m' (Q : A → machine → Prop) m : x m = Ok a m' → Q a m' → wp x Q m.
Proof. unfold wp. by intros ->. Qed.
Lemma wp_device (Q : Z → machine → Prop) m m' :
  external (r_scause (mc_hart m)) → device_served m m' → Q 1 m' → wp (devintr kn) Q m.
Proof.
  intros [E1 E2] (irq & m1 & m2 & Hc & Hh & Hd) HQ. unfold devintr. apply wp_bind, wp_gets. rewrite E1, E2. cbn [andb Z.eqb].
  change (Pos.eqb 9 9) with true. cbv iota. apply wp_bind. eapply wp_step; [exact Hc|]. apply wp_bind.
  apply (wp_step _ tt m2); [by destruct (irq =? UART0_IRQ); [|destruct (irq =? VIRTIO0_IRQ); [|rewrite Hh]]|].
  apply wp_bind, (wp_step _ tt m'); [|by apply wp_ret]. unfold truth. destruct (irq =? 0); [by rewrite Hd|done].
Qed.
Lemma wp_timer (Q : Z → machine → Prop) m m' :
  r_scause (mc_hart m) = timer_cause → timer_served m m' → Q 2 m' → wp (devintr kn) Q m.
Proof.
  intros Et (m1 & Hc & ->) HQ. unfold devintr. apply wp_bind, wp_gets. rewrite Et.
  change (truth (Z.land timer_cause 0x8000000000000000) && (Z.land timer_cause 0xff =? 9)) with false.
  change (timer_cause =? 0x8000000000000001) with true. cbv iota. apply wp_bind, wp_gets, wp_bind, (wp_step _ tt m1).
  - destruct (s32 _ =? 0); [done|by rewrite Hc].
  - by apply wp_bind, wp_modify, wp_ret.
Qed.
Lemma usertrap_returns p m : mc_proc m = Some p → truth (Z.land (r_sstatus (mc_hart m)) SSTATUS_SPP) = false →
  returns p m → wp utrap (λ _ _, True) m.
Proof.
  intros Hp Hspp Hr. unfold usertrap. apply wp_bind, wp_gets. rewrite Hspp. apply wp_bind, wp_modify, wp_bind.
  apply (wp_step _ p (set_hart (w_stvec kernelvec (mc_hart m)) m)); [unfold myproc; simpl; by rewrite Hp|].
  apply wp_bind, wp_gets, wp_bind, wp_zoom, wp_modify, wp_bind, wp_gets, wp_bind.
  match goal with |- wp _ ?Q _ => change (wp (if r_scause (mc_hart m) =? 8 then
    do! exit_if_killed kn;
    let! epc := on_mem (ld64 (p_trapframe p + 24)) in
    do! on_mem (st64 (p_trapframe p + 24) (u64 (epc + 4)));
    do! w_csr (λ h, w_sstatus (intr_on (r_sstatus h)) h);
    do! kn_syscall kn; ret 0 else
    let! which_dev := devintr kn in
    do! when (which_dev =? 0) (modify (λ m, set_proc (set_p_killed 1 <$> mc_proc m) m)); ret which_dev) Q (trapped p m)) end.
  destruct Hr as [(-> & Hk & m1 & Hs & Ha)|[(Hx & m1 & Hs & Ha)|(Ht & m1 & m2 & Hs & Ha & Hy & Hm2)]].
  - apply wp_bind, wp_exit_if_killed; [by exists p|]. apply wp_bind, wp_zoom, wp_gets, wp_bind, wp_zoom, wp_modify, wp_bind, wp_modify, wp_bind.
    eapply wp_step; [exact Hs|]. apply wp_ret, wp_bind, wp_exit_if_killed; [done|]. apply wp_bind, wp_ret, wp_usertrapret.
    destruct Ha as (q & -> & _). by eexists.
  - destruct (Z.eqb_spec (r_scause (mc_hart m)) 8) as [E|_]; [rewrite E in Hx; by destruct Hx|].
    apply wp_bind. eapply wp_device; [exact Hx|exact Hs|]. apply wp_bind, wp_ret, wp_ret, wp_bind, wp_exit_if_killed; [done|].
    apply wp_bind, wp_ret, wp_usertrapret. destruct Ha as (q & -> & _). by eexists.
  - rewrite Ht. change (timer_cause =? 8) with false. cbv iota. apply wp_bind. eapply wp_timer; [exact Ht|exact Hs|].
    apply wp_bind, wp_ret, wp_ret, wp_bind, wp_exit_if_killed; [done|]. apply wp_bind. eapply wp_step; [exact Hy|]. by apply wp_usertrapret.
Qed.
Lemma usertrap_came_back p m r m' : mc_proc m = Some p → utrap m = Ok r m' → ∃ p', user_entry p' m' r ∧ came_back p m p' m'.
Proof.
  intros Hp. apply (wlp_elim utrap (λ r m', ∃ p', user_entry p' m' r ∧ came_back p m p' m')). unfold usertrap. apply wlp_bind, wlp_gets.
  destruct (truth _); [apply wlp_panic|]. apply wlp_bind, wlp_modify, wlp_bind, wlp_myproc. simpl. intros p0 Hp0.
  rewrite Hp in Hp0. injection Hp0 as <-. apply wlp_bind, wlp_gets, wlp_bind, wlp_zoom, wlp_modify, wlp_bind, wlp_gets.
  cbn [r_scause mc_hart set_mem set_hart w_stvec]. apply wlp_bind. destruct (Z.eqb_spec (r_scause (mc_hart m)) 8) as [Ec|Ec].
  - by apply syscall_resumes.
  - by apply interrupt_resumes.
Qed.

End resume.

Section witness.
(** Process 3 makes a system call that returns 7. *)
#[local] Instance one_plic : PlicRegs unit := {| plic_read _ := ret 0; plic_write _ _ := ret tt |}.
Definition trap_proc : proc := Proc false RUNNING NoChan 0 0 3 None (TRAMPOLINE - 2 * PGSIZE) PGSIZE (KERNBASE + PGSIZE) KERNBASE [] 0 [].
Definition trap_kernel : kernel (K:=unit) := Kernel (on_mem (st64 (KERNBASE + 112) 7)) (λ _, sleep_on 0) (ret tt) (ret tt) (ret tt) (ret tt).
Definition trap_machine : machine (K:=unit) := Machine (Hart SSTATUS_SPIE 0x1000 8 TRAMPOLINE 1 2 0) (Some trap_proc) (Kmem false 0 ∅) tt.
Definition trap_result : outcome machine (Z * Z) := usertrap trap_kernel TRAMPOLINE (TRAMPOLINE + 16) KERNBASE (KERNBASE + 64) trap_machine.

End witness.
