(* ===== verification/Grep.v ===== *)
(** user/grep.c: the regular-expression matcher and the line loop.  Patterns
    and lines are C strings: lists of characters without the NUL. *)

From S2P Require Import Prelude Ulib.

(** * The matcher *)

(** [matchstar]: zero or more of [c], then [re], tried from the left;
    [mh] is [matchhere re]. *)
Fixpoint matchstar (mh : list Z → bool) (c : Z) (text : list Z) : bool :=
  if mh text then true
  else match text with
       | [] => false
       | t :: text' => if (t =? c) || (c =? chr ".") then matchstar mh c text' else false
       end.

Fixpoint matchhere (re text : list Z) {struct re} : bool :=
  match re with
  | [] => true
  | r0 :: re1 =>
      let other :=
        if (r0 =? chr "$") && match re1 with [] => true | _ => false end
        then match text with [] => true | _ => false end
        else match text with
             | t :: text' => if (r0 =? chr ".") || (r0 =? t) then matchhere re1 text' else false
             | [] => false
             end in
      match re1 with
      | r1 :: re2 => if r1 =? chr "*" then matchstar (matchhere re2) r0 text else other
      | [] => other
      end
  end.

(** The [do ... while] of [match], over the suffixes of the text. *)
Fixpoint match_from (re text : list Z) : bool :=
  if matchhere re text then true
  else match text with
       | [] => false
       | _ :: text' => match_from re text'
       end.
Definition match_ (re text : list Z) : bool :=
  match re with
  | r0 :: re1 => if r0 =? chr "^" then matchhere re1 text else match_from re text
  | [] => match_from re text
  end.

(** * What a pattern means *)

Inductive item := One (c : Z) | Any | Many (c : Z) | ManyAny.

(** The items of a pattern after a leading [^], and whether a final [$] anchors
    it at the end of the line. *)
Fixpoint parse (re : list Z) : list item * bool :=
  match re with
  | [] => ([], false)
  | r0 :: re1 =>
      let plain := if r0 =? chr "." then Any else One r0 in
      let star := if r0 =? chr "." then ManyAny else Many r0 in
      let next := let '(its, e) := parse re1 in (plain :: its, e) in
      match re1 with
      | [] => if r0 =? chr "$" then ([], true) else next
      | r1 :: re2 =>
          if r1 =? chr "*" then let '(its, e) := parse re2 in (star :: its, e) else next
      end
  end.

(** The strings an item stands for, and a list of items. *)
Definition means (i : item) (u : list Z) : Prop :=
  match i with
  | One c => u = [c]
  | Any => ∃ t, u = [t]
  | Many c => Forall (eq c) u
  | ManyAny => True
  end.
Fixpoint means_all (its : list item) (u : list Z) : Prop :=
  match its with
  | [] => u = []
  | i :: its' => ∃ u1 u2, u = u1 ++ u2 ∧ means i u1 ∧ means_all its' u2
  end.

(** A prefix of [text] matches; all of it, when anchored at the end. *)
Definition here (p : list item * bool) (text : list Z) : Prop :=
  ∃ u v, text = u ++ v ∧ means_all p.1 u ∧ (p.2 = true → v = []).

(** * The matcher is right *)

Lemma here_cons i its e text :
  here (i :: its, e) text ↔ ∃ u1 rest, text = u1 ++ rest ∧ means i u1 ∧ here (its, e) rest.
Proof.
  unfold here. simpl. split.
  - intros (u & v & -> & (u1 & u2 & -> & H1 & H2) & He). exists u1, (u2 ++ v).
    rewrite app_assoc. eauto 10.
  - intros (u1 & rest & -> & H1 & u & v & -> & H2 & He). exists (u1 ++ u), v.
    rewrite app_assoc. eauto 10.
Qed.

(** The characters a starred item repeats. *)
Definition repeats (c t : Z) : Prop := c = chr "." ∨ t = c.
Lemma star_means c u :
  means (if c =? chr "." then ManyAny else Many c) u ↔ Forall (repeats c) u.
Proof.
  unfold repeats. destruct (Z.eqb_spec c (chr ".")) as [->|Hne]; simpl.
  - split; [|done]. intros _. apply list.Forall_forall. auto.
  - split; intros H; (eapply list.Forall_impl; [exact H|]); simpl; naive_solver.
Qed.

Lemma matchstar_spec mh c text :
  matchstar mh c text = true ↔ ∃ u rest, text = u ++ rest ∧ Forall (repeats c) u ∧ mh rest = true.
Proof.
  induction text as [|t text IH]; simpl.
  - destruct (mh []) eqn:Hm; split; try done.
    + intros _. exists [], []. eauto.
    + intros (u & rest & H & _ & Hr). symmetry in H. apply app_eq_nil in H as [_ ->]. congruence.
  - destruct (mh (t :: text)) eqn:Hm.
    { split; [|done]. intros _. exists [], (t :: text). eauto. }
    destruct ((t =? c) || (c =? chr ".")) eqn:Hc.
    + assert (repeats c t) as Hrep by (unfold repeats; bool_facts; destruct Hc; bool_facts; auto).
      rewrite IH. split.
      * intros (u & rest & -> & Hu & Hr). exists (t :: u), rest. auto.
      * intros ([|x u] & rest & H & Hu & Hr); simplify_eq/=; [congruence|].
        apply list.Forall_cons in Hu as [_ Hu]. eauto.
    + split; [done|]. intros ([|x u] & rest & H & Hu & Hr); simplify_eq/=; [congruence|].
      apply list.Forall_cons in Hu as [[->| ->] _]; rewrite Z.eqb_refl in Hc; by rewrite ?orb_true_r in Hc.
Qed.

Lemma plain_means c u :
  means (if c =? chr "." then Any else One c) u ↔ ∃ t, u = [t] ∧ (c = chr "." ∨ c = t).
Proof. destruct (Z.eqb_spec c (chr ".")) as [->|Hne]; simpl; naive_solver. Qed.

Lemma plain_step r0 its e text (k : list Z → bool) :
  (∀ text, k text = true ↔ here (its, e) text) →
  match text with
  | t :: text' => if (r0 =? chr ".") || (r0 =? t) then k text' else false
  | [] => false
  end = true ↔ here ((if r0 =? chr "." then Any else One r0) :: its, e) text.
Proof.
  intros Hk. rewrite here_cons. setoid_rewrite plain_means. destruct text as [|t text].
  - split; [done|]. by intros (u1 & rest & H & (t & -> & _) & _).
  - destruct ((r0 =? chr ".") || (r0 =? t)) eqn:Hc.
    + rewrite Hk. assert (r0 = chr "." ∨ r0 = t) as Hr.
      { bool_facts. destruct Hc; bool_facts; auto. }
      split; [intros Hh; exists [t], text; eauto|].
      intros (u1 & rest & H & (t' & -> & _) & Hh). by simplify_eq/=.
    + split; [done|]. intros (u1 & rest & H & (t' & -> & Hr) & Hh). simplify_eq/=.
      destruct Hr as [->| ->]; rewrite Z.eqb_refl in Hc; by rewrite ?orb_true_r in Hc.
Qed.

Lemma matchhere_cons r0 r1 re2 text :
  matchhere (r0 :: r1 :: re2) text =
    if r1 =? chr "*" then matchstar (matchhere re2) r0 text
    else if (r0 =? chr "$") && false then match text with [] => true | _ => false end
    else match text with
         | t :: text' => if (r0 =? chr ".") || (r0 =? t) then matchhere (r1 :: re2) text' else false
         | [] => false
         end.
Proof. done. Qed.
Lemma parse_cons r0 r1 re2 :
  parse (r0 :: r1 :: re2) =
    if r1 =? chr "*"
    then let '(its, e) := parse re2 in ((if r0 =? chr "." then ManyAny else Many r0) :: its, e)
    else let '(its, e) := parse (r1 :: re2) in ((if r0 =? chr "." then Any else One r0) :: its, e).
Proof. done. Qed.
Lemma matchhere_spec re text : matchhere re text = true ↔ here (parse re) text.
Proof.
  revert text. remember (length re) as n eqn:Hn. revert re Hn.
  induction n as [n IH] using lt_wf_ind. intros re -> text.
  assert (∀ re', (length re' < length re)%nat →
    ∀ text, matchhere re' text = true ↔ here ((parse re').1, (parse re').2) text) as IH'.
  { intros re' Hl t. rewrite (IH _ Hl re' eq_refl). by destruct (parse re'). }
  clear IH. destruct re as [|r0 [|r1 re2]].
  - simpl. split; [|done]. intros _. exists [], text. done.
  - simpl. destruct (Z.eqb_spec r0 (chr "$")) as [->|Hne]; simpl.
    + unfold here. simpl. destruct text as [|t text]; split; try done.
      * intros _. exists [], []. done.
      * intros (u & v & H & -> & Hv). by rewrite Hv in H.
    + apply plain_step. intros t. apply (IH' []). simpl. lia.
  - rewrite matchhere_cons, parse_cons. destruct (Z.eqb_spec r1 (chr "*")) as [->|Hne].
    + destruct (parse re2) as [its e] eqn:Hp. rewrite matchstar_spec, here_cons.
      setoid_rewrite star_means. specialize (IH' re2). rewrite Hp in IH'. simpl in IH'.
      split; intros (u & rest & -> & Hu & Hr); exists u, rest; (split_and!; [done..|]);
        apply IH'; (done || lia).
    + rewrite andb_false_r. specialize (IH' (r1 :: re2)).
      destruct (parse (r1 :: re2)) as [its e]. apply (plain_step r0 its e text (matchhere (r1 :: re2))).
      intros t. apply IH'. simpl. lia.
Qed.

Lemma match_from_spec re text :
  match_from re text = true ↔ ∃ p rest, text = p ++ rest ∧ matchhere re rest = true.
Proof.
  induction text as [|t text IH]; simpl.
  - destruct (matchhere re []) eqn:Hm; split; try done.
    + intros _. exists [], []. done.
    + intros (p & rest & H & Hr). symmetry in H. apply app_eq_nil in H as [_ ->]. congruence.
  - destruct (matchhere re (t :: text)) eqn:Hm.
    { split; [|done]. intros _. exists [], (t :: text). done. }
    rewrite IH. split.
    + intros (p & rest & -> & Hr). by exists (t :: p), rest.
    + intros ([|x p] & rest & H & Hr); simplify_eq/=; [congruence|]. by exists p, rest.
Qed.

(** C28: grep's matcher implements the meaning of its patterns: a line matches
    exactly if some part of it is made of the characters, dots and starred
    characters of the pattern in order, at the beginning of the line if the
    pattern starts with a caret and at its end if it ends with a dollar sign. *)
Theorem match_means re text :
  let '(anchored, body) :=
    match re with
    | r0 :: re1 => if r0 =? chr "^" then (true, re1) else (false, re)
    | [] => (false, re)
    end in
  match_ re text = true ↔
    ∃ p u v, text = p ++ u ++ v ∧ means_all (parse body).1 u ∧
      (anchored = true → p = []) ∧ ((parse body).2 = true → v = []).
Proof.
  assert (∀ re, match_from re text = true ↔ ∃ p u v, text = p ++ u ++ v ∧
    means_all (parse re).1 u ∧ (false = true → p = []) ∧ ((parse re).2 = true → v = [])) as Hfrom.
  { intros re'. rewrite match_from_spec. setoid_rewrite matchhere_spec. unfold here. naive_solver. }
  destruct re as [|r0 re1]; simpl; [apply Hfrom|].
  destruct (r0 =? chr "^"); [|apply Hfrom].
  rewrite matchhere_spec. unfold here. split.
  - intros (u & v & -> & Hu & Hv). exists [], u, v. done.
  - intros (p & u & v & -> & Hu & Hp & Hv). rewrite Hp by done. by exists u, v.
Qed.

(** * The line loop *)

(** The inner [while]: the complete lines of the buffer; what matching ones
    print, and the incomplete line that is left. *)
Fixpoint grep_buf (fuel : nat) (pattern p : list Z) : list Z * list Z :=
  match fuel with
  | O => ([], p)
  | S fuel' =>
      match strchr p NL with
      | None => ([], p)
      | Some q =>
          let line := take (length p - length q) p in
          let '(out, rest) := grep_buf fuel' pattern (drop 1 q) in
          ((if match_ pattern line then line ++ [NL] else []) ++ out, rest)
      end
  end.

Definition GREPBUF : nat := 1024.

(** The outer [while]: [buf] holds the [m] bytes carried over, [wants] what
    each [read] has ready. Every round but the last reads a byte of [input]. *)
Fixpoint grep_loop (fuel : nat) (pattern buf input : list Z) (wants : list nat) : list Z :=
  match fuel with
  | O => []
  | S fuel' =>
      let n := read_n (default 1%nat (head wants)) (GREPBUF - length buf - 1) input in
      if (n =? 0)%nat then []
      else
        let b := buf ++ take n input in
        let '(out, rest) := grep_buf (S (length b)) pattern b in
        out ++ grep_loop fuel' pattern rest (drop n input) (tail wants)
  end.
Definition grep (pattern input : list Z) (wants : list nat) : list Z :=
  grep_loop (S (length input)) pattern [] input wants.

(** What grep should print, [line] being the characters since the last
    newline. *)
Fixpoint grep_ref (pattern line input : list Z) : list Z :=
  match input with
  | [] => []
  | c :: input' =>
      if c =? NL then (if match_ pattern line then line ++ [NL] else []) ++ grep_ref pattern [] input'
      else grep_ref pattern (line ++ [c]) input'
  end.
(** Every line fits in the buffer. *)
Fixpoint short_lines (k : nat) (input : list Z) : Prop :=
  (k < GREPBUF - 1)%nat ∧
  match input with
  | [] => True
  | c :: input' => if c =? NL then short_lines 0 input' else short_lines (S k) input'
  end.

Lemma grep_ref_line pattern line l tail :
  NL ∉ l → grep_ref pattern line (l ++ tail) = grep_ref pattern (line ++ l) tail.
Proof.
  revert line. induction l as [|c l IH]; intros line Hl; simpl; [by rewrite app_nil_r|].
  apply not_elem_of_cons in Hl as [Hc Hl]. destruct (Z.eqb_spec c NL); [congruence|].
  rewrite IH by done. by rewrite <- app_assoc.
Qed.
Lemma short_lines_drop k l tail :
  NL ∉ l → short_lines k (l ++ tail) → short_lines (k + length l) tail.
Proof.
  revert k. induction l as [|c l IH]; intros k Hl; simpl; [by rewrite Nat.add_0_r|].
  apply not_elem_of_cons in Hl as [Hc Hl]. destruct (Z.eqb_spec c NL); [congruence|].
  intros [_ H]. replace (k + S (length l))%nat with (S k + length l)%nat by lia. by apply IH.
Qed.

Lemma short_lines_lt k l : short_lines k l → (k < GREPBUF - 1)%nat.
Proof. by destruct l; intros []. Qed.
Lemma short_lines_app k l tail :
  NL ∉ l → short_lines (k + length l) tail → short_lines k (l ++ tail).
Proof.
  revert k. induction l as [|c l IH]; intros k Hl Hsh; [by rewrite Nat.add_0_r in Hsh|].
  apply not_elem_of_cons in Hl as [Hc Hl]. cbn [app short_lines length] in *.
  rewrite <- Nat.add_succ_comm in Hsh. pose proof (short_lines_lt _ _ Hsh).
  split; [lia|]. destruct (Z.eqb_spec c NL); [congruence|]. by apply IH.
Qed.

Lemma grep_buf_spec fuel pattern b tail :
  (length b < fuel)%nat → 0 ∉ b → short_lines 0 (b ++ tail) →
  let '(out, rest) := grep_buf fuel pattern b in
  grep_ref pattern [] (b ++ tail) = out ++ grep_ref pattern rest tail ∧
  (NL ∉ rest) ∧ (0 ∉ rest) ∧ short_lines (length rest) tail.
Proof.
  revert b. induction fuel as [|fuel IH]; intros b Hf H0 Hsh; [lia|]. cbn [grep_buf].
  pose proof (strchr_spec b NL H0) as Hc. destruct (strchr b NL) as [q|].
  - destruct Hc as (p & t & -> & -> & Hp). rewrite length_app in *. cbn [length drop] in *.
    replace (length p + S (length t) - S (length t))%nat with (length p) by lia.
    rewrite take_app_length, drop_0. rewrite <- app_assoc in Hsh |- *. cbn [app] in Hsh |- *.
    rewrite grep_ref_line by done. simpl. rewrite not_elem_of_app in H0.
    apply short_lines_drop in Hsh; [|done]. cbn [short_lines] in Hsh. rewrite Z.eqb_refl in Hsh.
    specialize (IH t ltac:(lia) ltac:(set_solver) (proj2 Hsh)).
    destruct (grep_buf fuel pattern t) as [out rest]. destruct IH as (IH & Hr). cbv beta iota zeta. rewrite IH.
    split; [by rewrite app_assoc|done].
  - rewrite grep_ref_line by done. split_and!; [done|done|done|].
    by apply (short_lines_drop 0) in Hsh.
Qed.

Lemma grep_loop_spec fuel pattern buf input wants :
  (length input < fuel)%nat → NL ∉ buf → 0 ∉ buf → 0 ∉ input → short_lines (length buf) input →
  grep_loop fuel pattern buf input wants = grep_ref pattern buf input.
Proof.
  revert buf input wants.
  induction fuel as [|fuel IH]; intros buf input wants Hf Hnl H0 Hi0 Hsh; [lia|]. cbn [grep_loop].
  set (n := read_n _ _ _). assert ((length buf < GREPBUF - 1)%nat) as Hlen by (by destruct input; destruct Hsh).
  destruct (Nat.eqb_spec n 0) as [Hn|Hn].
  { unfold n, read_n in Hn. destruct input; [done|]. simpl in Hn. lia. }
  assert (n ≤ length input)%nat as Hle by (unfold n, read_n; lia).
  cbv zeta. pose proof (take_drop n input) as Hsplit.
  set (chunk := take n input) in *. set (later := drop n input) in *.
  rewrite <- Hsplit in Hi0, Hsh.
  assert (length later < fuel)%nat as Hlf by (unfold later; rewrite length_drop; lia).
  assert (0 ∉ buf ++ chunk) as Hb0 by set_solver.
  assert (short_lines 0 ((buf ++ chunk) ++ later)) as Hsh0.
  { rewrite <- app_assoc. by apply short_lines_app. }
  pose proof (grep_buf_spec (S (length (buf ++ chunk))) pattern (buf ++ chunk) later
    ltac:(lia) Hb0 Hsh0) as Hbuf.
  destruct (grep_buf _ pattern (buf ++ chunk)) as [out rest].
  destruct Hbuf as (Heq & Hr1 & Hr2 & Hr3). rewrite IH; [|done|done|done|set_solver|done].
  rewrite <- Heq, <- app_assoc, Hsplit. by rewrite grep_ref_line.
Qed.

(** C31: however the input arrives in pieces, grep prints exactly the lines
    that match, in order, provided each line is shorter than its buffer; a
    last line without a newline is never printed. *)
Theorem grep_prints pattern input wants :
  0 ∉ input → short_lines 0 input → grep pattern input wants = grep_ref pattern [] input.
Proof.
  intros H0 Hsh. apply grep_loop_spec; [lia|apply not_elem_of_nil..|done|done].
Qed.
Definition ex_input : list Z := str "init" ++ [NL] ++ str "sh" ++ [NL] ++ str "init2" ++ [NL] ++ str "in".
Lemma grep_prints_witness :
  grep (str "^in.*") ex_input [3; 1; 7]%nat = str "init" ++ [NL] ++ str "init2" ++ [NL].
Proof.
  rewrite (grep_prints (str "^in.*") ex_input [3; 1; 7]%nat).
  - vm_compute. reflexivity.
  - apply (bool_decide_unpack _). vm_compute. exact I.
  - vm_compute. repeat split; lia.
Defined.
