(* ===== verification/Sh.v ===== *)
(** user/sh.c: the shell's parser.  A position in the command line is the rest
    of the line, so that [s < es] says the rest is not empty and [*s] at [es]
    is the NUL.  A parse ends with a command and the rest, or in [panic],
    which prints the message and exits; fuel is the depth of the recursive
    descent. *)

From S2P Require Import Prelude Riscv Ulib.

(** * Commands *)

(** Commands over words [W]: the parser delivers a word as the pair of
    pointers [q] and [eq], and a command that runs has strings. *)
Inductive cmd (W : Type) :=
| EXEC (argv : list W)
| REDIR (c : cmd W) (file : W) (mode fd : Z)
| PIPE (left right : cmd W)
| LIST (left right : cmd W)
| BACK (c : cmd W).
Arguments EXEC {W} argv.
Arguments REDIR {W} c file mode fd.
Arguments PIPE {W} left right.
Arguments LIST {W} left right.
Arguments BACK {W} c.

Fixpoint cmd_map {V W} (f : V → W) (c : cmd V) : cmd W :=
  match c with
  | EXEC argv => EXEC (f <$> argv)
  | REDIR c file mode fd => REDIR (cmd_map f c) (f file) mode fd
  | PIPE l r => PIPE (cmd_map f l) (cmd_map f r)
  | LIST l r => LIST (cmd_map f l) (cmd_map f r)
  | BACK c => BACK (cmd_map f c)
  end.

Definition MAXARGS : Z := 10.

(** * Tokens *)

Definition whitespace : list Z := str " " ++ [9; 13; 10; 11].
Definition symbols : list Z := str "<|>&;()".
Definition is_in (c : Z) (l : list Z) : bool :=
  match strchr l c with Some _ => true | None => false end.

Fixpoint skip_white (s : list Z) : list Z :=
  match s with
  | c :: s' => if is_in c whitespace then skip_white s' else s
  | [] => []
  end.
(** The end of the word at [s]. *)
Fixpoint skip_word (s : list Z) : list Z :=
  match s with
  | c :: s' =>
      if negb (is_in c whitespace) && negb (is_in c symbols) then skip_word s' else s
  | [] => []
  end.

(** A token's pointers [q] and [eq], and the characters between them. *)
Definition span := (list Z * list Z)%type.
Definition text (w : span) : list Z := take (length w.1 - length w.2) w.1.

(** The kind of the token, its span, and the rest. *)
Definition gettoken (ps : list Z) : Z * span * list Z :=
  let s := skip_white ps in
  let '(ret, eq) :=
    match s with
    | [] => (0, [])
    | c :: s' =>
        if is_in c (str "|();&<") then (c, s')
        else if c =? chr ">" then
          match s' with
          | c' :: s'' => if c' =? chr ">" then (chr "+", s'') else (c, s')
          | [] => (c, s')
          end
        else (chr "a", skip_word s)
    end in
  (ret, (s, eq), skip_white eq).

(** Whether the next character is one of [toks]; blanks are skipped. *)
Definition peek (ps toks : list Z) : bool * list Z :=
  let s := skip_white ps in
  (match s with c :: _ => is_in c toks | [] => false end, s).

(** * The parser *)

Inductive result (A : Type) := Parsed (a : A) (rest : list Z) | Fails (msg : string) | NoFuel.
Arguments Parsed {A} a rest.
Arguments Fails {A} msg.
Arguments NoFuel {A}.

Definition pbind {A B} (r : result A) (k : A → list Z → result B) : result B :=
  match r with
  | Parsed a s => k a s
  | Fails msg => Fails msg
  | NoFuel => NoFuel
  end.
Notation "'parse!' x , s := m 'in' k" := (pbind m (λ x s, k))
  (at level 10, x binder, s binder, m at level 200, k at level 200,
   format "'[v' '[' 'parse!'  x ,  s  :=  m  'in' ']' '/' k ']'") : kernel_scope.

(** File, mode and descriptor of a redirection. *)
Definition redir (W : Type) := (W * Z * Z)%type.
Definition redirs {W} (c : cmd W) (l : list (redir W)) : cmd W :=
  foldl (λ c '(file, mode, fd), REDIR c file mode fd) c l.

(** [parseredirs]: the redirections found, in order. *)
Fixpoint parseredirs (fuel : nat) (ps : list Z) : result (list (redir span)) :=
  match fuel with
  | O => NoFuel
  | S fuel' =>
      let '(more, ps) := peek ps (str "<>") in
      if more then
        let '(tok, _, ps) := gettoken ps in
        let '(tok', q, ps) := gettoken ps in
        if negb (tok' =? chr "a") then Fails "missing file for redirection"
        else
          let r :=
            if tok =? chr "<" then (q, O_RDONLY, 0)
            else if tok =? chr ">" then (q, Z.lor (Z.lor O_WRONLY O_CREATE) O_TRUNC, 1)
            else (q, Z.lor O_WRONLY O_CREATE, 1) in
          parse! l, ps := parseredirs fuel' ps in
          Parsed (r :: l) ps
      else Parsed [] ps
  end.

(** The argument loop of [parseexec]: arguments so far, and the redirections
    wrapped around the command so far. The command that [ret] wraps is the
    one [argv] belongs to, so the arguments parsed later end up inside. *)
Fixpoint parseargs (fuel : nat) (argv : list span) (rs : list (redir span)) (ps : list Z)
    : result (cmd span) :=
  match fuel with
  | O => NoFuel
  | S fuel' =>
      let '(stop, ps) := peek ps (str "|)&;") in
      if stop then Parsed (redirs (EXEC argv) rs) ps
      else
        let '(tok, q, ps) := gettoken ps in
        if tok =? 0 then Parsed (redirs (EXEC argv) rs) ps
        else if negb (tok =? chr "a") then Fails "syntax"
        else
          let argv := argv ++ [q] in
          if MAXARGS <=? Z.of_nat (length argv) then Fails "too many args"
          else
            parse! l, ps := parseredirs fuel' ps in
            parseargs fuel' argv (rs ++ l) ps
  end.

(** [while(peek(ps, es, AMP)) cmd = backcmd(cmd)]. *)
Fixpoint parseback (fuel : nat) (c : cmd span) (ps : list Z) : result (cmd span) :=
  match fuel with
  | O => NoFuel
  | S fuel' =>
      let '(more, ps) := peek ps (str "&") in
      if more then let '(_, _, ps) := gettoken ps in parseback fuel' (BACK c) ps
      else Parsed c ps
  end.

Fixpoint parseline (fuel : nat) (ps : list Z) {struct fuel} : result (cmd span) :=
  match fuel with
  | O => NoFuel
  | S fuel =>
      parse! c, ps := parsepipe fuel ps in
      parse! c, ps := parseback fuel c ps in
      let '(more, ps) := peek ps (str ";") in
      if more then
        let '(_, _, ps) := gettoken ps in
        parse! c', ps := parseline fuel ps in
        Parsed (LIST c c') ps
      else Parsed c ps
  end
with parsepipe (fuel : nat) (ps : list Z) {struct fuel} : result (cmd span) :=
  match fuel with
  | O => NoFuel
  | S fuel =>
      parse! c, ps := parseexec fuel ps in
      let '(more, ps) := peek ps (str "|") in
      if more then
        let '(_, _, ps) := gettoken ps in
        parse! c', ps := parsepipe fuel ps in
        Parsed (PIPE c c') ps
      else Parsed c ps
  end
with parseexec (fuel : nat) (ps : list Z) {struct fuel} : result (cmd span) :=
  match fuel with
  | O => NoFuel
  | S fuel =>
      let '(block, ps) := peek ps (str "(") in
      if block then parseblock fuel ps
      else
        parse! rs, ps := parseredirs fuel ps in
        parseargs fuel [] rs ps
  end
with parseblock (fuel : nat) (ps : list Z) {struct fuel} : result (cmd span) :=
  match fuel with
  | O => NoFuel
  | S fuel =>
      let '(opened, ps) := peek ps (str "(") in
      if negb opened then Fails "parseblock"
      else
        let '(_, _, ps) := gettoken ps in
        parse! c, ps := parseline fuel ps in
        let '(closed, ps) := peek ps (str ")") in
        if negb closed then Fails "syntax - missing )"
        else
          let '(_, _, ps) := gettoken ps in
          parse! rs, ps := parseredirs fuel ps in
          Parsed (redirs c rs) ps
  end.

(** * [nulterminate] *)

(** The buffer holds the line, [n] bytes long with its NUL, at indices that a
    pointer's rest of line determines. *)
Definition index (line p : list Z) : nat := length line - length p.
Definition nul_at (line buf p : list Z) : list Z := <[index line p := 0]> buf.

Fixpoint nulterminate (line : list Z) (c : cmd span) (buf : list Z) : list Z :=
  match c with
  | EXEC argv => foldl (λ buf (w : span), nul_at line buf w.2) buf argv
  | REDIR c file _ _ => nul_at line (nulterminate line c buf) file.2
  | PIPE l r | LIST l r => nulterminate line r (nulterminate line l buf)
  | BACK c => nulterminate line c buf
  end.

(** The string a pointer of the command then denotes. *)
Definition string_at (line buf : list Z) (w : span) : list Z := cstring (drop (index line w.1) buf).

(** The command as [runcmd] finds it: its words are the strings in the buffer
    after [nulterminate]. *)
Definition parsecmd (buf : list Z) : result (cmd (list Z)) :=
  let line := cstring buf in
  parse! c, s := parseline (4 * length line + 4) line in
  let '(_, s) := peek s [] in
  match s with
  | [] => Parsed (cmd_map (string_at line (nulterminate line c buf)) c) []
  | _ => Fails "syntax"
  end.

(** * Tokens, again *)

Definition wordchar (c : Z) : bool := negb (is_in c whitespace) && negb (is_in c symbols).

(** A word of [line]: its pointers enclose word characters only, and another
    kind of character, or the NUL, follows. *)
Definition wspan (line : list Z) (w : span) : Prop :=
  w.1 `suffix_of` line ∧ w.1 = text w ++ w.2 ∧ text w ≠ [] ∧ Forall (λ c, wordchar c = true) (text w)
  ∧ match w.2 with c :: _ => wordchar c = false | [] => True end.

Lemma is_in_app c l1 l2 : 0 ∉ l1 → is_in c (l1 ++ l2) = is_in c l1 || is_in c l2.
Proof.
  unfold is_in. induction l1 as [|x l1 IH]; [done|].
  rewrite not_elem_of_cons. intros [Hx Hl]. simpl.
  destruct (Z.eqb_spec x 0); [congruence|]. destruct (x =? c); [done|auto].
Qed.
Lemma is_in_spec c l : 0 ∉ l → is_in c l = true ↔ c ∈ l.
Proof.
  intros H0. unfold is_in. pose proof (strchr_spec l c H0) as H.
  destruct (strchr l c) as [s'|]; [|split; [done|by intros ?%H]].
  destruct H as (p & t & -> & -> & _). split; [intros _; set_solver|done].
Qed.

Lemma skip_white_suffix s : skip_white s `suffix_of` s.
Proof.
  induction s as [|c s IH]; simpl; [done|]. case_match; [|done]. by apply suffix_cons_r.
Qed.
Lemma skip_white_idem s : skip_white (skip_white s) = skip_white s.
Proof. induction s as [|c s IH]; simpl; [done|]. case_match eqn:E; [done|]. simpl. by rewrite E. Qed.
Lemma skip_white_length s : (length (skip_white s) ≤ length s)%nat.
Proof. apply suffix_length, skip_white_suffix. Qed.

Lemma skip_word_app w s :
  Forall (λ c, wordchar c = true) w → skip_word (w ++ s) = skip_word s.
Proof. induction 1 as [|c w Hc Hw IH]; [done|]. simpl. unfold wordchar in Hc. by rewrite Hc. Qed.
Lemma skip_word_spec s :
  ∃ w, s = w ++ skip_word s ∧ Forall (λ c, wordchar c = true) w
  ∧ match skip_word s with c :: _ => wordchar c = false | [] => True end.
Proof.
  induction s as [|c s (w & E & Hw & Hs)]; simpl; [by exists []|].
  destruct (wordchar c) eqn:Hc; unfold wordchar in Hc; rewrite Hc.
  - exists (c :: w). split_and!; [simpl; congruence|by constructor|done].
  - exists []. done.
Qed.

Lemma text_app w s : text (w ++ s, s) = w.
Proof. unfold text. simpl. apply take_app_length'. rewrite length_app. lia. Qed.

(** The symbols are the characters [gettoken] has a case for. *)
Lemma symbols_cases c : is_in c symbols = is_in c (str "|();&<") || (c =? chr ">").
Proof.
  apply Bool.eq_iff_eq_true. rewrite orb_true_iff, !is_in_spec, Z.eqb_eq.
  - unfold symbols. vm_compute (str _). vm_compute (chr _). set_solver.
  - by apply (bool_decide_unpack _); vm_compute.
  - by apply (bool_decide_unpack _); vm_compute.
Qed.

Lemma skip_white_head s c t : skip_white s = c :: t → is_in c whitespace = false.
Proof. induction s as [|x s IH]; simpl; [done|]. case_match eqn:E; [done|]. by intros [= <- _]. Qed.

Lemma gettoken_skip s : gettoken (skip_white s) = gettoken s.
Proof. unfold gettoken. by rewrite skip_white_idem. Qed.
Lemma peek_skip s toks : peek (skip_white s) toks = peek s toks.
Proof. unfold peek. by rewrite skip_white_idem. Qed.

Lemma gettoken_word line s w :
  s `suffix_of` line → skip_white s = w.1 → w.2 = skip_word w.1 →
  match w.1 with c :: _ => wordchar c = true | [] => False end →
  wspan line w.
Proof.
  destruct w as [q e]; simpl. intros Hs Hq -> Hc.
  destruct (skip_word_spec q) as (w & Eq & Hw & He). unfold wspan; simpl.
  assert (Et : text (q, skip_word q) = w) by (rewrite Eq at 1; apply text_app). rewrite Et.
  split_and!; try done.
  - rewrite <- Hq. etrans; [apply skip_white_suffix|done].
  - intros ->. simpl in Eq. destruct q as [|c q]; [done|]. rewrite <- Eq in He. congruence.
Qed.

Lemma gettoken_spec line s tok w r :
  gettoken s = (tok, w, r) → s `suffix_of` line →
  r `suffix_of` line ∧ (skip_white s = [] ∧ tok = 0 ∧ r = [] ∨ (length r < length s)%nat)
  ∧ (tok = chr "a" → wspan line w).
Proof.
  unfold gettoken. intros Hg Hs.
  pose proof (skip_white_suffix s) as Hsuf. pose proof (skip_white_length s) as Hlen.
  assert (Hrest : ∀ e, skip_white e `suffix_of` e ∧ (length (skip_white e) ≤ length e)%nat)
    by eauto using skip_white_suffix, skip_white_length.
  destruct (skip_white s) as [|c t] eqn:E.
  { simplify_eq. split_and!; [apply suffix_nil|by left|by intros ?%(f_equal (λ x, x =? 0))]. }
  pose proof (skip_white_head _ _ _ E) as Hw.
  assert (Ht : t `suffix_of` line) by (etrans; [|exact Hs]; etrans; [|exact Hsuf]; by apply suffix_cons_r).
  simpl in Hlen. destruct (is_in c (str "|();&<")) eqn:E1.
  { simplify_eq. destruct (Hrest t). split_and!; [by etrans|right; lia|]. intros ->. by vm_compute in E1. }
  destruct (Z.eqb_spec c (chr ">")) as [->|Hc].
  - destruct t as [|c' t]; [|destruct (Z.eqb_spec c' (chr ">"))]; simplify_eq;
      simpl in Hlen; (split_and!; [|right|by vm_compute]).
    + apply suffix_nil.
    + simpl. lia.
    + destruct (Hrest t). etrans; [done|]. etrans; [|exact Ht]. by apply suffix_cons_r.
    + destruct (Hrest t). lia.
    + destruct (Hrest (c' :: t)). by etrans.
    + destruct (Hrest (c' :: t)) as [_ H]. simpl length in *. lia.
  - simplify_eq.
    assert (Hcw : wordchar c = true).
    { unfold wordchar. rewrite Hw, symbols_cases, E1. by rewrite (proj2 (Z.eqb_neq _ _) Hc). }
    destruct (skip_word_spec t) as (x & Ex & _). unfold wordchar in Hcw. simpl. rewrite Hcw.
    destruct (Hrest (skip_word t)) as [Hr1 Hr2].
    assert (skip_word t `suffix_of` t) by (by exists x).
    split_and!.
    + by do 2 (etrans; [done|]).
    + right. pose proof (suffix_length _ _ H). lia.
    + intros _. apply (gettoken_word _ s); simpl; [done|done| |done]. by rewrite Hcw.
Qed.

Lemma peek_spec s toks b r :
  peek s toks = (b, r) → r = skip_white s ∧ (b = true → r ≠ []).
Proof. unfold peek. intros [= <- <-]. split; [done|]. by destruct (skip_white s). Qed.

(** * The parser always ends *)

(** A parse of a suffix of [line] of length at most [n] has not run out of
    fuel, leaves a suffix, and what it parsed satisfies [P]. *)
Definition good {A} (line : list Z) (n : nat) (P : A → Prop) (r : result A) : Prop :=
  match r with
  | Parsed a s => s `suffix_of` line ∧ (length s ≤ n)%nat ∧ P a
  | Fails _ => True
  | NoFuel => False
  end.

Lemma good_bind {A B} line n n' (P : A → Prop) (Q : B → Prop) r k :
  good line n P r →
  (∀ a s, s `suffix_of` line → (length s ≤ n)%nat → P a → good line n' Q (k a s)) →
  good line n' Q (pbind r k).
Proof. destruct r; simpl; [intros (?&?&?); auto|done|done]. Qed.
Lemma good_weaken {A} line n n' (P : A → Prop) r :
  good line n P r → (n ≤ n')%nat → good line n' P r.
Proof. destruct r; simpl; [|done|done]. intros (?&?&?) ?. split_and!; [done|lia|done]. Qed.

(** What [<], [>] and [>>] mean. *)
Definition redir_kinds : list (Z * Z) :=
  [(O_RDONLY, 0); (Z.lor (Z.lor O_WRONLY O_CREATE) O_TRUNC, 1); (Z.lor O_WRONLY O_CREATE, 1)].
(** The words of a command satisfy [P], with fewer than [MAXARGS] of them in
    each argument vector. *)
Fixpoint cmd_all {W} (P : W → Prop) (c : cmd W) : Prop :=
  match c with
  | EXEC argv => Forall P argv ∧ Z.of_nat (length argv) < MAXARGS
  | REDIR c file mode fd =>
      cmd_all P c ∧ P file
      ∧ (mode, fd) ∈ redir_kinds
  | PIPE l r | LIST l r => cmd_all P l ∧ cmd_all P r
  | BACK c => cmd_all P c
  end.
Definition redir_all {W} (P : W → Prop) (r : redir W) : Prop :=
  P r.1.1 ∧ (r.1.2, r.2) ∈ redir_kinds.
Lemma redirs_all {W} (P : W → Prop) c rs :
  cmd_all P c → Forall (redir_all P) rs → cmd_all P (redirs c rs).
Proof.
  intros Hc Hrs. revert c Hc. induction Hrs as [|[[f m] fd] rs [Hf Hm] Hrs IH]; intros c Hc; [done|].
  simpl. apply IH. simpl. auto.
Qed.

(** One token of lookahead, in the shape every caller of [peek] has. *)
Ltac peeked E :=
  match goal with
  | |- context [peek ?s ?t] =>
      let b := fresh "b" in let r := fresh "r" in
      destruct (peek s t) as [b r] eqn:E; apply peek_spec in E as [-> E]
  end.
Ltac token line E :=
  match goal with
  | |- context [gettoken ?s] =>
      let b := fresh "tok" in let w := fresh "w" in let r := fresh "r" in
      destruct (gettoken s) as [[b w] r] eqn:E;
      apply (gettoken_spec line) in E; [destruct E as (? & E & ?)|]
  end.

Section total.
Context (line : list Z).
Implicit Types s r : list Z.
Abbreviation spans := (cmd_all (wspan line)).

Lemma skip_white_in s : s `suffix_of` line → skip_white s `suffix_of` line.
Proof. intros H. etrans; [apply skip_white_suffix|done]. Qed.
(** After a successful [peek] the token consumes something. *)
Lemma consumed s r (tok : Z) :
  skip_white s ≠ [] →
  skip_white (skip_white s) = [] ∧ tok = 0 ∧ r = [] ∨ (length r < length (skip_white s))%nat →
  (length r < length s)%nat.
Proof. rewrite skip_white_idem. intros H [[]|Hl]; [done|]. pose proof (skip_white_length s). lia. Qed.

Lemma parseredirs_good fuel s :
  s `suffix_of` line → (length s < fuel)%nat →
  good line (length s) (Forall (redir_all (wspan line))) (parseredirs fuel s).
Proof.
  revert s. induction fuel as [|fuel IH]; intros s Hs Hf; [lia|]. cbn [parseredirs].
  peeked E. destruct b.
  2: { simpl. split_and!; [by apply skip_white_in|apply skip_white_length|constructor]. }
  token line E1; [|by apply skip_white_in].
  pose proof (consumed _ _ _ (E eq_refl) E1) as Hl.
  token line E2; [|done].
  destruct (Z.eqb_spec tok0 (chr "a")) as [Ht|]; [|done].
  assert (length r0 < length s)%nat.
  { destruct E2 as [(_ & -> & _)|?]; [by vm_compute in Ht|lia]. }
  simpl negb; cbv iota. eapply good_bind; [apply IH; [done|lia]|].
  intros l s' Hs' Hl' Hall. split_and!; [done|lia|]. constructor; [|done].
  repeat case_match; (split; [by auto|]); unfold redir_kinds; rewrite !elem_of_cons; auto.
Qed.

Lemma parseargs_good fuel argv rs s :
  s `suffix_of` line → (length s < fuel)%nat →
  Forall (wspan line) argv → Z.of_nat (length argv) < MAXARGS →
  Forall (redir_all (wspan line)) rs →
  good line (length s) spans (parseargs fuel argv rs s).
Proof.
  revert argv rs s. induction fuel as [|fuel IH]; intros argv rs s Hs Hf Ha Hn Hr; [lia|].
  cbn [parseargs]. peeked E.
  assert (Hdone : spans (redirs (EXEC argv) rs)) by (by apply redirs_all).
  pose proof (skip_white_length s).
  destruct b; [simpl; auto using skip_white_in|].
  token line E1; [|by apply skip_white_in].
  destruct (Z.eqb_spec tok 0).
  { simpl. split_and!; [done| |done]. rewrite skip_white_idem in E1.
    destruct E1 as [(_ & _ & ->)|]; simpl; lia. }
  destruct (Z.eqb_spec tok (chr "a")); [|done]. simpl negb; cbv iota.
  destruct E1 as [(_ & ? & _)|E1]; [lia|].
  case_match eqn:Hmax; [done|]. apply Z.leb_gt in Hmax.
  eapply good_bind; [apply parseredirs_good; [done|lia]|].
  intros l s' Hs' Hl' Hall. eapply good_weaken; [apply IH|]; try done; try lia.
  - apply Forall_app. auto.
  - by apply Forall_app.
Qed.

Lemma parseback_good fuel c s :
  s `suffix_of` line → (length s < fuel)%nat → spans c →
  good line (length s) spans (parseback fuel c s).
Proof.
  revert c s. induction fuel as [|fuel IH]; intros c s Hs Hf Hc; [lia|]. cbn [parseback].
  peeked E. destruct b.
  2: { simpl. split_and!; [by apply skip_white_in|apply skip_white_length|done]. }
  token line E1; [|by apply skip_white_in].
  pose proof (consumed _ _ _ (E eq_refl) E1).
  eapply good_weaken; [apply IH|]; try done; lia.
Qed.

(** The recursive descent: the four ranks of the grammar share the fuel, and a
    parenthesis pays for going round. *)
Lemma descent_good fuel : ∀ s, s `suffix_of` line →
  ((4 * length s + 4 ≤ fuel)%nat → good line (length s) spans (parseline fuel s)) ∧
  ((4 * length s + 3 ≤ fuel)%nat → good line (length s) spans (parsepipe fuel s)) ∧
  ((4 * length s + 2 ≤ fuel)%nat → good line (length s) spans (parseexec fuel s)) ∧
  ((4 * length s + 1 ≤ fuel)%nat → good line (length s) spans (parseblock fuel s)).
Proof.
  induction fuel as [|fuel IH]; intros s Hs; [split_and!; lia|].
  pose proof (skip_white_length s) as Hsk.
  split_and!; intros Hf; cbn [parseline parsepipe parseexec parseblock].
  - eapply good_bind; [apply (IH s Hs); lia|]. intros c s1 Hs1 Hl1 Hc.
    eapply good_bind; [apply parseback_good; [done|lia|done]|]. intros c' s2 Hs2 Hl2 Hc'.
    pose proof (skip_white_length s2). peeked E. destruct b.
    2: { simpl. split_and!; [by apply skip_white_in|lia|done]. }
    token line E1; [|by apply skip_white_in]. pose proof (consumed _ _ _ (E eq_refl) E1).
    eapply good_bind; [apply IH; [done|lia]|]. intros c2 s3 Hs3 Hl3 Hc2.
    split_and!; [done|lia|done..].
  - eapply good_bind; [apply (IH s Hs); lia|]. intros c s1 Hs1 Hl1 Hc.
    pose proof (skip_white_length s1). peeked E. destruct b.
    2: { simpl. split_and!; [by apply skip_white_in|lia|done]. }
    token line E1; [|by apply skip_white_in]. pose proof (consumed _ _ _ (E eq_refl) E1).
    eapply good_bind; [apply IH; [done|lia]|]. intros c2 s3 Hs3 Hl3 Hc2.
    split_and!; [done|lia|done..].
  - peeked E. destruct b.
    { eapply good_weaken; [apply IH; [by apply skip_white_in|lia]|lia]. }
    eapply good_bind; [apply parseredirs_good; [by apply skip_white_in|lia]|].
    intros rs s1 Hs1 Hl1 Hrs. eapply good_weaken; [apply parseargs_good|]; try done; try lia.
  - peeked E. destruct b; [|done]. simpl negb; cbv iota.
    token line E1; [|by apply skip_white_in]. pose proof (consumed _ _ _ (E eq_refl) E1).
    eapply good_bind; [apply IH; [done|lia]|]. intros c s1 Hs1 Hl1 Hc.
    peeked E'. destruct b; [|done]. simpl negb; cbv iota.
    token line E2; [|by apply skip_white_in]. pose proof (consumed _ _ _ (E' eq_refl) E2).
    eapply good_bind; [apply parseredirs_good; [done|lia]|]. intros rs s2 Hs2 Hl2 Hrs.
    split_and!; [done|lia|by apply redirs_all].
Qed.

Lemma parseline_good s :
  s `suffix_of` line → good line (length s) spans (parseline (4 * length s + 4) s).
Proof. intros Hs. by apply descent_good. Qed.
End total.

(** * [nulterminate] cuts exactly the words *)

Section cut.
Context (line junk : list Z) (Hline : 0 ∉ line).
Abbreviation whole := (line ++ 0 :: junk).

(** [b] is the buffer with some NULs, none of them inside a word. *)
Definition cut (b : list Z) : Prop :=
  length b = length whole ∧
  ∀ i, b !! i = whole !! i
       ∨ b !! i = Some 0 ∧ match line !! i with Some c => wordchar c = false | None => True end.
Definition ended (b : list Z) (w : span) : Prop := b !! index line w.2 = Some 0.
(** The pointers of a command whose word ends are NUL. *)
Fixpoint all_ended (b : list Z) (c : cmd span) : Prop :=
  match c with
  | EXEC argv => Forall (ended b) argv
  | REDIR c file _ _ => all_ended b c ∧ ended b file
  | PIPE l r | LIST l r => all_ended b l ∧ all_ended b r
  | BACK c => all_ended b c
  end.

Lemma span_index w : wspan line w →
  index line w.2 = (index line w.1 + length (text w))%nat
  ∧ (index line w.2 ≤ length line)%nat
  ∧ ∀ j, line !! (index line w.1 + j)%nat = (text w ++ w.2) !! j.
Proof.
  intros ([p Hp] & E & _). unfold index.
  assert (length w.1 = length (text w) + length w.2)%nat by (by rewrite E at 1; rewrite length_app).
  assert (length line = length p + length w.1)%nat by (by rewrite Hp, length_app).
  split_and!; [lia|lia|]. intros j. rewrite <- E.
  replace (length line - length w.1 + j)%nat with (length p + j)%nat by lia.
  by rewrite Hp, lookup_app_r, Nat.add_comm, Nat.add_sub by lia.
Qed.

Lemma nul_at_cut b w : cut b → wspan line w → cut (nul_at line b w.2) ∧ ended (nul_at line b w.2) w.
Proof.
  intros [Hlen Hb] Hw. destruct (span_index w Hw) as (Hi & Hn & Hl).
  assert (index line w.2 < length b)%nat by (rewrite Hlen, length_app; simpl; lia).
  unfold nul_at, ended. split; [|by apply list_lookup_insert_eq].
  split; [by rewrite length_insert|]. intros i.
  destruct (decide (index line w.2 = i)) as [<-|Hne]; [|by rewrite list_lookup_insert_ne].
  right. rewrite list_lookup_insert_eq by done. split; [done|].
  destruct Hw as (_ & _ & _ & _ & He). rewrite Hi, Hl, lookup_app_r, Nat.sub_diag by lia.
  by destruct w.2.
Qed.
Lemma nul_at_keeps b w w' : ended b w → ended (nul_at line b w') w.
Proof.
  unfold ended, nul_at. intros H. destruct (decide (index line w' = index line w.2)) as [->|].
  - apply list_lookup_insert_eq. by eapply lookup_lt_Some.
  - by rewrite list_lookup_insert_ne.
Qed.

Lemma argv_cut argv b : cut b → Forall (wspan line) argv →
  let b' := foldl (λ b (w : span), nul_at line b w.2) b argv in
  cut b' ∧ Forall (ended b') argv ∧ ∀ w, ended b w → ended b' w.
Proof.
  intros Hb Ha. revert b Hb. induction Ha as [|w argv Hw Ha IH]; intros b Hb; simpl; [by auto|].
  destruct (nul_at_cut b w Hb Hw) as [Hc He]. destruct (IH _ Hc) as (H1 & H2 & H3).
  split_and!; [done|constructor; auto|]. intros w' Hw'. by apply H3, nul_at_keeps.
Qed.

Lemma all_ended_mono b b' c : (∀ w, ended b w → ended b' w) → all_ended b c → all_ended b' c.
Proof.
  intros H. induction c; simpl; [intros Ha; by eapply Forall_impl|naive_solver..].
Qed.

Lemma nulterminate_cut c : cmd_all (wspan line) c → ∀ b, cut b →
  let b' := nulterminate line c b in
  cut b' ∧ all_ended b' c ∧ ∀ w, ended b w → ended b' w.
Proof.
  induction c as [argv|c IH f m fd|l IHl r IHr|l IHl r IHr|c IH]; simpl.
  - intros [Ha _] b Hb. by apply argv_cut.
  - intros (Hc & Hf & _) b Hb. destruct (IH Hc b Hb) as (H1 & H2 & H3).
    destruct (nul_at_cut _ _ H1 Hf). split_and!; [done| |done|].
    + eapply all_ended_mono; [|done]. intros. by apply nul_at_keeps.
    + intros w Hw. by apply nul_at_keeps, H3.
  - intros [Hl Hr] b Hb. destruct (IHl Hl b Hb) as (H1 & H2 & H3).
    destruct (IHr Hr _ H1) as (H4 & H5 & H6). split_and!; eauto using all_ended_mono.
  - intros [Hl Hr] b Hb. destruct (IHl Hl b Hb) as (H1 & H2 & H3).
    destruct (IHr Hr _ H1) as (H4 & H5 & H6). split_and!; eauto using all_ended_mono.
  - intros Hc b Hb. by apply IH.
Qed.

Lemma cstring_app w t : 0 ∉ w → cstring (w ++ 0 :: t) = w.
Proof.
  induction w as [|c w IH]; [done|]. rewrite not_elem_of_cons. intros [Hc Hw]. simpl.
  destruct (Z.eqb_spec c 0); [congruence|]. by rewrite IH.
Qed.

Lemma string_at_text b w : cut b → wspan line w → ended b w → string_at line b w = text w.
Proof.
  intros [Hlen Hb] Hw He. destruct (span_index w Hw) as (Hi & Hle & Hl).
  set (i := index line w.1) in *. set (n := length (text w)) in *. rewrite Hi in Hle.
  assert (Hd : take n (drop i b) = text w).
  { apply list_eq. intros j. destruct (decide (j < n)%nat) as [Hj|Hj].
    2: { rewrite lookup_take_ge by lia. symmetry. apply lookup_ge_None. lia. }
    rewrite lookup_take_lt, lookup_drop by done.
    assert (Ht : line !! (i + j)%nat = text w !! j) by (by rewrite Hl, lookup_app_l).
    destruct (lookup_lt_is_Some_2 (text w) j Hj) as [c Hc]. rewrite Hc in Ht |- *.
    destruct (Hb (i + j)%nat) as [->|[_ Hx]].
    - by rewrite lookup_app_l by lia.
    - rewrite Ht in Hx. destruct Hw as (_ & _ & _ & Hall & _).
      rewrite Forall_lookup in Hall. specialize (Hall _ _ Hc). simpl in Hall. congruence. }
  unfold string_at. fold i. unfold ended in He. rewrite Hi in He.
  rewrite <- (take_drop n (drop i b)), Hd, drop_drop.
  rewrite (drop_S b 0 _ He). apply cstring_app.
  intros (j & Hj)%list_elem_of_lookup_1. apply Hline. apply (list_elem_of_lookup_2 _ (i + j)).
  by rewrite Hl, lookup_app_l by (by eapply lookup_lt_Some).
Qed.

Lemma cmd_map_ext {V W} (f g : V → W) (P : V → Prop) c :
  cmd_all P c → (∀ w, P w → f w = g w) → cmd_map f c = cmd_map g c.
Proof.
  intros Hc H. induction c; simpl in *; f_equal; try naive_solver.
  destruct Hc as [Hc _]. induction Hc; simpl; [done|]. f_equal; auto.
Qed.

Lemma strings_of_words c :
  cmd_all (wspan line) c →
  cmd_map (string_at line (nulterminate line c whole)) c = cmd_map text c.
Proof.
  intros Hc. assert (Hb : cut whole) by (split; [done|by left]).
  destruct (nulterminate_cut c Hc _ Hb) as (H1 & H2 & _).
  revert H1 H2. generalize (nulterminate line c whole) as b. intros b H1 H2.
  induction c as [argv|c IH f m fd|l IHl r IHr|l IHl r IHr|c IH]; simpl in *.
  - f_equal. destruct Hc as [Hc _]. apply list_fmap_ext. intros i w Hi.
    rewrite Forall_lookup in *. eauto using string_at_text.
  - f_equal; [naive_solver|]. destruct H2, Hc as (?&?&_). by apply string_at_text.
  - f_equal; naive_solver.
  - f_equal; naive_solver.
  - f_equal; naive_solver.
Qed.
End cut.
