(* ===== verification/ShPrint.v ===== *)
(** The shell's grammar: a printer of commands in the shell's syntax, with
    parentheses where the grammar needs them, and the proof that the parser
    of Sh.v reads back what it prints. *)

From S2P Require Import Prelude Riscv Ulib Sh.

(** * Printing *)

Definition pr_word (w : list Z) : list Z := str " " ++ w.
Definition pr_args (argv : list (list Z)) : list Z := argv ≫= pr_word.
Definition pr_redir (r : redir (list Z)) : list Z :=
  let '(file, mode, fd) := r in
  (if fd =? 0 then str "<" else if mode =? Z.lor O_WRONLY O_CREATE then str ">>" else str ">")
  ++ pr_word file.
Definition pr_redirs (rs : list (redir (list Z))) : list Z := rs ≫= pr_redir.
Definition paren (s : list Z) : list Z := str "(" ++ s ++ str ")".

(** At rank 0 a line, 1 a pipeline with its ampersands, 2 a pipeline, 3 a
    simple command or a block. *)
Fixpoint pr (rank : nat) (c : cmd (list Z)) : list Z :=
  match c with
  | EXEC argv => pr_args argv
  | REDIR c file mode fd => pr 3 c ++ pr_redir (file, mode, fd)
  | PIPE l r =>
      let s := pr 3 l ++ str "|" ++ pr 2 r in if (2 <? rank)%nat then paren s else s
  | BACK c => let s := pr 1 c ++ str "&" in if (1 <? rank)%nat then paren s else s
  | LIST l r =>
      let s := pr 1 l ++ str ";" ++ pr 0 r in if (0 <? rank)%nat then paren s else s
  end.

(** Words a command line can hold. *)
Definition wordy (w : list Z) : Prop := w ≠ [] ∧ Forall (λ c, wordchar c = true ∧ c ≠ 0) w.
#[export] Instance wordy_dec w : Decision (wordy w).
Proof. unfold wordy. apply _. Defined.

(** * Lexical lemmas *)

(** What stands after a construct: nothing, or one of [l] after blanks. *)
Definition stops (l r : list Z) : Prop :=
  match skip_white r with c :: _ => c ∈ l | [] => True end.
Definition sep (r : list Z) : Prop :=
  match r with c :: _ => wordchar c = false | [] => True end.

Lemma stops_weaken l l' r : stops l r → l ⊆ l' → stops l' r.
Proof. unfold stops. destruct (skip_white r); set_solver. Qed.

Lemma symbol_facts c : c ∈ symbols → wordchar c = false ∧ is_in c whitespace = false.
Proof.
  intros Hc. unfold wordchar.
  assert (H : Forall (λ c, negb (is_in c symbols) = false ∧ is_in c whitespace = false) symbols).
  { apply (bool_decide_unpack _). by vm_compute. }
  rewrite Forall_forall in H. destruct (H c Hc) as [-> ->]. done.
Qed.
Lemma white_sep c : is_in c whitespace = true → wordchar c = false.
Proof. unfold wordchar. by intros ->. Qed.

Lemma stops_sep l r : stops l r → l ⊆ symbols → sep r.
Proof.
  unfold stops, sep. intros H Hl. destruct r as [|c r]; [done|]. simpl in H.
  destruct (is_in c whitespace) eqn:E; [by apply white_sep|]. by apply symbol_facts, Hl.
Qed.
Lemma stops_peek l toks r :
  stops l r → 0 ∉ toks → Forall (λ c, c ∉ toks) l → peek r toks = (false, skip_white r).
Proof.
  unfold stops, peek. intros Hs H0 Hd. destruct (skip_white r) as [|c t]; [done|].
  f_equal. apply not_true_iff_false. rewrite is_in_spec by done. rewrite Forall_forall in Hd. auto.
Qed.

(** A symbol at the front. *)
Lemma skip_symbol c r : c ∈ symbols → skip_white (c :: r) = c :: r.
Proof. intros Hc. simpl. by rewrite (proj2 (symbol_facts c Hc)). Qed.
Lemma peek_symbol c r toks : c ∈ symbols → peek (c :: r) toks = (is_in c toks, c :: r).
Proof. intros Hc. unfold peek. by rewrite skip_symbol. Qed.
Lemma gettoken_symbol c r :
  c ∈ str "|();&<" → gettoken (c :: r) = (c, (c :: r, r), skip_white r).
Proof.
  intros Hc. unfold gettoken.
  assert (Hi : is_in c (str "|();&<") = true).
  { apply is_in_spec; [|done]. by apply (bool_decide_unpack _); vm_compute. }
  assert (Hs : c ∈ symbols).
  { apply is_in_spec; [by apply (bool_decide_unpack _); vm_compute|].
    rewrite symbols_cases, Hi. done. }
  rewrite skip_symbol, Hi by done. done.
Qed.
Lemma stops_symbol c l r : c ∈ symbols → c ∈ l → stops l (c :: r).
Proof. intros. unfold stops. by rewrite skip_symbol. Qed.

(** A word at the front. *)
Lemma skip_word_front w r : wordy w → skip_white (pr_word w ++ r) = w ++ r.
Proof.
  intros [Hne Hw]. destruct w as [|c w]; [done|]. inversion Hw as [|x y [Hc _] Hw']; subst.
  unfold pr_word. change (str " ") with [32]. cbn [app skip_white].
  change (is_in 32 whitespace) with true. cbv iota.
  unfold wordchar in Hc. apply andb_true_iff in Hc as [Hc%negb_true_iff _]. by rewrite Hc.
Qed.
Lemma skip_word_stop r : sep r → skip_word r = r.
Proof. destruct r as [|c r]; [done|]. simpl. unfold sep, wordchar. by intros ->. Qed.
Lemma gettoken_front w r :
  wordy w → sep r → gettoken (pr_word w ++ r) = (chr "a", (w ++ r, r), skip_white r).
Proof.
  intros Hw Hr. unfold gettoken. rewrite skip_word_front by done.
  assert (He : skip_word (w ++ r) = r).
  { rewrite skip_word_app; [by apply skip_word_stop|].
    eapply Forall_impl; [apply Hw|]. naive_solver. }
  destruct Hw as [Hne Hw]. destruct w as [|c w]; [done|].
  inversion Hw as [|x y [Hc _] Hw']; subst. cbn [app]. cbn [app] in He. rewrite He.
  unfold wordchar in Hc. rewrite symbols_cases in Hc.
  destruct (is_in c (str "|();&<")); [by rewrite andb_comm in Hc|].
  destruct (c =? chr ">"); [by rewrite andb_comm in Hc|]. done.
Qed.
Lemma peek_front w r toks :
  wordy w → toks ⊆ symbols → 0 ∉ toks → peek (pr_word w ++ r) toks = (false, w ++ r).
Proof.
  intros Hw Ht H0. unfold peek. rewrite skip_word_front by done.
  destruct Hw as [Hne Hw]. destruct w as [|c w]; [done|]. cbn [app]. f_equal.
  apply not_true_iff_false. rewrite is_in_spec by done. intros Hin%Ht%symbol_facts.
  inversion Hw as [|x y [Hc _] Hw']; subst. naive_solver congruence.
Qed.
Lemma pr_word_sep w r : sep (pr_word w ++ r).
Proof. done. Qed.

(** * The parsers skip blanks first *)

Lemma parseredirs_skip f s : parseredirs f (skip_white s) = parseredirs f s.
Proof. destruct f; [done|]. cbn [parseredirs]. by rewrite peek_skip. Qed.
Lemma parseargs_skip f argv rs s : parseargs f argv rs (skip_white s) = parseargs f argv rs s.
Proof. destruct f; [done|]. cbn [parseargs]. by rewrite peek_skip. Qed.
Lemma parseback_skip f c s : parseback f c (skip_white s) = parseback f c s.
Proof. destruct f; [done|]. cbn [parseback]. by rewrite peek_skip. Qed.
Lemma parseexec_skip f s : parseexec f (skip_white s) = parseexec f s.
Proof. destruct f; [done|]. cbn [parseexec]. by rewrite peek_skip. Qed.
Lemma parsepipe_skip f s : parsepipe f (skip_white s) = parsepipe f s.
Proof. destruct f; [done|]. cbn [parsepipe]. by rewrite parseexec_skip. Qed.
Lemma parseline_skip f s : parseline f (skip_white s) = parseline f s.
Proof. destruct f; [done|]. cbn [parseline]. by rewrite parsepipe_skip. Qed.

(** * Reading back *)

(** The parse delivers something that satisfies [P] and leaves [rest], unless
    the fuel was too short. *)
Definition agrees {A} (r : result A) (P : A → Prop) (rest : list Z) : Prop :=
  r = NoFuel ∨ ∃ a, r = Parsed a rest ∧ P a.

Lemma agrees_bind {A B} (r : result A) (k : A → list Z → result B) P Q s s' :
  agrees r P s → (∀ a, P a → agrees (k a s) Q s') → agrees (pbind r k) Q s'.
Proof. intros [->|(a & -> & Ha)] Hk; [by left|]. by apply Hk. Qed.
Lemma agrees_parsed {A} (a : A) (P : A → Prop) s : P a → agrees (Parsed a s) P s.
Proof. right. eauto. Qed.

Definition redir_text (r : redir span) : redir (list Z) := (text r.1.1, r.1.2, r.2).
Lemma redirs_text c rs : cmd_map text (redirs c rs) = redirs (cmd_map text c) (redir_text <$> rs).
Proof.
  revert c. induction rs as [|[[f m] fd] rs IH]; intros c; [done|]. simpl. by rewrite IH.
Qed.

Lemma str_symbols (s : string) : bool_decide (str s ⊆ symbols ∧ 0 ∉ str s) = true →
  str s ⊆ symbols ∧ 0 ∉ str s.
Proof. apply bool_decide_eq_true_1. Qed.
(** Membership and inclusion of concrete characters. *)
Ltac chars := first [by apply str_symbols; vm_compute | by apply (bool_decide_unpack _); vm_compute].

(** The operator of a redirection. *)
Lemma redir_token file mode fd r :
  wordy file → (mode, fd) ∈ redir_kinds →
  ∃ tok q,
    peek (pr_redir (file, mode, fd) ++ r) (str "<>") = (true, pr_redir (file, mode, fd) ++ r)
    ∧ gettoken (pr_redir (file, mode, fd) ++ r) = (tok, q, file ++ r)
    ∧ (∀ w : span, (if tok =? chr "<" then (w, O_RDONLY, 0)
                    else if tok =? chr ">" then (w, Z.lor (Z.lor O_WRONLY O_CREATE) O_TRUNC, 1)
                    else (w, Z.lor O_WRONLY O_CREATE, 1)) = (w, mode, fd)).
Proof.
  intros Hf Hk. unfold redir_kinds in Hk. rewrite !elem_of_cons in Hk.
  destruct Hk as [[= -> ->]|[[= -> ->]|[[= -> ->]|Hk%not_elem_of_nil]]]; [..|done].
  - exists (chr "<"). eexists. split_and!; [reflexivity| |done].
    change (pr_redir _) with (60 :: pr_word file). cbn [app].
    rewrite gettoken_symbol by chars. by rewrite skip_word_front.
  - exists (chr ">"). eexists. split_and!; [reflexivity| |done].
    change (pr_redir _) with (62 :: pr_word file). cbn [app]. unfold gettoken.
    rewrite skip_symbol by chars. change (is_in 62 _) with false.
    change (62 =? chr ">") with true. cbv iota. by rewrite <- (skip_word_front file r Hf).
  - exists (chr "+"). eexists. split_and!; [reflexivity| |done].
    change (pr_redir _) with (62 :: 62 :: pr_word file). cbn [app]. unfold gettoken.
    rewrite skip_symbol by chars. change (is_in 62 _) with false.
    change (62 =? chr ">") with true. cbv iota. by rewrite <- (skip_word_front file r Hf).
Qed.

Lemma gettoken_file w r :
  wordy w → sep r → gettoken (w ++ r) = (chr "a", (w ++ r, r), skip_white r).
Proof.
  intros Hw Hr. rewrite <- (skip_word_front w r Hw), gettoken_skip. by rewrite gettoken_front, skip_word_front.
Qed.

Lemma pr_redirs_sep rs r : Forall (redir_all wordy) rs → sep r → sep (pr_redirs rs ++ r).
Proof.
  intros Hrs Hr. destruct Hrs as [|[[f m] fd] rs [_ Hk] _]; [done|].
  simpl. repeat case_match; by vm_compute.
Qed.

Lemma parseredirs_print fuel rs r :
  Forall (redir_all wordy) rs → sep r → peek r (str "<>") = (false, skip_white r) →
  agrees (parseredirs fuel (pr_redirs rs ++ r)) (λ rs', redir_text <$> rs' = rs) (skip_white r).
Proof.
  intros Hrs Hr Hp. revert fuel. induction Hrs as [|[[f m] fd] rs [Hf Hk] Hrs IH]; intros fuel;
    (destruct fuel as [|fuel]; [by left|]); cbn [parseredirs].
  { cbn [pr_redirs mbind list_bind app]. rewrite Hp. by apply agrees_parsed. }
  simpl in Hf, Hk. cbn [pr_redirs mbind list_bind]. rewrite <- app_assoc. fold (pr_redirs rs).
  destruct (redir_token f m fd (pr_redirs rs ++ r) Hf Hk) as (tok & q & -> & -> & Hkind).
  rewrite gettoken_file by eauto using pr_redirs_sep.
  change (chr "a" =? chr "a") with true. cbv iota beta.
  rewrite parseredirs_skip. eapply agrees_bind; [apply IH|].
  intros rs' Hrs'. apply agrees_parsed. rewrite Hkind, fmap_cons, Hrs'.
  unfold redir_text. simpl. by rewrite text_app.
Qed.

Lemma pr_args_cons w argv s : pr_args (w :: argv) ++ s = pr_word w ++ pr_args argv ++ s.
Proof. unfold pr_args. cbn [mbind list_bind]. by rewrite <- app_assoc. Qed.

Definition reads (c : cmd (list Z)) (c' : cmd span) : Prop := cmd_map text c' = c.

Lemma redirs_none r : stops (str "|)&;") r → sep r ∧ peek r (str "<>") = (false, skip_white r).
Proof.
  intros H. split; [apply (stops_sep _ _ H); chars|].
  apply (stops_peek _ _ _ H); chars.
Qed.

Lemma parseargs_print fuel argv rs r argv0 rs0 :
  stops (str "|)&;") r → Forall wordy argv → Forall (redir_all wordy) rs →
  Z.of_nat (length argv0 + length argv) < MAXARGS → (argv = [] → rs = []) →
  agrees (parseargs fuel argv0 rs0 (pr_args argv ++ pr_redirs rs ++ r))
    (reads (redirs (EXEC ((text <$> argv0) ++ argv)) ((redir_text <$> rs0) ++ rs))) (skip_white r).
Proof.
  intros Hr Ha Hrs. destruct (redirs_none r Hr) as [Hsep Hno].
  revert argv0 rs0 rs Hrs fuel.
  induction Ha as [|w argv Hw Ha IH]; intros argv0 rs0 rs Hrs fuel Hn Hnil;
    (destruct fuel as [|fuel]; [by left|]); cbn [parseargs].
  - rewrite Hnil by done. cbn [pr_args pr_redirs mbind list_bind app]. rewrite !app_nil_r.
    unfold stops in Hr. destruct (skip_white r) as [|c t] eqn:E.
    + unfold peek. rewrite E. change (gettoken []) with (0, ([] : list Z, [] : list Z), [] : list Z).
      apply agrees_parsed. apply redirs_text.
    + unfold peek. rewrite E. rewrite (proj2 (is_in_spec c (str "|)&;") ltac:(chars)) Hr).
      apply agrees_parsed. apply redirs_text.
  - rewrite pr_args_cons.
    rewrite peek_front by (done || chars).
    rewrite gettoken_file; [|done|].
    2: { destruct Ha; [by apply pr_redirs_sep|done]. }
    change (chr "a" =? 0) with false. change (chr "a" =? chr "a") with true. simpl negb. cbv iota.
    set (argv1 := argv0 ++ _).
    assert (Hlen : length argv1 = S (length argv0)) by (unfold argv1; rewrite length_app; simpl; lia).
    assert (Htext : text <$> argv1 = (text <$> argv0) ++ [w])
      by (unfold argv1; rewrite fmap_app; simpl; by rewrite text_app).
    simpl length in Hn. rewrite (proj2 (Z.leb_gt _ _)) by lia.
    rewrite parseredirs_skip. 
    rewrite (cons_middle w (text <$> argv0) argv), (app_assoc (text <$> argv0)), <- Htext. destruct argv as [|w2 argv].
    + eapply agrees_bind; [by apply parseredirs_print|]. intros rs1 Hrs1.
      rewrite parseargs_skip.
      refine (eq_rect _ (λ P, agrees _ (reads P) _) (IH argv1 (rs0 ++ rs1) [] _ fuel _ _) _ _);
        [constructor|simpl; lia|done|].
      by rewrite !app_nil_r, fmap_app, Hrs1.
    + eapply agrees_bind; [apply (parseredirs_print fuel [] (pr_args (w2 :: argv) ++ pr_redirs rs ++ r)); [constructor|done|]|].
      * rewrite pr_args_cons. inversion Ha; subst.
        rewrite peek_front by (done || chars). by rewrite skip_word_front.
      * intros rs1 Hrs1%fmap_nil_inv. subst rs1. rewrite parseargs_skip, app_nil_r.
        apply IH; [done|simpl length in *; lia|done].
Qed.

(** ** Ranks of the grammar *)

Section ranks.
Implicit Types x y : list Z.
Implicit Types c l : cmd (list Z).

Definition at_exec x c := ∀ fuel r, stops (str "|)&;") r →
  agrees (parseexec fuel (x ++ r)) (reads c) (skip_white r).
Definition at_pipe x c := ∀ fuel r, stops (str ")&;") r →
  agrees (parsepipe fuel (x ++ r)) (reads c) (skip_white r).
(** A pipeline and its ampersands: the loop of [parseline] is left to run. *)
Definition at_back x c := ∀ fuel fuel' r, stops (str ")&;") r →
  let p := pbind (parsepipe fuel (x ++ r)) (parseback fuel') in
  p = NoFuel ∨ ∃ (c' : cmd span) fuel'', reads c c' ∧ p = parseback fuel'' c' (skip_white r).
Definition at_line x c := ∀ fuel r, stops (str ")") r →
  agrees (parseline fuel (x ++ r)) (reads c) (skip_white r).
(** A command or block that redirections may follow. *)
Definition at_simple x c := ∀ rs, Forall (redir_all wordy) rs →
  at_exec (x ++ pr_redirs rs) (redirs c rs).

Lemma simple_exec x c : at_simple x c → at_exec x c.
Proof. intros H. specialize (H [] (Forall_nil_2 _)). by rewrite app_nil_r in H. Qed.

Lemma exec_pipe x c : at_exec x c → at_pipe x c.
Proof.
  intros H fuel r Hr. destruct fuel as [|fuel]; [by left|]. cbn [parsepipe].
  eapply agrees_bind; [apply H, (stops_weaken _ _ _ Hr); chars|]. intros c' Hc'.
  rewrite peek_skip, (stops_peek _ _ _ Hr); [by apply agrees_parsed|chars..].
Qed.
Lemma pipe_pipe x y l c : at_exec x l → at_pipe y c → at_pipe (x ++ str "|" ++ y) (PIPE l c).
Proof.
  intros Hx Hy fuel r Hr. destruct fuel as [|fuel]; [by left|]. cbn [parsepipe].
  rewrite <- !app_assoc. change (str "|") with [124]. cbn [app].
  eapply agrees_bind; [apply Hx, stops_symbol; chars|]. intros l' Hl'.
  rewrite peek_skip, peek_symbol by chars. change (is_in 124 _) with true. cbv iota beta.
  rewrite gettoken_symbol by chars. rewrite parsepipe_skip.
  eapply agrees_bind; [by apply Hy|]. intros c' Hc'. apply agrees_parsed.
  unfold reads in *. simpl. by rewrite Hl', Hc'.
Qed.

Lemma pipe_back x c : at_pipe x c → at_back x c.
Proof.
  intros H fuel fuel' r Hr. destruct (H fuel r Hr) as [E|(c' & E & Hc')].
  - left. by rewrite E.
  - right. exists c', fuel'. by rewrite E.
Qed.
Lemma back_back x c : at_back x c → at_back (x ++ str "&") (BACK c).
Proof.
  intros H fuel fuel' r Hr. rewrite <- app_assoc. change (str "&") with [38]. cbn [app].
  destruct (H fuel fuel' (38 :: r)) as [E|(c' & f & Hc' & E)].
  { apply stops_symbol; chars. } { by left. }
  destruct f as [|f]; cbv zeta; [by left|]. right. exists (BACK c'), f.
  split; [unfold reads in *; simpl; congruence|]. rewrite E. cbn [parseback].
  rewrite peek_skip, peek_symbol by chars. change (is_in 38 _) with true. cbv iota beta.
  by rewrite gettoken_symbol by chars.
Qed.

Lemma parseback_done fuel (c' : cmd span) c r :
  reads c c' → stops (str ");") r →
  agrees (parseback fuel c' (skip_white r)) (reads c) (skip_white r).
Proof.
  intros Hc Hr. destruct fuel as [|fuel]; [by left|]. cbn [parseback].
  rewrite peek_skip, (stops_peek _ _ _ Hr) by chars. by apply agrees_parsed.
Qed.

(** The first two steps of [parseline]. *)
Lemma back_line_head {B} x c fuel r (k : cmd span → list Z → result B) Q s :
  at_back x c → stops (str ");") r →
  (∀ c' : cmd span, reads c c' → agrees (k c' (skip_white r)) Q s) →
  agrees (pbind (parsepipe fuel (x ++ r)) (λ (c1 : cmd span) ps, pbind (parseback fuel c1 ps) k)) Q s.
Proof.
  intros H Hr Hk.
  assert (Hp : agrees (pbind (parsepipe fuel (x ++ r)) (parseback fuel)) (reads c) (skip_white r)).
  { destruct (H fuel fuel r) as [E|(c' & f & Hc' & E)]; [apply (stops_weaken _ _ _ Hr); chars| |].
    - by left.
    - rewrite E. by apply parseback_done. }
  destruct (parsepipe fuel (x ++ r)) as [c1 s1|msg|]; cbn [pbind] in *.
  - by eapply agrees_bind.
  - by destruct Hp as [|(? & ? & _)].
  - by left.
Qed.
Lemma back_line x c : at_back x c → at_line x c.
Proof.
  intros H fuel r Hr. destruct fuel as [|fuel]; [by left|]. cbn [parseline].
  eapply back_line_head; [done|apply (stops_weaken _ _ _ Hr); chars|]. intros c' Hc'.
  rewrite peek_skip, (stops_peek _ _ _ Hr) by chars. by apply agrees_parsed.
Qed.
Lemma line_line x y l c : at_back x l → at_line y c → at_line (x ++ str ";" ++ y) (LIST l c).
Proof.
  intros Hx Hy fuel r Hr. destruct fuel as [|fuel]; [by left|]. cbn [parseline].
  rewrite <- !app_assoc. change (str ";") with [59]. cbn [app].
  eapply back_line_head; [done|apply stops_symbol; chars|]. intros l' Hl'.
  rewrite peek_skip, peek_symbol by chars. change (is_in 59 _) with true. cbv iota beta.
  rewrite gettoken_symbol by chars. rewrite parseline_skip.
  eapply agrees_bind; [by apply Hy|]. intros c' Hc'. apply agrees_parsed.
  unfold reads in *. simpl. by rewrite Hl', Hc'.
Qed.

Lemma paren_simple x c : at_line x c → at_simple (paren x) c.
Proof.
  intros H rs Hrs fuel r Hr. destruct fuel as [|fuel]; [by left|]. unfold paren.
  change (str "(") with [40]. change (str ")") with [41]. rewrite <- !app_assoc. cbn [app parseexec].
  rewrite peek_symbol by chars. change (is_in 40 _) with true. cbv iota beta.
  destruct fuel as [|fuel]; [by left|]. cbn [parseblock].
  rewrite peek_symbol by chars. change (is_in 40 _) with true. simpl negb. cbv iota beta.
  rewrite gettoken_symbol by chars. rewrite parseline_skip.
  eapply agrees_bind; [apply H, stops_symbol; chars|]. intros c' Hc'.
  rewrite peek_skip, peek_symbol by chars. change (is_in 41 _) with true. simpl negb. cbv iota beta.
  rewrite gettoken_symbol by chars. rewrite parseredirs_skip.
  destruct (redirs_none r Hr) as [Hsep Hno].
  eapply agrees_bind; [by apply parseredirs_print|]. intros rs' Hrs'. apply agrees_parsed.
  unfold reads in *. by rewrite redirs_text, Hc', Hrs'.
Qed.

Lemma exec_simple argv :
  Forall wordy argv → Z.of_nat (length argv) < MAXARGS → at_simple (pr_args argv) (EXEC argv).
Proof.
  intros Ha Hn rs Hrs fuel r Hr. destruct fuel as [|fuel]; [by left|]. cbn [parseexec].
  destruct (redirs_none r Hr) as [Hsep Hno]. rewrite <- app_assoc.
  assert (Hp : peek (pr_args argv ++ pr_redirs rs ++ r) (str "(")
               = (false, skip_white (pr_args argv ++ pr_redirs rs ++ r))).
  { destruct Ha as [|w argv Hw Ha].
    - destruct Hrs as [|[[f m] fd] rs [Hf Hk] Hrs].
      + apply (stops_peek _ _ _ Hr); chars.
      + cbn [pr_args pr_redirs mbind list_bind app]. rewrite <- app_assoc. unfold pr_redir.
        repeat case_match; cbn [app]; by rewrite <- app_assoc.
    - rewrite pr_args_cons.
      rewrite peek_front by (done || chars). by rewrite skip_word_front. }
  rewrite Hp, parseredirs_skip. destruct Ha as [|w argv Hw Ha].
  - eapply agrees_bind; [by apply parseredirs_print|]. intros rs' Hrs'. rewrite parseargs_skip.
    refine (eq_rect _ (λ P, agrees _ (reads P) _) (parseargs_print fuel [] [] r [] rs' _ _ _ _ _) _ _);
      [done|constructor|constructor|done|done|]. by rewrite !app_nil_r, Hrs'.
  - eapply agrees_bind; [apply (parseredirs_print fuel [] (pr_args (w :: argv) ++ pr_redirs rs ++ r)); [constructor|done|]|].
    + rewrite pr_args_cons.
      rewrite peek_front by (done || chars). by rewrite skip_word_front.
    + intros rs1 Hrs1%fmap_nil_inv. subst rs1. rewrite parseargs_skip.
      apply (parseargs_print fuel (w :: argv) rs r [] []); [done|by constructor|done|done|done].
Qed.

Lemma redir_simple x c file mode fd :
  at_simple x c → redir_all wordy (file, mode, fd) →
  at_simple (x ++ pr_redir (file, mode, fd)) (REDIR c file mode fd).
Proof.
  intros H Hr rs Hrs. rewrite <- app_assoc.
  apply (H ((file, mode, fd) :: rs)). by constructor.
Qed.

Lemma simple_ranks x c :
  at_simple x c → at_simple x c ∧ at_pipe x c ∧ at_back x c ∧ at_line x c.
Proof.
  intros H. pose proof (exec_pipe _ _ (simple_exec _ _ H)) as Hp. pose proof (pipe_back _ _ Hp).
  split_and!; [done..|by apply back_line].
Qed.

Lemma pr_ranks c : cmd_all wordy c →
  at_simple (pr 3 c) c ∧ at_pipe (pr 2 c) c ∧ at_back (pr 1 c) c ∧ at_line (pr 0 c) c.
Proof.
  induction c as [argv|c IH f m fd|l IHl r IHr|l IHl r IHr|c IH]; simpl.
  - intros [Ha Hn]. by apply simple_ranks, exec_simple.
  - intros (Hc & Hf & Hk). by apply simple_ranks, redir_simple; [apply IH|].
  - intros [Hl Hr]. destruct (IHl Hl) as (Hl3 & _), (IHr Hr) as (_ & Hr2 & _).
    pose proof (pipe_pipe _ _ _ _ (simple_exec _ _ Hl3) Hr2) as H.
    pose proof (pipe_back _ _ H) as Hb. pose proof (back_line _ _ Hb).
    split_and!; [by apply paren_simple|done..].
  - intros [Hl Hr]. destruct (IHl Hl) as (_ & _ & Hl1 & _), (IHr Hr) as (_ & _ & _ & Hr0).
    pose proof (line_line _ _ _ _ Hl1 Hr0) as H.
    destruct (simple_ranks _ _ (paren_simple _ _ H)) as (? & ? & ? & _). by split_and!.
  - intros Hc. destruct (IH Hc) as (_ & _ & H1 & _). pose proof (back_back _ _ H1) as H.
    pose proof (back_line _ _ H) as Hl.
    destruct (simple_ranks _ _ (paren_simple _ _ Hl)) as (? & ? & _). by split_and!.
Qed.
End ranks.

(** * The command line *)

(** [parsecmd] on a NUL-terminated line, with the buffer gone: the strings are
    the words the parser saw. *)
Lemma parsecmd_words line junk :
  0 ∉ line →
  good line (length line) (cmd_all (wspan line)) (parseline (4 * length line + 4) line) ∧
  parsecmd (line ++ 0 :: junk)
  = pbind (parseline (4 * length line + 4) line)
      (λ c s, match skip_white s with [] => Parsed (cmd_map text c) [] | _ => Fails "syntax" end).
Proof.
  intros Hl. pose proof (parseline_good line line (reflexivity _)) as Hg. split; [done|].
  unfold parsecmd. rewrite cstring_app by done. destruct (parseline _ line) as [c s|msg|]; [|done..].
  destruct Hg as (_ & _ & Hc). cbn [pbind]. unfold peek. destruct (skip_white s); [|done].
  by rewrite strings_of_words.
Qed.

Lemma cmd_all_map {V W} (f : V → W) (P : V → Prop) (Q : W → Prop) c :
  cmd_all P c → (∀ w, P w → Q (f w)) → cmd_all Q (cmd_map f c).
Proof.
  intros Hc H. induction c; simpl in *; try naive_solver.
  rewrite length_fmap. destruct Hc as [Hc ?]. split; [|done].
  apply Forall_fmap. by eapply Forall_impl.
Qed.

Lemma wspan_wordy line w : 0 ∉ line → wspan line w → wordy (text w).
Proof.
  intros Hl (Hs & E & Hne & Hw & _). split; [done|].
  apply Forall_forall. intros c Hc. rewrite Forall_forall in Hw. split; [auto|].
  intros ->. apply Hl. destruct Hs as [p ->]. rewrite E. set_solver.
Qed.

(** C29: every NUL-terminated line is either refused with a message or parsed
    to a command whose words are non-empty strings without blanks or
    operators, with fewer than MAXARGS arguments in each vector (so that the
    terminating null pointer fits) and only the three kinds of redirection.
    The recursive descent of sh.c always ends. *)
Theorem parsecmd_total line junk :
  0 ∉ line →
  (∃ msg, parsecmd (line ++ 0 :: junk) = Fails msg)
  ∨ ∃ c, parsecmd (line ++ 0 :: junk) = Parsed c [] ∧ cmd_all wordy c.
Proof.
  intros Hl. destruct (parsecmd_words line junk Hl) as [Hg ->].
  destruct (parseline _ line) as [c s|msg|]; cbn [pbind]; [|by eauto|done].
  destruct (skip_white s); [|by eauto]. right. eexists. split; [done|].
  eapply cmd_all_map; [apply Hg|]. intros w. by apply wspan_wordy.
Qed.
Lemma parsecmd_total_witness :
  let line := str "(ls; cat < in | grep x) > out & wc" in
  (∃ msg, parsecmd (line ++ 0 :: []) = Fails msg)
  ∨ ∃ c, parsecmd (line ++ 0 :: []) = Parsed c [] ∧ cmd_all wordy c.
Proof.
  apply (parsecmd_total (str "(ls; cat < in | grep x) > out & wc") []).
  apply (bool_decide_unpack _). by vm_compute.
Defined.

Lemma pr_no_nul rank c : cmd_all wordy c → 0 ∉ pr rank c.
Proof.
  assert (Hw : ∀ w, wordy w → 0 ∉ pr_word w).
  { intros w [_ Hw] Hin. unfold pr_word in Hin. apply elem_of_app in Hin as [Hin|Hin].
    - revert Hin. chars.
    - rewrite Forall_forall in Hw. by destruct (Hw _ Hin). }
  assert (Hs : ∀ s, bool_decide (0 ∉ str s) = true → 0 ∉ str s) by (intros s; apply bool_decide_eq_true_1).
  assert (Hp : ∀ s, 0 ∉ s → 0 ∉ paren s).
  { intros s H. unfold paren. rewrite !not_elem_of_app. split_and!; [by apply Hs; vm_compute|done|by apply Hs; vm_compute]. }
  revert rank. induction c as [argv|c IH f m fd|l IHl r IHr|l IHl r IHr|c IH]; intros rank; simpl.
  - intros [Ha _]. unfold pr_args. intros (w & ? & ?)%list_elem_of_bind.
    rewrite Forall_forall in Ha. naive_solver.
  - intros (Hc & Hf & _). rewrite !not_elem_of_app. split_and!; [auto| |auto].
    repeat case_match; by apply Hs; vm_compute.
  - intros [Hl Hr]. assert (0 ∉ pr 3 l ++ str "|" ++ pr 2 r); [|case_match; auto].
    rewrite !not_elem_of_app. split_and!; [auto|by apply Hs; vm_compute|auto].
  - intros [Hl Hr]. assert (0 ∉ pr 1 l ++ str ";" ++ pr 0 r); [|case_match; auto].
    rewrite !not_elem_of_app. split_and!; [auto|by apply Hs; vm_compute|auto].
  - intros Hc. assert (0 ∉ pr 1 c ++ str "&"); [|case_match; auto].
    rewrite !not_elem_of_app. split_and!; [auto|by apply Hs; vm_compute].
Qed.

(** C26: the parser reads back what the grammar prints. Every command whose
    words are words, with vectors of fewer than MAXARGS arguments and the
    shell's three redirections, written out in the shell's syntax and given
    to [parsecmd], comes back unchanged: operators associate and bind as the
    printer's parentheses say, and [nulterminate] damages no word. *)
Theorem parse_print c junk :
  cmd_all wordy c → parsecmd (pr 0 c ++ 0 :: junk) = Parsed c [].
Proof.
  intros Hc. destruct (parsecmd_words (pr 0 c) junk) as [Hg ->]; [by apply pr_no_nul|].
  destruct (pr_ranks c Hc) as (_ & _ & _ & H).
  specialize (H (4 * length (pr 0 c) + 4)%nat [] I). rewrite app_nil_r in H.
  destruct H as [E|(c' & E & Hr)]; rewrite E in Hg |- *; [done|]. simpl. by rewrite Hr.
Qed.
Lemma parse_print_witness :
  let c := LIST (BACK (REDIR (PIPE (EXEC [str "ls"]) (EXEC [str "grep"; str "x"]))
                         (str "out") 0x201 1))
             (EXEC [str "wc"]) in
  parsecmd (pr 0 c ++ 0 :: []) = Parsed c [].
Proof.
  intros c. apply (parse_print c []). unfold c. cbn [cmd_all]. unfold MAXARGS, redir_kinds.
  repeat split; by apply (bool_decide_unpack _); vm_compute.
Defined.

(** The line the printer writes for it. *)
Example pr_example :
  pr 0 (LIST (BACK (REDIR (PIPE (EXEC [str "ls"]) (EXEC [str "grep"; str "x"])) (str "out") 0x201 1))
          (EXEC [str "wc"]))
  = str "( ls| grep x)>> out&; wc".
Proof. reflexivity. Qed.
