(* ===== verification/ShRun.v ===== *)
(** user/sh.c: what the shell does with a command.  [runcmd] is the tree of
    processes it starts, with the descriptor table of each; [fork] and
    [wait] succeed, [open] succeeds as the argument [opens] says. *)

From S2P Require Import Prelude Riscv Ulib Sh.

(** * Descriptors *)

(** What a descriptor is open on: something the shell inherited, a file, or
    an end of the [n]-th pipe. *)
Inductive obj :=
| Inherited (n : Z)
| Opened (file : list Z) (mode : Z)
| PipeR (n : nat)
| PipeW (n : nat).

Definition fds := list (option obj).

(** The lowest free descriptor, which [open], [dup] and [pipe] hand out. *)
Fixpoint free_fd (t : fds) : option nat :=
  match t with
  | None :: _ => Some 0%nat
  | Some _ :: t' => S <$> free_fd t'
  | [] => None
  end.
Definition fd_open (t : fds) (o : obj) : option (nat * fds) :=
  fd ← free_fd t; Some (fd, <[fd := Some o]> t).
Definition fd_close (t : fds) (fd : nat) : fds := <[fd := None]> t.
Definition fd_dup (t : fds) (fd : nat) : fds :=
  match t !! fd with
  | Some (Some o) => match fd_open t o with Some (_, t') => t' | None => t end
  | _ => t
  end.

(** * [runcmd] *)

(** A process: it becomes another program, exits, forks a child and goes on,
    or waits for a child, holding the descriptors [t]. *)
Inductive script :=
| Exec (argv : list (list Z)) (t : fds)
| Exit (status : Z)
| Fork (child parent : script)
| Wait (t : fds) (k : script).

Section runcmd.
Context (opens : list Z → Z → bool).

(** [n] counts the pipes. *)
Fixpoint runcmd (c : cmd (list Z)) (t : fds) (n : nat) : script * nat :=
  match c with
  | EXEC [] => (Exit 1, n)
  | EXEC argv => (Exec argv t, n)
  | REDIR c file mode fd =>
      let t := fd_close t (Z.to_nat fd) in
      if opens file mode then
        match fd_open t (Opened file mode) with
        | Some (_, t) => runcmd c t n
        | None => (Exit 1, n)
        end
      else (Exit 1, n)
  | LIST l r =>
      let '(pl, n) := runcmd l t n in
      let '(pr, n) := runcmd r t n in
      (Fork pl (Wait t pr), n)
  | PIPE l r =>
      match fd_open t (PipeR n) with
      | Some (p0, t0) =>
          match fd_open t0 (PipeW n) with
          | Some (p1, t) =>
              let ends t := fd_close (fd_close t p0) p1 in
              let '(pl, n) := runcmd l (ends (fd_dup (fd_close t 1) p1)) (S n) in
              let '(pr, n) := runcmd r (ends (fd_dup (fd_close t 0) p0)) n in
              (Fork pl (Fork pr (Wait (ends t) (Wait (ends t) (Exit 0)))), n)
          | None => (Exit 1, n)
          end
      | None => (Exit 1, n)
      end
  | BACK c => let '(p, n) := runcmd c t n in (Fork p (Exit 0), n)
  end.

(** * [getcmd] and [main] *)

(** What the shell's own process does for each line. *)
Inductive event := Chdir (path : list Z) | Run (c : result (cmd (list Z))).

Definition CMDBUF : Z := 100.
(** The line [gets] leaves in the zeroed buffer, and the rest of the input;
    nothing at the end of the input. *)
Definition getcmd (input : list Z) : option (list Z * list Z) :=
  let '(line, rest) := ugets input CMDBUF in
  let buf := line ++ replicate (Z.to_nat CMDBUF - length line) 0 in
  match buf with
  | c :: _ => if c =? 0 then None else Some (buf, rest)
  | [] => None
  end.
Definition starts_cd (buf : list Z) : bool := bool_decide (take 3 buf = str "cd ").

Fixpoint sh_main (fuel : nat) (input : list Z) : list event :=
  match fuel with
  | O => []
  | S fuel' =>
      match getcmd input with
      | None => []
      | Some (buf, rest) =>
          (if starts_cd buf
           then Chdir (drop 3 (take (length (cstring buf) - 1) (cstring buf)))
           else Run (parsecmd buf))
          :: sh_main fuel' rest
      end
  end.
End runcmd.

(** * What runs where *)

(** The programs a process tree starts, and the tables of waiting shells. *)
Fixpoint execs (p : script) : list (list (list Z) * fds) :=
  match p with
  | Exec argv t => [(argv, t)]
  | Exit _ => []
  | Fork child parent => execs child ++ execs parent
  | Wait _ k => execs k
  end.
Fixpoint waits (p : script) : list fds :=
  match p with
  | Exec _ _ | Exit _ => []
  | Fork child parent => waits child ++ waits parent
  | Wait t k => t :: waits k
  end.

(** Standard input, output and error, and nothing else. *)
Definition std (i o e : obj) : fds := [Some i; Some o; Some e] ++ replicate (Z.to_nat NOFILE - 3) None.

(** The meaning of a command line: which programs run, with which standard
    input and output. The first redirection of a kind wins, because the
    others are opened before it. *)
Fixpoint wire (opens : list Z → Z → bool) (c : cmd (list Z)) (i o : obj) (n : nat)
    : list (list (list Z) * (obj * obj)) * nat :=
  match c with
  | EXEC argv => (if decide (argv = []) then [] else [(argv, (i, o))], n)
  | REDIR c file mode fd =>
      if opens file mode then
        if fd =? 0 then wire opens c (Opened file mode) o n
        else wire opens c i (Opened file mode) n
      else ([], n)
  | LIST l r =>
      let '(wl, n) := wire opens l i o n in
      let '(wr, n) := wire opens r i o n in (wl ++ wr, n)
  | PIPE l r =>
      let '(wl, n') := wire opens l i (PipeW n) (S n) in
      let '(wr, n') := wire opens r (PipeR n) o n' in (wl ++ wr, n')
  | BACK c => wire opens c i o n
  end.

Section proofs.
Context (opens : list Z → Z → bool) (e : obj).
Definition on_std (w : list (list Z) * (obj * obj)) : list (list Z) * fds :=
  (w.1, std w.2.1 w.2.2 e).
Definition is_std (t : fds) : Prop := ∃ i o, t = std i o e.

Lemma runcmd_std c i o n :
  cmd_all (λ _, True) c →
  let '(p, n1) := runcmd opens c (std i o e) n in
  let '(ws, n2) := wire opens c i o n in
  n1 = n2 ∧ execs p = on_std <$> ws ∧ Forall is_std (waits p).
Proof.
  revert i o n. induction c as [argv|c IH f m fd|l IHl r IHr|l IHl r IHr|c IH]; intros i o n.
  - intros _. simpl. destruct argv; [by auto|]. rewrite decide_False by done. auto.
  - intros (Hc & _ & Hk). cbn [runcmd wire]. destruct (opens f m); [|by auto].
    unfold redir_kinds in Hk. rewrite !elem_of_cons in Hk.
    destruct Hk as [[= -> ->]|[[= -> ->]|[[= -> ->]|Hk%not_elem_of_nil]]]; [..|done].
    + apply (IH (Opened f _) o n Hc).
    + apply (IH i (Opened f _) n Hc).
    + apply (IH i (Opened f _) n Hc).
  - intros [Hl Hr]. cbn [runcmd wire].
    change (fd_open (std i o e) (PipeR n)) with (Some (3%nat, <[3%nat := Some (PipeR n)]> (std i o e))).
    cbv iota beta.
    change (fd_open _ (PipeW n)) with
      (Some (4%nat, <[4%nat := Some (PipeW n)]> (<[3%nat := Some (PipeR n)]> (std i o e)))).
    cbv iota beta zeta.
    set (t := <[4%nat := _]> _).
    change (fd_close (fd_close (fd_dup (fd_close t 1) 4) 3) 4) with (std i (PipeW n) e).
    change (fd_close (fd_close (fd_dup (fd_close t 0) 3) 3) 4) with (std (PipeR n) o e).
    change (fd_close (fd_close t 3) 4) with (std i o e).
    specialize (IHl i (PipeW n) (S n) Hl).
    destruct (runcmd opens l _ _) as [pl n1], (wire opens l _ _ _) as [wl n2].
    destruct IHl as (-> & El & Wl). specialize (IHr (PipeR n) o n2 Hr).
    destruct (runcmd opens r _ _) as [pr n3], (wire opens r _ _ _) as [wr n4].
    destruct IHr as (-> & Er & Wr). split; [done|]. cbn [execs waits]. rewrite app_nil_r, El, Er, fmap_app.
    split; [done|]. rewrite !Forall_app. repeat constructor; auto; by eexists _, _.
  - intros [Hl Hr]. cbn [runcmd wire]. specialize (IHl i o n Hl).
    destruct (runcmd opens l _ _) as [pl n1], (wire opens l _ _ _) as [wl n2].
    destruct IHl as (-> & El & Wl). specialize (IHr i o n2 Hr).
    destruct (runcmd opens r _ _) as [pr n3], (wire opens r _ _ _) as [wr n4].
    destruct IHr as (-> & Er & Wr). split; [done|]. cbn [execs waits]. rewrite El, Er, fmap_app.
    split; [done|]. rewrite Forall_app. repeat constructor; auto. by eexists _, _.
  - intros Hc. cbn [runcmd wire]. specialize (IH i o n Hc).
    destruct (runcmd opens c _ _) as [p n1], (wire opens c _ _ _) as [w n2].
    destruct IH as (-> & El & Wl). split; [done|]. cbn [execs waits]. by rewrite !app_nil_r.
Qed.

(** All tables of a process tree. *)
Definition tables (p : script) : list fds := (execs p).*2 ++ waits p.
(** What a process may have open: what it was started with, a file, or an end
    of a pipe made since. *)
Definition source (i o : obj) (n : nat) (x : obj) : Prop :=
  x = i ∨ x = o ∨ x = e ∨ (∃ f m, x = Opened f m) ∨ ∃ k, (n ≤ k)%nat ∧ (x = PipeR k ∨ x = PipeW k).
Definition sourced (i o : obj) (n : nat) (p : script) : Prop :=
  ∀ t x, t ∈ tables p → Some x ∈ t → source i o n x.
Lemma std_source i o n t x : t = std i o e → Some x ∈ t → source i o n x.
Proof.
  intros ->. unfold std. rewrite elem_of_app, !elem_of_cons, elem_of_nil, elem_of_replicate. unfold source. naive_solver.
Qed.
Lemma source_weaken i o n i' o' n' x : source i' o' n' x → source i o n i' → source i o n o' → (n ≤ n')%nat → source i o n x.
Proof.
  intros [->|[->|[->|[Hf|(k & Hk & Hx)]]]] Hi Ho Hn; [done|done|unfold source; auto|unfold source; auto|].
  do 4 right. exists k. split; [lia|done].
Qed.
Lemma tables_fork c q t : t ∈ tables (Fork c q) ↔ t ∈ tables c ∨ t ∈ tables q.
Proof. unfold tables. simpl. rewrite fmap_app, !elem_of_app. tauto. Qed.
Lemma tables_wait t0 q t : t ∈ tables (Wait t0 q) ↔ t = t0 ∨ t ∈ tables q.
Proof. unfold tables. simpl. rewrite !elem_of_app, elem_of_cons. tauto. Qed.
Lemma tables_exit z t : t ∈ tables (Exit z) ↔ False.
Proof. unfold tables. simpl. by rewrite elem_of_nil. Qed.

(** The two sides of a pipe. *)
Lemma runcmd_pipe l r i o n :
  let '(pl, n1) := runcmd opens l (std i (PipeW n) e) (S n) in
  let '(pr, n2) := runcmd opens r (std (PipeR n) o e) n1 in
  runcmd opens (PIPE l r) (std i o e) n = (Fork pl (Fork pr (Wait (std i o e) (Wait (std i o e) (Exit 0)))), n2).
Proof.
  cbn [runcmd]. change (fd_open (std i o e) (PipeR n)) with (Some (3%nat, <[3%nat := Some (PipeR n)]> (std i o e))).
  cbv iota beta.
  change (fd_open _ (PipeW n)) with
    (Some (4%nat, <[4%nat := Some (PipeW n)]> (<[3%nat := Some (PipeR n)]> (std i o e)))).
  cbv iota beta zeta. set (t := <[4%nat := _]> _).
  change (fd_close (fd_close (fd_dup (fd_close t 1) 4) 3) 4) with (std i (PipeW n) e).
  change (fd_close (fd_close (fd_dup (fd_close t 0) 3) 3) 4) with (std (PipeR n) o e).
  change (fd_close (fd_close t 3) 4) with (std i o e).
  destruct (runcmd opens l _ _) as [pl n1]. by destruct (runcmd opens r _ _) as [pr n2].
Qed.
Lemma runcmd_sourced c i o n : cmd_all (λ _, True) c →
  (n ≤ (runcmd opens c (std i o e) n).2)%nat ∧ sourced i o n (runcmd opens c (std i o e) n).1.
Proof.
  revert i o n. induction c as [argv|c IH f m fd|l IHl r IHr|l IHl r IHr|c IH]; intros i o n.
  - intros _. simpl. destruct argv; (split; [done|]); intros t x; [by rewrite tables_exit|].
    unfold tables. simpl. rewrite elem_of_cons, elem_of_nil. intros [->|[]]. by apply std_source.
  - intros (Hc & _ & Hk). cbn [runcmd]. destruct (opens f m); [|split; [done|]; intros t x; by rewrite tables_exit].
    assert (∀ i' o' p, sourced i' o' n p → source i o n i' → source i o n o' → sourced i o n p) as Hw.
    { intros i' o' p Hp Hi Ho t x Ht Hx. eapply source_weaken; [by eapply Hp|done|done|done]. }
    assert (source i o n (Opened f m)) as Hf by (do 3 right; left; eauto).
    unfold redir_kinds in Hk. rewrite !elem_of_cons in Hk.
    destruct Hk as [[= -> ->]|[[= -> ->]|[[= -> ->]|Hk%not_elem_of_nil]]]; [..|done].
    + destruct (IH (Opened f 0) o n Hc) as [Hn Hs]. split; [exact Hn|]. eapply Hw; [exact Hs|done|unfold source; auto].
    + destruct (IH i (Opened f 0x601) n Hc) as [Hn Hs]. split; [exact Hn|]. eapply Hw; [exact Hs|unfold source; auto|done].
    + destruct (IH i (Opened f 0x201) n Hc) as [Hn Hs]. split; [exact Hn|]. eapply Hw; [exact Hs|unfold source; auto|done].
  - intros [Hl Hr]. pose proof (runcmd_pipe l r i o n) as Hp. destruct (IHl i (PipeW n) (S n) Hl) as [Hn1 Hs1].
    destruct (runcmd opens l _ _) as [pl n1]. destruct (IHr (PipeR n) o n1 Hr) as [Hn2 Hs2].
    destruct (runcmd opens r _ _) as [pr n2]. rewrite Hp. simpl in *. split; [lia|]. intros t x.
    rewrite !tables_fork, !tables_wait, tables_exit. intros [Ht|[Ht|[Ht|[Ht|[]]]]] Hx; [..|by eapply std_source|by eapply std_source].
    + eapply source_weaken; [by eapply Hs1|unfold source; auto| |lia]. do 4 right. exists n. auto.
    + eapply source_weaken; [by eapply Hs2| |unfold source; auto|lia]. do 4 right. exists n. auto.
  - intros [Hl Hr]. cbn [runcmd]. destruct (IHl i o n Hl) as [Hn1 Hs1]. destruct (runcmd opens l _ _) as [pl n1].
    destruct (IHr i o n1 Hr) as [Hn2 Hs2]. destruct (runcmd opens r _ _) as [pr n2]. simpl in *. split; [lia|]. intros t x.
    rewrite tables_fork, tables_wait. intros [Ht|[Ht|Ht]] Hx; [by eapply Hs1|by eapply std_source|].
    eapply source_weaken; [by eapply Hs2|unfold source; auto|unfold source; auto|lia].
  - intros Hc. cbn [runcmd]. destruct (IH i o n Hc) as [Hn Hs]. destruct (runcmd opens c _ _) as [p n1]. simpl in *. split; [done|].
    intros t x. rewrite tables_fork, tables_exit. intros [Ht|[]] Hx. by eapply Hs.
Qed.
(** An object that is no end of the [n]-th pipe or a later one. *)
Definition older (n : nat) (x : obj) : Prop :=
  match x with PipeR k | PipeW k => (k < n)%nat | _ => True end.
Lemma pipe_ends l r i o n : cmd_all (λ _, True) l → cmd_all (λ _, True) r → older n i → older n o → older n e →
  ∃ pl pr, (runcmd opens (PIPE l r) (std i o e) n).1 = Fork pl (Fork pr (Wait (std i o e) (Wait (std i o e) (Exit 0)))) ∧
    (∀ t, t ∈ tables pl → Some (PipeR n) ∉ t) ∧ (∀ t, t ∈ tables pr → Some (PipeW n) ∉ t).
Proof.
  intros Hl Hr Hi Ho He. pose proof (runcmd_pipe l r i o n) as Hp. pose proof (runcmd_sourced l i (PipeW n) (S n) Hl) as [Hn1 Hs1].
  destruct (runcmd opens l _ _) as [pl n1]. pose proof (runcmd_sourced r (PipeR n) o n1 Hr) as [_ Hs2].
  destruct (runcmd opens r _ _) as [pr n2]. rewrite Hp. exists pl, pr. simpl in *. split_and!; [done| |].
  - intros t Ht Hx. destruct (Hs1 t _ Ht Hx) as [<-|[E|[<-|[(f & m & E)|(k & Hk & [[= <-]|E])]]]]; simpl in *; (done || lia).
  - intros t Ht Hx. destruct (Hs2 t _ Ht Hx) as [E|[<-|[<-|[(f & m & E)|(k & Hk & [E|[= <-]])]]]]; simpl in *; (done || lia).
Qed.
End proofs.

(** C30: the shell wires commands as their meaning says. Started with only its
    three standard descriptors, the process tree of [runcmd] executes exactly
    the programs of the command in order, each with the pipe end or file the
    command gives it as standard input and output, the inherited standard
    error, and no other descriptor open; and a shell that waits for its
    children has nothing but three standard descriptors open either.  For a
    pipe, the write end is open only in processes of the left command and the
    read end only in processes of the right one: not in the shell that made
    the pipe and waits, nor on the other side, so that a reader sees the end
    of its input when the left command is done. *)
Theorem runcmd_wires opens c i o e n :
  cmd_all (λ _, True) c → older n i → older n o → older n e →
  let p := (runcmd opens c (std i o e) n).1 in
  execs p = on_std e <$> (wire opens c i o n).1 ∧ Forall (is_std e) (waits p) ∧
  ∀ l r, c = PIPE l r → ∃ pl pr,
    p = Fork pl (Fork pr (Wait (std i o e) (Wait (std i o e) (Exit 0)))) ∧
    (∀ t, t ∈ tables pl → Some (PipeR n) ∉ t) ∧ (∀ t, t ∈ tables pr → Some (PipeW n) ∉ t) ∧
    Some (PipeR n) ∉ std i o e ∧ Some (PipeW n) ∉ std i o e.
Proof.
  intros Hc Hi Ho He. split_and!.
  - pose proof (runcmd_std opens e c i o n Hc) as H.
    destruct (runcmd opens c _ n) as [p n1], (wire opens c i o n) as [w n2]. by destruct H as (_ & ? & ?).
  - pose proof (runcmd_std opens e c i o n Hc) as H.
    destruct (runcmd opens c _ n) as [p n1], (wire opens c i o n) as [w n2]. by destruct H as (_ & ? & ?).
  - intros l r ->. destruct Hc as [Hl Hr]. destruct (pipe_ends opens e l r i o n Hl Hr Hi Ho He) as (pl & pr & E & H1 & H2).
    exists pl, pr. split_and!; [done|done|done|..]; unfold std;
      rewrite elem_of_app, !elem_of_cons, elem_of_nil, elem_of_replicate;
      (intros [[[= <-]|[[= <-]|[[= <-]|[]]]]|[? _]]; simpl in *; (done || lia)).
Qed.
Lemma runcmd_wires_witness :
  let c := PIPE (EXEC [str "ls"]) (REDIR (EXEC [str "wc"]) (str "out") 0x601 1) in
  let t := std (Inherited 0) (Inherited 1) (Inherited 2) in
  let p := (runcmd (λ _ _, true) c t 0).1 in
  execs p = on_std (Inherited 2) <$> (wire (λ _ _, true) c (Inherited 0) (Inherited 1) 0).1 ∧
  ∃ pl pr, p = Fork pl (Fork pr (Wait t (Wait t (Exit 0)))) ∧ ∀ t, t ∈ tables pr → Some (PipeW 0) ∉ t.
Proof.
  intros c t. destruct (runcmd_wires (λ _ _, true) c (Inherited 0) (Inherited 1) (Inherited 2) 0) as (Hx & _ & Hp).
  - unfold c. cbn [cmd_all]. unfold MAXARGS, redir_kinds.
    repeat split; by apply (bool_decide_unpack _); vm_compute.
  - exact I.
  - exact I.
  - exact I.
  - split; [exact Hx|]. destruct (Hp _ _ eq_refl) as (pl & pr & E & _ & H2 & _). exists pl, pr. split; [exact E|exact H2].
Defined.
